(* ===== verification/_CoqProject ===== *)
-Q . S2P
Prelude.v
RustStr.v
Paths.v
Permissions.v
PermissionsFacts.v
PermissionsLaws.v
SandboxRoots.v
SandboxRootsFacts.v
PermissionProfiles.v
PermissionProfilesFacts.v
SeekSequence.v
PatchParser.v
PatchParserFacts.v
PatchPrinter.v
PatchApply.v
PatchFs.v
PatchDelta.v
StreamText.v
InlineTag.v
InlineTagFacts.v
TaggedLine.v
TaggedLineFacts.v
AssistantText.v
Utf8Stream.v
HeadTail.v
Truncate.v
OutputItems.v
ExecRule.v
ExecPolicy.v
History.v
HistoryFacts.v
HistoryOps.v
HistoryOpsFacts.v
ShellParse.v
ShellParseFacts.v
CommandSafety.v
CommandSafetyFacts.v
PasteBurst.v
TableDetect.v
StreamChunking.v
StreamCore.v
StreamCoreFacts.v
StreamLaws.v
AgentRegistry.v
AgentRegistryFacts.v
NetAddr.v
NetAddrText.v
NetDomain.v
NetDomainFacts.v
NetConfig.v
NetHooks.v
NetState.v
NetInstances.v
NetHooksFacts.v
NetStateFacts.v
NetRuntime.v
NetTasks.v
NetHandlers.v
NetHandlersFacts.v
CredentialBroker.v
CredentialBrokerFacts.v
ExecApproval.v
ExecApprovalFacts.v
ToolOrchestrator.v
ShellTool.v
MergePatch.v
Tables.v
ThreadItems.v
WorldState.v
ThreadHistory.v
ThreadHistoryFacts.v
ThreadHistoryLaws.v
ThreadHistoryRuns.v
SessionLog.v
RolloutReplay.v
RolloutReplayFacts.v
SessionResume.v
RolloutFork.v
RolloutProjection.v
RolloutProjectionFacts.v
