(* ===== verification/Prelude.v ===== *)
(** * Verification of the core text and policy machinery of DCode

    DCode is a command-line coding agent (the Rust workspace [codex-rs/]).  Its
    agent loop, terminal interface and servers are input and output around a
    set of pure or nearly pure routines that decide what the agent may do and
    what the model and the user get to see.  This library models those routines
    and proves what makes them correct.

    ** The modelled parts and how they work together

    - Patches.  The model edits files with patches in a small language.
      [apply-patch/src/streaming_parser.rs] and [parser.rs] read a patch,
      [seek_sequence.rs] finds the lines a chunk talks about, and [lib.rs]
      computes the new contents and applies the hunks to a file system, recording
      what it did.
    - Streamed text.  [utils/stream-parser] takes the text of an assistant
      message as it arrives, hides citations and splits off plan blocks;
      [Utf8StreamParser] feeds such a parser from bytes.
    - Bounded output.  [HeadTailBuffer] of [core/src/unified_exec] keeps the ends
      of the output of a process; [utils/string] and [utils/output-truncation]
      cut texts and tool results to a budget before the model sees them.
    - Command rules.  [execpolicy] decides a command by prefix rules;
      [shell-command] parses shell scripts and says which commands are known to
      be safe, and which to be dangerous.
    - Approvals and runs.  [core/src/exec_policy.rs] turns both into what has to
      happen before a command runs, loads the rules of all configuration layers
      and adds the rules that users accept ([execpolicy/src/amend.rs]);
      [core/src/tools] takes a shell command from the model's request through
      granted permissions, approval and the choice of a sandbox to its run, and
      perhaps to a second run without one.
    - Network.  [network-proxy] lets commands reach the network through a proxy:
      host and address rules within managed constraints, hooks on intercepted
      requests, limited mode, and a broker that keeps credentials out of the
      environment of child processes.
    - File permissions.  [protocol/src/permissions.rs] says what a sandbox policy
      lets a path be read or written, and projects it to the roots that the
      operating system enforces and to the older policy format;
      [protocol/src/models.rs] and [sandboxing/src/policy_transforms.rs] combine
      profiles with granted permissions, and [core/src/safety.rs] uses both to
      approve a patch.  All of it stands on [utils/absolute-path].
    - History.  [core/src/context_manager] keeps the conversation, normalises it
      before it is sent to the model and estimates its size.
    - Sessions on disk.  A session appends what happens to a rollout file
      ([core/src/session/mod.rs], [rollout/src/policy.rs]), with the state of the
      world as merge patches ([core/src/context/world_state]).  From the file the
      session is rebuilt ([core/src/session/rollout_reconstruction.rs]), forked
      ([core/src/thread_rollout_truncation.rs], [thread_manager.rs]), shown as
      turns and items ([app-server-protocol/src/protocol/thread_history.rs]) and
      kept in tables line by line ([thread-store/src/local]).
    - Terminal streams.  [tui/src/streaming] turns a growing Markdown source into
      committed lines: a collector and an incremental renderer, a scanner that
      holds tables back, a queue and a policy for how fast to empty it.
      [tui/src/bottom_pane/paste_burst.rs] recognises pastes in fast key presses.
    - Sub-agents.  [protocol/src/agent_path.rs] names the agents of a session,
      [core/src/agent/registry.rs] counts and registers them from many threads.

    ** Files

    Sources are under [src/codex-rs/]; Rust names are kept where a name is free.
    A file [XFacts] or [XLaws] holds the theorems of [X]; the theorems of a
    component without such a file follow its definitions.
    - [Prelude]: results with [let?], tactics, the hint database [dcode],
      saturating [usize] arithmetic, lemmas on lists.
    - [RustStr]: Rust strings as lists of Unicode scalar values, with the
      operations of the standard library that the code uses.
    - [Paths]: paths as lists of components and [AbsolutePathBuf], over the class
      [Host]; [Permissions]: sandbox policies, access to a path, default and
      materialised policies; [PermissionsFacts] and [PermissionsLaws]: their
      theorems; [SandboxRoots] and [SandboxRootsFacts]: roots, legacy policies
      and [ReadDenyMatcher]; [PermissionProfiles] and
      [PermissionProfilesFacts]: profiles, grants and the safety of patches.
    - [SeekSequence]: [seek_sequence] and its four passes.
    - [PatchParser]: the state of [StreamingPatchParser] as a record,
      [process_line] with the handler of each mode, [push_delta], [finish] and
      [parse_patch]; [PatchParserFacts] and [PatchPrinter] hold its theorems.
    - [PatchApply]: [compute_replacements], [apply_replacements] and the new
      contents of a file.
    - [PatchFs]: [apply_hunks_to_files], one definition per kind of hunk, over
      the class [ExecutorFileSystem]; [PatchDelta] states the laws of a file
      system and what an exact delta promises, and has an in-memory instance.
    - [StreamText]: the trait [StreamTextParser] as a class and the law that
      chunks do not matter ([LawfulParser]); [InlineTag] and [InlineTagFacts]:
      hidden inline tags and citations; [TaggedLine] and [TaggedLineFacts]:
      tagged lines and proposed plans; [AssistantText]: their composition;
      [Utf8Stream]: the adapter, proved for every lawful parser.
    - [HeadTail]: the output buffer; [Truncate]: cutting a text in the middle;
      [OutputItems]: fitting content items into a budget.
    - [ExecRule]: decisions, patterns, rules and hosts; [ExecPolicy]: policies
      over the classes [MultiMap] and [AbsolutePath], and their theorems.
    - [History]: items of the conversation and their normalisation;
      [HistoryFacts].  [HistoryOps]: the context manager, with token usage and
      estimates; [HistoryOpsFacts].
    - [ShellParse]: shell detection and the walks over a syntax tree;
      [ShellParseFacts].  [CommandSafety]: the safelist and the dangerous-command
      rules; [CommandSafetyFacts].
    - [PasteBurst]: the detector and what the composer does with a character.
    - [TableDetect]: tables, fences and the holdback scanner; [StreamChunking]:
      the draining policy; [StreamCore]: collector, queue, incremental render,
      the two controllers and the commit tick, over the class [Renderer];
      [StreamCoreFacts] and [StreamLaws]: their invariant and theorems.
    - [AgentRegistry]: agent paths and the registry, with its concurrent callers
      as processes that interleave; [AgentRegistryFacts].
    - [NetAddr] and [NetAddrText]: IP addresses, their classes and texts;
      [NetDomain] and [NetDomainFacts]: hosts, domain patterns and glob sets;
      [NetConfig]: configuration and listen addresses;
      [NetHooks] and [NetHooksFacts]: hooks; [NetState] and [NetStateFacts]:
      managed constraints and the running state; [NetRuntime]:
      decisions about hosts, sockets and connections;
      [NetTasks]: concurrent changes of the state;
      [NetHandlers] and [NetHandlersFacts]: HTTP, CONNECT, SOCKS and intercepted
      requests; [NetInstances]: instances of the parameters.
    - [CredentialBroker] and [CredentialBrokerFacts]: dummies and injection.
    - [ExecApproval] and [ExecApprovalFacts]: requirements for commands,
      proposed rules, loading; [ToolOrchestrator]:
      approval, attempts and retries over an [Environment]; [ShellTool]:
      the shell tool on top of both, and cached approvals.
    - [MergePatch]: JSON values, merge patches and their round trip;
      [WorldState]: sections, snapshots and what the model is told of a change.
    - [ThreadItems]: the events and items of the protocol, the records of a
      rollout and the items of the application server, over the class [Wire];
      [ThreadHistory]: the builder of a thread history, one definition per event,
      with its change sets and their accumulator; [ThreadHistoryFacts],
      [ThreadHistoryLaws] and [ThreadHistoryRuns]: its invariant, the laws of
      change sets and whole runs.  [Tables]: lists with one entry per key.
    - [SessionLog]: what a session persists and the operations that record it;
      [RolloutReplay] and [RolloutReplayFacts]: reconstruction; [SessionResume]:
      a live session against the one that is rebuilt from its rollout.
    - [RolloutFork]: truncations and forks;
      [RolloutProjection] and [RolloutProjectionFacts]: the tables of a thread.

    ** What the theorems show

    - Approvals and runs (C1, C7, C12, C28 to C31): a shell command is tried
      outside the sandbox only with an approval, by rules that all allow it, or
      on the model's request where files are not restricted; what runs without a
      question is allowed by rule or harmless, as far as the approval policy
      says so; managed rules bind for the whole session for commands that are
      written as the rules are; a proposed rule does what it is proposed for; the
      strictest command decides; a refusal ends the call; cached approvals were
      given.
    - Patches (C2, C11, C16 to C19): an exact delta replays and undoes what
      happened, also when the run failed half-way; the hunks shown while a patch
      streams in only ever grow; printing a patch and reading it gives the hunks back; the
      position found is the first one of the strictest pass that has any; parsed
      hunks are complete; updates only edit the regions of their chunks.
    - Sessions on disk (C3, C6, C9, C14, C15, C26, C27): a session that has not
      been rolled back is rebuilt from its rollout with its history, up to the
      truncation policy of the model it is resumed with, and its world state; the
      change sets of a thread history, applied in any batches, give
      the history that is built at once; materialising a growing file in several
      passes gives the tables of one pass, and finished turns are final in them;
      the early exit of the reconstruction loses nothing as long as a checkpoint
      survives; a cut ends right before the first message that is not kept;
      a fork of an interrupted thread is never in the middle of a turn.
    - File permissions (C4, C20 to C25): every path that a writable root admits
      is writable by the policy; the most specific entry decides; an intersection
      stays within the request and the grant, deny patterns with a plain prefix
      included; a patch approved without asking only touches writable paths,
      unless the whole disk is writable; a bad glob denies everything; the default
      policy protects repository metadata; legacy policies survive the round trip.
    - Network (C5, C8, C13, C32 to C34): no direct connection to a private address that
      was not allowed by name, however names resolve, and private names are not
      handed to an upstream proxy; constraints hold in every
      interleaving and bound the hosts that are allowed; what is accepted in
      limited mode only reads; credentials reach only the hosts they are bound to, and registering one
      ends exactly when it can.
    - Streamed text and bounded output (C36 to C38): the assistant parser refines
      a reference definition on the complete text; the buffer is a function of
      all bytes ever pushed; truncated texts are a prefix and a suffix within the
      budget.
    - History (C39): after normalisation calls and outputs are paired.
    - Terminal streams (C10, C40): no operation of a stream panics; a stale
      backlog is drained at once.
    - Sub-agents (C35): the limit holds in every interleaving.
    Further theorems of the same files cover updates that never panic, claims of
    full access, deny rules that survive a change of policy, absolute paths in
    policies, deltas of a patch that may be cut anywhere, overlays that only tighten, commands that are not both safe and dangerous,
    chunk independence of each parser, rollbacks, hysteresis and delivery of
    terminal streams, slots and paths of agents, clamped listen addresses, host
    and port texts, idempotent brokering, error lines of patches, here-document
    wrappers, balanced plan blocks, reported UTF-8 errors, token budgets, output
    items, networks and hosts in policies, order and content of the normalised
    history, read-only git commands, source order of plain scripts, wrapper depth,
    monotonicity of added roots, effective profiles, recording and saturation,
    a decider that only extends the allow list, inclusion of host patterns, the
    order of hooks, brokered credentials that come back, UTF-8 across chunks, the
    incremental table scanner, typed characters that are not lost, the round trip
    of merge patches, rollbacks that keep a prefix of the turns, coalesced change
    sets, steps that are written as they were read.
    [SeekSequence.seek_sequence_spec], [PatchApply.pure_addition_lost],
    [PermissionsLaws.full_disk_write_without_slash_tmp],
    [PermissionProfilesFacts.intersection_drops_read_only_subpath],
    [PermissionProfilesFacts.intersection_loses_brace_glob],
    [HistoryFacts.search_output_without_id_is_kept],
    [NetHandlersFacts.tunnel_keeps_its_mode],
    [HistoryOpsFacts.rollback_without_turns],
    [PasteBurst.enter_after_held_char_loses_it],
    [NetStateFacts.port_pattern_escapes_managed_list],
    [NetTasks.recorded_entry_lost], [NetTasks.force_reload_resets_total],
    [CredentialBrokerFacts.masked_tokens_never_brokered],
    [CredentialBrokerFacts.dummy_spells_out_key],
    [ExecApprovalFacts.path_rule_shadows_forbidden_name],
    [ShellTool.escalation_skips_network_sandbox],
    [ShellTool.any_program_called_bash_is_trusted],
    [ThreadHistoryRuns.review_item_before_turn_started],
    [SessionResume.rolled_back_checkpoint_loses_history] and
    [RolloutFork.fork_after_late_completion] record behaviour that differs
    from a comment or loses something.

    ** Effects, bounds and fuel

    Mutable state is passed explicitly; an error is [Err]; a panic is [None] in
    the functions that can panic ([apply_replacements], slicing in [Truncate] and
    [StreamCore], [from_matches], [error_or_panic] in debug builds, overflowing
    [i64] additions of [HistoryOps]).  Threads are the processes of
    [AgentRegistry.exec], which steps at each atomic operation and each critical
    section, with a compare-exchange that may fail spuriously, and the tasks of
    [NetTasks.step], which step at each critical section of the state's lock.
    Request handlers see the state anew at each question, through a function
    [views].  [usize] counters that
    saturate in the code saturate at [USIZE_MAX] here; sizes for which the code
    does not saturate are bounded in the hypotheses.  Loops that are not
    structural have fuel, and the theorems hold for the fuel the definitions
    fix: one more than the length of the pending text for the hidden-tag parser
    (every further round consumes a delimiter), the number of bytes for UTF-8 decoding
    (every step consumes one), the length of the path for shell detection (every
    step shortens it), the length of a path for its ancestors, the length of the
    line for nested block quotes (every marker is one character), the number of
    nodes for walks over a tree ([ShellParseFacts.visit_perm]), the depth limit
    and two for the dangerous-command rules, which stop one past the limit, the
    length of the buffer for dropping its excess, the groups left for reading an
    IPv6 address.  The search for an unused dummy of [CredentialBroker] may run
    on: its fuel is an argument, and C34 says when some fuel is enough.
    The scans and replays of a rollout are structural; byte offsets and ordinals
    of its lines are checked at the widths of [u64] and of SQLite's integers.

    ** Parameters

    Code outside the repository and the traits of the code are arguments or
    classes: the file system of patches, the multimap of rules, paths of
    executables, UUIDs, the audio token estimate, the tree-sitter parser, the
    host's file system and environment ([Host]), conversion of URIs ([PathUri]),
    the glob library, lengths of serialised items and decoded images, the Markdown
    renderer ([Renderer]), images among pasted paths, random choices and clocks,
    the crates [globset], [url] and [http] ([Globs], [UrlHost], [UrlParser],
    [HttpTypes]), name lookup, the proxies of the environment, the decider and the reloader of the proxy, secrets,
    JSON, quoting for display, the Starlark parser ([PolicyParser]), the answers
    and outcomes that the orchestrator meets ([Environment]), the texts and
    identifiers that rollout records are made with ([Wire]), parsing of JSON
    lines, timestamps and UUIDs, the recognition of standard contextual texts and
    of messages between agents, the preparation of items that are recorded, and
    the contents of world-state sections.
    Laws about them are hypotheses of the theorems that use them, and each has an
    instance that satisfies them.  Two of them simplify: the laws of the file
    system of patches take different URIs for different files (no links), and
    UUIDs come from one sequence per run, so that runs that are compared draw the
    same ones.

    ** Not modelled

    What is left is input and output, code that a library does, or data without
    logic: the agent loop (tasks, mailboxes and cancellation around the modelled
    operations), requests to models and providers, JSON-RPC servers and clients,
    files and SQL queries, operating-system sandboxes, processes and terminals,
    widgets, Markdown rendering, unified diffs and the turn diff tracker, the
    Starlark front end of the policy language and the rendering of rules
    ([get_allowed_prefixes]), PowerShell and Windows rules, the layers of TOML
    configuration, and the listeners, certificates and byte streams of the proxy.
    Of the modelled parts, page queries on the tables of a thread, notifications
    and approval requests of the application server and the popups and attachments
    of the composer are not modelled. *)

From stdpp Require Export base list option numbers strings sets.
From Stdlib Require Export NArith Lia.

#[export] Set Default Goal Selector "!".
#[global] Open Scope list_scope.

(** ** Results

    Rust's [Result<T, E>], with [?] written as [let?]. *)

Inductive result (T E : Type) : Type :=
| Ok (t : T)
| Err (e : E).
Arguments Ok {T E} t.
Arguments Err {T E} e.

Definition result_bind {T U E} (r : result T E) (k : T -> result U E) : result U E :=
  match r with
  | Ok t => k t
  | Err e => Err e
  end.

Declare Scope dcode_scope.
Delimit Scope dcode_scope with dcode.
Notation "'let?' x ':=' r 'in' k" := (result_bind r (fun x => k))
  (at level 10, x pattern, r at level 100, k at level 200) : dcode_scope.
#[global] Open Scope dcode_scope.

Definition is_ok {T E} (r : result T E) : bool :=
  match r with Ok _ => true | Err _ => false end.

#[global] Instance result_eq_dec {T E} `{EqDecision T} `{EqDecision E} :
  EqDecision (result T E).
Proof. solve_decision. Defined.

Lemma result_bind_Ok {T U E} (r : result T E) (k : T -> result U E) u :
  result_bind r k = Ok u <-> exists t, r = Ok t /\ k t = Ok u.
Proof. destruct r; naive_solver. Qed.

Lemma result_bind_Err {T U E} (r : result T E) (k : T -> result U E) e :
  result_bind r k = Err e <-> r = Err e \/ exists t, r = Ok t /\ k t = Err e.
Proof. destruct r; naive_solver. Qed.

Lemma result_bind_assoc {T U V E} (r : result T E) (k : T -> result U E) (h : U -> result V E) :
  result_bind (result_bind r k) h = result_bind r (fun t => result_bind (k t) h).
Proof. by destruct r. Qed.

(** ** Tactics of the development *)

(** Case analysis on every [match] and [if] of the goal or the hypotheses,
    with the resulting equations simplified. *)
Ltac split_cases :=
  repeat (first [progress simplify_eq/= | case_match]).

(** Inversion of [let?] chains in the hypotheses. *)
Ltac inv_bind :=
  repeat match goal with
  | H : result_bind _ _ = Ok _ |- _ =>
      let Hr := fresh H "r" in
      apply result_bind_Ok in H as (? & Hr & H)
  | H : Ok _ = Ok _ |- _ => injection H as H; subst
  | H : Err _ = Err _ |- _ => injection H as H; subst
  | H : Ok _ = Err _ |- _ => discriminate H
  | H : Err _ = Ok _ |- _ => discriminate H
  end.

Create HintDb dcode.
Create Rewrite HintDb dcode.

(** ** Machine integers: [usize] and [u64] on a 64-bit target *)

Definition USIZE_MAX : N := 18446744073709551615%N.
Definition sat_add (a b : N) : N := N.min USIZE_MAX (a + b).
Definition sat_mul (a b : N) : N := N.min USIZE_MAX (a * b).

Lemma sat_add_exact a b : (a + b <= USIZE_MAX)%N -> sat_add a b = (a + b)%N.
Proof. unfold sat_add. lia. Qed.

Lemma sat_mul_exact a b : (a * b <= USIZE_MAX)%N -> sat_mul a b = (a * b)%N.
Proof. unfold sat_mul. lia. Qed.

Lemma sat_add_bound a b : (sat_add a b <= USIZE_MAX)%N.
Proof. unfold sat_add. lia. Qed.

(** [len] of a list as a machine integer. *)
Definition lenN {A} (l : list A) : N := N.of_nat (length l).

Lemma lenN_app {A} (l k : list A) : lenN (l ++ k) = (lenN l + lenN k)%N.
Proof. unfold lenN. rewrite length_app. lia. Qed.

Lemma lenN_nil {A} : lenN (@nil A) = 0%N.
Proof. done. Qed.

Lemma lenN_cons {A} (x : A) l : lenN (x :: l) = (1 + lenN l)%N.
Proof. unfold lenN. simpl. lia. Qed.

#[export] Hint Rewrite @lenN_app @lenN_nil @lenN_cons : dcode.

(** ** Lists *)

(** Update of the last element, as [last_mut] followed by an assignment. *)
Fixpoint update_last {A} (f : A -> A) (l : list A) : list A :=
  match l with
  | [] => []
  | [x] => [f x]
  | x :: l' => x :: update_last f l'
  end.

Lemma update_last_snoc {A} (f : A -> A) l x : update_last f (l ++ [x]) = l ++ [f x].
Proof.
  induction l as [|y l IH]; [done|].
  simpl. rewrite IH. by destruct l.
Qed.

Lemma length_update_last {A} (f : A -> A) l : length (update_last f l) = length l.
Proof.
  destruct l as [|x l] using rev_ind; [done|].
  by rewrite update_last_snoc, !length_app.
Qed.

Lemma last_update_last {A} (f : A -> A) l : last (update_last f l) = f <$> last l.
Proof.
  destruct l as [|x l] using rev_ind; [done|].
  by rewrite update_last_snoc, !last_snoc.
Qed.

Lemma last_Some_snoc {A} (l : list A) x : last l = Some x <-> exists l', l = l' ++ [x].
Proof.
  split; [|intros [l' ->]; apply last_snoc].
  destruct l as [|y l] using rev_ind; [done|].
  rewrite last_snoc. intros [= ->]. eauto.
Qed.

(** First element satisfying a boolean test: [iter().position]. *)
Fixpoint position {A} (p : A -> bool) (l : list A) : option nat :=
  match l with
  | [] => None
  | x :: l' => if p x then Some 0 else S <$> position p l'
  end.

Lemma position_Some {A} (p : A -> bool) l i :
  position p l = Some i <->
  exists x, l !! i = Some x /\ p x = true /\
    forall j y, j < i -> l !! j = Some y -> p y = false.
Proof.
  revert i. induction l as [|x l IH]; intros i; simpl.
  { split; [done|intros (? & ? & _); done]. }
  destruct (p x) eqn:E.
  - split.
    + intros [= <-]. exists x. split; [done|]. split; [done|]. intros; lia.
    + intros (y & Hi & Hy & Hlt). destruct i as [|i]; [done|].
      specialize (Hlt 0 x ltac:(lia) eq_refl). congruence.
  - rewrite fmap_Some. split.
    + intros (i' & Hi' & ->). apply IH in Hi' as (y & Hl & Hy & Hlt).
      exists y. split; [done|]. split; [done|].
      intros [|j] z Hj Hz; simpl in *; [congruence|]. apply (Hlt j); [lia|done].
    + intros (y & Hl & Hy & Hlt). destruct i as [|i]; simpl in *; [congruence|].
      exists i. split; [|done]. apply IH. exists y. split; [done|]. split; [done|].
      intros j z Hj Hz. apply (Hlt (S j)); [lia|done].
Qed.

Lemma position_None {A} (p : A -> bool) l :
  position p l = None <-> forall x, x ∈ l -> p x = false.
Proof.
  induction l as [|x l IH]; simpl.
  { split; [by intros _ x Hx%not_elem_of_nil|done]. }
  destruct (p x) eqn:E.
  - split; [done|]. intros H. rewrite (H x) in E; [done|]. by left.
  - rewrite fmap_None, IH. split.
    + intros H y [->|Hy]%elem_of_cons; auto.
    + intros H y Hy. apply H. by right.
Qed.

Lemma omap_cons_eq {A B} (f : A -> option B) x l :
  omap f (x :: l) = match f x with Some y => y :: omap f l | None => omap f l end.
Proof. done. Qed.

Lemma app_eq_length_split {A} (l1 l2 k1 k2 : list A) :
  l1 ++ k1 = l2 ++ k2 -> length l1 <= length l2 ->
  exists m, l2 = l1 ++ m /\ k1 = m ++ k2.
Proof.
  revert l2. induction l1 as [|x l1 IH]; intros l2 Heq Hlen; simpl in *.
  - exists l2. done.
  - destruct l2 as [|y l2]; simpl in *; [lia|].
    injection Heq as -> Heq. destruct (IH l2 Heq) as (m & -> & ->); [lia|].
    by exists m.
Qed.

Lemma existsb_false {A} (p : A -> bool) l :
  existsb p l = false <-> forall x, x ∈ l -> p x = false.
Proof.
  induction l as [|x l IH]; simpl; [by split; [intros _ x Hx%not_elem_of_nil|]|].
  rewrite orb_false_iff, IH. split.
  - intros [Hx Hl] y [->|Hy]%elem_of_cons; auto.
  - intros Hall. split; [apply Hall; by left|]. intros y Hy. apply Hall. by right.
Qed.

Lemma existsb_true {A} (p : A -> bool) l :
  existsb p l = true <-> exists x, x ∈ l /\ p x = true.
Proof. rewrite existsb_exists. by setoid_rewrite list_elem_of_In. Qed.
