(* ===== verification/RustStr.v ===== *)
(** * Rust strings

    A [String]/[&str] is the list of its Unicode scalar values.  Byte offsets
    of the source are always char boundaries, so slices and searches are
    written on that list; [byte_len] gives the UTF-8 length the source calls
    [len].  The operations are the ones of Rust's standard library that the
    modelled crates use. *)

From Stdlib Require Import Ascii.
From stdpp Require Import pretty.
From S2P Require Import Prelude.

(** ** Characters *)

Abbreviation char := N.
Abbreviation str := (list N).

(** String literals of the source (ASCII). *)
Fixpoint lit (s : string) : str :=
  match s with
  | EmptyString => []
  | String a s' => N_of_ascii a :: lit s'
  end.

Notation "'s!' x" := (lit x%string) (at level 8, x constr at level 0) : dcode_scope.

Definition nl : char := 10%N.
Definition cr : char := 13%N.

Definition in_range (lo hi c : N) : bool := (lo <=? c)%N && (c <=? hi)%N.

(** [char::is_whitespace]: the Unicode property White_Space. *)
Definition is_whitespace (c : char) : bool :=
  in_range 9 13 c || (c =? 32)%N || (c =? 133)%N || (c =? 160)%N || (c =? 5760)%N
  || in_range 8192 8202 c || (c =? 8232)%N || (c =? 8233)%N || (c =? 8239)%N
  || (c =? 8287)%N || (c =? 12288)%N.

Definition is_ascii_digit (c : char) : bool := in_range 48 57 c.

Definition to_ascii_lowercase (s : str) : str :=
  (fun c => if in_range 65 90 c then (c + 32)%N else c) <$> s.

Definition to_ascii_uppercase (s : str) : str :=
  (fun c => if in_range 97 122 c then (c - 32)%N else c) <$> s.

(** [char::len_utf8]. *)
Definition len_utf8 (c : char) : N :=
  if (c <? 128)%N then 1 else if (c <? 2048)%N then 2 else if (c <? 65536)%N then 3 else 4.

(** [str::len]: bytes of the UTF-8 encoding. *)
Fixpoint byte_len (s : str) : N :=
  match s with
  | [] => 0
  | c :: s' => len_utf8 c + byte_len s'
  end.

(** ** Trimming *)

Fixpoint trim_start (s : str) : str :=
  match s with
  | [] => []
  | c :: s' => if is_whitespace c then trim_start s' else s
  end.

Definition trim_end (s : str) : str := reverse (trim_start (reverse s)).

Definition trim (s : str) : str := trim_end (trim_start s).

(** ** Prefixes, suffixes and searches *)

Fixpoint strip_prefix (p s : str) : option str :=
  match p, s with
  | [], _ => Some s
  | a :: p', b :: s' => if decide (a = b) then strip_prefix p' s' else None
  | _ :: _, [] => None
  end.

Definition starts_with (p s : str) : bool :=
  match strip_prefix p s with Some _ => true | None => false end.

Definition strip_suffix (p s : str) : option str :=
  reverse <$> strip_prefix (reverse p) (reverse s).

Definition ends_with (p s : str) : bool :=
  match strip_suffix p s with Some _ => true | None => false end.

(** [s.find(needle)], as an index into the characters. *)
Fixpoint find_str (needle s : str) : option nat :=
  if starts_with needle s then Some 0
  else match s with
       | [] => None
       | _ :: s' => S <$> find_str needle s'
       end.

Definition contains_str (needle s : str) : bool :=
  match find_str needle s with Some _ => true | None => false end.

Definition contains_char (c : char) (s : str) : bool := bool_decide (c ∈ s).

Definition str_eqb (a b : str) : bool := bool_decide (a = b).

Definition eq_ignore_ascii_case (a b : str) : bool :=
  str_eqb (to_ascii_lowercase a) (to_ascii_lowercase b).

Definition is_empty {A} (l : list A) : bool :=
  match l with [] => true | _ => false end.

(** ** Splitting and joining *)

(** [s.split(c)]: always at least one piece. *)
Fixpoint split_on (c : char) (s : str) : list str :=
  match s with
  | [] => [[]]
  | x :: s' =>
      if decide (x = c) then [] :: split_on c s'
      else match split_on c s' with
           | h :: t => (x :: h) :: t
           | [] => [[x]]
           end
  end.

Definition strip_cr (l : str) : str :=
  match strip_suffix [cr] l with Some l' => l' | None => l end.

(** [s.lines()]: pieces ended by a newline lose it and one carriage return
    before it; an unterminated last piece is kept as it is. *)
Definition lines (s : str) : list str :=
  let segs := split_on nl s in
  (strip_cr <$> removelast segs) ++
  match last segs with
  | Some (c :: l) => [c :: l]
  | _ => []
  end.

(** [parts.join(sep)]. *)
Fixpoint join (sep : str) (parts : list str) : str :=
  match parts with
  | [] => []
  | [p] => p
  | p :: rest => p ++ sep ++ join sep rest
  end.

Definition ch (s : string) : char := match lit s with c :: _ => c | [] => 0%N end.

(** [s.split_once(c)] *)
Fixpoint split_once (c : char) (s : str) : option (str * str) :=
  match s with
  | [] => None
  | x :: s' =>
      if decide (x = c) then Some ([], s')
      else match split_once c s' with Some (a, b) => Some (x :: a, b) | None => None end
  end.

(** [s.rsplit_once(c)] *)
Definition rsplit_once (c : char) (s : str) : option (str * str) :=
  match split_once c (reverse s) with
  | Some (a, b) => Some (reverse b, reverse a)
  | None => None
  end.

(** [s.split_once(needle)] for a string *)
Definition split_once_str (needle s : str) : option (str * str) :=
  (fun i => (take i s, drop (i + length needle) s)) <$> find_str needle s.

(** [s.matches(c).count()] *)
Definition count_char (c : char) (s : str) : nat := length (filter (fun x => x = c) s).

(** [s.trim_start_matches(c)] and [s.trim_end_matches(c)] *)
Fixpoint trim_start_char (c : char) (s : str) : str :=
  match s with
  | [] => []
  | x :: s' => if decide (x = c) then trim_start_char c s' else s
  end.
Definition trim_end_char (c : char) (s : str) : str := reverse (trim_start_char c (reverse s)).

(** [s.parse()] for an unsigned integer up to [max]: an optional sign and digits. *)
Definition parse_unsigned (max : N) (s : str) : option N :=
  let digits := match s with c :: s' => if (c =? 43)%N then s' else s | [] => [] end in
  if is_empty digits || negb (forallb is_ascii_digit digits) then None
  else
    let n := fold_left (fun n c => n * 10 + (c - 48))%N digits 0%N in
    if (n <=? max)%N then Some n else None.

(** Decimal printing of an unsigned integer, as [format!] writes it. *)
Definition digits_of_N (n : N) : str := lit (pretty.pretty_N n).

(** ** Lemmas: equality tests and prefixes *)

Lemma str_eqb_eq a b : str_eqb a b = true <-> a = b.
Proof. unfold str_eqb. apply bool_decide_eq_true. Qed.

Lemma str_eqb_neq a b : str_eqb a b = false <-> a <> b.
Proof. unfold str_eqb. apply bool_decide_eq_false. Qed.

Lemma is_empty_true {A} (l : list A) : is_empty l = true <-> l = [].
Proof. by destruct l. Qed.

Lemma is_empty_false {A} (l : list A) : is_empty l = false <-> l <> [].
Proof. by destruct l. Qed.

Lemma contains_char_true c s : contains_char c s = true <-> c ∈ s.
Proof. unfold contains_char. apply bool_decide_eq_true. Qed.

Lemma contains_char_false c s : contains_char c s = false <-> c ∉ s.
Proof. unfold contains_char. apply bool_decide_eq_false. Qed.

Lemma strip_prefix_Some p s r : strip_prefix p s = Some r <-> s = p ++ r.
Proof.
  revert s. induction p as [|a p IH]; intros s; simpl.
  { naive_solver. }
  destruct s as [|b s]; [done|]. case_decide as E.
  - rewrite IH. naive_solver.
  - naive_solver.
Qed.

Lemma strip_prefix_app p r : strip_prefix p (p ++ r) = Some r.
Proof. by apply strip_prefix_Some. Qed.

Lemma strip_prefix_None p s : strip_prefix p s = None <-> forall r, s <> p ++ r.
Proof.
  split.
  - intros H r E. apply strip_prefix_Some in E. congruence.
  - intros H. destruct (strip_prefix p s) eqn:E; [|done].
    apply strip_prefix_Some in E. by apply H in E.
Qed.

Lemma starts_with_true p s : starts_with p s = true <-> exists r, s = p ++ r.
Proof.
  unfold starts_with. destruct (strip_prefix p s) as [r|] eqn:E.
  - apply strip_prefix_Some in E. naive_solver.
  - pose proof (proj1 (strip_prefix_None p s) E) as Hne.
    split; [done|]. intros [r Hr]. by apply Hne in Hr.
Qed.

Lemma starts_with_false p s : starts_with p s = false <-> forall r, s <> p ++ r.
Proof.
  rewrite <- strip_prefix_None. unfold starts_with. by destruct (strip_prefix p s).
Qed.

Lemma strip_suffix_Some p s r : strip_suffix p s = Some r <-> s = r ++ p.
Proof.
  unfold strip_suffix. rewrite fmap_Some. split.
  - intros (x & Hx & ->). apply strip_prefix_Some in Hx.
    rewrite <- (reverse_involutive s), Hx, reverse_app, reverse_involutive. done.
  - intros ->. exists (reverse r). rewrite reverse_involutive. split; [|done].
    apply strip_prefix_Some. by rewrite reverse_app.
Qed.

Lemma ends_with_true p s : ends_with p s = true <-> exists r, s = r ++ p.
Proof.
  unfold ends_with. destruct (strip_suffix p s) as [r|] eqn:E.
  - apply strip_suffix_Some in E. naive_solver.
  - split; [done|]. intros [r Hr]. apply strip_suffix_Some in Hr. congruence.
Qed.

Lemma starts_with_head_ne c p d s : c <> d -> starts_with (c :: p) (d :: s) = false.
Proof. intros H. apply starts_with_false. intros r [= ? ?]. congruence. Qed.

(** [find_str] returns the leftmost occurrence. *)
Lemma find_str_Some needle s i :
  find_str needle s = Some i <->
  (exists b, s = take i s ++ needle ++ b /\ i <= length s) /\
  forall j, j < i -> starts_with needle (drop j s) = false.
Proof.
  revert i. induction s as [|c s IH]; intros i; simpl.
  - destruct (starts_with needle []) eqn:E.
    + split.
      * intros [= <-]. apply starts_with_true in E as [r Hr].
        split; [exists r; simpl; split; [done|lia]|]. intros; lia.
      * intros [(b & _ & Hlen) _]. f_equal. simpl in Hlen. lia.
    + split; [done|]. intros [(b & Hb & Hlen) _].
      assert (i = 0) as -> by (simpl in Hlen; lia). simpl in Hb.
      rewrite starts_with_false in E. by apply E in Hb.
  - destruct (starts_with needle (c :: s)) eqn:E.
    + split.
      * intros [= <-]. apply starts_with_true in E as [r Hr].
        split; [exists r; simpl; split; [done|lia]|]. intros; lia.
      * intros [_ Hlt]. destruct i as [|i]; [done|].
        specialize (Hlt 0 ltac:(lia)). simpl in Hlt. congruence.
    + rewrite fmap_Some. split.
      * intros (i' & Hi' & ->). apply IH in Hi' as [(b & Hb & Hlen) Hlt].
        split; [exists b; simpl; split; [by f_equal|lia]|].
        intros [|j] Hj; [done|]. apply Hlt. lia.
      * intros [(b & Hb & Hlen) Hlt]. destruct i as [|i].
        { simpl in Hb. rewrite starts_with_false in E. by apply E in Hb. }
        exists i. split; [|done]. apply IH. split.
        { exists b. simpl in Hb. injection Hb as Hb. simpl in Hlen. split; [done|lia]. }
        intros j Hj. apply (Hlt (S j)). lia.
Qed.

Lemma find_str_None needle s :
  find_str needle s = None <-> forall j, starts_with needle (drop j s) = false.
Proof.
  induction s as [|c s IH]; simpl.
  - destruct (starts_with needle []) eqn:E.
    + split; [done|]. intros H. specialize (H 0). simpl in H. congruence.
    + split; [|done]. intros _ j. by rewrite drop_nil.
  - destruct (starts_with needle (c :: s)) eqn:E.
    + split; [done|]. intros H. specialize (H 0). simpl in H. congruence.
    + rewrite fmap_None, IH. split.
      * intros H [|j]; simpl; auto.
      * intros H j. apply (H (S j)).
Qed.

(** ** Lemmas: bytes *)

Lemma byte_len_app a b : byte_len (a ++ b) = (byte_len a + byte_len b)%N.
Proof. induction a as [|c a IH]; simpl; lia. Qed.

Lemma len_utf8_pos c : (1 <= len_utf8 c <= 4)%N.
Proof. unfold len_utf8. repeat case_match; lia. Qed.

Lemma byte_len_ge_length s : (lenN s <= byte_len s)%N.
Proof.
  induction s as [|c s IH]; [done|]. rewrite lenN_cons. simpl.
  pose proof (len_utf8_pos c). lia.
Qed.

#[export] Hint Rewrite byte_len_app : dcode.

(** ** Lemmas: trimming *)

Definition all_ws (s : str) : Prop := Forall (fun c => is_whitespace c = true) s.

(** The string is empty or starts with a non-blank character. *)
Definition clean_head (s : str) : Prop := forall c, head s = Some c -> is_whitespace c = false.
Definition clean_last (s : str) : Prop := forall c, last s = Some c -> is_whitespace c = false.

Lemma trim_start_app_ws w s : all_ws w -> trim_start (w ++ s) = trim_start s.
Proof. induction 1 as [|c w Hc _ IH]; [done|]. simpl. by rewrite Hc. Qed.

Lemma trim_start_decomp s :
  exists w, s = w ++ trim_start s /\ all_ws w /\ clean_head (trim_start s).
Proof.
  induction s as [|c s (w & Hs & Hw & Hc)]; simpl.
  { exists []. split; [done|]. split; [constructor|done]. }
  destruct (is_whitespace c) eqn:E.
  - exists (c :: w). split; [simpl; by f_equal|]. split; [by constructor|done].
  - exists []. split; [done|]. split; [constructor|]. by intros d [= <-].
Qed.

Lemma trim_start_id s : clean_head s -> trim_start s = s.
Proof.
  intros H. destruct s as [|c s]; [done|]. simpl. by rewrite (H c).
Qed.

Lemma trim_start_nil s : trim_start s = [] <-> all_ws s.
Proof.
  split.
  - intros H. destruct (trim_start_decomp s) as (w & Hs & Hw & _).
    rewrite H, app_nil_r in Hs. by subst.
  - intros H. by rewrite <- (app_nil_r s), trim_start_app_ws.
Qed.

Lemma trim_start_app_clean a b : trim_start a <> [] -> trim_start (a ++ b) = trim_start a ++ b.
Proof.
  induction a as [|c a IH]; simpl; [done|]. by destruct (is_whitespace c); auto.
Qed.

Lemma all_ws_reverse s : all_ws (reverse s) <-> all_ws s.
Proof. unfold all_ws. by rewrite Forall_reverse. Qed.

Lemma trim_end_nil s : trim_end s = [] <-> all_ws s.
Proof.
  unfold trim_end. rewrite <- all_ws_reverse, <- trim_start_nil.
  split; [|by intros ->].
  intros H. apply (f_equal reverse) in H. by rewrite reverse_involutive in H.
Qed.

Lemma trim_end_app_ws w s : all_ws w -> trim_end (s ++ w) = trim_end s.
Proof.
  intros H. unfold trim_end. rewrite reverse_app, trim_start_app_ws; [done|].
  by apply all_ws_reverse.
Qed.

Lemma trim_end_app_clean a b : trim_end b <> [] -> trim_end (a ++ b) = a ++ trim_end b.
Proof.
  intros H. unfold trim_end in *. rewrite reverse_app, trim_start_app_clean.
  - by rewrite reverse_app, reverse_involutive.
  - intros E. apply H. by rewrite E.
Qed.

Lemma clean_last_reverse s : clean_last s <-> clean_head (reverse s).
Proof.
  unfold clean_last, clean_head. destruct s as [|c s] using rev_ind; [done|].
  by rewrite last_snoc, reverse_snoc.
Qed.

Lemma trim_end_id s : clean_last s -> trim_end s = s.
Proof.
  intros H%clean_last_reverse. unfold trim_end.
  by rewrite trim_start_id, reverse_involutive.
Qed.

Lemma trim_end_decomp s :
  exists w, s = trim_end s ++ w /\ all_ws w /\ clean_last (trim_end s).
Proof.
  destruct (trim_start_decomp (reverse s)) as (w & Hs & Hw & Hc).
  exists (reverse w). unfold trim_end. split; [|split].
  - by rewrite <- reverse_app, <- Hs, reverse_involutive.
  - by apply all_ws_reverse.
  - apply clean_last_reverse. by rewrite reverse_involutive.
Qed.

Lemma trim_start_clean s : clean_head (trim_start s).
Proof. by destruct (trim_start_decomp s) as (? & ? & ? & ?). Qed.

Lemma trim_end_clean s : clean_last (trim_end s).
Proof. by destruct (trim_end_decomp s) as (? & ? & ? & ?). Qed.

Lemma trim_end_clean_head s : clean_head s -> clean_head (trim_end s).
Proof.
  intros H. destruct (trim_end_decomp s) as (w & Hs & _ & _).
  destruct (trim_end s) as [|c t]; [done|].
  intros d [= <-]. apply H. by rewrite Hs.
Qed.

(** Trimming both sides does not depend on the order. *)
Lemma trim_commute s : trim_start (trim_end s) = trim s.
Proof.
  unfold trim. destruct (trim_start_decomp s) as (w & Hs & Hw & Hc).
  destruct (decide (trim_start s = [])) as [E|E].
  - rewrite E. assert (all_ws s) as Hall by (by apply trim_start_nil).
    by rewrite (proj2 (trim_end_nil s) Hall).
  - assert (trim_end (trim_start s) <> []) as Hne.
    { intros H%trim_end_nil. apply trim_start_nil in H.
      by rewrite trim_start_id in H. }
    rewrite Hs at 1. rewrite trim_end_app_clean, trim_start_app_ws by done.
    apply trim_start_id. by apply trim_end_clean_head.
Qed.

Lemma trim_of_trim_end a b : trim_end a = trim_end b -> trim a = trim b.
Proof. intros H. by rewrite <- !trim_commute, H. Qed.

Lemma trim_id s : clean_head s -> clean_last s -> trim s = s.
Proof. intros H1 H2. unfold trim. by rewrite (trim_start_id s H1), trim_end_id. Qed.

Lemma trim_clean s : clean_head (trim s) /\ clean_last (trim s).
Proof.
  split; [|apply trim_end_clean]. apply trim_end_clean_head, trim_start_clean.
Qed.

Lemma trim_idemp s : trim (trim s) = trim s.
Proof. apply trim_id; apply trim_clean. Qed.

(** ** Lemmas: splitting and joining *)

Lemma split_on_nonnil c s : split_on c s <> [].
Proof. destruct s; simpl; repeat case_match; done. Qed.

Lemma join_cons sep p rest : rest <> [] -> join sep (p :: rest) = p ++ sep ++ join sep rest.
Proof. by destruct rest. Qed.

Lemma join_split_on c s : join [c] (split_on c s) = s.
Proof.
  induction s as [|x s IH]; [done|]. simpl. case_decide as E.
  - rewrite join_cons by apply split_on_nonnil. subst. by rewrite IH.
  - pose proof (split_on_nonnil c s). destruct (split_on c s) as [|h t]; [done|].
    destruct t as [|h' t]; simpl in *; by rewrite IH.
Qed.

Lemma split_on_free c s : c ∉ s -> split_on c s = [s].
Proof.
  induction s as [|x s IH]; [done|]. intros H. simpl.
  case_decide as E; [set_solver|]. rewrite IH; [done|]. set_solver.
Qed.

Lemma split_on_app c l s : c ∉ l -> split_on c (l ++ c :: s) = l :: split_on c s.
Proof.
  induction l as [|x l IH]; intros H; simpl.
  { by rewrite decide_True. }
  case_decide as E; [set_solver|]. rewrite IH; [done|]. set_solver.
Qed.

Lemma split_on_pieces c s : Forall (fun p => c ∉ p) (split_on c s).
Proof.
  induction s as [|x s IH]; simpl; [by repeat constructor; set_solver|].
  case_decide as E; [constructor; [set_solver|done]|].
  pose proof (split_on_nonnil c s). destruct (split_on c s) as [|h t]; [done|].
  inversion IH; subst. constructor; [|done]. set_solver.
Qed.

Lemma split_on_join c ls :
  ls <> [] -> Forall (fun p => c ∉ p) ls -> split_on c (join [c] ls) = ls.
Proof.
  intros Hne H. induction H as [|l ls Hl Hls IH]; [done|].
  destruct ls as [|l' ls']; [by apply split_on_free|].
  rewrite join_cons by done. simpl app. rewrite split_on_app by done.
  f_equal. by apply IH.
Qed.

Lemma join_app sep a b :
  a <> [] -> b <> [] -> join sep (a ++ b) = join sep a ++ sep ++ join sep b.
Proof.
  intros Ha Hb. induction a as [|x a IH]; [done|].
  destruct a as [|y a].
  - simpl app at 1. by rewrite join_cons.
  - rewrite <- app_comm_cons, !join_cons by done. rewrite IH by done.
    by rewrite <- !app_assoc.
Qed.

Lemma split_once_app c s a b : split_once c s = Some (a, b) -> s = a ++ c :: b.
Proof.
  revert a. induction s as [|x s IH]; intros a H; simpl in H; [done|].
  case_decide; [by simplify_eq|]. destruct (split_once c s) as [[a' b']|]; [|done].
  simplify_eq. simpl. f_equal. by apply IH.
Qed.

Lemma rsplit_once_app c s a b : rsplit_once c s = Some (a, b) -> s = a ++ c :: b.
Proof.
  unfold rsplit_once. destruct (split_once c (reverse s)) as [[x y]|] eqn:E; [|done].
  intros [= <- <-]. apply split_once_app, (f_equal reverse) in E.
  rewrite reverse_involutive, reverse_app, reverse_cons, <- app_assoc in E. done.
Qed.

Lemma rsplit_once_free c s : c ∉ s -> rsplit_once c s = None.
Proof.
  intros H. destruct (rsplit_once c s) as [[a b]|] eqn:E; [|done].
  apply rsplit_once_app in E. subst s. exfalso. apply H. set_solver.
Qed.

Lemma trim_end_char_incl c s x : x ∈ trim_end_char c s -> x ∈ s.
Proof.
  unfold trim_end_char. rewrite elem_of_reverse. intros H. apply elem_of_reverse.
  induction (reverse s) as [|y l IH]; simpl in *; [done|]. case_decide; [right; auto|done].
Qed.

(** ** Lemmas: characters that do not occur *)

Lemma count_char_free c s : c ∉ s -> count_char c s = 0.
Proof.
  unfold count_char. induction s as [|x s IH]; [done|]. intros H. rewrite filter_cons_False by set_solver.
  apply IH. set_solver.
Qed.

Lemma find_str_free c needle s : c ∈ needle -> c ∉ s -> find_str needle s = None.
Proof.
  intros Hn H. apply find_str_None. intros j. apply starts_with_false. intros r Hr. apply H.
  rewrite <- (take_drop j s), Hr. set_solver.
Qed.

Lemma split_once_str_free c needle s : c ∈ needle -> c ∉ s -> split_once_str needle s = None.
Proof. intros Hn H. unfold split_once_str. by rewrite (find_str_free c). Qed.

Lemma starts_with_free c s : c ∉ s -> starts_with [c] s = false.
Proof. intros H. apply starts_with_false. intros r ->. set_solver. Qed.

Lemma contains_str_free c needle s : c ∈ needle -> c ∉ s -> contains_str needle s = false.
Proof. intros Hn H. unfold contains_str. by rewrite (find_str_free c). Qed.

(** ** Lemmas: trimming one character *)

Lemma last_reverse {A} (l : list A) : last (reverse l) = head l.
Proof. destruct l as [|x l]; [done|]. by rewrite reverse_cons, last_snoc. Qed.

Lemma trim_start_char_id c s : head s <> Some c -> trim_start_char c s = s.
Proof. destruct s as [|x s]; [done|]. simpl. intros H. rewrite decide_False; [done|]. by intros ->. Qed.

Lemma trim_start_char_head c s : head (trim_start_char c s) <> Some c.
Proof. induction s as [|x s IH]; simpl; [done|]. case_decide; [done|]. by intros [= ->]. Qed.

Lemma trim_end_char_id c s : last s <> Some c -> trim_end_char c s = s.
Proof.
  intros H. unfold trim_end_char. rewrite trim_start_char_id; [by rewrite reverse_involutive|].
  by rewrite <- last_reverse, reverse_involutive.
Qed.

Lemma trim_end_char_last c s : last (trim_end_char c s) <> Some c.
Proof. unfold trim_end_char. rewrite last_reverse. apply trim_start_char_head. Qed.

(** A test of the 128 ASCII characters, done by computation. *)
Definition ascii_all (p : char -> bool) : bool := forallb p (N.of_nat <$> seq 0 128).

Lemma ascii_all_spec p c : ascii_all p = true -> (c < 128)%N -> p c = true.
Proof.
  intros H Hc. apply (proj1 (forallb_forall _ _) H), list_elem_of_In, list_elem_of_fmap.
  exists (N.to_nat c). rewrite N2Nat.id. split; [done|]. apply elem_of_seq. lia.
Qed.

(** ** Lemmas: decimal numbers *)

Lemma lit_app a b : lit (a +:+ b) = lit a ++ lit b.
Proof. induction a as [|c a IH]; [done|]. simpl. f_equal. apply IH. Qed.

Definition decimal_value (ds : str) (acc : N) : N := fold_left (fun n c => n * 10 + (c - 48))%N ds acc.

Lemma pretty_digit_char x : (x < 10)%N -> N_of_ascii (pretty_N_char x) = (x + 48)%N.
Proof.
  intros H. pose proof (ascii_all_spec (fun x => implb (x <? 10)%N (N_of_ascii (pretty_N_char x) =? x + 48)%N) x
    ltac:(by vm_compute) ltac:(lia)) as E. cbv beta in E.
  rewrite (proj2 (N.ltb_lt x 10) H) in E. by apply N.eqb_eq.
Qed.

Lemma pretty_go_spec n s :
  forall acc, exists ds, lit (pretty_N_go n s) = ds ++ lit s /\ forallb is_ascii_digit ds = true /\
    (n <> 0%N -> ds <> []) /\ (acc = 0%N -> decimal_value ds acc = n).
Proof.
  revert s. induction (N.lt_wf_0 n) as [n _ IH]. intros s acc.
  destruct (N.eq_dec n 0) as [->|Hn]; [exists []; rewrite pretty_N_go_0; naive_solver|].
  rewrite pretty_N_go_step by lia.
  assert (n mod 10 < 10)%N as Hm by (by apply N.mod_lt).
  destruct (IH (n / 10)%N (N.div_lt n 10 ltac:(lia) ltac:(lia)) (String (pretty_N_char (n mod 10)) s) acc)
    as (ds & Hl & Hd & _ & Hv).
  exists (ds ++ [n mod 10 + 48]%N). split; [|split; [|split]].
  - rewrite Hl. simpl. by rewrite pretty_digit_char, <- app_assoc.
  - rewrite forallb_app, Hd. cbn [forallb andb]. unfold is_ascii_digit, in_range.
    rewrite andb_true_r, andb_true_iff, !N.leb_le. set (d := (n mod 10)%N) in *. clearbody d. lia.
  - by destruct ds.
  - intros Hacc. unfold decimal_value in *. rewrite fold_left_app, Hv by done. simpl.
    rewrite N.add_sub. rewrite (N.div_mod n 10) at 3 by done. lia.
Qed.

Lemma digits_of_N_spec n :
  forallb is_ascii_digit (digits_of_N n) = true /\ digits_of_N n <> [] /\ decimal_value (digits_of_N n) 0 = n.
Proof.
  unfold digits_of_N, pretty_N. case_decide as Hn; [by subst|].
  destruct (pretty_go_spec n "" 0%N) as (ds & Hl & Hd & Hne & Hv). rewrite Hl. simpl. rewrite app_nil_r. auto.
Qed.

(** A printed number reads back. *)
Lemma parse_digits_of_N max n : (n <= max)%N -> parse_unsigned max (digits_of_N n) = Some n.
Proof.
  intros Hn. destruct (digits_of_N_spec n) as (Hd & Hne & Hv). unfold parse_unsigned.
  destruct (digits_of_N n) as [|c ds] eqn:E; [done|].
  assert ((c =? 43)%N = false) as Hc.
  { simpl in Hd. apply andb_true_iff in Hd as [Hd _]. apply N.eqb_neq. by intros ->. }
  cbn [negb is_empty]. rewrite Hc, Hd. cbn [orb negb is_empty]. unfold decimal_value in Hv. rewrite Hv.
  by rewrite (proj2 (N.leb_le n max)).
Qed.
