(* ===== verification/Paths.v ===== *)
(** * Paths

    Rust's [Path] on Unix and the [AbsolutePathBuf] of
    [utils/absolute-path/src/lib.rs] with its lexical normalisation
    ([absolutize.rs]).  A path is the sequence of its components, which is what
    Rust compares, so a path and its spelling with doubled separators or inner
    dots are the same value.  What the code asks of the machine it runs on (the
    working directory, the home directory, [TMPDIR], the files that exist) is the
    class [Host]. *)

From S2P Require Import Prelude RustStr.

(** ** Components *)

Inductive Component : Type :=
| RootDir
| CurDir
| ParentDir
| Normal (name : str).

#[global] Instance Component_eq_dec : EqDecision Component.
Proof. solve_decision. Defined.

Abbreviation Path := (list Component).

Definition slash : char := 47%N.

(** A piece between two separators, away from the start of the path. *)
Definition component_of_segment (seg : str) : option Component :=
  if is_empty seg || str_eqb seg s!"." then None
  else if str_eqb seg s!".." then Some ParentDir
  else Some (Normal seg).

(** [Path::new(s).components()]: repeated separators and dots inside the path
    are dropped, a leading dot of a relative path is kept. *)
Definition components (s : str) : Path :=
  let segs := split_on slash s in
  let body := omap component_of_segment segs in
  if starts_with [slash] s then RootDir :: body
  else match segs with
       | seg :: _ => if str_eqb seg s!"." then CurDir :: body else body
       | [] => body
       end.

Notation "'p!' x" := (components (lit x%string)) (at level 8, x constr at level 0) : dcode_scope.

(** [Component::as_os_str]. *)
Definition as_os_str (c : Component) : str :=
  match c with
  | RootDir => [slash]
  | CurDir => s!"."
  | ParentDir => s!".."
  | Normal name => name
  end.

(** The text of a path, as [to_string_lossy] and [display] write it. *)
Definition to_string_lossy (p : Path) : str :=
  match p with
  | RootDir :: rest => slash :: join [slash] (as_os_str <$> rest)
  | _ => join [slash] (as_os_str <$> p)
  end.

Definition is_absolute (p : Path) : bool :=
  match p with RootDir :: _ => true | _ => false end.

(** [Path::join]: an absolute argument replaces the base; a leading dot of the
    argument disappears once something stands before it. *)
Definition path_join (base p : Path) : Path :=
  if is_absolute p then p
  else match base, p with
       | _ :: _, CurDir :: rest => base ++ rest
       | _, _ => base ++ p
       end.

(** [self.strip_prefix(base)] and [self.starts_with(base)]. *)
Fixpoint path_strip_prefix (base p : Path) : option Path :=
  match base, p with
  | [], _ => Some p
  | a :: base', b :: p' => if decide (a = b) then path_strip_prefix base' p' else None
  | _ :: _, [] => None
  end.

Definition path_starts_with (p base : Path) : bool :=
  match path_strip_prefix base p with Some _ => true | None => false end.

(** [Path::parent]: [None] for the root and the empty path. *)
Definition parent (p : Path) : option Path :=
  match last p with
  | None | Some RootDir => None
  | Some _ => Some (removelast p)
  end.

(** [Path::ancestors]: the path and its parents; one more step than components
    are never needed. *)
Fixpoint ancestors_fuel (fuel : nat) (p : Path) : list Path :=
  match fuel with
  | O => []
  | S fuel' => p :: match parent p with Some q => ancestors_fuel fuel' q | None => [] end
  end.

Definition ancestors (p : Path) : list Path := ancestors_fuel (S (length p)) p.

(** [Path::file_name]. *)
Definition file_name (p : Path) : option str :=
  match last p with Some (Normal name) => Some name | _ => None end.

(** Order of paths: component by component, [RootDir < CurDir < ParentDir <
    Normal], names by their code points (as their UTF-8 bytes compare). *)
Fixpoint str_compare (a b : str) : comparison :=
  match a, b with
  | [], [] => Eq
  | [], _ :: _ => Lt
  | _ :: _, [] => Gt
  | x :: a', y :: b' => match N.compare x y with Eq => str_compare a' b' | c => c end
  end.

Definition component_rank (c : Component) : N :=
  match c with RootDir => 0 | CurDir => 1 | ParentDir => 2 | Normal _ => 3 end.

Definition component_compare (a b : Component) : comparison :=
  match a, b with
  | Normal x, Normal y => str_compare x y
  | _, _ => N.compare (component_rank a) (component_rank b)
  end.

Fixpoint path_compare (a b : Path) : comparison :=
  match a, b with
  | [], [] => Eq
  | [], _ :: _ => Lt
  | _ :: _, [] => Gt
  | x :: a', y :: b' => match component_compare x y with Eq => path_compare a' b' | c => c end
  end.

(** ** The machine *)

(** What [std::env], [dirs], [dunce] and [std::fs] report. *)
Class Host : Type := {
  current_dir : option Path;
  home_dir : option Path;
  tmpdir_var : option Path;
  is_dir : Path -> bool;
  is_file : Path -> bool;
  exists_path : Path -> bool;
  read_to_string : Path -> option str;
  symlink_metadata : Path -> option bool;
  fs_canonicalize : Path -> option Path
}.

(** ** [absolutize.rs] *)

Section absolute.
Context `{Host}.

(** [PathBuf::pop] on the path built so far. *)
Definition pop (p : Path) : Path :=
  match parent p with Some q => q | None => p end.

Definition normalize_step (normalized : Path) (c : Component) : Path :=
  match c with
  | CurDir => normalized
  | ParentDir => pop normalized
  | RootDir | Normal _ => path_join normalized [c]
  end.

Definition normalize_path (p : Path) : Path :=
  match fold_left normalize_step p [] with
  | [] => [CurDir]
  | normalized => normalized
  end.

Definition path_with_base (p base : Path) : Path :=
  if is_absolute p then p else path_join base p.

Definition absolutize_from (p base : Path) : Path :=
  normalize_path (path_with_base p base).

(** [None] when the working directory cannot be read. *)
Definition absolutize (p : Path) : option Path :=
  if is_absolute p then Some (normalize_path p)
  else absolutize_from p <$> current_dir.

(** ** [AbsolutePathBuf] *)

(** A leading component [~] stands for the home directory when there is one. *)
Definition maybe_expand_home_directory (p : Path) : Path :=
  match p, home_dir with
  | Normal [126%N] :: rest, Some home => path_join home rest
  | _, _ => p
  end.

Definition resolve_path_against_base (p base : Path) : Path :=
  absolutize_from (maybe_expand_home_directory p) base.

Definition from_absolute_path (p : Path) : option Path :=
  absolutize (maybe_expand_home_directory p).

Definition from_absolute_path_checked (p : Path) : option Path :=
  let expanded := maybe_expand_home_directory p in
  if is_absolute expanded then Some (absolutize_from expanded [RootDir]) else None.

(** [AbsolutePathBuf::join]. *)
Definition abs_join (self p : Path) : Path := resolve_path_against_base p self.

(** [should_preserve_logical_path]: some ancestor below the top level is a
    symbolic link. *)
Definition should_preserve_logical_path (logical : Path) : bool :=
  existsb (fun ancestor =>
    match symlink_metadata ancestor with
    | None => false
    | Some is_symlink =>
        is_symlink && match parent ancestor with
                      | Some q => match parent q with Some _ => true | None => false end
                      | None => false
                      end
    end) (ancestors logical).

Definition canonicalize_preserving_symlinks (p : Path) : option Path :=
  logical ← from_absolute_path p;
  match fs_canonicalize p with
  | Some canonical =>
      if should_preserve_logical_path logical && negb (bool_decide (canonical = logical))
      then Some logical else Some canonical
  | None => Some logical
  end.

End absolute.

(** [normalize_windows_device_path] and its test, kept on every host. *)
Definition is_ascii_alphabetic (c : char) : bool := in_range 65 90 c || in_range 97 122 c.

Definition is_windows_drive_absolute_path (p : str) : bool :=
  match p with
  | c0 :: c1 :: c2 :: _ =>
      is_ascii_alphabetic c0 && (c1 =? 58)%N && ((c2 =? 92)%N || (c2 =? 47)%N)
  | _ => false
  end.

Definition bs : char := 92%N.
Definition unc (c : char) : str := [bs; bs; c; bs] ++ s!"UNC" ++ [bs].

(** The drive path behind the alias with marker [c], if it is one. *)
Definition drive_alias (c : char) (p : str) : option str :=
  match strip_prefix [bs; bs; c; bs] p with
  | Some rest => if is_windows_drive_absolute_path rest then Some rest else None
  | None => None
  end.

Definition normalize_windows_device_path (p : str) : option str :=
  match strip_prefix (unc 63) p with
  | Some rest => Some ([bs; bs] ++ rest)
  | None =>
      match strip_prefix (unc 46) p with
      | Some rest => Some ([bs; bs] ++ rest)
      | None =>
          match drive_alias 63 p with
          | Some rest => Some rest
          | None => drive_alias 46 p
          end
      end
  end.

(** ** Lemmas: prefixes *)

Lemma path_strip_prefix_Some base p r : path_strip_prefix base p = Some r <-> p = base ++ r.
Proof.
  revert p. induction base as [|a base IH]; intros p; simpl; [naive_solver|].
  destruct p as [|b p]; [done|]. case_decide; [rewrite IH|]; naive_solver.
Qed.

Lemma path_strip_prefix_app base r : path_strip_prefix base (base ++ r) = Some r.
Proof. by apply path_strip_prefix_Some. Qed.

Lemma path_starts_with_true p base : path_starts_with p base = true <-> base `prefix_of` p.
Proof.
  unfold path_starts_with, prefix. destruct (path_strip_prefix base p) as [r|] eqn:E.
  - apply path_strip_prefix_Some in E. naive_solver.
  - split; [done|]. intros [r Hr]. apply path_strip_prefix_Some in Hr. congruence.
Qed.

Lemma path_starts_with_false p base : path_starts_with p base = false <-> ~ base `prefix_of` p.
Proof. rewrite <- path_starts_with_true. by destruct (path_starts_with p base). Qed.

(** Two prefixes of one path are comparable, and equal when equally long. *)
Lemma prefix_same_length {A} (a b p : list A) :
  a `prefix_of` p -> b `prefix_of` p -> length a = length b -> a = b.
Proof.
  intros [ra Ha] [rb Hb] Hl. rewrite Ha in Hb. by apply app_inj_1 in Hb as [].
Qed.

Lemma prefix_length_le {A} (a b p : list A) :
  a `prefix_of` p -> b `prefix_of` p -> length a <= length b -> a `prefix_of` b.
Proof.
  intros [ra Ha] [rb Hb] Hl. rewrite Ha in Hb.
  destruct (app_eq_length_split _ _ _ _ Hb Hl) as (m & -> & _). by exists m.
Qed.

(** ** Lemmas: normalised paths *)

(** The invariant of [AbsolutePathBuf]: absolute and normalised. *)
Definition abs_norm (p : Path) : Prop := exists names, p = RootDir :: (Normal <$> names).

(** As [abs_norm], as a test. *)
Definition is_normal (c : Component) : bool :=
  match c with Normal _ => true | _ => false end.

Definition abs_normb (p : Path) : bool :=
  match p with RootDir :: rest => forallb is_normal rest | _ => false end.

Lemma abs_normb_spec p : abs_normb p = true <-> abs_norm p.
Proof.
  unfold abs_norm. split.
  - destruct p as [|[] p]; try done. simpl. intros Hp.
    exists (omap (fun c => match c with Normal n => Some n | _ => None end) p). f_equal.
    induction p as [|[| | |n] p IH]; try done. csimpl. f_equal. by apply IH.
  - intros [names ->]. simpl. by induction names.
Qed.

#[global] Instance abs_norm_dec p : Decision (abs_norm p).
Proof. refine (cast_if (decide (abs_normb p = true))); by rewrite <- abs_normb_spec. Defined.

Lemma abs_norm_nonnil p : abs_norm p -> p <> [].
Proof. by intros [? ->]. Qed.

Lemma abs_norm_absolute p : abs_norm p -> is_absolute p = true.
Proof. by intros [? ->]. Qed.

Lemma abs_norm_root : abs_norm [RootDir].
Proof. by exists []. Qed.

Lemma abs_norm_snoc p name : abs_norm p -> abs_norm (p ++ [Normal name]).
Proof. intros [names ->]. exists (names ++ [name]). by rewrite fmap_app. Qed.

Lemma abs_norm_pop p : abs_norm p -> abs_norm (pop p).
Proof.
  intros [names ->]. unfold pop, parent.
  destruct names as [|name names _] using rev_ind; [by exists []|].
  rewrite fmap_app, app_comm_cons. simpl fmap. rewrite last_snoc, removelast_last.
  by exists names.
Qed.

Lemma abs_norm_prefix p q : abs_norm q -> p `prefix_of` q -> p <> [] -> abs_norm p.
Proof.
  intros [names ->] [r Hr] Hne. destruct p as [|c p]; [done|].
  injection Hr as <- Hr. exists (take (length p) names). f_equal.
  rewrite fmap_take, Hr. by rewrite take_app_length.
Qed.

Lemma abs_norm_parent p q : abs_norm p -> parent p = Some q -> abs_norm q.
Proof.
  intros Hp Hq. apply abs_norm_pop in Hp. unfold pop in Hp. by rewrite Hq in Hp.
Qed.

(** Below the root no step leaves the normalised absolute paths. *)
Lemma fold_normalize_abs_norm p acc :
  abs_norm acc -> abs_norm (fold_left normalize_step p acc).
Proof.
  revert acc. induction p as [|c p IH]; intros acc Hacc; [done|]. simpl. apply IH.
  destruct c; simpl; auto using abs_norm_pop, abs_norm_root.
  destruct acc as [|a acc]; [by apply abs_norm_nonnil in Hacc|].
  by apply (abs_norm_snoc (a :: acc)).
Qed.

Lemma fold_normalize_normals names acc :
  fold_left normalize_step (Normal <$> names) acc = acc ++ (Normal <$> names).
Proof.
  revert acc. induction names as [|n names IH]; intros acc; csimpl; [by rewrite app_nil_r|].
  rewrite IH. destruct acc; simpl; [done|]. by rewrite <- app_assoc.
Qed.

Lemma normalize_path_abs p : is_absolute p = true -> abs_norm (normalize_path p).
Proof.
  destruct p as [|[] p]; try done. intros _. unfold normalize_path. simpl.
  pose proof (fold_normalize_abs_norm p [RootDir] abs_norm_root) as Hn.
  change (path_join [] [RootDir]) with [RootDir].
  destruct (fold_left normalize_step p [RootDir]); [by apply abs_norm_nonnil in Hn|done].
Qed.

Lemma normalize_path_id p : abs_norm p -> normalize_path p = p.
Proof.
  intros [names ->]. unfold normalize_path. simpl.
  change (path_join [] [RootDir]) with [RootDir]. by rewrite fold_normalize_normals.
Qed.

Lemma path_join_absolute base p : is_absolute base = true -> is_absolute (path_join base p) = true.
Proof.
  unfold path_join. destruct (is_absolute p) eqn:E; [done|].
  destruct base as [|[] base]; try done. by destruct p as [|[] p].
Qed.

Section facts.
Context `{Host}.

Lemma expand_absolute p : is_absolute p = true -> maybe_expand_home_directory p = p.
Proof. by destruct p as [|[] p]. Qed.

Lemma expand_id p :
  head p <> Some (Normal [126%N]) -> maybe_expand_home_directory p = p.
Proof.
  unfold maybe_expand_home_directory. destruct p as [|[| | |name] p]; try done. simpl.
  repeat case_match; naive_solver.
Qed.

Lemma absolutize_from_abs_norm p base :
  is_absolute base = true -> abs_norm (absolutize_from p base).
Proof.
  intros Hb. apply normalize_path_abs. unfold path_with_base.
  destruct (is_absolute p) eqn:E; [done|]. by apply path_join_absolute.
Qed.

Lemma resolve_abs_norm p base :
  is_absolute base = true -> abs_norm (resolve_path_against_base p base).
Proof. apply absolutize_from_abs_norm. Qed.

Lemma abs_join_abs_norm base p : abs_norm base -> abs_norm (abs_join base p).
Proof. intros Hb. by apply resolve_abs_norm, abs_norm_absolute. Qed.

(** Joining plain names appends them. *)
Lemma abs_join_name base name :
  abs_norm base -> name <> [126%N] -> abs_join base [Normal name] = base ++ [Normal name].
Proof.
  intros Hb Hn. unfold abs_join, resolve_path_against_base.
  rewrite expand_id by (intros [= ->]; done).
  assert (abs_norm (base ++ [Normal name])) as Hs by by apply abs_norm_snoc.
  unfold absolutize_from, path_with_base, path_join. simpl.
  destruct base; [by apply abs_norm_nonnil in Hb|]. by apply normalize_path_id.
Qed.

Lemma from_absolute_path_abs p :
  is_absolute p = true -> from_absolute_path p = Some (normalize_path p).
Proof.
  intros Hp. unfold from_absolute_path, absolutize. by rewrite expand_absolute, Hp.
Qed.

Lemma from_absolute_path_id p : abs_norm p -> from_absolute_path p = Some p.
Proof.
  intros Hp. rewrite from_absolute_path_abs by by apply abs_norm_absolute.
  by rewrite normalize_path_id.
Qed.

End facts.

(** The working directory, when known, is absolute ([getcwd] returns an
    absolute path). *)
Class LawfulHost `(Host) : Prop := {
  current_dir_absolute : forall d, current_dir = Some d -> is_absolute d = true
}.

Section typing.
Context `{LawfulHost}.

Lemma from_absolute_path_abs_norm p q : from_absolute_path p = Some q -> abs_norm q.
Proof.
  unfold from_absolute_path, absolutize.
  destruct (is_absolute (maybe_expand_home_directory p)) eqn:E.
  - intros [= <-]. by apply normalize_path_abs.
  - intros (d & Hd & ->)%fmap_Some.
    by apply absolutize_from_abs_norm, current_dir_absolute.
Qed.

Lemma ancestors_fuel_abs_norm fuel p : abs_norm p -> Forall abs_norm (ancestors_fuel fuel p).
Proof.
  revert p. induction fuel as [|fuel IH]; intros p Hp; simpl; [constructor|].
  constructor; [done|]. destruct (parent p) eqn:E; [|constructor].
  eauto using abs_norm_parent.
Qed.

End typing.

(** ** Printing and reading back *)

(** A name that can stand between two separators. *)
Definition valid_name (n : str) : Prop :=
  n <> [] /\ n <> s!"." /\ n <> s!".." /\ slash ∉ n.

Definition valid_component (c : Component) : Prop :=
  match c with Normal n => valid_name n | _ => True end.

Lemma component_of_segment_Some seg c :
  slash ∉ seg -> component_of_segment seg = Some c -> valid_component c.
Proof.
  unfold component_of_segment. intros Hs.
  destruct (is_empty seg) eqn:E1, (str_eqb seg s!".") eqn:E2; cbn [orb]; try done.
  destruct (str_eqb seg s!"..") eqn:E3; intros Hc; simplify_eq; [done|].
  apply is_empty_false in E1. apply str_eqb_neq in E2, E3. done.
Qed.

Lemma component_of_valid n : valid_name n -> component_of_segment n = Some (Normal n).
Proof.
  intros (H1 & H2 & H3 & _). unfold component_of_segment.
  by rewrite (proj2 (is_empty_false n) H1), (proj2 (str_eqb_neq n _) H2), (proj2 (str_eqb_neq n _) H3).
Qed.

Lemma components_valid s : Forall valid_component (components s).
Proof.
  assert (Forall valid_component (omap component_of_segment (split_on slash s))) as Hb.
  { rewrite Forall_forall. intros c (seg & Hseg & Hc)%list_elem_of_omap.
    pose proof (split_on_pieces slash s) as Hp. rewrite Forall_forall in Hp.
    eauto using component_of_segment_Some. }
  unfold components. repeat case_match; by repeat constructor.
Qed.

Lemma components_absolute_path names :
  Forall valid_name names ->
  components (to_string_lossy (RootDir :: (Normal <$> names))) = RootDir :: (Normal <$> names).
Proof.
  intros Hn. unfold to_string_lossy.
  assert (as_os_str <$> (Normal <$> names) = names) as ->.
  { rewrite <- list_fmap_compose. apply list_fmap_id. }
  unfold components. simpl. f_equal.
  assert (omap component_of_segment names = Normal <$> names) as Hom.
  { clear -Hn. induction Hn as [|n names Hv _ IH]; [done|]. csimpl.
    by rewrite component_of_valid, IH. }
  destruct names as [|n names]; [done|]. rewrite split_on_join; [done..|].
  eapply Forall_impl; [done|]. by intros x (_ & _ & _ & ?).
Qed.
