(* ===== verification/Permissions.v ===== *)
(** * File system permissions

    [protocol/src/permissions.rs] on Unix: sandbox policies as lists of entries,
    the access they give to a path, the protection of workspace metadata, the
    operations that extend a policy, and the default policies.  The projection to
    writable roots and to the legacy policy is in [SandboxRoots], theorems are in
    [PermissionsFacts]. *)

From S2P Require Import Prelude RustStr Paths.

(** ** Data *)

Definition PROTECTED_METADATA_GIT_PATH_NAME : str := s!".git".
Definition PROTECTED_METADATA_AGENTS_PATH_NAME : str := s!".agents".
Definition PROTECTED_METADATA_CODEX_PATH_NAME : str := s!".codex".

Definition PROTECTED_METADATA_PATH_NAMES : list str :=
  [PROTECTED_METADATA_GIT_PATH_NAME; PROTECTED_METADATA_AGENTS_PATH_NAME;
   PROTECTED_METADATA_CODEX_PATH_NAME].

Definition is_protected_metadata_name (name : str) : bool :=
  existsb (str_eqb name) PROTECTED_METADATA_PATH_NAMES.

Inductive NetworkSandboxPolicy := NetRestricted | NetEnabled.

Definition net_is_enabled (n : NetworkSandboxPolicy) : bool :=
  match n with NetEnabled => true | NetRestricted => false end.

(** Declaration order is the order of precedence among equally specific
    entries. *)
Inductive FileSystemAccessMode := Read | Write | Deny.

#[global] Instance FileSystemAccessMode_eq_dec : EqDecision FileSystemAccessMode.
Proof. solve_decision. Defined.

Definition access_rank (a : FileSystemAccessMode) : nat :=
  match a with Read => 0 | Write => 1 | Deny => 2 end.

Definition can_read (a : FileSystemAccessMode) : bool :=
  match a with Deny => false | _ => true end.

Definition can_write (a : FileSystemAccessMode) : bool :=
  match a with Write => true | _ => false end.

Inductive FileSystemSpecialPath :=
| Root
| Minimal
| ProjectRoots (subpath : option str)
| Tmpdir
| SlashTmp
| Unknown (path : str) (subpath : option str).

#[global] Instance FileSystemSpecialPath_eq_dec : EqDecision FileSystemSpecialPath.
Proof. solve_decision. Defined.

Inductive FileSystemPath :=
| PathEntry (path : Path)
| GlobPattern (pattern : str)
| Special (value : FileSystemSpecialPath).

#[global] Instance FileSystemPath_eq_dec : EqDecision FileSystemPath.
Proof. solve_decision. Defined.

Inductive FileSystemSandboxEntryMissingPathBehavior := Skip.

#[global] Instance MissingPathBehavior_eq_dec :
  EqDecision FileSystemSandboxEntryMissingPathBehavior.
Proof. solve_decision. Defined.

Record FileSystemSandboxEntry := mkEntry {
  entry_path : FileSystemPath;
  access : FileSystemAccessMode;
  missing_path_behavior : option FileSystemSandboxEntryMissingPathBehavior;
}.

#[global] Instance FileSystemSandboxEntry_eq_dec : EqDecision FileSystemSandboxEntry.
Proof. solve_decision. Defined.

Definition new_entry (p : FileSystemPath) (a : FileSystemAccessMode) : FileSystemSandboxEntry :=
  mkEntry p a None.

Definition skip_missing_path (p : FileSystemPath) (a : FileSystemAccessMode)
    : FileSystemSandboxEntry := mkEntry p a (Some Skip).

Definition skips_missing_path (e : FileSystemSandboxEntry) : bool :=
  bool_decide (missing_path_behavior e = Some Skip).

Inductive FileSystemSandboxKind := Restricted | Unrestricted | ExternalSandboxKind.

#[global] Instance FileSystemSandboxKind_eq_dec : EqDecision FileSystemSandboxKind.
Proof. solve_decision. Defined.

Record FileSystemSandboxPolicy := mkPolicy {
  kind : FileSystemSandboxKind;
  glob_scan_max_depth : option N;
  entries : list FileSystemSandboxEntry;
}.

Definition is_restricted (p : FileSystemSandboxPolicy) : bool :=
  match kind p with Restricted => true | _ => false end.

(** Replacement of the entries of a policy, for the operations that mutate them. *)
Definition set_entries (es : list FileSystemSandboxEntry) (p : FileSystemSandboxPolicy)
    : FileSystemSandboxPolicy := mkPolicy (kind p) (glob_scan_max_depth p) es.

Definition push_entry (p : FileSystemSandboxPolicy) (e : FileSystemSandboxEntry)
    : FileSystemSandboxPolicy := set_entries (entries p ++ [e]) p.

Record ResolvedFileSystemEntry := mkResolved {
  res_path : Path;
  res_access : FileSystemAccessMode;
}.

Inductive NetworkAccess := NetworkAccessRestricted | NetworkAccessEnabled.

#[global] Instance NetworkAccess_eq_dec : EqDecision NetworkAccess.
Proof. solve_decision. Defined.

(** The legacy policy of [protocol.rs]. *)
Inductive SandboxPolicy :=
| DangerFullAccess
| ReadOnly (network_access : bool)
| ExternalSandbox (network_access : NetworkAccess)
| WorkspaceWrite (writable_roots : list Path) (network_access : bool)
    (exclude_tmpdir_env_var exclude_slash_tmp : bool).

#[global] Instance SandboxPolicy_eq_dec : EqDecision SandboxPolicy.
Proof. solve_decision. Defined.

(** ** Constructors of policies *)

Definition PROJECT_ROOTS_GLOB_PATTERN_PREFIX : str := s!"codex-project-roots://".

Definition project_roots_glob_pattern (subpath : Path) : str :=
  PROJECT_ROOTS_GLOB_PATTERN_PREFIX ++ to_string_lossy subpath.

Definition read_only_file_system_entries : list FileSystemSandboxEntry :=
  [new_entry (Special Root) Read].

Definition restricted (es : list FileSystemSandboxEntry) : FileSystemSandboxPolicy :=
  mkPolicy Restricted None es.

Definition read_only : FileSystemSandboxPolicy := restricted read_only_file_system_entries.
Definition unrestricted : FileSystemSandboxPolicy := mkPolicy Unrestricted None [].
Definition external_sandbox : FileSystemSandboxPolicy := mkPolicy ExternalSandboxKind None [].

Definition remove_skip_missing_path_entries (p : FileSystemSandboxPolicy)
    : FileSystemSandboxPolicy :=
  set_entries (List.filter (fun e => negb (skips_missing_path e)) (entries p)) p.

(** ** Targets compared without a working directory *)

Definition special_paths_share_target (left right : FileSystemSpecialPath) : bool :=
  match left, right with
  | Root, Root | Minimal, Minimal | Tmpdir, Tmpdir | SlashTmp, SlashTmp => true
  | ProjectRoots l, ProjectRoots r => bool_decide (l = r)
  | Unknown l ls, Unknown r rs => bool_decide (l = r) && bool_decide (ls = rs)
  | _, _ => false
  end.

Definition slash_tmp : Path := [RootDir; Normal s!"tmp"].

Definition special_path_matches_absolute_path (value : FileSystemSpecialPath) (p : Path) : bool :=
  match value with
  | Root => match parent p with None => true | Some _ => false end
  | SlashTmp => bool_decide (p = slash_tmp)
  | _ => false
  end.

Definition file_system_paths_share_target (left right : FileSystemPath) : bool :=
  match left, right with
  | PathEntry l, PathEntry r => bool_decide (l = r)
  | Special l, Special r => special_paths_share_target l r
  | PathEntry p, Special v | Special v, PathEntry p => special_path_matches_absolute_path v p
  | GlobPattern l, GlobPattern r => bool_decide (l = r)
  | GlobPattern _, _ | _, GlobPattern _ => false
  end.

(** ** Summaries of a policy *)

Definition has_root_access (predicate : FileSystemAccessMode -> bool)
    (p : FileSystemSandboxPolicy) : bool :=
  is_restricted p &&
  existsb (fun e => match entry_path e with
                    | Special Root => predicate (access e)
                    | _ => false
                    end) (entries p).

Definition is_deny (e : FileSystemSandboxEntry) : bool := bool_decide (access e = Deny).

Definition has_denied_read_restrictions (p : FileSystemSandboxPolicy) : bool :=
  is_restricted p && existsb is_deny (entries p).

Definition has_same_target_write_override (p : FileSystemSandboxPolicy)
    (e : FileSystemSandboxEntry) : bool :=
  existsb (fun candidate =>
    can_write (access candidate)
    && (access_rank (access e) <? access_rank (access candidate))
    && file_system_paths_share_target (entry_path candidate) (entry_path e)) (entries p).

Definition narrows_write (p : FileSystemSandboxPolicy) (e : FileSystemSandboxEntry) : bool :=
  if can_write (access e) then false
  else match entry_path e with
       | PathEntry _ => negb (has_same_target_write_override p e)
       | GlobPattern _ => true
       | Special Root => is_deny e
       | Special Minimal | Special (Unknown _ _) => false
       | Special _ => negb (has_same_target_write_override p e)
       end.

Definition has_write_narrowing_entries (p : FileSystemSandboxPolicy) : bool :=
  is_restricted p && existsb (narrows_write p) (entries p).

Definition has_full_disk_read_access (p : FileSystemSandboxPolicy) : bool :=
  match kind p with
  | Unrestricted | ExternalSandboxKind => true
  | Restricted => has_root_access can_read p && negb (has_denied_read_restrictions p)
  end.

Definition has_full_disk_write_access (p : FileSystemSandboxPolicy) : bool :=
  match kind p with
  | Unrestricted | ExternalSandboxKind => true
  | Restricted => has_root_access can_write p && negb (has_write_narrowing_entries p)
  end.

Definition include_platform_defaults (p : FileSystemSandboxPolicy) : bool :=
  negb (has_full_disk_read_access p) && is_restricted p &&
  existsb (fun e => match entry_path e with
                    | Special Minimal => can_read (access e)
                    | _ => false
                    end) (entries p).

(** ** Read-deny rules carried over *)

Definition push_if_absent (es : list FileSystemSandboxEntry) (e : FileSystemSandboxEntry)
    : list FileSystemSandboxEntry :=
  if existsb (fun x => bool_decide (x = e)) es then es else es ++ [e].

Definition push_deny_entries (existing : FileSystemSandboxPolicy)
    (es : list FileSystemSandboxEntry) : list FileSystemSandboxEntry :=
  fold_left push_if_absent (List.filter is_deny (entries existing)) es.

Definition preserve_deny_read_restrictions_from (p existing : FileSystemSandboxPolicy)
    : FileSystemSandboxPolicy :=
  let has_deny_read_entries := existsb is_deny (entries existing) in
  let p :=
    match kind p with
    | Unrestricted =>
        if has_deny_read_entries then restricted [new_entry (Special Root) Write] else p
    | _ => p
    end in
  if is_restricted p then
    mkPolicy (kind p)
      (match glob_scan_max_depth p with
       | None => glob_scan_max_depth existing
       | Some d => Some d
       end)
      (push_deny_entries existing (entries p))
  else p.

(** ** Resolution against a working directory *)

Section resolve.
Context `{Host}.

Definition resolve_file_system_special_path (value : FileSystemSpecialPath) (cwd : option Path)
    : option Path :=
  match value with
  | Root | Minimal | Unknown _ _ => None
  | ProjectRoots subpath =>
      cwd ← cwd;
      Some (match subpath with
            | Some subpath => resolve_path_against_base (components subpath) cwd
            | None => cwd
            end)
  | Tmpdir =>
      tmpdir ← tmpdir_var;
      if is_empty tmpdir then None else from_absolute_path tmpdir
  | SlashTmp => if is_dir slash_tmp then Some slash_tmp else None
  end.

Definition resolve_file_system_path (p : FileSystemPath) (cwd : option Path) : option Path :=
  match p with
  | PathEntry path => Some path
  | GlobPattern _ => None
  | Special value => resolve_file_system_special_path value cwd
  end.

(** The last of the ancestors; the source panics when there is none, which
    cannot be: a path is its own first ancestor. *)
Definition absolute_root_path_for_cwd (cwd : Path) : Path :=
  match last (ancestors cwd) with
  | Some root => default root (from_absolute_path root)
  | None => cwd
  end.

Definition resolve_entry_path (p : FileSystemPath) (cwd : option Path) : option Path :=
  match p with
  | Special Root => absolute_root_path_for_cwd <$> cwd
  | _ => resolve_file_system_path p cwd
  end.

Definition resolve_candidate_path (p cwd : Path) : option Path :=
  if is_absolute p then from_absolute_path p
  else cwd ← from_absolute_path cwd; Some (abs_join cwd p).

Definition resolve_entry (cwd : option Path) (e : FileSystemSandboxEntry)
    : option ResolvedFileSystemEntry :=
  path ← resolve_entry_path (entry_path e) cwd; Some (mkResolved path (access e)).

Definition resolved_entries_with_cwd (p : FileSystemSandboxPolicy) (cwd : Path)
    : list ResolvedFileSystemEntry :=
  omap (resolve_entry (from_absolute_path cwd)) (entries p).

(** More components first, then the access mode. *)
Definition resolved_entry_precedence (e : ResolvedFileSystemEntry) : nat * nat :=
  (length (res_path e), access_rank (res_access e)).

Definition key_le (a b : nat * nat) : bool :=
  (a.1 <? b.1) || ((a.1 =? b.1) && (a.2 <=? b.2)).

(** [Iterator::max_by_key]: the last of the maximal elements. *)
Definition max_by_key {A} (key : A -> nat * nat) (l : list A) : option A :=
  fold_left (fun best x =>
    match best with
    | None => Some x
    | Some b => if key_le (key b) (key x) then Some x else Some b
    end) l None.

Definition covering (target : Path) (es : list ResolvedFileSystemEntry)
    : list ResolvedFileSystemEntry :=
  List.filter (fun e => path_starts_with target (res_path e)) es.

Definition resolve_access_with_cwd (p : FileSystemSandboxPolicy) (path cwd : Path)
    : FileSystemAccessMode :=
  match kind p with
  | Unrestricted | ExternalSandboxKind => Write
  | Restricted =>
      match resolve_candidate_path path cwd with
      | None => Deny
      | Some target =>
          match max_by_key resolved_entry_precedence
                  (covering target (resolved_entries_with_cwd p cwd)) with
          | Some e => res_access e
          | None => Deny
          end
      end
  end.

Definition can_read_path_with_cwd (p : FileSystemSandboxPolicy) (path cwd : Path) : bool :=
  can_read (resolve_access_with_cwd p path cwd).

(** *** Workspace metadata *)

Definition metadata_path_name (name : str) : option str :=
  List.find (str_eqb name) PROTECTED_METADATA_PATH_NAMES.

(** What one writable entry says about the target. *)
Definition metadata_child_of_entry (target : Path) (e : ResolvedFileSystemEntry)
    : option (Path * str) :=
  relative_path ← path_strip_prefix (res_path e) target;
  first_component ← head relative_path;
  metadata_name ← metadata_path_name (as_os_str first_component);
  Some (abs_join (res_path e) [Normal metadata_name], metadata_name).

Definition metadata_child_of_writable_root (p : FileSystemSandboxPolicy) (target cwd : Path)
    : option (Path * str) :=
  head (omap (metadata_child_of_entry target)
         (List.filter (fun e => can_write (res_access e)) (resolved_entries_with_cwd p cwd))).

Definition has_explicit_write_entry_for_metadata_path (p : FileSystemSandboxPolicy)
    (protected_metadata_path target cwd : Path) : bool :=
  existsb (fun e =>
    can_write (res_access e)
    && path_starts_with target (res_path e)
    && path_starts_with (res_path e) protected_metadata_path)
    (resolved_entries_with_cwd p cwd).

Definition is_metadata_write_denied (p : FileSystemSandboxPolicy) (path cwd : Path) : bool :=
  if is_restricted p then
    match resolve_candidate_path path cwd with
    | None => true
    | Some target =>
        match metadata_child_of_writable_root p target cwd with
        | None => false
        | Some (protected_metadata_path, _) =>
            negb (has_explicit_write_entry_for_metadata_path p protected_metadata_path target cwd)
        end
    end
  else false.

Definition can_write_path_with_cwd (p : FileSystemSandboxPolicy) (path cwd : Path) : bool :=
  if negb (can_write (resolve_access_with_cwd p path cwd)) then false
  else if has_full_disk_write_access p then true
  else negb (is_metadata_write_denied p path cwd).

Definition forbidden_agent_metadata_write (path cwd : Path) (p : FileSystemSandboxPolicy)
    : option str :=
  if is_restricted p then
    target ← resolve_candidate_path path cwd;
    '(protected_metadata_path, metadata_name) ← metadata_child_of_writable_root p target cwd;
    if has_explicit_write_entry_for_metadata_path p protected_metadata_path target cwd then None
    else if can_write_path_with_cwd p target cwd then None
    else Some metadata_name
  else None.

Definition has_explicit_non_write_entry_for_path_with_cwd (p : FileSystemSandboxPolicy)
    (path cwd : Path) : bool :=
  match resolve_candidate_path path cwd with
  | None => false
  | Some path =>
      let cwd := from_absolute_path cwd in
      existsb (fun e =>
        negb (skips_missing_path e) && negb (can_write (access e))
        && bool_decide (resolve_entry_path (entry_path e) cwd = Some path)) (entries p)
  end.

(** *** Extending a policy *)

Definition add_readable_root (cwd : Path) (p : FileSystemSandboxPolicy) (path : Path)
    : FileSystemSandboxPolicy :=
  if can_read_path_with_cwd p path cwd then p
  else push_entry p (new_entry (PathEntry path) Read).

Definition with_additional_readable_roots (p : FileSystemSandboxPolicy) (cwd : Path)
    (roots : list Path) : FileSystemSandboxPolicy :=
  if has_full_disk_read_access p then p else fold_left (add_readable_root cwd) roots p.

Definition add_writable_root (cwd : Path) (p : FileSystemSandboxPolicy) (path : Path)
    : FileSystemSandboxPolicy :=
  if can_write_path_with_cwd p path cwd then p
  else push_entry p (new_entry (PathEntry path) Write).

Definition with_additional_writable_roots (p : FileSystemSandboxPolicy) (cwd : Path)
    (roots : list Path) : FileSystemSandboxPolicy :=
  fold_left (add_writable_root cwd) roots p.

(** *** Symbolic project roots *)

Definition parse_project_roots_glob_pattern (pattern : str) : option Path :=
  components <$> strip_prefix PROJECT_ROOTS_GLOB_PATTERN_PREFIX pattern.

Definition resolve_project_roots_glob_pattern (subpath root : Path) : str :=
  to_string_lossy (resolve_path_against_base subpath root).

Definition with_path (e : FileSystemSandboxEntry) (path : FileSystemPath)
    : FileSystemSandboxEntry := mkEntry path (access e) (missing_path_behavior e).

Definition materialize_entry_with_cwd (cwd : option Path) (e : FileSystemSandboxEntry)
    : FileSystemSandboxEntry :=
  match entry_path e with
  | Special (ProjectRoots _) =>
      match resolve_file_system_path (entry_path e) cwd with
      | Some path => with_path e (PathEntry path)
      | None => e
      end
  | GlobPattern pattern =>
      match cwd, parse_project_roots_glob_pattern pattern with
      | Some cwd, Some subpath =>
          with_path e (GlobPattern (resolve_project_roots_glob_pattern subpath cwd))
      | _, _ => e
      end
  | Special _ | PathEntry _ => e
  end.

Definition materialize_project_roots_with_cwd (p : FileSystemSandboxPolicy) (cwd : Path)
    : FileSystemSandboxPolicy :=
  set_entries (materialize_entry_with_cwd (from_absolute_path cwd) <$> entries p) p.

Definition materialize_entry_with_workspace_roots (roots : list Path)
    (e : FileSystemSandboxEntry) : list FileSystemSandboxEntry :=
  match entry_path e with
  | Special (ProjectRoots subpath) =>
      (fun root => with_path e (PathEntry
         (match subpath with
          | Some subpath => resolve_path_against_base (components subpath) root
          | None => root
          end))) <$> roots
  | GlobPattern pattern =>
      match parse_project_roots_glob_pattern pattern with
      | Some subpath =>
          (fun root => with_path e (GlobPattern (resolve_project_roots_glob_pattern subpath root)))
          <$> roots
      | None => [e]
      end
  | PathEntry _ | Special _ => [e]
  end.

Definition materialize_project_roots_with_workspace_roots (p : FileSystemSandboxPolicy)
    (roots : list Path) : FileSystemSandboxPolicy :=
  set_entries (entries p ≫= materialize_entry_with_workspace_roots roots) p.

Definition with_materialized_project_roots_for_workspace_roots (p : FileSystemSandboxPolicy)
    (roots : list Path) : FileSystemSandboxPolicy :=
  set_entries
    (fold_left push_if_absent
       (entries (materialize_project_roots_with_workspace_roots p roots)) (entries p)) p.

(** *** Default policies *)

Definition append_default_read_only_entry_if_no_explicit_rule
    (es : list FileSystemSandboxEntry) (path : FileSystemPath) : list FileSystemSandboxEntry :=
  if existsb (fun e => file_system_paths_share_target (entry_path e) path) es then es
  else es ++ [skip_missing_path path Read].

Definition append_default_read_only_path_if_no_explicit_rule
    (es : list FileSystemSandboxEntry) (path : Path) : list FileSystemSandboxEntry :=
  append_default_read_only_entry_if_no_explicit_rule es (PathEntry path).

Definition append_default_read_only_project_root_subpath_if_no_explicit_rule
    (es : list FileSystemSandboxEntry) (subpath : str) : list FileSystemSandboxEntry :=
  append_default_read_only_entry_if_no_explicit_rule es (Special (ProjectRoots (Some subpath))).

Definition is_git_pointer_file (path : Path) : bool :=
  is_file path && bool_decide (file_name path = Some PROTECTED_METADATA_GIT_PATH_NAME).

(** The directory a [.git] file points to, when the file says [gitdir: <path>]
    and the path exists. *)
Definition resolve_gitdir_from_file (dot_git : Path) : option Path :=
  contents ← read_to_string dot_git;
  '(prefix, gitdir_raw) ← split_once (ch ":") (trim contents);
  if str_eqb (trim prefix) s!"gitdir" then
    let gitdir_raw := trim gitdir_raw in
    if is_empty gitdir_raw then None
    else base ← parent dot_git;
         let gitdir_path := resolve_path_against_base (components gitdir_raw) base in
         if exists_path gitdir_path then Some gitdir_path else None
  else None.

Definition normalize_via_ancestor (raw_path ancestor : Path) : option Path :=
  _ ← symlink_metadata ancestor;
  normalized_ancestor ← canonicalize_preserving_symlinks ancestor;
  suffix ← path_strip_prefix ancestor raw_path;
  from_absolute_path (path_join normalized_ancestor suffix).

(** The path seen through its nearest existing ancestor. *)
Definition normalize_effective_absolute_path (path : Path) : Path :=
  match head (omap (normalize_via_ancestor path) (ancestors path)) with
  | Some normalized_path => normalized_path
  | None => path
  end.

Fixpoint dedup_from (seen paths : list Path) : list Path :=
  match paths with
  | [] => []
  | p :: paths' =>
      if bool_decide (p ∈ seen) then dedup_from seen paths'
      else p :: dedup_from (p :: seen) paths'
  end.

Definition dedup_absolute_paths (paths : list Path) (normalize_effective_paths : bool)
    : list Path :=
  dedup_from [] (if normalize_effective_paths
                 then normalize_effective_absolute_path <$> paths else paths).

Definition default_read_only_subpaths_for_writable_root (writable_root : Path)
    (protect_missing_dot_codex : bool) : list Path :=
  let top_level_git := abs_join writable_root [Normal PROTECTED_METADATA_GIT_PATH_NAME] in
  let git :=
    if is_dir top_level_git || is_file top_level_git then
      (if is_file top_level_git && is_git_pointer_file top_level_git then
         match resolve_gitdir_from_file top_level_git with
         | Some gitdir => [gitdir]
         | None => []
         end
       else []) ++ [top_level_git]
    else [] in
  let top_level_agents := abs_join writable_root [Normal PROTECTED_METADATA_AGENTS_PATH_NAME] in
  let agents := if is_dir top_level_agents then [top_level_agents] else [] in
  let top_level_codex := abs_join writable_root [Normal PROTECTED_METADATA_CODEX_PATH_NAME] in
  let codex :=
    if protect_missing_dot_codex || is_dir top_level_codex then [top_level_codex] else [] in
  dedup_absolute_paths (git ++ agents ++ codex) false.

(** The read-only subpaths of each root, appended in order. *)
Definition protect_root (protect_missing_dot_codex : bool) (es : list FileSystemSandboxEntry)
    (root : Path) : list FileSystemSandboxEntry :=
  fold_left append_default_read_only_path_if_no_explicit_rule
    (default_read_only_subpaths_for_writable_root root protect_missing_dot_codex) es.

Definition write_entry (path : Path) : FileSystemSandboxEntry := new_entry (PathEntry path) Write.

(** The entries both builders of a workspace policy start from. *)
Definition workspace_base_entries (writable_roots : list Path)
    (exclude_tmpdir_env_var exclude_slash_tmp : bool) : list FileSystemSandboxEntry :=
  [new_entry (Special Root) Read; new_entry (Special (ProjectRoots None)) Write]
  ++ (if exclude_slash_tmp then [] else [new_entry (Special SlashTmp) Write])
  ++ (if exclude_tmpdir_env_var then [] else [new_entry (Special Tmpdir) Write])
  ++ (write_entry <$> writable_roots).

Definition workspace_write (writable_roots : list Path)
    (exclude_tmpdir_env_var exclude_slash_tmp : bool) : FileSystemSandboxPolicy :=
  let es := workspace_base_entries writable_roots exclude_tmpdir_env_var exclude_slash_tmp in
  let es := append_default_read_only_project_root_subpath_if_no_explicit_rule es s!".git" in
  let es := append_default_read_only_project_root_subpath_if_no_explicit_rule es s!".agents" in
  let es := append_default_read_only_project_root_subpath_if_no_explicit_rule es s!".codex" in
  restricted (fold_left (protect_root false) writable_roots es).

Definition from_sandbox_policy (value : SandboxPolicy) : FileSystemSandboxPolicy :=
  match value with
  | DangerFullAccess => unrestricted
  | ExternalSandbox _ => external_sandbox
  | ReadOnly _ => restricted [new_entry (Special Root) Read]
  | WorkspaceWrite writable_roots _ exclude_tmpdir_env_var exclude_slash_tmp =>
      workspace_write writable_roots exclude_tmpdir_env_var exclude_slash_tmp
  end.

Definition from_legacy_sandbox_policy_for_cwd (sandbox_policy : SandboxPolicy) (cwd : Path)
    : FileSystemSandboxPolicy :=
  let p := from_sandbox_policy sandbox_policy in
  match sandbox_policy with
  | WorkspaceWrite writable_roots _ _ _ =>
      let es :=
        match from_absolute_path cwd with
        | Some cwd_root => protect_root true (entries p) cwd_root
        | None => entries p
        end in
      set_entries (fold_left (protect_root false) writable_roots es) p
  | _ => p
  end.

Definition from_legacy_sandbox_policy_preserving_deny_entries (sandbox_policy : SandboxPolicy)
    (cwd : Path) (existing : FileSystemSandboxPolicy) : FileSystemSandboxPolicy :=
  let rebuilt := from_legacy_sandbox_policy_for_cwd sandbox_policy cwd in
  if is_restricted rebuilt then
    mkPolicy (kind rebuilt) (glob_scan_max_depth existing)
      (push_deny_entries existing (entries rebuilt))
  else rebuilt.

Definition add_legacy_writable_root (es : list FileSystemSandboxEntry) (path : Path)
    : list FileSystemSandboxEntry :=
  let es :=
    if existsb (fun e => can_write (access e)
                         && match entry_path e with
                            | PathEntry existing => bool_decide (existing = path)
                            | _ => false
                            end) es
    then es else es ++ [write_entry path] in
  protect_root false es path.

Definition with_additional_legacy_workspace_writable_roots (p : FileSystemSandboxPolicy)
    (roots : list Path) : FileSystemSandboxPolicy :=
  if is_restricted p then set_entries (fold_left add_legacy_writable_root roots (entries p)) p
  else p.

End resolve.
