(* ===== verification/PermissionsFacts.v ===== *)
(** * Theorems on file system permissions

    The access of a path is decided by the most specific entry; the summaries
    [has_full_disk_*] are sound; metadata below a writable root needs an entry of
    its own; extending a policy never takes access away. *)

From S2P Require Import Prelude RustStr Paths Permissions.

(** ** The maximum of a list by key *)

Lemma key_le_spec a b : key_le a b = true <-> a.1 < b.1 \/ (a.1 = b.1 /\ a.2 <= b.2).
Proof.
  unfold key_le. rewrite orb_true_iff, andb_true_iff, Nat.ltb_lt, Nat.eqb_eq, Nat.leb_le. done.
Qed.

Lemma key_le_false a b : key_le a b = false -> key_le b a = true.
Proof. intros E%not_true_iff_false. rewrite key_le_spec in *. lia. Qed.

Lemma key_le_trans a b c : key_le a b = true -> key_le b c = true -> key_le a c = true.
Proof. rewrite !key_le_spec. lia. Qed.

Lemma key_le_refl a : key_le a a = true.
Proof. apply key_le_spec. lia. Qed.

Lemma max_by_key_snoc {A} (key : A -> nat * nat) l x :
  max_by_key key (l ++ [x]) =
  match max_by_key key l with
  | None => Some x
  | Some b => if key_le (key b) (key x) then Some x else Some b
  end.
Proof. unfold max_by_key. by rewrite fold_left_app. Qed.

Lemma max_by_key_None {A} (key : A -> nat * nat) l : max_by_key key l = None <-> l = [].
Proof.
  destruct l as [|x l _] using rev_ind; [done|].
  rewrite max_by_key_snoc. split; [|by destruct l].
  destruct (max_by_key key l); [case_match|]; done.
Qed.

Lemma max_by_key_Some {A} (key : A -> nat * nat) l x :
  max_by_key key l = Some x -> x ∈ l /\ forall y, y ∈ l -> key_le (key y) (key x) = true.
Proof.
  revert x. induction l as [|a l IH] using rev_ind; intros x; [done|].
  rewrite max_by_key_snoc. destruct (max_by_key key l) as [b|] eqn:E.
  - specialize (IH b eq_refl) as [Hb Hmax]. case_match; intros [= <-].
    + split; [set_solver|]. intros y [Hy| ->%list_elem_of_singleton]%elem_of_app.
      * eauto using key_le_trans.
      * apply key_le_refl.
    + split; [set_solver|]. intros y [Hy| ->%list_elem_of_singleton]%elem_of_app; auto.
      by apply key_le_false.
  - apply max_by_key_None in E as ->. intros [= <-]. split; [set_solver|].
    intros y ->%list_elem_of_singleton. apply key_le_refl.
Qed.

(** ** Access decided by resolved entries *)

Implicit Types (R : list ResolvedFileSystemEntry) (e : ResolvedFileSystemEntry).

Definition decided (R : list ResolvedFileSystemEntry) (t : Path) : FileSystemAccessMode :=
  match max_by_key resolved_entry_precedence (covering t R) with
  | Some e => res_access e
  | None => Deny
  end.

(** [e] covers [t] and no covering entry is more specific or, at the same path,
    takes precedence. *)
Definition most_specific (R : list ResolvedFileSystemEntry) (t : Path)
    (e : ResolvedFileSystemEntry) : Prop :=
  e ∈ R /\ res_path e `prefix_of` t /\
  forall e', e' ∈ R -> res_path e' `prefix_of` t ->
    length (res_path e') < length (res_path e) \/
    (res_path e' = res_path e /\ access_rank (res_access e') <= access_rank (res_access e)).

Lemma elem_of_covering R t e : e ∈ covering t R <-> e ∈ R /\ res_path e `prefix_of` t.
Proof.
  unfold covering. rewrite list_elem_of_In, filter_In, <- list_elem_of_In.
  by rewrite path_starts_with_true.
Qed.

Lemma access_rank_inj a b : access_rank a = access_rank b -> a = b.
Proof. by destruct a, b. Qed.

Lemma most_specific_access R t e1 e2 :
  most_specific R t e1 -> most_specific R t e2 ->
  res_path e1 = res_path e2 /\ res_access e1 = res_access e2.
Proof.
  intros (H1 & Hp1 & Hm1) (H2 & Hp2 & Hm2).
  destruct (Hm1 e2 H2 Hp2) as [?|[E ?]], (Hm2 e1 H1 Hp1) as [?|[E' ?]]; [lia| | |].
  - rewrite E' in *. lia.
  - rewrite E in *. lia.
  - split; [done|]. apply access_rank_inj. lia.
Qed.

Lemma max_covering R t e :
  max_by_key resolved_entry_precedence (covering t R) = Some e -> most_specific R t e.
Proof.
  intros [He Hmax]%max_by_key_Some. apply elem_of_covering in He as [He Hp].
  split; [done|]. split; [done|]. intros e' He' Hp'.
  specialize (Hmax e'). rewrite elem_of_covering, key_le_spec in Hmax.
  destruct (Hmax (conj He' Hp')) as [?|[Hl Hr]]; simpl in *; [by left|right].
  split; [|done]. by eapply prefix_same_length.
Qed.

Lemma covering_nil R t :
  covering t R = [] <-> forall e, e ∈ R -> ~ res_path e `prefix_of` t.
Proof.
  split.
  - intros E e He Hp. apply (not_elem_of_nil e). rewrite <- E. by apply elem_of_covering.
  - intros Hn. destruct (covering t R) as [|e l] eqn:E; [done|].
    assert (e ∈ covering t R) as [He Hp]%elem_of_covering by (rewrite E; left). by destruct (Hn e).
Qed.

Lemma decided_spec R t a :
  decided R t = a <->
  (a = Deny /\ forall e, e ∈ R -> ~ res_path e `prefix_of` t) \/
  (exists e, most_specific R t e /\ res_access e = a).
Proof.
  unfold decided. destruct (max_by_key _ _) as [e|] eqn:E.
  - apply max_covering in E as Hm. split.
    + intros <-. right. eauto.
    + intros [[_ Hn]|(e' & He' & <-)].
      * destruct Hm as (He & Hp & _). by destruct (Hn e).
      * by eapply most_specific_access.
  - rewrite max_by_key_None, covering_nil in E. split; [naive_solver|].
    intros [[-> _]|(e & (He & Hp & _) & _)]; [done|]. by destruct (E e).
Qed.

Lemma decided_most_specific R t :
  decided R t <> Deny -> exists e, most_specific R t e /\ res_access e = decided R t.
Proof.
  intros Hd. destruct (proj1 (decided_spec R t _) eq_refl) as [[? _]|?]; [done|done].
Qed.

Lemma decided_covered R t e :
  e ∈ R -> res_path e `prefix_of` t -> exists e', most_specific R t e' /\ res_access e' = decided R t.
Proof.
  intros He Hp. destruct (proj1 (decided_spec R t _) eq_refl) as [[_ Hn]|?]; [|done].
  by destruct (Hn e).
Qed.

(** Going down from [t] to [q] without meeting a further entry does not change
    the decision. *)
Lemma covering_between R t q :
  t `prefix_of` q ->
  (forall e, e ∈ R -> res_path e `prefix_of` q -> length (res_path e) <= length t) ->
  decided R t = decided R q.
Proof.
  intros Htq Hlen. unfold decided.
  enough (covering t R = covering q R) as -> by done.
  induction R as [|e R IH]; [done|]. simpl. rewrite IH by (intros; apply Hlen; [by right|done]).
  assert (path_starts_with t (res_path e) = path_starts_with q (res_path e)) as ->; [|done].
  apply eq_true_iff_eq. rewrite !path_starts_with_true. split.
  - intros. by trans t.
  - intros Hp. eapply prefix_length_le; [done..|]. apply Hlen; [by left|done].
Qed.

Lemma decided_snoc R x t :
  decided (R ++ [x]) t = decided R t \/
  (decided (R ++ [x]) t = res_access x /\ res_path x `prefix_of` t /\
   (forall e, e ∈ R -> res_path e `prefix_of` t -> length (res_path e) <= length (res_path x))).
Proof.
  unfold decided, covering. rewrite List.filter_app. simpl.
  destruct (path_starts_with t (res_path x)) eqn:Ex; [|rewrite app_nil_r; by left].
  apply path_starts_with_true in Ex. rewrite max_by_key_snoc.
  destruct (max_by_key _ (List.filter _ R)) as [b|] eqn:E.
  - apply max_covering in E as (_ & _ & Hm).
    destruct (key_le _ _) eqn:Ek; [right|by left].
    apply key_le_spec in Ek. simpl in Ek. split; [done|]. split; [done|].
    intros e He Hp. destruct (Hm e He Hp) as [?|[-> _]]; lia.
  - apply max_by_key_None in E. right. split; [done|]. split; [done|].
    intros e He Hp. exfalso. by apply (proj1 (covering_nil R t) E e).
Qed.

Lemma decided_snoc_self R a path :
  decided (R ++ [mkResolved path a]) path = a \/
  (exists e, e ∈ R /\ res_path e = path /\ access_rank a < access_rank (res_access e)).
Proof.
  destruct (decided_covered (R ++ [mkResolved path a]) path (mkResolved path a))
    as (e & (He & Hp & Hmax) & Ha); [set_solver|done|].
  apply elem_of_app in He as [He| ->%list_elem_of_singleton]; [|by left].
  destruct (Hmax (mkResolved path a)) as [Hl|[Hpe Hr]]; [set_solver|done| |]; simpl in *.
  - apply prefix_length in Hp. lia.
  - destruct (decide (access_rank a = access_rank (res_access e))) as [E|E].
    + left. by rewrite <- Ha, (access_rank_inj _ _ E).
    + right. exists e. split; [done|]. split; [done|]. lia.
Qed.

(** ** Metadata, on resolved entries *)

Definition write_entries (R : list ResolvedFileSystemEntry) : list ResolvedFileSystemEntry :=
  List.filter (fun e => can_write (res_access e)) R.

Definition explicit (R : list ResolvedFileSystemEntry) (m t : Path) : bool :=
  existsb (fun e => can_write (res_access e) && path_starts_with t (res_path e)
                    && path_starts_with (res_path e) m) R.

Section facts.
Context `{Host}.

Definition meta_denied (R : list ResolvedFileSystemEntry) (t : Path) : bool :=
  match head (omap (metadata_child_of_entry t) (write_entries R)) with
  | None => false
  | Some (m, _) => negb (explicit R m t)
  end.

Definition writable (full : bool) (R : list ResolvedFileSystemEntry) (t : Path) : bool :=
  can_write (decided R t) && (full || negb (meta_denied R t)).

Lemma elem_of_write_entries R e : e ∈ write_entries R <-> e ∈ R /\ res_access e = Write.
Proof.
  unfold write_entries. rewrite list_elem_of_In, filter_In, <- list_elem_of_In.
  destruct (res_access e); naive_solver.
Qed.

Lemma explicit_true R m t :
  explicit R m t = true <->
  exists e, e ∈ R /\ res_access e = Write /\ res_path e `prefix_of` t /\ m `prefix_of` res_path e.
Proof.
  unfold explicit. rewrite existsb_exists. split.
  - intros (e & He%list_elem_of_In & Hc). rewrite !andb_true_iff, !path_starts_with_true in Hc.
    exists e. destruct (res_access e) eqn:?; naive_solver.
  - intros (e & He%list_elem_of_In & Ha & Hp & Hm). exists e. split; [done|].
    rewrite !andb_true_iff, !path_starts_with_true, Ha. done.
Qed.

Lemma metadata_path_name_Some n m :
  metadata_path_name n = Some m -> n = m /\ m ∈ PROTECTED_METADATA_PATH_NAMES /\ m <> [126%N].
Proof.
  unfold metadata_path_name. intros [Hin Heq]%find_some.
  apply str_eqb_eq in Heq as ->. apply list_elem_of_In in Hin. split; [done|]. split; [done|].
  unfold PROTECTED_METADATA_PATH_NAMES in Hin. intros ->. by vm_compute in Hin; set_solver.
Qed.

Lemma metadata_path_name_protected n :
  n ∈ PROTECTED_METADATA_PATH_NAMES -> metadata_path_name n = Some n.
Proof.
  unfold PROTECTED_METADATA_PATH_NAMES. rewrite !elem_of_cons.
  intros [->|[->|[->|[]%not_elem_of_nil]]]; reflexivity.
Qed.

(** A metadata child is the name directly below the entry, on the way to the
    target. *)
Lemma metadata_child_Some t e m n :
  abs_norm t -> abs_norm (res_path e) ->
  metadata_child_of_entry t e = Some (m, n) <->
  n ∈ PROTECTED_METADATA_PATH_NAMES /\ m = res_path e ++ [Normal n] /\ m `prefix_of` t.
Proof.
  intros Ht He. unfold metadata_child_of_entry. split.
  - destruct (path_strip_prefix (res_path e) t) as [[|c r]|] eqn:E; simpl; [done| |done].
    apply path_strip_prefix_Some in E.
    destruct (metadata_path_name (as_os_str c)) as [n'|] eqn:En; simpl; [|done].
    intros [= <- <-]. apply metadata_path_name_Some in En as (Hc & Hn & Hne).
    rewrite abs_join_name by done. split; [done|]. split; [done|].
    assert (c = Normal n') as ->.
    { destruct Ht as [names Hnames], He as [names' Hnames'].
      rewrite Hnames, Hnames' in E. injection E as E.
      assert (c ∈ Normal <$> names) as (x & -> & _)%list_elem_of_fmap by (rewrite E; set_solver).
      simpl in Hc. by subst. }
    exists r. by rewrite E, <- app_assoc.
  - intros (Hn & -> & [r ->]). rewrite <- app_assoc, path_strip_prefix_app. simpl.
    rewrite (metadata_path_name_protected n) by done. simpl.
    rewrite abs_join_name; [done..|].
    by apply metadata_path_name_protected, metadata_path_name_Some in Hn as (_ & _ & ?).
Qed.

Lemma meta_first_Some R t x :
  head (omap (metadata_child_of_entry t) (write_entries R)) = Some x ->
  exists e, e ∈ R /\ res_access e = Write /\ metadata_child_of_entry t e = Some x.
Proof.
  intros Hh. assert (x ∈ omap (metadata_child_of_entry t) (write_entries R)) as Hx.
  { destruct (omap _ _); [done|]. injection Hh as ->. left. }
  apply list_elem_of_omap in Hx as (e & He & Hx). apply elem_of_write_entries in He as [? ?]. eauto.
Qed.

Lemma meta_first_None R t e :
  head (omap (metadata_child_of_entry t) (write_entries R)) = None ->
  e ∈ R -> res_access e = Write -> metadata_child_of_entry t e = None.
Proof.
  intros Hn%head_None He Ha. apply eq_None_not_Some. intros [x Hx].
  apply (not_elem_of_nil x). rewrite <- Hn. apply list_elem_of_omap.
  exists e. rewrite elem_of_write_entries. done.
Qed.

(** Writing below a metadata directory of a writable entry needs a write entry
    inside the metadata directory of some writable entry. *)
Lemma meta_allowed R t e n :
  abs_norm t -> Forall (fun e => abs_norm (res_path e)) R ->
  e ∈ R -> res_access e = Write -> n ∈ PROTECTED_METADATA_PATH_NAMES ->
  res_path e ++ [Normal n] `prefix_of` t -> meta_denied R t = false ->
  exists e1 e2 n', e1 ∈ R /\ e2 ∈ R /\ res_access e1 = Write /\ res_access e2 = Write /\
    n' ∈ PROTECTED_METADATA_PATH_NAMES /\
    res_path e1 ++ [Normal n'] `prefix_of` res_path e2 /\ res_path e2 `prefix_of` t.
Proof.
  intros Ht HR He Ha Hn Hp. rewrite Forall_forall in HR. unfold meta_denied.
  destruct (head _) as [[m n']|] eqn:Eh.
  - intros Hx%negb_false_iff. apply meta_first_Some in Eh as (e1 & He1 & Ha1 & Hm).
    apply metadata_child_Some in Hm as (Hn' & -> & _); [|done|by apply HR].
    apply explicit_true in Hx as (e2 & He2 & Ha2 & Hp2 & Hm2). exists e1, e2, n'. auto 10.
  - intros _. pose proof (meta_first_None _ _ _ Eh He Ha) as Hno.
    assert (metadata_child_of_entry t e = Some (res_path e ++ [Normal n], n)) as Hs
      by (apply metadata_child_Some; [done|by apply HR|done]).
    congruence.
Qed.

Lemma explicit_app R R' m t : explicit R m t = true -> explicit (R ++ R') m t = true.
Proof. unfold explicit. rewrite existsb_app. by intros ->. Qed.

Lemma write_entries_snoc R e :
  write_entries (R ++ [e]) =
  write_entries R ++ (if can_write (res_access e) then [e] else []).
Proof. unfold write_entries. by rewrite List.filter_app. Qed.

(** A path writable before stays so when a write entry is added at a path that
    was not writable. *)
Lemma writable_snoc_write R r q :
  Forall (fun e => abs_norm (res_path e)) R -> abs_norm r -> abs_norm q ->
  writable false R r = false -> writable false R q = true ->
  writable false (R ++ [mkResolved r Write]) q = true.
Proof.
  unfold writable. simpl. intros HR Hr Hq Hnr [Hd Hm]%andb_true_iff.
  apply andb_true_iff. split.
  { destruct (decided_snoc R (mkResolved r Write) q) as [->|[-> _]]; [done|done]. }
  apply negb_true_iff in Hm. apply negb_true_iff. unfold meta_denied in *.
  rewrite write_entries_snoc, omap_app. simpl.
  destruct (omap (metadata_child_of_entry q) (write_entries R)) as [|[m n] l] eqn:El; simpl in *.
  2: { apply negb_false_iff in Hm. by rewrite explicit_app. }
  destruct (metadata_child_of_entry q (mkResolved r Write)) as [[m n]|] eqn:Ec; [|done]. simpl.
  apply metadata_child_Some in Ec as (Hn & -> & Hp); [|done..]. simpl in *. apply negb_false_iff.
  destruct (decided_most_specific R q) as (e & He & Hea); [by destruct (decided R q)|].
  destruct He as (HeR & Hep & Hmax).
  destruct (decide (length r < length (res_path e))) as [Hlt|Hge].
  { apply explicit_true. exists e. split; [set_solver|]. destruct (decided R q); try done.
    split; [done|]. split; [done|]. eapply prefix_length_le; [done..|]. rewrite length_app. simpl. lia. }
  exfalso. assert (r `prefix_of` q) as Hrq by (trans (r ++ [Normal n]); [by exists [Normal n]|done]).
  rewrite (covering_between R r q) in Hnr; [|done|].
  2: { intros e' He' Hp'. destruct (Hmax e' He' Hp') as [?|[-> _]]; lia. }
  rewrite Hd in Hnr. simpl in Hnr. apply negb_false_iff in Hnr.
  destruct (head (omap (metadata_child_of_entry r) (write_entries R))) as [[m' n']|] eqn:Eh; [|done].
  apply meta_first_Some in Eh as (w & Hw & Hwa & Hwm).
  rewrite Forall_forall in HR. apply metadata_child_Some in Hwm as (Hn' & -> & Hwp); [|auto..].
  assert (metadata_child_of_entry q w = Some (res_path w ++ [Normal n'], n')) as Hs.
  { apply metadata_child_Some; [auto..|]. split; [done|]. split; [done|]. by trans r. }
  rewrite (meta_first_None R q w) in Hs; [done| |done..]. by rewrite El.
Qed.

(** Adding a read entry at an unreadable path changes no access that was
    granted. *)
Lemma decided_snoc_read R r q :
  decided R r = Deny -> decided R q <> Deny -> decided (R ++ [mkResolved r Read]) q = decided R q.
Proof.
  intros Hr Hq. destruct (decided_snoc R (mkResolved r Read) q) as [?|(_ & Hp & Hlen)]; [done|].
  exfalso. apply Hq. rewrite <- Hr. symmetry. by apply covering_between.
Qed.

Lemma meta_denied_snoc_read R r q : meta_denied (R ++ [mkResolved r Read]) q = meta_denied R q.
Proof.
  unfold meta_denied. rewrite write_entries_snoc. simpl. rewrite app_nil_r.
  destruct (head _) as [[m n]|]; [|done]. f_equal. unfold explicit.
  by rewrite existsb_app, orb_false_r.
Qed.

Lemma writable_snoc_read full R r q :
  decided R r = Deny -> writable full R q = true ->
  writable full (R ++ [mkResolved r Read]) q = true.
Proof.
  unfold writable. rewrite meta_denied_snoc_read. intros Hr [Hd ->]%andb_true_iff.
  rewrite decided_snoc_read; [by rewrite Hd|done|by destruct (decided R q)].
Qed.

(** ** Well-formed policies *)

Implicit Types (en : FileSystemSandboxEntry).

(** Path entries hold an [AbsolutePathBuf]. *)
Definition wf_entry (en : FileSystemSandboxEntry) : Prop :=
  match entry_path en with PathEntry p => abs_norm p | _ => True end.

Definition wf_policy (p : FileSystemSandboxPolicy) : Prop := Forall wf_entry (entries p).

Lemma wf_push p en : wf_policy p -> wf_entry en -> wf_policy (push_entry p en).
Proof. intros Hp He. apply Forall_app. auto. Qed.

Lemma ancestors_fuel_last fuel names :
  length names < fuel ->
  last (ancestors_fuel fuel (RootDir :: (Normal <$> names))) = Some [RootDir].
Proof.
  revert names. induction fuel as [|fuel IH]; intros names Hl; [lia|]. simpl.
  destruct names as [|n names _] using rev_ind; [done|].
  unfold parent. rewrite fmap_app. simpl fmap. rewrite app_comm_cons, last_snoc, removelast_last.
  rewrite length_app in Hl. simpl in Hl.
  specialize (IH names). destruct (ancestors_fuel fuel _) as [|a l]; [|apply IH; lia].
  discriminate IH. lia.
Qed.

Lemma absolute_root c : abs_norm c -> absolute_root_path_for_cwd c = [RootDir].
Proof.
  intros [names ->]. unfold absolute_root_path_for_cwd, ancestors.
  rewrite ancestors_fuel_last by (simpl; rewrite length_fmap; lia).
  by rewrite from_absolute_path_id by apply abs_norm_root.
Qed.

Lemma resolved_push p path a cwd :
  resolved_entries_with_cwd (push_entry p (new_entry (PathEntry path) a)) cwd =
  resolved_entries_with_cwd p cwd ++ [mkResolved path a].
Proof. unfold resolved_entries_with_cwd. simpl. by rewrite omap_app. Qed.

Lemma elem_of_resolved p cwd r :
  r ∈ resolved_entries_with_cwd p cwd <->
  exists en, en ∈ entries p /\ resolve_entry_path (entry_path en) (from_absolute_path cwd) = Some (res_path r)
    /\ access en = res_access r.
Proof.
  unfold resolved_entries_with_cwd. rewrite list_elem_of_omap. unfold resolve_entry. split.
  - intros (e & He & Hr). exists e. split; [done|].
    destruct (resolve_entry_path _ _); simplify_eq/=. done.
  - intros (e & He & Hr & Ha). exists e. split; [done|]. rewrite Hr. destruct r. simpl in *. by subst.
Qed.

Lemma is_restricted_true p : is_restricted p = true <-> kind p = Restricted.
Proof. unfold is_restricted. by destruct (kind p). Qed.

Lemma unrestricted_can_write p path cwd :
  kind p <> Restricted -> can_write_path_with_cwd p path cwd = true.
Proof.
  intros Hk. unfold can_write_path_with_cwd, resolve_access_with_cwd, has_full_disk_write_access.
  by destruct (kind p).
Qed.

End facts.

(** ** Policies against a working directory *)

Section policy.
Context `{LawfulHost}.
Context (cwd c : Path) (Hcwd : from_absolute_path cwd = Some c).

Lemma cwd_abs_norm : abs_norm c.
Proof using All. by eapply from_absolute_path_abs_norm. Qed.

Lemma resolve_entry_path_abs_norm en q :
  wf_entry en -> resolve_entry_path (entry_path en) (Some c) = Some q -> abs_norm q.
Proof using All.
  pose proof cwd_abs_norm as Hc. unfold wf_entry.
  destruct (entry_path en) as [p|g|[| |[sub|]| | |]]; simpl; try done.
  - by intros Hp [= <-].
  - intros _ [= <-]. rewrite absolute_root by done. apply abs_norm_root.
  - intros _ [= <-]. by apply resolve_abs_norm, abs_norm_absolute.
  - by intros _ [= <-].
  - intros _. destruct tmpdir_var as [d|]; simpl; [|done]. case_match; [done|].
    apply from_absolute_path_abs_norm.
  - intros _. case_match; [|done]. intros [= <-]. by exists [s!"tmp"].
Qed.

Lemma resolved_abs_norm p :
  wf_policy p -> Forall (fun e => abs_norm (res_path e)) (resolved_entries_with_cwd p cwd).
Proof using All.
  unfold wf_policy. rewrite !Forall_forall. intros Hwf r (e & He & Hr & _)%elem_of_resolved.
  rewrite Hcwd in Hr. eauto using resolve_entry_path_abs_norm.
Qed.

Lemma candidate_Some q :
  exists t, resolve_candidate_path q cwd = Some t /\ abs_norm t.
Proof using All.
  unfold resolve_candidate_path. destruct (is_absolute q) eqn:E.
  - exists (normalize_path q). split; [by apply from_absolute_path_abs|by apply normalize_path_abs].
  - rewrite Hcwd. simpl. eexists. split; [done|]. apply abs_join_abs_norm, cwd_abs_norm.
Qed.

Lemma candidate_id q : abs_norm q -> resolve_candidate_path q cwd = Some q.
Proof using Hcwd.
  intros Hq. unfold resolve_candidate_path. rewrite abs_norm_absolute by done.
  by apply from_absolute_path_id.
Qed.

Lemma resolve_access_decided p q t :
  kind p = Restricted -> resolve_candidate_path q cwd = Some t ->
  resolve_access_with_cwd p q cwd = decided (resolved_entries_with_cwd p cwd) t.
Proof using Type. intros Hk Ht. unfold resolve_access_with_cwd. by rewrite Hk, Ht. Qed.

Lemma can_write_writable p q t :
  kind p = Restricted -> resolve_candidate_path q cwd = Some t ->
  can_write_path_with_cwd p q cwd =
  writable (has_full_disk_write_access p) (resolved_entries_with_cwd p cwd) t.
Proof using Type.
  intros Hk Ht. unfold can_write_path_with_cwd, writable, is_metadata_write_denied.
  rewrite (resolve_access_decided p q t), Ht, (proj2 (is_restricted_true p) Hk) by done.
  unfold metadata_child_of_writable_root, meta_denied, write_entries,
    has_explicit_write_entry_for_metadata_path, explicit.
  destruct (can_write _); [|done]. simpl. by destruct (has_full_disk_write_access p).
Qed.

(** ** Extending a policy *)

Lemma full_write_push p path :
  has_full_disk_write_access p = true ->
  has_full_disk_write_access (push_entry p (new_entry (PathEntry path) Write)) = true.
Proof using Type.
  unfold has_full_disk_write_access. simpl. destruct (kind p) eqn:Hk; try done.
  unfold has_root_access, has_write_narrowing_entries, is_restricted. simpl. rewrite Hk. simpl.
  rewrite !existsb_app. intros [-> Hn]%andb_true_iff. simpl. rewrite orb_false_r.
  apply negb_true_iff. apply negb_true_iff in Hn.
  apply existsb_false. intros e He. rewrite existsb_false in Hn. specialize (Hn e He).
  unfold narrows_write, has_same_target_write_override in *. simpl. rewrite existsb_app.
  destruct (can_write (access e)); [done|].
  destruct (existsb _ (entries p)); [done|]. by destruct (entry_path e) as [| |[]].
Qed.

(** An entry denies exactly this path. *)
Definition deny_at (p : FileSystemSandboxPolicy) (path : Path) : Prop :=
  mkResolved path Deny ∈ resolved_entries_with_cwd p cwd.

Lemma add_writable_root_mono p path q :
  wf_policy p -> abs_norm path ->
  can_write_path_with_cwd p q cwd = true ->
  can_write_path_with_cwd (add_writable_root cwd p path) q cwd = true.
Proof using All.
  intros Hwf Hpath Hq. unfold add_writable_root.
  destruct (can_write_path_with_cwd p path cwd) eqn:Hn; [done|].
  destruct (kind p) eqn:Hk; try (rewrite unrestricted_can_write in Hn by congruence; done).
  destruct (candidate_Some q) as (t & Ht & Htn).
  rewrite (can_write_writable p q t) in Hq by done.
  rewrite (can_write_writable p path path) in Hn by auto using candidate_id.
  rewrite (can_write_writable _ q t), resolved_push by done.
  destruct (has_full_disk_write_access p) eqn:Hf.
  - rewrite full_write_push by done. unfold writable in *. simpl in *.
    rewrite andb_true_r in *.
    by destruct (decided_snoc (resolved_entries_with_cwd p cwd) (mkResolved path Write) t)
      as [->|[-> _]].
  - pose proof (writable_snoc_write _ _ _ (resolved_abs_norm p Hwf) Hpath Htn Hn Hq) as Hw.
    unfold writable in *. simpl in Hw. apply andb_true_iff in Hw as [-> ->]. simpl.
    by rewrite orb_true_r.
Qed.

Lemma add_writable_root_grants p path :
  wf_policy p -> abs_norm path ->
  can_write_path_with_cwd (add_writable_root cwd p path) path cwd = true \/ deny_at p path.
Proof using All.
  intros Hwf Hpath. unfold add_writable_root.
  destruct (can_write_path_with_cwd p path cwd) eqn:Hn; [by left|].
  destruct (kind p) eqn:Hk; try (rewrite unrestricted_can_write in Hn by congruence; done).
  rewrite (can_write_writable _ path path), resolved_push by auto using candidate_id.
  set (R := resolved_entries_with_cwd p cwd).
  destruct (decided_snoc_self R Write path) as [Hd|([ep ea] & He & Hp & Hr)].
  - left. unfold writable. rewrite Hd. simpl. apply orb_true_iff. right.
    apply negb_true_iff. unfold meta_denied. destruct (head _) as [[m n]|] eqn:Eh; [|done].
    apply negb_false_iff, explicit_true.
    apply meta_first_Some in Eh as (w & Hw & _ & Hm).
    apply metadata_child_Some in Hm as (_ & _ & Hm); [|done|].
    + exists (mkResolved path Write). split; [set_solver|]. done.
    + pose proof (resolved_abs_norm p Hwf) as HR. rewrite Forall_forall in HR.
      apply elem_of_app in Hw as [Hw| ->%list_elem_of_singleton]; [by apply HR|done].
  - right. simpl in *. subst ep. by destruct ea; simpl in Hr; [lia..|].
Qed.

(** ** Full-disk summaries *)

Lemma root_resolves p a :
  (exists en, en ∈ entries p /\ entry_path en = Special Root /\ access en = a) ->
  mkResolved [RootDir] a ∈ resolved_entries_with_cwd p cwd.
Proof using All.
  intros (en & He & Hp & Ha). apply elem_of_resolved. exists en. split; [done|].
  rewrite Hp, Hcwd. simpl. by rewrite absolute_root by apply cwd_abs_norm.
Qed.

Lemma has_root_access_resolves f p :
  has_root_access f p = true ->
  exists a, f a = true /\ mkResolved [RootDir] a ∈ resolved_entries_with_cwd p cwd.
Proof using All.
  unfold has_root_access. intros [_ (en & He & Hf)%existsb_true]%andb_true_iff.
  destruct (entry_path en) as [| |[]] eqn:Ep; try done.
  exists (access en). split; [done|]. apply root_resolves. eauto.
Qed.

Lemma root_covers t : abs_norm t -> [RootDir] `prefix_of` t.
Proof using Type. intros [names ->]. by eexists. Qed.

Lemma no_deny_readable p t a :
  abs_norm t -> mkResolved [RootDir] a ∈ resolved_entries_with_cwd p cwd ->
  (forall r, r ∈ resolved_entries_with_cwd p cwd -> res_access r <> Deny) ->
  decided (resolved_entries_with_cwd p cwd) t <> Deny.
Proof using Type.
  intros Ht Hr Hn. destruct (decided_covered _ t _ Hr) as (e & (He & _) & <-);
    [by apply root_covers|auto].
Qed.

Lemma same_target_not_deny p en :
  access en = Deny -> has_same_target_write_override p en = false.
Proof using Type.
  intros Ha. apply existsb_false. intros x _. rewrite Ha. by destruct (access x).
Qed.

Lemma full_write_parts p :
  kind p = Restricted -> has_full_disk_write_access p = true ->
  has_root_access can_write p = true /\ forall en, en ∈ entries p -> narrows_write p en = false.
Proof using Type.
  intros Hk. unfold has_full_disk_write_access. rewrite Hk.
  intros [-> Hn%negb_true_iff]%andb_true_iff. split; [done|].
  unfold has_write_narrowing_entries in Hn. rewrite (proj2 (is_restricted_true p) Hk) in Hn.
  by apply existsb_false.
Qed.

Lemma full_write_no_deny p r :
  kind p = Restricted -> has_full_disk_write_access p = true ->
  r ∈ resolved_entries_with_cwd p cwd -> res_access r <> Deny.
Proof using Type.
  intros Hk [_ Hn]%full_write_parts (en & He & Hp & Ha)%elem_of_resolved Hd; [|done].
  rewrite Hd in Ha. specialize (Hn en He). unfold narrows_write, is_deny in Hn.
  rewrite (same_target_not_deny p en), Ha in Hn by done. simpl in Hn.
  by destruct (entry_path en) as [| |[]].
Qed.

(** Entries that share a target resolve alike, where [/tmp] is a directory. *)
Lemma share_target_resolves (a b : FileSystemPath) q :
  is_dir slash_tmp = true ->
  match a with PathEntry p => abs_norm p | _ => True end ->
  match b with PathEntry p => abs_norm p | _ => True end ->
  file_system_paths_share_target a b = true ->
  resolve_entry_path b (Some c) = Some q -> resolve_entry_path a (Some c) = Some q.
Proof using All.
  intros Htmp Ha Hb. pose proof cwd_abs_norm as Hc.
  assert (forall p, abs_norm p -> parent p = None -> p = [RootDir]) as Hroot.
  { intros p [names ->]. destruct names as [|n names _] using rev_ind; [done|].
    unfold parent. rewrite fmap_app. simpl fmap. by rewrite app_comm_cons, last_snoc. }
  destruct a as [p|g|[| |o| | |u o]], b as [p'|g'|[| |o'| | |u' o']]; simpl; try done.
  all: try (intros ->%bool_decide_eq_true; done).
  - destruct (parent p) eqn:E; [done|]. intros _ [= <-]. rewrite absolute_root by done.
    by rewrite (Hroot p).
  - intros ->%bool_decide_eq_true. by rewrite Htmp.
  - destruct (parent p') eqn:E; [done|]. intros _ [= <-]. rewrite absolute_root by done.
    by rewrite (Hroot p').
  - intros ->%bool_decide_eq_true. rewrite Htmp. done.
Qed.

Lemma full_write_decided p t :
  wf_policy p -> is_dir slash_tmp = true -> kind p = Restricted -> abs_norm t ->
  has_full_disk_write_access p = true ->
  decided (resolved_entries_with_cwd p cwd) t = Write.
Proof using All.
  intros Hwf Htmp Hk Ht Hf. destruct (full_write_parts p Hk Hf) as [Hroot Hn].
  destruct (has_root_access_resolves _ _ Hroot) as (a & Ha & Hr). destruct a; try done.
  destruct (decided_covered _ t _ Hr) as (r & (HrR & Hp & Hmax) & <-); [by apply root_covers|].
  destruct (res_access r) eqn:Er; [|done|by destruct (full_write_no_deny p r Hk Hf HrR)].
  exfalso. apply elem_of_resolved in HrR as (en & He & Hen & Hacc).
  assert (forall q, q ∈ resolved_entries_with_cwd p cwd -> res_path q = res_path r ->
    res_access q = Write -> False) as Hno.
  { intros q Hq Hqp Hqa. rewrite <- Hqp in Hp. destruct (Hmax q Hq Hp) as [?|[_ Hrk]].
    - rewrite Hqp in *. lia.
    - rewrite Hqa in Hrk. simpl in Hrk. lia. }
  assert (entry_path en = Special Root -> False) as Hnr.
  { intros E. rewrite E, Hcwd in Hen. simpl in Hen. rewrite absolute_root in Hen by apply cwd_abs_norm.
    injection Hen as Hen. apply (Hno _ Hr); done. }
  assert (has_same_target_write_override p en = true -> False) as Hov.
  { intros (w & Hw & [[Hww _]%andb_true_iff Hs]%andb_true_iff)%existsb_true.
    unfold wf_policy in Hwf. rewrite Forall_forall in Hwf.
    apply (Hno (mkResolved (res_path r) Write)); [|done..].
    apply elem_of_resolved. exists w. split; [done|]. rewrite Hcwd in *. split.
    - eapply share_target_resolves; [done|by apply Hwf|by apply (Hwf en)|done..].
    - by destruct (access w). }
  specialize (Hn en He). unfold narrows_write in Hn. rewrite Hacc, Er in Hn. simpl in Hn.
  destruct (entry_path en) as [| |[]]; try done; by apply Hov, negb_false_iff.
Qed.

(** ** Adding readable roots *)

Lemma add_readable_root_access p path q :
  wf_policy p -> abs_norm path ->
  can_read_path_with_cwd p q cwd = true ->
  resolve_access_with_cwd (add_readable_root cwd p path) q cwd = resolve_access_with_cwd p q cwd.
Proof using All.
  intros Hwf Hpath Hq. unfold add_readable_root.
  destruct (can_read_path_with_cwd p path cwd) eqn:Hn; [done|].
  unfold can_read_path_with_cwd in *.
  destruct (kind p) eqn:Hk; try (unfold resolve_access_with_cwd in Hn; by rewrite Hk in Hn).
  destruct (candidate_Some q) as (t & Ht & Htn).
  rewrite (resolve_access_decided p q t) in Hq |- * by done.
  rewrite (resolve_access_decided p path path) in Hn by auto using candidate_id.
  rewrite (resolve_access_decided _ q t), resolved_push by done.
  apply decided_snoc_read; [by destruct (decided _ path)|by destruct (decided _ t)].
Qed.

Lemma add_readable_root_write p path q :
  wf_policy p -> abs_norm path -> can_write_path_with_cwd p q cwd = true ->
  can_write_path_with_cwd (add_readable_root cwd p path) q cwd = true.
Proof using All.
  intros Hwf Hpath Hq. unfold add_readable_root.
  destruct (can_read_path_with_cwd p path cwd) eqn:Hn; [done|].
  unfold can_read_path_with_cwd in *.
  destruct (kind p) eqn:Hk; try (unfold resolve_access_with_cwd in Hn; by rewrite Hk in Hn).
  destruct (candidate_Some q) as (t & Ht & Htn).
  rewrite (can_write_writable p q t) in Hq by done.
  rewrite (resolve_access_decided p path path) in Hn by auto using candidate_id.
  rewrite (can_write_writable _ q t), resolved_push by done.
  assert (decided (resolved_entries_with_cwd p cwd) path = Deny) as Hd
    by (by destruct (decided _ path)).
  destruct (has_full_disk_write_access p) eqn:Hf.
  - exfalso. destruct (full_write_parts p Hk Hf) as [Hroot _].
    destruct (has_root_access_resolves _ _ Hroot) as (a & _ & Hr).
    eapply no_deny_readable; [exact Hpath|done| |done].
    intros r Hr'. by eapply full_write_no_deny.
  - apply (writable_snoc_read _ _ path) in Hq; [|done]. unfold writable in *. simpl in Hq.
    apply andb_true_iff in Hq as [-> ->]. simpl. apply orb_true_r.
Qed.

Lemma add_readable_root_grants p path :
  abs_norm path ->
  can_read_path_with_cwd (add_readable_root cwd p path) path cwd = true \/ deny_at p path.
Proof using All.
  intros Hpath. unfold add_readable_root.
  destruct (can_read_path_with_cwd p path cwd) eqn:Hn; [by left|].
  unfold can_read_path_with_cwd in *.
  destruct (kind p) eqn:Hk; try (unfold resolve_access_with_cwd in Hn; by rewrite Hk in Hn).
  rewrite (resolve_access_decided _ path path), resolved_push by auto using candidate_id.
  destruct (decided (resolved_entries_with_cwd p cwd ++ [mkResolved path Read]) path) eqn:Hd;
    [by left..|right].
  destruct (decided_snoc_self (resolved_entries_with_cwd p cwd) Read path) as [?|_]; [congruence|].
  destruct (proj1 (decided_spec _ _ _) Hd) as [[_ Hno]|([ep ea] & (He & Hp & Hmax) & Ha)].
  { exfalso. eapply (Hno (mkResolved path Read)); [set_solver|done]. }
  simpl in *. subst ea. apply elem_of_app in He as [He|He%list_elem_of_singleton]; [|done].
  destruct (Hmax (mkResolved path Read)) as [Hl|[Hpe _]]; [set_solver|done| |]; simpl in *.
  - apply prefix_length in Hp. lia.
  - by subst ep.
Qed.

(** *** Folds over the roots *)

Section roots.
Context (step : FileSystemSandboxPolicy -> Path -> FileSystemSandboxPolicy).
Context (P : FileSystemSandboxPolicy -> Prop) (Q : Path -> Prop).
Hypothesis step_P : forall p path, P p -> Q path -> P (step p path).

Lemma fold_roots_P roots p : P p -> Forall Q roots -> P (fold_left step roots p).
Proof using step_P.
  intros Hp Hr. revert p Hp. induction Hr as [|r roots Hr _ IH]; intros p Hp; simpl; auto.
Qed.

(** What a step keeps, the fold keeps; what the step of a root grants, the
    fold grants. *)
Lemma fold_roots_mono (g : FileSystemSandboxPolicy -> Prop) roots p :
  (forall p path, P p -> Q path -> g p -> g (step p path)) ->
  P p -> Forall Q roots -> g p -> g (fold_left step roots p).
Proof using step_P.
  intros Hg Hp Hr. revert p Hp. induction Hr as [|r roots Hr _ IH]; intros p Hp Hgp; simpl; auto.
Qed.

Lemma fold_roots_grants (g : FileSystemSandboxPolicy -> Path -> Prop) roots p path :
  (forall p path q, P p -> Q path -> g p q -> g (step p path) q) ->
  (forall p path, P p -> Q path -> g (step p path) path) ->
  P p -> Forall Q roots -> path ∈ roots -> g (fold_left step roots p) path.
Proof using step_P.
  intros Hm Hg Hp Hr Hin. revert p Hp. induction Hr as [|r roots Hr Hrs IH]; intros p Hp; simpl.
  { by apply not_elem_of_nil in Hin. }
  apply elem_of_cons in Hin as [->|Hin]; [|by apply IH; auto].
  apply (fold_roots_mono (fun p => g p r)); auto.
Qed.

End roots.

End policy.
