(* ===== verification/PermissionsLaws.v ===== *)
(** * What a file system policy promises

    The properties of [Permissions] that callers rely on, proved from the lemmas
    of [PermissionsFacts], with their witnesses on a small concrete host. *)

From S2P Require Import Prelude RustStr Paths Permissions PermissionsFacts.

(** A host with a working directory, a home, [/tmp] and one repository. *)
Definition demo_host : Host := {|
  current_dir := Some (p!"/work");
  home_dir := Some (p!"/home/u");
  tmpdir_var := Some (p!"/scratch");
  is_dir p := bool_decide (p ∈ [p!"/tmp"; p!"/work"; p!"/work/.git"]);
  is_file _ := false;
  exists_path p := bool_decide (p ∈ [p!"/tmp"; p!"/work"; p!"/work/.git"]);
  read_to_string _ := None;
  symlink_metadata _ := None;
  fs_canonicalize _ := None
|}.

#[global] Instance demo_lawful : LawfulHost demo_host.
Proof. constructor. by intros d [= <-]. Qed.

(** ** Specificity *)

(** C20: The access a restricted policy gives to a path is the one of the most
    specific entry that covers it, where among entries for the same path [Deny]
    beats [Write] and [Write] beats [Read]; a path that no entry covers is
    denied. *)
Theorem access_by_most_specific_entry `{Host} p q cwd t a :
  kind p = Restricted -> resolve_candidate_path q cwd = Some t ->
  resolve_access_with_cwd p q cwd = a <->
  (a = Deny /\ forall e, e ∈ resolved_entries_with_cwd p cwd -> ~ res_path e `prefix_of` t) \/
  (exists e, e ∈ resolved_entries_with_cwd p cwd /\ res_path e `prefix_of` t /\ res_access e = a /\
     forall e', e' ∈ resolved_entries_with_cwd p cwd -> res_path e' `prefix_of` t ->
       length (res_path e') < length (res_path e) \/
       (res_path e' = res_path e /\ access_rank (res_access e') <= access_rank (res_access e))).
Proof.
  intros Hk Ht. rewrite (resolve_access_decided cwd p q t) by done.
  rewrite decided_spec. unfold most_specific. naive_solver.
Qed.

Lemma access_by_most_specific_entry_witness :
  @resolve_access_with_cwd demo_host
    (restricted [new_entry (Special Root) Write; new_entry (PathEntry (p!"/work")) Deny;
                 new_entry (PathEntry (p!"/work")) Write]) (p!"src/a") (p!"/work") = Deny.
Proof.
  apply (@access_by_most_specific_entry demo_host _ _ _ (p!"/work/src/a")); [reflexivity..|].
  right. exists (mkResolved (p!"/work") Deny).
  split; [by vm_compute; set_solver|]. split; [by exists (p!"src/a")|]. split; [done|].
  vm_compute resolved_entries_with_cwd.
  intros e' He' _. rewrite !elem_of_cons in He'. destruct He' as [->|[->|[->|He']]]; vm_compute; auto with lia.
  by apply not_elem_of_nil in He'.
Defined.

(** ** Lists of entries *)

Lemma push_if_absent_elem es en x : x ∈ push_if_absent es en <-> x ∈ es \/ x = en.
Proof.
  unfold push_if_absent. destruct (existsb _ es) eqn:E; [|set_solver].
  apply existsb_true in E as (y & Hy & ->%bool_decide_eq_true). naive_solver.
Qed.

Lemma push_all_elem l es x : x ∈ fold_left push_if_absent l es <-> x ∈ es \/ x ∈ l.
Proof.
  revert es. induction l as [|y l IH]; intros es; simpl; [set_solver|].
  rewrite IH, push_if_absent_elem. set_solver.
Qed.

Lemma push_all_absorb l es : (forall x, x ∈ l -> x ∈ es) -> fold_left push_if_absent l es = es.
Proof.
  induction l as [|y l IH]; intros Hl; simpl; [done|].
  assert (push_if_absent es y = es) as ->; [|apply IH; set_solver].
  unfold push_if_absent. rewrite (proj2 (existsb_true _ es)); [done|].
  exists y. rewrite bool_decide_eq_true. split; [apply Hl; by left|done].
Qed.

Lemma elem_of_deny_entries p en :
  en ∈ List.filter is_deny (entries p) <-> en ∈ entries p /\ access en = Deny.
Proof.
  rewrite list_elem_of_In, filter_In, <- list_elem_of_In. unfold is_deny.
  by rewrite bool_decide_eq_true.
Qed.

Lemma preserve_entries p existing en :
  kind p <> ExternalSandboxKind ->
  en ∈ entries (preserve_deny_read_restrictions_from p existing) ->
  en ∈ entries p \/ (kind p = Unrestricted /\ en = new_entry (Special Root) Write) \/
  (en ∈ entries existing /\ access en = Deny).
Proof.
  intros Hk. unfold preserve_deny_read_restrictions_from, push_deny_entries.
  destruct (kind p) eqn:E; [| |done].
  - rewrite (proj2 (is_restricted_true p) E). simpl.
    rewrite push_all_elem, elem_of_deny_entries. naive_solver.
  - destruct (existsb is_deny (entries existing)); simpl.
    + rewrite push_all_elem, elem_of_deny_entries, list_elem_of_singleton. naive_solver.
    + unfold is_restricted. rewrite E. auto.
Qed.

Lemma preserve_keeps_deny p existing en :
  kind p <> ExternalSandboxKind -> en ∈ entries existing -> access en = Deny ->
  kind (preserve_deny_read_restrictions_from p existing) = Restricted /\
  en ∈ entries (preserve_deny_read_restrictions_from p existing).
Proof.
  intros Hk He Ha. unfold preserve_deny_read_restrictions_from, push_deny_entries.
  assert (existsb is_deny (entries existing) = true) as ->.
  { apply existsb_true. exists en. unfold is_deny. by rewrite bool_decide_eq_true. }
  destruct (kind p) eqn:E; [| |done].
  - rewrite (proj2 (is_restricted_true p) E). simpl.
    rewrite push_all_elem, elem_of_deny_entries. auto.
  - simpl. rewrite push_all_elem, elem_of_deny_entries. auto.
Qed.

Lemma preserve_idemp p existing :
  preserve_deny_read_restrictions_from (preserve_deny_read_restrictions_from p existing) existing =
  preserve_deny_read_restrictions_from p existing.
Proof.
  assert (forall es, push_deny_entries existing (push_deny_entries existing es) =
    push_deny_entries existing es) as Hpush.
  { intros es. apply push_all_absorb. intros x Hx. apply push_all_elem. by right. }
  destruct p as [[] d es]; unfold preserve_deny_read_restrictions_from; simpl; [| |done].
  - rewrite Hpush. by destruct d, (glob_scan_max_depth existing).
  - destruct (existsb is_deny (entries existing)) eqn:E; simpl; [|done].
    rewrite Hpush. by destruct (glob_scan_max_depth existing).
Qed.

(** [es'] is [es] followed by read-only entries. *)
Definition appends_read_only (es es' : list FileSystemSandboxEntry) : Prop :=
  exists ex, es' = es ++ ex /\ Forall (fun en => access en = Read) ex.

#[global] Instance appends_read_only_preorder : PreOrder appends_read_only.
Proof.
  split.
  - intros es. exists []. by rewrite app_nil_r.
  - intros a b d (x & -> & Hx) (y & -> & Hy). exists (x ++ y).
    rewrite <- app_assoc. split; [done|]. by apply Forall_app.
Qed.

Lemma append_default_read_only es path :
  appends_read_only es (append_default_read_only_entry_if_no_explicit_rule es path).
Proof.
  unfold append_default_read_only_entry_if_no_explicit_rule. case_match; [done|].
  eexists. split; [done|]. by repeat constructor.
Qed.

Lemma fold_appends_read_only {A} (f : list FileSystemSandboxEntry -> A -> list FileSystemSandboxEntry)
    l es :
  (forall es x, appends_read_only es (f es x)) -> appends_read_only es (fold_left f l es).
Proof.
  intros Hf. revert es. induction l as [|x l IH]; intros es; simpl; [done|].
  trans (f es x); auto.
Qed.

Lemma dedup_from_elem seen l x : x ∈ dedup_from seen l -> x ∈ l.
Proof.
  revert seen. induction l as [|y l IH]; intros seen; simpl; [done|].
  case_bool_decide; rewrite ?elem_of_cons; naive_solver.
Qed.

Section laws.
Context `{LawfulHost}.

(** ** Full-disk access *)

Lemma full_read_readable p cwd c q :
  from_absolute_path cwd = Some c ->
  has_full_disk_read_access p = true -> can_read_path_with_cwd p q cwd = true.
Proof.
  intros Hcwd Hf. destruct (candidate_Some cwd c Hcwd q) as (t & Ht & Htn).
  unfold can_read_path_with_cwd. destruct (kind p) eqn:Hk;
    try (unfold resolve_access_with_cwd; by rewrite Hk).
  rewrite (resolve_access_decided cwd p q t) by done.
  unfold has_full_disk_read_access in Hf. rewrite Hk in Hf.
  apply andb_true_iff in Hf as [Hroot Hd%negb_true_iff].
  destruct (has_root_access_resolves cwd c Hcwd _ _ Hroot) as (a & _ & Hr).
  unfold has_denied_read_restrictions in Hd. rewrite (proj2 (is_restricted_true p) Hk) in Hd.
  enough (decided (resolved_entries_with_cwd p cwd) t <> Deny) by (by destruct (decided _ t)).
  eapply no_deny_readable; [done..|]. intros r (en & He & _ & <-)%elem_of_resolved Hden.
  simpl in Hd. rewrite existsb_false in Hd. specialize (Hd en He). unfold is_deny in Hd.
  by rewrite bool_decide_eq_false in Hd.
Qed.

Lemma full_write_writable p cwd c q :
  from_absolute_path cwd = Some c -> wf_policy p -> is_dir slash_tmp = true ->
  has_full_disk_write_access p = true -> can_write_path_with_cwd p q cwd = true.
Proof.
  intros Hcwd Hwf Htmp Hf. destruct (kind p) eqn:Hk; try (apply unrestricted_can_write; congruence).
  destruct (candidate_Some cwd c Hcwd q) as (t & Ht & Htn).
  rewrite (can_write_writable cwd p q t), Hf by done. unfold writable.
  by rewrite (full_write_decided cwd c Hcwd p t).
Qed.

(** A policy reported as having full-disk read access lets every path be
    read, and one reported as having full-disk write access lets every path be
    written (where [/tmp] is a directory, so that its symbolic name means
    something). *)
Theorem full_disk_access_sound p cwd c :
  from_absolute_path cwd = Some c -> wf_policy p ->
  (has_full_disk_read_access p = true -> forall q, can_read_path_with_cwd p q cwd = true) /\
  (is_dir slash_tmp = true -> has_full_disk_write_access p = true ->
   forall q, can_write_path_with_cwd p q cwd = true).
Proof.
  intros Hcwd Hwf. eauto using full_read_readable, full_write_writable.
Qed.

(** ** Adding roots *)

Lemma add_root_wf cwd p path :
  wf_policy p -> abs_norm path ->
  wf_policy (add_readable_root cwd p path) /\ wf_policy (add_writable_root cwd p path).
Proof.
  intros Hp Hr. unfold add_readable_root, add_writable_root.
  split; case_match; auto; by apply wf_push.
Qed.

Lemma deny_at_add cwd p path q :
  deny_at cwd (add_readable_root cwd p path) q \/ deny_at cwd (add_writable_root cwd p path) q ->
  deny_at cwd p q.
Proof.
  unfold deny_at, add_readable_root, add_writable_root.
  intros [Hd|Hd]; case_match; try done; rewrite resolved_push in Hd;
    by apply elem_of_app in Hd as [?|?%list_elem_of_singleton].
Qed.

(** Well-formed, and denying no path that [p0] does not deny. *)
Definition extends_from (cwd : Path) (p0 p : FileSystemSandboxPolicy) : Prop :=
  wf_policy p /\ forall q, deny_at cwd p q -> deny_at cwd p0 q.

(** Adding readable roots changes no access that was granted and takes no
    write permission away, and afterwards every root can be read unless an entry
    denies exactly that path. *)
Theorem additional_readable_roots_monotone p cwd c roots :
  from_absolute_path cwd = Some c -> wf_policy p -> Forall abs_norm roots ->
  (forall q, can_read_path_with_cwd p q cwd = true ->
     resolve_access_with_cwd (with_additional_readable_roots p cwd roots) q cwd =
     resolve_access_with_cwd p q cwd) /\
  (forall q, can_write_path_with_cwd p q cwd = true ->
     can_write_path_with_cwd (with_additional_readable_roots p cwd roots) q cwd = true) /\
  (forall r, r ∈ roots ->
     can_read_path_with_cwd (with_additional_readable_roots p cwd roots) r cwd = true \/
     deny_at cwd p r).
Proof.
  intros Hcwd Hwf Hroots. unfold with_additional_readable_roots.
  destruct (has_full_disk_read_access p) eqn:Hf.
  { split; [done|]. split; [done|]. intros r _. left.
    by apply (full_read_readable p cwd c). }
  assert (forall p' path, extends_from cwd p p' -> abs_norm path ->
    extends_from cwd p (add_readable_root cwd p' path)) as Hstep.
  { intros p' path [Hp' Hd'] Hpath. split; [by apply add_root_wf|].
    intros q Hq. apply Hd'. eapply deny_at_add. by left. }
  assert (extends_from cwd p p) as Hp by done.
  split; [|split].
  - intros q Hq. apply (fold_roots_mono _ (extends_from cwd p) abs_norm Hstep
      (fun p' => resolve_access_with_cwd p' q cwd = resolve_access_with_cwd p q cwd)); auto.
    intros p' path [Hp' _] Hpath Heq. rewrite <- Heq. eapply add_readable_root_access; [done..|].
    unfold can_read_path_with_cwd. by rewrite Heq.
  - intros q Hq. apply (fold_roots_mono _ (extends_from cwd p) abs_norm Hstep
      (fun p' => can_write_path_with_cwd p' q cwd = true)); auto.
    intros p' path [Hp' _] Hpath Heq. by eapply add_readable_root_write.
  - intros r Hr. apply (fold_roots_grants _ (extends_from cwd p) abs_norm Hstep
      (fun p' q => can_read_path_with_cwd p' q cwd = true \/ deny_at cwd p q)); auto.
    + intros p' path q [Hp' _] Hpath [Hq|?]; [left|by right].
      unfold can_read_path_with_cwd. by rewrite (add_readable_root_access cwd c).
    + intros p' path [Hp' Hd] Hpath.
      destruct (add_readable_root_grants cwd c Hcwd p' path Hpath); auto.
Qed.

(** Adding writable roots takes no write permission away, and afterwards
    every root can be written unless an entry denies exactly that path. *)
Theorem additional_writable_roots_monotone p cwd c roots :
  from_absolute_path cwd = Some c -> wf_policy p -> Forall abs_norm roots ->
  (forall q, can_write_path_with_cwd p q cwd = true ->
     can_write_path_with_cwd (with_additional_writable_roots p cwd roots) q cwd = true) /\
  (forall r, r ∈ roots ->
     can_write_path_with_cwd (with_additional_writable_roots p cwd roots) r cwd = true \/
     deny_at cwd p r).
Proof.
  intros Hcwd Hwf Hroots. unfold with_additional_writable_roots.
  assert (forall p' path, extends_from cwd p p' -> abs_norm path ->
    extends_from cwd p (add_writable_root cwd p' path)) as Hstep.
  { intros p' path [Hp' Hd'] Hpath. split; [by apply add_root_wf|].
    intros q Hq. apply Hd'. eapply deny_at_add. by right. }
  assert (extends_from cwd p p) as Hp by done.
  split.
  - intros q Hq. apply (fold_roots_mono _ (extends_from cwd p) abs_norm Hstep
      (fun p' => can_write_path_with_cwd p' q cwd = true)); auto.
    intros p' path [Hp' _] Hpath Heq. by eapply add_writable_root_mono.
  - intros r Hr. apply (fold_roots_grants _ (extends_from cwd p) abs_norm Hstep
      (fun p' q => can_write_path_with_cwd p' q cwd = true \/ deny_at cwd p q)); auto.
    + intros p' path q [Hp' _] Hpath [Hq|?]; [left|by right]. by eapply add_writable_root_mono.
    + intros p' path [Hp' Hd] Hpath.
      destruct (add_writable_root_grants cwd c Hcwd p' path Hp' Hpath); auto.
Qed.

(** ** Read-deny rules survive *)

(** Carrying read-deny rules over to another policy keeps every deny entry
    (unless an external sandbox is in charge), adds no permission the policy did
    not have, and a path below a carried deny can be read only through an entry
    more specific than the deny; doing it twice is doing it once. *)
Theorem deny_rules_preserved p existing cwd :
  kind p <> ExternalSandboxKind ->
  let p' := preserve_deny_read_restrictions_from p existing in
  (forall en, en ∈ entries existing -> access en = Deny -> en ∈ entries p') /\
  (forall en, en ∈ entries p' -> access en <> Deny ->
     en ∈ entries p \/ (kind p = Unrestricted /\ en = new_entry (Special Root) Write)) /\
  (forall en d q t, en ∈ entries existing -> access en = Deny ->
     resolve_entry_path (entry_path en) (from_absolute_path cwd) = Some d ->
     resolve_candidate_path q cwd = Some t -> d `prefix_of` t ->
     can_read_path_with_cwd p' q cwd = true ->
     exists r, r ∈ resolved_entries_with_cwd p' cwd /\ res_access r <> Deny /\
       d `prefix_of` res_path r /\ d <> res_path r /\ res_path r `prefix_of` t) /\
  preserve_deny_read_restrictions_from p' existing = p'.
Proof.
  intros Hk p'. split; [|split; [|split]].
  - intros en He Ha. by apply preserve_keeps_deny.
  - intros en He Ha. destruct (preserve_entries p existing en Hk He) as [?|[?|[_ ?]]]; auto. done.
  - intros en d q t He Ha Hd Ht Hp Hr.
    destruct (preserve_keeps_deny p existing en Hk He Ha) as [Hk' He'].
    assert (mkResolved d Deny ∈ resolved_entries_with_cwd p' cwd) as HdR
      by (apply elem_of_resolved; eauto).
    unfold can_read_path_with_cwd in Hr. rewrite (resolve_access_decided cwd p' q t) in Hr by done.
    destruct (decided_covered _ t _ HdR) as (r & (HrR & Hrp & Hmax) & Hra); [done|].
    exists r. split; [done|].
    assert (res_access r <> Deny) as Hnd by (intros E; rewrite <- Hra, E in Hr; done).
    split; [done|]. destruct (Hmax _ HdR Hp) as [Hl|[Hpe Hrk]]; simpl in *.
    + split; [by eapply prefix_length_le; [..|apply Nat.lt_le_incl]|]. split; [|done].
      intros ->. lia.
    + by destruct (res_access r); simpl in Hrk; try lia.
  - apply preserve_idemp.
Qed.

(** ** The default workspace policy *)

Lemma protect_roots_read_only b l es : appends_read_only es (fold_left (protect_root b) l es).
Proof.
  apply fold_appends_read_only. intros es' root. unfold protect_root.
  apply fold_appends_read_only. intros. apply append_default_read_only.
Qed.

Lemma workspace_write_entries roots xt xs :
  exists ex, entries (workspace_write roots xt xs) = workspace_base_entries roots xt xs ++ ex /\
    Forall (fun en => access en = Read) ex.
Proof.
  change (appends_read_only (workspace_base_entries roots xt xs)
    (entries (workspace_write roots xt xs))). unfold workspace_write. simpl.
  etrans; [|apply protect_roots_read_only].
  do 3 (etrans; [|apply append_default_read_only]). done.
Qed.

(** The directories a workspace policy makes writable. *)
Definition workspace_roots (c : Path) (roots : list Path) (xt xs : bool) : list Path :=
  c :: (if xs then [] else if is_dir slash_tmp then [slash_tmp] else [])
  ++ (if xt then []
      else match resolve_file_system_special_path Tmpdir None with Some d => [d] | None => [] end)
  ++ roots.

Lemma workspace_base_resolved roots xt xs c :
  omap (resolve_entry (Some c)) (workspace_base_entries roots xt xs) =
  mkResolved (absolute_root_path_for_cwd c) Read
  :: ((fun r => mkResolved r Write) <$> workspace_roots c roots xt xs).
Proof.
  assert (omap (resolve_entry (Some c)) (write_entry <$> roots) = (fun r => mkResolved r Write) <$> roots)
    as Hroots by (clear; induction roots as [|r roots IH]; [done|]; csimpl; by rewrite IH).
  unfold workspace_base_entries, workspace_roots.
  rewrite !omap_app, Hroots, fmap_cons, !fmap_app. simpl. do 2 f_equal.
  destruct xs, xt; csimpl; try done; unfold resolve_entry; simpl;
    destruct (is_dir slash_tmp); simpl; try done.
  all: destruct tmpdir_var as [d|]; simpl; try done.
  all: destruct (is_empty d); simpl; try done; by destruct (from_absolute_path d).
Qed.

Lemma workspace_write_roots roots xt xs cwd c e :
  from_absolute_path cwd = Some c -> res_access e = Write ->
  e ∈ resolved_entries_with_cwd (workspace_write roots xt xs) cwd <->
  res_path e ∈ workspace_roots c roots xt xs.
Proof.
  intros Hcwd Ha. destruct (workspace_write_entries roots xt xs) as (ex & Hes & Hex).
  unfold resolved_entries_with_cwd.
  rewrite Hes, omap_app, elem_of_app, Hcwd, workspace_base_resolved, elem_of_cons, list_elem_of_fmap.
  split.
  - intros [[->|(r & -> & Hr)]|(en & He & Hr)%list_elem_of_omap]; [done|done|exfalso].
    rewrite Forall_forall in Hex. unfold resolve_entry in Hr.
    destruct (resolve_entry_path _ _); simplify_eq/=. by rewrite (Hex en He) in Ha.
  - intros Hin. left. right. exists (res_path e). destruct e. simpl in *. by subst.
Qed.

Lemma workspace_write_not_full roots xt xs :
  has_full_disk_write_access (workspace_write roots xt xs) = false.
Proof.
  destruct (workspace_write_entries roots xt xs) as (ex & Hes & Hex).
  unfold has_full_disk_write_access. simpl. apply andb_false_iff. left.
  unfold has_root_access. rewrite Hes. simpl. apply existsb_false.
  intros en He. destruct (entry_path en) as [| |[]] eqn:Ep; try done.
  apply elem_of_app in He as [He|He].
  - unfold workspace_base_entries in He. destruct xt, xs; set_unfold; naive_solver.
  - rewrite Forall_forall in Hex. by rewrite (Hex en He).
Qed.

(** *** Every operation keeps path entries absolute and normalised *)

Lemma wf_append_path es path :
  Forall wf_entry es -> abs_norm path ->
  Forall wf_entry (append_default_read_only_path_if_no_explicit_rule es path).
Proof.
  intros Hes Hp. unfold append_default_read_only_path_if_no_explicit_rule,
    append_default_read_only_entry_if_no_explicit_rule.
  case_match; [done|]. apply Forall_app. split; [done|]. by repeat constructor.
Qed.

Lemma resolve_gitdir_abs_norm dot_git d :
  abs_norm dot_git -> resolve_gitdir_from_file dot_git = Some d -> abs_norm d.
Proof.
  intros Hg. unfold resolve_gitdir_from_file.
  destruct (read_to_string dot_git); simpl; [|done].
  destruct (split_once _ _) as [[pre raw]|]; simpl; [|done]. repeat case_match; try done.
  destruct (parent dot_git) as [base|] eqn:Eb; simpl; [|done]. case_match; [|done].
  intros [= <-]. apply resolve_abs_norm. eauto using abs_norm_absolute, abs_norm_parent.
Qed.

Lemma default_subpaths_abs_norm root b :
  abs_norm root -> Forall abs_norm (default_read_only_subpaths_for_writable_root root b).
Proof.
  intros Hr. rewrite Forall_forall. intros x Hx%dedup_from_elem. simpl in Hx.
  rewrite !elem_of_app in Hx.
  assert (forall n, abs_norm (abs_join root [Normal n])) as Hj by (intros; by apply abs_join_abs_norm).
  destruct Hx as [Hx|[Hx|Hx]].
  - destruct (is_dir _ || is_file _); [|set_solver]. apply elem_of_app in Hx as [Hx|Hx].
    + destruct (is_file _ && _); [|set_solver].
      destruct (resolve_gitdir_from_file _) eqn:Eg; [|set_solver].
      apply list_elem_of_singleton in Hx as ->. eapply resolve_gitdir_abs_norm; [|done]. auto.
    + apply list_elem_of_singleton in Hx as ->. auto.
  - destruct (is_dir _); [|set_solver]. apply list_elem_of_singleton in Hx as ->. auto.
  - destruct (_ || _); [|set_solver]. apply list_elem_of_singleton in Hx as ->. auto.
Qed.

Lemma fold_wf {A} (f : list FileSystemSandboxEntry -> A -> list FileSystemSandboxEntry) (Q : A -> Prop)
    l es :
  (forall es x, Q x -> Forall wf_entry es -> Forall wf_entry (f es x)) ->
  Forall Q l -> Forall wf_entry es -> Forall wf_entry (fold_left f l es).
Proof.
  intros Hf Hl. revert es. induction Hl as [|x l Hx _ IH]; intros es Hes; simpl; auto.
Qed.

Lemma protect_root_wf b es root :
  abs_norm root -> Forall wf_entry es -> Forall wf_entry (protect_root b es root).
Proof.
  intros Hr. apply (fold_wf _ abs_norm); [|by apply default_subpaths_abs_norm].
  intros es' x Hx Hes'. by apply wf_append_path.
Qed.

Lemma workspace_write_wf roots xt xs :
  Forall abs_norm roots -> wf_policy (workspace_write roots xt xs).
Proof.
  intros Hr. unfold wf_policy, workspace_write. simpl.
  apply (fold_wf _ abs_norm); [intros; by apply protect_root_wf|done|].
  unfold append_default_read_only_project_root_subpath_if_no_explicit_rule,
    append_default_read_only_entry_if_no_explicit_rule.
  assert (Forall wf_entry (workspace_base_entries roots xt xs)) as Hb.
  { unfold workspace_base_entries. repeat (apply Forall_app; split).
    - by repeat constructor.
    - destruct xs; by repeat constructor.
    - destruct xt; by repeat constructor.
    - apply Forall_fmap. eapply Forall_impl; [done|]. done. }
  repeat case_match; rewrite ?Forall_app; repeat split; try done; by repeat constructor.
Qed.

Lemma push_all_wf l es : Forall wf_entry l -> Forall wf_entry es ->
  Forall wf_entry (fold_left push_if_absent l es).
Proof.
  intros Hl. apply (fold_wf _ wf_entry); [|done]. intros es' x Hx Hes'.
  unfold push_if_absent. case_match; [done|]. apply Forall_app. auto.
Qed.

Lemma preserve_wf p existing :
  wf_policy p -> wf_policy existing -> wf_policy (preserve_deny_read_restrictions_from p existing).
Proof.
  intros Hp He. unfold wf_policy in *. rewrite Forall_forall in *. intros en Hen.
  destruct (decide (kind p = ExternalSandboxKind)) as [Hk|Hk].
  - unfold preserve_deny_read_restrictions_from, is_restricted in Hen. rewrite Hk in Hen.
    rewrite Hk in Hen. auto.
  - destruct (preserve_entries p existing en Hk Hen) as [?|[[_ ->]|[? _]]]; auto. done.
Qed.

Lemma materialize_cwd_wf p cwd c :
  from_absolute_path cwd = Some c -> wf_policy p ->
  wf_policy (materialize_project_roots_with_cwd p cwd).
Proof.
  intros Hcwd Hp. apply Forall_fmap. eapply Forall_impl; [done|]. simpl. intros en Hen.
  rewrite Hcwd. assert (abs_norm c) as Hc by by eapply from_absolute_path_abs_norm.
  unfold materialize_entry_with_cwd, wf_entry in *.
  destruct (entry_path en) as [q|g|[| |[sub|]| | |]] eqn:Ep; simpl; rewrite ?Ep; try done.
  - destruct (parse_project_roots_glob_pattern g); simpl; by rewrite ?Ep.
  - by apply resolve_abs_norm, abs_norm_absolute.
Qed.

Lemma materialize_roots_wf p roots :
  wf_policy p -> Forall abs_norm roots ->
  wf_policy (materialize_project_roots_with_workspace_roots p roots).
Proof.
  unfold wf_policy. intros Hp Hr. simpl. rewrite Forall_forall in Hp |- *.
  intros en (src & Hin & Hs)%list_elem_of_bind. specialize (Hp src Hs).
  unfold materialize_entry_with_workspace_roots, wf_entry in *.
  destruct (entry_path src) as [q|g|[| |[sub|]| | |]] eqn:Ep;
    try (apply list_elem_of_singleton in Hin as ->; by rewrite Ep).
  - destruct (parse_project_roots_glob_pattern g).
    + by apply list_elem_of_fmap in Hin as (root & -> & _).
    + apply list_elem_of_singleton in Hin as ->. by rewrite Ep.
  - apply list_elem_of_fmap in Hin as (root & -> & Hroot). simpl.
    apply resolve_abs_norm, abs_norm_absolute. by eapply Forall_forall.
  - apply list_elem_of_fmap in Hin as (root & -> & Hroot). simpl. by eapply Forall_forall.
Qed.

Lemma add_roots_wf p cwd roots :
  wf_policy p -> Forall abs_norm roots ->
  wf_policy (with_additional_readable_roots p cwd roots) /\
  wf_policy (with_additional_writable_roots p cwd roots).
Proof.
  intros Hp Hr. split.
  - unfold with_additional_readable_roots. case_match; [done|].
    apply (fold_roots_P _ wf_policy abs_norm); auto. intros. by apply add_root_wf.
  - apply (fold_roots_P _ wf_policy abs_norm); auto. intros. by apply add_root_wf.
Qed.

Lemma legacy_roots_wf p roots :
  wf_policy p -> Forall abs_norm roots ->
  wf_policy (with_additional_legacy_workspace_writable_roots p roots).
Proof.
  intros Hp Hr. unfold with_additional_legacy_workspace_writable_roots. case_match; [|done].
  apply (fold_wf _ abs_norm); [|done..]. intros es x Hx Hes. unfold add_legacy_writable_root.
  apply protect_root_wf; [done|]. case_match; [done|]. apply Forall_app. by repeat constructor.
Qed.

Lemma from_legacy_wf roots net xt xs cwd c :
  from_absolute_path cwd = Some c -> Forall abs_norm roots ->
  wf_policy (from_legacy_sandbox_policy_for_cwd (WorkspaceWrite roots net xt xs) cwd).
Proof.
  intros Hcwd Hr. unfold wf_policy, from_legacy_sandbox_policy_for_cwd. rewrite Hcwd. simpl entries.
  apply (fold_wf _ abs_norm); [intros; by apply protect_root_wf|done|].
  apply protect_root_wf; [by eapply from_absolute_path_abs_norm|by apply workspace_write_wf].
Qed.

(** Path entries hold absolute, normalised paths: the operations below keep them
    so, and so is every path an entry resolves to. *)
Theorem policy_paths_absolute p existing cwd c roots net xt xs :
  from_absolute_path cwd = Some c -> wf_policy p -> wf_policy existing -> Forall abs_norm roots ->
  wf_policy (workspace_write roots xt xs) /\
  wf_policy (from_legacy_sandbox_policy_for_cwd (WorkspaceWrite roots net xt xs) cwd) /\
  wf_policy (preserve_deny_read_restrictions_from p existing) /\
  wf_policy (with_additional_readable_roots p cwd roots) /\
  wf_policy (with_additional_writable_roots p cwd roots) /\
  wf_policy (with_additional_legacy_workspace_writable_roots p roots) /\
  wf_policy (materialize_project_roots_with_cwd p cwd) /\
  wf_policy (materialize_project_roots_with_workspace_roots p roots) /\
  wf_policy (with_materialized_project_roots_for_workspace_roots p roots) /\
  Forall (fun e => abs_norm (res_path e)) (resolved_entries_with_cwd p cwd).
Proof.
  intros Hcwd Hp He Hr. pose proof (add_roots_wf p cwd roots Hp Hr) as [? ?].
  repeat split; eauto using workspace_write_wf, from_legacy_wf, preserve_wf, legacy_roots_wf,
    materialize_cwd_wf, materialize_roots_wf, resolved_abs_norm.
  apply push_all_wf; [by apply materialize_roots_wf|done].
Qed.

(** C24: The default workspace policy protects repository metadata: below each
    directory it makes writable (the working directory, [/tmp], [TMPDIR] and the
    extra roots, which are absolute), no path under [.git], [.agents] or [.codex],
    whether it exists or not, can be written, and the attempt is reported as
    forbidden.  The exception is a set of writable directories one of which itself
    lies inside such a metadata directory of another.  Paths are taken as they are
    written: symbolic links are not followed. *)
Theorem workspace_write_protects_metadata roots xt xs cwd c q t r n :
  from_absolute_path cwd = Some c -> Forall abs_norm roots ->
  (forall r1 r2 n', r1 ∈ workspace_roots c roots xt xs -> r2 ∈ workspace_roots c roots xt xs ->
     n' ∈ PROTECTED_METADATA_PATH_NAMES -> ~ r1 ++ [Normal n'] `prefix_of` r2) ->
  r ∈ workspace_roots c roots xt xs -> n ∈ PROTECTED_METADATA_PATH_NAMES ->
  resolve_candidate_path q cwd = Some t -> r ++ [Normal n] `prefix_of` t ->
  can_write_path_with_cwd (workspace_write roots xt xs) q cwd = false /\
  exists name, forbidden_agent_metadata_write q cwd (workspace_write roots xt xs) = Some name.
Proof.
  intros Hcwd Hroots Hsep Hr Hn Ht Hp. set (p := workspace_write roots xt xs).
  assert (wf_policy p) as Hwf by by apply workspace_write_wf.
  assert (abs_norm t) as Htn.
  { destruct (candidate_Some cwd c Hcwd q) as (t' & Ht' & ?). congruence. }
  pose proof (resolved_abs_norm cwd c Hcwd p Hwf) as HR.
  assert (mkResolved r Write ∈ resolved_entries_with_cwd p cwd) as HrR
    by (by apply (workspace_write_roots _ _ _ cwd c)).
  assert (meta_denied (resolved_entries_with_cwd p cwd) t = true) as Hm.
  { apply not_false_iff_true. intros Hm.
    destruct (meta_allowed _ t _ n Htn HR HrR eq_refl Hn Hp Hm)
      as (e1 & e2 & n' & H1 & H2 & Ha1 & Ha2 & Hn' & Hin & _).
    apply (workspace_write_roots _ _ _ cwd c) in H1, H2; [|done..]. by apply (Hsep (res_path e1) (res_path e2) n'). }
  assert (forall x, resolve_candidate_path x cwd = Some t -> can_write_path_with_cwd p x cwd = false)
    as Hcw.
  { intros x Hx. rewrite (can_write_writable cwd p x t) by done.
    unfold writable, p. rewrite workspace_write_not_full. fold p. rewrite Hm. apply andb_false_r. }
  split; [by apply Hcw|]. unfold forbidden_agent_metadata_write. simpl. rewrite Ht. simpl.
  unfold meta_denied in Hm. unfold metadata_child_of_writable_root. fold (write_entries (resolved_entries_with_cwd p cwd)).
  destruct (head _) as [[m name]|]; [|done]. simpl.
  unfold has_explicit_write_entry_for_metadata_path.
  fold (explicit (resolved_entries_with_cwd p cwd) m t).
  apply negb_true_iff in Hm. rewrite Hm, Hcw by (by apply (candidate_id cwd c Hcwd)). eauto.
Qed.

End laws.

(** ** Witnesses *)

Definition demo_policy : FileSystemSandboxPolicy :=
  restricted [new_entry (Special Root) Read; new_entry (Special (ProjectRoots None)) Write;
              new_entry (PathEntry (p!"/secret")) Deny].

Lemma demo_policy_wf : wf_policy demo_policy.
Proof. unfold wf_policy, demo_policy. repeat constructor. by exists [s!"secret"]. Defined.

Lemma full_disk_access_sound_witness :
  @can_write_path_with_cwd demo_host
    (restricted [new_entry (Special Root) Write; new_entry (Special Root) Read]) (p!"/etc/x") (p!"/work")
  = true.
Proof.
  apply (full_disk_access_sound (H0 := demo_lawful)
           (restricted [new_entry (Special Root) Write; new_entry (Special Root) Read])
           (p!"/work") (p!"/work")); [reflexivity|by repeat constructor|reflexivity..].
Defined.

Lemma additional_readable_roots_monotone_witness :
  @can_write_path_with_cwd demo_host
    (@with_additional_readable_roots demo_host demo_policy (p!"/work") [p!"/secret"; p!"/secret/ok"])
    (p!"/work/a") (p!"/work") = true.
Proof.
  apply (additional_readable_roots_monotone (H0 := demo_lawful)
    demo_policy (p!"/work") (p!"/work") [p!"/secret"; p!"/secret/ok"]);
    [reflexivity|apply demo_policy_wf| |reflexivity].
  repeat constructor; [by exists [s!"secret"]|by exists [s!"secret"; s!"ok"]].
Defined.

Lemma additional_writable_roots_monotone_witness :
  @can_write_path_with_cwd demo_host
    (@with_additional_writable_roots demo_host demo_policy (p!"/work") [p!"/work/.git"])
    (p!"/work/a") (p!"/work") = true.
Proof.
  apply (additional_writable_roots_monotone (H0 := demo_lawful)
    demo_policy (p!"/work") (p!"/work") [p!"/work/.git"]);
    [reflexivity|apply demo_policy_wf| |reflexivity].
  repeat constructor. by exists [s!"work"; s!".git"].
Defined.

Lemma deny_rules_preserved_witness :
  new_entry (PathEntry (p!"/secret")) Deny ∈
  entries (preserve_deny_read_restrictions_from unrestricted demo_policy).
Proof.
  apply (deny_rules_preserved (H := demo_host) unrestricted demo_policy (p!"/work")); [done| |done].
  unfold demo_policy. simpl. set_solver.
Defined.

Lemma policy_paths_absolute_witness :
  wf_policy (@materialize_project_roots_with_cwd demo_host demo_policy (p!"/work")).
Proof.
  apply (policy_paths_absolute (H0 := demo_lawful) demo_policy demo_policy (p!"/work") (p!"/work")
    [] false false false); [reflexivity|apply demo_policy_wf..|constructor].
Defined.

Lemma workspace_write_protects_metadata_witness :
  @can_write_path_with_cwd demo_host (@workspace_write demo_host [p!"/data"] false false)
    (p!".git/hooks/pre-commit") (p!"/work") = false.
Proof.
  apply (workspace_write_protects_metadata (H0 := demo_lawful) [p!"/data"] false false
    (p!"/work") (p!"/work") _ (p!"/work/.git/hooks/pre-commit") (p!"/work") (s!".git"));
    try reflexivity.
  - repeat constructor. by exists [s!"data"].
  - intros r1 r2 n'.
    change (@workspace_roots demo_host (p!"/work") [p!"/data"] false false)
      with [p!"/work"; p!"/tmp"; p!"/scratch"; p!"/data"].
    unfold PROTECTED_METADATA_PATH_NAMES. rewrite !elem_of_cons, !elem_of_nil.
    intros H1 H2 H3 [x Hx]. destruct_or!; subst; by vm_compute in Hx.
  - apply elem_of_cons. by left.
  - apply elem_of_cons. by left.
  - by exists (p!"hooks/pre-commit").
Defined.

(** ** A gap of the full-disk summary *)

(** A host without [/tmp]. *)
Definition no_tmp_host : Host := {|
  current_dir := Some (p!"/work"); home_dir := None; tmpdir_var := None;
  is_dir _ := false; is_file _ := false; exists_path _ := false; read_to_string _ := None;
  symlink_metadata _ := None; fs_canonicalize _ := None
|}.

(** Where [/tmp] is no directory, a write entry for its symbolic name is taken
    to override a read entry for the path, though it resolves to nothing: the
    policy counts as having full-disk write access and still refuses a write. *)
Lemma full_disk_write_without_slash_tmp :
  let p := restricted [new_entry (Special Root) Write; new_entry (PathEntry slash_tmp) Read;
                       new_entry (Special SlashTmp) Write] in
  has_full_disk_write_access p = true /\
  @can_write_path_with_cwd no_tmp_host p (p!"/tmp/x") (p!"/work") = false.
Proof. split; reflexivity. Qed.
