(* ===== verification/SandboxRoots.v ===== *)
(** * Writable roots, read denials and the legacy policy

    The projections of a [FileSystemSandboxPolicy] that sandboxes enforce
    ([protocol/src/permissions.rs] and the [WritableRoot] and [SandboxPolicy] of
    [protocol.rs]): writable roots with their read-only subpaths, unreadable
    roots and globs, the conversion to a legacy policy, and the run-time matcher
    for denied reads.  The glob compiler of the [globset] crate is the parameter
    [build_glob]. *)

From S2P Require Import Prelude RustStr Paths Permissions PermissionsFacts.

(** ** Data *)

Record WritableRoot := mkWritableRoot {
  root : Path;
  read_only_subpaths : list Path;
  protected_metadata_names : list str;
}.

#[global] Instance WritableRoot_eq_dec : EqDecision WritableRoot.
Proof. solve_decision. Defined.

Definition path_contains_protected_metadata_name (w : WritableRoot) (path : Path) : bool :=
  match path_strip_prefix (root w) path with
  | None => false
  | Some relative_path =>
      match head relative_path with
      | None => false
      | Some first_component =>
          existsb (str_eqb (as_os_str first_component)) (protected_metadata_names w)
      end
  end.

Definition is_path_writable (w : WritableRoot) (path : Path) : bool :=
  if negb (path_starts_with path (root w)) then false
  else if existsb (path_starts_with path) (read_only_subpaths w) then false
  else if path_contains_protected_metadata_name w path then false
  else true.

Record FileSystemSemanticSignature := mkSignature {
  sig_full_disk_read : bool;
  sig_full_disk_write : bool;
  sig_platform_defaults : bool;
  sig_readable_roots : list Path;
  sig_writable_roots : list WritableRoot;
  sig_unreadable_roots : list Path;
  sig_unreadable_globs : list str;
}.

#[global] Instance FileSystemSemanticSignature_eq_dec : EqDecision FileSystemSemanticSignature.
Proof. solve_decision. Defined.

(** [slice::sort_by], stable, as an insertion sort. *)
Section sorting.
Context {A : Type} (cmp : A -> A -> comparison).

Fixpoint insert_sorted (x : A) (l : list A) : list A :=
  match l with
  | [] => [x]
  | y :: l' => match cmp x y with Gt => y :: insert_sorted x l' | _ => x :: l end
  end.

Definition sort_by (l : list A) : list A := foldr insert_sorted [] l.

(** [Vec::dedup]: runs of equal elements become one. *)
Fixpoint dedup_runs `{EqDecision A} (l : list A) : list A :=
  match l with
  | [] => []
  | x :: l' =>
      match dedup_runs l' with
      | y :: r => if decide (x = y) then y :: r else x :: y :: r
      | [] => [x]
      end
  end.

End sorting.

Definition sorted_absolute_paths (paths : list Path) : list Path := sort_by path_compare paths.

Definition sorted_writable_roots (roots : list WritableRoot) : list WritableRoot :=
  sort_by (fun l r => path_compare (root l) (root r))
    ((fun w => mkWritableRoot (root w) (sorted_absolute_paths (read_only_subpaths w))
                 (dedup_runs (sort_by str_compare (protected_metadata_names w)))) <$> roots).

(** ** The legacy policy *)

Definition network_is_enabled (n : NetworkAccess) : bool :=
  match n with NetworkAccessEnabled => true | NetworkAccessRestricted => false end.

Definition has_full_network_access (s : SandboxPolicy) : bool :=
  match s with
  | DangerFullAccess => true
  | ExternalSandbox network_access => network_is_enabled network_access
  | ReadOnly network_access => network_access
  | WorkspaceWrite _ network_access _ _ => network_access
  end.

Definition network_from_sandbox_policy (s : SandboxPolicy) : NetworkSandboxPolicy :=
  if has_full_network_access s then NetEnabled else NetRestricted.

Section roots.
Context `{Host}.

Definition legacy_get_writable_roots_with_cwd (s : SandboxPolicy) (cwd : Path)
    : list WritableRoot :=
  match s with
  | DangerFullAccess | ExternalSandbox _ | ReadOnly _ => []
  | WorkspaceWrite writable_roots _ exclude_tmpdir_env_var exclude_slash_tmp =>
      let roots :=
        writable_roots
        ++ match from_absolute_path cwd with Some cwd => [cwd] | None => [] end
        ++ (if negb exclude_slash_tmp && is_dir slash_tmp then [slash_tmp] else [])
        ++ (if exclude_tmpdir_env_var then []
            else match tmpdir_var with
                 | Some tmpdir =>
                     if is_empty tmpdir then []
                     else match from_absolute_path tmpdir with Some d => [d] | None => [] end
                 | None => []
                 end) in
      let cwd_root := from_absolute_path cwd in
      (fun writable_root =>
         mkWritableRoot writable_root
           (default_read_only_subpaths_for_writable_root writable_root
              (bool_decide (cwd_root = Some writable_root)))
           []) <$> roots
  end.

(** ** Roots of a policy *)

Definition get_readable_roots_with_cwd (p : FileSystemSandboxPolicy) (cwd : Path) : list Path :=
  if has_full_disk_read_access p then []
  else dedup_absolute_paths
         (res_path <$> List.filter (fun e => can_read_path_with_cwd p (res_path e) cwd)
            (List.filter (fun e => can_read (res_access e)) (resolved_entries_with_cwd p cwd)))
         true.

Definition has_explicit_resolved_path_entry (es : list ResolvedFileSystemEntry) (path : Path)
    : bool := existsb (fun e => bool_decide (res_path e = path)) es.

Definition protected_metadata_names_for_writable_root (p : FileSystemSandboxPolicy) (root : Path)
    (raw_writable_roots : list Path) (cwd : Path) : list str :=
  List.filter (fun metadata_name =>
    forallb (fun metadata_path => negb (can_write_path_with_cwd p metadata_path cwd))
      ((fun raw_root => abs_join raw_root [Normal metadata_name]) <$> root :: raw_writable_roots))
    PROTECTED_METADATA_PATH_NAMES.

(** The in-root spelling of a carve-out, when there is one. *)
Definition raw_carveout_path (root : Path) (raw_writable_roots : list Path) (path : Path)
    : option Path :=
  match parent root with
  | None => None
  | Some _ =>
      if bool_decide (path = root) then None
      else if path_starts_with path root then Some path
      else head (omap (fun raw_root =>
             suffix ← path_strip_prefix raw_root path;
             if is_empty suffix then None else Some (abs_join root suffix)) raw_writable_roots)
  end.

(** The subpath of [root] that a non-write entry at [path] makes read-only. *)
Definition carveout (root : Path) (raw_writable_roots : list Path) (path : Path) : option Path :=
  let effective_path := normalize_effective_absolute_path path in
  match raw_carveout_path root raw_writable_roots path with
  | Some raw => Some raw
  | None =>
      if bool_decide (effective_path = root) || negb (path_starts_with effective_path root)
      then None else Some effective_path
  end.

Definition writable_root_of (p : FileSystemSandboxPolicy) (cwd : Path)
    (writable_entries : list Path) (root : Path) : WritableRoot :=
  let resolved_entries := resolved_entries_with_cwd p cwd in
  let raw_writable_roots :=
    List.filter (fun path => bool_decide (normalize_effective_absolute_path path = root))
      writable_entries in
  let protected_names :=
    protected_metadata_names_for_writable_root p root raw_writable_roots cwd in
  let protect_missing_dot_codex :=
    match from_absolute_path cwd with
    | Some cwd => bool_decide (normalize_effective_absolute_path cwd = root)
    | None => false
    end in
  let defaults :=
    List.filter (fun path => negb (has_explicit_resolved_path_entry resolved_entries path))
      (default_read_only_subpaths_for_writable_root root protect_missing_dot_codex) in
  let carveouts :=
    omap (fun e => carveout root raw_writable_roots (res_path e))
      (List.filter (fun e => negb (can_write_path_with_cwd p (res_path e) cwd))
         (List.filter (fun e => negb (can_write (res_access e))) resolved_entries)) in
  mkWritableRoot root (dedup_absolute_paths (defaults ++ carveouts) false) protected_names.

Definition writable_entries_with_cwd (p : FileSystemSandboxPolicy) (cwd : Path) : list Path :=
  res_path <$> List.filter (fun e => can_write_path_with_cwd p (res_path e) cwd)
                 (List.filter (fun e => can_write (res_access e)) (resolved_entries_with_cwd p cwd)).

Definition get_writable_roots_with_cwd (p : FileSystemSandboxPolicy) (cwd : Path)
    : list WritableRoot :=
  if has_full_disk_write_access p then []
  else let writable_entries := writable_entries_with_cwd p cwd in
       writable_root_of p cwd writable_entries <$> dedup_absolute_paths writable_entries true.

Definition get_unreadable_roots_with_cwd (p : FileSystemSandboxPolicy) (cwd : Path) : list Path :=
  if is_restricted p then
    let root := absolute_root_path_for_cwd <$> from_absolute_path cwd in
    dedup_absolute_paths
      (res_path <$>
         List.filter (fun e => negb (bool_decide (root = Some (res_path e))))
           (List.filter (fun e => negb (can_read_path_with_cwd p (res_path e) cwd))
              (List.filter (fun e => bool_decide (res_access e = Deny))
                 (resolved_entries_with_cwd p cwd))))
      true
  else [].

Definition get_unreadable_globs_with_cwd (p : FileSystemSandboxPolicy) (cwd : Path) : list str :=
  if is_restricted p then
    dedup_runs (sort_by str_compare
      (omap (fun e => match entry_path e with
                      | GlobPattern pattern =>
                          Some (to_string_lossy
                                  (resolve_path_against_base (components pattern) cwd))
                      | PathEntry _ | Special _ => None
                      end) (List.filter is_deny (entries p))))
  else [].

Definition semantic_signature (p : FileSystemSandboxPolicy) (cwd : Path)
    : FileSystemSemanticSignature :=
  mkSignature (has_full_disk_read_access p) (has_full_disk_write_access p)
    (include_platform_defaults p)
    (sorted_absolute_paths (get_readable_roots_with_cwd p cwd))
    (sorted_writable_roots (get_writable_roots_with_cwd p cwd))
    (sorted_absolute_paths (get_unreadable_roots_with_cwd p cwd))
    (get_unreadable_globs_with_cwd p cwd).

Definition is_semantically_equivalent_to (p other : FileSystemSandboxPolicy) (cwd : Path) : bool :=
  bool_decide (semantic_signature p cwd = semantic_signature other cwd).

(** ** To and from the legacy policy *)

(** What the entries say, gathered in one pass. *)
Record LegacyScan := mkScan {
  workspace_root_writable : bool;
  scan_writable_roots : list Path;
  tmpdir_writable : bool;
  slash_tmp_writable : bool;
  unbridgeable_root_write : bool;
}.

Definition scan_entry (cwd_absolute : option Path) (s : LegacyScan) (e : FileSystemSandboxEntry)
    : LegacyScan :=
  let '(mkScan ws roots tmpdir slash_tmp root_write) := s in
  match entry_path e with
  | GlobPattern _ => s
  | PathEntry path =>
      if can_write (access e) then
        if bool_decide (cwd_absolute = Some path) then mkScan true roots tmpdir slash_tmp root_write
        else mkScan ws (roots ++ [path]) tmpdir slash_tmp root_write
      else s
  | Special value =>
      match value with
      | Root =>
          match access e with
          | Deny | Read => s
          | Write => mkScan ws roots tmpdir slash_tmp true
          end
      | Minimal => s
      | ProjectRoots subpath =>
          if bool_decide (subpath = None) && can_write (access e)
          then mkScan true roots tmpdir slash_tmp root_write
          else match resolve_file_system_special_path value cwd_absolute with
               | Some path =>
                   if can_write (access e)
                   then mkScan ws (roots ++ [path]) tmpdir slash_tmp root_write else s
               | None => s
               end
      | Tmpdir => if can_write (access e) then mkScan ws roots true slash_tmp root_write else s
      | SlashTmp => if can_write (access e) then mkScan ws roots tmpdir true root_write else s
      | Unknown _ _ => s
      end
  end.

(** The only error: writes that the legacy policy cannot express. *)
Inductive LegacyError := UnbridgeableWrites.

Definition full_access_legacy (n : NetworkSandboxPolicy) : SandboxPolicy :=
  if net_is_enabled n then DangerFullAccess else ExternalSandbox NetworkAccessRestricted.

Definition to_legacy_sandbox_policy (p : FileSystemSandboxPolicy)
    (network_policy : NetworkSandboxPolicy) (cwd : Path) : result SandboxPolicy LegacyError :=
  match kind p with
  | ExternalSandboxKind =>
      Ok (ExternalSandbox (if net_is_enabled network_policy then NetworkAccessEnabled
                           else NetworkAccessRestricted))
  | Unrestricted => Ok (full_access_legacy network_policy)
  | Restricted =>
      let s := fold_left (scan_entry (from_absolute_path cwd)) (entries p)
                 (mkScan false [] false false false) in
      if has_full_disk_write_access p then Ok (full_access_legacy network_policy)
      else if workspace_root_writable s then
        Ok (WorkspaceWrite (dedup_absolute_paths (scan_writable_roots s) false)
              (net_is_enabled network_policy)
              (negb (tmpdir_writable s)) (negb (slash_tmp_writable s)))
      else if unbridgeable_root_write s || negb (is_empty (scan_writable_roots s))
              || tmpdir_writable s || slash_tmp_writable s
      then Err UnbridgeableWrites
      else Ok (ReadOnly (net_is_enabled network_policy))
  end.

Definition legacy_runtime_file_system_policy_for_cwd (s : SandboxPolicy) (cwd : Path)
    : FileSystemSandboxPolicy :=
  match s with
  | WorkspaceWrite writable_roots _ exclude_tmpdir_env_var exclude_slash_tmp =>
      let es := workspace_base_entries writable_roots exclude_tmpdir_env_var exclude_slash_tmp in
      let es := match from_absolute_path cwd with
                | Some cwd_root => protect_root true es cwd_root
                | None => es
                end in
      restricted (fold_left (protect_root false) writable_roots es)
  | _ => from_sandbox_policy s
  end.

Definition protected_metadata_names_need_direct_runtime_enforcement (p : FileSystemSandboxPolicy)
    (legacy_policy : SandboxPolicy) (cwd : Path) : bool :=
  let legacy_roots := legacy_get_writable_roots_with_cwd legacy_policy cwd in
  existsb (fun w =>
    match List.find (fun candidate => bool_decide (root candidate = root w)) legacy_roots with
    | None => negb (is_empty (protected_metadata_names w))
    | Some legacy_root =>
        existsb (fun metadata_name =>
          let metadata_path := abs_join (root w) [Normal metadata_name] in
          negb (existsb (fun subpath => bool_decide (subpath = metadata_path))
                  (read_only_subpaths legacy_root))) (protected_metadata_names w)
    end) (get_writable_roots_with_cwd p cwd).

Definition needs_direct_runtime_enforcement (p : FileSystemSandboxPolicy)
    (network_policy : NetworkSandboxPolicy) (cwd : Path) : bool :=
  if negb (is_restricted p) then false
  else match to_legacy_sandbox_policy p network_policy cwd with
       | Err _ => true
       | Ok legacy_policy =>
           if protected_metadata_names_need_direct_runtime_enforcement p legacy_policy cwd then true
           else negb (bool_decide (semantic_signature p cwd =
                  semantic_signature (legacy_runtime_file_system_policy_for_cwd legacy_policy cwd) cwd))
       end.

(** ** Denied reads at run time *)

Definition push_unique (candidates : list Path) (candidate : Path) : list Path :=
  if existsb (fun existing => bool_decide (existing = candidate)) candidates then candidates
  else candidates ++ [candidate].

Definition normalized_and_canonical_candidates (path : Path) : list Path :=
  let candidates :=
    push_unique [] (match from_absolute_path path with Some n => n | None => path end) in
  match fs_canonicalize path with
  | Some canonical =>
      match from_absolute_path canonical with
      | Some canonical_absolute => push_unique candidates canonical_absolute
      | None => candidates
      end
  | None => candidates
  end.

(** A compiled glob, as the predicate it is on paths. *)
Definition GlobMatcher := Path -> bool.

Record ReadDenyMatcher := mkMatcher {
  denied_candidates : list (list Path);
  deny_read_matchers : list GlobMatcher;
  invalid_pattern : bool;
}.

Inductive InvalidDenyReadGlobBehavior := FailClosed | ReturnError.

Context (build_glob : str -> result GlobMatcher str).

(** The loop over the patterns: the matchers so far, and whether one was
    malformed. *)
Fixpoint build_matchers (behavior : InvalidDenyReadGlobBehavior) (patterns : list str)
    (matchers : list GlobMatcher) (invalid : bool) : result (list GlobMatcher * bool) str :=
  match patterns with
  | [] => Ok (matchers, invalid)
  | pattern :: rest =>
      match build_glob pattern with
      | Ok matcher => build_matchers behavior rest (matchers ++ [matcher]) invalid
      | Err err =>
          match behavior with
          | FailClosed => build_matchers behavior rest matchers true
          | ReturnError =>
              Err (s!"invalid deny-read glob pattern `" ++ pattern ++ s!"`: " ++ err)
          end
      end
  end.

Definition build_deny_matcher (p : FileSystemSandboxPolicy) (cwd : Path)
    (behavior : InvalidDenyReadGlobBehavior) : result (option ReadDenyMatcher) str :=
  if negb (has_denied_read_restrictions p) then Ok None
  else
    let candidates :=
      normalized_and_canonical_candidates <$> get_unreadable_roots_with_cwd p cwd in
    let? (matchers, invalid) :=
      build_matchers behavior (get_unreadable_globs_with_cwd p cwd) [] false in
    Ok (Some (mkMatcher candidates matchers invalid)).

(** [ReadDenyMatcher::new]: the outer [None] is the panic of [unreachable!]. *)
Definition new_deny_matcher (p : FileSystemSandboxPolicy) (cwd : Path)
    : option (option ReadDenyMatcher) :=
  match build_deny_matcher p cwd FailClosed with Ok m => Some m | Err _ => None end.

Definition try_new_deny_matcher (p : FileSystemSandboxPolicy) (cwd : Path)
    : result (option ReadDenyMatcher) str := build_deny_matcher p cwd ReturnError.

Definition is_read_denied (m : ReadDenyMatcher) (path : Path) : bool :=
  if invalid_pattern m then true
  else
    let path_candidates := normalized_and_canonical_candidates path in
    if existsb (fun denied =>
         existsb (fun candidate =>
           existsb (fun denied_candidate =>
             bool_decide (candidate = denied_candidate)
             || path_starts_with candidate denied_candidate) denied) path_candidates)
         (denied_candidates m)
    then true
    else existsb (fun matcher => existsb matcher path_candidates) (deny_read_matchers m).

End roots.
