(* ===== verification/SandboxRootsFacts.v ===== *)
(** * Theorems on writable roots, denied reads and the legacy policy *)

From S2P Require Import Prelude RustStr Paths Permissions PermissionsFacts PermissionsLaws.
From S2P Require Import SandboxRoots.

(** ** Lists *)

Lemma elem_of_filterb {A} (f : A -> bool) l x : x ∈ List.filter f l <-> x ∈ l /\ f x = true.
Proof. by rewrite list_elem_of_In, filter_In, <- list_elem_of_In. Qed.

Lemma dedup_from_complete seen l x : x ∈ l -> x ∈ seen \/ x ∈ dedup_from seen l.
Proof.
  revert seen. induction l as [|y l IH]; intros seen; [by intros ?%not_elem_of_nil|].
  intros [->|Hx]%elem_of_cons; simpl.
  - case_bool_decide; [by left|]. right. by left.
  - case_bool_decide; [auto|]. destruct (IH (y :: seen) Hx) as [[->|?]%elem_of_cons|?]; [|auto|].
    + right. by left.
    + right. by right.
Qed.

Lemma elem_of_dedup l x : x ∈ dedup_from [] l <-> x ∈ l.
Proof.
  split; [apply dedup_from_elem|]. intros Hx.
  by destruct (dedup_from_complete [] l x Hx) as [?%not_elem_of_nil|?].
Qed.

Lemma dedup_from_fresh seen l :
  NoDup l -> (forall x, x ∈ l -> x ∉ seen) -> dedup_from seen l = l.
Proof.
  intros Hnd. revert seen. induction Hnd as [|x l Hx Hnd IH]; intros seen Hs; simpl; [done|].
  rewrite bool_decide_eq_false_2 by (apply Hs; by left). f_equal. apply IH.
  intros y Hy [->|Hys]%elem_of_cons; [done|]. eapply Hs; [by right|done].
Qed.

Lemma dedup_from_NoDup seen l :
  NoDup (dedup_from seen l) /\ forall x, x ∈ dedup_from seen l -> x ∉ seen.
Proof.
  revert seen. induction l as [|x l IH]; intros seen; simpl.
  { split; [constructor|by intros ? ?%not_elem_of_nil]. }
  case_bool_decide; [done|]. destruct (IH (x :: seen)) as [Hnd Hs]. split.
  - constructor; [|done]. intros Hx%Hs. set_solver.
  - intros y [->|Hy]%elem_of_cons; [done|]. apply Hs in Hy. set_solver.
Qed.

Lemma dedup_from_idemp l : dedup_from [] (dedup_from [] l) = dedup_from [] l.
Proof. apply dedup_from_fresh; [apply dedup_from_NoDup|by intros x _ ?%not_elem_of_nil]. Qed.

Lemma filter_all {A} (f : A -> bool) l : (forall x, x ∈ l -> f x = true) -> List.filter f l = l.
Proof.
  induction l as [|x l IH]; intros Hl; simpl; [done|].
  rewrite (Hl x), IH; [done| |by left]. intros y Hy. apply Hl. by right.
Qed.

(** The first hit of [f] is the first hit of a function that agrees on hits. *)
Lemma head_omap_agree {A B} (f g : A -> option B) l y :
  (forall x z, x ∈ l -> g x = Some z -> f x = Some z) ->
  (forall x, x ∈ l -> f x = Some y -> g x = Some y) ->
  head (omap f l) = Some y -> head (omap g l) = Some y.
Proof.
  induction l as [|x l IH]; [done|]. intros Hgf Hfg.
  rewrite !omap_cons_eq. destruct (f x) as [z|] eqn:Ef.
  - simpl. intros [= ->]. by rewrite (Hfg _ (list_elem_of_here _ _) Ef).
  - destruct (g x) as [z|] eqn:Eg; [apply Hgf in Eg; [congruence|by left]|].
    apply IH; intros; [apply Hgf|apply Hfg]; by try right.
Qed.

(** ** Writable roots *)

Lemma most_specific_self R t e :
  most_specific R t e -> decided R (res_path e) = res_access e.
Proof.
  intros (He & Hp & Hmax). rewrite (covering_between R (res_path e) t).
  - apply decided_spec. right. exists e. done.
  - done.
  - intros e' He' Hp'. destruct (Hmax e' He' Hp') as [?|[-> _]]; lia.
Qed.

Section roots.
Context `{LawfulHost}.
Context (p : FileSystemSandboxPolicy) (cwd c : Path).
Hypothesis Hcwd : from_absolute_path cwd = Some c.
Hypothesis Hwf : wf_policy p.
Hypothesis Hk : kind p = Restricted.
Hypothesis Hfull : has_full_disk_write_access p = false.

(** No symbolic links on the way to the entries. *)
Hypothesis Hreal : forall e, e ∈ resolved_entries_with_cwd p cwd ->
  normalize_effective_absolute_path (res_path e) = res_path e.

Let R := resolved_entries_with_cwd p cwd.

Lemma R_abs_norm e : e ∈ R -> abs_norm (res_path e).
Proof using All.
  intros He. pose proof (resolved_abs_norm cwd c Hcwd p Hwf) as HR.
  rewrite Forall_forall in HR. auto.
Qed.

Lemma can_write_R t :
  abs_norm t ->
  can_write_path_with_cwd p t cwd = can_write (decided R t) && negb (meta_denied R t).
Proof using All.
  intros Ht. rewrite (can_write_writable cwd p t t) by eauto using candidate_id.
  unfold writable. by rewrite Hfull.
Qed.

Lemma elem_of_writable_entries x :
  x ∈ writable_entries_with_cwd p cwd <->
  exists e, e ∈ R /\ res_path e = x /\ res_access e = Write /\
    can_write_path_with_cwd p x cwd = true.
Proof using Type.
  unfold writable_entries_with_cwd. rewrite list_elem_of_fmap. split.
  - intros (e & -> & [[He Ha]%elem_of_filterb Hw]%elem_of_filterb). exists e.
    split; [done|]. split; [done|]. by destruct (res_access e).
  - intros (e & He & <- & Ha & Hw). exists e. split; [done|].
    by rewrite !elem_of_filterb, Ha.
Qed.

(** A write entry that decides its own path is a writable entry: it is its own
    explicit grant. *)
Lemma write_entry_writable e :
  e ∈ R -> res_access e = Write -> decided R (res_path e) = Write ->
  res_path e ∈ writable_entries_with_cwd p cwd.
Proof using All.
  intros He Ha Hd. apply elem_of_writable_entries. exists e. split; [done|]. split; [done|].
  split; [done|]. rewrite can_write_R by by apply R_abs_norm. rewrite Hd. simpl.
  apply negb_true_iff. unfold meta_denied. destruct (head _) as [[m n]|] eqn:Eh; [|done].
  apply negb_false_iff, explicit_true. exists e. split; [done|]. split; [done|]. split; [done|].
  apply meta_first_Some in Eh as (w & Hw & _ & Hm).
  apply metadata_child_Some in Hm as (_ & _ & ?); auto using R_abs_norm.
Qed.

Lemma writable_entries_normalized :
  normalize_effective_absolute_path <$> writable_entries_with_cwd p cwd =
  writable_entries_with_cwd p cwd.
Proof using All.
  rewrite <- (list_fmap_id (writable_entries_with_cwd p cwd)) at 2.
  apply list_fmap_ext. intros i x Hx.
  apply list_elem_of_lookup_2, elem_of_writable_entries in Hx as (e & He & <- & _). by apply Hreal.
Qed.

Lemma elem_of_writable_roots w :
  w ∈ get_writable_roots_with_cwd p cwd <->
  root w ∈ writable_entries_with_cwd p cwd /\
  w = writable_root_of p cwd (writable_entries_with_cwd p cwd) (root w).
Proof using All.
  unfold get_writable_roots_with_cwd. rewrite Hfull, list_elem_of_fmap. unfold dedup_absolute_paths.
  setoid_rewrite elem_of_dedup. rewrite writable_entries_normalized. naive_solver.
Qed.

(** A non-write entry strictly below a root is one of its read-only subpaths. *)
Lemma carveout_listed r e raw :
  e ∈ R -> res_access e <> Write -> decided R (res_path e) <> Write ->
  r `prefix_of` res_path e -> res_path e <> r ->
  res_path e ∈ read_only_subpaths (writable_root_of p cwd raw r).
Proof using All.
  intros He Ha Hd Hp Hne. simpl. unfold dedup_absolute_paths. rewrite elem_of_dedup, elem_of_app.
  right. apply list_elem_of_omap. exists e. split.
  - rewrite !elem_of_filterb. split; [split; [done|by destruct (res_access e)]|].
    rewrite can_write_R by by apply R_abs_norm. by destruct (decided R (res_path e)).
  - apply path_starts_with_true in Hp. unfold carveout, raw_carveout_path.
    rewrite (bool_decide_eq_false_2 (res_path e = r)) by done. rewrite Hreal, Hp by done.
    rewrite bool_decide_eq_false_2 by done. by destruct (parent r).
Qed.

(** The entry that decides a path below its deepest writable root is that root. *)
Lemma deciding_entry_is_root w t :
  w ∈ get_writable_roots_with_cwd p cwd -> abs_norm t ->
  is_path_writable w t = true ->
  (forall w', w' ∈ get_writable_roots_with_cwd p cwd -> root w' `prefix_of` t ->
     length (root w') <= length (root w)) ->
  exists e, most_specific R t e /\ res_path e = root w /\ res_access e = Write.
Proof using All.
  intros Hw Ht Hiw Hdeep. unfold is_path_writable in Hiw.
  destruct (path_starts_with t (root w)) eqn:Hp; [|done]. simpl in Hiw.
  apply path_starts_with_true in Hp.
  apply elem_of_writable_roots in Hw as Hw'. destruct Hw' as [Hr Hweq].
  apply elem_of_writable_entries in Hr as (e0 & He0 & Hpe0 & Ha0 & Hcw).
  rewrite <- Hpe0 in *. rewrite can_write_R in Hcw by by apply R_abs_norm.
  apply andb_true_iff in Hcw as [Hcw _].
  destruct (decided_covered R t e0) as (e & Hms & Hea); [done..|].
  pose proof (most_specific_self _ _ _ Hms) as Hself.
  destruct Hms as (He & Hpe & Hmax).
  assert (res_path e0 `prefix_of` res_path e) as Hpre.
  { eapply prefix_length_le; [done..|]. destruct (Hmax e0) as [?|[-> _]]; [done..|lia|lia]. }
  assert (res_access e = Write) as Hwe.
  { destruct (decide (res_access e = Write)) as [|Hnw]; [done|exfalso].
    assert (res_path e <> res_path e0) as Hne.
    { intros E. rewrite <- E, Hself in Hcw. by destruct (res_access e). }
    rewrite Hweq in Hiw.
    rewrite (proj2 (existsb_true (path_starts_with t) _)) in Hiw; [done|].
    exists (res_path e). split; [|by apply path_starts_with_true].
    apply carveout_listed; [done..|congruence|done|done]. }
  exists e. split; [done|]. split; [|done].
  symmetry. eapply prefix_same_length; [done..|].
  apply prefix_length in Hpre as Hlen.
  assert (length (res_path e) <= length (res_path e0)); [|lia].
  apply (Hdeep (writable_root_of p cwd (writable_entries_with_cwd p cwd) (res_path e))); [|done].
  apply elem_of_writable_roots. split; [|done]. apply write_entry_writable; [done..|congruence].
Qed.

(** A metadata name that is denied for a path below a root is denied for the
    root, so it is one of the root's protected names. *)
Lemma denied_name_protected r n t :
  abs_norm r -> abs_norm t -> n ∈ PROTECTED_METADATA_PATH_NAMES ->
  head (omap (metadata_child_of_entry t) (write_entries R)) = Some (r ++ [Normal n], n) ->
  explicit R (r ++ [Normal n]) t = false -> r ++ [Normal n] `prefix_of` t ->
  can_write_path_with_cwd p (r ++ [Normal n]) cwd = false.
Proof using All.
  intros Hr Ht Hn Hh Hx Hp. assert (abs_norm (r ++ [Normal n])) as Hrn by by apply abs_norm_snoc.
  rewrite can_write_R by done. apply andb_false_iff. right. apply negb_false_iff.
  unfold meta_denied. erewrite (head_omap_agree (metadata_child_of_entry t)); [| | |exact Hh].
  - apply negb_true_iff. apply not_true_iff_false. intros (x & HxR & Hxa & Hxp & Hxm)%explicit_true.
    assert (explicit R (r ++ [Normal n]) t = true); [|congruence].
    apply explicit_true. exists x. split; [done|]. split; [done|]. split; [by trans (r ++ [Normal n])|done].
  - intros x [m k] [HxR _]%elem_of_write_entries Hm.
    apply metadata_child_Some in Hm as (Hkn & Hmx & Hmp); [|auto using R_abs_norm..].
    apply metadata_child_Some; [auto using R_abs_norm..|].
    split; [done|]. split; [done|]. by trans (r ++ [Normal n]).
  - intros x [HxR _]%elem_of_write_entries Hm.
    apply metadata_child_Some in Hm as (_ & Hmx & _); [|auto using R_abs_norm..].
    apply metadata_child_Some; [auto using R_abs_norm..|]. done.
Qed.

Lemma protected_name_listed r n raw :
  abs_norm r -> n ∈ PROTECTED_METADATA_PATH_NAMES ->
  (forall x, x ∈ raw -> normalize_effective_absolute_path x = r -> x = r) ->
  can_write_path_with_cwd p (r ++ [Normal n]) cwd = false ->
  n ∈ protected_metadata_names (writable_root_of p cwd raw r).
Proof using All.
  intros Hr Hn Hraw Hcw. simpl. unfold protected_metadata_names_for_writable_root.
  apply elem_of_filterb. split; [done|].
  assert (abs_join r [Normal n] = r ++ [Normal n]) as Hj.
  { apply abs_join_name; [done|].
    by apply metadata_path_name_protected, metadata_path_name_Some in Hn as (_ & _ & ?). }
  apply forallb_forall. intros x (y & -> & Hy)%list_elem_of_In%list_elem_of_fmap.
  assert (y = r) as ->; [|by rewrite Hj, Hcw].
  apply elem_of_cons in Hy as [->|[Hy Hny%bool_decide_eq_true]%elem_of_filterb]; [done|].
  by apply Hraw.
Qed.

Lemma writable_roots_grant w t :
  w ∈ get_writable_roots_with_cwd p cwd -> abs_norm t ->
  is_path_writable w t = true ->
  (forall w', w' ∈ get_writable_roots_with_cwd p cwd -> root w' `prefix_of` t ->
     length (root w') <= length (root w)) ->
  can_write_path_with_cwd p t cwd = true.
Proof using All.
  intros Hw Ht Hiw Hdeep.
  destruct (deciding_entry_is_root w t Hw Ht Hiw Hdeep) as (e & Hms & Hpe & Hwe).
  assert (decided R t = Write) as Hd by (apply decided_spec; eauto).
  destruct Hms as (He & Hp & Hmax).
  rewrite can_write_R, Hd by done. simpl. apply negb_true_iff.
  unfold meta_denied. destruct (head _) as [[m n]|] eqn:Eh; [|done].
  apply negb_false_iff. destruct (explicit R m t) eqn:Ex; [done|exfalso].
  apply meta_first_Some in Eh as Hfirst. destruct Hfirst as (w1 & Hw1 & Ha1 & Hm).
  apply metadata_child_Some in Hm as (Hn & -> & Hmt); [|auto using R_abs_norm..].
  assert (res_path w1 `prefix_of` t) as Hw1t by (etrans; [|exact Hmt]; by eexists).
  destruct (decide (res_path w1 = res_path e)) as [E|Hne].
  - rewrite E, Hpe in *.
    assert (abs_norm (root w)) as Hrn by (rewrite <- Hpe; by apply R_abs_norm).
    pose proof (denied_name_protected (root w) n t Hrn Ht Hn Eh Ex Hmt) as Hcw.
    apply elem_of_writable_roots in Hw as [Hwr Hweq].
    assert (n ∈ protected_metadata_names w) as Hpn.
    { rewrite Hweq. apply protected_name_listed; [done..| |done].
      intros x (ex & Hex & <- & _)%elem_of_writable_entries. by rewrite Hreal. }
    unfold is_path_writable, path_contains_protected_metadata_name in Hiw.
    destruct Hmt as [rest Hmt]. rewrite <- app_assoc in Hmt.
    rewrite Hmt, path_strip_prefix_app in Hiw. simpl in Hiw.
    rewrite (proj2 (existsb_true (str_eqb n) _)) in Hiw; [by repeat case_match|].
    exists n. split; [done|]. by apply str_eqb_eq.
  - assert (explicit R (res_path w1 ++ [Normal n]) t = true) as Hcontra; [|congruence].
    apply explicit_true. exists e. split; [done|]. split; [done|]. split; [done|].
    eapply prefix_length_le; [done..|]. rewrite length_app. simpl.
    destruct (Hmax w1 Hw1 Hw1t) as [?|[? _]]; [lia|done].
Qed.

End roots.

(** C4: The writable roots handed to a sandbox grant no more than the policy:
    a path that its deepest writable root reports as writable can be written
    under the policy, read-only carve-outs and protected metadata names included
    (for entries that do not go through symbolic links). *)
Theorem writable_roots_sound `{LawfulHost} p cwd c w t :
  from_absolute_path cwd = Some c -> wf_policy p ->
  (forall e, e ∈ resolved_entries_with_cwd p cwd ->
     normalize_effective_absolute_path (res_path e) = res_path e) ->
  w ∈ get_writable_roots_with_cwd p cwd -> abs_norm t -> is_path_writable w t = true ->
  (forall w', w' ∈ get_writable_roots_with_cwd p cwd -> root w' `prefix_of` t ->
     length (root w') <= length (root w)) ->
  can_write_path_with_cwd p t cwd = true.
Proof.
  intros Hcwd Hwf Hreal Hw Ht Hiw Hdeep.
  destruct (has_full_disk_write_access p) eqn:Hfull.
  { unfold get_writable_roots_with_cwd in Hw. rewrite Hfull in Hw. by apply not_elem_of_nil in Hw. }
  assert (kind p = Restricted) as Hk.
  { unfold has_full_disk_write_access in Hfull. by destruct (kind p). }
  by apply (writable_roots_grant p cwd c Hcwd Hwf Hk Hfull Hreal w t).
Qed.

Lemma writable_roots_sound_witness :
  @can_write_path_with_cwd demo_host demo_policy (p!"/work/src/main.rs") (p!"/work") = true.
Proof.
  apply (writable_roots_sound (H0 := demo_lawful) demo_policy (p!"/work") (p!"/work")
    (mkWritableRoot (p!"/work") [p!"/work/.git"; p!"/work/.codex"]
       PROTECTED_METADATA_PATH_NAMES)); try reflexivity.
  - apply demo_policy_wf.
  - change (@resolved_entries_with_cwd demo_host demo_policy (p!"/work")) with
      [mkResolved (p!"/") Read; mkResolved (p!"/work") Write; mkResolved (p!"/secret") Deny].
    intros e. rewrite !elem_of_cons, elem_of_nil. intros ?. destruct_or!; subst; reflexivity.
  - change (@get_writable_roots_with_cwd demo_host demo_policy (p!"/work")) with
      [mkWritableRoot (p!"/work") [p!"/work/.git"; p!"/work/.codex"] PROTECTED_METADATA_PATH_NAMES].
    by left.
  - by exists [s!"work"; s!"src"; s!"main.rs"].
  - change (@get_writable_roots_with_cwd demo_host demo_policy (p!"/work")) with
      [mkWritableRoot (p!"/work") [p!"/work/.git"; p!"/work/.codex"] PROTECTED_METADATA_PATH_NAMES].
    intros w' ->%list_elem_of_singleton _. vm_compute. lia.
Defined.

(** ** Legacy policies *)

Section legacy.
Context `{Host}.

Definition canonical_legacy (cwd : Path) (s : SandboxPolicy) : SandboxPolicy :=
  match s with
  | WorkspaceWrite roots net xt xs =>
      WorkspaceWrite (dedup_from [] (List.filter
        (fun r => negb (bool_decide (from_absolute_path cwd = Some r))) roots)) net xt xs
  | _ => s
  end.

Lemma scan_read_only cwd ex s :
  Forall (fun en => access en = Read) ex -> fold_left (scan_entry cwd) ex s = s.
Proof.
  intros Hex. revert s. induction Hex as [|en ex Hen _ IH]; intros s; simpl; [done|].
  rewrite <- (IH s) at 2. f_equal. unfold scan_entry. rewrite Hen. destruct s. simpl.
  destruct (entry_path en) as [| |[]]; try done. rewrite andb_false_r. by case_match.
Qed.

Lemma scan_roots cwd roots w l t s r :
  fold_left (scan_entry cwd) (write_entry <$> roots) (mkScan w l t s r) =
  mkScan (w || existsb (fun x => bool_decide (cwd = Some x)) roots)
    (l ++ List.filter (fun x => negb (bool_decide (cwd = Some x))) roots) t s r.
Proof.
  revert w l. induction roots as [|x roots IH]; intros w l; simpl.
  { by rewrite orb_false_r, app_nil_r. }
  destruct (bool_decide (cwd = Some x)) eqn:E; simpl; rewrite IH; f_equal.
  - by rewrite orb_true_r.
  - by rewrite <- app_assoc.
Qed.

Lemma scan_workspace cwd roots xt xs ex :
  Forall (fun en => access en = Read) ex ->
  fold_left (scan_entry cwd) (workspace_base_entries roots xt xs ++ ex)
    (mkScan false [] false false false) =
  mkScan true (List.filter (fun x => negb (bool_decide (cwd = Some x))) roots)
    (negb xt) (negb xs) false.
Proof.
  intros Hex. unfold workspace_base_entries. rewrite !fold_left_app, (scan_read_only _ ex) by done.
  destruct xt, xs; simpl; by rewrite scan_roots.
Qed.

Lemma to_legacy_workspace_of net cwd roots xt xs p ex :
  kind p = Restricted -> has_full_disk_write_access p = false ->
  entries p = workspace_base_entries roots xt xs ++ ex ->
  Forall (fun en => access en = Read) ex ->
  to_legacy_sandbox_policy p net cwd =
  Ok (canonical_legacy cwd (WorkspaceWrite roots (net_is_enabled net) xt xs)).
Proof.
  intros Hk Hf Hes Hex. unfold to_legacy_sandbox_policy. rewrite Hk, Hf, Hes, scan_workspace by done.
  simpl. unfold dedup_absolute_paths. by rewrite !negb_involutive.
Qed.

(** A restricted policy whose only root entries are not write entries has no
    full-disk write access. *)
Lemma base_entries_not_full p roots xt xs ex :
  kind p = Restricted -> entries p = workspace_base_entries roots xt xs ++ ex ->
  Forall (fun en => access en = Read) ex -> has_full_disk_write_access p = false.
Proof.
  intros Hk Hes Hex. unfold has_full_disk_write_access. rewrite Hk.
  apply andb_false_iff. left. unfold has_root_access. rewrite Hes, existsb_app.
  apply andb_false_iff. right. apply orb_false_iff. split.
  - unfold workspace_base_entries. rewrite !existsb_app.
    assert (existsb (fun e => match entry_path e with Special Root => can_write (access e) | _ => false end)
      (write_entry <$> roots) = false) as -> by (apply existsb_false; intros x (y & -> & _)%list_elem_of_fmap; done).
    by destruct xt, xs.
  - apply existsb_false. intros en He. rewrite Forall_forall in Hex. rewrite (Hex en He).
    by destruct (entry_path en) as [| |[]].
Qed.

(** C25: A legacy policy survives the trip through a file system policy: read
    back, it is the same policy, with the extra roots deduplicated and without
    the working directory, which is writable anyway. *)
Theorem legacy_policy_roundtrip s cwd :
  to_legacy_sandbox_policy (from_sandbox_policy s) (network_from_sandbox_policy s) cwd =
    Ok (canonical_legacy cwd s) /\
  to_legacy_sandbox_policy (from_legacy_sandbox_policy_for_cwd s cwd)
    (network_from_sandbox_policy s) cwd = Ok (canonical_legacy cwd s) /\
  canonical_legacy cwd (canonical_legacy cwd s) = canonical_legacy cwd s.
Proof.
  destruct s as [|net|net|roots net xt xs]; [done|by destruct net|by destruct net|].
  assert (net_is_enabled (network_from_sandbox_policy (WorkspaceWrite roots net xt xs)) = net) as Hnet
    by by destruct net.
  destruct (workspace_write_entries roots xt xs) as (ex & Hes & Hex).
  rewrite <- Hnet at 3 6. split; [|split].
  - eapply to_legacy_workspace_of; eauto using base_entries_not_full.
  - assert (exists ex', entries (from_legacy_sandbox_policy_for_cwd (WorkspaceWrite roots net xt xs) cwd)
      = workspace_base_entries roots xt xs ++ ex' /\ Forall (fun en => access en = Read) ex')
      as (ex' & Hes' & Hex').
    { change (appends_read_only (workspace_base_entries roots xt xs)
        (entries (from_legacy_sandbox_policy_for_cwd (WorkspaceWrite roots net xt xs) cwd))).
      trans (entries (workspace_write roots xt xs)); [by exists ex|].
      unfold from_legacy_sandbox_policy_for_cwd. simpl entries.
      etrans; [|apply protect_roots_read_only]. case_match; [|done].
      apply (protect_roots_read_only true [_]). }
    eapply to_legacy_workspace_of; eauto using base_entries_not_full.
  - simpl. f_equal. set (f := fun r => _). rewrite filter_all.
    + apply dedup_from_idemp.
    + intros x Hx. by apply dedup_from_elem, elem_of_filterb in Hx as [_ ?].
Qed.

End legacy.

(** ** Denied reads *)

Section build.
Context (build_glob : str -> result GlobMatcher str).

Lemma build_matchers_fail_closed patterns ms inv :
  exists ms' inv', build_matchers build_glob FailClosed patterns ms inv = Ok (ms', inv') /\
    (forall m, m ∈ ms -> m ∈ ms') /\ (inv = true -> inv' = true) /\
    forall g, g ∈ patterns ->
      match build_glob g with Ok m => m ∈ ms' | Err _ => inv' = true end.
Proof.
  revert ms inv. induction patterns as [|g patterns IH]; intros ms inv; simpl.
  { exists ms, inv. split; [done|]. split; [done|]. split; [done|]. by intros g ?%not_elem_of_nil. }
  destruct (build_glob g) as [m|err] eqn:Eg.
  - destruct (IH (ms ++ [m]) inv) as (ms' & inv' & -> & Hms & Hinv & Hg).
    exists ms', inv'. split; [done|]. split; [intros; apply Hms; set_solver|]. split; [done|].
    intros g' [->|Hg']%elem_of_cons; [rewrite Eg; apply Hms; set_solver|by apply Hg].
  - destruct (IH ms true) as (ms' & inv' & -> & Hms & Hinv & Hg).
    exists ms', inv'. split; [done|]. split; [done|]. split; [auto|].
    intros g' [->|Hg']%elem_of_cons; [rewrite Eg; auto|by apply Hg].
Qed.

Lemma build_matchers_return_error patterns ms inv :
  (exists e, build_matchers build_glob ReturnError patterns ms inv = Err e) <->
  exists g e, g ∈ patterns /\ build_glob g = Err e.
Proof.
  revert ms inv. induction patterns as [|g patterns IH]; intros ms inv; simpl.
  { split; [by intros [? ?]|by intros (g & e & ?%not_elem_of_nil & _)]. }
  destruct (build_glob g) as [m|err] eqn:Eg.
  - rewrite IH. split; intros (g' & e & Hg & He); exists g', e; [by split; [right|]|].
    apply elem_of_cons in Hg as [->|Hg]; [congruence|done].
  - split; [|by eauto]. intros _. exists g, err. split; [by left|done].
Qed.

End build.

Section deny.
Context `{LawfulHost} (build_glob : str -> result GlobMatcher str).

Lemma candidates_include_self path :
  abs_norm path -> path ∈ normalized_and_canonical_candidates path.
Proof.
  intros Hp. unfold normalized_and_canonical_candidates. rewrite from_absolute_path_id by done.
  unfold push_unique at 2. simpl. repeat case_match; unfold push_unique; repeat case_match; set_solver.
Qed.

(** C23: The run-time matcher for denied reads never panics and fails closed.
    Whatever a deny entry decides, other than on the root itself (where the policy
    denies by default), is denied, as long as the path of the entry is not changed
    by resolving symbolic links; so is what a deny glob matches, and one malformed
    glob denies everything; the strict constructor refuses exactly the policies
    with a malformed glob. *)
Theorem read_deny_matcher_fails_closed p cwd c :
  from_absolute_path cwd = Some c -> wf_policy p -> has_denied_read_restrictions p = true ->
  exists m, new_deny_matcher build_glob p cwd = Some (Some m) /\
    (forall e t, most_specific (resolved_entries_with_cwd p cwd) t e -> res_access e = Deny ->
       res_path e <> [RootDir] -> normalize_effective_absolute_path (res_path e) = res_path e ->
       abs_norm t -> can_read_path_with_cwd p t cwd = false /\ is_read_denied m t = true) /\
    (forall g, g ∈ get_unreadable_globs_with_cwd p cwd ->
       match build_glob g with
       | Ok matcher => forall t, abs_norm t -> matcher t = true -> is_read_denied m t = true
       | Err _ => forall t, is_read_denied m t = true
       end) /\
    ((exists e, try_new_deny_matcher build_glob p cwd = Err e) <->
     exists g e, g ∈ get_unreadable_globs_with_cwd p cwd /\ build_glob g = Err e).
Proof.
  intros Hcwd Hwf Hd. unfold new_deny_matcher, try_new_deny_matcher, build_deny_matcher.
  rewrite Hd. simpl.
  destruct (build_matchers_fail_closed build_glob (get_unreadable_globs_with_cwd p cwd) [] false)
    as (ms & inv & -> & _ & _ & Hg). simpl. eexists. split; [done|]. split; [|split].
  - intros e t Hms Ha Hne Hreal Ht.
    unfold has_denied_read_restrictions in Hd. apply andb_true_iff in Hd as [Hk _].
    assert (abs_norm (res_path e)) as Hen.
    { pose proof (resolved_abs_norm cwd c Hcwd p Hwf) as HR. rewrite Forall_forall in HR.
      destruct Hms as [? _]. auto. }
    assert (forall x, abs_norm x -> decided (resolved_entries_with_cwd p cwd) x = Deny ->
      can_read_path_with_cwd p x cwd = false) as Hcr.
    { intros x Hx Hdx. apply is_restricted_true in Hk. unfold can_read_path_with_cwd.
      by rewrite (resolve_access_decided cwd p x x), Hdx by eauto using candidate_id. }
    split; [apply Hcr; [done|apply decided_spec; eauto]|].
    assert (res_path e ∈ get_unreadable_roots_with_cwd p cwd) as Hin.
    { unfold get_unreadable_roots_with_cwd, dedup_absolute_paths. rewrite Hk, elem_of_dedup, Hcwd.
      rewrite <- Hreal at 1. apply list_elem_of_fmap_2, list_elem_of_fmap_2. rewrite !elem_of_filterb.
      split; [split; [split; [apply Hms|by apply bool_decide_eq_true]|]|].
      - rewrite Hcr; [done|done|]. by rewrite (most_specific_self _ _ _ Hms).
      - simpl. rewrite absolute_root by by eapply from_absolute_path_abs_norm.
        apply negb_true_iff, bool_decide_eq_false. congruence. }
    unfold is_read_denied. simpl. destruct inv; [done|].
    rewrite (proj2 (existsb_true _ _)); [done|].
    exists (normalized_and_canonical_candidates (res_path e)).
    split; [by apply list_elem_of_fmap_2|]. apply existsb_true. exists t.
    split; [by apply candidates_include_self|]. apply existsb_true. exists (res_path e).
    split; [by apply candidates_include_self|]. apply orb_true_iff. right.
    apply path_starts_with_true, Hms.
  - intros g Hin. specialize (Hg g Hin). destruct (build_glob g) as [m|err].
    + intros t Ht Hm. unfold is_read_denied. simpl. destruct inv; [done|]. case_match; [done|].
      apply existsb_true. exists m. split; [done|]. apply existsb_true. exists t.
      split; [by apply candidates_include_self|done].
    + intros t. unfold is_read_denied. simpl. by rewrite Hg.
  - rewrite <- (build_matchers_return_error build_glob _ [] false). unfold result_bind.
    destruct (build_matchers _ _ _ _ _) as [[? ?]|?]; simpl; split; intros [err Herr]; eauto; done.
Qed.

End deny.

(** A glob library that knows one pattern. *)
Definition env_glob (g : str) : result GlobMatcher str :=
  if str_eqb g (s!"/work/*.env")
  then Ok (fun t => bool_decide (t = p!"/work/a.env")) else Err (s!"unknown pattern").

Definition deny_policy : FileSystemSandboxPolicy :=
  restricted [new_entry (Special Root) Read; new_entry (PathEntry (p!"/secret")) Deny;
              new_entry (GlobPattern (s!"*.env")) Deny].

Lemma deny_policy_wf : wf_policy deny_policy.
Proof. unfold wf_policy, deny_policy. repeat constructor. by exists [s!"secret"]. Defined.

Lemma read_deny_matcher_fails_closed_witness :
  exists m, @new_deny_matcher demo_host env_glob deny_policy (p!"/work") = Some (Some m) /\
    @is_read_denied demo_host m (p!"/secret/key") = true /\
    @is_read_denied demo_host m (p!"/work/a.env") = true.
Proof.
  destruct (read_deny_matcher_fails_closed (H0 := demo_lawful) env_glob
    deny_policy (p!"/work") (p!"/work")) as (m & Hm & Hdeny & Hglob & _);
    [reflexivity|apply deny_policy_wf|reflexivity|].
  exists m. split; [exact Hm|]. split.
  - apply (Hdeny (mkResolved (p!"/secret") Deny) (p!"/secret/key"));
      [|reflexivity|discriminate|reflexivity|by exists [s!"secret"; s!"key"]].
    vm_compute resolved_entries_with_cwd. split; [set_solver|]. split; [by exists (p!"key")|].
    intros e' He' _. rewrite !elem_of_cons in He'. destruct He' as [->|[->|He']]; [vm_compute; auto with lia..|].
    by apply not_elem_of_nil in He'.
  - apply (Hglob (s!"/work/*.env")); [vm_compute; set_solver|by exists [s!"work"; s!"a.env"]|reflexivity].
Defined.
