(* ===== verification/PermissionProfiles.v ===== *)
(** * Permission profiles, grants and patch safety

    [PermissionProfile] and the additional permissions of
    [protocol/src/models.rs], how requests and grants are merged and intersected
    ([sandboxing/src/policy_transforms.rs]), and the check a patch passes before
    it is applied without asking ([core/src/safety.rs]).  File URIs are the
    class [PathUri]; the target operating system, a compile-time constant of the
    code, is an argument. *)

From S2P Require Import Prelude RustStr Paths Permissions SandboxRoots.

(** ** Data ([models.rs]) *)

(** [Option<NonZeroUsize>] from a count. *)
Definition non_zero (n : option N) : option N :=
  match n with Some 0%N => None | _ => n end.

Record FileSystemPermissions := mkFsPermissions {
  perm_entries : list FileSystemSandboxEntry;
  perm_glob_scan_max_depth : option N;
}.

Definition fs_permissions_is_empty (f : FileSystemPermissions) : bool := is_empty (perm_entries f).

Definition default_fs_permissions : FileSystemPermissions := mkFsPermissions [] None.

Definition from_read_write_roots (read write : option (list Path)) : FileSystemPermissions :=
  mkFsPermissions
    (match read with Some r => (fun p => new_entry (PathEntry p) Read) <$> r | None => [] end
     ++ match write with Some w => (fun p => new_entry (PathEntry p) Write) <$> w | None => [] end)
    None.

Record LegacyReadWriteRoots := mkLegacyRoots {
  legacy_read : option (list Path);
  legacy_write : option (list Path);
}.

Fixpoint split_read_write (es : list FileSystemSandboxEntry) (read write : list Path)
    : option (list Path * list Path) :=
  match es with
  | [] => Some (read, write)
  | e :: es' =>
      match entry_path e with
      | PathEntry path =>
          match access e with
          | Read => split_read_write es' (read ++ [path]) write
          | Write => split_read_write es' read (write ++ [path])
          | Deny => None
          end
      | _ => None
      end
  end.

Definition non_empty {A} (l : list A) : option (list A) := if is_empty l then None else Some l.

Definition as_legacy_permissions (f : FileSystemPermissions) : option LegacyReadWriteRoots :=
  match perm_glob_scan_max_depth f with
  | Some _ => None
  | None =>
      '(read, write) ← split_read_write (perm_entries f) [] [];
      Some (mkLegacyRoots (non_empty read) (non_empty write))
  end.

(** [NetworkPermissions], by its one field. *)
Record NetworkPermissions := mkNetPermissions { enabled : option bool }.

Definition net_permissions_is_empty (n : NetworkPermissions) : bool :=
  match enabled n with None => true | Some _ => false end.

Record AdditionalPermissionProfile := mkAdditional {
  add_network : option NetworkPermissions;
  add_file_system : option FileSystemPermissions;
}.

Definition additional_is_empty (a : AdditionalPermissionProfile) : bool :=
  match add_network a, add_file_system a with None, None => true | _, _ => false end.

Inductive SandboxEnforcement := EnforceManaged | EnforceDisabled | EnforceExternal.

Definition enforcement_from_legacy (s : SandboxPolicy) : SandboxEnforcement :=
  match s with
  | DangerFullAccess => EnforceDisabled
  | ExternalSandbox _ => EnforceExternal
  | ReadOnly _ | WorkspaceWrite _ _ _ _ => EnforceManaged
  end.

Inductive ManagedFileSystemPermissions :=
| ManagedRestricted (entries : list FileSystemSandboxEntry) (glob_scan_max_depth : option N)
| ManagedUnrestricted.

(** [None] is the panic of [unreachable!]. *)
Definition managed_from_sandbox_policy (p : FileSystemSandboxPolicy)
    : option ManagedFileSystemPermissions :=
  match kind p with
  | Restricted => Some (ManagedRestricted (entries p) (non_zero (glob_scan_max_depth p)))
  | Unrestricted => Some ManagedUnrestricted
  | ExternalSandboxKind => None
  end.

Definition managed_to_sandbox_policy (m : ManagedFileSystemPermissions) : FileSystemSandboxPolicy :=
  match m with
  | ManagedRestricted entries depth => mkPolicy Restricted depth entries
  | ManagedUnrestricted => unrestricted
  end.

Inductive PermissionProfile :=
| Managed (file_system : ManagedFileSystemPermissions) (network : NetworkSandboxPolicy)
| Disabled
| External (network : NetworkSandboxPolicy).

Definition enforcement (p : PermissionProfile) : SandboxEnforcement :=
  match p with
  | Managed _ _ => EnforceManaged
  | Disabled => EnforceDisabled
  | External _ => EnforceExternal
  end.

Definition file_system_sandbox_policy (p : PermissionProfile) : FileSystemSandboxPolicy :=
  match p with
  | Managed file_system _ => managed_to_sandbox_policy file_system
  | Disabled => unrestricted
  | External _ => external_sandbox
  end.

Definition network_sandbox_policy (p : PermissionProfile) : NetworkSandboxPolicy :=
  match p with
  | Managed _ network | External network => network
  | Disabled => NetEnabled
  end.

Definition to_runtime_permissions (p : PermissionProfile)
    : FileSystemSandboxPolicy * NetworkSandboxPolicy :=
  (file_system_sandbox_policy p, network_sandbox_policy p).

Definition from_runtime_permissions_with_enforcement (enforcement : SandboxEnforcement)
    (p : FileSystemSandboxPolicy) (network : NetworkSandboxPolicy) : option PermissionProfile :=
  match kind p, enforcement with
  | ExternalSandboxKind, _ => Some (External network)
  | Unrestricted, EnforceDisabled => Some Disabled
  | _, _ => file_system ← managed_from_sandbox_policy p; Some (Managed file_system network)
  end.

Definition from_runtime_permissions (p : FileSystemSandboxPolicy) (network : NetworkSandboxPolicy)
    : option PermissionProfile :=
  from_runtime_permissions_with_enforcement
    (match kind p with ExternalSandboxKind => EnforceExternal | _ => EnforceManaged end) p network.

Section host.
Context `{Host}.

Definition workspace_write_with (writable_roots : list Path) (network : NetworkSandboxPolicy)
    (exclude_tmpdir_env_var exclude_slash_tmp : bool) : option PermissionProfile :=
  file_system ← managed_from_sandbox_policy
    (workspace_write writable_roots exclude_tmpdir_env_var exclude_slash_tmp);
  Some (Managed file_system network).

Definition profile_from_legacy_sandbox_policy (s : SandboxPolicy) : option PermissionProfile :=
  from_runtime_permissions_with_enforcement (enforcement_from_legacy s) (from_sandbox_policy s)
    (network_from_sandbox_policy s).

Definition profile_to_legacy_sandbox_policy (p : PermissionProfile) (cwd : Path)
    : result SandboxPolicy LegacyError :=
  match p with
  | Managed file_system network =>
      to_legacy_sandbox_policy (managed_to_sandbox_policy file_system) network cwd
  | Disabled => Ok DangerFullAccess
  | External network =>
      Ok (ExternalSandbox (if net_is_enabled network then NetworkAccessEnabled
                           else NetworkAccessRestricted))
  end.

Definition profile_materialize_project_roots (p : PermissionProfile) (workspace_roots : list Path)
    : option PermissionProfile :=
  match p with
  | Managed file_system network =>
      file_system ← managed_from_sandbox_policy
        (materialize_project_roots_with_workspace_roots
           (managed_to_sandbox_policy file_system) workspace_roots);
      Some (Managed file_system network)
  | Disabled => Some Disabled
  | External network => Some (External network)
  end.

(** ** Merging and intersecting ([policy_transforms.rs]) *)

Inductive NormalizeError := GlobOnlyDeny.

Definition normalize_entry_path (p : FileSystemPath) : FileSystemPath :=
  match p with
  | PathEntry path =>
      PathEntry (match canonicalize_preserving_symlinks path with
                 | Some q => match from_absolute_path q with Some r => r | None => path end
                 | None => path
                 end)
  | _ => p
  end.

Fixpoint normalize_entries (es acc : list FileSystemSandboxEntry)
    : result (list FileSystemSandboxEntry) NormalizeError :=
  match es with
  | [] => Ok acc
  | e :: es' =>
      match entry_path e, is_deny e with
      | GlobPattern _, false => Err GlobOnlyDeny
      | _, _ =>
          normalize_entries es' (push_if_absent acc (with_path e (normalize_entry_path (entry_path e))))
      end
  end.

Definition normalize_additional_permissions (a : AdditionalPermissionProfile)
    : result AdditionalPermissionProfile NormalizeError :=
  let network :=
    match add_network a with
    | Some n => if net_permissions_is_empty n then None else Some n
    | None => None
    end in
  match add_file_system a with
  | Some f =>
      let? es := normalize_entries (perm_entries f) [] in
      let f := mkFsPermissions es (perm_glob_scan_max_depth f) in
      Ok (mkAdditional network (if fs_permissions_is_empty f then None else Some f))
  | None => Ok (mkAdditional network None)
  end.

Inductive GlobScanDepth := Bounded (depth : N) | Unbounded.

Definition effective_glob_scan_depth (es : list FileSystemSandboxEntry) (depth : option N)
    : option GlobScanDepth :=
  if existsb (fun e => is_deny e && match entry_path e with GlobPattern _ => true | _ => false end) es
  then Some (match depth with Some d => Bounded d | None => Unbounded end)
  else None.

Definition merge_glob_scan_max_depth (left_entries : list FileSystemSandboxEntry)
    (left_depth : option N) (right_entries : list FileSystemSandboxEntry) (right_depth : option N)
    : option N :=
  match effective_glob_scan_depth left_entries left_depth,
        effective_glob_scan_depth right_entries right_depth with
  | Some Unbounded, _ | _, Some Unbounded => None
  | Some (Bounded l), Some (Bounded r) => Some (N.max l r)
  | Some (Bounded d), None | None, Some (Bounded d) => Some d
  | None, None => None
  end.

Definition merge_permission_entries (base permissions : list FileSystemSandboxEntry)
    : list FileSystemSandboxEntry := fold_left push_if_absent (base ++ permissions) [].

Definition enables_network (n : option NetworkPermissions) : bool :=
  match n with Some (mkNetPermissions (Some true)) => true | _ => false end.

Definition network_granted : option NetworkPermissions := Some (mkNetPermissions (Some true)).

Definition filter_empty_additional (a : AdditionalPermissionProfile)
    : option AdditionalPermissionProfile := if additional_is_empty a then None else Some a.

Definition merge_permission_profiles (base permissions : option AdditionalPermissionProfile)
    : option AdditionalPermissionProfile :=
  match permissions with
  | None => base
  | Some permissions =>
      match base with
      | Some base =>
          let network :=
            if enables_network (add_network base) || enables_network (add_network permissions)
            then network_granted else None in
          let file_system :=
            match add_file_system base, add_file_system permissions with
            | Some b, Some p =>
                let f := mkFsPermissions
                  (merge_permission_entries (perm_entries b) (perm_entries p))
                  (non_zero (merge_glob_scan_max_depth (perm_entries b)
                     (perm_glob_scan_max_depth b) (perm_entries p) (perm_glob_scan_max_depth p))) in
                if fs_permissions_is_empty f then None else Some f
            | Some b, None => Some b
            | None, Some p => Some p
            | None, None => None
            end in
          filter_empty_additional (mkAdditional network file_system)
      | None => filter_empty_additional permissions
      end
  end.

Definition resolve_permission_path (path : FileSystemPath) (cwd : Path) : option Path :=
  match path with
  | PathEntry p => Some p
  | GlobPattern _ => None
  | Special Root => root ← last (ancestors cwd); from_absolute_path root
  | Special (ProjectRoots subpath) =>
      cwd ← from_absolute_path cwd;
      Some (match subpath with
            | Some subpath => resolve_path_against_base (components subpath) cwd
            | None => cwd
            end)
  | Special Tmpdir =>
      tmpdir ← tmpdir_var;
      if is_empty tmpdir then None else from_absolute_path tmpdir
  | Special SlashTmp => if is_dir slash_tmp then Some slash_tmp else None
  | Special Minimal | Special (Unknown _ _) => None
  end.

Definition access_covers (requested granted : FileSystemAccessMode) : bool :=
  match granted with
  | Read => can_read requested
  | Write => can_write requested
  | Deny => false
  end.

Definition materialize_cwd_dependent_entry (cwd : Path) (e : FileSystemSandboxEntry)
    : FileSystemSandboxEntry :=
  match entry_path e with
  | Special (ProjectRoots _) =>
      match resolve_permission_path (entry_path e) cwd with
      | Some path => with_path e (PathEntry path)
      | None => e
      end
  | GlobPattern pattern =>
      with_path e (GlobPattern
        (to_string_lossy (resolve_path_against_base (components pattern) cwd)))
  | PathEntry _ | Special _ => e
  end.

Definition paths_overlap (left right : Path) : bool :=
  path_starts_with left right || path_starts_with right left.

Definition is_glob_char (c : char) : bool :=
  (c =? 42)%N || (c =? 63)%N || (c =? 91)%N || (c =? 93)%N.

Definition glob_static_prefix_path (pattern : str) (cwd : Path) : option Path :=
  let resolved_pattern := to_string_lossy (resolve_path_against_base (components pattern) cwd) in
  prefix ← match position is_glob_char resolved_pattern with
           | Some O => None
           | Some index =>
               let prefix := take index resolved_pattern in
               if ends_with [slash] prefix || ends_with [92%N] prefix then Some (components prefix)
               else parent (components prefix)
           | None => Some (components resolved_pattern)
           end;
  from_absolute_path prefix.

Definition deny_entry_constrains_accepted_grant (deny_entry : FileSystemSandboxEntry)
    (accepted_entries : list FileSystemSandboxEntry) (cwd : Path) : bool :=
  existsb (fun e =>
    match resolve_permission_path (entry_path e) cwd with
    | None => false
    | Some grant_path =>
        match entry_path deny_entry with
        | GlobPattern pattern =>
            match glob_static_prefix_path pattern cwd with
            | Some prefix => paths_overlap prefix grant_path
            | None => false
            end
        | PathEntry _ | Special _ =>
            match resolve_permission_path (entry_path deny_entry) cwd with
            | Some deny_path => paths_overlap deny_path grant_path
            | None => false
            end
        end
    end) (List.filter (fun e => can_read (access e)) accepted_entries).

(** The deny entries of [source_entries] that bear on an accepted grant. *)
Definition retained_deny_entries (source_entries accepted_entries : list FileSystemSandboxEntry)
    (cwd : Path) : list FileSystemSandboxEntry :=
  materialize_cwd_dependent_entry cwd <$>
    List.filter (fun e => deny_entry_constrains_accepted_grant e accepted_entries cwd)
      (List.filter is_deny source_entries).

(** Returns the retained entries; the second component is the output. *)
Definition retain_constraining_deny_entries
    (source_entries accepted_entries : list FileSystemSandboxEntry) (cwd : Path)
    (output_entries : list FileSystemSandboxEntry)
    : list FileSystemSandboxEntry * list FileSystemSandboxEntry :=
  let retained := retained_deny_entries source_entries accepted_entries cwd in
  (retained, fold_left push_if_absent retained output_entries).

Context (build_glob : str -> result GlobMatcher str).

Definition granted_file_system_entry_within_request (requested : FileSystemPermissions)
    (requested_policy : FileSystemSandboxPolicy) (matcher : option ReadDenyMatcher)
    (cwd : Path) (granted_entry : FileSystemSandboxEntry) : bool :=
  if negb (can_read (access granted_entry)) then false
  else match resolve_permission_path (entry_path granted_entry) cwd with
       | Some path =>
           if match matcher with Some m => is_read_denied m path | None => false end then false
           else access_covers (resolve_access_with_cwd requested_policy path cwd)
                  (access granted_entry)
       | None =>
           existsb (fun requested_entry =>
             access_covers (access requested_entry) (access granted_entry)
             && bool_decide (entry_path requested_entry = entry_path granted_entry))
             (perm_entries requested)
       end.

Definition accepted_entries (requested granted : FileSystemPermissions)
    (requested_policy : FileSystemSandboxPolicy) (matcher : option ReadDenyMatcher) (cwd : Path)
    : list FileSystemSandboxEntry :=
  fold_left push_if_absent
    (materialize_cwd_dependent_entry cwd <$>
       List.filter (granted_file_system_entry_within_request requested requested_policy matcher cwd)
         (perm_entries granted)) [].

(** The file system part; [None] is the panic of [ReadDenyMatcher::new]. *)
Definition intersect_file_system (requested granted : FileSystemPermissions) (cwd : Path)
    : option FileSystemPermissions :=
  let requested_policy := restricted (perm_entries requested) in
  matcher ← new_deny_matcher build_glob requested_policy cwd;
  let accepted := accepted_entries requested granted requested_policy matcher cwd in
  let '(requested_retained, es) :=
    retain_constraining_deny_entries (perm_entries requested) accepted cwd accepted in
  let '(granted_retained, es) :=
    retain_constraining_deny_entries (perm_entries granted) accepted cwd es in
  Some (mkFsPermissions es
    (non_zero (merge_glob_scan_max_depth requested_retained (perm_glob_scan_max_depth requested)
       granted_retained (perm_glob_scan_max_depth granted)))).

Definition intersect_permission_profiles (requested granted : AdditionalPermissionProfile)
    (cwd : Path) : option AdditionalPermissionProfile :=
  file_system ←
    match add_file_system requested with
    | Some requested_file_system =>
        f ← intersect_file_system requested_file_system
              (default default_fs_permissions (add_file_system granted)) cwd;
        Some (if fs_permissions_is_empty f then None else Some f)
    | None => Some None
    end;
  Some (mkAdditional
    (if enables_network (add_network requested) && enables_network (add_network granted)
     then network_granted else None) file_system).

End host.

(** ** Effective permissions *)

Definition merge_file_system_policy_with_additional_permissions (p : FileSystemSandboxPolicy)
    (a : FileSystemPermissions) : FileSystemSandboxPolicy :=
  match kind p with
  | Restricted =>
      mkPolicy Restricted
        (merge_glob_scan_max_depth (entries p) (glob_scan_max_depth p) (perm_entries a)
           (perm_glob_scan_max_depth a))
        (fold_left push_if_absent (perm_entries a) (entries p))
  | Unrestricted | ExternalSandboxKind => p
  end.

Definition effective_file_system_sandbox_policy (p : FileSystemSandboxPolicy)
    (additional : option AdditionalPermissionProfile) : FileSystemSandboxPolicy :=
  match additional with
  | None => p
  | Some a =>
      match add_file_system a with
      | None => p
      | Some f =>
          if fs_permissions_is_empty f then p
          else merge_file_system_policy_with_additional_permissions p f
      end
  end.

Definition merge_network_access (base_network_access : bool) (a : AdditionalPermissionProfile)
    : bool :=
  base_network_access
  || default false (n ← add_network a; enabled n).

Definition effective_network_sandbox_policy (network : NetworkSandboxPolicy)
    (additional : option AdditionalPermissionProfile) : NetworkSandboxPolicy :=
  match additional with
  | Some a => if merge_network_access (net_is_enabled network) a then NetEnabled else NetRestricted
  | None => network
  end.

Definition effective_permission_profile (p : PermissionProfile)
    (additional : option AdditionalPermissionProfile) : option PermissionProfile :=
  let '(file_system_policy, network_policy) := to_runtime_permissions p in
  from_runtime_permissions_with_enforcement (enforcement p)
    (effective_file_system_sandbox_policy file_system_policy additional)
    (effective_network_sandbox_policy network_policy additional).

Definition should_require_platform_sandbox (p : FileSystemSandboxPolicy)
    (network : NetworkSandboxPolicy) (has_managed_network_requirements : bool) : bool :=
  if has_managed_network_requirements then true
  else if negb (net_is_enabled network) then
    match kind p with ExternalSandboxKind => false | _ => true end
  else match kind p with
       | Restricted => negb (has_full_disk_write_access p)
       | Unrestricted | ExternalSandboxKind => false
       end.

(** ** Patches ([safety.rs]) *)

Inductive SafetyCheck := AutoApprove | AskUser | Reject (reason : str).

Record GranularApprovalConfig := mkGranular {
  sandbox_approval : bool;
  rules : bool;
  skill_approval : bool;
  request_permissions : bool;
  mcp_elicitations : bool;
}.

Inductive AskForApproval :=
| UnlessTrusted
| OnRequest
| Granular (config : GranularApprovalConfig)
| Never.

Inductive WindowsSandboxLevel := WinDisabled | RestrictedToken | Elevated.

Inductive SandboxType := MacosSeatbelt | LinuxSeccomp | WindowsRestrictedToken.

(** [cfg!(target_os = ...)]. *)
Inductive TargetOs := Macos | Linux | Windows | OtherOs.

Definition get_platform_sandbox (os : TargetOs) (windows_sandbox_enabled : bool)
    : option SandboxType :=
  match os with
  | Macos => Some MacosSeatbelt
  | Linux => Some LinuxSeccomp
  | Windows => if windows_sandbox_enabled then Some WindowsRestrictedToken else None
  | OtherOs => None
  end.

(** [PathUri::to_abs_path]: the host path of a file URI, an [AbsolutePathBuf],
    if it is one of this host. *)
Class PathUri (uri : Type) := { to_abs_path : uri -> option Path }.

Class LawfulPathUri (uri : Type) `{PathUri uri} : Prop := {
  to_abs_path_abs_norm : forall u p, to_abs_path u = Some p -> abs_norm p
}.

Inductive ApplyPatchFileChange (uri : Type) :=
| PatchAdd (content : str)
| PatchDelete (content : str)
| PatchUpdate (unified_diff : str) (move_path : option uri) (new_content : str).
Arguments PatchAdd {uri} content.
Arguments PatchDelete {uri} content.
Arguments PatchUpdate {uri} unified_diff move_path new_content.

(** The changes of an [ApplyPatchAction]. *)
Abbreviation PatchChanges uri := (list (uri * ApplyPatchFileChange uri)).

Definition PATCH_REJECTED_OUTSIDE_PROJECT_REASON : str :=
  s!"writing outside of the project; rejected by user approval settings".
Definition PATCH_REJECTED_READ_ONLY_REASON : str :=
  s!"writing is blocked by read-only sandbox; rejected by user approval settings".

Section safety.
Context `{Host} {uri : Type} `{PathUri uri}.

(** [normalize] of the patch check. *)
Definition normalize_lexically (p : Path) : Path := fold_left normalize_step p [].

Definition uri_writable (p : FileSystemSandboxPolicy) (native_cwd : Path) (u : uri) : bool :=
  match to_abs_path u with
  | None => false
  | Some path => can_write_path_with_cwd p (normalize_lexically path) native_cwd
  end.

Definition change_writable (p : FileSystemSandboxPolicy) (native_cwd : Path)
    (c : uri * ApplyPatchFileChange uri) : bool :=
  match c.2 with
  | PatchAdd _ | PatchDelete _ => uri_writable p native_cwd c.1
  | PatchUpdate _ move_path _ =>
      uri_writable p native_cwd c.1
      && match move_path with Some dest => uri_writable p native_cwd dest | None => true end
  end.

Definition is_write_patch_constrained_to_writable_paths (changes : PatchChanges uri)
    (p : FileSystemSandboxPolicy) (cwd : uri) : bool :=
  if has_full_disk_write_access p then true
  else match to_abs_path cwd with
       | None => false
       | Some native_cwd => forallb (change_writable p native_cwd) changes
       end.

Definition patch_rejection_reason (profile : PermissionProfile) (p : FileSystemSandboxPolicy)
    (cwd : uri) : str :=
  let has_no_writable_roots :=
    match to_abs_path cwd with
    | Some cwd => is_empty (get_writable_roots_with_cwd p cwd)
    | None => false
    end in
  match profile with
  | Managed _ _ =>
      if negb (has_full_disk_write_access p) && has_no_writable_roots
      then PATCH_REJECTED_READ_ONLY_REASON else PATCH_REJECTED_OUTSIDE_PROJECT_REASON
  | Disabled | External _ => PATCH_REJECTED_OUTSIDE_PROJECT_REASON
  end.

Definition rejects_sandbox_approval (policy : AskForApproval) : bool :=
  match policy with
  | Never => true
  | Granular config => negb (sandbox_approval config)
  | UnlessTrusted | OnRequest => false
  end.

Definition assess_patch_safety (os : TargetOs) (changes : PatchChanges uri)
    (policy : AskForApproval) (profile : PermissionProfile) (p : FileSystemSandboxPolicy)
    (cwd : uri) (windows_sandbox_level : WindowsSandboxLevel) : SafetyCheck :=
  if is_empty changes then Reject s!"empty patch"
  else match policy with
       | UnlessTrusted => AskUser
       | Never | OnRequest | Granular _ =>
           if is_write_patch_constrained_to_writable_paths changes p cwd then
             match profile with
             | Disabled | External _ => AutoApprove
             | Managed _ _ =>
                 match get_platform_sandbox os
                         (match windows_sandbox_level with WinDisabled => false | _ => true end) with
                 | Some _ => AutoApprove
                 | None =>
                     if rejects_sandbox_approval policy
                     then Reject (patch_rejection_reason profile p cwd) else AskUser
                 end
             end
           else if rejects_sandbox_approval policy
           then Reject (patch_rejection_reason profile p cwd) else AskUser
       end.

End safety.
