(* ===== verification/PermissionProfilesFacts.v ===== *)
(** * Theorems on permission profiles, grants and patch safety *)

From S2P Require Import Prelude RustStr Paths Permissions PermissionsFacts PermissionsLaws.
From S2P Require Import SandboxRoots SandboxRootsFacts PermissionProfiles.

(** ** Intersection of a request with a grant *)

Section intersect.
Context `{LawfulHost} (build_glob : str -> result GlobMatcher str).
Context (cwd : Path) (Hcwd : abs_norm cwd).

Lemma cwd_resolves : from_absolute_path cwd = Some cwd.
Proof using Hcwd. by apply from_absolute_path_id. Qed.

Lemma resolve_permission_entry path :
  resolve_permission_path path cwd = resolve_entry_path path (Some cwd).
Proof using Hcwd.
  destruct path as [p|g|[| |[sub|]| | |]]; simpl; rewrite ?cwd_resolves; try done.
  rewrite absolute_root by done. destruct Hcwd as [names ->]. unfold ancestors.
  rewrite ancestors_fuel_last by (simpl; rewrite length_fmap; lia).
  apply from_absolute_path_id, abs_norm_root.
Qed.

Lemma materialize_resolves en :
  resolve_entry_path (entry_path (materialize_cwd_dependent_entry cwd en)) (Some cwd) =
  resolve_entry_path (entry_path en) (Some cwd).
Proof using Hcwd.
  unfold materialize_cwd_dependent_entry.
  destruct (entry_path en) as [p|g|[| |sub| | |]] eqn:Ep; simpl; rewrite ?Ep, ?cwd_resolves; done.
Qed.

Lemma materialize_access en : access (materialize_cwd_dependent_entry cwd en) = access en.
Proof using Type.
  unfold materialize_cwd_dependent_entry.
  destruct (entry_path en) as [p|g|[| |sub| | |]]; try done. by case_match.
Qed.

(** Entries as they resolve in the restricted policy that holds them. *)
Abbreviation resolved es := (resolved_entries_with_cwd (restricted es) cwd).

Lemma elem_of_resolved_restricted es r :
  r ∈ resolved es <->
  exists en, en ∈ es /\ resolve_entry_path (entry_path en) (Some cwd) = Some (res_path r)
    /\ access en = res_access r.
Proof using Hcwd. rewrite elem_of_resolved, cwd_resolves. done. Qed.

Lemma retained_deny source accepted r g gp :
  r ∈ resolved source -> res_access r = Deny ->
  g ∈ accepted -> can_read (access g) = true ->
  resolve_entry_path (entry_path g) (Some cwd) = Some gp ->
  res_path r `prefix_of` gp \/ gp `prefix_of` res_path r ->
  r ∈ resolved (retained_deny_entries source accepted cwd).
Proof using Hcwd.
  intros (en & Hen & Hp & Ha)%elem_of_resolved_restricted Hd Hg Hgr Hgp Hov.
  apply elem_of_resolved_restricted. exists (materialize_cwd_dependent_entry cwd en).
  rewrite materialize_resolves, materialize_access. split; [|done].
  apply list_elem_of_fmap_2. rewrite !elem_of_filterb. split; [split; [done|]|].
  { unfold is_deny. rewrite bool_decide_eq_true. congruence. }
  apply existsb_true. exists g. rewrite elem_of_filterb. split; [done|].
  rewrite !resolve_permission_entry, Hgp, Hp.
  assert (paths_overlap (res_path r) gp = true) as ->.
  { unfold paths_overlap. rewrite orb_true_iff, !path_starts_with_true. naive_solver. }
  by destruct (entry_path en).
Qed.

Lemma intersect_file_system_total requested granted :
  exists f, intersect_file_system build_glob requested granted cwd = Some f.
Proof using All.
  unfold intersect_file_system, new_deny_matcher, build_deny_matcher.
  destruct (negb _); simpl; [by eexists|].
  destruct (build_matchers_fail_closed build_glob
    (get_unreadable_globs_with_cwd (restricted (perm_entries requested)) cwd) [] false)
    as (ms & inv & -> & _). by eexists.
Qed.

Lemma intersect_entries requested granted f :
  intersect_file_system build_glob requested granted cwd = Some f ->
  exists matcher,
    let accepted := accepted_entries requested granted (restricted (perm_entries requested)) matcher cwd in
    forall en, en ∈ perm_entries f <->
      en ∈ accepted \/ en ∈ retained_deny_entries (perm_entries requested) accepted cwd \/
      en ∈ retained_deny_entries (perm_entries granted) accepted cwd.
Proof using Type.
  unfold intersect_file_system. destruct (new_deny_matcher _ _ _) as [matcher|]; simpl; [|done].
  intros [= <-]. exists matcher. simpl. intros en. rewrite !push_all_elem. tauto.
Qed.

Lemma elem_of_accepted requested granted p matcher en :
  en ∈ accepted_entries requested granted p matcher cwd <->
  exists g, g ∈ perm_entries granted /\ en = materialize_cwd_dependent_entry cwd g /\
    granted_file_system_entry_within_request requested p matcher cwd g = true.
Proof using Type.
  unfold accepted_entries. rewrite push_all_elem, list_elem_of_fmap.
  setoid_rewrite elem_of_filterb. split.
  - intros [?%not_elem_of_nil|(g & -> & Hg & Hw)]; [done|]. eauto.
  - intros (g & Hg & -> & Hw). right. eauto.
Qed.

Lemma within_request_readable requested matcher g gp :
  granted_file_system_entry_within_request requested
    (restricted (perm_entries requested)) matcher cwd g = true ->
  resolve_entry_path (entry_path g) (Some cwd) = Some gp -> abs_norm gp ->
  can_read (access g) = true /\ decided (resolved (perm_entries requested)) gp <> Deny.
Proof using Hcwd.
  unfold granted_file_system_entry_within_request. intros Hw Hgp Hn.
  destruct (can_read (access g)) eqn:Ha; [|done]. split; [done|]. simpl in Hw.
  rewrite resolve_permission_entry, Hgp in Hw.
  destruct (match matcher with Some _ => _ | None => _ end); [done|].
  rewrite (resolve_access_decided cwd _ gp gp) in Hw by eauto using candidate_id, cwd_resolves.
  intros Hd. rewrite Hd in Hw. by destruct (access g).
Qed.

(** Reading under the intersection needs a grant entry that the request
    covers, and no deny entry of either side closer to the path. *)
Lemma intersect_read_bounded requested granted f q :
  Forall wf_entry (perm_entries granted) ->
  intersect_file_system build_glob requested granted cwd = Some f ->
  can_read_path_with_cwd (restricted (perm_entries f)) q cwd = true ->
  can_read_path_with_cwd (restricted (perm_entries requested)) q cwd = true /\
  can_read_path_with_cwd (restricted (perm_entries granted)) q cwd = true.
Proof using All.
  intros Hwf Hf Hq. destruct (candidate_Some cwd cwd cwd_resolves q) as (t & Ht & Htn).
  unfold can_read_path_with_cwd in *.
  rewrite !(resolve_access_decided cwd _ q t) in * by done.
  destruct (intersect_entries _ _ _ Hf) as (matcher & Hes). clear Hf. simpl in Hes.
  set (accepted := accepted_entries _ _ _ _ _) in Hes.
  destruct (decided_most_specific (resolved (perm_entries f)) t) as (e & (HeR & Hep & Hmax) & Hea);
    [by destruct (decided _ t)|].
  apply elem_of_resolved_restricted in HeR as (en & Hen & Hresolve & Hacc).
  assert (res_access e <> Deny) as Hnd by (intros E; rewrite <- Hea, E in Hq; done).
  assert (forall src, en ∉ retained_deny_entries src accepted cwd) as Hnret.
  { intros src (en' & -> & [[_ Hden]%elem_of_filterb _]%elem_of_filterb)%list_elem_of_fmap.
    apply bool_decide_eq_true in Hden. rewrite materialize_access in Hacc. congruence. }
  apply Hes in Hen as [Hen|[Hen|Hen]]; [|by apply Hnret in Hen..].
  assert (forall src r, src = perm_entries requested \/ src = perm_entries granted ->
    r ∈ resolved src -> res_access r = Deny -> res_path r `prefix_of` t ->
    length (res_path r) < length (res_path e)) as Hclose.
  { intros src r Hsrc Hr Hrd Hrt.
    assert (r ∈ resolved (perm_entries f)) as HrR.
    { assert (r ∈ resolved (retained_deny_entries src accepted cwd)) as Hret.
      { eapply retained_deny; [done..| |done|].
        - rewrite Hacc. by destruct (res_access e).
        - destruct (decide (length (res_path r) <= length (res_path e))) as [|].
          + left. by eapply prefix_length_le.
          + right. eapply prefix_length_le; [done..|]. lia. }
      apply elem_of_resolved_restricted in Hret as (en' & Hen' & Hx).
      apply elem_of_resolved_restricted. exists en'. split; [|done]. apply Hes.
      destruct Hsrc as [-> | ->]; auto. }
    destruct (Hmax r HrR Hrt) as [?|[_ Hrk]]; [done|].
    rewrite Hrd in Hrk. destruct (res_access e); simpl in Hrk; [lia..|done]. }
  apply elem_of_accepted in Hen as (g & Hg & -> & Hw).
  rewrite materialize_resolves in Hresolve. rewrite materialize_access in Hacc.
  assert (abs_norm (res_path e)) as Hen.
  { rewrite Forall_forall in Hwf. by eapply (resolve_entry_path_abs_norm cwd cwd cwd_resolves g); auto. }
  destruct (within_request_readable _ _ _ _ Hw Hresolve Hen) as [_ Hreq].
  split.
  - destruct (decided (resolved (perm_entries requested)) t) eqn:Hdt; [done..|exfalso].
    destruct (decided_most_specific _ _ Hreq) as (e1 & (He1 & Hp1 & _) & _).
    destruct (decided_covered _ t e1 He1) as (e2 & (He2 & Hp2 & Hmax2) & Ha2); [by etrans|].
    rewrite Hdt in Ha2. specialize (Hclose _ e2 (or_introl eq_refl) He2 Ha2 Hp2).
    apply Hreq. rewrite (covering_between _ _ t), Hdt; [done..|].
    intros e' He' Hp'. destruct (Hmax2 e' He' Hp') as [?|[-> _]]; lia.
  - destruct (decided (resolved (perm_entries granted)) t) eqn:Hdt; [done..|exfalso].
    assert (mkResolved (res_path e) (access g) ∈ resolved (perm_entries granted)) as HgR.
    { apply elem_of_resolved_restricted. exists g. done. }
    destruct (decided_covered _ t _ HgR) as (e2 & (He2 & Hp2 & Hmax2) & Ha2); [done|].
    rewrite Hdt in Ha2. specialize (Hclose _ e2 (or_intror eq_refl) He2 Ha2 Hp2).
    destruct (Hmax2 _ HgR Hep) as [?|[E _]]; simpl in *; [lia|]. rewrite E in Hclose. lia.
Qed.

(** What is read under the intersection is read by an accepted grant entry. *)
Lemma read_by_accepted requested granted f q t :
  intersect_file_system build_glob requested granted cwd = Some f ->
  resolve_candidate_path q cwd = Some t ->
  can_read_path_with_cwd (restricted (perm_entries f)) q cwd = true ->
  exists accepted en gp,
    (forall src, src = perm_entries requested \/ src = perm_entries granted ->
       forall x, x ∈ retained_deny_entries src accepted cwd -> x ∈ perm_entries f) /\
    en ∈ accepted /\ can_read (access en) = true /\
    resolve_entry_path (entry_path en) (Some cwd) = Some gp /\ gp `prefix_of` t.
Proof using All.
  intros Hf Ht. unfold can_read_path_with_cwd. rewrite (resolve_access_decided cwd _ q t) by done. intros Hq.
  destruct (intersect_entries _ _ _ Hf) as (matcher & Hes). simpl in Hes.
  set (accepted := accepted_entries _ _ _ _ _) in Hes.
  destruct (decided_most_specific (resolved (perm_entries f)) t) as (e & (HeR & Hep & _) & Hea);
    [by destruct (decided _ t)|].
  apply elem_of_resolved_restricted in HeR as (en & Hen & Hresolve & Hacc). rewrite <- Hea, <- Hacc in Hq.
  exists accepted, en, (res_path e). split_and!; try done.
  - intros src [->| ->] x Hx; apply Hes; auto.
  - assert (forall src, en ∉ retained_deny_entries src accepted cwd) as Hnret.
    { intros src (en' & -> & [[_ Hden]%elem_of_filterb _]%elem_of_filterb)%list_elem_of_fmap.
      apply bool_decide_eq_true in Hden. rewrite materialize_access, Hden in Hq. done. }
    apply Hes in Hen as [Hen|[Hen|Hen]]; [done|by apply Hnret in Hen..].
Qed.

(** The text of a glob as it is compiled. *)
Definition glob_text (pattern : str) : str :=
  to_string_lossy (resolve_path_against_base (components pattern) cwd).

(** A pattern that only matches paths below the text before its first wildcard. *)
Definition below_static_prefix (pattern : str) : Prop :=
  forall m t, build_glob (glob_text pattern) = Ok m -> m t = true ->
    exists prefix, glob_static_prefix_path pattern cwd = Some prefix /\ prefix `prefix_of` t.

(** Such a deny glob is kept if it matches something that may be read. *)
Lemma intersect_keeps_glob requested granted f src en pattern m q :
  intersect_file_system build_glob requested granted cwd = Some f ->
  src = perm_entries requested \/ src = perm_entries granted ->
  en ∈ src -> access en = Deny -> entry_path en = GlobPattern pattern -> below_static_prefix pattern ->
  build_glob (glob_text pattern) = Ok m -> abs_norm q -> m q = true ->
  can_read_path_with_cwd (restricted (perm_entries f)) q cwd = true ->
  with_path en (GlobPattern (glob_text pattern)) ∈ perm_entries f.
Proof using All.
  intros Hf Hsrc Hen Ha He Hb Hm Hqn Hmq Hq.
  destruct (read_by_accepted _ _ _ q q Hf) as (accepted & g & gp & Hret & Hg & Hgr & Hgp & Hpre);
    [apply (candidate_id cwd cwd cwd_resolves q Hqn)|done|].
  destruct (Hb m q Hm Hmq) as (prefix & Hp & Hpq). apply (Hret src Hsrc).
  assert (materialize_cwd_dependent_entry cwd en = with_path en (GlobPattern (glob_text pattern))) as <-.
  { unfold materialize_cwd_dependent_entry. by rewrite He. }
  apply list_elem_of_fmap_2. rewrite !elem_of_filterb.
  split; [split; [done|by apply bool_decide_eq_true]|]. apply existsb_true. exists g. rewrite elem_of_filterb.
  split; [done|]. rewrite resolve_permission_entry, Hgp, He, Hp. unfold paths_overlap.
  rewrite orb_true_iff, !path_starts_with_true. destruct (decide (length prefix <= length gp)).
  - right. by eapply prefix_length_le.
  - left. eapply prefix_length_le; [done..|lia].
Qed.

(** C21: Intersecting a permission request with a grant never panics and never
    lets a path be read that the path entries of the request or of the grant
    would not let be read.  A deny glob of either side that matches a path the
    result's entries let be read is carried over to the result, with its pattern
    made absolute, if it matches nothing outside its literal prefix; the code takes that
    prefix to end at the first wildcard character and does not count braces among
    them, so a deny glob with alternatives before its first wildcard may be lost.
    Network access needs both sides. *)
Theorem intersection_within_request_and_grant requested granted :
  (forall f, add_file_system granted = Some f -> Forall wf_entry (perm_entries f)) ->
  exists r, intersect_permission_profiles build_glob requested granted cwd = Some r /\
    (forall f, add_file_system r = Some f ->
       exists freq, add_file_system requested = Some freq /\
       let fgrant := default default_fs_permissions (add_file_system granted) in
       (forall q, can_read_path_with_cwd (restricted (perm_entries f)) q cwd = true ->
         can_read_path_with_cwd (restricted (perm_entries freq)) q cwd = true /\
         can_read_path_with_cwd (restricted (perm_entries fgrant)) q cwd = true) /\
       (forall q en pattern m, can_read_path_with_cwd (restricted (perm_entries f)) q cwd = true -> abs_norm q ->
         en ∈ perm_entries freq \/ en ∈ perm_entries fgrant -> access en = Deny ->
         entry_path en = GlobPattern pattern -> below_static_prefix pattern ->
         build_glob (glob_text pattern) = Ok m -> m q = true ->
         with_path en (GlobPattern (glob_text pattern)) ∈ perm_entries f)) /\
    (enables_network (add_network r) = true <->
     enables_network (add_network requested) = true /\ enables_network (add_network granted) = true).
Proof using All.
  intros Hwf. unfold intersect_permission_profiles.
  set (gf := default default_fs_permissions (add_file_system granted)).
  assert (Forall wf_entry (perm_entries gf)) as Hgf.
  { unfold gf. destruct (add_file_system granted); simpl; [auto|constructor]. }
  assert (forall n b1 b2, n = (if b1 && b2 then network_granted else None) ->
    enables_network n = true <-> b1 = true /\ b2 = true) as Hnet.
  { intros n [] [] ->; naive_solver. }
  destruct (add_file_system requested) as [freq|]; simpl.
  - destruct (intersect_file_system_total freq gf) as [f Hf]. rewrite Hf. simpl.
    eexists. split; [done|]. simpl. split; [|by apply Hnet].
    intros f' Hf'. destruct (fs_permissions_is_empty f); simplify_eq.
    eexists. split; [done|]. split; [intros q; by apply intersect_read_bounded|].
    intros q en pattern m Hq Hqn [Hen|Hen] Ha He Hb Hm Hmq;
      [apply (intersect_keeps_glob freq gf f' (perm_entries freq) en pattern m q)
      |apply (intersect_keeps_glob freq gf f' (perm_entries gf) en pattern m q)]; auto.
  - eexists. split; [done|]. simpl. split; [done|by apply Hnet].
Qed.

End intersect.

Definition demo_requested : FileSystemPermissions :=
  mkFsPermissions [new_entry (PathEntry (p!"/a")) Write; new_entry (PathEntry (p!"/a/b")) Read] None.
Definition demo_granted : FileSystemPermissions :=
  mkFsPermissions [new_entry (PathEntry (p!"/a")) Write] None.

Definition glob_requested : FileSystemPermissions :=
  mkFsPermissions [new_entry (PathEntry (p!"/work")) Write; new_entry (GlobPattern (s!"*.env")) Deny] None.
Definition glob_granted : FileSystemPermissions :=
  mkFsPermissions [new_entry (PathEntry (p!"/work")) Read] None.

Lemma env_glob_below : @below_static_prefix demo_host env_glob (p!"/work") (s!"*.env").
Proof.
  intros m t [= <-] Ht. apply bool_decide_eq_true in Ht as ->. exists (p!"/work").
  split; [vm_compute; reflexivity|by exists (p!"a.env")].
Defined.

Lemma intersection_within_request_and_grant_witness :
  exists f, @intersect_permission_profiles demo_host env_glob
      (mkAdditional None (Some glob_requested)) (mkAdditional None (Some glob_granted)) (p!"/work") =
    Some (mkAdditional None (Some f)) /\
  @can_read_path_with_cwd demo_host (restricted (perm_entries f)) (p!"/work/a.env") (p!"/work") = true /\
  new_entry (GlobPattern (s!"/work/*.env")) Deny ∈ perm_entries f.
Proof.
  destruct (intersection_within_request_and_grant (H0 := demo_lawful) env_glob
    (p!"/work") (ex_intro _ [s!"work"] eq_refl)
    (mkAdditional None (Some glob_requested)) (mkAdditional None (Some glob_granted))) as (r & Hr & Hf & _).
  - intros f [= <-]. repeat constructor. by exists [s!"work"].
  - vm_compute in Hr. injection Hr as <-. eexists. split; [vm_compute; reflexivity|]. split; [vm_compute; reflexivity|].
    destruct (Hf _ eq_refl) as (freq & [= <-] & _ & Hg).
    eapply (Hg (p!"/work/a.env") (new_entry (GlobPattern (s!"*.env")) Deny) (s!"*.env"));
      [vm_compute; reflexivity|by exists [s!"work"; s!"a.env"]|left; right; by left|reflexivity|reflexivity
      |exact env_glob_below|reflexivity|reflexivity].
Defined.

(** A deny glob with alternatives is lost: its literal prefix is taken to be
    [/a/{b,c}], which has nothing in common with the grant for [/a/b], where the
    glob matches. *)
Definition brace_requested : FileSystemPermissions :=
  mkFsPermissions [new_entry (PathEntry (p!"/a")) Read; new_entry (GlobPattern (s!"/a/{b,c}/*.env")) Deny] None.
Definition brace_granted : FileSystemPermissions :=
  mkFsPermissions [new_entry (PathEntry (p!"/a/b")) Read] None.
Definition brace_glob (g : str) : result GlobMatcher str :=
  Ok (fun t => str_eqb g (s!"/a/{b,c}/*.env") && bool_decide (t ∈ [p!"/a/b/x.env"; p!"/a/c/x.env"])).

Example intersection_loses_brace_glob :
  exists f m, @intersect_file_system demo_host brace_glob brace_requested brace_granted (p!"/work") = Some f /\
    @get_unreadable_globs_with_cwd demo_host (restricted (perm_entries f)) (p!"/work") = [] /\
    @can_read_path_with_cwd demo_host (restricted (perm_entries f)) (p!"/a/b/x.env") (p!"/work") = true /\
    @new_deny_matcher demo_host brace_glob (restricted (perm_entries brace_requested)) (p!"/work") = Some (Some m) /\
    @is_read_denied demo_host m (p!"/a/b/x.env") = true.
Proof. do 2 eexists. repeat (split; [vm_compute; reflexivity|]). vm_compute. reflexivity. Qed.

(** A read-only subdirectory of the request is not carried over: the
    intersection with a grant for the parent lets it be written. *)
Lemma intersection_drops_read_only_subpath :
  exists f, @intersect_file_system demo_host (fun _ => Ok (fun _ => false)) demo_requested demo_granted
      (p!"/work") = Some f /\
    @can_write_path_with_cwd demo_host (restricted (perm_entries f)) (p!"/a/b/x") (p!"/work") = true /\
    @can_write_path_with_cwd demo_host (restricted (perm_entries demo_requested)) (p!"/a/b/x") (p!"/work")
    = false.
Proof. eexists. split; [reflexivity|]. split; reflexivity. Qed.

(** ** Profiles *)

(** The depth of a profile is a non-zero count. *)
Definition wf_profile (p : PermissionProfile) : Prop :=
  match p with Managed (ManagedRestricted _ (Some 0%N)) _ => False | _ => True end.

Lemma profile_roundtrip p :
  wf_profile p ->
  from_runtime_permissions_with_enforcement (enforcement p)
    (file_system_sandbox_policy p) (network_sandbox_policy p) = Some p.
Proof. by destruct p as [[es [[|d]|]|] n| |n]. Qed.

(** The effective profile of a command always exists, keeps who enforces
    the sandbox, keeps every entry of the base policy and adds only entries of
    the additional permissions, and widens the network only where they enable
    it; without additional permissions it is the profile itself. *)
Theorem effective_profile_extends p additional :
  exists p', effective_permission_profile p additional = Some p' /\
    enforcement p' = enforcement p /\
    kind (file_system_sandbox_policy p') = kind (file_system_sandbox_policy p) /\
    (forall en, en ∈ entries (file_system_sandbox_policy p) ->
       en ∈ entries (file_system_sandbox_policy p')) /\
    (forall en, en ∈ entries (file_system_sandbox_policy p') ->
       en ∈ entries (file_system_sandbox_policy p) \/
       exists a f, additional = Some a /\ add_file_system a = Some f /\ en ∈ perm_entries f) /\
    (p <> Disabled ->
     net_is_enabled (network_sandbox_policy p') = true <->
     net_is_enabled (network_sandbox_policy p) = true \/
     exists a, additional = Some a /\ enables_network (add_network a) = true) /\
    (additional = None -> wf_profile p -> p' = p).
Proof.
  assert (forall n, net_is_enabled (effective_network_sandbox_policy n additional) = true <->
    net_is_enabled n = true \/ exists a, additional = Some a /\ enables_network (add_network a) = true)
    as Hnet.
  { intros n. unfold effective_network_sandbox_policy, merge_network_access.
    destruct additional as [[[[[[]|]]|] f]|], n; simpl; naive_solver. }
  assert (effective_file_system_sandbox_policy unrestricted additional = unrestricted /\
    effective_file_system_sandbox_policy external_sandbox additional = external_sandbox) as [Hu He].
  { unfold effective_file_system_sandbox_policy. split; by repeat case_match. }
  unfold effective_permission_profile, to_runtime_permissions.
  destruct p as [[es d|] n| |n]; simpl.
  - assert (exists d' es', effective_file_system_sandbox_policy (mkPolicy Restricted d es) additional =
        mkPolicy Restricted d' es' /\ (additional = None -> d' = d /\ es' = es) /\
        forall en, en ∈ es' <-> en ∈ es \/
          exists a f, additional = Some a /\ add_file_system a = Some f /\ en ∈ perm_entries f)
      as (d' & es' & -> & Hnone & Hes').
    { unfold effective_file_system_sandbox_policy.
      destruct additional as [[nn [f|]]|]; simpl; [|eexists _, _; split; [done|]; naive_solver..].
      unfold fs_permissions_is_empty. destruct (is_empty (perm_entries f)) eqn:Ef.
      - apply is_empty_true in Ef. eexists _, _. split; [done|]. split; [done|].
        intros en. split; [auto|]. intros [?|(a & f' & [= <-] & [= <-] & Hf)]; [done|].
        rewrite Ef in Hf. by apply not_elem_of_nil in Hf.
      - unfold merge_file_system_policy_with_additional_permissions. simpl.
        eexists _, _. split; [done|]. split; [done|]. intros en. rewrite push_all_elem. naive_solver. }
    eexists. split; [reflexivity|]. simpl. split; [done|]. split; [done|].
    split; [intros; apply Hes'; auto|]. split; [intros en; apply Hes'|]. split; [done|].
    intros Hn Hd. destruct (Hnone Hn) as [-> ->]. rewrite Hn. simpl. by destruct d as [[|]|].
  - rewrite Hu. eexists. split; [reflexivity|]. simpl. split; [done|]. split; [done|]. split; [done|].
    split; [auto|]. split; [done|]. by intros -> _.
  - rewrite Hu. eexists. split; [reflexivity|]. simpl. split; [done|]. split; [done|]. split; [done|].
    split; [auto|]. split; [done|]. done.
  - rewrite He. eexists. split; [reflexivity|]. simpl. split; [done|]. split; [done|]. split; [done|].
    split; [auto|]. split; [done|]. by intros -> _.
Qed.

(** ** Patches *)

Section safety.
Context `{LawfulHost} {uri : Type} `{LawfulPathUri uri}.

(** The files a change writes. *)
Definition change_targets (c : uri * ApplyPatchFileChange uri) : list uri :=
  c.1 :: match c.2 with PatchUpdate _ (Some dest) _ => [dest] | _ => [] end.

Lemma normalize_lexically_id p : abs_norm p -> normalize_lexically p = p.
Proof.
  intros Hp. pose proof (normalize_path_id p Hp) as Hn. unfold normalize_path in Hn.
  unfold normalize_lexically. destruct (fold_left normalize_step p []); [|done].
  subst p. by destruct Hp.
Qed.

Lemma uri_writable_true p cwd u :
  uri_writable p cwd u = true <->
  exists t, to_abs_path u = Some t /\ can_write_path_with_cwd p t cwd = true.
Proof.
  unfold uri_writable. destruct (to_abs_path u) as [t|] eqn:E; [|naive_solver].
  rewrite normalize_lexically_id by by eapply to_abs_path_abs_norm. naive_solver.
Qed.

Lemma change_writable_true p cwd c :
  change_writable p cwd c = true -> Forall (fun u => uri_writable p cwd u = true) (change_targets c).
Proof.
  unfold change_writable, change_targets. destruct c as [u [| |d [dest|] n]]; simpl;
    rewrite ?andb_true_iff; intros; destruct_and?; by repeat constructor.
Qed.

(** C22: A patch is applied without asking only if it changes something, the
    user's approval policy allows it, a sandbox will contain it (or none is
    wanted), and the file system policy reports full-disk write access or lets
    every file that the patch writes, moves included, be written.  A reported
    full-disk access lets every file be written too if the policy's paths are
    absolute and [/tmp] is a directory; where it is not, a policy with a write
    entry for the symbolic [/tmp] can report full access and still not let a path
    below [/tmp] be written.  A policy that never asks never leads to a
    question. *)
Theorem auto_approved_patch_is_contained os changes policy profile p cwd level :
  (assess_patch_safety os changes policy profile p cwd level = AutoApprove ->
   changes <> [] /\ policy <> UnlessTrusted /\
   (profile = Disabled \/ (exists n, profile = External n) \/
    exists s, get_platform_sandbox os (match level with WinDisabled => false | _ => true end) = Some s) /\
   (has_full_disk_write_access p = true \/
    exists native_cwd, to_abs_path cwd = Some native_cwd /\
      forall c u, c ∈ changes -> u ∈ change_targets c ->
        exists t, to_abs_path u = Some t /\ can_write_path_with_cwd p t native_cwd = true) /\
   (is_dir slash_tmp = true -> wf_policy p ->
    forall native_cwd c u t, to_abs_path cwd = Some native_cwd -> c ∈ changes -> u ∈ change_targets c ->
      to_abs_path u = Some t -> can_write_path_with_cwd p t native_cwd = true)) /\
  (rejects_sandbox_approval policy = true ->
   assess_patch_safety os changes policy profile p cwd level <> AskUser).
Proof.
  unfold assess_patch_safety. destruct (is_empty changes) eqn:Ec; [done|].
  apply is_empty_false in Ec. split.
  - destruct (is_write_patch_constrained_to_writable_paths changes p cwd) eqn:Ew.
    2: { destruct policy; try done; by case_match. }
    intros Ha. split; [done|]. split; [by destruct policy|]. split.
    { destruct profile as [fs n| |n]; [|by left|eauto].
      right. right. destruct (get_platform_sandbox _ _); [by eexists|].
      destruct policy; simpl in Ha; try done; by case_match. }
    unfold is_write_patch_constrained_to_writable_paths in Ew.
    destruct (has_full_disk_write_access p) eqn:Ef.
    { split; [by left|]. intros Htmp Hwf native_cwd c u t Hcwd _ _ _.
      apply (full_write_writable p native_cwd native_cwd); try done.
      apply from_absolute_path_id. by eapply to_abs_path_abs_norm. }
    destruct (to_abs_path cwd) as [native_cwd|] eqn:Hcwd; [|done].
    assert (forall c u, c ∈ changes -> u ∈ change_targets c ->
      exists t, to_abs_path u = Some t /\ can_write_path_with_cwd p t native_cwd = true) as Hall.
    { intros c u Hc Hu. rewrite forallb_forall in Ew.
      specialize (Ew c (proj1 (list_elem_of_In _ _) Hc)).
      apply change_writable_true in Ew. rewrite Forall_forall in Ew. by apply uri_writable_true, Ew. }
    split; [right; by exists native_cwd|]. intros _ _ cwd' c u t [= <-] Hc Hu Ht.
    destruct (Hall c u Hc Hu) as (t' & Ht' & Hw). congruence.
  - intros Hr. destruct policy; simpl in *; try done; rewrite ?Hr; repeat case_match; done.
Qed.

End safety.

(** URIs that are host paths. *)
Definition demo_uri : PathUri Path := {| to_abs_path p := if decide (abs_norm p) then Some p else None |}.

#[global] Instance demo_uri_lawful : @LawfulPathUri Path demo_uri.
Proof. constructor. simpl. intros u p. case_decide; [|done]. by intros [= <-]. Qed.

Lemma auto_approved_patch_is_contained_witness :
  @assess_patch_safety demo_host Path demo_uri Linux [(p!"/work/a", PatchAdd [])] Never
    (Managed ManagedUnrestricted NetRestricted) demo_policy (p!"/work") WinDisabled = AutoApprove /\
  @can_write_path_with_cwd demo_host demo_policy (p!"/work/a") (p!"/work") = true.
Proof.
  split; [reflexivity|].
  destruct (auto_approved_patch_is_contained (H := demo_host) (H0 := demo_lawful) (H2 := demo_uri_lawful) Linux
    [(p!"/work/a", PatchAdd [])] Never (Managed ManagedUnrestricted NetRestricted) demo_policy
    (p!"/work") WinDisabled) as [Ha _].
  destruct (Ha eq_refl) as (_ & _ & _ & _ & Hw).
  apply (Hw eq_refl demo_policy_wf (p!"/work") (p!"/work/a", PatchAdd []) (p!"/work/a"));
    [reflexivity|by left|by left|reflexivity].
Defined.
