(* ===== verification/SeekSequence.v ===== *)
(** * Locating the lines of a patch chunk: [apply-patch/src/seek_sequence.rs]

    [seek_sequence] looks for a block of lines in a file with four passes of
    decreasing strictness.  Its contract is stated with one equivalence of
    lines per pass: the result is the first position of the first pass that
    has one, and [None] means that no pass has any. *)

From S2P Require Import Prelude.
From S2P Require Import RustStr.

(** ** Definitions *)

(** The inner function [normalise]: typographic punctuation to ASCII. *)
Definition normalise_char (c : char) : char :=
  if in_range 8208 8213 c || (c =? 8722)%N then 45%N
  else if in_range 8216 8219 c then 39%N
  else if in_range 8220 8223 c then 34%N
  else if (c =? 160)%N || in_range 8194 8202 c || (c =? 8239)%N || (c =? 8287)%N
          || (c =? 12288)%N then 32%N
  else c.

Definition normalise (s : str) : str := normalise_char <$> trim s.

(** [for i in from..from + n { if test i { return Some(i) } }] *)
Fixpoint first_from (test : nat -> bool) (from n : nat) : option nat :=
  match n with
  | 0 => None
  | S n' => if test from then Some from else first_from test (S from) n'
  end.

(** The comparison loop of the lenient passes at position [i]: every pattern
    line equals the corresponding file line after [f]. *)
Fixpoint lines_match_at (f : str -> str) (ls : list str) (i : nat) (pattern : list str) : bool :=
  match pattern with
  | [] => true
  | pat :: rest =>
      match ls !! i with
      | Some l => if decide (f l = f pat) then lines_match_at f ls (S i) rest else false
      | None => false
      end
  end.

(** [lines[i..i + pattern.len()] == *pattern] *)
Definition exact_match_at (ls pattern : list str) (i : nat) : bool :=
  bool_decide (take (length pattern) (drop i ls) = pattern).

Definition seek_sequence (ls pattern : list str) (start : nat) (eof : bool) : option nat :=
  if is_empty pattern then Some start
  else if length ls <? length pattern then None
  else
    let search_start :=
      if eof && (length pattern <=? length ls) then length ls - length pattern else start in
    let count := S (length ls - length pattern) - search_start in
    match first_from (exact_match_at ls pattern) search_start count with
    | Some i => Some i
    | None =>
    match first_from (fun i => lines_match_at trim_end ls i pattern) search_start count with
    | Some i => Some i
    | None =>
    match first_from (fun i => lines_match_at trim ls i pattern) search_start count with
    | Some i => Some i
    | None => first_from (fun i => lines_match_at normalise ls i pattern) search_start count
    end end end.

(** ** Specification *)

(** The passes, in the order they are tried. *)
Inductive pass := Exact | Rstrip | Trim | Normalised.

Definition pass_rank (p : pass) : nat :=
  match p with Exact => 0 | Rstrip => 1 | Trim => 2 | Normalised => 3 end.

(** Equality of lines as a pass sees it. *)
Definition line_eq (p : pass) (a b : str) : Prop :=
  match p with
  | Exact => a = b
  | Rstrip => trim_end a = trim_end b
  | Trim => trim a = trim b
  | Normalised => normalise a = normalise b
  end.

(** The [pattern] is found at line [i] of the file, up to the pass. *)
Definition found_at (p : pass) (ls pattern : list str) (i : nat) : Prop :=
  Forall2 (line_eq p) (take (length pattern) (drop i ls)) pattern.

Definition search_start (ls pattern : list str) (start : nat) (eof : bool) : nat :=
  if eof then length ls - length pattern else start.

#[global] Instance line_eq_equiv p : Equivalence (line_eq p).
Proof.
  destruct p; (split; [intros x | intros x y | intros x y z]; unfold line_eq; congruence).
Qed.

(** ** Lemmas *)

Lemma first_from_Some test from n i :
  first_from test from n = Some i <->
  from <= i < from + n /\ test i = true /\ forall j, from <= j < i -> test j = false.
Proof.
  revert from. induction n as [|n IH]; intros from; simpl.
  { split; [done|lia]. }
  destruct (test from) eqn:E.
  - split.
    + intros [= <-]. split; [lia|]. split; [done|]. intros; lia.
    + intros (Hr & Hi & Hlt). destruct (decide (i = from)) as [->|]; [done|].
      rewrite Hlt in E; [done|lia].
  - rewrite IH. split.
    + intros (Hr & Hi & Hlt). split; [lia|]. split; [done|].
      intros j Hj. destruct (decide (j = from)) as [->|]; [done|]. apply Hlt. lia.
    + intros (Hr & Hi & Hlt). assert (i <> from) by congruence.
      split; [lia|]. split; [done|]. intros j Hj. apply Hlt. lia.
Qed.

Lemma first_from_None test from n :
  first_from test from n = None <-> forall j, from <= j < from + n -> test j = false.
Proof.
  revert from. induction n as [|n IH]; intros from; simpl.
  { split; [intros _ j; lia|done]. }
  destruct (test from) eqn:E.
  - split; [done|]. intros H. rewrite H in E; [done|lia].
  - rewrite IH. split.
    + intros H j Hj. destruct (decide (j = from)) as [->|]; [done|]. apply H. lia.
    + intros H j Hj. apply H. lia.
Qed.

Lemma lines_match_at_true f ls i pattern :
  lines_match_at f ls i pattern = true <->
  Forall2 (fun a b => f a = f b) (take (length pattern) (drop i ls)) pattern.
Proof.
  revert i. induction pattern as [|pat rest IH]; intros i; simpl.
  { rewrite firstn_O. by split. }
  destruct (ls !! i) as [l|] eqn:Hl.
  - rewrite (drop_S _ _ _ Hl). simpl. case_decide as E.
    + rewrite IH. split; [by constructor|]. by inversion 1.
    + split; [done|]. by inversion 1.
  - apply lookup_ge_None in Hl. rewrite drop_ge by done. split; [done|]. by inversion 1.
Qed.

Lemma exact_match_at_true ls pattern i :
  exact_match_at ls pattern i = true <-> found_at Exact ls pattern i.
Proof.
  unfold exact_match_at, found_at. rewrite bool_decide_eq_true.
  apply list_eq_Forall2.
Qed.

(** Test of each pass in the search loop. *)
Definition pass_test (p : pass) (ls pattern : list str) (i : nat) : bool :=
  match p with
  | Exact => exact_match_at ls pattern i
  | Rstrip => lines_match_at trim_end ls i pattern
  | Trim => lines_match_at trim ls i pattern
  | Normalised => lines_match_at normalise ls i pattern
  end.

Lemma pass_test_true p ls pattern i :
  pass_test p ls pattern i = true <-> found_at p ls pattern i.
Proof.
  destruct p; [apply exact_match_at_true|apply lines_match_at_true..].
Qed.

Lemma pass_test_false p ls pattern i :
  pass_test p ls pattern i = false <-> ~ found_at p ls pattern i.
Proof. rewrite <- pass_test_true. by rewrite not_true_iff_false. Qed.

(** Each pass accepts what the stricter ones accept. *)
Lemma line_eq_weaken p q a b : pass_rank p <= pass_rank q -> line_eq p a b -> line_eq q a b.
Proof.
  destruct p, q; simpl; try lia; intros _ H; try done;
    unfold normalise;
    first [by rewrite H | by rewrite (trim_of_trim_end _ _ H) | by apply trim_of_trim_end].
Qed.

Lemma found_at_weaken p q ls pattern i :
  pass_rank p <= pass_rank q -> found_at p ls pattern i -> found_at q ls pattern i.
Proof. intros H Hf. eapply Forall2_impl; [exact Hf|]. intros a b. by apply line_eq_weaken. Qed.

Lemma found_at_bounds p ls pattern i :
  pattern <> [] -> found_at p ls pattern i -> i + length pattern <= length ls.
Proof.
  intros Hne H%Forall2_length. rewrite length_take, length_drop in H.
  assert (0 < length pattern) by (destruct pattern; [done|simpl; lia]). lia.
Qed.

(** [seek_sequence] unfolded to its four passes. *)
Lemma seek_sequence_passes ls pattern start eof :
  pattern <> [] -> length pattern <= length ls ->
  let from := search_start ls pattern start eof in
  let count := S (length ls - length pattern) - from in
  seek_sequence ls pattern start eof =
  match first_from (pass_test Exact ls pattern) from count with
  | Some i => Some i
  | None =>
  match first_from (pass_test Rstrip ls pattern) from count with
  | Some i => Some i
  | None =>
  match first_from (pass_test Trim ls pattern) from count with
  | Some i => Some i
  | None => first_from (pass_test Normalised ls pattern) from count
  end end end.
Proof.
  intros Hne Hlen. unfold seek_sequence, search_start.
  rewrite (proj2 (is_empty_false pattern) Hne).
  rewrite (proj2 (Nat.ltb_ge _ _) Hlen), (proj2 (Nat.leb_le _ _) Hlen), andb_true_r.
  done.
Qed.

(** In the search range, a pass that succeeds and has no success before. *)
Definition first_hit (p : pass) (ls pattern : list str) (from i : nat) : Prop :=
  from <= i /\ found_at p ls pattern i /\
  (forall j, from <= j < i -> ~ found_at p ls pattern j) /\
  (forall q j, pass_rank q < pass_rank p -> from <= j -> ~ found_at q ls pattern j).

Lemma first_from_pass_Some p ls pattern from i :
  pattern <> [] -> length pattern <= length ls ->
  first_from (pass_test p ls pattern) from (S (length ls - length pattern) - from) = Some i <->
  from <= i /\ found_at p ls pattern i /\ forall j, from <= j < i -> ~ found_at p ls pattern j.
Proof.
  intros Hne Hlen. rewrite first_from_Some, pass_test_true. setoid_rewrite pass_test_false.
  split; [naive_solver lia|]. intros (? & Hf & ?).
  pose proof (found_at_bounds _ _ _ _ Hne Hf). naive_solver lia.
Qed.

Lemma first_from_pass_None p ls pattern from :
  pattern <> [] -> length pattern <= length ls ->
  first_from (pass_test p ls pattern) from (S (length ls - length pattern) - from) = None <->
  forall j, from <= j -> ~ found_at p ls pattern j.
Proof.
  intros Hne Hlen. rewrite first_from_None. setoid_rewrite pass_test_false. split.
  - intros H j Hj Hf. pose proof (found_at_bounds _ _ _ _ Hne Hf). apply (H j); [lia|done].
  - intros H j Hj. apply H. lia.
Qed.

Lemma seek_sequence_first_hit ls pattern start eof i :
  pattern <> [] -> length pattern <= length ls ->
  seek_sequence ls pattern start eof = Some i <->
  exists p, first_hit p ls pattern (search_start ls pattern start eof) i.
Proof.
  intros Hne Hlen. rewrite seek_sequence_passes by done. cbv zeta.
  set (from := search_start _ _ _ _). split.
  - intros H.
    repeat match type of H with
    | match ?m with _ => _ end = _ => destruct m eqn:?; simplify_eq
    end;
    repeat match goal with
    | H : first_from _ _ _ = Some _ |- _ => apply first_from_pass_Some in H as (?&?&?); [|done..]
    | H : first_from _ _ _ = None |- _ => rewrite first_from_pass_None in H by done
    end;
    [exists Exact|exists Rstrip|exists Trim|exists Normalised];
    (split; [done|]; split; [done|]; split; [done|]);
    intros q j Hq Hj; destruct q; simpl in Hq; try lia; auto.
  - intros (p & Hge & Hf & Hfirst & Hlow).
    assert (forall q, pass_rank q < pass_rank p ->
      first_from (pass_test q ls pattern) from (S (length ls - length pattern) - from) = None)
      as Hnone.
    { intros q Hq. apply first_from_pass_None; [done..|]. intros j. by apply Hlow. }
    assert (first_from (pass_test p ls pattern) from (S (length ls - length pattern) - from)
            = Some i) as Hsome by (by apply first_from_pass_Some).
    destruct p; rewrite ?Hsome, ?(Hnone Exact), ?(Hnone Rstrip), ?(Hnone Trim) by (simpl; lia);
      done.
Qed.

Lemma seek_sequence_too_long ls pattern start eof :
  pattern <> [] -> length ls < length pattern -> seek_sequence ls pattern start eof = None.
Proof.
  intros Hne Hlen. unfold seek_sequence. rewrite (proj2 (is_empty_false pattern) Hne).
  by rewrite (proj2 (Nat.ltb_lt (length ls) (length pattern)) Hlen).
Qed.

Lemma seek_sequence_no_hit ls pattern start eof :
  pattern <> [] ->
  seek_sequence ls pattern start eof = None <->
  forall j, search_start ls pattern start eof <= j -> ~ found_at Normalised ls pattern j.
Proof.
  intros Hne. destruct (decide (length pattern <= length ls)) as [Hlen|Hlen].
  - rewrite seek_sequence_passes by done. cbv zeta. set (from := search_start _ _ _ _).
    rewrite <- first_from_pass_None by done. split.
    + intros H. by repeat case_match; simplify_eq.
    + intros H. assert (forall p, first_from (pass_test p ls pattern) from
        (S (length ls - length pattern) - from) = None) as Hall.
      { intros p. apply first_from_pass_None; [done..|]. intros j Hj Hf.
        rewrite first_from_pass_None in H by done. apply (H j Hj).
        apply (found_at_weaken p); [destruct p; simpl; lia|done]. }
      by rewrite !Hall.
  - split.
    + intros _ j _ Hf%found_at_bounds; [lia|done].
    + intros _. apply seek_sequence_too_long; [done|lia].
Qed.

Lemma seek_sequence_bounds ls pattern start eof i :
  start <= length ls -> seek_sequence ls pattern start eof = Some i ->
  i + length pattern <= length ls.
Proof.
  intros Hs H. destruct (decide (pattern = [])) as [->|Hne].
  { unfold seek_sequence in H. simpl in *. injection H as <-. lia. }
  destruct (decide (length pattern <= length ls)) as [Hlen|Hlen].
  - apply seek_sequence_first_hit in H as (p & _ & Hf & _); [|done..].
    by apply found_at_bounds in Hf.
  - rewrite seek_sequence_too_long in H; [done..|lia].
Qed.

(** ** Properties *)

(** With [eof] set a match can only be at the very end of the file: the
    search from [start] is not tried, although the comment above the function
    says it is. *)
Theorem seek_sequence_eof_end ls pattern start i :
  pattern <> [] -> seek_sequence ls pattern start true = Some i ->
  i + length pattern = length ls.
Proof.
  intros Hne H. destruct (decide (length pattern <= length ls)) as [Hlen|Hlen].
  - apply seek_sequence_first_hit in H as (p & Hge & Hf & _); [|done..].
    apply found_at_bounds in Hf; [|done]. unfold search_start in Hge. lia.
  - rewrite seek_sequence_too_long in H; [done..|lia].
Qed.

(** C17: For a non-empty pattern, [seek_sequence] returns [i] exactly when [i] is
    the first position, at or after the search start, of the strictest pass
    (exact, trailing blanks, all blanks, punctuation) that matches anywhere in
    the range; it returns [None] exactly when not even the most permissive pass
    matches at any position of the range.  The search start is [start], except
    with [eof] set: then it is the last position where the pattern fits, nothing
    before it is found, and, although the comment of the function says that the
    search falls back to [start] if needed, it never does: a pattern that only
    matches earlier is not found. *)
Theorem seek_sequence_spec ls pattern start eof :
  pattern <> [] ->
  (forall i, seek_sequence ls pattern start eof = Some i <->
     exists p, first_hit p ls pattern (search_start ls pattern start eof) i) /\
  (seek_sequence ls pattern start eof = None <->
     forall j, search_start ls pattern start eof <= j -> ~ found_at Normalised ls pattern j) /\
  (eof = false -> search_start ls pattern start eof = start) /\
  (eof = true -> length pattern <= length ls ->
     search_start ls pattern start eof + length pattern = length ls /\
     forall i, seek_sequence ls pattern start eof = Some i -> i + length pattern = length ls).
Proof.
  intros Hne. split; [intros i|split; [by apply seek_sequence_no_hit|]].
  - destruct (decide (length pattern <= length ls)) as [Hlen|Hlen].
    { by apply seek_sequence_first_hit. }
    rewrite seek_sequence_too_long by (done || lia). split; [done|].
    intros (p & _ & Hf%found_at_bounds & _); [lia|done].
  - split; [by intros ->|]. intros -> Hlen. split; [unfold search_start; simpl; lia|].
    intros i. by apply seek_sequence_eof_end.
Qed.

Lemma seek_sequence_spec_witness :
  seek_sequence [s! "foo"; s! "bar  "; s! "bar"] [s! "bar"] 0 false = Some 2 /\
  exists p, first_hit p [s! "foo"; s! "bar  "; s! "bar"] [s! "bar"] 0 2.
Proof.
  split; [vm_compute; reflexivity|].
  apply (proj1 (seek_sequence_spec [s! "foo"; s! "bar  "; s! "bar"] [s! "bar"] 0 false
    ltac:(discriminate))).
  vm_compute. reflexivity.
Defined.

Lemma seek_sequence_eof_end_witness :
  seek_sequence [s! "a"; s! "b"; s! "a"] [s! "a"] 0 true = Some 2 /\ 2 + 1 = 3 /\
  seek_sequence [s! "a"; s! "b"] [s! "a"] 0 true = None.
Proof.
  split; [vm_compute; reflexivity|]. split; [|vm_compute; reflexivity].
  apply (seek_sequence_eof_end [s! "a"; s! "b"; s! "a"] [s! "a"] 0 2);
    [discriminate|vm_compute; reflexivity].
Defined.
