(* ===== verification/PatchParser.v ===== *)
(** * The patch language: [apply-patch/src/parser.rs], [apply-patch/src/streaming_parser.rs]

    The incremental parser of [apply_patch] bodies: its state, the handler of
    one complete line in every mode, the handling of text deltas and of the
    end of the stream, and the one-shot [parse_patch] built on it with its
    strict and lenient boundary checks.

    A [PathBuf] is the string it is built from.  [process_line] never changes
    the parser when it fails, so it returns the new parser or the error;
    [push_delta] and [finish] also return the parser they leave behind on
    failure. *)

From S2P Require Import Prelude.
From S2P Require Import RustStr.

(** ** Data *)

Record UpdateFileChunk := {
  change_context : option str;
  old_lines : list str;
  new_lines : list str;
  is_end_of_file : bool;
}.

Inductive Hunk :=
| AddFile (path contents : str)
| DeleteFile (path : str)
| UpdateFile (path : str) (move_path : option str) (chunks : list UpdateFileChunk).

Inductive ParseError :=
| InvalidPatchError (message : str)
| InvalidHunkError (message : str) (line_number : nat).

Record ApplyPatchArgs := {
  args_patch : str;
  args_hunks : list Hunk;
  args_workdir : option str;
  args_environment_id : option str;
}.

#[global] Instance UpdateFileChunk_eq_dec : EqDecision UpdateFileChunk.
Proof. solve_decision. Defined.
#[global] Instance Hunk_eq_dec : EqDecision Hunk.
Proof. solve_decision. Defined.

(** [Hunk::path]: the move destination of a rename, the path otherwise. *)
Definition hunk_path (h : Hunk) : str :=
  match h with
  | AddFile path _ => path
  | DeleteFile path => path
  | UpdateFile _ (Some dest) _ => dest
  | UpdateFile path None _ => path
  end.

(** The path [Hunk::resolve_path] joins to the working directory. *)
Definition hunk_source_path (h : Hunk) : str :=
  match h with
  | UpdateFile path _ _ => path
  | AddFile _ _ | DeleteFile _ => hunk_path h
  end.

(** ** Markers *)

Definition BEGIN_PATCH_MARKER : str := Eval vm_compute in s! "*** Begin Patch".
Definition END_PATCH_MARKER : str := Eval vm_compute in s! "*** End Patch".
Definition ADD_FILE_MARKER : str := Eval vm_compute in s! "*** Add File: ".
Definition DELETE_FILE_MARKER : str := Eval vm_compute in s! "*** Delete File: ".
Definition UPDATE_FILE_MARKER : str := Eval vm_compute in s! "*** Update File: ".
Definition MOVE_TO_MARKER : str := Eval vm_compute in s! "*** Move to: ".
Definition EOF_MARKER : str := Eval vm_compute in s! "*** End of File".
Definition CHANGE_CONTEXT_MARKER : str := Eval vm_compute in s! "@@ ".
Definition EMPTY_CHANGE_CONTEXT_MARKER : str := Eval vm_compute in s! "@@".
Definition ENVIRONMENT_ID_MARKER : str := Eval vm_compute in s! "*** Environment ID:".

(** ** The streaming parser *)

Inductive StreamingParserMode :=
| NotStarted
| StartedPatch
| ModeAddFile
| ModeDeleteFile
| ModeUpdateFile (hunk_line_number : nat)
| EndedPatch.

Record StreamingParserState := {
  mode : StreamingParserMode;
  hunks : list Hunk;
  environment_id : option str;
}.

Record StreamingPatchParser := {
  line_buffer : str;
  state : StreamingParserState;
  line_number : nat;
}.

Definition parser_default : StreamingPatchParser :=
  {| line_buffer := []; line_number := 0;
     state := {| mode := NotStarted; hunks := []; environment_id := None |} |}.

Definition set_state (p : StreamingPatchParser) (m : StreamingParserMode) (hs : list Hunk)
    (env : option str) : StreamingPatchParser :=
  {| line_buffer := line_buffer p; line_number := line_number p;
     state := {| mode := m; hunks := hs; environment_id := env |} |}.

(** A chunk that has no line yet. *)
Definition chunk_is_empty (c : UpdateFileChunk) : bool :=
  is_empty (old_lines c) && is_empty (new_lines c).

(** [chunks.last().is_some_and(f)] *)
Definition last_chunk_is (f : UpdateFileChunk -> bool) (chunks : list UpdateFileChunk) : bool :=
  match last chunks with Some c => f c | None => false end.

(** Messages of the parser's errors. *)
Definition msg_first_line := s! "The first line of the patch must be '*** Begin Patch'".
Definition msg_last_line := s! "The last line of the patch must be '*** End Patch'".
Definition msg_empty_update (path : str) :=
  s! "Update file hunk for path '" ++ path ++ s! "' is empty".
Definition msg_no_lines := s! "Update hunk does not contain any lines".
Definition msg_unexpected_line (line : str) :=
  s! "Unexpected line found in update hunk: '" ++ line ++
  s! "'. Every line should start with ' ' (context line), '+' (added line), or '-' (removed line)".
Definition msg_expected_context (line : str) :=
  s! "Expected update hunk to start with a @@ context marker, got: '" ++ line ++ s! "'".
Definition msg_bad_header (trimmed : str) :=
  s! "'" ++ trimmed ++
  s! "' is not a valid hunk header. Valid hunk headers: '*** Add File: {path}', '*** Delete File: {path}', '*** Update File: {path}'".
Definition msg_env_twice := s! "apply_patch environment_id cannot be specified more than once".
Definition msg_env_empty := s! "apply_patch environment_id cannot be empty".

Definition ensure_update_hunk_is_not_empty (p : StreamingPatchParser) (line : str)
    : result unit ParseError :=
  match last (hunks (state p)) with
  | Some (UpdateFile path _ chunks) =>
      match is_empty chunks, mode (state p) with
      | true, ModeUpdateFile hunk_line_number =>
          Err (InvalidHunkError (msg_empty_update path) hunk_line_number)
      | _, _ =>
          if last_chunk_is chunk_is_empty chunks then
            if str_eqb line END_PATCH_MARKER then
              Err (InvalidHunkError msg_no_lines (line_number p))
            else Err (InvalidHunkError (msg_unexpected_line line) (line_number p))
          else Ok tt
      end
  | _ => Ok tt
  end.

(** [Ok (Some p')]: the line was a header or the end marker and the parser is
    now [p'] (the source returns [Ok(true)]); [Ok None]: it was not. *)
Definition handle_hunk_headers_and_end_patch (p : StreamingPatchParser) (trimmed : str)
    : result (option StreamingPatchParser) ParseError :=
  let st := state p in
  let started := match mode st with StartedPatch => true | _ => false end in
  match (if started then strip_prefix ENVIRONMENT_ID_MARKER trimmed else None) with
  | Some env =>
      if bool_decide (is_Some (environment_id st)) then Err (InvalidPatchError msg_env_twice)
      else
        let env := trim env in
        if is_empty env then Err (InvalidPatchError msg_env_empty)
        else Ok (Some (set_state p (mode st) (hunks st) (Some env)))
  | None =>
  if str_eqb trimmed END_PATCH_MARKER then
    let? _ := ensure_update_hunk_is_not_empty p trimmed in
    Ok (Some (set_state p EndedPatch (hunks st) (environment_id st)))
  else match strip_prefix ADD_FILE_MARKER trimmed with
  | Some path =>
      let? _ := ensure_update_hunk_is_not_empty p trimmed in
      Ok (Some (set_state p ModeAddFile (hunks st ++ [AddFile path []]) (environment_id st)))
  | None => match strip_prefix DELETE_FILE_MARKER trimmed with
  | Some path =>
      let? _ := ensure_update_hunk_is_not_empty p trimmed in
      Ok (Some (set_state p ModeDeleteFile (hunks st ++ [DeleteFile path]) (environment_id st)))
  | None => match strip_prefix UPDATE_FILE_MARKER trimmed with
  | Some path =>
      let? _ := ensure_update_hunk_is_not_empty p trimmed in
      Ok (Some (set_state p (ModeUpdateFile (line_number p))
                  (hunks st ++ [UpdateFile path None []]) (environment_id st)))
  | None => Ok None
  end end end
  end.

Definition empty_chunk (ctx : option str) : UpdateFileChunk :=
  {| change_context := ctx; old_lines := []; new_lines := []; is_end_of_file := false |}.

(** [if chunks.is_empty() { chunks.push(..) }] *)
Definition ensure_chunk (chunks : list UpdateFileChunk) : list UpdateFileChunk :=
  if is_empty chunks then [empty_chunk None] else chunks.

Definition push_old_new (old new : list str) (c : UpdateFileChunk) : UpdateFileChunk :=
  {| change_context := change_context c; old_lines := old_lines c ++ old;
     new_lines := new_lines c ++ new; is_end_of_file := is_end_of_file c |}.

Definition mark_end_of_file (c : UpdateFileChunk) : UpdateFileChunk :=
  {| change_context := change_context c; old_lines := old_lines c;
     new_lines := new_lines c; is_end_of_file := true |}.

(** [line] is a [@@] marker, with or without a context. *)
Definition is_context_marker (update_line : str) : bool :=
  str_eqb update_line EMPTY_CHANGE_CONTEXT_MARKER || starts_with CHANGE_CONTEXT_MARKER update_line.

(** The body of an update hunk: the new move path and chunks after one line,
    for a line that is not a header. *)
Definition update_hunk_line (lineno : nat) (move_path : option str)
    (chunks : list UpdateFileChunk) (line update_line : str)
    : result (option str * list UpdateFileChunk) ParseError :=
  let err m := Err (InvalidHunkError m lineno) in
  let at_eof := last_chunk_is is_end_of_file chunks in
  if at_eof && is_empty update_line then Ok (move_path, chunks)
  else if at_eof && negb (is_context_marker update_line) then err (msg_expected_context line)
  else
  match (if is_empty chunks && negb (bool_decide (is_Some move_path))
         then strip_prefix MOVE_TO_MARKER update_line else None) with
  | Some move_to_path => Ok (Some move_to_path, chunks)
  | None =>
  if is_context_marker update_line && last_chunk_is chunk_is_empty chunks then
    err (msg_unexpected_line line)
  else if str_eqb update_line EMPTY_CHANGE_CONTEXT_MARKER then
    Ok (move_path, chunks ++ [empty_chunk None])
  else
  match strip_prefix CHANGE_CONTEXT_MARKER update_line with
  | Some ctx => Ok (move_path, chunks ++ [empty_chunk (Some ctx)])
  | None =>
  if str_eqb update_line EOF_MARKER then
    if last_chunk_is chunk_is_empty chunks then err msg_no_lines
    else Ok (move_path, update_last mark_end_of_file chunks)
  else match line with
  | [] => Ok (move_path, update_last (push_old_new [[]] [[]]) (ensure_chunk chunks))
  | c :: rest =>
      if decide (c = 32%N) then
        Ok (move_path, update_last (push_old_new [rest] [rest]) (ensure_chunk chunks))
      else if decide (c = 43%N) then
        Ok (move_path, update_last (push_old_new [] [rest]) (ensure_chunk chunks))
      else if decide (c = 45%N) then
        Ok (move_path, update_last (push_old_new [rest] []) (ensure_chunk chunks))
      else if last_chunk_is (fun c => negb (chunk_is_empty c)) chunks then
        err (msg_expected_context line)
      else err (msg_unexpected_line line)
  end
  end end.

Definition process_line (p : StreamingPatchParser) (line : str)
    : result StreamingPatchParser ParseError :=
  let trimmed := trim line in
  let st := state p in
  let bad_header := Err (InvalidHunkError (msg_bad_header trimmed) (line_number p)) in
  match mode st with
  | NotStarted =>
      if str_eqb trimmed BEGIN_PATCH_MARKER then
        Ok (set_state p StartedPatch (hunks st) (environment_id st))
      else Err (InvalidPatchError msg_first_line)
  | StartedPatch | ModeDeleteFile =>
      let? handled := handle_hunk_headers_and_end_patch p trimmed in
      match handled with Some p' => Ok p' | None => bad_header end
  | ModeAddFile =>
      let? handled := handle_hunk_headers_and_end_patch p trimmed in
      match handled with
      | Some p' => Ok p'
      | None =>
          match strip_prefix [43%N] line, last (hunks st) with
          | Some line_to_add, Some (AddFile path contents) =>
              Ok (set_state p (mode st)
                    (update_last (fun _ => AddFile path (contents ++ line_to_add ++ [nl]))
                                 (hunks st))
                    (environment_id st))
          | _, _ => bad_header
          end
      end
  | ModeUpdateFile hunk_line_number =>
      let update_line := trim_end line in
      let? handled := handle_hunk_headers_and_end_patch p update_line in
      match handled with
      | Some p' => Ok p'
      | None =>
          match last (hunks st) with
          | Some (UpdateFile path move_path chunks) =>
              let? (move', chunks') :=
                update_hunk_line (line_number p) move_path chunks line update_line in
              Ok (set_state p (ModeUpdateFile hunk_line_number)
                    (update_last (fun _ => UpdateFile path move' chunks') (hunks st))
                    (environment_id st))
          | _ => Err (InvalidHunkError (msg_unexpected_line line) (line_number p))
          end
      end
  | EndedPatch =>
      if is_empty trimmed then Ok p else Err (InvalidPatchError msg_last_line)
  end.

(** The parser with the buffered line taken out and the line counter advanced. *)
Definition take_line (p : StreamingPatchParser) : StreamingPatchParser :=
  {| line_buffer := []; state := state p; line_number := S (line_number p) |}.

Fixpoint push_delta (p : StreamingPatchParser) (delta : str)
    : StreamingPatchParser * result (list Hunk) ParseError :=
  match delta with
  | [] => (p, Ok (hunks (state p)))
  | ch :: rest =>
      if decide (ch = nl) then
        let p1 := take_line p in
        match process_line p1 (strip_cr (line_buffer p)) with
        | Ok p2 => push_delta p2 rest
        | Err e => (p1, Err e)
        end
      else
        push_delta {| line_buffer := line_buffer p ++ [ch]; state := state p;
                      line_number := line_number p |} rest
  end.

Definition finish (p : StreamingPatchParser) : StreamingPatchParser * result (list Hunk) ParseError :=
  let '(p', r) :=
    if is_empty (line_buffer p) then (p, Ok p)
    else
      let p1 := take_line p in
      let line := line_buffer p in
      if str_eqb (trim line) END_PATCH_MARKER then
        (p1, let? _ := ensure_update_hunk_is_not_empty p1 (trim line) in
             Ok (set_state p1 EndedPatch (hunks (state p1)) (environment_id (state p1))))
      else (p1, process_line p1 line) in
  match r with
  | Err e => (p', Err e)
  | Ok q =>
      match mode (state q) with
      | EndedPatch => (q, Ok (hunks (state q)))
      | _ => (q, Err (InvalidPatchError msg_last_line))
      end
  end.

(** ** The one-shot parser *)

Inductive ParseMode := Strict | Lenient.

Definition check_start_and_end_lines_strict (first_line last_line : option str)
    : result unit ParseError :=
  match trim <$> first_line, trim <$> last_line with
  | Some first, Some lst =>
      if str_eqb first BEGIN_PATCH_MARKER && str_eqb lst END_PATCH_MARKER then Ok tt
      else if negb (str_eqb first BEGIN_PATCH_MARKER) then Err (InvalidPatchError msg_first_line)
      else Err (InvalidPatchError msg_last_line)
  | Some first, None =>
      if negb (str_eqb first BEGIN_PATCH_MARKER) then Err (InvalidPatchError msg_first_line)
      else Err (InvalidPatchError msg_last_line)
  | None, _ => Err (InvalidPatchError msg_last_line)
  end.

Definition check_patch_boundaries_strict (ls : list str) : result (list str) ParseError :=
  let? _ := check_start_and_end_lines_strict (head ls) (last ls) in
  Ok ls.

Definition is_heredoc_start (first : str) : bool :=
  str_eqb first (s! "<<EOF") || str_eqb first (s! "<<'EOF'")
  || str_eqb first (s! "<<" ++ [34%N] ++ s! "EOF" ++ [34%N]).

Definition check_patch_boundaries_lenient (original_lines : list str)
    : result (list str) ParseError :=
  match check_patch_boundaries_strict original_lines with
  | Ok ls => Ok ls
  | Err original_parse_error =>
      match original_lines, last original_lines with
      | first :: _ :: _, Some lst =>
          if is_heredoc_start first && ends_with (s! "EOF") lst
             && (4 <=? length original_lines) then
            check_patch_boundaries_strict (removelast (tail original_lines))
          else Err original_parse_error
      | _, _ => Err original_parse_error
      end
  end.

Definition parse_patch_text (patch : str) (m : ParseMode) : result ApplyPatchArgs ParseError :=
  let ls := lines (trim patch) in
  let? patch_lines :=
    match m with
    | Strict => check_patch_boundaries_strict ls
    | Lenient => check_patch_boundaries_lenient ls
    end in
  let patch := join [nl] patch_lines in
  let '(parser, pushed) := push_delta parser_default patch in
  let? _ := pushed in
  let '(parser, finished) := finish parser in
  let? hs := finished in
  Ok {| args_hunks := hs; args_patch := patch; args_workdir := None;
        args_environment_id := environment_id (state parser) |}.

(** [PARSE_IN_STRICT_MODE] is [false]. *)
Definition parse_patch (patch : str) : result ApplyPatchArgs ParseError :=
  parse_patch_text patch Lenient.

