(* ===== verification/PatchParserFacts.v ===== *)
(** * Properties of the patch parser

    - how a stream is cut into deltas does not matter, and what was shown of it
      only grows;
    - every hunk of a successful parse is complete: an update hunk has at
      least one chunk and no chunk is empty;
    - the line number of a hunk error is a line of the patch. *)

From S2P Require Import Prelude.
From S2P Require Import RustStr.
From S2P Require Import PatchParser.

(** ** Deltas *)

(** A client that feeds deltas one after the other and stops at an error. *)
Fixpoint push_deltas (p : StreamingPatchParser) (deltas : list str)
    : StreamingPatchParser * result (list Hunk) ParseError :=
  match deltas with
  | [] => (p, Ok (hunks (state p)))
  | d :: ds =>
      match push_delta p d with
      | (p', Ok _) => push_deltas p' ds
      | (p', Err e) => (p', Err e)
      end
  end.

Lemma push_delta_app p a b :
  push_delta p (a ++ b) =
  match push_delta p a with
  | (p', Ok _) => push_delta p' b
  | (p', Err e) => (p', Err e)
  end.
Proof.
  revert p. induction a as [|ch a IH]; intros p; [done|].
  simpl. case_decide; [|apply IH]. destruct (process_line _ _); [apply IH|done].
Qed.

(** ** Complete hunks *)

Definition chunk_filled (c : UpdateFileChunk) : Prop := chunk_is_empty c = false.

Definition hunk_complete (h : Hunk) : Prop :=
  match h with
  | UpdateFile _ _ chunks => chunks <> [] /\ Forall chunk_filled chunks
  | _ => True
  end.

(** Invariant of the parser between lines. *)
Definition parser_inv (p : StreamingPatchParser) : Prop :=
  match mode (state p) with
  | NotStarted | StartedPatch => hunks (state p) = []
  | ModeAddFile =>
      exists hs path contents,
        hunks (state p) = hs ++ [AddFile path contents] /\ Forall hunk_complete hs
  | ModeDeleteFile =>
      exists hs path, hunks (state p) = hs ++ [DeleteFile path] /\ Forall hunk_complete hs
  | ModeUpdateFile n =>
      1 <= n <= line_number p /\
      exists hs path mv cs,
        hunks (state p) = hs ++ [UpdateFile path mv cs] /\ Forall hunk_complete hs /\
        Forall chunk_filled (removelast cs)
  | EndedPatch => Forall hunk_complete (hunks (state p))
  end.

Lemma removelast_update_last {A} (f : A -> A) l : removelast (update_last f l) = removelast l.
Proof.
  destruct l as [|x l] using rev_ind; [done|].
  by rewrite update_last_snoc, !removelast_last.
Qed.

Lemma chunks_filled_last cs :
  Forall chunk_filled (removelast cs) -> last_chunk_is chunk_is_empty cs = false ->
  Forall chunk_filled cs.
Proof.
  destruct cs as [|c cs] using rev_ind; [by constructor|].
  rewrite removelast_last. unfold last_chunk_is. rewrite last_snoc.
  intros H1 H2. apply Forall_app. split; [done|]. by constructor.
Qed.

(** The emptiness check lets a hunk end only when it is complete. *)
Lemma ensure_complete p line :
  parser_inv p -> ensure_update_hunk_is_not_empty p line = Ok tt ->
  Forall hunk_complete (hunks (state p)).
Proof.
  unfold parser_inv, ensure_update_hunk_is_not_empty. intros Hinv H.
  destruct (mode (state p)) eqn:Hm; try (by rewrite Hinv); try done.
  - destruct Hinv as (hs & path & contents & -> & Hhs). apply Forall_app. by repeat constructor.
  - destruct Hinv as (hs & path & -> & Hhs). apply Forall_app. by repeat constructor.
  - destruct Hinv as (_ & hs & path & mv & cs & Hh & Hhs & Hcs). rewrite Hh, last_snoc in H.
    rewrite Hh. apply Forall_app. split; [done|]. constructor; [|constructor].
    destruct (is_empty cs) eqn:He; [done|]. apply is_empty_false in He.
    destruct (last_chunk_is chunk_is_empty cs) eqn:Hl.
    { destruct (str_eqb _ _); done. }
    split; [done|]. by apply chunks_filled_last.
Qed.

Lemma ensure_error_line p line m n :
  parser_inv p -> 1 <= line_number p ->
  ensure_update_hunk_is_not_empty p line = Err (InvalidHunkError m n) ->
  1 <= n <= line_number p.
Proof.
  unfold parser_inv, ensure_update_hunk_is_not_empty. intros Hinv Hl H.
  repeat case_match; simplify_eq; lia.
Qed.

Lemma ensure_error_hunk p line e :
  ensure_update_hunk_is_not_empty p line = Err e -> exists m n, e = InvalidHunkError m n.
Proof. unfold ensure_update_hunk_is_not_empty. intros H. split_cases; eauto. Qed.

Lemma handle_headers_inv p t p' :
  1 <= line_number p -> parser_inv p ->
  handle_hunk_headers_and_end_patch p t = Ok (Some p') ->
  parser_inv p' /\ line_number p' = line_number p /\ line_buffer p' = line_buffer p.
Proof.
  intros Hl Hinv H. unfold handle_hunk_headers_and_end_patch in H.
  repeat match type of H with
  | match ?m with _ => _ end = _ => destruct m eqn:?; try discriminate H
  end; inv_bind; simplify_eq;
  repeat match goal with u : unit |- _ => destruct u end;
  try match goal with
  | He : ensure_update_hunk_is_not_empty _ _ = Ok tt |- _ =>
      apply ensure_complete in He; [|done]
  end; (split; [|done]); unfold parser_inv; simpl; try done; eauto 10.
Qed.

Lemma handle_headers_error p t m n :
  1 <= line_number p -> parser_inv p ->
  handle_hunk_headers_and_end_patch p t = Err (InvalidHunkError m n) ->
  1 <= n <= line_number p.
Proof.
  intros Hl Hinv H. unfold handle_hunk_headers_and_end_patch in H.
  repeat match type of H with
  | match ?m with _ => _ end = _ => destruct m eqn:?; try discriminate H
  end;
  apply result_bind_Err in H as [H|(? & ? & ?)]; try done;
  by eapply ensure_error_line.
Qed.

(** ** Lines of an update hunk *)

Lemma update_hunk_line_filled n mv cs line ul mv' cs' :
  Forall chunk_filled (removelast cs) ->
  update_hunk_line n mv cs line ul = Ok (mv', cs') ->
  Forall chunk_filled (removelast cs').
Proof.
  intros Hcs H. unfold update_hunk_line in H.
  assert (Hens : Forall chunk_filled (removelast (ensure_chunk cs))).
  { unfold ensure_chunk. destruct cs; [constructor|done]. }
  repeat match type of H with
  | (if ?b then _ else _) = _ => destruct b eqn:?; try discriminate H
  | match ?m with _ => _ end = _ => destruct m eqn:?; try discriminate H
  end; simplify_eq; rewrite ?removelast_update_last, ?removelast_last; try done;
  apply chunks_filled_last; try done;
  match goal with
  | Ha : is_context_marker ?u && ?b = false |- ?b = false =>
      assert (is_context_marker u = true) as Hm; [|by rewrite Hm in Ha]
  end; unfold is_context_marker.
  - apply orb_true_iff. by left.
  - apply orb_true_iff. right. apply starts_with_true.
    match goal with
    | Hp : strip_prefix CHANGE_CONTEXT_MARKER _ = Some _ |- _ =>
        apply strip_prefix_Some in Hp; eauto
    end.
Qed.

Lemma update_hunk_line_error n mv cs line ul m k :
  update_hunk_line n mv cs line ul = Err (InvalidHunkError m k) -> k = n.
Proof. unfold update_hunk_line. intros H. repeat case_match; simplify_eq; done. Qed.

(** One line keeps the invariant, the line counter and the buffer. *)
Lemma process_line_inv p line p' :
  1 <= line_number p -> parser_inv p -> process_line p line = Ok p' ->
  parser_inv p' /\ line_number p' = line_number p /\ line_buffer p' = line_buffer p.
Proof.
  intros Hl Hinv H. unfold process_line in H.
  destruct (mode (state p)) eqn:Hm; try (apply result_bind_Ok in H as ([p1|] & Hh & H)).
  - destruct (str_eqb _ _); simplify_eq. split; [|done].
    unfold parser_inv in *. by rewrite Hm in Hinv.
  - simplify_eq. by eapply handle_headers_inv.
  - done.
  - simplify_eq. by eapply handle_headers_inv.
  - destruct (strip_prefix _ _); [|done]. unfold parser_inv in Hinv. rewrite Hm in Hinv.
    destruct Hinv as (hs & path & contents & Hh' & Hhs). rewrite Hh', last_snoc in H. simplify_eq.
    split; [|done]. unfold parser_inv. simpl. rewrite update_last_snoc. eauto 10.
  - simplify_eq. by eapply handle_headers_inv.
  - done.
  - simplify_eq. by eapply handle_headers_inv.
  - unfold parser_inv in Hinv. rewrite Hm in Hinv.
    destruct Hinv as (Hn & hs & path & mv & cs & Hh' & Hhs & Hcs).
    rewrite Hh', last_snoc in H. apply result_bind_Ok in H as ([mv' cs'] & Hu & H). simplify_eq.
    split; [|done]. unfold parser_inv. simpl. rewrite update_last_snoc. split; [done|].
    eexists _, _, _, _. split; [done|]. split; [done|]. by eapply update_hunk_line_filled.
  - destruct (is_empty _); by simplify_eq.
Qed.

Lemma process_line_error p line m n :
  1 <= line_number p -> parser_inv p -> process_line p line = Err (InvalidHunkError m n) ->
  1 <= n <= line_number p.
Proof.
  intros Hl Hinv H. unfold process_line in H.
  destruct (mode (state p)) eqn:Hm;
    try (apply result_bind_Err in H as [H|([p1|] & Hh & H)];
         [by eapply handle_headers_error|simplify_eq/=; try lia..]);
    try (repeat case_match; simplify_eq; lia).
  destruct (last _) as [[]|]; simplify_eq; try lia.
  apply result_bind_Err in H as [H|([mv' cs'] & _ & H)]; [|done].
  apply update_hunk_line_error in H. lia.
Qed.

(** ** Whole streams *)

(** Lines completed by a delta. *)
Fixpoint newlines (s : str) : nat :=
  match s with
  | [] => 0
  | c :: s' => (if decide (c = nl) then 1 else 0) + newlines s'
  end.

Lemma take_line_inv p : parser_inv p -> parser_inv (take_line p).
Proof.
  unfold parser_inv. simpl. destruct (mode (state p)); try done.
  intros (? & ?). split; [lia|done].
Qed.

Lemma with_buffer_inv b p :
  parser_inv p ->
  parser_inv {| line_buffer := b; state := state p; line_number := line_number p |}.
Proof. done. Qed.

#[export] Hint Resolve take_line_inv with_buffer_inv : dcode.

Lemma push_delta_inv p delta p' r :
  parser_inv p -> push_delta p delta = (p', r) ->
  line_number p' <= line_number p + newlines delta /\
  match r with
  | Ok hs => parser_inv p' /\ hs = hunks (state p')
  | Err (InvalidHunkError _ n) => 1 <= n <= line_number p'
  | Err (InvalidPatchError _) => True
  end.
Proof.
  revert p. induction delta as [|ch delta IH]; intros p Hinv H; simpl in *.
  { simplify_eq. split; [lia|done]. }
  case_decide as Hch; [|apply IH in H; [simpl in H; split; [lia|apply H]|by apply with_buffer_inv]].
  apply take_line_inv in Hinv.
  destruct (process_line (take_line p) _) as [p2|e] eqn:Hp.
  - apply process_line_inv in Hp as (Hinv2 & Hn & _); [|simpl; lia|done].
    apply IH in H as (H1 & H2); [|done]. simpl in Hn. split; [lia|done].
  - simplify_eq. simpl. split; [lia|]. destruct e as [|m n]; [done|].
    by apply process_line_error in Hp; [|simpl; lia|].
Qed.

Lemma finish_inv p p' r :
  parser_inv p -> finish p = (p', r) ->
  line_number p' <= S (line_number p) /\
  match r with
  | Ok hs => Forall hunk_complete hs
  | Err (InvalidHunkError _ n) => 1 <= n <= line_number p'
  | Err (InvalidPatchError _) => True
  end.
Proof.
  intros Hinv H. unfold finish in H.
  assert (Hend : forall q, parser_inv q ->
    match mode (state q) with
    | EndedPatch => (q, Ok (hunks (state q)))
    | _ => (q, Err (InvalidPatchError msg_last_line))
    end = (p', r) ->
    q = p' /\ match r with Ok hs => Forall hunk_complete hs | Err (InvalidHunkError _ n) => False
              | Err (InvalidPatchError _) => True end).
  { unfold parser_inv. intros q Hq Hr. destruct (mode (state q)); by simplify_eq. }
  destruct (is_empty (line_buffer p)).
  { apply Hend in H as [<- H]; [|done]. split; [lia|]. by destruct r as [|[]]. }
  pose proof (take_line_inv p Hinv) as Hinv1. destruct (str_eqb _ _).
  - destruct (ensure_update_hunk_is_not_empty (take_line p) (trim (line_buffer p)))
      as [[]|e] eqn:He; simpl in H.
    + simplify_eq. simpl. split; [lia|]. by eapply (ensure_complete (take_line p)).
    + simplify_eq. split; [done|]. destruct e as [|m n]; [done|].
      by apply ensure_error_line in He; [|done|simpl; lia].
  - destruct (process_line (take_line p) _) as [q|e] eqn:Hp.
    + apply process_line_inv in Hp as (Hq & Hn & _); [|simpl; lia|done].
      apply Hend in H as [<- H]; [|done]. simpl in Hn. split; [lia|]. by destruct r as [|[]].
    + simplify_eq. split; [done|]. destruct e as [|m n]; [done|].
      by apply process_line_error in Hp; [|simpl; lia|].
Qed.

Lemma parser_default_inv : parser_inv parser_default.
Proof. done. Qed.

(** ** The boundary checks *)

Lemma strip_cr_sub c l : c ∉ l -> c ∉ strip_cr l.
Proof.
  unfold strip_cr. destruct (strip_suffix [cr] l) as [l'|] eqn:E; [|done].
  apply strip_suffix_Some in E. set_solver.
Qed.

Lemma lines_free s : Forall (fun l => nl ∉ l) (lines s).
Proof.
  unfold lines. pose proof (split_on_pieces nl s) as H.
  destruct (split_on nl s) as [|l segs] using rev_ind; [constructor|].
  rewrite removelast_last, last_snoc. apply Forall_app in H as [H1 H2].
  apply Forall_app. split.
  - apply Forall_fmap. eapply Forall_impl; [exact H1|]. intros x. apply strip_cr_sub.
  - destruct l; [constructor|done].
Qed.

Lemma newlines_app a b : newlines (a ++ b) = newlines a + newlines b.
Proof. induction a as [|c a IH]; simpl; lia. Qed.

Lemma newlines_free l : nl ∉ l -> newlines l = 0.
Proof.
  induction l as [|c l IH]; intros H; [done|]. simpl.
  case_decide; [set_solver|]. apply IH. set_solver.
Qed.

Lemma newlines_join ls :
  Forall (fun l => nl ∉ l) ls -> newlines (join [nl] ls) = length ls - 1.
Proof.
  induction 1 as [|l ls Hl Hls IH]; [done|].
  destruct ls as [|l' ls]; [by apply newlines_free|].
  rewrite join_cons by done. rewrite !newlines_app, IH, (newlines_free l) by done.
  simpl. lia.
Qed.

(** Lines accepted by the boundary checks: a part of the input that starts and
    ends with the markers. *)
Lemma boundaries_strict_Ok ls pl :
  check_patch_boundaries_strict ls = Ok pl ->
  pl = ls /\ trim <$> head ls = Some BEGIN_PATCH_MARKER /\ trim <$> last ls = Some END_PATCH_MARKER.
Proof.
  unfold check_patch_boundaries_strict, check_start_and_end_lines_strict. intros H. inv_bind.
  destruct (head _), (last _); simpl in *; repeat case_match; simplify_eq; try done.
  match goal with H : _ && _ = true |- _ => apply andb_true_iff in H as [H1 H2] end.
  apply str_eqb_eq in H1, H2. by rewrite H1, H2.
Qed.

Lemma boundaries_strict_Err ls e :
  check_patch_boundaries_strict ls = Err e -> exists m, e = InvalidPatchError m.
Proof.
  unfold check_patch_boundaries_strict, check_start_and_end_lines_strict. intros H.
  apply result_bind_Err in H as [H|(? & _ & ?)]; [|done].
  repeat case_match; simplify_eq; eauto.
Qed.

Lemma boundaries_lenient_Ok ls pl :
  check_patch_boundaries_lenient ls = Ok pl ->
  check_patch_boundaries_strict ls = Ok pl \/
  exists first mid lst, ls = first :: mid ++ [lst] /\ check_patch_boundaries_strict mid = Ok pl.
Proof.
  unfold check_patch_boundaries_lenient. intros H.
  destruct (check_patch_boundaries_strict ls) eqn:E; simplify_eq; [by left|].
  destruct ls as [|a rest]; [done|]. destruct rest as [|x mid] using rev_ind; [done|].
  assert (Hl : last (a :: mid ++ [x]) = Some x) by (rewrite app_comm_cons; apply last_snoc).
  cbn [tail] in H. rewrite removelast_last in H. clear IHmid E.
  destruct (mid ++ [x]) as [|y r] eqn:Er; [by destruct mid|].
  rewrite Hl, <- Er in *.
  repeat case_match; simplify_eq. right. eauto.
Qed.

Lemma boundaries_Ok m ls pl :
  match m with
  | Strict => check_patch_boundaries_strict ls
  | Lenient => check_patch_boundaries_lenient ls
  end = Ok pl ->
  pl <> [] /\ length pl <= length ls /\ forall P, Forall P ls -> Forall P pl.
Proof.
  assert (Hs : forall ls pl, check_patch_boundaries_strict ls = Ok pl -> pl = ls /\ pl <> []).
  { intros l p (-> & Hh & _)%boundaries_strict_Ok. split; [done|]. by intros ->. }
  destruct m; intros H; [apply Hs in H as [-> ?]; by auto|].
  apply boundaries_lenient_Ok in H as [H|(f & mid & l & -> & H)].
  { apply Hs in H as [-> ?]. by auto. }
  apply Hs in H as [-> Hne]. split; [done|].
  simpl. rewrite length_app. split; [lia|].
  intros P HP. inversion HP as [|? ? _ HP']; subst. by apply Forall_app in HP' as [? _].
Qed.

Lemma boundaries_Err m ls e :
  match m with
  | Strict => check_patch_boundaries_strict ls
  | Lenient => check_patch_boundaries_lenient ls
  end = Err e -> exists msg, e = InvalidPatchError msg.
Proof.
  destruct m; [apply boundaries_strict_Err|]. unfold check_patch_boundaries_lenient.
  destruct (check_patch_boundaries_strict ls) eqn:E; [done|].
  apply boundaries_strict_Err in E as [m ->]. intros H.
  repeat case_match; simplify_eq; eauto. by apply boundaries_strict_Err in H.
Qed.

(** What a run of the parser on checked lines yields, in every case. *)
Lemma parse_patch_text_cases t m r :
  parse_patch_text t m = r ->
  match r with
  | Ok args => Forall hunk_complete (args_hunks args)
  | Err (InvalidHunkError _ n) => 1 <= n <= length (lines (trim t))
  | Err (InvalidPatchError _) => True
  end.
Proof.
  unfold parse_patch_text. intros <-.
  destruct (match m with Strict => _ | Lenient => _ end) as [pl|e] eqn:Hb; simpl.
  2: { by apply boundaries_Err in Hb as [msg ->]. }
  apply boundaries_Ok in Hb as (Hne & Hlen & HP).
  pose proof (newlines_join pl (HP _ (lines_free (trim t)))) as Hnl.
  assert (0 < length pl) by (destruct pl; [done|simpl; lia]).
  destruct (push_delta parser_default (join [nl] pl)) as [p1 r1] eqn:Hp.
  apply push_delta_inv in Hp as [Hn1 Hr1]; [|done]. simpl in Hn1.
  destruct r1 as [hs|[|msg n]]; simpl; [|done|lia]. destruct Hr1 as [Hinv _].
  destruct (finish p1) as [p2 r2] eqn:Hf. apply finish_inv in Hf as [Hn2 Hr2]; [|done].
  destruct r2 as [hs2|[|msg n]]; simpl; [done|done|lia].
Qed.

(** ** Growing hunks *)

(** [l'] extends [l]: only the last element of [l] may still change, in the way
    [R] says, and elements are only added after it. *)
Definition extends {A} (R : relation A) (l l' : list A) : Prop :=
  l = [] \/ exists init x x' more, l = init ++ [x] /\ l' = init ++ x' :: more /\ R x x'.

(** A chunk keeps its context and only gains lines; at an end-of-file marker it
    is finished. *)
Definition chunk_grows (c c' : UpdateFileChunk) : Prop :=
  change_context c = change_context c' /\ old_lines c `prefix_of` old_lines c' /\
  new_lines c `prefix_of` new_lines c' /\ (is_end_of_file c = true -> c' = c).

(** A hunk keeps its kind and its path; a move is only read before the first
    chunk. *)
Definition hunk_grows (h h' : Hunk) : Prop :=
  match h, h' with
  | AddFile path contents, AddFile path' contents' => path = path' /\ contents `prefix_of` contents'
  | DeleteFile path, DeleteFile path' => path = path'
  | UpdateFile path move_path chunks, UpdateFile path' move_path' chunks' =>
      path = path' /\ (move_path = move_path' \/ move_path = None /\ chunks = []) /\
      extends chunk_grows chunks chunks'
  | _, _ => False
  end.

#[export] Instance extends_refl {A} (R : relation A) : Reflexive R -> Reflexive (extends R).
Proof.
  intros HR l. destruct l as [|x l] using rev_ind; [by left|right].
  exists l, x, x, []. split_and!; [done..|reflexivity].
Qed.

#[export] Instance extends_trans {A} (R : relation A) :
  Reflexive R -> Transitive R -> Transitive (extends R).
Proof.
  intros HR HT l1 l2 l3 [->|(init & x & x' & more & -> & -> & Hx)]; [by left|].
  intros [H|(init2 & y & y' & more2 & H & -> & Hy)]; [by destruct init|]. right.
  destruct more as [|m more _] using rev_ind.
  - apply app_inj_tail in H as [<- <-]. exists init, x, y', more2. split_and!; [done..|by etrans].
  - rewrite app_comm_cons, app_assoc in H. apply app_inj_tail in H as [<- <-].
    exists init, x, x', (more ++ y' :: more2). split_and!; [done| |done]. by rewrite <- app_assoc.
Qed.

Lemma extends_snoc {A} (R : relation A) l x : Reflexive R -> extends R l (l ++ [x]).
Proof.
  intros HR. destruct l as [|y l] using rev_ind; [by left|right].
  exists l, y, y, [x]. rewrite <- app_assoc. split_and!; [done..|reflexivity].
Qed.

Lemma extends_update_last {A} (R : relation A) (f : A -> A) l :
  (forall x, last l = Some x -> R x (f x)) -> extends R l (update_last f l).
Proof.
  destruct l as [|x l] using rev_ind; [by left|]. intros Hf. right.
  exists l, x, (f x), []. rewrite update_last_snoc. split_and!; [done..|]. apply Hf, last_snoc.
Qed.

#[export] Instance chunk_grows_refl : Reflexive chunk_grows.
Proof. by intros c. Qed.

#[export] Instance chunk_grows_trans : Transitive chunk_grows.
Proof.
  intros c1 c2 c3 (H1 & H2 & H3 & H4) (G1 & G2 & G3 & G4). split_and!; [congruence|by etrans..|].
  intros He. rewrite (H4 He) in G4. by apply G4.
Qed.

#[export] Instance hunk_grows_refl : Reflexive hunk_grows.
Proof. intros [| |path mv chunks]; simpl; split_and?; auto; reflexivity. Qed.

#[export] Instance hunk_grows_trans : Transitive hunk_grows.
Proof.
  intros [| |p1 m1 c1] [| |p2 m2 c2] [| |p3 m3 c3]; simpl; try done.
  - intros [-> ?] [-> ?]. split; [done|by etrans].
  - by intros -> ->.
  - intros (-> & Hm & Hc) (-> & Hm' & Hc'). split_and!; [done| |by etrans].
    destruct Hm as [->|[-> ->]]; [|by right]. destruct Hm' as [->|[-> ->]]; [by left|right]. split; [done|].
    destruct Hc as [->|(init & x & x' & more & _ & H & _)]; [done|by destruct init].
Qed.

Lemma push_old_new_grows c old new : is_end_of_file c = false -> chunk_grows c (push_old_new old new c).
Proof. intros He. split_and!; simpl; [done|by eexists..|congruence]. Qed.

Lemma push_line_grows chunks old new :
  last_chunk_is is_end_of_file chunks = false ->
  extends chunk_grows chunks (update_last (push_old_new old new) (ensure_chunk chunks)).
Proof.
  unfold last_chunk_is, ensure_chunk. intros He. destruct (is_empty chunks) eqn:Ee.
  { apply is_empty_true in Ee as ->. by left. }
  apply extends_update_last. intros c Hc. rewrite Hc in He. by apply push_old_new_grows.
Qed.

Lemma mark_end_of_file_grows chunks :
  last_chunk_is is_end_of_file chunks = false ->
  extends chunk_grows chunks (update_last mark_end_of_file chunks).
Proof.
  unfold last_chunk_is. intros He. apply extends_update_last. intros c Hc. rewrite Hc in He.
  split_and!; simpl; [done|reflexivity..|congruence].
Qed.

(** One line of the body of an update hunk. *)
Lemma update_hunk_line_grows n mv chunks line update_line mv' chunks' :
  update_hunk_line n mv chunks line update_line = Ok (mv', chunks') ->
  (mv = mv' \/ mv = None /\ chunks = []) /\ extends chunk_grows chunks chunks'.
Proof.
  unfold update_hunk_line. destruct (last_chunk_is is_end_of_file chunks) eqn:Heof; cbn [andb].
  { destruct (is_empty update_line) eqn:Hu; [intros [= <- <-]; split; [by left|reflexivity]|].
    destruct (is_context_marker update_line) eqn:Hc; [|done]. cbn [negb].
    assert (chunks <> []) as Hne by (by intros ->).
    assert (is_empty chunks = false) as -> by by apply is_empty_false. cbn [andb].
    destruct (last_chunk_is chunk_is_empty chunks); [done|]. unfold is_context_marker in Hc.
    destruct (str_eqb update_line _) eqn:E1;
      [intros [= <- <-]; split; [by left|by apply extends_snoc, _]|].
    simpl in Hc. unfold starts_with in Hc. destruct (strip_prefix CHANGE_CONTEXT_MARKER update_line); [|done].
    intros [= <- <-]. split; [by left|by apply extends_snoc, _]. }
  destruct (if is_empty chunks && _ then _ else _) as [dest|] eqn:Emv.
  { destruct (is_empty chunks) eqn:Ee; [|done]. apply is_empty_true in Ee as ->. cbn [andb] in Emv.
    destruct mv; [done|]. intros [= <- <-]. split; [by right|by left]. }
  repeat case_match; intros; simplify_eq; (split; [by left|]);
    first [by apply extends_snoc, _ | by apply push_line_grows | by apply mark_end_of_file_grows].
Qed.

Lemma handle_headers_grows p t p' :
  handle_hunk_headers_and_end_patch p t = Ok (Some p') ->
  extends hunk_grows (hunks (state p)) (hunks (state p')).
Proof.
  unfold handle_hunk_headers_and_end_patch. intros H.
  repeat match type of H with
  | match ?m with _ => _ end = _ => destruct m eqn:?; try discriminate H
  end; inv_bind; simplify_eq; simpl; first [reflexivity | by apply extends_snoc, _].
Qed.

Lemma process_line_grows p line p' :
  process_line p line = Ok p' -> extends hunk_grows (hunks (state p)) (hunks (state p')).
Proof.
  unfold process_line. intros H. destruct (mode (state p)); inv_bind.
  - destruct (str_eqb _ _); simplify_eq. simpl. reflexivity.
  - destruct x; simplify_eq. by eapply handle_headers_grows.
  - destruct x; simplify_eq; [by eapply handle_headers_grows|].
    destruct (strip_prefix _ _) as [l|], (last (hunks (state p))) as [[path contents| |]|] eqn:El; simplify_eq.
    simpl. apply extends_update_last. intros h Hh. rewrite El in Hh. injection Hh as <-.
    split; [done|by eexists].
  - destruct x; simplify_eq. by eapply handle_headers_grows.
  - destruct x; simplify_eq; [by eapply handle_headers_grows|].
    destruct (last (hunks (state p))) as [[| |path mv chunks]|] eqn:El; try done. inv_bind.
    destruct x as [mv' chunks']. inv_bind. simpl. apply extends_update_last. intros h Hh.
    rewrite El in Hh. injection Hh as <-. split; [done|]. by eapply update_hunk_line_grows.
  - destruct (is_empty _); simplify_eq. reflexivity.
Qed.

Lemma push_delta_grows p delta : extends hunk_grows (hunks (state p)) (hunks (state (push_delta p delta).1)).
Proof.
  revert p. induction delta as [|c delta IH]; intros p; simpl; [reflexivity|].
  case_decide; [|exact (IH {| line_buffer := line_buffer p ++ [c]; state := state p; line_number := line_number p |})].
  destruct (process_line _ _) as [p2|e] eqn:E; [|reflexivity]. apply process_line_grows in E. etrans; [exact E|apply IH].
Qed.

Lemma push_deltas_grows p deltas : extends hunk_grows (hunks (state p)) (hunks (state (push_deltas p deltas).1)).
Proof.
  revert p. induction deltas as [|d ds IH]; intros p; simpl; [reflexivity|].
  pose proof (push_delta_grows p d) as Hd. destruct (push_delta p d) as [p' []]; simpl in *; [|done].
  etrans; [exact Hd|apply IH].
Qed.

Lemma finish_grows p p' hs : finish p = (p', Ok hs) -> extends hunk_grows (hunks (state p)) hs.
Proof.
  unfold finish. destruct (is_empty (line_buffer p)).
  { destruct (mode (state p)); intros [= <- <-]. reflexivity. }
  destruct (str_eqb _ _).
  - destruct (ensure_update_hunk_is_not_empty _ _) as [[]|]; simpl; intros H; simplify_eq. reflexivity.
  - destruct (process_line _ _) as [q|] eqn:E; [|done]. apply process_line_grows in E. simpl in E.
    destruct (mode (state q)); intros [= <- <-]. exact E.
Qed.

Lemma push_deltas_app p ds es p' hs :
  push_deltas p ds = (p', Ok hs) -> push_deltas p (ds ++ es) = push_deltas p' es.
Proof.
  revert p. induction ds as [|d ds IH]; intros p; simpl; [by intros [= <- _]|].
  destruct (push_delta p d) as [p1 []]; [apply IH|done].
Qed.

(** Feeding a stream in deltas leaves the parser that the whole text would have
    left, wherever the stream is cut. *)
Theorem streaming_deltas_equiv p deltas :
  push_deltas p deltas = push_delta p (concat deltas).
Proof.
  revert p. induction deltas as [|d ds IH]; intros p; [done|].
  simpl. rewrite push_delta_app. destruct (push_delta p d) as [p' []]; [apply IH|done].
Qed.

(** ** Properties *)

(** C11: What a client of the streaming parser has been shown is never taken
    back.  Whatever deltas arrive later, also when one of them is an error, all
    hunks shown but the last stay as they are; the last one keeps its kind and
    path and only grows (text is appended to a new file, lines to the last chunk
    of an update, chunks after it; a move is only read before the first chunk; a
    chunk with the end-of-file marker is finished); and the hunks that [finish]
    returns, if it succeeds, extend in the same way all that was shown. *)
Theorem shown_hunks_only_grow p before after p1 shown :
  push_deltas p before = (p1, Ok shown) ->
  let p2 := (push_deltas p (before ++ after)).1 in
  extends hunk_grows shown (hunks (state p2)) /\
  forall p3 hs, finish p2 = (p3, Ok hs) -> extends hunk_grows shown hs.
Proof.
  intros Hb. assert (shown = hunks (state p1)) as ->.
  { revert p Hb. induction before as [|d ds IH]; intros p; simpl; [by intros [= <- <-]|].
    destruct (push_delta p d) as [p' []]; [apply IH|done]. }
  rewrite (push_deltas_app _ _ _ _ _ Hb). pose proof (push_deltas_grows p1 after) as Hg.
  split; [exact Hg|]. intros p3 hs Hf%finish_grows. by etrans.
Qed.

Definition first_deltas : list str :=
  [s! "*** Begin Patch" ++ [nl] ++ s! "*** Update File: a"; [nl] ++ s! "-x" ++ [nl] ++ s! "+"].
Definition more_deltas : list str := [s! "y"; [nl] ++ s! "*** End Patch"].
Definition one_chunk (new : list str) : list Hunk :=
  [UpdateFile (s! "a") None
     [{| change_context := None; old_lines := [s! "x"]; new_lines := new; is_end_of_file := false |}]].

Lemma shown_hunks_only_grow_witness :
  (push_deltas parser_default first_deltas).2 = Ok (one_chunk []) /\
  (finish (push_deltas parser_default (first_deltas ++ more_deltas)).1).2 = Ok (one_chunk [s! "y"]) /\
  extends hunk_grows (one_chunk []) (one_chunk [s! "y"]).
Proof.
  split; [vm_compute; reflexivity|]. split; [vm_compute; reflexivity|].
  eapply (shown_hunks_only_grow parser_default first_deltas more_deltas); vm_compute; reflexivity.
Defined.

(** C18: The hunks of a successful parse are complete: every update hunk has at
    least one chunk, and every chunk has at least one line, be it kept, removed
    or added. *)
Theorem parse_patch_complete patch args :
  parse_patch patch = Ok args -> Forall hunk_complete (args_hunks args).
Proof. intros H. by apply (parse_patch_text_cases patch Lenient _ H). Qed.

Lemma parse_patch_complete_witness :
  exists args,
    parse_patch (join [nl] [s! "*** Begin Patch"; s! "*** Update File: a"; s! "@@"; s! "+x";
                            s! "*** End Patch"]) = Ok args /\
    Forall hunk_complete (args_hunks args).
Proof.
  eexists. split; [vm_compute; reflexivity|].
  eapply (parse_patch_complete (join [nl] [s! "*** Begin Patch"; s! "*** Update File: a"; s! "@@";
    s! "+x"; s! "*** End Patch"])).
  vm_compute. reflexivity.
Defined.

(** The line number of a hunk error is the number of a line of the trimmed
    patch, counted from 1. *)
Theorem parse_patch_error_line patch msg n :
  parse_patch patch = Err (InvalidHunkError msg n) -> 1 <= n <= length (lines (trim patch)).
Proof. intros H. by apply (parse_patch_text_cases patch Lenient _ H). Qed.

Lemma parse_patch_error_line_witness :
  exists msg,
    parse_patch (join [nl] [s! "*** Begin Patch"; s! "*** Update File: test.py"; s! "*** End Patch"])
    = Err (InvalidHunkError msg 2) /\
    1 <= 2 <= length (lines (trim (join [nl] [s! "*** Begin Patch"; s! "*** Update File: test.py";
                                              s! "*** End Patch"]))).
Proof.
  eexists. split; [vm_compute; reflexivity|].
  eapply (parse_patch_error_line (join [nl] [s! "*** Begin Patch"; s! "*** Update File: test.py";
    s! "*** End Patch"])).
  vm_compute. reflexivity.
Defined.
