(* ===== verification/PatchPrinter.v ===== *)
(** * Printing patches, and reading them back

    A printer for the patch language ([parser.rs], the grammar at the top of the
    file), and the round trip: what it prints, [parse_patch] parses back to the
    same hunks.  The heredoc wrapper of the lenient mode is covered too. *)

From S2P Require Import Prelude.
From S2P Require Import RustStr.
From S2P Require Import PatchParser.
From S2P Require Import PatchParserFacts.

(** ** The body of a chunk *)

(** A line that is kept, removed or added. *)
Inductive edit := Keep (l : str) | Remove (l : str) | Add (l : str).

Definition print_edit (e : edit) : str :=
  match e with Keep l => 32%N :: l | Remove l => 45%N :: l | Add l => 43%N :: l end.

Definition edit_old (e : edit) : list str :=
  match e with Keep l | Remove l => [l] | Add _ => [] end.
Definition edit_new (e : edit) : list str :=
  match e with Keep l | Add l => [l] | Remove _ => [] end.

(** One way to lay out a chunk: the lines with which both sides start are kept,
    the other old lines are removed and the other new lines added. *)
Fixpoint prefix_layout (old new : list str) : list edit :=
  match old, new with
  | a :: old', b :: new' =>
      if str_eqb a b then Keep a :: prefix_layout old' new'
      else (Remove <$> old) ++ (Add <$> new)
  | _, _ => (Remove <$> old) ++ (Add <$> new)
  end.

(** ** The printer, for every layout of the chunks *)

Section Printer.
Context (layout : UpdateFileChunk -> list edit).

Definition print_chunk (c : UpdateFileChunk) : list str :=
  match change_context c with
  | None => EMPTY_CHANGE_CONTEXT_MARKER
  | Some ctx => CHANGE_CONTEXT_MARKER ++ ctx
  end
  :: (print_edit <$> layout c) ++ (if is_end_of_file c then [EOF_MARKER] else []).

(** The lines of the contents of a new file. *)
Definition content_lines (contents : str) : list str := removelast (split_on nl contents).

Definition print_hunk (h : Hunk) : list str :=
  match h with
  | AddFile path contents =>
      (ADD_FILE_MARKER ++ path) :: (cons 43%N <$> content_lines contents)
  | DeleteFile path => [DELETE_FILE_MARKER ++ path]
  | UpdateFile path move_path chunks =>
      (UPDATE_FILE_MARKER ++ path)
      :: match move_path with Some dest => [MOVE_TO_MARKER ++ dest] | None => [] end
      ++ concat (print_chunk <$> chunks)
  end.

Definition print_body (env : option str) (hs : list Hunk) : list str :=
  BEGIN_PATCH_MARKER
  :: match env with Some e => [ENVIRONMENT_ID_MARKER ++ e] | None => [] end
  ++ concat (print_hunk <$> hs).

Definition print_lines (env : option str) (hs : list Hunk) : list str :=
  print_body env hs ++ [END_PATCH_MARKER].

Definition print_patch (env : option str) (hs : list Hunk) : str :=
  join [nl] (print_lines env hs).

(** A layout says what the chunk says. *)
Definition layout_ok : Prop := forall c,
  flat_map edit_old (layout c) = old_lines c /\ flat_map edit_new (layout c) = new_lines c.

End Printer.

(** ** What can be printed *)

(** A line the parser reads back unchanged. *)
Definition plain_line (l : str) : Prop := (nl ∉ l) /\ last l <> Some cr.

(** An argument of a header: not empty and without trailing blanks. *)
Definition header_arg (a : str) : Prop := a <> [] /\ (nl ∉ a) /\ clean_last a.

Definition printable_chunk (c : UpdateFileChunk) : Prop :=
  chunk_filled c /\ Forall plain_line (old_lines c) /\ Forall plain_line (new_lines c) /\
  match change_context c with Some ctx => header_arg ctx | None => True end.

Definition printable (h : Hunk) : Prop :=
  match h with
  | AddFile path contents =>
      header_arg path /\ last (split_on nl contents) = Some [] /\
      Forall plain_line (content_lines contents)
  | DeleteFile path => header_arg path
  | UpdateFile path move_path chunks =>
      header_arg path /\ chunks <> [] /\ Forall printable_chunk chunks /\
      match move_path with Some dest => header_arg dest | None => True end
  end.

Definition printable_env (env : option str) : Prop :=
  match env with Some e => header_arg e /\ clean_head e | None => True end.

(** ** Running the parser line by line *)

Fixpoint run_lines (p : StreamingPatchParser) (ls : list str)
    : result StreamingPatchParser ParseError :=
  match ls with
  | [] => Ok p
  | l :: ls' => let? p' := process_line (take_line p) l in run_lines p' ls'
  end.

Lemma run_lines_app p ls ks :
  run_lines p (ls ++ ks) = let? p' := run_lines p ls in run_lines p' ks.
Proof.
  revert p. induction ls as [|l ls IH]; intros p; [done|]. simpl.
  rewrite result_bind_assoc. destruct (process_line _ _); simpl; [apply IH|done].
Qed.

Lemma run_lines_inv p ls p' :
  parser_inv p -> line_buffer p = [] -> run_lines p ls = Ok p' ->
  parser_inv p' /\ line_buffer p' = [].
Proof.
  revert p. induction ls as [|l ls IH]; intros p Hinv Hb H; simpl in *; [by simplify_eq|].
  apply result_bind_Ok in H as (p1 & H1 & H2).
  apply process_line_inv in H1 as (Hi & _ & Hb1); [|simpl; lia|by apply take_line_inv].
  by apply (IH p1).
Qed.

Lemma strip_cr_plain l : last l <> Some cr -> strip_cr l = l.
Proof.
  intros H. unfold strip_cr. destruct (strip_suffix [cr] l) eqn:E; [|done].
  apply strip_suffix_Some in E as ->. by rewrite last_snoc in H.
Qed.

Lemma push_delta_buffer p l s :
  nl ∉ l ->
  push_delta p (l ++ s) =
  push_delta {| line_buffer := line_buffer p ++ l; state := state p;
                line_number := line_number p |} s.
Proof.
  revert p. induction l as [|c l IH]; intros p H; simpl.
  { rewrite app_nil_r. by destruct p. }
  rewrite decide_False by set_solver. rewrite IH by set_solver. simpl.
  by rewrite <- app_assoc.
Qed.

Lemma push_delta_run p ls lst p' :
  parser_inv p -> line_buffer p = [] -> Forall plain_line ls -> nl ∉ lst ->
  run_lines p ls = Ok p' ->
  push_delta p (join [nl] (ls ++ [lst])) =
  ({| line_buffer := lst; state := state p'; line_number := line_number p' |},
   Ok (hunks (state p'))).
Proof.
  intros Hinv Hb Hls Hlst H. revert p Hinv Hb H.
  induction Hls as [|l ls [Hl1 Hl2] Hls IH]; intros p Hinv Hb H; cbn [run_lines] in H.
  - simplify_eq. simpl join. rewrite <- (app_nil_r lst) at 1. rewrite push_delta_buffer by done.
    by rewrite Hb.
  - rewrite <- app_comm_cons, join_cons by (by destruct ls).
    rewrite push_delta_buffer by done. simpl. rewrite Hb. simpl. apply result_bind_Ok in H as (p1 & H1 & H2).
    rewrite strip_cr_plain by done. unfold take_line in *. simpl in *. rewrite H1.
    apply process_line_inv in H1 as (Hi & _ & Hb1);
      [|simpl; lia|by apply (take_line_inv p)].
    by apply IH.
Qed.

(** ** Header lines *)

(** The parser is between two hunks: a header may follow. *)
Definition ready (p : StreamingPatchParser) : Prop :=
  match mode (state p) with NotStarted | EndedPatch => False | _ => True end /\
  match last (hunks (state p)) with
  | Some (UpdateFile _ _ chunks) => chunks <> [] /\ last_chunk_is chunk_is_empty chunks = false
  | _ => True
  end.

Lemma ready_ensure p line : ready p -> ensure_update_hunk_is_not_empty (take_line p) line = Ok tt.
Proof.
  unfold ready, ensure_update_hunk_is_not_empty. simpl. intros [_ H].
  destruct (last _) as [[| |path mv cs]|]; try done. destruct H as [H1 ->].
  by rewrite (proj2 (is_empty_false cs) H1).
Qed.

(** In every mode between hunks, a line that is a header is handled as one. *)
Lemma process_header p t p' :
  ready p -> clean_head t -> clean_last t ->
  handle_hunk_headers_and_end_patch (take_line p) t = Ok (Some p') ->
  process_line (take_line p) t = Ok p'.
Proof.
  intros [Hm _] Hh Hl H. unfold process_line. simpl in *.
  rewrite (trim_id t) by done. rewrite (trim_end_id t) by done.
  destruct (mode (state p)); try done; by rewrite H.
Qed.

Lemma marker_clean m a :
  (exists c m', m = c :: m' /\ is_whitespace c = false) -> header_arg a ->
  clean_head (m ++ a) /\ clean_last (m ++ a).
Proof.
  intros (c & m' & -> & Hc) (Hne & _ & Hl). split.
  - by intros d [= <-].
  - intros d. rewrite last_app. destruct (last a) eqn:E; [|by apply last_None in E].
    intros [= <-]. by apply Hl.
Qed.

Ltac solve_marker := eexists _, _; split; [reflexivity|reflexivity].

(** The parser after a hunk header, everything but the hunks and the mode
    unchanged. *)
Definition after_hunk (p p' : StreamingPatchParser) (h : Hunk) : Prop :=
  hunks (state p') = hunks (state p) ++ [h] /\
  environment_id (state p') = environment_id (state p).

Ltac solve_handle p Hr :=
  pose proof (fun l => ready_ensure p l Hr) as He; destruct Hr as [Hm _];
  unfold handle_hunk_headers_and_end_patch; simpl mode;
  destruct (mode (state p)); try done; simpl; rewrite He; reflexivity.

Lemma handle_add p path :
  ready p ->
  handle_hunk_headers_and_end_patch (take_line p) (ADD_FILE_MARKER ++ path) =
  Ok (Some (set_state (take_line p) ModeAddFile (hunks (state p) ++ [AddFile path []])
              (environment_id (state p)))).
Proof. intros Hr. solve_handle p Hr. Qed.

Lemma handle_delete p path :
  ready p ->
  handle_hunk_headers_and_end_patch (take_line p) (DELETE_FILE_MARKER ++ path) =
  Ok (Some (set_state (take_line p) ModeDeleteFile (hunks (state p) ++ [DeleteFile path])
              (environment_id (state p)))).
Proof. intros Hr. solve_handle p Hr. Qed.

Lemma handle_update p path :
  ready p ->
  handle_hunk_headers_and_end_patch (take_line p) (UPDATE_FILE_MARKER ++ path) =
  Ok (Some (set_state (take_line p) (ModeUpdateFile (S (line_number p)))
              (hunks (state p) ++ [UpdateFile path None []]) (environment_id (state p)))).
Proof. intros Hr. solve_handle p Hr. Qed.

(** Only lines that start with a star are headers. *)
Lemma handle_no_star p l :
  head l <> Some 42%N -> handle_hunk_headers_and_end_patch p l = Ok None.
Proof.
  intros H. unfold handle_hunk_headers_and_end_patch.
  assert (Hs : forall m, strip_prefix (42%N :: m) l = None).
  { intros m. apply strip_prefix_None. intros r E. by rewrite E in H. }
  assert (str_eqb l END_PATCH_MARKER = false) as ->.
  { apply str_eqb_neq. by intros ->. }
  unfold ENVIRONMENT_ID_MARKER, ADD_FILE_MARKER, DELETE_FILE_MARKER, UPDATE_FILE_MARKER.
  rewrite !Hs. by destruct (mode (state p)).
Qed.

Lemma trim_end_cons c s : is_whitespace c = false -> trim_end (c :: s) = c :: trim_end s.
Proof.
  intros Hc. destruct (decide (trim_end s = [])) as [E|E].
  - rewrite E. change (c :: s) with ([c] ++ s). rewrite trim_end_app_ws by (by apply trim_end_nil).
    apply trim_end_id. by intros d [= <-].
  - change (c :: s) with ([c] ++ s). by rewrite trim_end_app_clean.
Qed.

(** ** Added files *)

Lemma add_line p hs path contents l :
  mode (state p) = ModeAddFile -> hunks (state p) = hs ++ [AddFile path contents] ->
  process_line (take_line p) (43%N :: l) =
  Ok (set_state (take_line p) ModeAddFile (hs ++ [AddFile path (contents ++ l ++ [nl])])
        (environment_id (state p))).
Proof.
  intros Hm Hh. unfold process_line. simpl. rewrite Hm, handle_no_star.
  - simpl. by rewrite Hh, last_snoc, update_last_snoc.
  - unfold trim. simpl. rewrite trim_end_cons by done. done.
Qed.

Lemma add_lines ls : forall p hs path contents,
  mode (state p) = ModeAddFile -> hunks (state p) = hs ++ [AddFile path contents] ->
  exists p', run_lines p (cons 43%N <$> ls) = Ok p' /\ mode (state p') = ModeAddFile /\
    hunks (state p') = hs ++ [AddFile path (contents ++ concat ((fun l => l ++ [nl]) <$> ls))] /\
    environment_id (state p') = environment_id (state p).
Proof.
  induction ls as [|l ls IH]; intros p hs path contents Hm Hh.
  { exists p. simpl. by rewrite app_nil_r. }
  rewrite fmap_cons. cbn [run_lines]. rewrite (add_line p hs path contents) by done. simpl.
  edestruct (IH (set_state (take_line p) ModeAddFile
    (hs ++ [AddFile path (contents ++ l ++ [nl])]) (environment_id (state p))))
    as (p' & H1 & H2 & H3 & H4); [done..|].
  exists p'. split; [done|]. split; [done|]. split; [|done].
  rewrite H3. by rewrite <- !app_assoc.
Qed.

(** Contents that end with a newline are the lines with a newline each. *)
Lemma content_lines_concat contents :
  last (split_on nl contents) = Some [] ->
  concat ((fun l => l ++ [nl]) <$> content_lines contents) = contents.
Proof.
  intros H. unfold content_lines. rewrite <- (join_split_on nl contents) at 2.
  apply last_Some_snoc in H as [ls ->]. rewrite removelast_last.
  induction ls as [|l ls IH]; [done|].
  rewrite <- app_comm_cons, join_cons by (by destruct ls).
  rewrite fmap_cons. cbn [concat]. by rewrite IH, <- app_assoc.
Qed.

(** ** Update hunks *)

(** The last hunk is an update hunk under construction. *)
Definition in_update (p : StreamingPatchParser) (hs : list Hunk) (path : str)
    (mv : option str) (cs : list UpdateFileChunk) (env : option str) : Prop :=
  (exists n, mode (state p) = ModeUpdateFile n) /\
  hunks (state p) = hs ++ [UpdateFile path mv cs] /\ environment_id (state p) = env.

Lemma update_step p hs path mv cs env l mv' cs' :
  in_update p hs path mv cs env ->
  (forall q, mode (state q) <> StartedPatch ->
     handle_hunk_headers_and_end_patch q (trim_end l) = Ok None) ->
  (forall n, update_hunk_line n mv cs l (trim_end l) = Ok (mv', cs')) ->
  exists p', process_line (take_line p) l = Ok p' /\ in_update p' hs path mv' cs' env.
Proof.
  intros ([n Hm] & Hh & He) Hnone Hu. unfold process_line. simpl.
  rewrite Hm, Hnone by (simpl; by rewrite Hm). simpl. rewrite Hh, last_snoc, Hu. simpl.
  eexists. split; [done|]. split; [by exists n|]. simpl. by rewrite update_last_snoc.
Qed.

Lemma move_line p hs path env dest :
  header_arg dest -> in_update p hs path None [] env ->
  exists p', process_line (take_line p) (MOVE_TO_MARKER ++ dest) = Ok p' /\
    in_update p' hs path (Some dest) [] env.
Proof.
  intros Ha Hp. destruct (marker_clean MOVE_TO_MARKER dest) as [_ Hl]; [solve_marker|done|].
  eapply update_step; [done|..]; rewrite trim_end_id by done.
  - intros q Hq. unfold handle_hunk_headers_and_end_patch.
    destruct (mode (state q)); try done; reflexivity.
  - intros n. reflexivity.
Qed.

(** The context line of a chunk, when the previous chunk is filled. *)
Definition context_line (ctx : option str) : str :=
  match ctx with
  | None => EMPTY_CHANGE_CONTEXT_MARKER
  | Some c => CHANGE_CONTEXT_MARKER ++ c
  end.

Lemma chunk_header p hs path mv cs env ctx :
  match ctx with Some c => header_arg c | None => True end ->
  last_chunk_is chunk_is_empty cs = false -> in_update p hs path mv cs env ->
  exists p', process_line (take_line p) (context_line ctx) = Ok p' /\
    in_update p' hs path mv (cs ++ [empty_chunk ctx]) env.
Proof.
  intros Ha Hlast Hp.
  assert (trim_end (context_line ctx) = context_line ctx) as Ht.
  { apply trim_end_id. destruct ctx as [c|]; simpl context_line; [|by intros d [= <-]].
    apply (marker_clean CHANGE_CONTEXT_MARKER c); [solve_marker|done]. }
  assert (is_context_marker (context_line ctx) = true) as Hmark by (by destruct ctx).
  eapply update_step; [done|..]; rewrite Ht.
  - intros q Hq. apply handle_no_star. by destruct ctx.
  - intros n. unfold update_hunk_line. rewrite Hmark, Hlast, andb_false_r.
    assert (is_empty (context_line ctx) = false) as -> by (by destruct ctx).
    rewrite andb_false_r.
    assert (strip_prefix MOVE_TO_MARKER (context_line ctx) = None) as -> by (by destruct ctx).
    destruct ctx as [c|], (last_chunk_is is_end_of_file cs), (is_empty cs && _); simpl; reflexivity.
Qed.

(** A removed or an added line goes to the last chunk. *)
Lemma trim_end_head c l : trim_end (c :: l) = [] \/ exists r, trim_end (c :: l) = c :: r.
Proof.
  change (c :: l) with ([c] ++ l). destruct (decide (trim_end l = [])) as [E|E].
  - rewrite trim_end_app_ws by (by apply trim_end_nil).
    destruct (is_whitespace c) eqn:Ec; [left; apply trim_end_nil; by constructor|].
    right. exists []. apply trim_end_id. by intros d [= <-].
  - rewrite trim_end_app_clean by done. right. by eexists.
Qed.

Lemma body_line p hs path mv cs c env e :
  in_update p hs path mv (cs ++ [c]) env -> is_end_of_file c = false ->
  exists p', process_line (take_line p) (print_edit e) = Ok p' /\
    in_update p' hs path mv (cs ++ [push_old_new (edit_old e) (edit_new e) c]) env.
Proof.
  intros Hp Hc.
  assert (Ht : trim_end (print_edit e) = [] \/
    exists d r, trim_end (print_edit e) = d :: r /\ d ∈ [32%N; 43%N; 45%N]).
  { destruct e as [l|l|l]; cbn [print_edit];
      match goal with |- trim_end (?x :: ?y) = _ \/ _ => destruct (trim_end_head x y) as [H|[r H]] end;
      rewrite H; (by left) || (right; eexists _, r; split; [done|set_solver]). }
  eapply update_step; [done|..].
  - intros q Hq. apply handle_no_star. destruct Ht as [-> |(d & r & -> & Hd)]; [done|].
    intros [= ->]. rewrite !elem_of_cons in Hd. by destruct Hd as [?|[?|[?|[]%not_elem_of_nil]]].
  - intros n. unfold update_hunk_line, ensure_chunk, last_chunk_is. rewrite last_snoc, Hc.
    assert (is_empty (cs ++ [c]) = false) as -> by (by destruct cs). cbn [andb].
    assert (Hm : is_context_marker (trim_end (print_edit e)) = false /\
      str_eqb (trim_end (print_edit e)) EMPTY_CHANGE_CONTEXT_MARKER = false /\
      strip_prefix CHANGE_CONTEXT_MARKER (trim_end (print_edit e)) = None /\
      str_eqb (trim_end (print_edit e)) EOF_MARKER = false).
    { destruct Ht as [-> |(d & r & -> & Hd)]; [done|].
      rewrite !elem_of_cons in Hd. by destruct Hd as [-> |[-> |[-> |[]%not_elem_of_nil]]]. }
    destruct Hm as (-> & -> & -> & ->). cbn [andb].
    destruct e; simpl; by rewrite update_last_snoc.
Qed.

Lemma eof_line p hs path mv cs c env :
  in_update p hs path mv (cs ++ [c]) env -> is_end_of_file c = false -> chunk_filled c ->
  exists p', process_line (take_line p) EOF_MARKER = Ok p' /\
    in_update p' hs path mv (cs ++ [mark_end_of_file c]) env.
Proof.
  intros Hp Hc Hf. assert (Ht : trim_end EOF_MARKER = EOF_MARKER) by reflexivity.
  eapply update_step; [done|..]; rewrite Ht.
  - intros q Hq. unfold handle_hunk_headers_and_end_patch.
    destruct (mode (state q)); try done; reflexivity.
  - intros n. unfold update_hunk_line, last_chunk_is. rewrite last_snoc, Hc, Hf.
    rewrite update_last_snoc. assert (is_empty (cs ++ [c]) = false) as -> by (by destruct cs).
    done.
Qed.

Lemma push_old_new_nil c : push_old_new [] [] c = c.
Proof. destruct c. unfold push_old_new. simpl. by rewrite !app_nil_r. Qed.

Lemma push_old_new_app a b a' b' c :
  push_old_new a b (push_old_new a' b' c) = push_old_new (a' ++ a) (b' ++ b) c.
Proof. destruct c. unfold push_old_new. simpl. by rewrite <- !app_assoc. Qed.

Lemma body_lines p hs path mv cs c env es :
  in_update p hs path mv (cs ++ [c]) env -> is_end_of_file c = false ->
  exists p', run_lines p (print_edit <$> es) = Ok p' /\
    in_update p' hs path mv
      (cs ++ [push_old_new (flat_map edit_old es) (flat_map edit_new es) c]) env.
Proof.
  revert p c. induction es as [|e es IH]; intros p c Hp Hc.
  - exists p. split; [done|]. by rewrite push_old_new_nil.
  - rewrite fmap_cons. cbn [run_lines].
    destruct (body_line p hs path mv cs c env e) as (p1 & -> & Hp1); [done..|]. simpl.
    destruct (IH p1 _ Hp1 Hc) as (p2 & H2 & Hp2). exists p2. split; [done|].
    by rewrite push_old_new_app in Hp2.
Qed.

Section Roundtrip.
Context (layout : UpdateFileChunk -> list edit) (Hlayout : layout_ok layout).
#[local] Abbreviation print_chunk := (print_chunk layout).
#[local] Abbreviation print_hunk := (print_hunk layout).
#[local] Abbreviation print_body := (print_body layout).
#[local] Abbreviation print_lines := (print_lines layout).
#[local] Abbreviation print_patch := (print_patch layout).

Lemma chunk_lines p hs path mv cs c env :
  printable_chunk c -> last_chunk_is chunk_is_empty cs = false ->
  in_update p hs path mv cs env ->
  exists p', run_lines p (print_chunk c) = Ok p' /\ in_update p' hs path mv (cs ++ [c]) env.
Proof.
  intros (Hf & _ & _ & Hctx) Hlast Hp. unfold print_chunk. cbn [run_lines].
  destruct (chunk_header p hs path mv cs env (change_context c)) as (p1 & H1 & Hp1); [done..|].
  unfold context_line in H1. rewrite H1. cbn [result_bind]. rewrite run_lines_app.
  destruct (body_lines p1 hs path mv cs _ env (layout c) Hp1 eq_refl) as (p3 & -> & Hp3).
  destruct (Hlayout c) as [-> ->] in Hp3. cbn [result_bind].
  destruct c as [ctx old new eof]. cbn [is_end_of_file] in *. destruct eof; cbn [run_lines].
  - destruct (eof_line p3 hs path mv cs _ env Hp3 eq_refl Hf) as (p4 & -> & Hp4). by exists p4.
  - by exists p3.
Qed.

Lemma chunks_lines chunks : forall p hs path mv cs env,
  Forall printable_chunk chunks -> last_chunk_is chunk_is_empty cs = false ->
  in_update p hs path mv cs env ->
  exists p', run_lines p (concat (print_chunk <$> chunks)) = Ok p' /\
    in_update p' hs path mv (cs ++ chunks) env.
Proof.
  induction chunks as [|c chunks IH]; intros p hs path mv cs env Hall Hlast Hp.
  { exists p. by rewrite app_nil_r. }
  inversion Hall as [|? ? Hc Hcs]; subst. rewrite fmap_cons. cbn [concat]. rewrite run_lines_app.
  destruct (chunk_lines p hs path mv cs c env) as (p1 & -> & Hp1); [done..|]. simpl.
  destruct (IH p1 hs path mv (cs ++ [c]) env) as (p2 & H2 & Hp2); [done| |done|].
  { unfold last_chunk_is. rewrite last_snoc. apply Hc. }
  exists p2. by rewrite <- app_assoc in Hp2.
Qed.

(** ** Whole hunks *)

Lemma hunk_lines p h :
  printable h -> ready p ->
  exists p', run_lines p (print_hunk h) = Ok p' /\ ready p' /\ after_hunk p p' h.
Proof.
  intros Hpr Hr. destruct h as [path contents|path|path mv chunks]; cbn [print_hunk run_lines].
  - destruct Hpr as (Ha & Hlast & Hls).
    destruct (marker_clean ADD_FILE_MARKER path) as [Hh Hl]; [solve_marker|done|].
    rewrite (process_header p _ _ Hr Hh Hl (handle_add p path Hr)). cbn [result_bind].
    set (p1 := set_state _ _ _ _).
    destruct (add_lines (content_lines contents) p1 (hunks (state p)) path [])
      as (p' & H1 & Hm & H2 & H3); [done..|].
    exists p'. split; [exact H1|]. simpl in H2. rewrite content_lines_concat in H2 by done.
    unfold ready, after_hunk. by rewrite Hm, H2, last_snoc.
  - destruct (marker_clean DELETE_FILE_MARKER path) as [Hh Hl]; [solve_marker|done|].
    rewrite (process_header p _ _ Hr Hh Hl (handle_delete p path Hr)).
    eexists. split; [done|]. unfold ready, after_hunk. simpl. by rewrite last_snoc.
  - destruct Hpr as (Ha & Hne & Hcs & Hmv).
    destruct (marker_clean UPDATE_FILE_MARKER path) as [Hh Hl]; [solve_marker|done|].
    rewrite (process_header p _ _ Hr Hh Hl (handle_update p path Hr)). cbn [result_bind].
    set (p1 := set_state _ _ _ _).
    assert (Hp1 : in_update p1 (hunks (state p)) path None [] (environment_id (state p))).
    { split; [by eexists|]. done. }
    assert (exists p2, run_lines p1
      match mv with Some dest => [MOVE_TO_MARKER ++ dest] | None => [] end = Ok p2 /\
      in_update p2 (hunks (state p)) path mv [] (environment_id (state p))) as (p2 & H2 & Hp2).
    { destruct mv as [dest|]; [|by exists p1].
      destruct (move_line p1 _ _ _ _ Hmv Hp1) as (p2 & H2 & Hp2).
      exists p2. cbn [run_lines]. by rewrite H2. }
    rewrite run_lines_app, H2. cbn [result_bind].
    destruct (chunks_lines chunks p2 _ _ _ [] _ Hcs eq_refl Hp2) as (p3 & H3 & [n Hm] & H4 & H5).
    exists p3. split; [done|]. unfold ready, after_hunk. rewrite Hm, H4, last_snoc.
    split; [|done]. split; [done|]. split; [done|].
    destruct chunks as [|c chunks] using rev_ind; [done|].
    unfold last_chunk_is. rewrite app_assoc, last_snoc.
    apply Forall_app in Hcs as [_ Hc]. inversion Hc as [|? ? Hc' _]; subst. apply Hc'.
Qed.

Lemma hunks_lines hs : forall p,
  Forall printable hs -> ready p ->
  exists p', run_lines p (concat (print_hunk <$> hs)) = Ok p' /\ ready p' /\
    hunks (state p') = hunks (state p) ++ hs /\
    environment_id (state p') = environment_id (state p).
Proof.
  induction hs as [|h hs IH]; intros p Hall Hr.
  { exists p. by rewrite app_nil_r. }
  inversion Hall as [|? ? Hh Hhs]; subst. rewrite fmap_cons. cbn [concat]. rewrite run_lines_app.
  destruct (hunk_lines p h Hh Hr) as (p1 & -> & Hr1 & H1 & E1). simpl.
  destruct (IH p1 Hhs Hr1) as (p2 & H2 & Hr2 & H3 & E2).
  exists p2. split; [done|]. split; [done|]. by rewrite H3, H1, E2, E1, <- app_assoc.
Qed.

(** ** Whole patches *)

Definition started (env : option str) : StreamingPatchParser -> Prop := fun p =>
  mode (state p) = StartedPatch /\ hunks (state p) = [] /\ environment_id (state p) = env.

Lemma begin_line :
  exists p, process_line (take_line parser_default) BEGIN_PATCH_MARKER = Ok p /\ started None p.
Proof. eexists. split; [vm_compute; reflexivity|]. done. Qed.

Lemma env_line p e :
  header_arg e -> clean_head e -> started None p ->
  exists p', process_line (take_line p) (ENVIRONMENT_ID_MARKER ++ e) = Ok p' /\ started (Some e) p'.
Proof.
  intros Ha Hh (Hm & Hhs & He).
  destruct (marker_clean ENVIRONMENT_ID_MARKER e) as [H1 H2]; [solve_marker|done|].
  assert (handle_hunk_headers_and_end_patch (take_line p) (ENVIRONMENT_ID_MARKER ++ e) =
    Ok (Some (set_state (take_line p) StartedPatch [] (Some e)))) as Hhandle.
  { unfold handle_hunk_headers_and_end_patch. simpl mode. simpl hunks. simpl environment_id.
    rewrite Hm, Hhs, He, strip_prefix_app. simpl. destruct Ha as (Hne & _ & Hl).
    rewrite trim_id by done. by rewrite (proj2 (is_empty_false e) Hne). }
  eexists. split; [apply process_header; [|done|done|exact Hhandle]|done].
  split; [by rewrite Hm|by rewrite Hhs].
Qed.

Lemma run_body env hs :
  printable_env env -> Forall printable hs ->
  exists p, run_lines parser_default (print_body env hs) = Ok p /\ ready p /\
    hunks (state p) = hs /\ environment_id (state p) = env.
Proof.
  intros He Hhs. unfold print_body. cbn [run_lines].
  destruct begin_line as (p1 & -> & Hp1). cbn [result_bind]. rewrite run_lines_app.
  assert (exists p2, run_lines p1
    match env with Some e => [ENVIRONMENT_ID_MARKER ++ e] | None => [] end = Ok p2 /\
    started env p2) as (p2 & -> & Hm & H1 & H2).
  { destruct env as [e|]; [|by exists p1]. destruct He as [Ha Hh].
    destruct (env_line p1 e Ha Hh Hp1) as (p2 & H2 & Hp2).
    exists p2. cbn [run_lines]. by rewrite H2. }
  cbn [result_bind]. destruct (hunks_lines hs p2 Hhs) as (p3 & H3 & Hr3 & H4 & H5).
  { unfold ready. by rewrite Hm, H1. }
  exists p3. by rewrite H4, H5, H1, H2.
Qed.

Lemma finish_end p :
  ready p ->
  exists p', finish {| line_buffer := END_PATCH_MARKER; state := state p;
                       line_number := line_number p |} = (p', Ok (hunks (state p))) /\
    environment_id (state p') = environment_id (state p).
Proof.
  intros Hr. unfold finish. simpl is_empty. cbv iota. simpl line_buffer.
  replace (str_eqb (trim END_PATCH_MARKER) END_PATCH_MARKER) with true by reflexivity.
  cbv iota zeta. pose proof (fun l => ready_ensure p l Hr) as He.
  unfold take_line in *. cbn [state line_number] in *. rewrite He. by eexists.
Qed.

Lemma lines_join ls lst :
  Forall plain_line ls -> lst <> [] -> nl ∉ lst -> lines (join [nl] (ls ++ [lst])) = ls ++ [lst].
Proof.
  intros Hls Hne Hl. unfold lines. rewrite split_on_join.
  - rewrite removelast_last, last_snoc. destruct lst; [done|]. f_equal.
    induction Hls as [|l ls [_ H] _ IH]; [done|]. rewrite fmap_cons, IH. by rewrite strip_cr_plain.
  - by destruct ls.
  - apply Forall_app. split; [|by constructor]. eapply Forall_impl; [exact Hls|]. by intros l [? _].
Qed.

Lemma plain_cons c l : c <> nl -> c <> cr -> plain_line l -> plain_line (c :: l).
Proof.
  intros H1 H2 [H3 H4]. split; [set_solver|].
  rewrite last_cons. destruct (last l); congruence.
Qed.

Lemma plain_marker m a :
  (nl ∉ m) -> header_arg a -> plain_line (m ++ a).
Proof.
  intros Hm (Hne & Hnl & Hl). split; [set_solver|]. rewrite last_app.
  destruct (last a) as [c|] eqn:E; [|by apply last_None in E].
  intros [= ->]. specialize (Hl cr E). done.
Qed.

Ltac no_nl := apply (bool_decide_unpack _); vm_compute; exact I.

Lemma print_chunk_plain c : printable_chunk c -> Forall plain_line (print_chunk c).
Proof.
  intros (_ & Ho & Hn & Hc). unfold print_chunk. constructor.
  - destruct (change_context c) as [ctx|]; [apply plain_marker; [no_nl|done]|].
    split; [no_nl|done].
  - repeat apply Forall_app_2.
    + destruct (Hlayout c) as [Hold Hnew]. rewrite <- Hold in Ho. rewrite <- Hnew in Hn.
      apply Forall_fmap, Forall_forall. intros e He. rewrite Forall_forall in Ho, Hn.
      assert (Hin : forall l, l ∈ edit_old e \/ l ∈ edit_new e -> plain_line l).
      { intros l [Hl|Hl]; [apply Ho|apply Hn]; apply list_elem_of_In, in_flat_map; exists e;
          by rewrite <- !list_elem_of_In. }
      destruct e as [l|l|l]; apply plain_cons; try done; apply Hin; cbn; set_solver.
    + destruct (is_end_of_file c); [|constructor]. constructor; [|constructor].
      split; [no_nl|done].
Qed.

Lemma print_hunk_plain h : printable h -> Forall plain_line (print_hunk h).
Proof.
  destruct h as [path contents|path|path mv chunks]; cbn [print_hunk printable]; intros H.
  - destruct H as (Ha & _ & Hls). constructor; [apply plain_marker; [no_nl|done]|].
    apply Forall_fmap. eapply Forall_impl; [exact Hls|]. intros l. by apply plain_cons.
  - constructor; [apply plain_marker; [no_nl|done]|constructor].
  - destruct H as (Ha & _ & Hcs & Hmv). constructor; [apply plain_marker; [no_nl|done]|].
    apply Forall_app_2.
    + destruct mv; [|constructor]. constructor; [apply plain_marker; [no_nl|done]|constructor].
    + apply Forall_concat, Forall_fmap. eapply Forall_impl; [exact Hcs|].
      intros c. apply print_chunk_plain.
Qed.

Lemma print_body_plain env hs :
  printable_env env -> Forall printable hs -> Forall plain_line (print_body env hs).
Proof.
  intros He Hhs. unfold print_body. constructor; [split; [no_nl|done]|]. apply Forall_app_2.
  - destruct env; [|constructor]. destruct He as [He _].
    constructor; [apply plain_marker; [no_nl|done]|constructor].
  - apply Forall_concat, Forall_fmap. eapply Forall_impl; [exact Hhs|].
    intros h. apply print_hunk_plain.
Qed.

Lemma print_lines_clean env hs :
  clean_head (print_patch env hs) /\ clean_last (print_patch env hs).
Proof.
  unfold print_patch, print_lines. rewrite join_app by done. split.
  - unfold print_body. intros c. destruct (_ ++ concat _) as [|x ls].
    + simpl. by intros [= <-].
    + rewrite join_cons by done. simpl. by intros [= <-].
  - intros c. rewrite !last_app. simpl. by intros [= <-].
Qed.

Lemma strict_print env hs :
  check_patch_boundaries_strict (print_lines env hs) = Ok (print_lines env hs).
Proof.
  unfold check_patch_boundaries_strict, print_lines. rewrite last_snoc. reflexivity.
Qed.

(** The parser proper on the printed lines. *)
Lemma run_printed env hs :
  printable_env env -> Forall printable hs ->
  (let '(parser, pushed) := push_delta parser_default (print_patch env hs) in
   let? _ := pushed in
   let '(parser, finished) := finish parser in
   let? hs' := finished in
   Ok {| args_hunks := hs'; args_patch := print_patch env hs; args_workdir := None;
         args_environment_id := environment_id (state parser) |})
  = Ok (E := ParseError) {| args_patch := print_patch env hs; args_hunks := hs;
          args_workdir := None; args_environment_id := env |}.
Proof.
  intros He Hhs. destruct (run_body env hs He Hhs) as (p & Hp & Hr & H1 & H2).
  assert (push_delta parser_default (print_patch env hs) =
    ({| line_buffer := END_PATCH_MARKER; state := state p; line_number := line_number p |},
     Ok (hunks (state p)))) as ->.
  { apply push_delta_run; [done|done|by apply print_body_plain|no_nl|done]. }
  cbn [result_bind]. destruct (finish_end p Hr) as (p' & -> & He'). cbn [result_bind].
  by rewrite He', H1, H2.
Qed.

Lemma parse_print_ok env hs :
  printable_env env -> Forall printable hs ->
  parse_patch (print_patch env hs) =
  Ok {| args_patch := print_patch env hs; args_hunks := hs;
        args_workdir := None; args_environment_id := env |}.
Proof.
  intros He Hhs. unfold parse_patch, parse_patch_text.
  destruct (print_lines_clean env hs) as [Hh Hl]. rewrite trim_id by done.
  assert (lines (print_patch env hs) = print_lines env hs) as ->.
  { apply lines_join; [by apply print_body_plain|done|no_nl]. }
  unfold check_patch_boundaries_lenient. rewrite strict_print.
  cbn [result_bind]. by apply run_printed.
Qed.

(** The lines of a patch in a heredoc, as the boundary checks see them. *)
Lemma heredoc_lines env hs first :
  printable_env env -> Forall printable hs -> is_heredoc_start first = true ->
  lines (trim (join [nl] (first :: print_lines env hs ++ [s! "EOF"]))) =
    first :: print_lines env hs ++ [s! "EOF"] /\
  check_patch_boundaries_strict (first :: print_lines env hs ++ [s! "EOF"]) =
    Err (InvalidPatchError msg_first_line).
Proof.
  intros He Hhs Hf.
  assert (Hfirst : plain_line first /\ trim first <> BEGIN_PATCH_MARKER /\ first <> [] /\
                   clean_head first).
  { unfold is_heredoc_start in Hf. rewrite !orb_true_iff, !str_eqb_eq in Hf.
    destruct Hf as [[-> | ->] | ->]; (split; [split; [no_nl|done]|]);
      (split; [by vm_compute|]); (split; [done|]); by intros c [= <-]. }
  destruct Hfirst as (Hplain & Hbegin & Hne & Hclean). split.
  - rewrite app_comm_cons. rewrite trim_id.
    + apply lines_join; [|done|no_nl].
      constructor; [done|]. apply Forall_app_2; [by apply print_body_plain|].
      constructor; [|constructor]. split; [no_nl|done].
    + rewrite join_app, join_cons by (done || unfold print_lines; by destruct (print_body env hs)).
      intros c. destruct first; [done|]. intros [= <-]. by apply Hclean.
    + rewrite join_app by done. intros c. rewrite !last_app. simpl. by intros [= <-].
  - unfold check_patch_boundaries_strict, check_start_and_end_lines_strict.
    rewrite app_comm_cons, last_snoc. apply str_eqb_neq in Hbegin.
    cbn [head app fmap option_fmap option_map]. by rewrite Hbegin.
Qed.

(** ** Properties *)

(** C16: Reading a printed patch gives back its hunks and its environment, however
    the kept, removed and added lines of its chunks are laid out.  It holds for
    every list of hunks whose paths (and destinations of moves) and contexts are
    not empty, have no newline inside and no trailing blanks, whose lines have no
    newline inside and no carriage return at the end, whose update hunks have
    chunks and whose chunks have lines, and whose new files are empty or end with
    a newline; and for every environment id, or none, that is not empty and has
    no newline inside and no blanks at either end. *)
Theorem parse_print_roundtrip env hs :
  printable_env env -> Forall printable hs ->
  parse_patch (print_patch env hs) =
  Ok {| args_patch := print_patch env hs; args_hunks := hs;
        args_workdir := None; args_environment_id := env |}.
Proof. apply parse_print_ok. Qed.

(** In the lenient mode, which is the one in use, a patch wrapped in a
    heredoc (the opening line bare or with EOF in quotes, a line EOF at the
    end) is read as the patch itself; the strict mode refuses the wrapper. *)
Theorem heredoc_wrapper env hs first :
  printable_env env -> Forall printable hs -> is_heredoc_start first = true ->
  parse_patch_text (join [nl] (first :: print_lines env hs ++ [s! "EOF"])) Lenient =
    parse_patch (print_patch env hs) /\
  parse_patch_text (join [nl] (first :: print_lines env hs ++ [s! "EOF"])) Strict =
    Err (InvalidPatchError msg_first_line).
Proof.
  intros He Hhs Hf. destruct (heredoc_lines env hs first He Hhs Hf) as [Hlines Hstrict].
  rewrite parse_print_ok by done. unfold parse_patch_text. rewrite Hlines, Hstrict.
  split; [|done]. unfold check_patch_boundaries_lenient. rewrite Hstrict.
  assert (Hlast : last (first :: print_lines env hs ++ [s! "EOF"]) = Some (s! "EOF"))
    by (rewrite app_comm_cons; apply last_snoc).
  assert ((4 <=? length (first :: print_lines env hs ++ [s! "EOF"])) = true) as ->.
  { unfold print_lines, print_body. apply Nat.leb_le. cbn [length app].
    rewrite !length_app. simpl. lia. }
  cbn [tail]. rewrite removelast_last, strict_print.
  destruct (print_lines env hs ++ [s! "EOF"]) eqn:E; [by destruct (print_lines env hs)|].
  rewrite Hlast, Hf. cbn [ends_with andb result_bind]. by apply run_printed.
Qed.

End Roundtrip.

(** ** The properties on a concrete patch *)

Definition sample_layout (c : UpdateFileChunk) : list edit :=
  prefix_layout (old_lines c) (new_lines c).

Lemma removes_adds old new :
  flat_map edit_old ((Remove <$> old) ++ (Add <$> new)) = old /\
  flat_map edit_new ((Remove <$> old) ++ (Add <$> new)) = new.
Proof.
  induction old as [|a old [IH1 IH2]].
  - induction new as [|b new [IH1 IH2]]; [done|]. rewrite fmap_nil, fmap_cons in *.
    cbn [app flat_map edit_old edit_new] in *. by rewrite IH1, IH2.
  - rewrite fmap_cons. cbn [app flat_map edit_old edit_new]. by rewrite IH1, IH2.
Qed.

Lemma prefix_layout_ok old new :
  flat_map edit_old (prefix_layout old new) = old /\ flat_map edit_new (prefix_layout old new) = new.
Proof.
  revert new. induction old as [|a old IH]; intros [|b new]; try apply removes_adds.
  cbn [prefix_layout]. destruct (str_eqb a b) eqn:E; [|apply removes_adds].
  apply str_eqb_eq in E as <-. destruct (IH new) as [H1 H2]. simpl. by rewrite H1, H2.
Qed.

Lemma sample_layout_ok : layout_ok sample_layout.
Proof. intros c. apply prefix_layout_ok. Qed.

Definition sample_hunks : list Hunk :=
  [AddFile (s! "path/add.py") (s! "abc" ++ [nl] ++ s! "def" ++ [nl]);
   DeleteFile (s! "path/delete.py");
   UpdateFile (s! "path/update.py") (Some (s! "path/update2.py"))
     [{| change_context := Some (s! "def f():"); old_lines := [s! "    x = 1"; s! "    pass"];
         new_lines := [s! "    x = 1"; s! "    return 123"]; is_end_of_file := true |}]].

Lemma sample_printable : printable_env (Some (s! "remote")) /\ Forall printable sample_hunks.
Proof.
  assert (Ha : forall a, bool_decide (a <> [] /\ (nl ∉ a) /\
    from_option is_whitespace false (last a) = false) = true -> header_arg a).
  { intros a H%bool_decide_eq_true. destruct H as (? & ? & H). split; [done|]. split; [done|].
    intros c Hc. by rewrite Hc in H. }
  assert (Hp : forall l, bool_decide ((nl ∉ l) /\ last l <> Some cr) = true -> plain_line l).
  { intros l H. by apply bool_decide_eq_true in H. }
  split; [split; [by apply Ha|by intros c [= <-]]|].
  repeat constructor; try (apply Ha; vm_compute; reflexivity);
    try (apply Hp; vm_compute; reflexivity); done.
Qed.

Lemma parse_print_roundtrip_witness :
  parse_patch (print_patch sample_layout (Some (s! "remote")) sample_hunks) =
  Ok {| args_patch := print_patch sample_layout (Some (s! "remote")) sample_hunks; args_hunks := sample_hunks;
        args_workdir := None; args_environment_id := Some (s! "remote") |}.
Proof.
  apply (parse_print_roundtrip sample_layout sample_layout_ok (Some (s! "remote")) sample_hunks);
    apply sample_printable.
Defined.

Lemma heredoc_wrapper_witness :
  parse_patch_text (join [nl] (s! "<<'EOF'" :: print_lines sample_layout None sample_hunks ++ [s! "EOF"])) Lenient
  = parse_patch (print_patch sample_layout None sample_hunks).
Proof.
  apply (heredoc_wrapper sample_layout sample_layout_ok None sample_hunks (s! "<<'EOF'")); [done|apply sample_printable|done].
Defined.
