(* ===== verification/PatchApply.v ===== *)
(** * Applying update chunks to a file: [apply-patch/src/lib.rs]

    [compute_replacements] finds where each chunk applies, [apply_replacements]
    edits the lines in place, and [derive_new_contents] is the whole path from
    the old contents of a file to the new ones.  [Vec::insert] panics past the
    end of the vector: [apply_replacements] returns [None] there. *)

From Stdlib Require Import Sorted.
From S2P Require Import Prelude.
From S2P Require Import RustStr.
From S2P Require Import PatchParser.
From S2P Require Import SeekSequence.

(** ** Definitions *)

(** [(start_index, old_len, new_lines)] *)
Abbreviation replacement := (nat * nat * list str)%type.

Definition last_is_empty (ls : list str) : bool :=
  match last ls with Some l => is_empty l | None => false end.

(** The message of [ApplyPatchError::ComputeReplacements]. *)
Definition msg_no_context (ctx path : str) : str :=
  s! "Failed to find context '" ++ ctx ++ s! "' in " ++ path.
Definition msg_no_lines_found (path : str) (old : list str) : str :=
  s! "Failed to find expected lines in " ++ path ++ s! ":" ++ [nl] ++ join [nl] old.

(** Locating the old lines of a chunk, with the retry without the final empty
    line: the position, the length of the region and the new lines. *)
Definition locate_chunk (original_lines : list str) (line_index : nat) (chunk : UpdateFileChunk)
    : option replacement :=
  let eof := is_end_of_file chunk in
  match seek_sequence original_lines (old_lines chunk) line_index eof with
  | Some start_idx => Some (start_idx, length (old_lines chunk), new_lines chunk)
  | None =>
      if last_is_empty (old_lines chunk) then
        let pattern := removelast (old_lines chunk) in
        let new_slice :=
          if last_is_empty (new_lines chunk) then removelast (new_lines chunk)
          else new_lines chunk in
        match seek_sequence original_lines pattern line_index eof with
        | Some start_idx => Some (start_idx, length pattern, new_slice)
        | None => None
        end
      else None
  end.

(** The [for chunk in chunks] loop, from [line_index] on. *)
Fixpoint compute_loop (original_lines : list str) (path : str) (line_index : nat)
    (chunks : list UpdateFileChunk) : result (list replacement) str :=
  match chunks with
  | [] => Ok []
  | chunk :: rest =>
      let? line_index :=
        match change_context chunk with
        | Some ctx_line =>
            match seek_sequence original_lines [ctx_line] line_index false with
            | Some idx => Ok (idx + 1)
            | None => Err (msg_no_context ctx_line path)
            end
        | None => Ok line_index
        end in
      if is_empty (old_lines chunk) then
        let insertion_idx :=
          if last_is_empty original_lines then length original_lines - 1
          else length original_lines in
        let? reps := compute_loop original_lines path line_index rest in
        Ok ((insertion_idx, 0, new_lines chunk) :: reps)
      else
        match locate_chunk original_lines line_index chunk with
        | Some (start_idx, len, new_slice) =>
            let? reps := compute_loop original_lines path (start_idx + len) rest in
            Ok ((start_idx, len, new_slice) :: reps)
        | None => Err (msg_no_lines_found path (old_lines chunk))
        end
  end.

(** [sort_by_key(|(index, _, _)| *index)], a stable sort. *)
Fixpoint insert_by_index (r : replacement) (rs : list replacement) : list replacement :=
  match rs with
  | [] => [r]
  | r' :: rs' =>
      if r.1.1 <=? r'.1.1 then r :: r' :: rs' else r' :: insert_by_index r rs'
  end.

Definition sort_by_index (rs : list replacement) : list replacement :=
  foldr insert_by_index [] rs.

Definition compute_replacements (original_lines : list str) (path : str)
    (chunks : list UpdateFileChunk) : result (list replacement) str :=
  let? reps := compute_loop original_lines path 0 chunks in
  Ok (sort_by_index reps).

(** [for _ in 0..old_len { if start_idx < lines.len() { lines.remove(start_idx) } }] *)
Fixpoint remove_lines (start_idx old_len : nat) (ls : list str) : list str :=
  match old_len with
  | 0 => ls
  | S n =>
      remove_lines start_idx n
        (if start_idx <? length ls then take start_idx ls ++ drop (S start_idx) ls else ls)
  end.

(** [lines.insert(idx, x)] for each new line, at increasing indices. *)
Fixpoint insert_lines (idx : nat) (new_segment ls : list str) : option (list str) :=
  match new_segment with
  | [] => Some ls
  | x :: rest =>
      if idx <=? length ls then insert_lines (S idx) rest (take idx ls ++ x :: drop idx ls)
      else None
  end.

(** One iteration of the loop over the replacements. *)
Definition apply_one (r : replacement) (ls : list str) : option (list str) :=
  let '(start_idx, old_len, new_segment) := r in
  insert_lines start_idx new_segment (remove_lines start_idx old_len ls).

(** The loop runs over [replacements.iter().rev()]. *)
Definition apply_replacements (ls : list str) (reps : list replacement) : option (list str) :=
  foldr (fun r acc => acc ≫= apply_one r) (Some ls) reps.

(** The lines of a file, without the empty piece after a final newline. *)
Definition file_lines (contents : str) : list str :=
  let ls := split_on nl contents in
  if last_is_empty ls then removelast ls else ls.

(** [derive_new_contents_from_chunks] after the file has been read; [None] is
    a panic of [Vec::insert]. *)
Definition derive_new_contents (original_contents path_text : str)
    (chunks : list UpdateFileChunk) : option (result str str) :=
  let original_lines := file_lines original_contents in
  match compute_replacements original_lines path_text chunks with
  | Err e => Some (Err e)
  | Ok replacements =>
      match apply_replacements original_lines replacements with
      | None => None
      | Some ls =>
          let ls := if last_is_empty ls then ls else ls ++ [[]] in
          Some (Ok (join [nl] ls))
      end
  end.

(** ** In-place edits *)

Lemma remove_lines_spec i n ls :
  i <= length ls -> remove_lines i n ls = take i ls ++ drop (i + n) ls.
Proof.
  revert ls. induction n as [|n IH]; intros ls Hi; cbn [remove_lines].
  { by rewrite Nat.add_0_r, take_drop. }
  destruct (i <? length ls) eqn:E.
  - apply Nat.ltb_lt in E. rewrite IH by (rewrite length_app, length_take, length_drop; lia).
    rewrite take_app_le, take_take by (rewrite length_take; lia).
    rewrite Nat.min_id. f_equal.
    rewrite drop_app_ge by (rewrite length_take; lia). rewrite length_take, drop_drop.
    f_equal. lia.
  - apply Nat.ltb_ge in E. rewrite IH by done. rewrite !drop_ge by lia. done.
Qed.

Lemma insert_lines_spec i seg ls :
  i <= length ls -> insert_lines i seg ls = Some (take i ls ++ seg ++ drop i ls).
Proof.
  revert i ls. induction seg as [|x seg IH]; intros i ls Hi; cbn [insert_lines].
  { by rewrite app_nil_l, take_drop. }
  rewrite (proj2 (Nat.leb_le _ _) Hi).
  assert (Hlen : length (take i ls) = i) by (rewrite length_take; lia).
  rewrite IH by (rewrite length_app; simpl; rewrite length_drop; lia).
  f_equal. rewrite take_app, drop_app, Hlen.
  replace (S i - i) with 1 by lia. rewrite take_ge, (drop_ge (take i ls)) by lia.
  simpl. rewrite take_0, drop_0. by rewrite <- !app_assoc.
Qed.

Lemma apply_one_spec i n seg ls :
  i <= length ls ->
  apply_one (i, n, seg) ls = Some (take i ls ++ seg ++ drop (i + n) ls).
Proof.
  intros Hi. unfold apply_one. rewrite remove_lines_spec by done.
  rewrite insert_lines_spec by (rewrite length_app, length_take; lia).
  assert (Hlen : length (take i ls) = i) by (rewrite length_take; lia).
  rewrite take_app_le, (take_ge (take i ls)), drop_app_ge by lia.
  by rewrite Hlen, Nat.sub_diag, drop_0.
Qed.

Lemma apply_replacements_cons ls r reps :
  apply_replacements ls (r :: reps) = apply_replacements ls reps ≫= apply_one r.
Proof. done. Qed.

(** Sorted by start, and every start inside the file. *)
Definition starts_ok (ls : list str) (reps : list replacement) : Prop :=
  StronglySorted (fun r r' : replacement => r.1.1 <= r'.1.1) reps /\
  Forall (fun r : replacement => r.1.1 <= length ls) reps.

(** The in-place loop does not run past the vector: the edits go from the
    last start to the first, and lines before a start are never touched. *)
Lemma apply_replacements_total ls reps :
  starts_ok ls reps ->
  exists res, apply_replacements ls reps = Some res /\
    forall k, Forall (fun r : replacement => k <= r.1.1) reps -> k <= length ls ->
      k <= length res.
Proof.
  intros [Hs Hb]. induction reps as [|[[i n] seg] reps IH].
  { exists ls. split; [done|]. intros; done. }
  inversion Hs as [|? ? Hs' Hge]; inversion Hb as [|? ? Hi Hb']; subst. simpl in Hi.
  destruct (IH Hs' Hb') as (res & Hres & Hk).
  rewrite apply_replacements_cons, Hres. cbn [mbind option_bind].
  assert (i <= length res) as Hir by (apply Hk; [exact Hge|done]).
  rewrite (apply_one_spec i n seg res) by done. eexists. split; [done|].
  intros k Hall _. inversion Hall; subst; simpl in *.
  rewrite length_app, length_take. lia.
Qed.

(** ** Sorting *)

Lemma insert_by_index_Forall (P : replacement -> Prop) r rs :
  Forall P (insert_by_index r rs) <-> P r /\ Forall P rs.
Proof.
  induction rs as [|r' rs IH]; simpl; [by rewrite Forall_cons|].
  destruct (_ <=? _); rewrite !Forall_cons; [done|]. rewrite IH. tauto.
Qed.

Lemma sort_by_index_Forall (P : replacement -> Prop) rs :
  Forall P (sort_by_index rs) <-> Forall P rs.
Proof.
  induction rs as [|r rs IH]; simpl; [done|].
  rewrite insert_by_index_Forall, IH, Forall_cons. done.
Qed.

Lemma sort_by_index_sorted rs :
  StronglySorted (fun r r' : replacement => r.1.1 <= r'.1.1) (sort_by_index rs).
Proof.
  induction rs as [|r rs IH]; simpl; [constructor|].
  induction IH as [|r' rs' Hs IH' Hge]; simpl; [by repeat constructor|].
  destruct (r.1.1 <=? r'.1.1) eqn:E.
  - apply Nat.leb_le in E. constructor; [by constructor|]. constructor; [done|].
    eapply Forall_impl; [exact Hge|]. simpl. intros; lia.
  - apply Nat.leb_gt in E. constructor; [done|]. apply insert_by_index_Forall. split; [lia|done].
Qed.


(** ** Regions of the file *)

Lemma locate_chunk_bounds ls li chunk i n seg :
  li <= length ls -> locate_chunk ls li chunk = Some (i, n, seg) -> i + n <= length ls.
Proof.
  unfold locate_chunk. intros Hli H.
  repeat case_match; simplify_eq; by eapply seek_sequence_bounds.
Qed.

Lemma context_bounds ls path li chunk li' :
  li <= length ls ->
  match change_context chunk with
  | Some ctx_line =>
      match seek_sequence ls [ctx_line] li false with
      | Some idx => Ok (idx + 1)
      | None => Err (msg_no_context ctx_line path)
      end
  | None => Ok li
  end = Ok li' -> li' <= length ls.
Proof.
  intros Hli H. repeat case_match; simplify_eq; [|done].
  match goal with H : seek_sequence _ _ _ _ = Some _ |- _ =>
    apply seek_sequence_bounds in H; [|done]; simpl in H end. lia.
Qed.

Lemma compute_loop_bounds ls path chunks li reps :
  li <= length ls -> compute_loop ls path li chunks = Ok reps ->
  Forall (fun r : replacement => r.1.1 + r.1.2 <= length ls) reps.
Proof.
  revert li reps. induction chunks as [|chunk chunks IH]; intros li reps Hli H; simpl in H.
  { inv_bind. constructor. }
  apply result_bind_Ok in H as (li' & Hctx & H). apply context_bounds in Hctx; [|done].
  destruct (is_empty (old_lines chunk)).
  - inv_bind. constructor; [simpl; destruct (last_is_empty ls); lia|]. by eapply IH.
  - destruct (locate_chunk ls li' chunk) as [[[i n] seg]|] eqn:Hl; [|done].
    apply locate_chunk_bounds in Hl; [|done]. inv_bind. constructor; [done|]. by eapply IH.
Qed.

Lemma compute_replacements_ok ls path chunks reps :
  compute_replacements ls path chunks = Ok reps -> starts_ok ls reps.
Proof.
  unfold compute_replacements. intros H. inv_bind. split; [apply sort_by_index_sorted|].
  apply sort_by_index_Forall. apply compute_loop_bounds in Hr; [|lia].
  eapply Forall_impl; [exact Hr|]. simpl. intros; lia.
Qed.

(** ** Edits, as a specification

    [edited ls chunks res]: reading from the top, the file is made of
    untouched gaps and of one region per chunk, in order; the region is the
    chunk's old lines up to blanks and punctuation, the result has the chunk's
    new lines instead, and a context line occurs in the gap before its chunk. *)



(** Left-to-right splicing of disjoint replacements, from position [pos]. *)
Fixpoint splice (pos : nat) (ls : list str) (reps : list replacement) : list str :=
  match reps with
  | [] => drop pos ls
  | (i, n, seg) :: rest => take (i - pos) (drop pos ls) ++ seg ++ splice (i + n) ls rest
  end.

(** Each replacement starts at or after the end of the previous one. *)
Fixpoint disjoint_from (pos : nat) (ls : list str) (reps : list replacement) : Prop :=
  match reps with
  | [] => pos <= length ls
  | (i, n, _) :: rest => pos <= i /\ disjoint_from (i + n) ls rest
  end.

Lemma disjoint_from_le pos ls reps : disjoint_from pos ls reps -> pos <= length ls.
Proof.
  revert pos. induction reps as [|[[i n] seg] reps IH]; intros pos; simpl; [done|].
  intros [Hle Hd%IH]. lia.
Qed.



Lemma apply_replacements_splice_from pos ls reps :
  disjoint_from pos ls reps ->
  apply_replacements ls reps = Some (take pos ls ++ splice pos ls reps).
Proof.
  revert pos. induction reps as [|[[i n] seg] reps IH]; intros pos Hd; cbn [splice] in *.
  { by rewrite take_drop. }
  destruct Hd as [Hle Hd]. rewrite apply_replacements_cons, (IH (i + n)) by done. cbn [mbind option_bind].
  pose proof (disjoint_from_le _ _ _ Hd) as Hin.
  assert (Hlen : length (take (i + n) ls) = i + n) by (rewrite length_take; lia).
  rewrite apply_one_spec by (rewrite length_app; lia). f_equal.
  rewrite take_app_le, take_take, Nat.min_l by lia.
  rewrite drop_app_ge, Hlen, Nat.sub_diag, drop_0 by lia.
  rewrite <- (take_drop pos (take i ls)), take_take, Nat.min_l by lia.
  rewrite <- app_assoc. f_equal. rewrite take_drop_commute.
  by replace (pos + (i - pos)) with i by lia.
Qed.




Lemma join_final_newline k :
  join [nl] (k ++ [[]]) = [] \/ last (join [nl] (k ++ [[]])) = Some nl.
Proof.
  destruct k as [|l k]; [by left|]. right.
  rewrite join_app by done. simpl. rewrite last_app. done.
Qed.

Lemma last_is_empty_snoc ls : last_is_empty ls = true -> exists k, ls = k ++ [[]].
Proof.
  unfold last_is_empty. destruct (last ls) as [[|]|] eqn:E; try done.
  intros _. by apply last_Some_snoc.
Qed.

(** ** Properties *)

(** Applying the chunks of an update to any file contents never makes
    [Vec::insert] panic: whatever the chunks are, the result is new contents or
    an error. *)
Theorem derive_new_contents_no_panic contents path chunks :
  derive_new_contents contents path chunks <> None.
Proof.
  unfold derive_new_contents. destruct (compute_replacements _ _ _) as [reps|e] eqn:Hc; [|done].
  apply compute_replacements_ok in Hc.
  by destruct (apply_replacements_total _ _ Hc) as (res & -> & _).
Qed.

(** On replacements that are in order and do not overlap, the in-place
    removals and insertions, made from the last replacement to the first,
    produce the left-to-right splicing of the new lines into the file. *)
Theorem apply_replacements_splice ls reps :
  disjoint_from 0 ls reps -> apply_replacements ls reps = Some (splice 0 ls reps).
Proof. intros H. by rewrite (apply_replacements_splice_from 0). Qed.

Lemma apply_replacements_splice_witness :
  apply_replacements [s! "a"; s! "b"; s! "c"] [(0, 1, [s! "x"; s! "y"]); (2, 1, [])] =
  Some [s! "x"; s! "y"; s! "b"].
Proof.
  rewrite (apply_replacements_splice [s! "a"; s! "b"; s! "c"]
    [(0, 1, [s! "x"; s! "y"]); (2, 1, [])]); [reflexivity|simpl; lia].
Defined.


Definition sample_file : str := join [nl] [s! "def f():"; s! "    pass  "; s! "end"; []].
Definition sample_chunk : UpdateFileChunk :=
  {| change_context := Some (s! "def f():"); old_lines := [s! "    pass"];
     new_lines := [s! "    return 1"]; is_end_of_file := false |}.


(** The new contents of an updated file are empty or end with a newline. *)
Theorem update_ends_with_newline contents path chunks new_contents :
  derive_new_contents contents path chunks = Some (Ok new_contents) ->
  new_contents = [] \/ last new_contents = Some nl.
Proof.
  unfold derive_new_contents. intros H.
  destruct (compute_replacements _ _ _) as [reps|]; [|done].
  destruct (apply_replacements _ _) as [ls|]; [|done]. simplify_eq.
  destruct (last_is_empty ls) eqn:E; [|apply join_final_newline].
  apply last_is_empty_snoc in E as [k ->]. apply join_final_newline.
Qed.

Lemma update_ends_with_newline_witness :
  last (join [nl] [s! "def f():"; s! "    return 1"; s! "end"; []]) = Some nl.
Proof.
  destruct (update_ends_with_newline sample_file (s! "f.py") [sample_chunk]
    (join [nl] [s! "def f():"; s! "    return 1"; s! "end"; []])) as [H|H];
    [vm_compute; reflexivity|discriminate H|exact H].
Defined.

(** Lines that a chunk only adds can be lost: in a file that ends with an
    empty line they are inserted before that line, and a later chunk that
    replaces a region covering the end of the file removes them.  Here the
    first chunk adds a line and the second one replaces the two lines of the
    file; the result is as if the first chunk were not there. *)
Theorem pure_addition_lost :
  let add := {| change_context := None; old_lines := []; new_lines := [s! "x"];
                is_end_of_file := false |} in
  let replace := {| change_context := None; old_lines := [s! "a"; []]; new_lines := [s! "b"];
                    is_end_of_file := false |} in
  let contents := s! "a" ++ [nl; nl] in
  derive_new_contents contents (s! "f") [add; replace] = Some (Ok (s! "b" ++ [nl])) /\
  derive_new_contents contents (s! "f") [replace] = Some (Ok (s! "b" ++ [nl])).
Proof. vm_compute. split; reflexivity. Qed.
