(* ===== verification/PatchFs.v ===== *)
(** * Applying a patch to a file system: [apply-patch/src/lib.rs]

    The hunks of a patch are applied one by one through the
    [ExecutorFileSystem] trait, and the changes that were really made are
    recorded in an [AppliedPatchDelta] whose [exact] flag says whether the
    record can be trusted.

    The file system is an interface here: its operations are the methods of the
    trait that the code calls, on an abstract state, and its laws are the
    documented behaviour the exactness of a delta relies on.  Path resolution
    ([PathUri::join], [PathUri::parent]) belongs to the interface as well. *)

From S2P Require Import Prelude.
From S2P Require Import RustStr.
From S2P Require Import PatchParser.
From S2P Require Import PatchApply.

(** ** The interface *)

Inductive ErrorKind := NotFound | InvalidInput | OtherKind.

Record io_error := { io_kind : ErrorKind; io_message : str }.

Definition is_not_found (e : io_error) : bool :=
  match io_kind e with NotFound => true | _ => false end.

Record FileMetadata := { is_directory : bool; is_file : bool; is_symlink : bool }.

(** The operations of the trait, for a fixed sandbox context. *)
Class ExecutorFileSystem (FS uri : Type) := {
  uri_join : uri -> str -> result uri str;
  uri_parent : uri -> option uri;
  native_path : uri -> str;
  read_file_text : FS -> uri -> result str io_error;
  get_metadata : FS -> uri -> result FileMetadata io_error;
  write_file : FS -> uri -> str -> FS * result unit io_error;
  create_directory : FS -> uri -> FS * result unit io_error;
  remove : FS -> uri -> FS * result unit io_error;
}.

(** ** Data *)

Inductive AppliedPatchFileChange (uri : Type) :=
| ChangeAdd (content : str) (overwritten_content : option str)
| ChangeDelete (content : str)
| ChangeUpdate (move_path : option uri) (old_content : str)
    (overwritten_move_content : option str) (new_content : str).
Arguments ChangeAdd {uri} content overwritten_content.
Arguments ChangeDelete {uri} content.
Arguments ChangeUpdate {uri} move_path old_content overwritten_move_content new_content.

Record AppliedPatchChange (uri : Type) := {
  change_path : uri;
  change : AppliedPatchFileChange uri;
}.
Arguments Build_AppliedPatchChange {uri} change_path change.
Arguments change_path {uri} a.
Arguments change {uri} a.

Record AppliedPatchDelta (uri : Type) := {
  changes : list (AppliedPatchChange uri);
  exact : bool;
}.
Arguments Build_AppliedPatchDelta {uri} changes exact.
Arguments changes {uri} a.
Arguments exact {uri} a.

Record AffectedPaths := {
  added : list str;
  modified : list str;
  deleted : list str;
}.

(** Errors of [apply_hunks_to_files]: the message [bail!]ed with, an I/O error
    with the context it was wrapped in, the errors of an update. *)
Inductive apply_failure :=
| NoFilesModified
| PathUriFailure (e : str)
| IoFailure (context : str) (e : io_error)
| ReadFailure (context : str) (e : io_error)
| ComputeReplacements (message : str)
| Panicked.

Section Apply.
Context {FS uri : Type} `{!ExecutorFileSystem FS uri}.

Abbreviation delta := (AppliedPatchDelta uri).

Definition delta_empty : delta := {| changes := []; exact := true |}.

(** [AppliedPatchDelta::append] *)
Definition delta_append (d other : delta) : delta :=
  {| changes := changes d ++ changes other; exact := exact d && exact other |}.

Definition and_exact (d : delta) (b : bool) : delta :=
  {| changes := changes d; exact := exact d && b |}.

Definition push_change (d : delta) (path : uri) (c : AppliedPatchFileChange uri) : delta :=
  {| changes := changes d ++ [{| change_path := path; change := c |}]; exact := exact d |}.

(** A regular file that is not a symbolic link, or nothing. *)
Definition delta_supported (fs : FS) (path : uri) : bool :=
  match get_metadata fs path with
  | Ok m => is_file m && negb (is_symlink m)
  | Err e => is_not_found e
  end.

Definition note_existing_path_delta_support (fs : FS) (path : uri) (d : delta) : delta :=
  and_exact d (delta_supported fs path).

Definition read_optional_file_text_for_delta (fs : FS) (path : uri) (d : delta)
    : delta * option str :=
  let d := note_existing_path_delta_support fs path d in
  match read_file_text fs path with
  | Ok content => (d, Some content)
  | Err e => if is_not_found e then (d, None) else (and_exact d false, None)
  end.

Definition ensure_not_directory (fs : FS) (path : uri) : result unit io_error :=
  match get_metadata fs path with
  | Err e => Err e
  | Ok m =>
      if is_directory m then
        Err {| io_kind := InvalidInput; io_message := s! "path is a directory" |}
      else Ok tt
  end.

Definition remove_failure_was_side_effect_free (fs : FS) (path : uri)
    (expected_content : option str) : bool :=
  match expected_content with
  | Some expected =>
      match read_file_text fs path with
      | Ok content => bool_decide (content = expected)
      | Err _ => false
      end
  | None => false
  end.

Definition with_context {A} (context : str) (r : result A io_error) : result A apply_failure :=
  match r with Ok a => Ok a | Err e => Err (IoFailure context e) end.

Definition write_file_with_missing_parent_retry (fs : FS) (path : uri) (contents : str)
    : FS * result unit apply_failure :=
  let failed_write := s! "Failed to write file " ++ native_path path in
  match write_file fs path contents with
  | (fs1, Ok _) => (fs1, Ok tt)
  | (fs1, Err err) =>
      if is_not_found err then
        let '(fs2, created) :=
          match uri_parent path with
          | Some parent =>
              let '(fs2, r) := create_directory fs1 parent in
              (fs2, with_context (s! "Failed to create parent directories for "
                                  ++ native_path path) r)
          | None => (fs1, Ok tt)
          end in
        match created with
        | Err e => (fs2, Err e)
        | Ok _ =>
            let '(fs3, r) := write_file fs2 path contents in
            (fs3, with_context failed_write r)
        end
      else (fs1, Err (IoFailure failed_write err))
  end.

(** [derive_new_contents_from_chunks]: the original and the new contents. *)
Definition derive_new_contents_from_chunks (fs : FS) (path : uri)
    (chunks : list UpdateFileChunk) : result (str * str) apply_failure :=
  match read_file_text fs path with
  | Err e => Err (ReadFailure (s! "Failed to read file to update " ++ native_path path) e)
  | Ok original_contents =>
      match derive_new_contents original_contents (native_path path) chunks with
      | None => Err Panicked
      | Some (Err message) => Err (ComputeReplacements message)
      | Some (Ok new_contents) => Ok (original_contents, new_contents)
      end
  end.

(** The [remove] of a hunk with its error handling: a failed removal keeps the
    delta exact only if the file still has the content that was read. *)
Definition remove_file (fs : FS) (path : uri) (context : str) (expected_content : option str)
    (d : delta) : FS * delta * result unit apply_failure :=
  match remove fs path with
  | (fs', Ok _) => (fs', d, Ok tt)
  | (fs', Err e) =>
      (fs', and_exact d (remove_failure_was_side_effect_free fs' path expected_content),
       Err (IoFailure context e))
  end.

Definition apply_add (fs : FS) (path : uri) (contents : str) (d : delta)
    : FS * delta * result unit apply_failure :=
  let '(d, overwritten_content) := read_optional_file_text_for_delta fs path d in
  match write_file_with_missing_parent_retry fs path contents with
  | (fs, Err e) => (fs, and_exact d false, Err e)
  | (fs, Ok _) => (fs, push_change d path (ChangeAdd contents overwritten_content), Ok tt)
  end.

Definition apply_delete (fs : FS) (path : uri) (d : delta)
    : FS * delta * result unit apply_failure :=
  let context := s! "Failed to delete file " ++ native_path path in
  let d := note_existing_path_delta_support fs path d in
  let deleted_content :=
    match read_file_text fs path with Ok c => Some c | Err _ => None end in
  let d := and_exact d (bool_decide (is_Some deleted_content)) in
  match with_context context (ensure_not_directory fs path) with
  | Err e => (fs, d, Err e)
  | Ok _ =>
      let '(fs, d, r) := remove_file fs path context deleted_content d in
      match r with
      | Err e => (fs, d, Err e)
      | Ok _ =>
          (fs, match deleted_content with
               | Some content => push_change d path (ChangeDelete content)
               | None => d
               end, Ok tt)
      end
  end.

Definition apply_move (fs : FS) (path dest : uri) (original_contents new_contents : str)
    (d : delta) : FS * delta * result unit apply_failure :=
  let context := s! "Failed to remove original " ++ native_path path in
  let '(d, overwritten_move_content) := read_optional_file_text_for_delta fs dest d in
  match write_file_with_missing_parent_retry fs dest new_contents with
  | (fs, Err e) => (fs, and_exact d false, Err e)
  | (fs, Ok _) =>
      let written := push_change d dest (ChangeAdd new_contents overwritten_move_content) in
      match with_context context (ensure_not_directory fs path) with
      | Err e => (fs, written, Err e)
      | Ok _ =>
          let '(fs, written, r) := remove_file fs path context (Some original_contents) written in
          match r with
          | Err e => (fs, written, Err e)
          | Ok _ =>
              (fs, push_change {| changes := changes d; exact := exact written |} path
                     (ChangeUpdate (Some dest) original_contents overwritten_move_content
                        new_contents), Ok tt)
          end
      end
  end.

Definition apply_update (cwd : uri) (fs : FS) (path : uri) (move_path : option str)
    (chunks : list UpdateFileChunk) (d : delta) : FS * delta * result unit apply_failure :=
  let d := note_existing_path_delta_support fs path d in
  match derive_new_contents_from_chunks fs path chunks with
  | Err e => (fs, d, Err e)
  | Ok (original_contents, new_contents) =>
      match move_path with
      | Some dest =>
          match uri_join cwd dest with
          | Err e => (fs, d, Err (PathUriFailure e))
          | Ok dest_uri => apply_move fs path dest_uri original_contents new_contents d
          end
      | None =>
          match write_file fs path new_contents with
          | (fs, Err e) =>
              (fs, and_exact d false,
               Err (IoFailure (s! "Failed to write file " ++ native_path path) e))
          | (fs, Ok _) =>
              (fs, push_change d path (ChangeUpdate None original_contents None new_contents),
               Ok tt)
          end
      end
  end.

(** One iteration of the loop over the hunks. *)
Definition apply_hunk (cwd : uri) (fs : FS) (h : Hunk) (d : delta)
    : FS * delta * result unit apply_failure :=
  match uri_join cwd (hunk_source_path h) with
  | Err e => (fs, d, Err (PathUriFailure e))
  | Ok path_uri =>
      match h with
      | AddFile _ contents => apply_add fs path_uri contents d
      | DeleteFile _ => apply_delete fs path_uri d
      | UpdateFile _ move_path chunks => apply_update cwd fs path_uri move_path chunks d
      end
  end.

(** Where the summary lists a hunk. *)
Definition note_affected (h : Hunk) (a : AffectedPaths) : AffectedPaths :=
  match h with
  | AddFile _ _ =>
      {| added := added a ++ [hunk_path h]; modified := modified a; deleted := deleted a |}
  | DeleteFile _ =>
      {| added := added a; modified := modified a; deleted := deleted a ++ [hunk_path h] |}
  | UpdateFile _ _ _ =>
      {| added := added a; modified := modified a ++ [hunk_path h]; deleted := deleted a |}
  end.

Fixpoint apply_hunk_loop (cwd : uri) (fs : FS) (hs : list Hunk) (a : AffectedPaths) (d : delta)
    : FS * delta * result AffectedPaths apply_failure :=
  match hs with
  | [] => (fs, d, Ok a)
  | h :: rest =>
      match apply_hunk cwd fs h d with
      | (fs, d, Err e) => (fs, d, Err e)
      | (fs, d, Ok _) => apply_hunk_loop cwd fs rest (note_affected h a) d
      end
  end.

Definition apply_hunks_to_files (cwd : uri) (fs : FS) (hs : list Hunk) (d : delta)
    : FS * delta * result AffectedPaths apply_failure :=
  if is_empty hs then (fs, d, Err NoFilesModified)
  else apply_hunk_loop cwd fs hs {| added := []; modified := []; deleted := [] |} d.

(** [print_summary] *)
Definition print_summary (a : AffectedPaths) : str :=
  let line tag p := tag ++ p ++ [nl] in
  line (s! "Success. Updated the following files:") []
  ++ concat (line (s! "A ") <$> added a)
  ++ concat (line (s! "M ") <$> modified a)
  ++ concat (line (s! "D ") <$> deleted a).

(** [apply_hunks] with writers that do not fail: the text for stdout, and the
    delta with either nothing or the error. *)
Definition apply_hunks (cwd : uri) (fs : FS) (hs : list Hunk)
    : FS * str * result delta (apply_failure * delta) :=
  match apply_hunks_to_files cwd fs hs delta_empty with
  | (fs, d, Ok affected) => (fs, print_summary affected, Ok d)
  | (fs, d, Err e) => (fs, [], Err (e, d))
  end.

(** [apply_patch]: a patch that does not parse changes nothing. *)
Definition apply_patch (cwd : uri) (fs : FS) (patch : str)
    : FS * str * result delta ((ParseError + apply_failure) * delta) :=
  match parse_patch patch with
  | Err e => (fs, [], Err (inl e, delta_empty))
  | Ok args =>
      match apply_hunks cwd fs (args_hunks args) with
      | (fs, out, Ok d) => (fs, out, Ok d)
      | (fs, out, Err (e, d)) => (fs, out, Err (inr e, d))
      end
  end.

End Apply.
