(* ===== verification/PatchDelta.v ===== *)
(** * Exact deltas

    What the [exact] flag of an [AppliedPatchDelta] promises: replaying the
    recorded changes on the texts before the patch gives the texts after it,
    and undoing them in reverse order gives the texts before it back, whether
    the patch succeeded or failed half-way.  Proved for every file system that
    satisfies the laws below; an in-memory file system shows that they can
    hold. *)

From stdpp Require Import gmap.
From S2P Require Import Prelude.
From S2P Require Import RustStr.
From S2P Require Import PatchParser.
From S2P Require Import PatchApply.
From S2P Require Import PatchFs.

(** ** Laws of a file system *)

(** The text at a path, if it can be read. *)
Definition text {FS uri} `{!ExecutorFileSystem FS uri} (fs : FS) (p : uri) : option str :=
  match read_file_text fs p with Ok c => Some c | Err _ => None end.

(** Different URIs are different files: where symbolic or hard links make two of
    them the same file, a write changes the text at both, and the laws do not
    hold. *)
Class FileSystemLaws (FS uri : Type) `{!ExecutorFileSystem FS uri} := {
  (** a write to a regular file or to a new path changes the text at that path
      only, and regular text files stay regular *)
  write_ok : forall fs p c fs',
    delta_supported fs p = true -> write_file fs p c = (fs', Ok tt) ->
    text fs' p = Some c /\ (forall q, q <> p -> text fs' q = text fs q) /\
    (forall q, delta_supported fs q = true -> is_Some (text fs q) ->
       delta_supported fs' q = true);
  (** a write refused because the parent is missing changes nothing *)
  write_not_found : forall fs p c fs' e,
    write_file fs p c = (fs', Err e) -> is_not_found e = true ->
    (forall q, text fs' q = text fs q) /\
    (forall q, delta_supported fs q = true -> delta_supported fs' q = true);
  (** creating the parent of a path changes no text and leaves the path free *)
  create_parent : forall fs p d fs',
    uri_parent p = Some d -> create_directory fs d = (fs', Ok tt) ->
    (forall q, text fs' q = text fs q) /\
    (delta_supported fs p = true -> delta_supported fs' p = true) /\
    (forall q, delta_supported fs q = true -> is_Some (text fs q) ->
       delta_supported fs' q = true);
  (** a removal concerns the text at its path only, and writes no text *)
  remove_ok : forall fs p fs',
    delta_supported fs p = true -> remove fs p = (fs', Ok tt) ->
    text fs' p = None /\ forall q, q <> p -> text fs' q = text fs q;
  remove_err : forall fs p fs' e,
    delta_supported fs p = true -> remove fs p = (fs', Err e) ->
    (text fs' p = text fs p \/ text fs' p = None) /\ forall q, q <> p -> text fs' q = text fs q;
}.

(** ** Replaying and undoing *)

Section Delta.
Context {FS uri : Type} `{!EqDecision uri} `{!ExecutorFileSystem FS uri}.

(** Texts by path. *)
Abbreviation texts := (uri -> option str).

Definition upd (p : uri) (v : option str) (t : texts) : texts :=
  fun q => if decide (q = p) then v else t q.

Definition redo_change (c : AppliedPatchChange uri) (t : texts) : texts :=
  match change c with
  | ChangeAdd content _ => upd (change_path c) (Some content) t
  | ChangeDelete _ => upd (change_path c) None t
  | ChangeUpdate None _ _ new => upd (change_path c) (Some new) t
  | ChangeUpdate (Some dest) _ _ new =>
      upd (change_path c) None (upd dest (Some new) t)
  end.

Definition undo_change (c : AppliedPatchChange uri) (t : texts) : texts :=
  match change c with
  | ChangeAdd _ overwritten => upd (change_path c) overwritten t
  | ChangeDelete content => upd (change_path c) (Some content) t
  | ChangeUpdate None old _ _ => upd (change_path c) (Some old) t
  | ChangeUpdate (Some dest) old overwritten _ =>
      upd (change_path c) (Some old) (upd dest overwritten t)
  end.

(** Changes are listed in the order they were made. *)
Definition redo (cs : list (AppliedPatchChange uri)) (t : texts) : texts :=
  foldl (fun t c => redo_change c t) t cs.
Definition undo (cs : list (AppliedPatchChange uri)) (t : texts) : texts :=
  foldr undo_change t cs.

(** The texts [t0] before and [t1] after agree with the recorded changes. *)
Definition records (cs : list (AppliedPatchChange uri)) (t0 t1 : texts) : Prop :=
  (forall q, t1 q = redo cs t0 q) /\ (forall q, t0 q = undo cs t1 q).

Lemma redo_change_ext c t t' :
  (forall q, t q = t' q) -> forall q, redo_change c t q = redo_change c t' q.
Proof.
  intros H q. unfold redo_change, upd. repeat case_match; done.
Qed.

Lemma undo_change_ext c t t' :
  (forall q, t q = t' q) -> forall q, undo_change c t q = undo_change c t' q.
Proof.
  intros H q. unfold undo_change, upd. repeat case_match; done.
Qed.

Lemma undo_ext cs t t' : (forall q, t q = t' q) -> forall q, undo cs t q = undo cs t' q.
Proof.
  intros H. induction cs as [|c cs IH]; [done|]. simpl. by apply undo_change_ext.
Qed.

Lemma records_nil t t' : (forall q, t' q = t q) -> records [] t t'.
Proof. intros H. split; intros q; simpl; by rewrite ?H. Qed.

(** One more recorded change. *)
Lemma records_snoc cs c t0 t1 t2 :
  records cs t0 t1 ->
  (forall q, t2 q = redo_change c t1 q) -> (forall q, t1 q = undo_change c t2 q) ->
  records (cs ++ [c]) t0 t2.
Proof.
  intros [Hr Hu] Hredo Hundo. split; intros q.
  - unfold redo. rewrite foldl_app. simpl. rewrite Hredo. by apply redo_change_ext.
  - unfold undo. rewrite foldr_app. simpl. rewrite Hu. by apply undo_ext.
Qed.

Lemma records_same cs t0 t1 t2 :
  records cs t0 t1 -> (forall q, t2 q = t1 q) -> records cs t0 t2.
Proof.
  intros [Hr Hu] H. split; intros q; [by rewrite H|].
  rewrite Hu. apply undo_ext. by intros; rewrite H.
Qed.

(** The delta is exact only if it records what happened since [fs0]. *)
Definition delta_sound (fs0 fs : FS) (d : AppliedPatchDelta uri) : Prop :=
  exact d = true -> records (changes d) (text fs0) (text fs).

Lemma delta_sound_and fs0 fs d b : delta_sound fs0 fs d -> delta_sound fs0 fs (and_exact d b).
Proof. intros H He. simpl in *. apply andb_true_iff in He as [He _]. by apply H. Qed.

Lemma delta_sound_false fs0 fs d : delta_sound fs0 fs (and_exact d false).
Proof. intros He. simpl in He. by rewrite andb_false_r in He. Qed.

Lemma exact_and (d : AppliedPatchDelta uri) b : exact (and_exact d b) = true <-> exact d = true /\ b = true.
Proof. simpl. apply andb_true_iff. Qed.

Lemma read_optional_spec fs p (d d' : AppliedPatchDelta uri) o :
  read_optional_file_text_for_delta fs p d = (d', o) ->
  changes d' = changes d /\
  (exact d' = true -> exact d = true /\ delta_supported fs p = true /\ o = text fs p).
Proof.
  unfold read_optional_file_text_for_delta, note_existing_path_delta_support, text.
  destruct (read_file_text fs p) as [c|e]; intros H; simplify_eq.
  - split; [done|]. intros He. apply exact_and in He as [? ?]. done.
  - destruct (is_not_found e); simplify_eq; (split; [done|]); intros He;
      repeat (apply exact_and in He as [He ?]); done.
Qed.

Context `{!FileSystemLaws FS uri}.

(** The write with its retry behaves as one write when it succeeds. *)
Lemma write_retry_ok fs p c fs' :
  delta_supported fs p = true ->
  write_file_with_missing_parent_retry fs p c = (fs', Ok tt) ->
  text fs' p = Some c /\ (forall q, q <> p -> text fs' q = text fs q) /\
  (forall q, delta_supported fs q = true -> is_Some (text fs q) ->
     delta_supported fs' q = true).
Proof.
  intros Hp H. unfold write_file_with_missing_parent_retry in H.
  destruct (write_file fs p c) as [fs1 [[]|e]] eqn:Hw.
  { simplify_eq. by eapply write_ok. }
  destruct (is_not_found e) eqn:He; [|done].
  destruct (write_not_found _ _ _ _ _ Hw He) as [Ht1 Hs1].
  assert (Hcre : forall fs2 (created : result unit apply_failure),
    match uri_parent p with
    | Some parent =>
        let '(fs2, r) := create_directory fs1 parent in
        (fs2, with_context (s! "Failed to create parent directories for " ++ native_path p) r)
    | None => (fs1, Ok tt)
    end = (fs2, created) -> created = Ok tt ->
    (forall q, text fs2 q = text fs q) /\ delta_supported fs2 p = true /\
    (forall q, delta_supported fs q = true -> is_Some (text fs q) ->
       delta_supported fs2 q = true)).
  { intros fs2 created Hc ->. destruct (uri_parent p) as [d|] eqn:Hpar; simplify_eq; [|by auto].
    destruct (create_directory fs1 d) as [fs3 [[]|]] eqn:Hd; simplify_eq/=.
    destruct (create_parent _ _ _ _ Hpar Hd) as (H1 & H2 & H3). split; [|split].
    - intros q. by rewrite H1.
    - by apply H2, Hs1.
    - intros q Hq Hsome. apply H3; [by apply Hs1|]. by rewrite Ht1. }
  destruct (match uri_parent p with Some _ => _ | None => _ end) as [fs2 [[]|]] eqn:Hc; [|done].
  destruct (Hcre _ _ eq_refl eq_refl) as (Ht2 & Hp2 & Hs2).
  destruct (write_file fs2 p c) as [fs3 [[]|]] eqn:Hw2; simplify_eq/=.
  destruct (write_ok _ _ _ _ Hp2 Hw2) as (H1 & H2 & H3). split; [done|]. split.
  - intros q Hq. by rewrite H2.
  - intros q Hq Hsome. apply H3; [by apply Hs2|]. by rewrite Ht2.
Qed.

(** A removal: on success only the text at the path is gone; on failure the
    delta stays sound. *)
Lemma remove_file_spec fs0 fs p ctx expected d fs' d' r :
  delta_sound fs0 fs d -> (exact d = true -> delta_supported fs p = true) ->
  remove_file fs p ctx expected d = (fs', d', r) ->
  match r with
  | Ok _ => d' = d /\
      (exact d = true -> text fs' p = None /\ forall q, q <> p -> text fs' q = text fs q)
  | Err _ => delta_sound fs0 fs' d'
  end.
Proof.
  intros Hd Hex H. unfold remove_file in H.
  destruct (remove fs p) as [fs1 [[]|e]] eqn:Hrm; simplify_eq.
  - split; [done|]. intros He. specialize (Hex He). by eapply remove_ok.
  - intros He. apply exact_and in He as [He Hfree]. specialize (Hex He).
    destruct (remove_err _ _ _ _ Hex Hrm) as [Hp Hq].
    eapply records_same; [by apply Hd|]. intros q.
    destruct (decide (q = p)) as [->|Hne]; [|by apply Hq].
    destruct Hp as [Hp|Hp]; [done|]. unfold text in Hp.
    unfold remove_failure_was_side_effect_free in Hfree.
    destruct expected; [|done]. by destruct (read_file_text fs' p).
Qed.

Lemma apply_add_sound fs0 fs p c d fs' d' r :
  delta_sound fs0 fs d -> apply_add fs p c d = (fs', d', r) -> delta_sound fs0 fs' d'.
Proof.
  intros Hd H. unfold apply_add in H.
  destruct (read_optional_file_text_for_delta fs p d) as [d1 o] eqn:Ho.
  apply read_optional_spec in Ho as [Hch Hex].
  destruct (write_file_with_missing_parent_retry fs p c) as [fs1 [[]|e]] eqn:Hw; simplify_eq.
  2: { apply delta_sound_false. }
  intros He. simpl in *. destruct (Hex He) as (Hed & Hs & ->). rewrite Hch.
  destruct (write_retry_ok _ _ _ _ Hs Hw) as (H1 & H2 & _).
  eapply records_snoc; [by apply Hd| |]; intros q; unfold redo_change, undo_change, upd; simpl;
    case_decide; subst; auto; by rewrite H2.
Qed.

Lemma apply_delete_sound fs0 fs p d fs' d' r :
  delta_sound fs0 fs d -> apply_delete fs p d = (fs', d', r) -> delta_sound fs0 fs' d'.
Proof.
  intros Hd H. unfold apply_delete in H. fold (text fs p) in H.
  set (d1 := and_exact (note_existing_path_delta_support fs p d)
    (bool_decide (is_Some (text fs p)))) in *.
  assert (Hd1 : delta_sound fs0 fs d1) by (by apply delta_sound_and, delta_sound_and).
  assert (Hex1 : exact d1 = true -> delta_supported fs p = true /\ is_Some (text fs p)).
  { intros He. apply exact_and in He as [He Hsome]. apply exact_and in He as [_ He].
    by apply bool_decide_eq_true in Hsome. }
  destruct (with_context _ _); [|by simplify_eq].
  destruct (remove_file _ _ _ _ _) as [[fs1 d2] r1] eqn:Hrm.
  eapply (remove_file_spec fs0) in Hrm; [|done|by intros [? _]%Hex1].
  destruct r1; simplify_eq; [|done]. destruct Hrm as [-> Hrm].
  destruct (text fs p) as [content|] eqn:Ht.
  - intros He. simpl in He. destruct (Hrm He) as [H1 H2].
    eapply records_snoc; [by apply Hd1| |]; intros q; unfold redo_change, undo_change, upd; simpl;
      case_decide; subst; auto; by rewrite H2.
  - intros He. apply Hex1 in He as [_ [? ?]]. done.
Qed.

Lemma apply_move_sound fs0 fs p dest old new d fs' d' r :
  delta_sound fs0 fs d ->
  (exact d = true -> delta_supported fs p = true) -> text fs p = Some old ->
  apply_move fs p dest old new d = (fs', d', r) -> delta_sound fs0 fs' d'.
Proof.
  intros Hd Hsup Htext H. unfold apply_move in H.
  destruct (read_optional_file_text_for_delta fs dest d) as [d1 o] eqn:Ho.
  destruct (write_file_with_missing_parent_retry fs dest new) as [fs1 [[]|e]] eqn:Hw.
  2: { simplify_eq. apply delta_sound_false. }
  set (written := push_change d1 dest (ChangeAdd new o)) in *.
  assert (Hw1 : delta_sound fs0 fs1 written).
  { apply (apply_add_sound fs0 fs dest new d fs1 written (Ok tt)); [done|].
    unfold apply_add. by rewrite Ho, Hw. }
  apply read_optional_spec in Ho as [Hch Hex].
  destruct (with_context _ _); [|by simplify_eq].
  destruct (remove_file _ _ _ _ _) as [[fs2 d2] r1] eqn:Hrm.
  eapply (remove_file_spec fs0) in Hrm; [|done|].
  2: { intros He. destruct (Hex He) as (Hed & Hs & _).
       apply (write_retry_ok _ _ _ _ Hs Hw); [by apply Hsup|by rewrite Htext]. }
  destruct r1; simplify_eq; [|done]. destruct Hrm as [-> Hrm].
  intros He. simpl in He. destruct (Hrm He) as [H1 H2].
  destruct (Hex He) as (Hed & Hs & ->). destruct (write_retry_ok _ _ _ _ Hs Hw) as (H3 & H4 & _).
  simpl. rewrite Hch.
  eapply records_snoc; [by apply Hd| |]; intros q; unfold redo_change, undo_change, upd; simpl;
    repeat case_decide; subst; auto; rewrite H2 by done; auto; by rewrite H4.
Qed.

Lemma apply_update_sound cwd fs0 fs p mv chunks d fs' d' r :
  delta_sound fs0 fs d -> apply_update cwd fs p mv chunks d = (fs', d', r) ->
  delta_sound fs0 fs' d'.
Proof.
  intros Hd H. unfold apply_update in H.
  set (d1 := note_existing_path_delta_support fs p d) in *.
  assert (Hd1 : delta_sound fs0 fs d1) by (by apply delta_sound_and).
  assert (Hex1 : exact d1 = true -> delta_supported fs p = true)
    by (by intros [_ ?]%exact_and).
  destruct (derive_new_contents_from_chunks fs p chunks) as [[old new]|e] eqn:Hder;
    [|by simplify_eq].
  assert (Htext : text fs p = Some old).
  { unfold derive_new_contents_from_chunks in Hder. unfold text.
    destruct (read_file_text fs p); [|done]. by repeat case_match; simplify_eq. }
  destruct mv as [dest|].
  - destruct (uri_join cwd dest); [|by simplify_eq]. by eapply apply_move_sound.
  - destruct (write_file fs p new) as [fs1 [[]|]] eqn:Hw; simplify_eq;
      [|apply delta_sound_false].
    intros He. simpl in He. destruct (write_ok _ _ _ _ (Hex1 He) Hw) as (H1 & H2 & _).
    eapply records_snoc; [by apply Hd1| |]; intros q; unfold redo_change, undo_change, upd; simpl;
      case_decide; subst; auto; by rewrite H2.
Qed.

Lemma apply_hunk_sound cwd fs0 fs h d fs' d' r :
  delta_sound fs0 fs d -> apply_hunk cwd fs h d = (fs', d', r) -> delta_sound fs0 fs' d'.
Proof.
  intros Hd H. unfold apply_hunk in H. destruct (uri_join _ _); [|by simplify_eq].
  destruct h; [by eapply apply_add_sound|by eapply apply_delete_sound|by eapply apply_update_sound].
Qed.

Lemma apply_hunk_loop_sound cwd hs : forall fs0 fs a d fs' d' r,
  delta_sound fs0 fs d -> apply_hunk_loop cwd fs hs a d = (fs', d', r) ->
  delta_sound fs0 fs' d'.
Proof.
  induction hs as [|h hs IH]; intros fs0 fs a d fs' d' r Hd H; simpl in H; [by simplify_eq|].
  destruct (apply_hunk cwd fs h d) as [[fs1 d1] [[]|e]] eqn:Hh.
  - eapply IH; [|exact H]. by eapply apply_hunk_sound.
  - simplify_eq. by eapply apply_hunk_sound.
Qed.

(** ** Properties *)

(** C2: When the delta of a run is exact, whether the run succeeded or stopped
    at an error, its changes are what happened: replaying them on the texts of
    the file system before the run gives the texts after it, and undoing them
    in reverse order on the texts after gives the texts before. *)
Theorem exact_delta_records cwd fs hs fs' out r :
  apply_hunks cwd fs hs = (fs', out, r) ->
  let d := match r with Ok d => d | Err (_, d) => d end in
  exact d = true ->
  (forall q, text fs' q = redo (changes d) (text fs) q) /\
  (forall q, text fs q = undo (changes d) (text fs') q).
Proof.
  intros H d He. unfold apply_hunks, apply_hunks_to_files in H.
  assert (Hd : delta_sound fs fs' d).
  { assert (H0 : delta_sound fs fs delta_empty) by (intros _; by apply records_nil).
    destruct (is_empty hs); [by simplify_eq|].
    destruct (apply_hunk_loop _ _ _ _ _) as [[fs1 d1] [a|e]] eqn:Hl; simplify_eq;
      by eapply apply_hunk_loop_sound. }
  by apply Hd.
Qed.
End Delta.

(** ** An in-memory file system *)

Module MemFs.

(** Files by path; there are no directories to create and no links. *)
Abbreviation fs := (gmap str str).

Definition not_found : io_error := {| io_kind := NotFound; io_message := s! "no such file" |}.

#[global] Instance mem_fs : ExecutorFileSystem fs str := {|
  uri_join cwd p := Ok (cwd ++ s! "/" ++ p);
  uri_parent p := None;
  native_path p := p;
  read_file_text m p := match m !! p with Some c => Ok c | None => Err not_found end;
  get_metadata m p :=
    match m !! p with
    | Some _ => Ok {| is_directory := false; is_file := true; is_symlink := false |}
    | None => Err not_found
    end;
  write_file m p c := (<[p := c]> m, Ok tt);
  create_directory m p := (m, Ok tt);
  remove m p :=
    match m !! p with Some _ => (delete p m, Ok tt) | None => (m, Err not_found) end;
|}.

Lemma mem_text (m : fs) p : text m p = m !! p.
Proof. unfold text. simpl. by destruct (m !! p). Qed.

Lemma mem_supported (m : fs) p : delta_supported m p = true.
Proof. unfold delta_supported. simpl. by destruct (m !! p). Qed.

#[global] Instance mem_fs_laws : FileSystemLaws fs str.
Proof.
  split; intros; simpl in *; split_cases; rewrite ?mem_text in *;
    repeat split; intros; rewrite ?mem_text, ?mem_supported, ?lookup_insert_eq,
      ?lookup_insert_ne, ?lookup_delete_eq, ?lookup_delete_ne by done; auto.
Qed.

Definition before : fs :=
  <[s! "/r/a.txt" := s! "one" ++ [nl] ++ s! "two" ++ [nl]]>
  (<[s! "/r/b.txt" := s! "bee" ++ [nl]]> ∅).

(** A move with an edit, an overwriting addition, and an update that fails. *)
Definition hunks : list Hunk :=
  [ UpdateFile (s! "a.txt") (Some (s! "c.txt"))
      [{| change_context := None; old_lines := [s! "two"]; new_lines := [s! "2"];
          is_end_of_file := false |}];
    AddFile (s! "b.txt") (s! "new" ++ [nl]);
    UpdateFile (s! "missing.txt") None
      [{| change_context := None; old_lines := [s! "x"]; new_lines := [];
          is_end_of_file := false |}] ].

End MemFs.

Lemma exact_delta_records_witness :
  exists fs' out e d,
    apply_hunks (s! "/r") MemFs.before MemFs.hunks = (fs', out, Err (e, d)) /\
    length (changes d) = 2 /\
    (forall q, text fs' q = redo (changes d) (text MemFs.before) q) /\
    (forall q, text MemFs.before q = undo (changes d) (text fs') q).
Proof.
  destruct (apply_hunks (s! "/r") MemFs.before MemFs.hunks) as [[fs' out] r] eqn:E.
  pose proof (exact_delta_records _ _ _ _ _ _ E) as H.
  assert (Hr : exists e d, r = Err (e, d) /\ exact d = true /\ length (changes d) = 2).
  { vm_compute in E. injection E as _ _ <-. do 2 eexists. split; [done|]. split; reflexivity. }
  destruct Hr as (e & d & -> & He & Hl). exists fs', out, e, d.
  split; [done|]. split; [done|]. apply H, He.
Defined.
