(* ===== verification/StreamText.v ===== *)
(** * Streaming text parsers: [utils/stream-parser/src/stream_text.rs]

    The chunk type and the [StreamTextParser] trait of the crate, and the
    contract its implementations meet: splitting the streamed text differently
    changes neither the final state nor, up to an equivalence on the extracted
    payloads, the output. *)

From S2P Require Import Prelude.
From S2P Require Import RustStr.

Record StreamTextChunk (T : Type) := {
  visible_text : str;
  extracted : list T;
}.
Arguments Build_StreamTextChunk {T} visible_text extracted.
Arguments visible_text {T} s.
Arguments extracted {T} s.

(** [StreamTextChunk::default] *)
Definition chunk_default {T} : StreamTextChunk T :=
  {| visible_text := []; extracted := [] |}.

(** [StreamTextChunk::is_empty] *)
Definition stream_chunk_is_empty {T} (c : StreamTextChunk T) : bool :=
  is_empty (visible_text c) && is_empty (extracted c).

(** What a consumer holds after two outputs: the text and the payloads of the
    first followed by those of the second. *)
Definition chunk_append {T} (a b : StreamTextChunk T) : StreamTextChunk T :=
  {| visible_text := visible_text a ++ visible_text b;
     extracted := extracted a ++ extracted b |}.

Class StreamTextParser (P T : Type) := {
  push_str : P -> str -> P * StreamTextChunk T;
  finish : P -> P * StreamTextChunk T;
}.
#[global] Hint Mode StreamTextParser + - : typeclass_instances.

(** ** Streams of chunks *)

Section Run.
Context {P T : Type} `{!StreamTextParser P T}.

(** The state and the collected output after a list of pushed chunks. *)
Fixpoint push_all (p : P) (chunks : list str) : P * StreamTextChunk T :=
  match chunks with
  | [] => (p, chunk_default)
  | c :: rest =>
      let '(p1, o1) := push_str p c in
      let '(p2, o2) := push_all p1 rest in
      (p2, chunk_append o1 o2)
  end.

(** A whole item: the chunks, then the final flush. *)
Definition run_parser (p : P) (chunks : list str) : P * StreamTextChunk T :=
  let '(p1, o1) := push_all p chunks in
  let '(p2, o2) := finish p1 in
  (p2, chunk_append o1 o2).

End Run.

(** ** The contract *)

Class LawfulParser (P T : Type) `{!StreamTextParser P T} := {
  (** states the parser can be in *)
  parser_ok : P -> Prop;
  (** when two payload lists mean the same to a consumer *)
  same_payload : relation (list T);
  same_payload_equiv : Equivalence same_payload;
  same_payload_app : Proper (same_payload ==> same_payload ==> same_payload) app;
  push_ok : forall p s, parser_ok p -> parser_ok (fst (push_str p s));
  finish_ok : forall p, parser_ok p -> parser_ok (fst (finish p));
  push_nil : forall p, parser_ok p -> push_str p [] = (p, chunk_default);
  push_app : forall p a b, parser_ok p ->
    let '(p1, o1) := push_str p a in
    let '(p2, o2) := push_str p1 b in
    let '(p3, o3) := push_str p (a ++ b) in
    p3 = p2 /\ visible_text o3 = visible_text o1 ++ visible_text o2 /\
    same_payload (extracted o3) (extracted o1 ++ extracted o2);
}.
#[global] Existing Instances same_payload_equiv same_payload_app.

Section Laws.
Context {P T : Type} `{!StreamTextParser P T} `{!LawfulParser P T}.

(** Outputs a consumer cannot tell apart. *)
Definition same_output (a b : StreamTextChunk T) : Prop :=
  visible_text a = visible_text b /\ same_payload (extracted a) (extracted b).

#[global] Instance same_output_equiv : Equivalence same_output.
Proof.
  split.
  - intros a. by split.
  - intros a b [H1 H2]. by split.
  - intros a b c [H1 H2] [H3 H4]. split; [congruence|]. by transitivity (extracted b).
Qed.

#[global] Instance chunk_append_proper :
  Proper (same_output ==> same_output ==> same_output) (@chunk_append T).
Proof.
  intros a a' [H1 H2] b b' [H3 H4]. split; simpl; [congruence|]. by rewrite H2, H4.
Qed.

Lemma chunk_append_nil_l (o : StreamTextChunk T) : chunk_append chunk_default o = o.
Proof. by destruct o. Qed.

Lemma chunk_append_nil_r (o : StreamTextChunk T) : chunk_append o chunk_default = o.
Proof. destruct o. unfold chunk_append. simpl. by rewrite !app_nil_r. Qed.

Lemma chunk_append_assoc (a b c : StreamTextChunk T) :
  chunk_append a (chunk_append b c) = chunk_append (chunk_append a b) c.
Proof. unfold chunk_append. simpl. by rewrite !app_assoc. Qed.

Lemma push_all_ok p chunks : parser_ok p -> parser_ok (fst (push_all p chunks)).
Proof.
  revert p. induction chunks as [|c chunks IH]; intros p Hp; [done|]. simpl.
  apply (push_ok p c) in Hp. destruct (push_str p c) as [p1 o1]. simpl in Hp.
  apply IH in Hp. by destruct (push_all p1 chunks).
Qed.

(** Pushing the chunks one by one is pushing their concatenation. *)
Lemma push_all_concat p chunks :
  parser_ok p ->
  fst (push_all p chunks) = fst (push_str p (concat chunks)) /\
  same_output (snd (push_all p chunks)) (snd (push_str p (concat chunks))).
Proof.
  revert p. induction chunks as [|c chunks IH]; intros p Hp; simpl.
  { rewrite push_nil by done. done. }
  pose proof (push_app p c (concat chunks) Hp) as Happ.
  apply (push_ok p c) in Hp. destruct (push_str p c) as [p1 o1]. simpl in Hp.
  specialize (IH p1 Hp). destruct (push_all p1 chunks) as [p2 o2].
  destruct (push_str p1 (concat chunks)) as [p3 o3], (push_str p (c ++ _)) as [p4 o4].
  simpl in *. destruct IH as [-> Ho], Happ as (-> & Hv & He). split; [done|].
  rewrite Ho. by split.
Qed.

Lemma run_parser_concat p chunks :
  parser_ok p ->
  fst (run_parser p chunks) = fst (run_parser p [concat chunks]) /\
  same_output (snd (run_parser p chunks)) (snd (run_parser p [concat chunks])).
Proof.
  intros Hp. destruct (push_all_concat p chunks Hp) as [H1 H2].
  unfold run_parser. simpl.
  destruct (push_all p chunks) as [p1 o1], (push_str p (concat chunks)) as [p2 o2].
  simpl in *. subst p2. destruct (finish p1) as [p3 o3]. simpl. split; [done|].
  by rewrite chunk_append_nil_r, H2.
Qed.

End Laws.
