(* ===== verification/InlineTag.v ===== *)
(** * Hidden inline tags: [utils/stream-parser/src/inline_hidden_tag.rs]
      and [citation.rs]

    [InlineHiddenTagParser] hides literal, non-nested tags from streamed text
    and extracts what they enclose; [CitationStreamParser] is its instance for
    memory citations.  [usize] positions of the source are byte offsets at char
    boundaries; they are character counts here, except for the comparison of
    delimiter lengths, which is done on bytes as in the source. *)

From S2P Require Import Prelude.
From S2P Require Import RustStr.
From S2P Require Import StreamText.

(** ** Data *)

Record ExtractedInlineTag (T : Type) := { extracted_tag : T; extracted_content : str }.
Arguments Build_ExtractedInlineTag {T} extracted_tag extracted_content.
Arguments extracted_tag {T} e.
Arguments extracted_content {T} e.

Record InlineTagSpec (T : Type) := { spec_tag : T; spec_open : str; spec_close : str }.
Arguments Build_InlineTagSpec {T} spec_tag spec_open spec_close.
Arguments spec_tag {T} i.
Arguments spec_open {T} i.
Arguments spec_close {T} i.

Record ActiveTag (T : Type) := { active_tag : T; active_close : str; active_content : str }.
Arguments Build_ActiveTag {T} active_tag active_close active_content.
Arguments active_tag {T} a.
Arguments active_close {T} a.
Arguments active_content {T} a.

Record InlineHiddenTagParser (T : Type) := {
  specs : list (InlineTagSpec T);
  pending : str;
  active : option (ActiveTag T);
}.
Arguments Build_InlineHiddenTagParser {T} specs pending active.
Arguments specs {T} i.
Arguments pending {T} i.
Arguments active {T} i.

(** ** Operations *)

(** [Iterator::min_by]: the first of the least elements. *)
Fixpoint min_by {A} (le : A -> A -> bool) (l : list A) : option A :=
  match l with
  | [] => None
  | x :: rest =>
      match min_by le rest with
      | None => Some x
      | Some y => Some (if le x y then x else y)
      end
  end.

(** The comparison of [find_next_open]: the least position, then the longest
    delimiter, then the least index. *)
Definition candidate_le (a b : nat * N * nat) : bool :=
  let '(pos_a, len_a, idx_a) := a in
  let '(pos_b, len_b, idx_b) := b in
  match Nat.compare pos_a pos_b with
  | Lt => true
  | Gt => false
  | Eq => match N.compare len_b len_a with
          | Lt => true
          | Gt => false
          | Eq => idx_a <=? idx_b
          end
  end.

(** The [for] loop of [longest_suffix_prefix_len], from [k] down to 1. *)
Fixpoint suffix_prefix_from (k : nat) (s needle : str) : nat :=
  match k with
  | O => 0
  | S k' => if ends_with (take k needle) s then k else suffix_prefix_from k' s needle
  end.

Definition longest_suffix_prefix_len (s needle : str) : nat :=
  suffix_prefix_from (min (length s) (length needle - 1)) s needle.

Section Parser.
Context {T : Type}.
Abbreviation parser := (InlineHiddenTagParser T).
Abbreviation output := (StreamTextChunk (ExtractedInlineTag T)).

(** [new]; [None] when one of its assertions fails. *)
Definition inline_new (sp : list (InlineTagSpec T)) : option parser :=
  if is_empty sp then None
  else if existsb (fun s => is_empty (spec_open s) || is_empty (spec_close s)) sp then None
  else Some {| specs := sp; pending := []; active := None |}.

Definition open_candidates (p : parser) : list (nat * N * nat) :=
  omap (fun '(idx, spec) =>
          (fun pos => (pos, byte_len (spec_open spec), idx))
            <$> find_str (spec_open spec) (pending p))
       (imap pair (specs p)).

Definition find_next_open (p : parser) : option (nat * nat) :=
  (fun '(pos, _, idx) => (pos, idx)) <$> min_by candidate_le (open_candidates p).

Definition max_open_prefix_suffix_len (p : parser) : nat :=
  foldr (fun spec k => max (longest_suffix_prefix_len (pending p) (spec_open spec)) k) 0 (specs p).

Definition push_visible_prefix (out : output) (s : str) : output :=
  {| visible_text := visible_text out ++ s; extracted := extracted out |}.

Definition push_extracted (out : output) (t : T) (content : str) : output :=
  {| visible_text := visible_text out;
     extracted := extracted out ++ [{| extracted_tag := t; extracted_content := content |}] |}.

Definition drain_visible_to_suffix_match (p : parser) (out : output) (keep_suffix_len : nat)
    : parser * output :=
  let n := length (pending p) - keep_suffix_len in
  ({| specs := specs p; pending := drop n (pending p); active := active p |},
   push_visible_prefix out (take n (pending p))).

(** The [loop] of [push_str].  Every iteration that continues drains a
    delimiter, so the length of the pending text bounds their number. *)
Fixpoint push_loop (fuel : nat) (p : parser) (out : output) : parser * output :=
  match fuel with
  | O => (p, out)
  | S fuel =>
      match active p with
      | Some a =>
          match find_str (active_close a) (pending p) with
          | Some close_idx =>
              push_loop fuel
                {| specs := specs p;
                   pending := drop (close_idx + length (active_close a)) (pending p);
                   active := None |}
                (push_extracted out (active_tag a)
                   (active_content a ++ take close_idx (pending p)))
          | None =>
              let keep := longest_suffix_prefix_len (pending p) (active_close a) in
              let n := length (pending p) - keep in
              ({| specs := specs p;
                  pending := drop n (pending p);
                  active := Some {| active_tag := active_tag a; active_close := active_close a;
                                    active_content := active_content a ++ take n (pending p) |} |},
               out)
          end
      | None =>
          match find_next_open p with
          | Some (open_idx, spec_idx) =>
              match specs p !! spec_idx with
              | Some spec =>
                  push_loop fuel
                    {| specs := specs p;
                       pending := drop (open_idx + length (spec_open spec)) (pending p);
                       active := Some {| active_tag := spec_tag spec;
                                         active_close := spec_close spec;
                                         active_content := [] |} |}
                    (push_visible_prefix out (take open_idx (pending p)))
              | None => (p, out)
              end
          | None => drain_visible_to_suffix_match p out (max_open_prefix_suffix_len p)
          end
      end
  end.

Definition with_pending (p : parser) (s : str) : parser :=
  {| specs := specs p; pending := s; active := active p |}.

Definition inline_push_str (p : parser) (chunk : str) : parser * output :=
  let p := with_pending p (pending p ++ chunk) in
  push_loop (S (length (pending p))) p chunk_default.

Definition inline_finish (p : parser) : parser * output :=
  match active p with
  | Some a =>
      ({| specs := specs p; pending := []; active := None |},
       push_extracted chunk_default (active_tag a) (active_content a ++ pending p))
  | None =>
      (with_pending p [], {| visible_text := pending p; extracted := [] |})
  end.

#[global] Instance inline_parser : StreamTextParser parser (ExtractedInlineTag T) := {|
  push_str := inline_push_str;
  finish := inline_finish;
|}.

End Parser.

(** ** Citations *)

Inductive CitationTag := Citation.

Definition CITATION_OPEN : str := Eval vm_compute in s! "<oai-mem-citation>".
Definition CITATION_CLOSE : str := Eval vm_compute in s! "</oai-mem-citation>".

Definition CITATION_SPEC : InlineTagSpec CitationTag :=
  {| spec_tag := Citation; spec_open := CITATION_OPEN; spec_close := CITATION_CLOSE |}.

Record CitationStreamParser := { citation_inner : InlineHiddenTagParser CitationTag }.

Definition citation_new : CitationStreamParser :=
  {| citation_inner := {| specs := [CITATION_SPEC]; pending := []; active := None |} |}.

Definition citation_chunk (inner : StreamTextChunk (ExtractedInlineTag CitationTag))
    : StreamTextChunk str :=
  {| visible_text := visible_text inner;
     extracted := extracted_content <$> extracted inner |}.

Definition citation_push_str (p : CitationStreamParser) (chunk : str)
    : CitationStreamParser * StreamTextChunk str :=
  let '(q, o) := push_str (citation_inner p) chunk in
  ({| citation_inner := q |}, citation_chunk o).

Definition citation_finish (p : CitationStreamParser)
    : CitationStreamParser * StreamTextChunk str :=
  let '(q, o) := finish (citation_inner p) in
  ({| citation_inner := q |}, citation_chunk o).

#[global] Instance citation_parser : StreamTextParser CitationStreamParser str := {|
  push_str := citation_push_str;
  finish := citation_finish;
|}.

Definition strip_citations (text : str) : str * list str :=
  let '(parser, out) := push_str citation_new text in
  let '(_, tail) := finish parser in
  (visible_text out ++ visible_text tail, extracted out ++ extracted tail).

(** [new] does not panic. *)
Lemma citation_new_ok : inline_new [CITATION_SPEC] = Some (citation_inner citation_new).
Proof. reflexivity. Qed.

Example strip_citations_example :
  strip_citations (s! "a<oai-mem-citation>x</oai-mem-citation>b<oai-mem") =
  (s! "ab<oai-mem", [s! "x"]).
Proof. reflexivity. Qed.
