(* ===== verification/InlineTagFacts.v ===== *)
(** * Correctness of the hidden-tag parsers

    The parser holds back exactly the text that may still become a delimiter,
    so that splitting the stream differently changes nothing; for citations the
    whole output is what a reference definition on the complete text gives. *)

From S2P Require Import Prelude.
From S2P Require Import RustStr.
From S2P Require Import StreamText.
From S2P Require Import InlineTag.

(** ** Partial matches at the end of a text *)

Definition border (k : nat) (s n : str) : Prop :=
  k <= length n - 1 /\ exists r, s = r ++ take k n.

Lemma suffix_prefix_from_spec m s n :
  m <= length n - 1 ->
  border (suffix_prefix_from m s n) s n /\
  forall k, k <= m -> border k s n -> k <= suffix_prefix_from m s n.
Proof.
  induction m as [|m IH]; intros Hm; simpl suffix_prefix_from.
  - split; [|lia]. split; [lia|]. exists s. by rewrite take_0, app_nil_r.
  - destruct (ends_with (take (S m) n) s) eqn:E.
    + split; [|lia]. split; [lia|]. by apply ends_with_true.
    + destruct IH as [IH1 IH2]; [lia|]. split; [done|].
      intros k Hk Hb. destruct (decide (k = S m)) as [->|]; [|apply IH2; [lia|done]].
      destruct Hb as [_ Hb]. apply ends_with_true in Hb. congruence.
Qed.

Lemma border_length k s n : border k s n -> k <= length s.
Proof. intros [Hk [r ->]]. rewrite length_app, length_take. lia. Qed.

(** [longest_suffix_prefix_len] is the longest proper prefix of the delimiter
    that ends the text. *)
Lemma longest_spec s n :
  border (longest_suffix_prefix_len s n) s n /\
  forall k, border k s n -> k <= longest_suffix_prefix_len s n.
Proof.
  destruct (suffix_prefix_from_spec (min (length s) (length n - 1)) s n) as [H1 H2]; [lia|].
  split; [done|]. intros k Hk. apply H2; [|done].
  pose proof (border_length _ _ _ Hk). destruct Hk. lia.
Qed.

Lemma longest_unique s n k :
  border k s n -> (forall j, border j s n -> j <= k) -> longest_suffix_prefix_len s n = k.
Proof.
  intros H1 H2. destruct (longest_spec s n) as [H3 H4].
  apply H2 in H3. apply H4 in H1. lia.
Qed.

Lemma longest_le s n : longest_suffix_prefix_len s n <= length s.
Proof. apply (border_length _ _ n), longest_spec. Qed.

(** No occurrence of the delimiter starts in [v], whatever follows [t]. *)
Fixpoint clear (n v t : str) : Prop :=
  match v with
  | [] => True
  | _ :: v' => ~ (n `prefix_of` v ++ t) /\ ~ (v ++ t `prefix_of` n) /\ clear n v' t
  end.

Lemma prefix_of_app_cases (n x b : str) :
  n `prefix_of` x ++ b -> n `prefix_of` x \/ x `prefix_of` n.
Proof.
  intros [r Hr]. destruct (decide (length n <= length x)) as [Hle|Hgt].
  - destruct (app_eq_length_split n x r b) as (m & -> & _); [done|lia|].
    left. by apply prefix_app_r.
  - destruct (app_eq_length_split x n b r) as (m & -> & _); [done|lia|].
    right. by apply prefix_app_r.
Qed.

Lemma clear_ext n v t b : clear n v t -> clear n v (t ++ b).
Proof.
  induction v as [|c v IH]; [done|]. cbn [clear]. intros (H1 & H2 & H3).
  rewrite app_assoc. split; [|split; [|by apply IH]].
  - intros H. destruct (prefix_of_app_cases _ _ _ H); tauto.
  - intros [r Hr]. apply H2. exists (b ++ r). by rewrite Hr, <- app_assoc.
Qed.

Lemma starts_with_prefix p s : starts_with p s = true <-> p `prefix_of` s.
Proof. apply starts_with_true. Qed.

Lemma find_clear n v t : clear n v t -> find_str n (v ++ t) = (fun i => length v + i) <$> find_str n t.
Proof.
  induction v as [|c v IH]; [intros _; simpl; by destruct (find_str n t)|].
  cbn [clear]. intros (H1 & _ & H3). rewrite <- app_comm_cons. simpl find_str.
  destruct (starts_with n (c :: v ++ t)) eqn:E; [by apply starts_with_prefix in E|].
  rewrite IH by done. by destruct (find_str n t).
Qed.

Lemma clear_no_suffix n v t w x :
  clear n v t -> v ++ t = w ++ x -> x `prefix_of` n -> length t < length x -> False.
Proof.
  revert w. induction v as [|c v IH]; intros w Hc Heq Hx Hlen.
  - simpl in Heq. subst t. rewrite length_app in Hlen. lia.
  - destruct Hc as (H1 & H2 & H3). destruct w as [|d w]; simpl in Heq.
    + by rewrite <- Heq in Hx.
    + injection Heq as -> Heq. by apply (IH w).
Qed.

Lemma longest_clear n v t :
  clear n v t -> longest_suffix_prefix_len (v ++ t) n = longest_suffix_prefix_len t n.
Proof.
  intros Hc. destruct (longest_spec t n) as [[H1 [r Hr]] H2].
  apply longest_unique.
  - split; [done|]. exists (v ++ r). by rewrite <- app_assoc, <- Hr.
  - intros j [Hj [w Hw]]. apply H2. split; [done|].
    destruct (decide (j <= length t)) as [Hle|Hgt].
    + assert (Hlen : length v <= length w).
      { apply (f_equal length) in Hw. rewrite !length_app, length_take in Hw. lia. }
      destruct (app_eq_length_split v w t (take j n)) as (m & -> & Ht); [done|done|].
      by exists m.
    + exfalso. eapply clear_no_suffix; [done|exact Hw|apply prefix_take|].
      rewrite length_take. lia.
Qed.

(** What is drained when no delimiter is found is clear of it. *)
Lemma clear_intro n v k :
  find_str n (v ++ k) = None -> longest_suffix_prefix_len (v ++ k) n <= length k -> clear n v k.
Proof.
  induction v as [|c v IH]; intros Hf Hl; [done|]. cbn [clear].
  assert (Hs : ~ n `prefix_of` (c :: v) ++ k).
  { rewrite find_str_None in Hf. specialize (Hf 0). rewrite drop_0 in Hf.
    intros H. apply starts_with_prefix in H. congruence. }
  split; [done|]. split.
  - intros Hp. destruct (longest_spec ((c :: v) ++ k) n) as [_ Hmax].
    assert (Hb : border (length ((c :: v) ++ k)) ((c :: v) ++ k) n).
    { destruct Hp as [r ->]. split.
      - rewrite (length_app _ r). destruct r as [|]; cbn [length]; [|lia].
        exfalso. apply Hs. by rewrite app_nil_r.
      - exists []. simpl. by rewrite take_app_length'. }
    apply Hmax in Hb. rewrite length_app in Hb. simpl in *. lia.
  - apply IH.
    + rewrite find_str_None in *. intros j. apply (Hf (S j)).
    + destruct (longest_spec (v ++ k) n) as [[H1 [r Hr]] _].
      etrans; [|exact Hl]. apply longest_spec. split; [done|].
      exists (c :: r). simpl. by rewrite <- Hr.
Qed.

(** A found delimiter is found at the same place when more text arrives. *)
Lemma find_str_app n s b i : find_str n s = Some i -> find_str n (s ++ b) = Some i.
Proof.
  revert i. induction s as [|c s IH]; intros i H; simpl in *.
  - destruct (starts_with n []) eqn:E; [|done]. injection H as <-.
    apply starts_with_prefix in E. apply prefix_nil_inv in E as ->. by destruct b.
  - destruct (starts_with n (c :: s)) eqn:E.
    + injection H as <-. apply starts_with_prefix in E.
      rewrite (proj2 (starts_with_prefix n (c :: s ++ b))); [done|].
      by apply (prefix_app_r _ (c :: s)).
    + apply fmap_Some in H as (i' & Hi' & ->).
      destruct (starts_with n (c :: s ++ b)) eqn:E'.
      * apply starts_with_prefix, (prefix_of_app_cases _ (c :: s)) in E' as [E'|E'].
        { apply starts_with_prefix in E'. congruence. }
        exfalso. apply find_str_Some in Hi' as [(b' & Hb & Hlen) _].
        apply (f_equal length) in Hb. rewrite !length_app in Hb.
        apply prefix_length in E'. simpl in E'. rewrite length_take in Hb. lia.
      * by rewrite (IH i').
Qed.

(** ** The next opening delimiter *)

Lemma min_by_Some {A} (le : A -> A -> bool) l x :
  (forall a b, le a b = true \/ le b a = true) ->
  (forall a b c, le a b = true -> le b c = true -> le a c = true) ->
  min_by le l = Some x -> x ∈ l /\ forall y, y ∈ l -> le x y = true.
Proof.
  intros Htot Htrans. revert x. induction l as [|a l IH]; intros x H; simpl in H; [done|].
  destruct (min_by le l) as [m|] eqn:Em.
  - destruct (IH m eq_refl) as [Hin Hmin]. injection H as <-. destruct (le a m) eqn:E.
    + split; [by left|]. intros y [->|Hy]%elem_of_cons; [by destruct (Htot a a)|eauto].
    + split; [by right|]. intros y [->|Hy]%elem_of_cons; [|eauto].
      destruct (Htot a m); congruence.
  - injection H as <-. destruct l as [|b l]; simpl in Em; [|by destruct (min_by le l)].
    split; [by left|]. intros y [->|Hy%not_elem_of_nil]%elem_of_cons; [by destruct (Htot a a)|done].
Qed.

Lemma min_by_None {A} (le : A -> A -> bool) l : min_by le l = None <-> l = [].
Proof. destruct l as [|a l]; [done|]. simpl. by destruct (min_by le l). Qed.

Lemma candidate_le_true pa la ia pb lb ib :
  candidate_le (pa, la, ia) (pb, lb, ib) = true <->
  pa < pb \/ pa = pb /\ ((lb < la)%N \/ lb = la /\ ia <= ib).
Proof.
  simpl. destruct (Nat.compare_spec pa pb); [|intuition lia|intuition lia].
  destruct (N.compare_spec lb la); [rewrite Nat.leb_le|..]; intuition lia.
Qed.

#[local] Arguments candidate_le : simpl never.

Lemma candidate_le_total a b : candidate_le a b = true \/ candidate_le b a = true.
Proof.
  destruct a as [[pa la] ia], b as [[pb lb] ib]. rewrite !candidate_le_true. lia.
Qed.

Lemma candidate_le_trans a b c :
  candidate_le a b = true -> candidate_le b c = true -> candidate_le a c = true.
Proof.
  destruct a as [[pa la] ia], b as [[pb lb] ib], c as [[pc lc] ic].
  rewrite !candidate_le_true. lia.
Qed.

Section Facts.
Context {T : Type}.
Abbreviation parser := (InlineHiddenTagParser T).
Abbreviation output := (StreamTextChunk (ExtractedInlineTag T)).
Implicit Types (p : parser) (out : output) (sp : InlineTagSpec T).

Lemma elem_of_open_candidates p pos len idx :
  (pos, len, idx) ∈ open_candidates p <->
  exists sp, specs p !! idx = Some sp /\ len = byte_len (spec_open sp) /\
    find_str (spec_open sp) (pending p) = Some pos.
Proof.
  unfold open_candidates. rewrite list_elem_of_omap. split.
  - intros ([i sp] & Hin & H). apply list_elem_of_lookup in Hin as [k Hk].
    rewrite list_lookup_imap in Hk. apply fmap_Some in Hk as (sp' & Hl & [= -> ->]).
    apply fmap_Some in H as (pos' & Hf & [= -> -> ->]). eauto.
  - intros (sp & Hl & -> & Hf). exists (idx, sp). split.
    + apply list_elem_of_lookup. exists idx. by rewrite list_lookup_imap, Hl.
    + by rewrite Hf.
Qed.

(** The delimiter that [find_next_open] selects. *)
Definition best_open p (i idx : nat) : Prop :=
  exists sp, specs p !! idx = Some sp /\ find_str (spec_open sp) (pending p) = Some i /\
    forall idx' sp' i', specs p !! idx' = Some sp' ->
      find_str (spec_open sp') (pending p) = Some i' ->
      candidate_le (i, byte_len (spec_open sp), idx) (i', byte_len (spec_open sp'), idx') = true.

Lemma find_next_open_Some p i idx : find_next_open p = Some (i, idx) <-> best_open p i idx.
Proof.
  assert (Hsound : forall i idx, find_next_open p = Some (i, idx) -> best_open p i idx).
  { clear i idx. intros i idx H. unfold find_next_open in H.
    apply fmap_Some in H as ([[i' len] idx'] & Hmin & [= <- <-]).
    apply min_by_Some in Hmin as [Hin Hle];
      [|apply candidate_le_total|apply candidate_le_trans].
    apply elem_of_open_candidates in Hin as (sp & Hl & -> & Hf). exists sp.
    split; [done|]. split; [done|]. intros. apply Hle, elem_of_open_candidates. eauto. }
  split; [apply Hsound|]. intros (sp & Hl & Hf & Hbest).
  destruct (find_next_open p) as [[i' idx']|] eqn:E.
  - destruct (Hsound _ _ eq_refl) as (sp' & Hl' & Hf' & Hbest').
    specialize (Hbest _ _ _ Hl' Hf'). specialize (Hbest' _ _ _ Hl Hf).
    rewrite candidate_le_true in Hbest, Hbest'. repeat f_equal; lia.
  - exfalso. unfold find_next_open in E. apply fmap_None, min_by_None in E.
    apply (not_elem_of_nil (i, byte_len (spec_open sp), idx)). rewrite <- E.
    apply elem_of_open_candidates. eauto.
Qed.

Lemma find_next_open_None p :
  find_next_open p = None <->
  Forall (fun sp => find_str (spec_open sp) (pending p) = None) (specs p).
Proof.
  unfold find_next_open. rewrite fmap_None, min_by_None, Forall_lookup. split.
  - intros H idx sp Hl. destruct (find_str _ _) as [i|] eqn:Hf; [|done]. exfalso.
    apply (not_elem_of_nil (i, byte_len (spec_open sp), idx)). rewrite <- H.
    apply elem_of_open_candidates. eauto.
  - intros H. destruct (open_candidates p) as [|[[i len] idx] l] eqn:E; [done|].
    assert (Hin : (i, len, idx) ∈ open_candidates p) by (rewrite E; by left).
    apply elem_of_open_candidates in Hin as (sp & Hl & _ & Hf). by rewrite (H idx sp) in Hf.
Qed.

Lemma find_next_open_clear p v t :
  Forall (fun sp => clear (spec_open sp) v t) (specs p) ->
  find_next_open (with_pending p (v ++ t)) =
  (fun '(i, idx) => (length v + i, idx)) <$> find_next_open (with_pending p t).
Proof.
  intros Hc. rewrite Forall_lookup in Hc.
  destruct (find_next_open (with_pending p t)) as [[i idx]|] eqn:E; simpl.
  - apply find_next_open_Some in E as (sp & Hl & Hf & Hbest). apply find_next_open_Some.
    exists sp. simpl in *. split; [done|]. rewrite find_clear, Hf by eauto. split; [done|].
    intros idx' sp' i' Hl' Hf'. rewrite find_clear in Hf' by eauto.
    apply fmap_Some in Hf' as (i'' & Hf' & ->). specialize (Hbest _ _ _ Hl' Hf').
    rewrite candidate_le_true in *. lia.
  - apply find_next_open_None. apply find_next_open_None in E.
    rewrite Forall_lookup in *. intros idx sp Hl. simpl in *.
    by rewrite find_clear, (E idx sp) by eauto.
Qed.

Lemma max_open_spec p k :
  max_open_prefix_suffix_len p = k ->
  Forall (fun sp => longest_suffix_prefix_len (pending p) (spec_open sp) <= k) (specs p) /\
  (k = 0 \/ Exists (fun sp => longest_suffix_prefix_len (pending p) (spec_open sp) = k) (specs p)).
Proof.
  unfold max_open_prefix_suffix_len. intros <-. induction (specs p) as [|sp l [IH1 IH2]]; simpl.
  { split; [constructor|by left]. }
  split.
  - constructor; [lia|]. eapply Forall_impl; [exact IH1|]. simpl. lia.
  - destruct (Nat.max_spec (longest_suffix_prefix_len (pending p) (spec_open sp))
      (foldr (fun spec k => longest_suffix_prefix_len (pending p) (spec_open spec) `max` k) 0 l))
      as [[? ->]|[? ->]]; [|right; by left].
    destruct IH2 as [->|IH2]; [by left|right; by right].
Qed.

Lemma max_open_clear p v t :
  Forall (fun sp => clear (spec_open sp) v t) (specs p) ->
  max_open_prefix_suffix_len (with_pending p (v ++ t)) =
  max_open_prefix_suffix_len (with_pending p t).
Proof.
  unfold max_open_prefix_suffix_len. simpl. induction 1 as [|sp l Hc _ IH]; [done|].
  simpl. by rewrite IH, longest_clear.
Qed.

(** Delimiters that do not overlap: none occurs within a proper prefix of
    another. *)
Definition separated (l : list (InlineTagSpec T)) : Prop :=
  forall a b x r, a ∈ l -> b ∈ l -> spec_open b = x ++ r -> r <> [] ->
    find_str (spec_open a) x = None.

Lemma separated_single sp : separated [sp].
Proof.
  intros a b x r ->%list_elem_of_singleton ->%list_elem_of_singleton Heq Hr.
  apply find_str_None. intros j. apply starts_with_false. intros w Hw.
  apply (f_equal length) in Hw, Heq. rewrite length_drop, length_app in Hw.
  rewrite length_app in Heq. destruct r; [done|]. simpl in Heq. lia.
Qed.

Lemma find_next_open_app p b i idx :
  separated (specs p) -> find_next_open p = Some (i, idx) ->
  find_next_open (with_pending p (pending p ++ b)) = Some (i, idx).
Proof.
  intros Hsep (sp & Hl & Hf & Hbest)%find_next_open_Some. apply find_next_open_Some.
  exists sp. simpl. split; [done|]. split; [by apply find_str_app|].
  intros idx' sp' i' Hl' Hf'.
  destruct (find_str (spec_open sp') (pending p)) as [i''|] eqn:E.
  { apply (find_str_app _ _ b) in E as E'. simplify_eq. by eapply Hbest. }
  apply candidate_le_true. left. destruct (decide (i < i')) as [|Hge]; [done|exfalso].
  apply find_str_Some in Hf as [(r & Hr & Hlen) _].
  apply find_str_Some in Hf' as [(r' & Hr' & _) _].
  rewrite find_str_None in E.
  assert (Hp : spec_open sp' `prefix_of` drop i' (pending p) ++ b).
  { exists r'. rewrite <- drop_app_le by lia. rewrite Hr' at 1.
    rewrite drop_app_length'; [done|]. rewrite length_take, length_app. lia. }
  destruct (prefix_of_app_cases _ _ _ Hp) as [H|[w Hw]].
  { apply starts_with_prefix in H. by rewrite E in H. }
  specialize (E i'). destruct w as [|c w].
  { rewrite app_nil_r in Hw. rewrite Hw in E. apply starts_with_false with (r := []) in E.
    by rewrite app_nil_r in E. }
  assert (Hnone : find_str (spec_open sp) (drop i' (pending p)) = None).
  { eapply (Hsep sp sp'); [by eapply list_elem_of_lookup_2|by eapply list_elem_of_lookup_2
      |exact Hw|done]. }
  rewrite find_str_None in Hnone. specialize (Hnone (i - i')).
  rewrite drop_drop in Hnone. replace (i' + (i - i')) with i in Hnone by lia.
  apply starts_with_false with (r := r) in Hnone. apply Hnone.
  rewrite Hr at 1. rewrite drop_app_length'; [done|]. rewrite length_take. lia.
Qed.

(** ** The loop *)

Definition wf_spec sp : Prop := spec_open sp <> [] /\ spec_close sp <> [].

Definition wf p : Prop :=
  Forall wf_spec (specs p) /\ forall a, active p = Some a -> active_close a <> [].

Lemma inline_new_wf l p : inline_new l = Some p -> wf p /\ p = {| specs := l; pending := []; active := None |}.
Proof.
  unfold inline_new. destruct (is_empty l); [done|].
  destruct (existsb _ l) eqn:E; [done|]. intros [= <-]. split; [|done].
  split; [|done]. simpl. apply Forall_forall. intros sp Hin.
  apply not_true_iff_false in E. rewrite existsb_exists in E.
  unfold wf_spec. rewrite <- !is_empty_false.
  destruct (is_empty (spec_open sp)) eqn:E1, (is_empty (spec_close sp)) eqn:E2; [..|done];
    exfalso; apply E; exists sp; rewrite E1, E2; (split; [|done]); by apply list_elem_of_In.
Qed.

Lemma find_str_drain n s i :
  n <> [] -> find_str n s = Some i -> length (drop (i + length n) s) < length s.
Proof.
  intros Hn [(b & Hb & Hlen) _]%find_str_Some. apply (f_equal length) in Hb.
  rewrite !length_app, length_take in Hb. rewrite length_drop.
  destruct n; [done|]. simpl in *. lia.
Qed.

Lemma best_open_drain p i idx sp :
  wf p -> find_next_open p = Some (i, idx) -> specs p !! idx = Some sp ->
  wf_spec sp /\ find_str (spec_open sp) (pending p) = Some i.
Proof.
  intros [Hwf _] (sp' & Hl & Hf & _)%find_next_open_Some Hl'. simplify_eq.
  split; [|done]. by eapply Forall_lookup_1.
Qed.

Lemma push_loop_fuel f1 : forall f2 p out,
  wf p -> length (pending p) < f1 -> length (pending p) < f2 ->
  push_loop f1 p out = push_loop f2 p out.
Proof.
  induction f1 as [|f1 IH]; intros [|f2] p out Hwf H1 H2; [lia..|]. simpl.
  destruct (active p) as [a|] eqn:Ea.
  - destruct (find_str (active_close a) (pending p)) as [i|] eqn:Ef; [|done].
    pose proof (find_str_drain _ _ _ (proj2 Hwf a Ea) Ef).
    apply IH; simpl; [split; [apply Hwf|done]|lia..].
  - destruct (find_next_open p) as [[i idx]|] eqn:Ef; [|done].
    destruct (specs p !! idx) as [sp|] eqn:Es; [|done].
    destruct (best_open_drain _ _ _ _ Hwf Ef Es) as [[Hopen Hclose] Hi].
    pose proof (find_str_drain _ _ _ Hopen Hi).
    apply IH; simpl; [|lia..]. split; [apply Hwf|]. intros a [= <-]. done.
Qed.

(** [push_loop] with enough fuel for the pending text. *)
Definition drive p out : parser * output := push_loop (S (length (pending p))) p out.

Lemma drive_close p out a i :
  wf p -> active p = Some a -> find_str (active_close a) (pending p) = Some i ->
  drive p out =
  drive {| specs := specs p; pending := drop (i + length (active_close a)) (pending p); active := None |}
    (push_extracted out (active_tag a) (active_content a ++ take i (pending p))).
Proof.
  intros Hwf Ha Hf. unfold drive at 1. cbn [push_loop]. rewrite Ha, Hf.
  pose proof (find_str_drain _ _ _ (proj2 Hwf a Ha) Hf).
  unfold drive. apply push_loop_fuel; simpl; [split; [apply Hwf|done]|lia..].
Qed.

Lemma drive_open p out i idx sp :
  wf p -> active p = None -> find_next_open p = Some (i, idx) -> specs p !! idx = Some sp ->
  drive p out =
  drive {| specs := specs p; pending := drop (i + length (spec_open sp)) (pending p);
           active := Some {| active_tag := spec_tag sp; active_close := spec_close sp;
                             active_content := [] |} |}
    (push_visible_prefix out (take i (pending p))).
Proof.
  intros Hwf Ha Hf Hs. unfold drive at 1. cbn [push_loop]. rewrite Ha, Hf, Hs.
  destruct (best_open_drain _ _ _ _ Hwf Hf Hs) as [[Hopen Hclose] Hi].
  pose proof (find_str_drain _ _ _ Hopen Hi).
  unfold drive. apply push_loop_fuel; simpl; [|lia..]. split; [apply Hwf|]. intros a [= <-]. done.
Qed.

Lemma drive_hold_content p out a v k :
  active p = Some a -> pending p = v ++ k -> find_str (active_close a) (v ++ k) = None ->
  length k = longest_suffix_prefix_len (v ++ k) (active_close a) ->
  drive p out =
  ({| specs := specs p; pending := k;
      active := Some {| active_tag := active_tag a; active_close := active_close a;
                        active_content := active_content a ++ v |} |}, out).
Proof.
  intros Ha Hp Hf Hk. unfold drive. cbn [push_loop]. rewrite Ha, Hp, Hf, <- Hk, length_app.
  replace (length v + length k - length k) with (length v) by lia.
  by rewrite drop_app_length, take_app_length.
Qed.

Lemma drive_hold_visible p out v k :
  active p = None -> pending p = v ++ k -> find_next_open p = None ->
  length k = max_open_prefix_suffix_len p ->
  drive p out = (with_pending p k, push_visible_prefix out v).
Proof.
  intros Ha Hp Hf Hk. unfold drive. cbn [push_loop]. rewrite Ha, Hf.
  unfold drain_visible_to_suffix_match. rewrite <- Hk, Hp, length_app.
  replace (length v + length k - length k) with (length v) by lia.
  by rewrite drop_app_length, take_app_length.
Qed.

Definition mk (l : list (InlineTagSpec T)) (s : str) (a : option (ActiveTag T)) : parser :=
  {| specs := l; pending := s; active := a |}.

Definition activate sp (content : str) : ActiveTag T :=
  {| active_tag := spec_tag sp; active_close := spec_close sp; active_content := content |}.

Definition extend (a : ActiveTag T) (content : str) : ActiveTag T :=
  {| active_tag := active_tag a; active_close := active_close a;
     active_content := active_content a ++ content |}.

(** The runs of the loop, as a relation. *)
Inductive drives (l : list (InlineTagSpec T)) :
  str -> option (ActiveTag T) -> output -> str -> option (ActiveTag T) -> output -> Prop :=
| drives_close s a out v rest s' a' out' :
    s = v ++ active_close a ++ rest -> find_str (active_close a) s = Some (length v) ->
    drives l rest None (push_extracted out (active_tag a) (active_content a ++ v)) s' a' out' ->
    drives l s (Some a) out s' a' out'
| drives_open s out v sp idx rest s' a' out' :
    s = v ++ spec_open sp ++ rest -> l !! idx = Some sp ->
    find_next_open (mk l s None) = Some (length v, idx) ->
    drives l rest (Some (activate sp [])) (push_visible_prefix out v) s' a' out' ->
    drives l s None out s' a' out'
| drives_hold_content v k a out :
    find_str (active_close a) (v ++ k) = None ->
    length k = longest_suffix_prefix_len (v ++ k) (active_close a) ->
    drives l (v ++ k) (Some a) out k (Some (extend a v)) out
| drives_hold_visible v k out :
    find_next_open (mk l (v ++ k) None) = None ->
    length k = max_open_prefix_suffix_len (mk l (v ++ k) None) ->
    drives l (v ++ k) None out k None (push_visible_prefix out v).

Lemma find_str_split n s i :
  find_str n s = Some i -> exists v rest, s = v ++ n ++ rest /\ length v = i.
Proof.
  intros [(b & Hb & Hlen) _]%find_str_Some. exists (take i s), b.
  split; [done|]. rewrite length_take. lia.
Qed.

Lemma drain_app (v n rest b : str) :
  drop (length v + length n) ((v ++ n ++ rest) ++ b) = rest ++ b /\
  take (length v) ((v ++ n ++ rest) ++ b) = v.
Proof.
  rewrite <- !app_assoc, take_app_length. split; [|done].
  rewrite app_assoc. apply drop_app_length'. by rewrite length_app.
Qed.

Lemma split_suffix (s : str) k : k <= length s -> exists v w, s = v ++ w /\ length w = k.
Proof.
  intros H. exists (take (length s - k) s), (drop (length s - k) s).
  rewrite take_drop, length_drop. split; [done|lia].
Qed.

Lemma max_open_le p : max_open_prefix_suffix_len p <= length (pending p).
Proof.
  destruct (max_open_spec p _ eq_refl) as [_ [->|H]]; [lia|].
  apply Exists_exists in H as (sp & _ & <-). apply longest_le.
Qed.

Lemma wf_mk l s a s' a' :
  wf (mk l s a) -> (forall b, a' = Some b -> active_close b <> []) -> wf (mk l s' a').
Proof. intros [H _] Ha. by split. Qed.

Lemma drives_total s : forall l a out,
  wf (mk l s a) -> exists s' a' out', drives l s a out s' a' out'.
Proof.
  induction s as [s IH] using (induction_ltof1 _ length). unfold ltof in IH.
  intros l [a|] out Hwf.
  - destruct (find_str (active_close a) s) as [i|] eqn:Ef.
    + destruct (find_str_split _ _ _ Ef) as (v & rest & Hs & <-).
      edestruct (IH rest) as (s' & a' & out' & Hd).
      { pose proof (find_str_drain _ _ _ (proj2 Hwf a eq_refl) Ef) as H.
        subst s. pose proof (drain_app v (active_close a) rest []) as [Hd _].
        rewrite !app_nil_r in Hd. by rewrite Hd in H. }
      { eapply (wf_mk _ _ _ rest None); [exact Hwf|done]. }
      do 3 eexists. by eapply drives_close.
    + destruct (split_suffix s (longest_suffix_prefix_len s (active_close a)))
        as (v & k & -> & Hk); [apply longest_le|].
      do 3 eexists. by apply drives_hold_content.
  - destruct (find_next_open (mk l s None)) as [[i idx]|] eqn:Ef.
    + pose proof Ef as (sp & Hl & Hf & _)%find_next_open_Some. simpl in Hl, Hf.
      destruct (best_open_drain _ _ _ _ Hwf Ef Hl) as [[Hopen Hclose] _].
      destruct (find_str_split _ _ _ Hf) as (v & rest & Hs & <-).
      edestruct (IH rest) as (s' & a' & out' & Hd).
      { pose proof (find_str_drain _ _ _ Hopen Hf) as H. subst s.
        pose proof (drain_app v (spec_open sp) rest []) as [Hd _].
        rewrite !app_nil_r in Hd. by rewrite Hd in H. }
      { apply (wf_mk _ _ _ rest (Some (activate sp []))) in Hwf; [exact Hwf|].
        by intros b [= <-]. }
      do 3 eexists. by eapply drives_open.
    + destruct (split_suffix s (max_open_prefix_suffix_len (mk l s None)))
        as (v & k & -> & Hk); [apply (max_open_le (mk l s None))|].
      do 3 eexists. by apply drives_hold_visible.
Qed.

Lemma drives_wf l s a out s' a' out' :
  drives l s a out s' a' out' -> wf (mk l s a) -> wf (mk l s' a').
Proof.
  induction 1 as [s a out v rest s' a' out' _ _ _ IH|s out v sp idx rest s' a' out' _ Hl _ _ IH
    |v k a out _ _|v k out _ _]; intros Hwf.
  - apply IH. eapply wf_mk; [eassumption|done].
  - apply IH. eapply wf_mk; [eassumption|]. intros b [= <-]. destruct Hwf as [Hwf _].
    eapply Forall_lookup_1 in Hl; [|exact Hwf]. by destruct Hl.
  - eapply wf_mk; [eassumption|]. intros b [= <-]. exact (proj2 Hwf _ eq_refl).
  - eapply wf_mk; [eassumption|done].
Qed.

Lemma drives_drive l s a out s' a' out' :
  drives l s a out s' a' out' -> wf (mk l s a) -> drive (mk l s a) out = (mk l s' a', out').
Proof.
  induction 1 as [s a out v rest s' a' out' Hs Hf _ IH
    |s out v sp idx rest s' a' out' Hs Hl Hf _ IH|v k a out Hf Hk|v k out Hf Hk]; intros Hwf.
  - rewrite (drive_close _ _ a (length v)) by done. simpl. subst s.
    pose proof (drain_app v (active_close a) rest []) as [Hd Ht].
    rewrite !app_nil_r in *. rewrite Hd, Ht. apply IH. eapply wf_mk; [eassumption|done].
  - rewrite (drive_open _ _ (length v) idx sp) by done. simpl. subst s.
    destruct (best_open_drain _ _ _ _ Hwf Hf Hl) as [[Hopen Hclose] _].
    pose proof (drain_app v (spec_open sp) rest []) as [Hd Ht].
    rewrite !app_nil_r in *. rewrite Hd, Ht. apply IH.
    eapply wf_mk; [eassumption|]. by intros b [= <-].
  - by apply drive_hold_content.
  - by apply drive_hold_visible.
Qed.

(** Text that is clear of the delimiters can be drained before or after. *)
Lemma drive_skip_content l v t a out :
  wf (mk l (v ++ t) (Some a)) -> clear (active_close a) v t ->
  drive (mk l (v ++ t) (Some a)) out = drive (mk l t (Some (extend a v))) out.
Proof.
  intros Hwf Hc. assert (Hwf' : wf (mk l t (Some (extend a v)))).
  { eapply wf_mk; [eassumption|]. intros b [= <-]. exact (proj2 Hwf _ eq_refl). }
  pose proof (find_clear _ _ _ Hc) as Hf.
  destruct (find_str (active_close a) t) as [i|] eqn:E; simpl in Hf.
  - rewrite (drive_close _ _ a (length v + i)) by done.
    rewrite (drive_close (mk l t (Some (extend a v))) _ (extend a v) i) by done. simpl.
    rewrite take_app_add, <- Nat.add_assoc, drop_app_add, (app_assoc _ v). done.
  - destruct (split_suffix t (longest_suffix_prefix_len t (active_close a)))
      as (w & k & -> & Hk); [apply longest_le|].
    rewrite (drive_hold_content (mk l (w ++ k) _) _ (extend a v) w k) by done.
    rewrite (drive_hold_content (mk l (v ++ w ++ k) _) _ a (v ++ w) k); simpl.
    + by rewrite <- app_assoc.
    + done.
    + by rewrite <- app_assoc.
    + by rewrite <- app_assoc.
    + by rewrite <- app_assoc, longest_clear.
Qed.

Lemma drive_skip_visible l v t out :
  wf (mk l (v ++ t) None) -> Forall (fun sp => clear (spec_open sp) v t) l ->
  drive (mk l (v ++ t) None) out = drive (mk l t None) (push_visible_prefix out v).
Proof.
  intros Hwf Hc. assert (Hwf' : wf (mk l t None)) by (eapply wf_mk; [eassumption|done]).
  pose proof (find_next_open_clear (mk l t None) v t Hc) as Hf.
  change (find_next_open (mk l (v ++ t) None) =
    (fun '(i, idx) => (length v + i, idx)) <$> find_next_open (mk l t None)) in Hf.
  pose proof (max_open_clear (mk l t None) v t Hc) as Hm.
  change (max_open_prefix_suffix_len (mk l (v ++ t) None) =
    max_open_prefix_suffix_len (mk l t None)) in Hm.
  destruct (find_next_open (mk l t None)) as [[i idx]|] eqn:E; simpl in Hf.
  - pose proof E as (sp & Hl & _)%find_next_open_Some.
    rewrite (drive_open _ _ (length v + i) idx sp) by done.
    rewrite (drive_open (mk l t None) _ i idx sp) by done. simpl.
    rewrite take_app_add, <- Nat.add_assoc, drop_app_add.
    unfold push_visible_prefix. simpl. by rewrite <- app_assoc.
  - destruct (split_suffix t (max_open_prefix_suffix_len (mk l t None)))
      as (w & k & -> & Hk); [apply (max_open_le (mk l t None))|].
    rewrite (drive_hold_visible (mk l (w ++ k) None) _ w k) by done.
    rewrite (drive_hold_visible (mk l (v ++ w ++ k) None) _ (v ++ w) k); simpl.
    + unfold push_visible_prefix. simpl. by rewrite <- app_assoc.
    + done.
    + by rewrite <- app_assoc.
    + done.
    + by rewrite Hm.
Qed.

(** What was drained and held back loses nothing for later text. *)
Lemma drives_app l s a out s' a' out' b :
  drives l s a out s' a' out' -> wf (mk l s a) -> separated l ->
  drive (mk l (s ++ b) a) out = drive (mk l (s' ++ b) a') out'.
Proof.
  intros Hd. induction Hd as [s a out v rest s' a' out' Hs Hf _ IH
    |s out v sp idx rest s' a' out' Hs Hl Hf _ IH|v k a out Hf Hk|v k out Hf Hk]; intros Hwf Hsep.
  - rewrite (drive_close _ _ a (length v)); simpl.
    + subst s. pose proof (drain_app v (active_close a) rest b) as [-> ->].
      apply IH; [|done]. eapply wf_mk; [eassumption|done].
    + eapply wf_mk; [eassumption|]. exact (proj2 Hwf).
    + done.
    + by apply find_str_app.
  - rewrite (drive_open _ _ (length v) idx sp); simpl.
    + subst s. pose proof (drain_app v (spec_open sp) rest b) as [-> ->].
      apply IH; [|done].
      destruct (best_open_drain _ _ _ _ Hwf Hf Hl) as [[Hopen Hclose] _].
      eapply wf_mk; [eassumption|]. by intros c [= <-].
    + eapply wf_mk; [eassumption|done].
    + done.
    + by apply (find_next_open_app (mk l s None)).
    + done.
  - rewrite <- app_assoc. apply drive_skip_content.
    + eapply wf_mk; [eassumption|]. exact (proj2 Hwf).
    + apply clear_ext, clear_intro; [done|lia].
  - rewrite <- app_assoc. apply drive_skip_visible; [eapply wf_mk; [eassumption|done]|].
    apply find_next_open_None in Hf. destruct (max_open_spec (mk l (v ++ k) None) _ eq_refl) as [Hm _].
    simpl in Hf, Hm. rewrite Forall_lookup in *. intros idx sp Hl.
    apply clear_ext, clear_intro; [by eapply Hf|]. rewrite Hk. by eapply Hm.
Qed.

(** The output so far is only appended to. *)
Lemma drives_out l s a out s' a' out' :
  drives l s a out s' a' out' ->
  exists o, out' = chunk_append out o /\
    forall out2, drives l s a out2 s' a' (chunk_append out2 o).
Proof.
  induction 1 as [s a out v rest s' a' out' Hs Hf _ (o & -> & IH)
    |s out v sp idx rest s' a' out' Hs Hl Hf _ (o & -> & IH)|v k a out Hf Hk|v k out Hf Hk].
  - exists (chunk_append (push_extracted chunk_default (active_tag a) (active_content a ++ v)) o).
    assert (Heq : forall x, chunk_append (push_extracted x (active_tag a) (active_content a ++ v)) o
      = chunk_append x (chunk_append
          (push_extracted chunk_default (active_tag a) (active_content a ++ v)) o)).
    { intros x. unfold chunk_append, push_extracted. simpl. by rewrite <- !app_assoc. }
    split; [apply Heq|]. intros out2. eapply drives_close; [done|done|]. rewrite <- Heq. apply IH.
  - exists (chunk_append (push_visible_prefix chunk_default v) o).
    assert (Heq : forall x, chunk_append (push_visible_prefix x v) o
      = chunk_append x (chunk_append (push_visible_prefix chunk_default v) o)).
    { intros x. unfold chunk_append, push_visible_prefix. simpl. by rewrite <- !app_assoc. }
    split; [apply Heq|]. intros out2. eapply drives_open; [done..|]. rewrite <- Heq. apply IH.
  - exists chunk_default. rewrite chunk_append_nil_r. split; [done|]. intros out2.
    rewrite chunk_append_nil_r. by constructor.
  - exists (push_visible_prefix chunk_default v).
    assert (Heq : forall x : output,
      push_visible_prefix x v = chunk_append x (push_visible_prefix chunk_default v)).
    { intros x. unfold chunk_append, push_visible_prefix. simpl. by rewrite app_nil_r. }
    split; [apply Heq|]. intros out2. rewrite <- Heq. by constructor.
Qed.

(** A state in which everything that could be drained was. *)
Definition inline_ok p : Prop :=
  wf p /\ separated (specs p) /\ drive p chunk_default = (p, chunk_default).

Lemma chunk_append_inj_nil (a b : output) : chunk_append a b = a -> b = chunk_default.
Proof.
  destruct a as [v e], b as [v' e']. unfold chunk_append, chunk_default. simpl.
  intros [= Hv He]. apply (f_equal length) in Hv, He. rewrite length_app in Hv, He.
  destruct v', e'; simpl in *; (done || lia).
Qed.

Lemma inline_push_spec p b :
  wf p -> separated (specs p) ->
  exists s' a' o, inline_push_str p b = (mk (specs p) s' a', o) /\
    drives (specs p) (pending p ++ b) (active p) chunk_default s' a' o /\
    inline_ok (mk (specs p) s' a').
Proof.
  intros Hwf Hsep. destruct p as [l s a]. simpl in *.
  assert (Hwf' : wf (mk l (s ++ b) a)) by (eapply wf_mk; [exact Hwf|exact (proj2 Hwf)]).
  destruct (drives_total _ _ _ chunk_default Hwf') as (s' & a' & o & Hd).
  exists s', a', o. pose proof (drives_drive _ _ _ _ _ _ _ Hd Hwf') as Hdrive.
  split; [done|]. split; [done|]. pose proof (drives_wf _ _ _ _ _ _ _ Hd Hwf') as Hwf1.
  split; [done|]. split; [done|].
  pose proof (drives_app _ _ _ _ _ _ _ [] Hd Hwf' Hsep) as Happ.
  rewrite !app_nil_r, Hdrive in Happ.
  destruct (drives_total _ _ _ chunk_default Hwf1) as (s2 & a2 & o2 & Hd2).
  pose proof (drives_out _ _ _ _ _ _ _ Hd2) as (o2' & -> & Hany).
  specialize (Hany o). apply drives_drive in Hany; [|done]. rewrite Hany in Happ.
  injection Happ as <- <- Ho. symmetry in Ho. apply chunk_append_inj_nil in Ho as ->.
  rewrite chunk_append_nil_r in Hd2. by apply drives_drive.
Qed.

#[export, refine] Instance inline_lawful :
  LawfulParser (InlineHiddenTagParser T) (ExtractedInlineTag T) :=
  {| parser_ok := inline_ok; same_payload := eq |}.
Proof.
  - intros p b (Hwf & Hsep & _). simpl.
    by destruct (inline_push_spec p b Hwf Hsep) as (s' & a' & o & -> & _ & Hok).
  - intros p ([Hwf Ha] & Hsep & _). simpl. unfold inline_finish.
    assert (Hok : inline_ok (mk (specs p) [] None)).
    { assert (Hw : wf (mk (specs p) [] None)) by done.
      split; [done|]. split; [done|].
      rewrite (drive_hold_visible _ _ [] []); [done|done|done| |].
      + apply find_next_open_None. simpl. eapply Forall_impl; [exact Hwf|].
        intros sp [H _]. by destruct (spec_open sp).
      + pose proof (max_open_le (mk (specs p) [] None)). simpl in *. lia. }
    by destruct p as [l s [a|]].
  - intros p (Hwf & Hsep & Hs). simpl. unfold inline_push_str, with_pending.
    rewrite app_nil_r. by destruct p.
  - intros p a b (Hwf & Hsep & _). simpl.
    destruct (inline_push_spec p a Hwf Hsep) as (s1 & a1 & o1 & -> & Hd1 & Hok1).
    destruct Hok1 as (Hwf1 & Hsep1 & _).
    destruct (inline_push_spec _ b Hwf1 Hsep1) as (s2 & a2 & o2 & -> & Hd2 & _).
    destruct (inline_push_spec p (a ++ b) Hwf Hsep) as (s3 & a3 & o3 & -> & Hd3 & _).
    assert (Hwfp : forall x, wf (mk (specs p) x (active p)))
      by (intros; eapply wf_mk; [by destruct p|exact (proj2 Hwf)]).
    pose proof (drives_app _ _ _ _ _ _ _ b Hd1 (Hwfp _) Hsep) as Happ.
    rewrite <- app_assoc, (drives_drive _ _ _ _ _ _ _ Hd3 (Hwfp _)) in Happ. simpl in Hd2.
    destruct (drives_out _ _ _ _ _ _ _ Hd2) as (o & -> & Hany).
    specialize (Hany o1). apply drives_drive in Hany.
    2: { eapply wf_mk; [exact Hwf1|exact (proj2 Hwf1)]. }
    rewrite Hany in Happ. injection Happ as -> -> ->. by rewrite chunk_append_nil_l.
Defined.
End Facts.

(** A test for [separated]. *)
Definition separatedb {T} (l : list (InlineTagSpec T)) : bool :=
  forallb (fun a => forallb (fun b => forallb (fun k =>
    match find_str (spec_open a) (take k (spec_open b)) with None => true | Some _ => false end)
      (seq 0 (length (spec_open b)))) l) l.

Lemma separatedb_true {T} (l : list (InlineTagSpec T)) : separatedb l = true -> separated l.
Proof.
  unfold separatedb. rewrite forallb_forall. intros H a b x r Ha Hb Heq Hr.
  specialize (H a (proj1 (list_elem_of_In _ _) Ha)). rewrite forallb_forall in H.
  specialize (H b (proj1 (list_elem_of_In _ _) Hb)). rewrite forallb_forall in H.
  specialize (H (length x)). rewrite Heq, take_app_length, in_seq, length_app in H.
  destruct (find_str _ x); [|done]. discriminate H. destruct r; [done|]. simpl. lia.
Qed.

(** ** Citations: the reference definition on complete texts *)

Section Cited.
Context (opening closing : str).

(** [cited s vis cs]: outside a tag, the text [s] shows [vis] and cites [cs];
    [cited_body s vis cs]: the same for text that starts inside a tag. *)
Inductive cited : str -> str -> list str -> Prop :=
| cited_none s : find_str opening s = None -> cited s s []
| cited_tag v rest vis cs :
    find_str opening (v ++ opening ++ rest) = Some (length v) ->
    cited_body rest vis cs -> cited (v ++ opening ++ rest) (v ++ vis) cs
with cited_body : str -> str -> list str -> Prop :=
| cited_eof s : find_str closing s = None -> cited_body s [] [s]
| cited_close v rest vis cs :
    find_str closing (v ++ closing ++ rest) = Some (length v) ->
    cited rest vis cs -> cited_body (v ++ closing ++ rest) vis (v :: cs).

Scheme cited_mut := Induction for cited Sort Prop
with cited_body_mut := Induction for cited_body Sort Prop.

(** The reference is a function of the text. *)
Lemma cited_functional s vis cs vis' cs' :
  cited s vis cs -> cited s vis' cs' -> vis' = vis /\ cs' = cs.
Proof.
  intros H. revert vis' cs'. induction H using cited_mut with
    (P0 := fun s vis cs _ => forall vis' cs', cited_body s vis' cs' -> vis' = vis /\ cs' = cs);
    intros vis' cs' H'; inversion H' as [? Hf|w ? ? ? Hf Hb]; subst; try congruence; try done.
  - match goal with Heq : _ ++ _ ++ _ = _ ++ _ ++ _ |- _ =>
      rewrite Heq in Hf; rewrite e in Hf; injection Hf as Hlen;
      apply app_inj_1 in Heq as [<- Heq]; [|done]; apply app_inv_head in Heq as <- end.
    destruct (IHcited _ _ Hb) as [-> ->]. done.
  - match goal with Heq : _ ++ _ ++ _ = _ ++ _ ++ _ |- _ =>
      rewrite Heq in Hf; rewrite e in Hf; injection Hf as Hlen;
      apply app_inj_1 in Heq as [<- Heq]; [|done]; apply app_inv_head in Heq as <- end.
    destruct (IHcited _ _ Hb) as [-> ->]. done.
Qed.

End Cited.

Lemma drives_cited {T} (sp : InlineTagSpec T) s a out s' a' out' :
  drives [sp] s a out s' a' out' ->
  (forall b, a = Some b -> active_close b = spec_close sp) ->
  exists o, chunk_append out' (snd (inline_finish (mk [sp] s' a'))) = chunk_append out o /\
  match a with
  | None => cited (spec_open sp) (spec_close sp) s (visible_text o) (extracted_content <$> extracted o)
  | Some b => exists c cs, extracted_content <$> extracted o = (active_content b ++ c) :: cs /\
      cited_body (spec_open sp) (spec_close sp) s (visible_text o) (c :: cs)
  end.
Proof.
  induction 1 as [s a out v rest s' a' out' -> Hf _ IH
    |s out v sp' idx rest s' a' out' -> Hl Hf _ IH|v k a out Hf Hk|v k out Hf Hk]; intros Ha.
  - destruct IH as (o & -> & Hc); [done|]. rewrite (Ha a eq_refl) in *.
    exists (chunk_append (push_extracted chunk_default (active_tag a) (active_content a ++ v)) o).
    unfold chunk_append, push_extracted. simpl. rewrite <- app_assoc. split; [done|].
    exists v, (extracted_content <$> extracted o). split; [done|]. by constructor.
  - apply list_lookup_singleton_Some in Hl as [-> <-].
    destruct IH as (o & -> & c & cs & Ho & Hc); [by intros b [= <-]|].
    exists (chunk_append (push_visible_prefix chunk_default v) o).
    unfold chunk_append, push_visible_prefix. simpl. rewrite <- app_assoc. split; [done|].
    rewrite Ho. apply cited_tag; [|done].
    apply find_next_open_Some in Hf as (sp' & Hl & Hf & _). by simplify_eq/=.
  - exists (push_extracted chunk_default (active_tag a) (active_content a ++ v ++ k)).
    simpl. rewrite <- app_assoc. split; [done|]. exists (v ++ k), []. split; [done|].
    constructor. by rewrite <- (Ha a eq_refl).
  - exists (push_visible_prefix chunk_default (v ++ k)). simpl.
    unfold chunk_append, push_visible_prefix. simpl. rewrite <- app_assoc. split; [done|].
    constructor. apply find_next_open_None in Hf. by inversion_clear Hf.
Qed.

(** The citation parser inherits the contract. *)
#[export, refine] Instance citation_lawful : LawfulParser CitationStreamParser str :=
  {| parser_ok p := inline_ok (citation_inner p) /\ specs (citation_inner p) = [CITATION_SPEC];
     same_payload := eq |}.
Proof.
  - intros [p] b [Hok Hs]. simpl in *. unfold citation_push_str. simpl.
    destruct Hok as (Hwf & Hsep & _).
    destruct (inline_push_spec p b Hwf Hsep) as (s' & a' & o & -> & _ & Hok). by simpl.
  - intros [p] [Hok Hs]. simpl in *. unfold citation_finish.
    pose proof (finish_ok p Hok) as H. simpl in *. unfold inline_finish in *.
    by destruct (active p).
  - intros [p] [Hok Hs]. simpl in *. unfold citation_push_str. simpl citation_inner.
    pose proof (push_nil p Hok) as ->. done.
  - intros [p] a b [Hok Hs]. simpl in *. unfold citation_push_str. simpl citation_inner.
    pose proof (push_app p a b Hok) as H.
    destruct (push_str p a) as [p1 o1]. simpl citation_inner.
    destruct (push_str p1 b) as [p2 o2], (push_str p (a ++ b)) as [p3 o3].
    destruct H as (-> & Hv & He). simpl in *. by rewrite Hv, He, fmap_app.
Defined.

Lemma fresh_ok {T} (l : list (InlineTagSpec T)) p : inline_new l = Some p -> separated l -> inline_ok p.
Proof.
  intros [Hwf ->]%inline_new_wf Hsep.
  destruct (inline_push_spec _ [] Hwf Hsep) as (s' & a' & o & _ & Hd & Hok).
  pose proof (finish_ok (mk l s' a') Hok) as H. simpl in H. unfold inline_finish in H. by destruct a'.
Qed.

Lemma citation_new_parser_ok : parser_ok citation_new.
Proof.
  split; [|done]. apply (fresh_ok [CITATION_SPEC]); [done|]. apply separated_single.
Qed.

Lemma citation_run_reference chunks :
  let '(p, o) := run_parser citation_new chunks in
  p = citation_new /\
  cited CITATION_OPEN CITATION_CLOSE (concat chunks) (visible_text o) (extracted o).
Proof.
  destruct (run_parser_concat citation_new chunks citation_new_parser_ok) as [Hp [Hv He]].
  destruct (run_parser citation_new chunks) as [p o]. simpl in Hp, Hv, He.
  rewrite Hp, Hv, He. clear p o Hp Hv He. generalize (concat chunks) as s. clear chunks. intros s.
  pose proof citation_new_parser_ok as [(Hwf & Hsep & _) _].
  destruct (inline_push_spec _ s Hwf Hsep) as (s' & a' & o & Heq & Hd & _).
  assert (Hpush : citation_push_str citation_new s =
    ({| citation_inner := mk [CITATION_SPEC] s' a' |}, citation_chunk o)).
  { unfold citation_push_str.
    change (push_str _ s) with (inline_push_str (citation_inner citation_new) s). by rewrite Heq. }
  unfold run_parser. cbn [push_all push_str citation_parser]. rewrite Hpush.
  cbn [finish citation_parser]. unfold citation_finish. simpl.
  pose proof (drives_cited _ _ _ _ _ _ _ Hd) as (o' & Ho & Hc); [done|].
  simpl in Ho, Hc. rewrite chunk_append_nil_l in Ho.
  unfold mk in *. destruct (inline_finish _) as [q oq] eqn:Eq. simpl in *. split.
  - unfold inline_finish in Eq. simpl in Eq. by destruct a'; simplify_eq.
  - subst o'. simpl in Hc. by rewrite !app_nil_r, <- fmap_app.
Qed.

(** ** Properties *)

(** For a parser made by [new] with delimiters that do not overlap, how
    the text is cut into chunks does not matter: the output of a whole item is
    the one for the text in one piece, and the parser ends in its initial
    state. *)
Theorem inline_chunks_irrelevant {T} (l : list (InlineTagSpec T)) p chunks :
  inline_new l = Some p -> separated l ->
  run_parser p chunks = run_parser p [concat chunks] /\ fst (run_parser p chunks) = p.
Proof.
  intros Hnew Hsep. pose proof (fresh_ok l p Hnew Hsep : parser_ok p) as Hok.
  destruct (run_parser_concat p chunks Hok) as [H1 [H2 H3]]. split.
  - destruct (run_parser p chunks) as [p1 [v1 e1]], (run_parser p [_]) as [p2 [v2 e2]].
    simpl in *. by subst.
  - apply inline_new_wf in Hnew as [Hwf ->]. unfold run_parser.
    pose proof (push_all_concat _ chunks Hok) as [Hp _].
    destruct (inline_push_spec _ (concat chunks) Hwf Hsep) as (s' & a' & o & Heq & _).
    simpl in Hp. rewrite Heq in Hp. simpl in Hp.
    destruct (push_all _ chunks) as [p1 o1]. simpl in Hp. subst p1. by destruct a'.
Qed.

Lemma inline_chunks_irrelevant_witness :
  let l := [{| spec_tag := 1; spec_open := s! "<a>"; spec_close := s! "</a>" |};
            {| spec_tag := 2; spec_open := s! "<b>"; spec_close := s! "</b>" |}] in
  let p := {| specs := l; pending := []; active := None |} in
  run_parser p [s! "x<"; s! "b"; s! ">y</"; s! "b>z"] = run_parser p [s! "x<b>y</b>z"].
Proof.
  intros l p. apply (inline_chunks_irrelevant l p); [reflexivity|].
  apply separatedb_true. reflexivity.
Defined.

(** Over any chunks, the citation parser shows and cites exactly what the
    reference definition gives for the complete text: tags are literal and do
    not nest, the leftmost delimiter counts, and a tag left open is closed at
    the end. *)
Theorem citations_reference chunks :
  let '(p, o) := run_parser citation_new chunks in
  p = citation_new /\
  cited CITATION_OPEN CITATION_CLOSE (concat chunks) (visible_text o) (extracted o).
Proof. apply citation_run_reference. Qed.

(** When one opening delimiter is a prefix of another, the chunks do matter:
    the longer one wins only if it arrives in one piece. *)
Example overlapping_openers_depend_on_chunks :
  let l := [{| spec_tag := 1; spec_open := s! "<a"; spec_close := s! ">" |};
            {| spec_tag := 2; spec_open := s! "<ab"; spec_close := s! ">" |}] in
  let p := {| specs := l; pending := []; active := None |} in
  extracted (snd (run_parser p [s! "<abc>"])) =
    [{| extracted_tag := 2; extracted_content := s! "c" |}] /\
  extracted (snd (run_parser p [s! "<a"; s! "bc>"])) =
    [{| extracted_tag := 1; extracted_content := s! "bc" |}].
Proof. split; reflexivity. Qed.
