(* ===== verification/TaggedLine.v ===== *)
(** * Tagged blocks of lines: [utils/stream-parser/src/tagged_line_parser.rs]
      and [proposed_plan.rs]

    [TaggedLineParser] splits streamed text into normal text and blocks between
    tags that stand alone on a line; [ProposedPlanParser] is its instance for
    plan mode. *)

From S2P Require Import Prelude.
From S2P Require Import RustStr.
From S2P Require Import StreamText.

(** ** Data *)

Record TagSpec (T : Type) := { tag_open : str; tag_close : str; tag_tag : T }.
Arguments Build_TagSpec {T} tag_open tag_close tag_tag.
Arguments tag_open {T} t.
Arguments tag_close {T} t.
Arguments tag_tag {T} t.

Inductive TaggedLineSegment (T : Type) :=
| Normal (s : str)
| TagStart (t : T)
| TagDelta (t : T) (s : str)
| TagEnd (t : T).
Arguments Normal {T} s.
Arguments TagStart {T} t.
Arguments TagDelta {T} t s.
Arguments TagEnd {T} t.

Record TaggedLineParser (T : Type) := {
  tag_specs : list (TagSpec T);
  active_block : option T;
  detect_tag : bool;
  line_buffer : str;
}.
Arguments Build_TaggedLineParser {T} tag_specs active_block detect_tag line_buffer.
Arguments tag_specs {T} t.
Arguments active_block {T} t.
Arguments detect_tag {T} t.
Arguments line_buffer {T} t.

(** ** Operations *)

Section Parser.
Context {T : Type} `{!EqDecision T}.
Abbreviation parser := (TaggedLineParser T).
Abbreviation segment := (TaggedLineSegment T).

Definition tagged_new (specs : list (TagSpec T)) : parser :=
  {| tag_specs := specs; active_block := None; detect_tag := true; line_buffer := [] |}.

Definition set_line (p : parser) (active : option T) (detect : bool) (buffer : str) : parser :=
  {| tag_specs := tag_specs p; active_block := active; detect_tag := detect;
     line_buffer := buffer |}.

(** Adjacent text of the same kind is merged into the last segment. *)
Definition push_segment (segments : list segment) (seg : segment) : list segment :=
  match seg with
  | Normal delta =>
      if is_empty delta then segments
      else match last segments with
           | Some (Normal existing) => update_last (fun _ => Normal (existing ++ delta)) segments
           | _ => segments ++ [Normal delta]
           end
  | TagDelta t delta =>
      if is_empty delta then segments
      else match last segments with
           | Some (TagDelta existing_tag existing) =>
               if decide (existing_tag = t)
               then update_last (fun _ => TagDelta existing_tag (existing ++ delta)) segments
               else segments ++ [TagDelta t delta]
           | _ => segments ++ [TagDelta t delta]
           end
  | TagStart t => segments ++ [TagStart t]
  | TagEnd t => segments ++ [TagEnd t]
  end.

Definition push_text (p : parser) (text : str) (segments : list segment) : list segment :=
  match active_block p with
  | Some t => push_segment segments (TagDelta t text)
  | None => push_segment segments (Normal text)
  end.

Definition is_tag_prefix (p : parser) (slug : str) : bool :=
  let slug := trim_end slug in
  existsb (fun spec => starts_with slug (tag_open spec) || starts_with slug (tag_close spec))
    (tag_specs p).

Definition match_open (p : parser) (slug : str) : option T :=
  tag_tag <$> List.find (fun spec => str_eqb (tag_open spec) slug) (tag_specs p).

Definition match_close (p : parser) (slug : str) : option T :=
  tag_tag <$> List.find (fun spec => str_eqb (tag_close spec) slug) (tag_specs p).

Definition line_slug (line : str) : str :=
  trim_end (trim_start (match strip_suffix [nl] line with Some l => l | None => line end)).

(** [match_open(slug)] when no block is open *)
Definition opens (p : parser) (slug : str) : option T :=
  match match_open p slug, active_block p with Some t, None => Some t | _, _ => None end.

(** [match_close(slug)] when that block is open *)
Definition closes (p : parser) (slug : str) : option T :=
  match match_close p slug with
  | Some t => if decide (active_block p = Some t) then Some t else None
  | None => None
  end.

Definition finish_line (p : parser) (segments : list segment) : parser * list segment :=
  let line := line_buffer p in
  let slug := line_slug line in
  match opens p slug with
  | Some t => (set_line p (Some t) true [], push_segment segments (TagStart t))
  | None =>
      match closes p slug with
      | Some t => (set_line p None true [], push_segment segments (TagEnd t))
      | None => (set_line p (active_block p) true [], push_text p line segments)
      end
  end.

(** The [for] loop of [parse]: [run] is the text of the current line that was
    not pushed yet. *)
Fixpoint parse_loop (p : parser) (run : str) (segments : list segment) (delta : str)
    : parser * list segment :=
  match delta with
  | [] => (p, if is_empty run then segments else push_text p run segments)
  | ch :: rest =>
      if detect_tag p then
        let segments := if is_empty run then segments else push_text p run segments in
        let p := set_line p (active_block p) true (line_buffer p ++ [ch]) in
        if decide (ch = nl) then
          let '(p, segments) := finish_line p segments in parse_loop p [] segments rest
        else
          let slug := trim_start (line_buffer p) in
          if is_empty slug || is_tag_prefix p slug then parse_loop p [] segments rest
          else
            let buffered := line_buffer p in
            let p := set_line p (active_block p) false [] in
            parse_loop p [] (push_text p buffered segments) rest
      else
        let run := run ++ [ch] in
        if decide (ch = nl) then
          parse_loop (set_line p (active_block p) true (line_buffer p)) []
            (push_text p run segments) rest
        else parse_loop p run segments rest
  end.

Definition tagged_parse (p : parser) (delta : str) : parser * list segment :=
  parse_loop p [] [] delta.

Definition tagged_finish (p : parser) : parser * list segment :=
  let '(p, segments) :=
    if is_empty (line_buffer p) then (p, [])
    else
      let buffered := line_buffer p in
      let p := set_line p (active_block p) (detect_tag p) [] in
      let slug := line_slug buffered in
      match opens p slug with
      | Some t => (set_line p (Some t) (detect_tag p) [], push_segment [] (TagStart t))
      | None =>
          match closes p slug with
          | Some t => (set_line p None (detect_tag p) [], push_segment [] (TagEnd t))
          | None => (p, push_text p buffered [])
          end
      end in
  match active_block p with
  | Some t => (set_line p None true (line_buffer p), push_segment segments (TagEnd t))
  | None => (set_line p None true (line_buffer p), segments)
  end.

End Parser.

(** ** Proposed plans *)

Definition OPEN_TAG : str := Eval vm_compute in s! "<proposed_plan>".
Definition CLOSE_TAG : str := Eval vm_compute in s! "</proposed_plan>".

Inductive PlanTag := ProposedPlan.

#[global] Instance plan_tag_eq_dec : EqDecision PlanTag.
Proof. solve_decision. Defined.

Inductive ProposedPlanSegment :=
| PlanNormal (s : str)
| ProposedPlanStart
| ProposedPlanDelta (s : str)
| ProposedPlanEnd.

Record ProposedPlanParser := { plan_parser : TaggedLineParser PlanTag }.

Definition PLAN_SPECS : list (TagSpec PlanTag) :=
  [{| tag_open := OPEN_TAG; tag_close := CLOSE_TAG; tag_tag := ProposedPlan |}].

Definition plan_new : ProposedPlanParser := {| plan_parser := tagged_new PLAN_SPECS |}.

Definition map_segment (seg : TaggedLineSegment PlanTag) : ProposedPlanSegment :=
  match seg with
  | Normal text => PlanNormal text
  | TagStart ProposedPlan => ProposedPlanStart
  | TagDelta ProposedPlan text => ProposedPlanDelta text
  | TagEnd ProposedPlan => ProposedPlanEnd
  end.

Definition map_segments (segments : list (TaggedLineSegment PlanTag))
    : StreamTextChunk ProposedPlanSegment :=
  foldl (fun out segment =>
    let mapped := map_segment segment in
    {| visible_text :=
         match mapped with PlanNormal text => visible_text out ++ text | _ => visible_text out end;
       extracted := extracted out ++ [mapped] |}) chunk_default segments.

Definition plan_push_str (p : ProposedPlanParser) (chunk : str)
    : ProposedPlanParser * StreamTextChunk ProposedPlanSegment :=
  let '(q, segments) := tagged_parse (plan_parser p) chunk in
  ({| plan_parser := q |}, map_segments segments).

Definition plan_finish (p : ProposedPlanParser)
    : ProposedPlanParser * StreamTextChunk ProposedPlanSegment :=
  let '(q, segments) := tagged_finish (plan_parser p) in
  ({| plan_parser := q |}, map_segments segments).

#[global] Instance plan_stream_parser : StreamTextParser ProposedPlanParser ProposedPlanSegment := {|
  push_str := plan_push_str;
  finish := plan_finish;
|}.

Definition strip_proposed_plan_blocks (text : str) : str :=
  let '(parser, out) := push_str plan_new text in
  let '(_, tail) := finish parser in
  visible_text out ++ visible_text tail.

(** One segment of the loop of [extract_proposed_plan_text]: whether a block was
    seen, and the text of the last one. *)
Definition extract_step (st : bool * str) (segment : ProposedPlanSegment) : bool * str :=
  let '(saw_plan_block, plan_text) := st in
  match segment with
  | ProposedPlanStart => (true, [])
  | ProposedPlanDelta delta => (saw_plan_block, plan_text ++ delta)
  | ProposedPlanEnd | PlanNormal _ => (saw_plan_block, plan_text)
  end.

Definition extract_proposed_plan_text (text : str) : option str :=
  let '(parser, out) := push_str plan_new text in
  let '(_, tail) := finish parser in
  let '(saw_plan_block, plan_text) :=
    foldl extract_step (false, []) (extracted out ++ extracted tail) in
  if (saw_plan_block : bool) then Some plan_text else None.

Example extract_plan_example :
  extract_proposed_plan_text
    (s! "a" ++ [nl] ++ s! " <proposed_plan> " ++ [nl] ++ s! "- x" ++ [nl] ++ s! "</proposed_plan>")
  = Some (s! "- x" ++ [nl]).
Proof. reflexivity. Qed.
