(* ===== verification/TaggedLineFacts.v ===== *)
(** * Correctness of the tagged-line parsers

    Whatever the chunks, and although text is let through as soon as its line
    cannot be a tag any more, the segments are, up to merging of adjacent text,
    those of a reference that looks at one complete line after another. *)

From S2P Require Import Prelude.
From S2P Require Import RustStr.
From S2P Require Import StreamText.
From S2P Require Import TaggedLine.

Section Facts.
Context {T : Type} `{!EqDecision T}.
Abbreviation parser := (TaggedLineParser T).
Abbreviation segment := (TaggedLineSegment T).
Implicit Types (p : parser) (segs : list segment).

(** ** Merging adjacent text *)

Definition text_seg (act : option T) (s : str) : segment :=
  match act with Some t => TagDelta t s | None => Normal s end.

Lemma push_text_seg p s segs : push_text p s segs = push_segment segs (text_seg (active_block p) s).
Proof. unfold push_text. by destruct (active_block p). Qed.

Lemma push_text_nil act segs : push_segment segs (text_seg act []) = segs.
Proof. by destruct act. Qed.

Lemma push_text_text act segs a b :
  push_segment (push_segment segs (text_seg act a)) (text_seg act b) =
  push_segment segs (text_seg act (a ++ b)).
Proof.
  destruct a as [|x a]; [by rewrite push_text_nil|].
  destruct b as [|y b]; [by rewrite push_text_nil, app_nil_r|].
  destruct act as [t|]; simpl; destruct segs as [|[] segs _] using rev_ind;
    rewrite ?last_snoc; simpl; try (case_decide; simplify_eq);
    rewrite ?update_last_snoc, ?last_snoc; simpl; rewrite ?decide_True by done;
    rewrite ?update_last_snoc; simpl; rewrite <- ?app_assoc; done.
Qed.

Definition merge segs : list segment := foldl push_segment [] segs.

Lemma push_segment_cases segs seg :
  (exists act, seg = text_seg act [] /\ push_segment segs seg = segs) \/
  push_segment segs seg = segs ++ [seg] \/
  exists act a b segs', seg = text_seg act b /\ segs = segs' ++ [text_seg act a] /\
    push_segment segs seg = segs' ++ [text_seg act (a ++ b)].
Proof.
  destruct seg as [[|c s]|t|t [|c s]|t]; simpl; auto.
  - left. by exists None.
  - destruct segs as [|[] segs _] using rev_ind; rewrite ?last_snoc; auto.
    right; right. eexists None, _, (c :: s), _. split; [done|]. split; [done|]. by rewrite update_last_snoc.
  - left. by exists (Some t).
  - destruct segs as [|[] segs _] using rev_ind; rewrite ?last_snoc; auto.
    case_decide as Ht; auto. subst. right; right. eexists (Some t), _, (c :: s), _. split; [done|].
    split; [done|]. by rewrite update_last_snoc.
Qed.

Lemma foldl_push_push acc segs seg :
  foldl push_segment acc (push_segment segs seg) = push_segment (foldl push_segment acc segs) seg.
Proof.
  destruct (push_segment_cases segs seg)
    as [(act & -> & Heq)|[Heq|(act & a & b & segs' & -> & -> & Heq)]].
  - by rewrite Heq, push_text_nil.
  - by rewrite Heq, foldl_app.
  - rewrite Heq, !foldl_app. simpl. by rewrite push_text_text.
Qed.

(** Merging before or after makes no difference. *)
Lemma foldl_push_merge acc segs : foldl push_segment acc (merge segs) = foldl push_segment acc segs.
Proof.
  unfold merge. induction segs as [|seg segs IH] using rev_ind; [done|].
  rewrite !foldl_app. simpl. by rewrite foldl_push_push, IH.
Qed.

Lemma merge_app a b : merge (a ++ b) = foldl push_segment (merge a) b.
Proof. unfold merge. by rewrite foldl_app. Qed.

Lemma merge_merge_app a b : merge (merge a ++ merge b) = merge (a ++ b).
Proof.
  rewrite !merge_app, foldl_push_merge. f_equal. unfold merge at 1. apply foldl_push_merge.
Qed.

Lemma merge_idemp a : merge (merge a) = merge a.
Proof. unfold merge at 1. apply foldl_push_merge. Qed.

(** ** One character at a time *)

(** A complete line, with its end-of-line character if it has one. *)
Definition classify (specs : list (TagSpec T)) (act : option T) (line : str) : option T * segment :=
  let p := {| tag_specs := specs; active_block := act; detect_tag := true; line_buffer := line |} in
  match opens p (line_slug line) with
  | Some t => (Some t, TagStart t)
  | None => match closes p (line_slug line) with
            | Some t => (None, TagEnd t)
            | None => (act, text_seg act line)
            end
  end.

Definition raw_step p (ch : char) : parser * list segment :=
  if detect_tag p then
    let buffer := line_buffer p ++ [ch] in
    if decide (ch = nl) then
      let '(act, seg) := classify (tag_specs p) (active_block p) buffer in
      (set_line p act true [], [seg])
    else if is_empty (trim_start buffer) || is_tag_prefix p (trim_start buffer)
    then (set_line p (active_block p) true buffer, [])
    else (set_line p (active_block p) false [], [text_seg (active_block p) buffer])
  else
    (set_line p (active_block p) (if decide (ch = nl) then true else false) (line_buffer p),
     [text_seg (active_block p) [ch]]).

Fixpoint raws p (s : str) : parser * list segment :=
  match s with
  | [] => (p, [])
  | ch :: rest =>
      let '(p1, a) := raw_step p ch in
      let '(p2, b) := raws p1 rest in
      (p2, a ++ b)
  end.

Lemma raws_app p a b :
  raws p (a ++ b) =
  let '(p1, x) := raws p a in let '(p2, y) := raws p1 b in (p2, x ++ y).
Proof.
  revert p. induction a as [|ch a IH]; intros p; simpl.
  { by destruct (raws p b). }
  destruct (raw_step p ch) as [p0 r]. rewrite IH. destruct (raws p0 a) as [p1 x].
  destruct (raws p1 b) as [p2 y]. by rewrite app_assoc.
Qed.

Lemma finish_line_classify p segs :
  finish_line p segs =
  let '(act, seg) := classify (tag_specs p) (active_block p) (line_buffer p) in
  (set_line p act true [], push_segment segs seg).
Proof.
  unfold finish_line, classify.
  change (opens {| tag_specs := tag_specs p; active_block := active_block p;
    detect_tag := true; line_buffer := line_buffer p |}) with (opens p).
  change (closes {| tag_specs := tag_specs p; active_block := active_block p;
    detect_tag := true; line_buffer := line_buffer p |}) with (closes p).
  destruct (opens p _); [done|]. destruct (closes p _); [done|]. by rewrite push_text_seg.
Qed.

Lemma parse_loop_raws p run segs delta :
  (detect_tag p = true -> run = []) ->
  parse_loop p run segs delta =
  let '(p', raw) := raws p delta in
  (p', foldl push_segment (push_segment segs (text_seg (active_block p) run)) raw).
Proof.
  revert p run segs. induction delta as [|ch delta IH]; intros p run segs Hrun; simpl.
  { rewrite push_text_seg. destruct run; [by rewrite push_text_nil|done]. }
  unfold raw_step. destruct (detect_tag p) eqn:Hd.
  - rewrite (Hrun eq_refl), push_text_nil. simpl.
    change (is_tag_prefix (set_line p (active_block p) true (line_buffer p ++ [ch])))
      with (is_tag_prefix p).
    case_decide as Hnl.
    + rewrite finish_line_classify. simpl.
      destruct (classify _ _ _) as [act seg]. rewrite IH by done. simpl.
      destruct (raws _ delta) as [p' raw]. by rewrite push_text_nil.
    + destruct (is_empty (trim_start (line_buffer p ++ [ch])) || _) eqn:Hp.
      * rewrite IH by done. simpl. destruct (raws _ delta) as [p' raw]. by rewrite push_text_nil.
      * rewrite IH by done. simpl. rewrite push_text_seg. simpl.
        destruct (raws _ delta) as [p' raw]. by rewrite push_text_nil.
  - case_decide as Hnl.
    + rewrite IH by done. simpl. rewrite push_text_seg.
      destruct (raws _ delta) as [p' raw]. simpl. by rewrite push_text_nil, push_text_text.
    + replace (set_line p (active_block p) false (line_buffer p)) with p
        by (destruct p; simpl in *; by subst).
      rewrite IH by (by rewrite Hd). destruct (raws _ delta) as [p' raw]. simpl.
      by rewrite push_text_text.
Qed.

Lemma tagged_parse_raws p delta :
  tagged_parse p delta = let '(p', raw) := raws p delta in (p', merge raw).
Proof.
  unfold tagged_parse. rewrite parse_loop_raws by done. by rewrite push_text_nil.
Qed.

(** ** One line at a time *)

(** The lines of a text, each with its end-of-line character. *)
Fixpoint split_inclusive (s : str) : list str :=
  match s with
  | [] => []
  | c :: s' =>
      if decide (c = nl) then [nl] :: split_inclusive s'
      else match split_inclusive s' with
           | [] => [[c]]
           | l :: ls => (c :: l) :: ls
           end
  end.

(** The reference: the open block after the lines, and their segments. *)
Fixpoint line_segments (specs : list (TagSpec T)) (act : option T) (ls : list str)
    : option T * list segment :=
  match ls with
  | [] => (act, [])
  | l :: ls =>
      let '(act1, seg) := classify specs act l in
      let '(act2, segs) := line_segments specs act1 ls in
      (act2, seg :: segs)
  end.

Definition reference_segments (specs : list (TagSpec T)) (text : str) : list segment :=
  let '(act, segs) := line_segments specs None (split_inclusive text) in
  segs ++ match act with Some t => [TagEnd t] | None => [] end.

Lemma trim_prefix u l : u `prefix_of` l -> trim u `prefix_of` trim l.
Proof.
  intros [x ->]. unfold trim. destruct (decide (trim_start u = [])) as [->|Hu].
  { apply prefix_nil. }
  rewrite trim_start_app_clean by done. generalize (trim_start u) as y. intros y.
  destruct (decide (trim_end x = [])) as [Hx|Hx].
  - apply trim_end_nil in Hx. by rewrite trim_end_app_ws.
  - rewrite trim_end_app_clean by done. destruct (trim_end_decomp y) as (w & Hw & _).
    rewrite Hw at 2. rewrite <- app_assoc. by apply prefix_app_r.
Qed.

Lemma find_str_eqb (f : TagSpec T -> str) slug specs spec :
  List.find (fun sp => str_eqb (f sp) slug) specs = Some spec -> spec ∈ specs /\ f spec = slug.
Proof.
  intros H. apply List.find_some in H as [Hin H]. apply list_elem_of_In in Hin.
  by apply str_eqb_eq in H.
Qed.

Definition fresh (specs : list (TagSpec T)) (act : option T) : parser :=
  {| tag_specs := specs; active_block := act; detect_tag := true; line_buffer := [] |}.

Lemma line_slug_free body : nl ∉ body -> line_slug body = trim body.
Proof.
  intros H. unfold line_slug. destruct (strip_suffix [nl] body) as [l|] eqn:E; [|done].
  apply strip_suffix_Some in E as ->. exfalso. apply H. set_solver.
Qed.

Lemma line_slug_nl body : line_slug (body ++ [nl]) = trim body.
Proof.
  unfold line_slug. by rewrite (proj2 (strip_suffix_Some [nl] (body ++ [nl]) body)).
Qed.

(** A line that starts like no tag is text. *)
Lemma classify_text specs act line body u :
  line_slug line = trim body -> u `prefix_of` body ->
  is_tag_prefix (fresh specs act) (trim_start u) = false ->
  classify specs act line = (act, text_seg act line).
Proof.
  intros Hslug Hu Hp. unfold classify. rewrite Hslug.
  assert (Hno : forall spec, spec ∈ specs -> tag_open spec <> trim body /\ tag_close spec <> trim body).
  { intros spec Hin. apply not_true_iff_false in Hp. unfold is_tag_prefix in Hp.
    rewrite existsb_exists in Hp. apply trim_prefix in Hu. unfold trim in Hu at 1.
    split; intros Heq; apply Hp; exists spec; (split; [by apply list_elem_of_In|]);
      apply orb_true_iff; rewrite !starts_with_true, Heq; [by left|by right]. }
  assert (Ho : match_open (fresh specs act) (trim body) = None).
  { unfold match_open. simpl. destruct (List.find _ specs) as [spec|] eqn:E; [|done].
    apply find_str_eqb in E as [Hin Heq]. by destruct (Hno spec Hin). }
  assert (Hcl : match_close (fresh specs act) (trim body) = None).
  { unfold match_close. simpl. destruct (List.find _ specs) as [spec|] eqn:E; [|done].
    apply find_str_eqb in E as [Hin Heq]. by destruct (Hno spec Hin). }
  unfold opens, closes, match_open, match_close in *. simpl in *. by rewrite Ho, Hcl.
Qed.

(** Within a line: either all of it is held back, or it was let through and
    cannot be a tag. *)
Lemma raws_in_line specs act w :
  nl ∉ w ->
  raws (fresh specs act) w = (set_line (fresh specs act) act true w, []) \/
  exists raw u, raws (fresh specs act) w = (set_line (fresh specs act) act false [], raw) /\
    (forall acc, foldl push_segment acc raw = push_segment acc (text_seg act w)) /\
    u `prefix_of` w /\ is_tag_prefix (fresh specs act) (trim_start u) = false.
Proof.
  induction w as [|c w IH] using rev_ind; intros Hnl; [by left|].
  rewrite raws_app. assert (Hc : c <> nl) by set_solver.
  destruct IH as [->|(raw & u & -> & Hraw & Hu & Hp)]; [set_solver|..]; simpl; unfold raw_step; simpl.
  - rewrite decide_False by done.
    change (is_tag_prefix (set_line (fresh specs act) act true w)) with (is_tag_prefix (fresh specs act)).
    destruct (is_empty _ || _) eqn:E; [by left|]. right.
    apply orb_false_iff in E as [_ E]. eexists _, (w ++ [c]). split; [done|]. by split.
  - rewrite decide_False by done. right. eexists _, u. split; [done|]. split; [|split; [|done]].
    + intros acc. rewrite foldl_app. simpl. rewrite Hraw. apply push_text_text.
    + by apply prefix_app_r.
Qed.

Lemma raws_line specs act body acc :
  nl ∉ body ->
  let '(act', seg) := classify specs act (body ++ [nl]) in
  let '(p, raw) := raws (fresh specs act) (body ++ [nl]) in
  p = fresh specs act' /\ foldl push_segment acc raw = push_segment acc seg.
Proof.
  intros Hnl. rewrite raws_app.
  destruct (raws_in_line specs act body Hnl) as [->|(raw & u & -> & Hraw & Hu & Hp)].
  - simpl. unfold raw_step. simpl. by destruct (classify _ _ _).
  - rewrite (classify_text _ _ _ body u) by (done || apply line_slug_nl).
    simpl. split; [done|]. rewrite foldl_app. simpl. rewrite Hraw. apply push_text_text.
Qed.

(** The last line, when it has no end-of-line character. *)
Lemma raws_last_line specs act body acc :
  nl ∉ body -> body <> [] ->
  let '(act', seg) := classify specs act body in
  let '(p, raw) := raws (fresh specs act) body in
  let '(q, tail) := tagged_finish p in
  q = fresh specs None /\
  foldl push_segment (foldl push_segment acc raw) tail =
  foldl push_segment (push_segment acc seg) match act' with Some t => [TagEnd t] | None => [] end.
Proof.
  intros Hnl Hne.
  destruct (raws_in_line specs act body Hnl) as [->|(raw & u & -> & Hraw & Hu & Hp)].
  - unfold tagged_finish, classify. simpl. destruct body as [|c body]; [done|]. simpl.
    change (opens _ (line_slug (c :: body))) with (opens (fresh specs act) (line_slug (c :: body))).
    change (closes _ (line_slug (c :: body))) with (closes (fresh specs act) (line_slug (c :: body))).
    destruct (opens _ _) as [t|]; [by split|]. destruct (closes _ _) as [t|]; [by split|].
    destruct act as [t|]; by split.
  - rewrite (classify_text _ _ _ body u) by (done || by apply line_slug_free).
    unfold tagged_finish. simpl. destruct act as [t|]; simpl; rewrite Hraw; by split.
Qed.

Lemma split_inclusive_line body rest :
  nl ∉ body -> split_inclusive (body ++ nl :: rest) = (body ++ [nl]) :: split_inclusive rest.
Proof.
  induction body as [|c body IH]; intros H; simpl; [done|].
  rewrite decide_False by set_solver. rewrite IH by set_solver. done.
Qed.

Lemma split_inclusive_last body : nl ∉ body -> body <> [] -> split_inclusive body = [body].
Proof.
  induction body as [|c body IH]; intros H Hne; simpl; [done|].
  rewrite decide_False by set_solver. destruct body as [|d body]; [done|].
  rewrite IH by (done || set_solver). done.
Qed.

(** Every text is empty, one unfinished line, or a line and a rest. *)
Lemma line_cases (s : str) :
  s = [] \/ ((nl ∉ s) /\ s <> []) \/ exists body rest, s = body ++ (nl :: rest) /\ nl ∉ body.
Proof.
  induction s as [|c s IH]; [by left|]. right.
  destruct (decide (c = nl)) as [->|Hc].
  { right. exists [], s. split; [done|set_solver]. }
  destruct IH as [->|[[H _]|(body & rest & -> & H)]].
  - left. split; [set_solver|done].
  - left. split; [set_solver|done].
  - right. exists (c :: body), rest. split; [done|set_solver].
Qed.

Lemma raws_reference s : forall specs act acc,
  let '(p, raw) := raws (fresh specs act) s in
  let '(q, tail) := tagged_finish p in
  let '(act', segs) := line_segments specs act (split_inclusive s) in
  q = fresh specs None /\
  foldl push_segment (foldl push_segment acc raw) tail =
  foldl push_segment acc (segs ++ match act' with Some t => [TagEnd t] | None => [] end).
Proof.
  induction s as [s IH] using (induction_ltof1 _ length). unfold ltof in IH. intros specs act acc.
  destruct (line_cases s) as [->|[[Hnl Hne]|(body & rest & -> & Hnl)]].
  - simpl. unfold tagged_finish. simpl. by destruct act.
  - pose proof (raws_last_line specs act s acc Hnl Hne) as H.
    rewrite split_inclusive_last by done. simpl. destruct (classify specs act s) as [act' seg].
    destruct (raws _ s) as [p raw], (tagged_finish p) as [q tail]. done.
  - rewrite split_inclusive_line by done. rewrite cons_middle, app_assoc, raws_app. simpl.
    pose proof (raws_line specs act body acc Hnl) as H.
    destruct (classify _ _ _) as [act1 seg], (raws _ (body ++ [nl])) as [p1 raw1].
    destruct H as [-> Hacc].
    specialize (IH rest ltac:(rewrite length_app; simpl; lia) specs act1 (push_segment acc seg)).
    destruct (raws _ rest) as [p2 raw2], (tagged_finish p2) as [q tail].
    destruct (line_segments specs act1 _) as [act' segs]. destruct IH as [-> IH].
    split; [done|]. rewrite foldl_app, Hacc, IH. done.
Qed.

(** ** Whole items *)

Fixpoint parse_all p (chunks : list str) : parser * list segment :=
  match chunks with
  | [] => (p, [])
  | c :: rest =>
      let '(p1, a) := tagged_parse p c in
      let '(p2, b) := parse_all p1 rest in
      (p2, a ++ b)
  end.

Definition tagged_run p (chunks : list str) : parser * list segment :=
  let '(p1, a) := parse_all p chunks in
  let '(p2, b) := tagged_finish p1 in
  (p2, a ++ b).

Lemma parse_all_raws p chunks :
  let '(p1, raw) := raws p (concat chunks) in
  let '(p2, out) := parse_all p chunks in
  p2 = p1 /\ merge out = merge raw.
Proof.
  revert p. induction chunks as [|c chunks IH]; intros p; simpl; [done|].
  rewrite raws_app, tagged_parse_raws. destruct (raws p c) as [p1 a].
  specialize (IH p1). destruct (raws p1 _) as [p2 b], (parse_all p1 chunks) as [p3 out].
  destruct IH as [-> IH]. split; [done|].
  by rewrite <- merge_merge_app, merge_idemp, IH, merge_merge_app.
Qed.

(** Text and tags in the right places: the open block after the segments, or
    [None] if a segment does not fit. *)
Fixpoint balanced (act : option T) segs : option (option T) :=
  match segs with
  | [] => Some act
  | Normal _ :: rest => match act with None => balanced act rest | Some _ => None end
  | TagStart t :: rest => match act with None => balanced (Some t) rest | Some _ => None end
  | TagDelta t _ :: rest => if decide (act = Some t) then balanced act rest else None
  | TagEnd t :: rest => if decide (act = Some t) then balanced None rest else None
  end.

Lemma balanced_app act a b :
  balanced act (a ++ b) = match balanced act a with Some act' => balanced act' b | None => None end.
Proof.
  revert act. induction a as [|[] a IH]; intros act; simpl; [done|..];
    try case_decide; try (destruct act; [done|]); auto.
Qed.

Lemma balanced_text act s : balanced act [text_seg act s] = Some act.
Proof. destruct act; simpl; [by rewrite decide_True|done]. Qed.

Lemma balanced_push act segs seg act' :
  balanced act (segs ++ [seg]) = Some act' -> balanced act (push_segment segs seg) = Some act'.
Proof.
  intros H. destruct (push_segment_cases segs seg)
    as [(c & -> & Heq)|[Heq|(c & a & b & segs' & -> & -> & Heq)]]; rewrite Heq; [|done|].
  - rewrite balanced_app in H. destruct (balanced act segs) as [x|]; [|done].
    destruct c as [t|]; simpl in H; [by case_decide|by destruct x].
  - rewrite !balanced_app in *. destruct (balanced act segs') as [x|]; [|done].
    destruct c as [t|]; simpl in *; [|by destruct x].
    repeat (case_decide; simpl in *); by simplify_eq.
Qed.

Lemma balanced_merge act segs act' :
  balanced act segs = Some act' -> balanced act (merge segs) = Some act'.
Proof.
  revert act'. unfold merge. induction segs as [|seg segs IH] using rev_ind; intros act' H; [done|].
  rewrite foldl_app. simpl. apply balanced_push. rewrite balanced_app in *.
  destruct (balanced act segs) as [x|]; [|done]. by rewrite (IH x).
Qed.

Lemma balanced_classify specs act line :
  let '(act', seg) := classify specs act line in balanced act [seg] = Some act'.
Proof.
  unfold classify. destruct (opens _ _) as [t|] eqn:Ho.
  { unfold opens in Ho. simpl in Ho. destruct (match_open _ _), act; by simplify_eq. }
  destruct (closes _ _) as [t|] eqn:Hc; [|apply balanced_text].
  unfold closes in Hc. simpl in Hc. destruct (match_close _ _); [|done].
  case_decide; simplify_eq. simpl. by rewrite decide_True.
Qed.

Lemma balanced_raws p s : 
  let '(q, raw) := raws p s in balanced (active_block p) raw = Some (active_block q).
Proof.
  revert p. induction s as [|ch s IH]; intros p; simpl; [done|].
  assert (H : balanced (active_block p) (snd (raw_step p ch)) =
    Some (active_block (fst (raw_step p ch)))).
  { unfold raw_step. pose proof (balanced_classify (tag_specs p) (active_block p)
      (line_buffer p ++ [ch])) as Hc. destruct (classify _ _ _) as [act' seg].
    repeat case_match; simplify_eq/=; try done; apply balanced_text. }
  destruct (raw_step p ch) as [p1 a]. simpl in H. specialize (IH p1).
  destruct (raws p1 s) as [p2 b]. rewrite balanced_app, H. done.
Qed.

Lemma balanced_finish p :
  balanced (active_block p) (snd (tagged_finish p)) = Some None.
Proof.
  unfold tagged_finish. destruct (line_buffer p) as [|c l] eqn:E; simpl.
  { destruct (active_block p); simpl; [by rewrite decide_True|done]. }
  unfold opens, closes. simpl.
  change (match_open _ ?s) with (match_open p s). change (match_close _ ?s) with (match_close p s).
  destruct (match_open p _) as [t|], (match_close p _) as [t'|], (active_block p) as [a|] eqn:Ea;
    simpl; try case_decide; simplify_eq/=; unfold push_text; simpl; rewrite ?Ea; simpl;
    repeat (rewrite decide_True by done; simpl); done.
Qed.

Lemma parse_all_balanced p chunks :
  let '(q, out) := parse_all p chunks in balanced (active_block p) out = Some (active_block q).
Proof.
  revert p. induction chunks as [|c chunks IH]; intros p; simpl; [done|].
  rewrite tagged_parse_raws. pose proof (balanced_raws p c) as H.
  destruct (raws p c) as [p1 raw]. apply balanced_merge in H. specialize (IH p1).
  destruct (parse_all p1 chunks) as [p2 out]. by rewrite balanced_app, H.
Qed.

Lemma tagged_run_reference specs chunks :
  let '(p, segs) := tagged_run (tagged_new specs) chunks in
  p = tagged_new specs /\ merge segs = merge (reference_segments specs (concat chunks)).
Proof.
  unfold tagged_run, reference_segments.
  pose proof (parse_all_raws (tagged_new specs) chunks) as H1.
  pose proof (raws_reference (concat chunks) specs None []) as H2.
  change (fresh specs None) with (tagged_new specs) in H2.
  destruct (raws _ (concat chunks)) as [p1 raw], (parse_all _ chunks) as [p2 out].
  destruct H1 as [-> H1]. destruct (tagged_finish p1) as [q tail].
  destruct (line_segments _ _ _) as [act' segs]. destruct H2 as [-> H2].
  split; [done|]. rewrite merge_app, H1. exact H2.
Qed.

(** ** Properties *)

(** Over any chunks, the segments of an item are, up to merging of adjacent
    text, those of its complete lines one after another: a line is a tag only
    if it stands alone and fits the open block, and the open block is closed at
    the end; the parser is then back in its initial state. *)
Theorem tagged_lines_reference specs chunks :
  let '(p, segs) := tagged_run (tagged_new specs) chunks in
  p = tagged_new specs /\ merge segs = merge (reference_segments specs (concat chunks)).
Proof. apply tagged_run_reference. Qed.

(** The segments of an item, as they are handed out, are well bracketed:
    a block starts only outside a block, its text and its end carry its tag,
    normal text stays outside, and no block is left open. *)
Theorem tagged_blocks_balanced specs chunks :
  balanced None (snd (tagged_run (tagged_new specs) chunks)) = Some None.
Proof.
  unfold tagged_run. pose proof (parse_all_balanced (tagged_new specs) chunks) as H.
  destruct (parse_all _ chunks) as [p out]. pose proof (balanced_finish p) as Hf.
  destruct (tagged_finish p) as [q tail]. simpl in *. by rewrite balanced_app, H.
Qed.
End Facts.

(** ** Proposed plans *)

Abbreviation plan_seg := (TaggedLineSegment PlanTag).

(** The text outside blocks. *)
Fixpoint normal_text (segs : list plan_seg) : str :=
  match segs with
  | [] => []
  | Normal s :: rest => s ++ normal_text rest
  | _ :: rest => normal_text rest
  end.

Lemma normal_text_app a b : normal_text (a ++ b) = normal_text a ++ normal_text b.
Proof. induction a as [|[] a IH]; simpl; rewrite ?IH, ?app_assoc; done. Qed.

Lemma map_segments_eq segs :
  map_segments segs = {| visible_text := normal_text segs; extracted := map_segment <$> segs |}.
Proof.
  unfold map_segments. induction segs as [|seg segs IH] using rev_ind; [done|].
  rewrite foldl_app. simpl. rewrite IH. simpl. rewrite normal_text_app, fmap_app.
  by destruct seg as [s|[]|[] s|[]]; simpl; rewrite ?app_nil_r.
Qed.

Lemma normal_text_merge segs : normal_text (merge segs) = normal_text segs.
Proof.
  unfold merge. induction segs as [|seg segs IH] using rev_ind; [done|].
  rewrite foldl_app, normal_text_app, <- IH. simpl. generalize (foldl push_segment [] segs) as l.
  clear. intros l. destruct (push_segment_cases l seg)
    as [(c & -> & Heq)|[Heq|(c & a & b & l' & -> & -> & Heq)]];
    rewrite Heq; rewrite ?normal_text_app; [|done|].
  - destruct c; simpl; by rewrite app_nil_r.
  - destruct c as [[]|]; simpl; rewrite ?app_nil_r; [done|]. by rewrite app_assoc.
Qed.

(** Plan segments are the segments of the tagged-line parser. *)
Definition segment_of (s : ProposedPlanSegment) : plan_seg :=
  match s with
  | PlanNormal text => Normal text
  | ProposedPlanStart => TagStart ProposedPlan
  | ProposedPlanDelta text => TagDelta ProposedPlan text
  | ProposedPlanEnd => TagEnd ProposedPlan
  end.

Lemma segment_of_map (segs : list plan_seg) : segment_of <$> (map_segment <$> segs) = segs.
Proof.
  induction segs as [|seg segs IH]; [done|]. rewrite !fmap_cons, IH.
  by destruct seg as [|[]|[]|[]].
Qed.

Definition merged_plan (l : list ProposedPlanSegment) : list plan_seg := merge (segment_of <$> l).

#[export, refine] Instance plan_lawful : LawfulParser ProposedPlanParser ProposedPlanSegment :=
  {| parser_ok _ := True; same_payload a b := merged_plan a = merged_plan b |}.
Proof.
  - split; repeat intros ?; congruence.
  - intros a a' Ha b b' Hb. unfold merged_plan in *. rewrite !fmap_app.
    by rewrite <- merge_merge_app, Ha, Hb, merge_merge_app.
  - done.
  - done.
  - by intros [p] _.
  - intros [p] a b _. simpl. unfold plan_push_str. simpl.
    rewrite !tagged_parse_raws. rewrite raws_app. destruct (raws p a) as [p1 x]. simpl.
    rewrite tagged_parse_raws. destruct (raws p1 b) as [p2 y]. rewrite !map_segments_eq. simpl.
    split; [done|]. rewrite !normal_text_merge, normal_text_app. split; [done|].
    unfold merged_plan. rewrite fmap_app, !segment_of_map.
    by rewrite merge_idemp, merge_merge_app.
Defined.

(** The reference on lines: the rest of the current block, the text outside
    blocks, the blocks that follow. *)
Fixpoint plan_read (inside : bool) (ls : list str) : str * str * list str :=
  match ls with
  | [] => ([], [], [])
  | l :: ls =>
      if inside then
        if str_eqb (trim l) CLOSE_TAG
        then let '(_, v, bs) := plan_read false ls in ([], v, bs)
        else let '(b, v, bs) := plan_read true ls in (l ++ b, v, bs)
      else
        if str_eqb (trim l) OPEN_TAG
        then let '(b, v, bs) := plan_read true ls in ([], v, b :: bs)
        else let '(_, v, bs) := plan_read false ls in ([], l ++ v, bs)
  end.

Lemma line_slug_trim line : line_slug line = trim line.
Proof.
  unfold line_slug. destruct (strip_suffix [nl] line) as [l|] eqn:E; [|done].
  apply strip_suffix_Some in E as ->. symmetry. apply trim_of_trim_end, trim_end_app_ws.
  by repeat constructor.
Qed.

Lemma classify_plan act line :
  classify PLAN_SPECS act line =
  match act with
  | None => if str_eqb (trim line) OPEN_TAG then (Some ProposedPlan, TagStart ProposedPlan)
            else (None, Normal line)
  | Some _ => if str_eqb (trim line) CLOSE_TAG then (None, TagEnd ProposedPlan)
              else (act, TagDelta ProposedPlan line)
  end.
Proof.
  unfold classify, opens, closes, match_open, match_close. rewrite line_slug_trim. simpl.
  assert (Hsym : forall a b, str_eqb a b = str_eqb b a).
  { intros a b. apply bool_decide_ext. split; congruence. }
  rewrite !(Hsym _ (trim line)).
  destruct (str_eqb (trim line) OPEN_TAG) eqn:E1, (str_eqb (trim line) CLOSE_TAG) eqn:E2,
    act as [[]|]; try done; apply str_eqb_eq in E1; apply str_eqb_eq in E2; congruence.
Qed.

(** The fold of [extract_proposed_plan_text] ignores how text is merged. *)
Definition extract_seg (st : bool * str) (seg : plan_seg) : bool * str :=
  extract_step st (map_segment seg).

Lemma extract_merge segs st : foldl extract_seg st (merge segs) = foldl extract_seg st segs.
Proof.
  unfold merge. induction segs as [|seg segs IH] using rev_ind; [done|].
  rewrite !foldl_app, <- IH. simpl. generalize (foldl push_segment [] segs) as l. clear.
  intros l. destruct (push_segment_cases l seg)
    as [(c & -> & Heq)|[Heq|(c & a & b & l' & -> & -> & Heq)]];
    rewrite Heq; rewrite ?foldl_app; [|done|].
  - destruct (foldl extract_seg st l) as [saw txt]. unfold extract_seg.
    destruct c as [[]|]; simpl; by rewrite ?app_nil_r.
  - simpl. destruct (foldl extract_seg st l') as [saw txt]. unfold extract_seg.
    destruct c as [[]|]; simpl; by rewrite ?app_assoc.
Qed.

Lemma plan_read_outside ls b v bs : plan_read false ls = (b, v, bs) -> b = [].
Proof.
  destruct ls as [|l ls]; simpl; [by intros [= <- _ _]|].
  destruct (str_eqb _ _), (plan_read _ ls) as [[? ?] ?]; by intros [= <- _ _].
Qed.

Lemma reference_plan ls act saw txt :
  let '(act', segs) := line_segments PLAN_SPECS act ls in
  let '(b, v, bs) := plan_read (bool_decide (is_Some act)) ls in
  normal_text segs = v /\
  foldl extract_seg (saw, txt) segs =
    match last bs with Some l => (true, l) | None => (saw, txt ++ b) end.
Proof.
  revert act saw txt. induction ls as [|l ls IH]; intros act saw txt; simpl.
  { by rewrite app_nil_r. }
  rewrite classify_plan. destruct act as [[]|]; simpl; destruct (str_eqb (trim l) _); simpl.
  - specialize (IH None saw txt). simpl in IH. destruct (line_segments _ None ls) as [act' segs].
    destruct (plan_read false ls) as [[b v] bs] eqn:Er. simpl. destruct IH as [Hv He].
    split; [done|]. rewrite He.
    rewrite (plan_read_outside _ _ _ _ Er). by rewrite app_nil_r.
  - specialize (IH (Some ProposedPlan) saw (txt ++ l)). simpl in IH.
    destruct (line_segments _ _ ls) as [act' segs], (plan_read true ls) as [[b v] bs].
    destruct IH as [Hv He]. simpl. split; [done|].
    rewrite He. by rewrite <- app_assoc.
  - specialize (IH (Some ProposedPlan) true []). simpl in IH.
    destruct (line_segments _ _ ls) as [act' segs], (plan_read true ls) as [[b v] bs].
    destruct IH as [Hv He]. simpl. split; [done|].
    rewrite He. destruct bs as [|b' bs]; [done|].
    change (last (b :: b' :: bs)) with (last (b' :: bs)).
    destruct (last (b' :: bs)) eqn:E; [done|by apply last_None in E].
  - specialize (IH None saw txt). simpl in IH. destruct (line_segments _ None ls) as [act' segs].
    destruct (plan_read false ls) as [[b v] bs] eqn:Er. simpl. destruct IH as [Hv He].
    split; [by rewrite Hv|]. rewrite He.
    rewrite (plan_read_outside _ _ _ _ Er). by rewrite app_nil_r.
Qed.

Lemma map_segments_app a b : map_segments (a ++ b) = chunk_append (map_segments a) (map_segments b).
Proof.
  rewrite !map_segments_eq. unfold chunk_append. simpl. by rewrite normal_text_app, fmap_app.
Qed.

Lemma run_plan p chunks :
  run_parser {| plan_parser := p |} chunks =
  let '(q, segs) := tagged_run p chunks in ({| plan_parser := q |}, map_segments segs).
Proof.
  assert (H : push_all {| plan_parser := p |} chunks =
    let '(q, segs) := parse_all p chunks in ({| plan_parser := q |}, map_segments segs)).
  { revert p. induction chunks as [|c chunks IH]; intros p; [done|]. simpl.
    unfold plan_push_str. simpl. destruct (tagged_parse p c) as [p1 a]. rewrite IH.
    destruct (parse_all p1 chunks) as [p2 b]. by rewrite map_segments_app. }
  unfold run_parser, tagged_run. rewrite H. destruct (parse_all p chunks) as [p1 a].
  simpl. unfold plan_finish. simpl. destruct (tagged_finish p1) as [p2 b].
  by rewrite map_segments_app.
Qed.

(** What a plan-mode item gives, from its complete lines. *)
Lemma plan_run_reference chunks :
  let '(_, v, bs) := plan_read false (split_inclusive (concat chunks)) in
  let '(p, o) := run_parser plan_new chunks in
  p = plan_new /\ visible_text o = v /\
  merged_plan (extracted o) = merge (reference_segments PLAN_SPECS (concat chunks)) /\
  foldl extract_step (false, []) (extracted o) =
    match last bs with Some l => (true, l) | None => (false, []) end.
Proof.
  unfold plan_new. rewrite run_plan. pose proof (tagged_run_reference PLAN_SPECS chunks) as H.
  destruct (tagged_run _ chunks) as [q segs]. destruct H as [-> Hm]. rewrite map_segments_eq.
  pose proof (reference_plan (split_inclusive (concat chunks)) None false []) as Hr. simpl in Hr.
  assert (Hn : normal_text segs = normal_text (reference_segments PLAN_SPECS (concat chunks)))
    by (by rewrite <- normal_text_merge, Hm, normal_text_merge).
  assert (He : foldl extract_seg (false, []) segs =
    foldl extract_seg (false, []) (reference_segments PLAN_SPECS (concat chunks)))
    by (by rewrite <- extract_merge, Hm, extract_merge).
  assert (Hx : foldl extract_step (false, []) (map_segment <$> segs) =
    foldl extract_seg (false, []) segs).
  { clear. generalize (false, @nil N). induction segs as [|seg l IH]; intros st; [done|].
    rewrite fmap_cons. simpl. apply IH. }
  unfold reference_segments in *.
  destruct (line_segments PLAN_SPECS None _) as [act' ref].
  destruct (plan_read false _) as [[b v] bs] eqn:Eb. destruct Hr as [Hv Hf].
  apply plan_read_outside in Eb as ->. simpl. split; [done|].
  rewrite normal_text_app, Hv in Hn. rewrite foldl_app, Hf in He.
  split; [|split].
  - rewrite Hn. destruct act'; simpl; by rewrite app_nil_r.
  - unfold merged_plan. by rewrite segment_of_map.
  - rewrite Hx, He. by destruct act' as [[]|], (last bs).
Qed.

(** The text of the last plan block and the text outside plan blocks, as
    [extract_proposed_plan_text] and [strip_proposed_plan_blocks] return them,
    are the ones read off the complete lines: blocks run from a line that is
    the opening tag to a line that is the closing tag, or to the end. *)
Theorem plan_text_reference text :
  let '(_, outside, blocks) := plan_read false (split_inclusive text) in
  strip_proposed_plan_blocks text = outside /\
  extract_proposed_plan_text text = last blocks.
Proof.
  pose proof (plan_run_reference [text]) as H. simpl in H. rewrite app_nil_r in H.
  unfold run_parser in H. cbn [push_all] in H.
  unfold strip_proposed_plan_blocks, extract_proposed_plan_text.
  destruct (plan_read false _) as [[b v] bs]. destruct (push_str plan_new text) as [p out].
  rewrite chunk_append_nil_r in H. destruct (finish p) as [q tail].
  simpl in H. destruct H as (_ & -> & _ & ->). by destruct (last bs).
Qed.
