(* ===== verification/AssistantText.v ===== *)
(** * Assistant text: [utils/stream-parser/src/assistant_text.rs]

    The composition the client uses: citations are stripped first, and in plan
    mode the remaining text goes through the plan parser. *)

From S2P Require Import Prelude.
From S2P Require Import RustStr.
From S2P Require Import StreamText.
From S2P Require Import InlineTag.
From S2P Require Import InlineTagFacts.
From S2P Require Import TaggedLine.
From S2P Require Import TaggedLineFacts.

Record AssistantTextChunk := {
  assistant_visible_text : str;
  assistant_citations : list str;
  plan_segments : list ProposedPlanSegment;
}.

Definition assistant_chunk_is_empty (c : AssistantTextChunk) : bool :=
  is_empty (assistant_visible_text c) && is_empty (assistant_citations c)
  && is_empty (plan_segments c).

Record AssistantTextStreamParser := {
  plan_mode : bool;
  citations : CitationStreamParser;
  plan : ProposedPlanParser;
}.

Definition assistant_new (mode : bool) : AssistantTextStreamParser :=
  {| plan_mode := mode; citations := citation_new; plan := plan_new |}.

Definition parse_visible_text (p : AssistantTextStreamParser) (text : str)
    : AssistantTextStreamParser * AssistantTextChunk :=
  if plan_mode p then
    let '(q, chunk) := push_str (plan p) text in
    ({| plan_mode := plan_mode p; citations := citations p; plan := q |},
     {| assistant_visible_text := visible_text chunk; assistant_citations := [];
        plan_segments := extracted chunk |})
  else
    (p, {| assistant_visible_text := text; assistant_citations := []; plan_segments := [] |}).

Definition set_citations (p : AssistantTextStreamParser) (c : CitationStreamParser) :=
  {| plan_mode := plan_mode p; citations := c; plan := plan p |}.

Definition assistant_push_str (p : AssistantTextStreamParser) (chunk : str)
    : AssistantTextStreamParser * AssistantTextChunk :=
  let '(c, citation_chunk) := push_str (citations p) chunk in
  let '(p, out) := parse_visible_text (set_citations p c) (visible_text citation_chunk) in
  (p, {| assistant_visible_text := assistant_visible_text out;
         assistant_citations := extracted citation_chunk;
         plan_segments := plan_segments out |}).

Definition assistant_finish (p : AssistantTextStreamParser)
    : AssistantTextStreamParser * AssistantTextChunk :=
  let '(c, citation_chunk) := finish (citations p) in
  let '(p, out) := parse_visible_text (set_citations p c) (visible_text citation_chunk) in
  let '(p, out) :=
    if plan_mode p then
      let '(q, tail) := finish (plan p) in
      ({| plan_mode := plan_mode p; citations := citations p; plan := q |},
       if stream_chunk_is_empty tail then out
       else {| assistant_visible_text := assistant_visible_text out ++ visible_text tail;
               assistant_citations := assistant_citations out;
               plan_segments := plan_segments out ++ extracted tail |})
    else (p, out) in
  (p, {| assistant_visible_text := assistant_visible_text out;
         assistant_citations := extracted citation_chunk;
         plan_segments := plan_segments out |}).

(** ** A whole item *)

Definition assistant_append (a b : AssistantTextChunk) : AssistantTextChunk :=
  {| assistant_visible_text := assistant_visible_text a ++ assistant_visible_text b;
     assistant_citations := assistant_citations a ++ assistant_citations b;
     plan_segments := plan_segments a ++ plan_segments b |}.

Fixpoint assistant_run (p : AssistantTextStreamParser) (chunks : list str)
    : AssistantTextStreamParser * AssistantTextChunk :=
  match chunks with
  | [] => assistant_finish p
  | c :: rest =>
      let '(p1, o1) := assistant_push_str p c in
      let '(p2, o2) := assistant_run p1 rest in
      (p2, assistant_append o1 o2)
  end.

(** The visible text of the citation parser, one piece per push and one for the
    final flush: what the plan parser is fed. *)
Fixpoint visible_pieces (c : CitationStreamParser) (chunks : list str) : list str :=
  match chunks with
  | [] => [visible_text (snd (finish c))]
  | s :: rest => let '(c1, o) := push_str c s in visible_text o :: visible_pieces c1 rest
  end.

Lemma run_parser_cons {P T} `{!StreamTextParser P T} (p : P) c rest :
  run_parser p (c :: rest) =
  let '(p1, o1) := push_str p c in
  let '(p2, o2) := run_parser p1 rest in (p2, chunk_append o1 o2).
Proof.
  unfold run_parser. simpl. destruct (push_str p c) as [p1 o1].
  destruct (push_all p1 rest) as [p2 o2], (finish p2) as [p3 o3].
  unfold chunk_append. simpl. by rewrite !app_assoc.
Qed.

Lemma concat_visible_pieces c chunks :
  concat (visible_pieces c chunks) = visible_text (snd (run_parser c chunks)).
Proof.
  revert c. induction chunks as [|s chunks IH]; intros c.
  - unfold run_parser. cbn [push_all visible_pieces concat]. rewrite app_nil_r.
    destruct (finish c). by rewrite chunk_append_nil_l.
  - rewrite run_parser_cons. cbn [visible_pieces]. destruct (push_str c s) as [c1 o].
    cbn [concat]. rewrite IH. by destruct (run_parser c1 chunks).
Qed.

Lemma assistant_run_plain c q chunks :
  assistant_run {| plan_mode := false; citations := c; plan := q |} chunks =
  let '(c', o) := run_parser c chunks in
  ({| plan_mode := false; citations := c'; plan := q |},
   {| assistant_visible_text := visible_text o; assistant_citations := extracted o;
      plan_segments := [] |}).
Proof.
  revert c. induction chunks as [|s chunks IH]; intros c.
  - cbn [assistant_run]. unfold assistant_finish, run_parser. cbn [push_all citations].
    destruct (finish c) as [c' o]. by rewrite chunk_append_nil_l.
  - rewrite run_parser_cons. cbn [assistant_run]. unfold assistant_push_str. cbn [citations].
    destruct (push_str c s) as [c1 o1]. unfold parse_visible_text, set_citations. cbn.
    rewrite IH. by destruct (run_parser c1 chunks).
Qed.

Lemma stream_chunk_is_empty_true {T} (o : StreamTextChunk T) :
  stream_chunk_is_empty o = true -> o = chunk_default.
Proof. by destruct o as [[|] [|]]. Qed.

Lemma assistant_run_plan c q chunks :
  assistant_run {| plan_mode := true; citations := c; plan := q |} chunks =
  let '(c', o) := run_parser c chunks in
  let '(q', r) := run_parser q (visible_pieces c chunks) in
  ({| plan_mode := true; citations := c'; plan := q' |},
   {| assistant_visible_text := visible_text r; assistant_citations := extracted o;
      plan_segments := extracted r |}).
Proof.
  revert c q. induction chunks as [|s chunks IH]; intros c q.
  - cbn [assistant_run visible_pieces]. unfold assistant_finish, run_parser.
    cbn [push_all citations]. destruct (finish c) as [c' o]. cbn [snd].
    unfold parse_visible_text, set_citations. cbn [plan_mode citations plan].
    destruct (push_str q (visible_text o)) as [q1 r1]. cbn [plan_mode plan].
    destruct (finish q1) as [q2 r2]. rewrite chunk_append_nil_l, chunk_append_nil_r.
    destruct (stream_chunk_is_empty r2) eqn:E; [|done].
    apply stream_chunk_is_empty_true in E as ->. by rewrite chunk_append_nil_r.
  - cbn [assistant_run visible_pieces]. rewrite run_parser_cons. unfold assistant_push_str.
    cbn [citations]. destruct (push_str c s) as [c1 o1].
    rewrite run_parser_cons. unfold parse_visible_text, set_citations.
    cbn [plan_mode citations plan]. destruct (push_str q (visible_text o1)) as [q1 r1].
    rewrite IH. destruct (run_parser c1 chunks) as [c2 o2].
    by destruct (run_parser q1 _) as [q2 r2].
Qed.

(** ** Property *)

(** C36: Over any chunks, the assistant parser hands out the citations of the
    complete text; what is left is shown as it is outside plan mode, and in plan
    mode split into plan blocks and text as by its complete lines.  The parser
    is then ready for the next item. *)
Theorem assistant_text_reference mode chunks :
  let '(p, o) := assistant_run (assistant_new mode) chunks in
  p = assistant_new mode /\
  exists vis, cited CITATION_OPEN CITATION_CLOSE (concat chunks) vis (assistant_citations o) /\
  if mode then
    let '(_, outside, _) := plan_read false (split_inclusive vis) in
    assistant_visible_text o = outside /\
    merged_plan (plan_segments o) = merge (reference_segments PLAN_SPECS vis)
  else assistant_visible_text o = vis /\ plan_segments o = [].
Proof.
  unfold assistant_new. pose proof (citation_run_reference chunks) as Hc. destruct mode.
  - rewrite assistant_run_plan.
    pose proof (plan_run_reference (visible_pieces citation_new chunks)) as Hp.
    rewrite concat_visible_pieces in Hp.
    destruct (run_parser citation_new chunks) as [c o]. destruct Hc as [-> Hc]. cbn [snd] in Hp.
    destruct (plan_read false _) as [[b v] bs] eqn:Er.
    destruct (run_parser plan_new _) as [q r]. destruct Hp as (-> & Hv & Hm & _).
    split; [done|]. exists (visible_text o). split; [done|]. by rewrite Er.
  - rewrite assistant_run_plain. destruct (run_parser citation_new chunks) as [c o].
    destruct Hc as [-> Hc]. split; [done|]. by exists (visible_text o).
Qed.
