(* ===== verification/Utf8Stream.v ===== *)
(** * Byte streams: [utils/stream-parser/src/utf8_stream.rs]

    [Utf8StreamParser] feeds raw bytes to any [StreamTextParser], holding back
    a code point that is cut by a chunk boundary.  [std::str::from_utf8] is
    modelled with the positions its error reports. *)

From S2P Require Import Prelude.
From S2P Require Import RustStr.
From S2P Require Import StreamText.
From S2P Require Import InlineTag.
From S2P Require Import InlineTagFacts.

(** ** [std::str::from_utf8] *)

Abbreviation byte := N.

Record Utf8Error := { valid_up_to : nat; error_len : option nat }.

Inductive utf8_step :=
| Decoded (c : char) (rest : list byte)
| Malformed (len : nat)
| Truncated.

Definition is_continuation (b : byte) : bool := in_range 128 191 b.

(** The second byte allowed after the first one of a sequence of three. *)
Definition second_of_three (b0 b1 : byte) : bool :=
  if (b0 =? 224)%N then in_range 160 191 b1
  else if (b0 =? 237)%N then in_range 128 159 b1
  else is_continuation b1.

(** The same for a sequence of four. *)
Definition second_of_four (b0 b1 : byte) : bool :=
  if (b0 =? 240)%N then in_range 144 191 b1
  else if (b0 =? 244)%N then in_range 128 143 b1
  else is_continuation b1.

Definition low6 (b : byte) : N := (b mod 64)%N.

(** One code point at the head of the bytes. *)
Definition decode_step (bs : list byte) : utf8_step :=
  match bs with
  | [] => Truncated
  | b0 :: r0 =>
      if (b0 <? 128)%N then Decoded b0 r0
      else if in_range 194 223 b0 then
        match r0 with
        | [] => Truncated
        | b1 :: r1 =>
            if is_continuation b1 then Decoded (b0 mod 32 * 64 + low6 b1)%N r1 else Malformed 1
        end
      else if in_range 224 239 b0 then
        match r0 with
        | [] => Truncated
        | b1 :: r1 =>
            if second_of_three b0 b1 then
              match r1 with
              | [] => Truncated
              | b2 :: r2 =>
                  if is_continuation b2
                  then Decoded (b0 mod 16 * 4096 + low6 b1 * 64 + low6 b2)%N r2
                  else Malformed 2
              end
            else Malformed 1
        end
      else if in_range 240 244 b0 then
        match r0 with
        | [] => Truncated
        | b1 :: r1 =>
            if second_of_four b0 b1 then
              match r1 with
              | [] => Truncated
              | b2 :: r2 =>
                  if is_continuation b2 then
                    match r2 with
                    | [] => Truncated
                    | b3 :: r3 =>
                        if is_continuation b3
                        then Decoded (b0 mod 8 * 262144 + low6 b1 * 4096 + low6 b2 * 64 + low6 b3)%N r3
                        else Malformed 3
                    end
                  else Malformed 2
              end
            else Malformed 1
        end
      else Malformed 1
  end.

Fixpoint from_utf8_loop (fuel valid : nat) (bs : list byte) : result str Utf8Error :=
  match bs, fuel with
  | [], _ => Ok []
  | _, O => Err {| valid_up_to := valid; error_len := None |}
  | _, S fuel =>
      match decode_step bs with
      | Decoded c rest =>
          let? s := from_utf8_loop fuel (valid + (length bs - length rest)) rest in Ok (c :: s)
      | Malformed len => Err {| valid_up_to := valid; error_len := Some len |}
      | Truncated => Err {| valid_up_to := valid; error_len := None |}
      end
  end.

(** Every step consumes a byte, so the number of bytes is enough fuel. *)
Definition from_utf8 (bs : list byte) : result str Utf8Error :=
  from_utf8_loop (length bs) 0 bs.

(** ** The parser *)

Inductive Utf8StreamParserError :=
| InvalidUtf8 (valid_up_to error_len : nat)
| IncompleteUtf8AtEof.

Record Utf8StreamParser (P : Type) := { utf8_inner : P; pending_utf8 : list byte }.
Arguments Build_Utf8StreamParser {P} utf8_inner pending_utf8.
Arguments utf8_inner {P} u.
Arguments pending_utf8 {P} u.

Section Parser.
Context {P T : Type} `{!StreamTextParser P T}.
Abbreviation parser := (Utf8StreamParser P).
Abbreviation output := (result (StreamTextChunk T) Utf8StreamParserError).

Definition utf8_new (inner : P) : parser := {| utf8_inner := inner; pending_utf8 := [] |}.

Definition unwrap_or_zero (n : option nat) : nat := match n with Some n => n | None => 0 end.

Definition push_bytes (p : parser) (chunk : list byte) : parser * output :=
  let old_len := length (pending_utf8 p) in
  let bytes := pending_utf8 p ++ chunk in
  match from_utf8 bytes with
  | Ok text =>
      let '(inner, out) := push_str (utf8_inner p) text in
      ({| utf8_inner := inner; pending_utf8 := [] |}, Ok out)
  | Err err =>
      match error_len err with
      | Some n =>
          ({| utf8_inner := utf8_inner p; pending_utf8 := take old_len bytes |},
           Err (InvalidUtf8 (valid_up_to err) n))
      | None =>
          if decide (valid_up_to err = 0) then
            ({| utf8_inner := utf8_inner p; pending_utf8 := bytes |}, Ok chunk_default)
          else
            match from_utf8 (take (valid_up_to err) bytes) with
            | Err prefix_err =>
                ({| utf8_inner := utf8_inner p; pending_utf8 := take old_len bytes |},
                 Err (InvalidUtf8 (valid_up_to prefix_err) (unwrap_or_zero (error_len prefix_err))))
            | Ok text =>
                let '(inner, out) := push_str (utf8_inner p) text in
                ({| utf8_inner := inner; pending_utf8 := drop (valid_up_to err) bytes |}, Ok out)
            end
      end
  end.

(** The final flush of the inner parser, after [out]. *)
Definition finish_inner (inner : P) (out : StreamTextChunk T) : parser * output :=
  let '(inner, tail) := finish inner in
  ({| utf8_inner := inner; pending_utf8 := [] |}, Ok (chunk_append out tail)).

Definition utf8_finish (p : parser) : parser * output :=
  match pending_utf8 p with
  | [] => finish_inner (utf8_inner p) chunk_default
  | _ =>
      match from_utf8 (pending_utf8 p) with
      | Err err =>
          (p, Err match error_len err with
                  | Some n => InvalidUtf8 (valid_up_to err) n
                  | None => IncompleteUtf8AtEof
                  end)
      | Ok text =>
          let '(inner, out) := push_str (utf8_inner p) text in finish_inner inner out
      end
  end.

Definition into_inner (p : parser) : result P Utf8StreamParserError :=
  match pending_utf8 p with
  | [] => Ok (utf8_inner p)
  | _ =>
      match from_utf8 (pending_utf8 p) with
      | Ok _ => Ok (utf8_inner p)
      | Err err =>
          Err match error_len err with
              | Some n => InvalidUtf8 (valid_up_to err) n
              | None => IncompleteUtf8AtEof
              end
      end
  end.

Definition into_inner_lossy (p : parser) : P := utf8_inner p.

(** A whole item: pushes, stopping at the first error, then the final flush. *)
Fixpoint run_bytes (p : parser) (chunks : list (list byte)) : parser * output :=
  match chunks with
  | [] => utf8_finish p
  | c :: rest =>
      match push_bytes p c with
      | (p1, Err e) => (p1, Err e)
      | (p1, Ok o1) =>
          match run_bytes p1 rest with
          | (p2, Err e) => (p2, Err e)
          | (p2, Ok o2) => (p2, Ok (chunk_append o1 o2))
          end
      end
  end.

End Parser.

(** ** Decoding: lemmas *)

Lemma decode_step_app bs x :
  match decode_step bs with
  | Decoded c rest => decode_step (bs ++ x) = Decoded c (rest ++ x)
  | Malformed n => decode_step (bs ++ x) = Malformed n
  | Truncated => True
  end.
Proof.
  destruct bs as [|b0 [|b1 [|b2 [|b3 r]]]]; simpl; repeat case_match; simplify_eq; done.
Qed.

Lemma decode_step_prefix bs c rest :
  decode_step bs = Decoded c rest ->
  exists pre, bs = pre ++ rest /\ 0 < length pre /\
    forall x, decode_step (pre ++ x) = Decoded c x.
Proof.
  destruct bs as [|b0 [|b1 [|b2 [|b3 r]]]]; cbn [decode_step]; repeat case_match;
    intros Heq; try discriminate Heq; injection Heq as <- <-;
    first [exists [b0]; split; [reflexivity|] | exists [b0; b1]; split; [reflexivity|]
          |exists [b0; b1; b2]; split; [reflexivity|] | exists [b0; b1; b2; b3]; split; [reflexivity|]];
    (split; [simpl; lia|]); intros x; simpl;
    repeat match goal with H : ?b = _ |- context [?b] => rewrite H end; reflexivity.
Qed.

(** [decodes bs s r]: [bs] starts with the encoding of [s], and [r] is left. *)
Inductive decodes : list byte -> str -> list byte -> Prop :=
| decodes_nil r : decodes r [] r
| decodes_cons bs c rest s r :
    decode_step bs = Decoded c rest -> decodes rest s r -> decodes bs (c :: s) r.

Lemma decodes_app bs s r x : decodes bs s r -> decodes (bs ++ x) s (r ++ x).
Proof.
  induction 1 as [r|bs c rest s r Hd _ IH]; [constructor|].
  pose proof (decode_step_app bs x) as H. rewrite Hd in H. by econstructor.
Qed.

Lemma decodes_prefix bs s r :
  decodes bs s r -> exists pre, bs = pre ++ r /\ (s <> [] -> 0 < length pre) /\
    forall x, decodes (pre ++ x) s x.
Proof.
  induction 1 as [r|bs c rest s r Hd _ (pre & -> & _ & IH)].
  - exists []. split; [done|]. split; [done|]. constructor.
  - apply decode_step_prefix in Hd as (pre' & -> & Hlen & Hx).
    exists (pre' ++ pre). rewrite <- app_assoc. split; [done|]. split.
    + rewrite length_app. lia.
    + intros x. rewrite <- app_assoc. by econstructor.
Qed.

(** Where decoding stops. *)
Definition stops (r : list byte) : Prop := forall c rest, decode_step r <> Decoded c rest.

Lemma decodes_confluent bs s1 r1 s2 r2 :
  decodes bs s1 r1 -> decodes bs s2 r2 -> stops r2 ->
  exists s3, s2 = s1 ++ s3 /\ decodes r1 s3 r2.
Proof.
  intros H1. revert s2 r2. induction H1 as [r|bs c rest s r Hd _ IH]; intros s2 r2 H2 Hs.
  - by exists s2.
  - inversion H2 as [|? c' rest' s' ? Hd' H2']; subst; [by destruct (Hs _ _ Hd)|].
    rewrite Hd in Hd'. simplify_eq. destruct (IH _ _ H2' Hs) as (s3 & -> & H3).
    by exists s3.
Qed.

Lemma from_utf8_loop_spec fuel : forall valid bs,
  length bs <= fuel ->
  exists s r, decodes bs s r /\ stops r /\
    from_utf8_loop fuel valid bs =
    match r with
    | [] => Ok s
    | _ => Err {| valid_up_to := valid + (length bs - length r);
                  error_len := match decode_step r with Malformed n => Some n | _ => None end |}
    end.
Proof.
  induction fuel as [|fuel IH]; intros valid [|b bs] Hlen; simpl in Hlen; try lia.
  1, 2: by (exists [], []; split; [constructor|done]).
  cbn [from_utf8_loop]. destruct (decode_step (b :: bs)) as [c rest|n|] eqn:Hd.
  - destruct (IH (valid + (length (b :: bs) - length rest)) rest) as (s & r & Hs & Hst & ->).
    { apply decode_step_prefix in Hd as (pre & Heq & Hpre & _). apply (f_equal length) in Heq.
      rewrite length_app in Heq. simpl in Heq. lia. }
    exists (c :: s), r. split; [by econstructor|]. split; [done|].
    destruct r as [|b' r]; [done|]. cbn [result_bind]. do 2 f_equal.
    destruct (decodes_prefix _ _ _ Hs) as (pre & Heq & _).
    apply decode_step_prefix in Hd as (pre' & Heq' & _).
    apply (f_equal length) in Heq, Heq'. rewrite length_app in Heq, Heq'. lia.
  - exists [], (b :: bs). split; [constructor|]. split; [by intros ? ?; rewrite Hd|].
    rewrite Hd. do 2 f_equal. lia.
  - exists [], (b :: bs). split; [constructor|]. split; [by intros ? ?; rewrite Hd|].
    rewrite Hd. do 2 f_equal. lia.
Qed.

Lemma from_utf8_spec bs :
  exists s r, decodes bs s r /\ stops r /\
    from_utf8 bs =
    match r with
    | [] => Ok s
    | _ => Err {| valid_up_to := length bs - length r;
                  error_len := match decode_step r with Malformed n => Some n | _ => None end |}
    end.
Proof. apply (from_utf8_loop_spec (length bs) 0 bs). lia. Qed.

Lemma stops_nil : stops [].
Proof. done. Qed.

Lemma decodes_stops_nil r s r' : stops r -> decodes r s r' -> s = [] /\ r' = r.
Proof. intros Hs H. inversion H; subst; [done|]. by edestruct Hs. Qed.

Lemma from_utf8_decodes bs s r :
  decodes bs s r -> stops r ->
  from_utf8 bs =
  match r with
  | [] => Ok s
  | _ => Err {| valid_up_to := length bs - length r;
                error_len := match decode_step r with Malformed n => Some n | _ => None end |}
  end.
Proof.
  intros Hd Hs. destruct (from_utf8_spec bs) as (s' & r' & Hd' & Hs' & ->).
  destruct (decodes_confluent _ _ _ _ _ Hd Hd' Hs') as (s3 & -> & H3).
  apply decodes_stops_nil in H3 as [-> ->]; [|done]. by rewrite app_nil_r.
Qed.

#[local] Arguments decode_step : simpl never.

(** ** The parser: lemmas *)

Section Facts.
Context {P T : Type} `{!StreamTextParser P T} `{!LawfulParser P T}.
Implicit Types p : Utf8StreamParser P.

Lemma push_bytes_ok p chunk s r :
  parser_ok (utf8_inner p) ->
  decodes (pending_utf8 p ++ chunk) s r -> decode_step r = Truncated ->
  push_bytes p chunk =
  let '(inner, out) := push_str (utf8_inner p) s in
  ({| utf8_inner := inner; pending_utf8 := r |}, Ok out).
Proof.
  intros Hok Hd Ht. unfold push_bytes.
  assert (Hs : stops r) by (intros ? ?; by rewrite Ht).
  rewrite (from_utf8_decodes _ _ _ Hd Hs).
  destruct r as [|b r]; [done|]. rewrite Ht. cbn [error_len valid_up_to].
  destruct (decodes_prefix _ _ _ Hd) as (pre & -> & Hpre & Hx). rewrite length_app.
  replace (length pre + length (b :: r) - length (b :: r)) with (length pre) by lia.
  case_decide as Hl.
  - destruct pre; [|done]. destruct s as [|c s]; [|simpl in Hpre; specialize (Hpre ltac:(done)); lia].
    by rewrite push_nil.
  - rewrite take_app_length, drop_app_length. specialize (Hx []). rewrite app_nil_r in Hx.
    by rewrite (from_utf8_decodes _ _ _ Hx stops_nil).
Qed.

Lemma push_bytes_malformed p chunk s r n :
  decodes (pending_utf8 p ++ chunk) s r -> decode_step r = Malformed n ->
  push_bytes p chunk =
  (p, Err (InvalidUtf8 (length (pending_utf8 p ++ chunk) - length r) n)).
Proof.
  intros Hd Hm. unfold push_bytes. assert (Hs : stops r) by (intros ? ?; by rewrite Hm).
  rewrite (from_utf8_decodes _ _ _ Hd Hs). destruct r as [|b r]; [done|].
  rewrite Hm. cbn [error_len valid_up_to]. rewrite take_app_length. by destruct p.
Qed.

(** A failed push leaves the parser as it was. *)
Lemma push_bytes_rollback p chunk p' e : push_bytes p chunk = (p', Err e) -> p' = p.
Proof.
  unfold push_bytes. rewrite take_app_length. intros H.
  repeat case_match; simplify_eq; by destruct p.
Qed.

(** One push: what it decodes and what is left for the following bytes. *)
Lemma push_bytes_split p chunk more s r :
  decodes (pending_utf8 p ++ chunk ++ more) s r -> stops r ->
  exists s1 r1, decodes (pending_utf8 p ++ chunk) s1 r1 /\
    ((decode_step r1 = Truncated /\ exists s2, s = s1 ++ s2 /\ decodes (r1 ++ more) s2 r) \/
     (exists n, decode_step r1 = Malformed n /\ s = s1 /\ r = r1 ++ more /\ decode_step r = Malformed n)).
Proof.
  intros Hd Hs. destruct (from_utf8_spec (pending_utf8 p ++ chunk)) as (s1 & r1 & Hd1 & Hs1 & _).
  exists s1, r1. split; [done|]. apply (decodes_app _ _ _ more) in Hd1. rewrite <- app_assoc in Hd1.
  destruct (decodes_confluent _ _ _ _ _ Hd1 Hd Hs) as (s3 & -> & H3).
  pose proof (decode_step_app r1 more) as Happ.
  destruct (decode_step r1) as [c rest|n|] eqn:E; [by edestruct Hs1| |].
  - right. exists n. assert (Hst : stops (r1 ++ more)) by (intros ? ?; by rewrite Happ).
    apply decodes_stops_nil in H3 as [-> ->]; [|done]. by rewrite app_nil_r.
  - left. eauto.
Qed.

(** Bytes that decode are the decoded text. *)
Lemma run_bytes_ok chunks : forall p s,
  parser_ok (utf8_inner p) -> decode_step (pending_utf8 p) = Truncated ->
  decodes (pending_utf8 p ++ concat chunks) s [] ->
  exists o, run_bytes p chunks =
    ({| utf8_inner := fst (run_parser (utf8_inner p) [s]); pending_utf8 := [] |}, Ok o) /\
    same_output o (snd (run_parser (utf8_inner p) [s])).
Proof.
  induction chunks as [|c chunks IH]; intros p s Hok Ht Hd; cbn [concat run_bytes] in *.
  - rewrite app_nil_r in Hd. assert (Hs : stops (pending_utf8 p)) by (intros ? ?; by rewrite Ht).
    apply decodes_stops_nil in Hd as [-> Hp]; [|done]. unfold utf8_finish, run_parser.
    rewrite <- Hp. cbn [push_all]. rewrite push_nil by done. unfold finish_inner.
    destruct (finish (utf8_inner p)) as [i o]. cbn [fst snd].
    rewrite (chunk_append_nil_l chunk_default). by eexists.
  - destruct (push_bytes_split p c (concat chunks) s []) as (s1 & r1 & Hd1 & [[Ht1 (s2 & -> & Hd2)]|Hbad]);
      [done|done| |].
    + rewrite (push_bytes_ok _ _ _ _ Hok Hd1 Ht1).
      pose proof (push_app (utf8_inner p) s1 s2 Hok) as Happ.
      pose proof (push_ok (utf8_inner p) s1 Hok) as Hok1.
      destruct (push_str (utf8_inner p) s1) as [i1 o1]. simpl in Hok1.
      destruct (IH {| utf8_inner := i1; pending_utf8 := r1 |} s2) as (o & -> & Ho); [done..|].
      eexists. simpl in Ho |- *. unfold run_parser in *. cbn [push_all] in *.
      destruct (push_str i1 s2) as [i2 o2], (push_str (utf8_inner p) (s1 ++ s2)) as [i3 o3].
      destruct Happ as (-> & Hv & He). destruct (finish i2) as [i4 o4]. simpl in *.
      split; [done|]. rewrite Ho, !chunk_append_nil_r. split; simpl.
      * by rewrite Hv, app_assoc.
      * by rewrite He, app_assoc.
    + destruct Hbad as (n & Hm & _ & Heq & Hm'). by destruct r1.
Qed.

Lemma run_bytes_err chunks : forall p s r,
  parser_ok (utf8_inner p) -> decode_step (pending_utf8 p) = Truncated ->
  decodes (pending_utf8 p ++ concat chunks) s r -> stops r -> r <> [] ->
  exists p' e, run_bytes p chunks = (p', Err e) /\
    match decode_step r with
    | Malformed n => exists v, e = InvalidUtf8 v n /\ v <= length (pending_utf8 p ++ concat chunks) - length r
    | _ => e = IncompleteUtf8AtEof
    end.
Proof.
  induction chunks as [|c chunks IH]; intros p s r Hok Ht Hd Hs Hr; cbn [concat run_bytes] in *.
  - rewrite app_nil_r in *. assert (Hst : stops (pending_utf8 p)) by (intros ? ?; by rewrite Ht).
    apply decodes_stops_nil in Hd as [-> ->]; [|done]. unfold utf8_finish. rewrite Ht.
    rewrite (from_utf8_decodes _ _ _ (decodes_nil _) Hst).
    destruct (pending_utf8 p); [done|]. rewrite Ht. cbn. eauto.
  - destruct (push_bytes_split p c (concat chunks) s r) as (s1 & r1 & Hd1 & [[Ht1 (s2 & -> & Hd2)]|Hbad]);
      [done|done| |].
    + rewrite (push_bytes_ok _ _ _ _ Hok Hd1 Ht1).
      pose proof (push_ok (utf8_inner p) s1 Hok) as Hok1.
      destruct (push_str (utf8_inner p) s1) as [i1 o1]. simpl in Hok1.
      destruct (IH {| utf8_inner := i1; pending_utf8 := r1 |} s2 r) as (p' & e & -> & He); [done..|].
      exists p', e. split; [done|]. destruct (decode_step r) as [|n|]; [done| |done].
      destruct He as (v & -> & Hv). exists v. split; [done|]. simpl in Hv.
      destruct (decodes_prefix _ _ _ Hd1) as (pre & Heq & _).
      etrans; [exact Hv|]. rewrite app_assoc, Heq, !length_app. lia.
    + destruct Hbad as (n & Hm & -> & -> & ->).
      rewrite (push_bytes_malformed _ _ _ _ _ Hd1 Hm). do 2 eexists. split; [done|].
      eexists. split; [done|]. rewrite !length_app. lia.
Qed.

(** ** Properties *)

(** Bytes that are valid UTF-8 give, however they are cut, even within a
    code point, the output and the final state of the inner parser on the
    decoded text, provided the inner parser does not depend on chunks. *)
Theorem utf8_chunks_decode inner chunks text :
  parser_ok inner -> from_utf8 (concat chunks) = Ok text ->
  exists o, run_bytes (utf8_new inner) chunks =
    (utf8_new (fst (run_parser inner [text])), Ok o) /\
    same_output o (snd (run_parser inner [text])).
Proof.
  intros Hok Hu. destruct (from_utf8_spec (concat chunks)) as (s & r & Hd & Hs & Heq).
  rewrite Hu in Heq. destruct r; simplify_eq. by apply (run_bytes_ok chunks (utf8_new inner)).
Qed.

(** Bytes that are not valid UTF-8 are reported: a malformed sequence with
    its length by the push that completes it, a truncated code point at the
    end; and a push that fails leaves the parser as it was, so that the chunk
    is rolled back as a whole. *)
Theorem utf8_errors_reported inner chunks err :
  parser_ok inner -> from_utf8 (concat chunks) = Err err ->
  (exists p' e, run_bytes (utf8_new inner) chunks = (p', Err e) /\
    match error_len err with
    | Some n => exists v, e = InvalidUtf8 v n /\ v <= valid_up_to err
    | None => e = IncompleteUtf8AtEof
    end) /\
  (forall p chunk p' e, push_bytes p chunk = (p', Err e) -> p' = p).
Proof.
  intros Hok Hu. split; [|by intros *; apply push_bytes_rollback].
  destruct (from_utf8_spec (concat chunks)) as (s & r & Hd & Hs & Heq).
  rewrite Hu in Heq. destruct r as [|b r]; [done|]. injection Heq as ->. cbn [error_len valid_up_to].
  destruct (run_bytes_err chunks (utf8_new inner) s (b :: r)) as (p' & e & He & Hm); [done..|].
  exists p', e. split; [done|]. cbn [utf8_new pending_utf8 app] in Hm. revert Hm.
  destruct (decode_step (b :: r)) eqn:E; [by destruct (Hs _ _ E)|exact id|done].
Qed.
End Facts.

(** A citation whose body is one code point of two bytes, cut in the middle. *)
Definition cut_bytes : list (list byte) :=
  [s! "x<oai-mem-cita"; s! "tion>" ++ [195%N]; [169%N] ++ s! "</oai-mem-citation>y"].

Lemma utf8_chunks_decode_witness :
  exists o, run_bytes (utf8_new citation_new) cut_bytes = (utf8_new citation_new, Ok o) /\
    visible_text o = s! "xy" /\ extracted o = [[233%N]].
Proof.
  destruct (utf8_chunks_decode citation_new cut_bytes
    (s! "x<oai-mem-citation>" ++ [233%N] ++ s! "</oai-mem-citation>y")) as (o & Ho & Hv & He).
  - apply citation_new_parser_ok.
  - reflexivity.
  - exists o. split; [exact Ho|]. split; [rewrite Hv|etrans; [exact He|]]; reflexivity.
Defined.

Lemma utf8_errors_reported_witness :
  (exists p', run_bytes (utf8_new citation_new) [s! "ab"; [226%N; 130%N]; s! "c"] =
    (p', Err (InvalidUtf8 0 2))) /\
  forall p' e, push_bytes (utf8_new citation_new) [255%N] = (p', Err e) -> p' = utf8_new citation_new.
Proof.
  destruct (utf8_errors_reported citation_new [s! "ab"; [226%N; 130%N]; s! "c"]
    {| valid_up_to := 2; error_len := Some 2 |}) as [(p' & e & He & v & -> & Hv) Hroll].
  - apply citation_new_parser_ok.
  - reflexivity.
  - split; [|intros p2 e2; apply Hroll]. exists p'. rewrite He. vm_compute in He. by simplify_eq.
Defined.
