(* ===== verification/HeadTail.v ===== *)
(** * Capped output: [core/src/unified_exec/head_tail_buffer.rs]

    [HeadTailBuffer] keeps the first and the last bytes of the output of a
    process and counts what it dropped in between.  The abstract state is the
    list of all bytes ever pushed; the buffer is shown to be a function of it. *)

From S2P Require Import Prelude.
From S2P Require Import RustStr.

Abbreviation byte := N.

Record HeadTailBuffer := {
  max_bytes : N;
  head_budget : N;
  tail_budget : N;
  head : list byte;
  tail : list byte;
  omitted_bytes : N;
}.

(** ** Operations *)

Definition UNIFIED_EXEC_OUTPUT_MAX_BYTES : N := 1024 * 1024.

Definition buffer_new (max : N) : HeadTailBuffer :=
  let head_budget := (max / 2)%N in
  {| max_bytes := max; head_budget := head_budget; tail_budget := max - head_budget;
     head := []; tail := []; omitted_bytes := 0 |}.

Definition buffer_default : HeadTailBuffer := buffer_new UNIFIED_EXEC_OUTPUT_MAX_BYTES.

Definition set_contents (b : HeadTailBuffer) (h t : list byte) (omitted : N) : HeadTailBuffer :=
  {| max_bytes := max_bytes b; head_budget := head_budget b; tail_budget := tail_budget b;
     head := h; tail := t; omitted_bytes := omitted |}.

Definition retained_bytes (b : HeadTailBuffer) : N := sat_add (lenN (head b)) (lenN (tail b)).

Definition total_bytes (b : HeadTailBuffer) : N := sat_add (retained_bytes b) (omitted_bytes b).

(** Slices by machine integers. *)
Definition takeN {A} (n : N) (l : list A) : list A := take (N.to_nat n) l.
Definition dropN {A} (n : N) (l : list A) : list A := drop (N.to_nat n) l.

Definition trim_tail_to_budget (b : HeadTailBuffer) : HeadTailBuffer :=
  let excess := (lenN (tail b) - tail_budget b)%N in
  if (0 <? excess)%N then
    set_contents b (head b) (dropN excess (tail b)) (sat_add (omitted_bytes b) excess)
  else b.

Definition push_to_tail (b : HeadTailBuffer) (chunk : list byte) : HeadTailBuffer :=
  if is_empty chunk then b
  else if (tail_budget b =? 0)%N then
    set_contents b (head b) (tail b) (sat_add (omitted_bytes b) (lenN chunk))
  else if (tail_budget b <=? lenN chunk)%N then
    let start := (lenN chunk - tail_budget b)%N in
    let kept := dropN start chunk in
    let dropped := (lenN chunk - lenN kept)%N in
    set_contents b (head b) kept
      (sat_add (sat_add (omitted_bytes b) (lenN (tail b))) dropped)
  else
    trim_tail_to_budget (set_contents b (head b) (tail b ++ chunk) (omitted_bytes b)).

Definition push_chunk (b : HeadTailBuffer) (chunk : list byte) : HeadTailBuffer :=
  if is_empty chunk then b
  else if (max_bytes b =? 0)%N then
    set_contents b (head b) (tail b) (sat_add (omitted_bytes b) (lenN chunk))
  else
    let remaining_head := (head_budget b - lenN (head b))%N in
    let head_len := N.min remaining_head (lenN chunk) in
    let b :=
      if (0 <? head_len)%N then
        set_contents b (head b ++ takeN head_len chunk) (tail b) (omitted_bytes b)
      else b in
    push_to_tail b (dropN head_len chunk).

Definition snapshot_chunks (b : HeadTailBuffer) : list (list byte) :=
  (if is_empty (head b) then [] else [head b]) ++ (if is_empty (tail b) then [] else [tail b]).

Definition to_bytes (b : HeadTailBuffer) : list byte := head b ++ tail b.

Definition format_output_omission_marker (n : N) : str :=
  s! "... " ++ digits_of_N n ++ s! " bytes omitted ...".

(** The marker is ASCII, so its bytes are its characters. *)
Definition to_bytes_with_omission_marker (b : HeadTailBuffer) : list byte :=
  if (omitted_bytes b =? 0)%N then to_bytes b
  else head b ++ [nl] ++ format_output_omission_marker (omitted_bytes b) ++ [nl] ++ tail b.

(** The drained buffer and what remains of this one. *)
Definition drain (b : HeadTailBuffer) : HeadTailBuffer * HeadTailBuffer :=
  (b, set_contents b [] [] 0).

Definition push_buffer (b buffer : HeadTailBuffer) : HeadTailBuffer :=
  let b := push_chunk b (head buffer) in
  let b := push_chunk b (tail buffer) in
  set_contents b (head b) (tail b) (sat_add (omitted_bytes b) (omitted_bytes buffer)).

(** ** The abstract buffer *)

(** The last [n] elements. *)
Definition lastN {A} (n : N) (l : list A) : list A := dropN (lenN l - n) l.

(** What a buffer of capacity [max] keeps of the bytes [s]. *)
Definition abstract (max : N) (s : list byte) : HeadTailBuffer :=
  let hb := (max / 2)%N in
  let tb := (max - hb)%N in
  {| max_bytes := max; head_budget := hb; tail_budget := tb;
     head := takeN hb s; tail := lastN tb (dropN hb s);
     omitted_bytes := N.min USIZE_MAX (lenN s - max) |}.

Lemma lenN_takeN {A} n (l : list A) : lenN (takeN n l) = N.min n (lenN l).
Proof. unfold lenN, takeN. rewrite length_take. lia. Qed.

Lemma lenN_dropN {A} n (l : list A) : lenN (dropN n l) = (lenN l - n)%N.
Proof. unfold lenN, dropN. rewrite length_drop. lia. Qed.

Lemma lenN_lastN {A} n (l : list A) : lenN (lastN n l) = N.min n (lenN l).
Proof. unfold lastN. rewrite lenN_dropN. lia. Qed.

Lemma dropN_app {A} n (a b : list A) : dropN n (a ++ b) = dropN n a ++ dropN (n - lenN a) b.
Proof. unfold dropN. rewrite drop_app. do 2 f_equal. unfold lenN. lia. Qed.

Lemma takeN_app {A} n (a b : list A) : takeN n (a ++ b) = takeN n a ++ takeN (n - lenN a) b.
Proof. unfold takeN. rewrite take_app. do 2 f_equal. unfold lenN. lia. Qed.

Lemma dropN_all {A} n (l : list A) : (lenN l <= n)%N -> dropN n l = [].
Proof. intros H. apply drop_ge. unfold lenN in H. lia. Qed.

Lemma takeN_all {A} n (l : list A) : (lenN l <= n)%N -> takeN n l = l.
Proof. intros H. apply take_ge. unfold lenN in H. lia. Qed.

Lemma dropN_dropN {A} n m (l : list A) : dropN n (dropN m l) = dropN (m + n) l.
Proof. unfold dropN. rewrite drop_drop. f_equal. lia. Qed.

Lemma dropN_0 {A} (l : list A) : dropN 0 l = l.
Proof. done. Qed.

Lemma lenN_0 {A} (l : list A) : lenN l = 0%N <-> l = [].
Proof. destruct l; [done|]. rewrite lenN_cons. split; [lia|done]. Qed.

#[export] Hint Rewrite @lenN_takeN @lenN_dropN @lenN_lastN : dcode.

(** Arithmetic on lengths of slices. *)
Ltac len := autorewrite with dcode in *; unfold sat_add, USIZE_MAX in *; lia.

(** The tail of what was pushed, after one more slice. *)
Lemma lastN_app_short {A} n (m r : list A) :
  (lenN r < n)%N -> lastN n (m ++ r) = dropN (lenN (lastN n m ++ r) - n) (lastN n m ++ r).
Proof.
  intros H. unfold lastN at 1 2 3. rewrite !dropN_app, dropN_dropN.
  f_equal; f_equal; unfold lastN; len.
Qed.

Lemma lastN_app_long {A} n (m r : list A) : (n <= lenN r)%N -> lastN n (m ++ r) = lastN n r.
Proof.
  intros H. unfold lastN. rewrite dropN_app, dropN_all by len. simpl. f_equal. len.
Qed.

Lemma lastN_id {A} n (l : list A) : (lenN l <= n)%N -> lastN n l = l.
Proof. intros H. unfold lastN. replace (lenN l - n)%N with 0%N by lia. apply dropN_0. Qed.

Lemma lastN_0 {A} (l : list A) : lastN 0 l = [].
Proof. unfold lastN. apply dropN_all. lia. Qed.

Lemma push_to_tail_spec b m r :
  tail b = lastN (tail_budget b) m ->
  omitted_bytes b = N.min USIZE_MAX (lenN m - tail_budget b) ->
  push_to_tail b r =
  set_contents b (head b) (lastN (tail_budget b) (m ++ r))
    (N.min USIZE_MAX (lenN (m ++ r) - tail_budget b)).
Proof.
  intros Ht Ho. unfold push_to_tail. destruct (is_empty r) eqn:Er.
  { apply is_empty_true in Er as ->. rewrite app_nil_r, <- Ht, <- Ho. by destruct b. }
  apply is_empty_false in Er. rewrite <- lenN_0 in Er.
  destruct (N.eqb_spec (tail_budget b) 0) as [E|E].
  { rewrite Ht, Ho, E. unfold set_contents. f_equal; [|len].
    by rewrite !lastN_0. }
  destruct (N.leb_spec (tail_budget b) (lenN r)) as [Hle|Hgt].
  - unfold set_contents. f_equal.
    + rewrite lastN_app_long by done. done.
    + rewrite Ht, Ho. len.
  - unfold trim_tail_to_budget, set_contents. simpl.
    destruct (N.ltb_spec 0 (lenN (tail b ++ r) - tail_budget b)) as [Hx|Hx]; f_equal.
    + by rewrite lastN_app_short, Ht.
    + rewrite Ho. rewrite Ht in *. len.
    + rewrite lastN_app_short, <- Ht by done.
      replace (lenN (tail b ++ r) - tail_budget b)%N with 0%N by lia. by rewrite dropN_0.
    + rewrite Ho. rewrite Ht in *. len.
Qed.

Lemma push_chunk_abstract max s c : push_chunk (abstract max s) c = abstract max (s ++ c).
Proof.
  unfold push_chunk. destruct (is_empty c) eqn:Ec.
  { apply is_empty_true in Ec as ->. by rewrite app_nil_r. }
  apply is_empty_false in Ec. rewrite <- lenN_0 in Ec. simpl max_bytes.
  destruct (N.eqb_spec max 0) as [->|Hmax].
  { unfold abstract, set_contents. cbn -[lastN N.sub]. change (0 / 2)%N with 0%N.
    change (0 - 0)%N with 0%N. rewrite !lastN_0. f_equal. len. }
  pose proof (N.Div0.mul_div_le max 2). set (hb := (max / 2)%N) in *.
  set (n := N.min (head_budget (abstract max s) - lenN (head (abstract max s))) (lenN c)).
  assert (Hn : n = N.min (hb - lenN s) (lenN c)) by (unfold n; simpl; len).
  assert (Hdrop : dropN n c = dropN (hb - lenN s) c).
  { rewrite Hn. destruct (N.leb_spec (hb - lenN s) (lenN c)); [f_equal; lia|].
    rewrite !dropN_all by lia. done. }
  assert (Htake : takeN n c = takeN (hb - lenN s) c).
  { rewrite Hn. destruct (N.leb_spec (hb - lenN s) (lenN c)); [f_equal; lia|].
    rewrite !takeN_all by lia. done. }
  rewrite Hdrop.
  assert (Hb : (if (0 <? n)%N then
      set_contents (abstract max s) (head (abstract max s) ++ takeN n c) (tail (abstract max s))
        (omitted_bytes (abstract max s)) else abstract max s) =
    set_contents (abstract max s) (takeN hb (s ++ c)) (tail (abstract max s))
      (omitted_bytes (abstract max s))).
  { rewrite takeN_app, <- Htake. destruct (N.ltb_spec 0 n) as [|Hz]; [done|].
    replace n with 0%N by lia. unfold takeN at 2. simpl. by rewrite app_nil_r. }
  rewrite Hb, (push_to_tail_spec _ (dropN hb s)); simpl.
  - rewrite <- dropN_app. unfold abstract, set_contents. simpl. f_equal.
    fold hb. len.
  - done.
  - fold hb. len.
Qed.

Lemma abstract_nil max : abstract max [] = buffer_new max.
Proof.
  unfold abstract, buffer_new. f_equal; [apply take_nil|].
  unfold lastN, dropN. by rewrite !drop_nil.
Qed.

Lemma push_chunks_abstract max s chunks :
  foldl push_chunk (abstract max s) chunks = abstract max (s ++ concat chunks).
Proof.
  revert s. induction chunks as [|c chunks IH]; intros s; simpl; [by rewrite app_nil_r|].
  by rewrite push_chunk_abstract, IH, app_assoc.
Qed.

(** ** Properties *)

(** C37: Whatever the chunks, the buffer holds the first half of its capacity of
    the bytes pushed, the last of the remaining bytes up to the rest of its
    capacity, and the number of bytes dropped in between, saturated at the
    largest [usize]. *)
Theorem head_tail_refines max chunks :
  let s := concat chunks in
  let b := foldl push_chunk (buffer_new max) chunks in
  b = abstract max s /\
  (retained_bytes b <= max)%N /\
  ((lenN s <= max)%N -> to_bytes_with_omission_marker b = s) /\
  ((max < lenN s <= USIZE_MAX)%N -> omitted_bytes b = (lenN s - max)%N).
Proof.
  intros s b. assert (Hb : b = abstract max s).
  { unfold b. rewrite <- abstract_nil. apply push_chunks_abstract. }
  clearbody b. subst b. pose proof (N.Div0.mul_div_le max 2).
  split; [done|]. unfold retained_bytes, to_bytes_with_omission_marker, to_bytes. cbn -[N.sub N.min].
  split; [len|]. split; intros Hs; [|len].
  replace (N.min USIZE_MAX (lenN s - max)) with 0%N by len. simpl.
  rewrite lastN_id by len. unfold takeN, dropN. apply take_drop.
Qed.

Lemma head_tail_refines_witness :
  let b := foldl push_chunk (buffer_new 5) [s! "abc"; s! "defg"; s! "hi"] in
  to_bytes_with_omission_marker b = s! "ab" ++ [nl] ++ s! "... 4 bytes omitted ..." ++ [nl] ++ s! "ghi"
  /\ omitted_bytes b = 4%N.
Proof.
  destruct (head_tail_refines 5 [s! "abc"; s! "defg"; s! "hi"]) as (Hb & _ & _ & Ho).
  cbv zeta in *. split.
  - rewrite Hb. reflexivity.
  - rewrite Ho; [reflexivity|]. split; [reflexivity|]. vm_compute. discriminate.
Defined.

Lemma push_to_tail_total b c :
  total_bytes (push_to_tail b c) = sat_add (total_bytes b) (lenN c).
Proof.
  unfold push_to_tail. destruct (is_empty c) eqn:Ec.
  { apply is_empty_true in Ec as ->. unfold total_bytes. rewrite lenN_nil. len. }
  destruct (N.eqb_spec (tail_budget b) 0).
  { unfold total_bytes, retained_bytes. simpl. len. }
  destruct (N.leb_spec (tail_budget b) (lenN c)).
  { unfold total_bytes, retained_bytes. simpl. len. }
  unfold trim_tail_to_budget. simpl.
  destruct (N.ltb_spec 0 (lenN (tail b ++ c) - tail_budget b));
    unfold total_bytes, retained_bytes; simpl; len.
Qed.

Lemma push_chunk_total b c : total_bytes (push_chunk b c) = sat_add (total_bytes b) (lenN c).
Proof.
  unfold push_chunk. destruct (is_empty c) eqn:Ec.
  { apply is_empty_true in Ec as ->. unfold total_bytes. rewrite lenN_nil. len. }
  destruct (N.eqb_spec (max_bytes b) 0).
  { unfold total_bytes, retained_bytes. simpl. len. }
  rewrite push_to_tail_total.
  destruct (N.ltb_spec 0 (N.min (head_budget b - lenN (head b)) (lenN c)));
    unfold total_bytes, retained_bytes; simpl; len.
Qed.

(** No byte is lost from the count: pushing a chunk adds its length to the
    total, merging a buffer adds that buffer's total with what it had omitted,
    and draining moves the total to the drained buffer, leaving one that is
    empty and has the same capacity (all sums saturate). *)
Theorem total_bytes_conserved b c other :
  total_bytes (push_chunk b c) = sat_add (total_bytes b) (lenN c) /\
  total_bytes (push_buffer b other) = sat_add (total_bytes b) (total_bytes other) /\
  let '(drained, rest) := drain b in
  total_bytes drained = total_bytes b /\ total_bytes rest = 0%N /\
  max_bytes rest = max_bytes b /\ to_bytes drained = to_bytes b.
Proof.
  split; [apply push_chunk_total|]. split; [|done].
  unfold push_buffer. set (b2 := push_chunk (push_chunk b (head other)) (tail other)).
  assert (H : total_bytes b2 = sat_add (sat_add (total_bytes b) (lenN (head other))) (lenN (tail other)))
    by (unfold b2; by rewrite !push_chunk_total).
  unfold total_bytes, retained_bytes in *. simpl. len.
Qed.
