(* ===== verification/Truncate.v ===== *)
(** * Truncation of text: [utils/string/src/truncate.rs],
      [utils/output-truncation/src/lib.rs] (text part) and the budgets of
      [TruncationPolicy] in [protocol/src/protocol.rs]

    Long output is cut in the middle, on character boundaries.  Byte offsets
    are kept as in the source; slicing off a boundary, which panics in Rust, is
    [None] here. *)

From S2P Require Import Prelude.
From S2P Require Import RustStr.

(** ** Token estimates *)

Definition APPROX_BYTES_PER_TOKEN : N := 4.

Definition approx_token_count (text : str) : N :=
  (sat_add (byte_len text) (APPROX_BYTES_PER_TOKEN - 1) / APPROX_BYTES_PER_TOKEN)%N.

Definition approx_bytes_for_tokens (tokens : N) : N := sat_mul tokens APPROX_BYTES_PER_TOKEN.

Definition approx_tokens_from_byte_count (bytes : N) : N :=
  (sat_add bytes (APPROX_BYTES_PER_TOKEN - 1) / APPROX_BYTES_PER_TOKEN)%N.

Definition I64_MAX : Z := 9223372036854775807.

Definition approx_tokens_from_byte_count_i64 (bytes : Z) : Z :=
  if (bytes <=? 0)%Z then 0%Z
  else Z.min I64_MAX (Z.of_N (approx_tokens_from_byte_count (Z.to_N bytes))).

(** ** Splitting *)

(** [(&s[..n], &s[n..])], [None] when [n] is not a char boundary. *)
Fixpoint split_at_byte (n : N) (s : str) : option (str * str) :=
  if (n =? 0)%N then Some ([], s)
  else match s with
       | [] => None
       | c :: s' =>
           if (len_utf8 c <=? n)%N then
             match split_at_byte (n - len_utf8 c) s' with
             | Some (a, b) => Some (c :: a, b)
             | None => None
             end
           else None
       end.

Record split_state := {
  prefix_end : N;
  suffix_start : N;
  removed_chars : N;
  suffix_started : bool;
}.

(** The loop over [char_indices], from offset [idx]. *)
Fixpoint split_loop (beginning_bytes tail_start_target idx : N) (st : split_state) (s : str)
    : split_state :=
  match s with
  | [] => st
  | ch :: s' =>
      let char_end := (idx + len_utf8 ch)%N in
      let st :=
        if (char_end <=? beginning_bytes)%N then
          {| prefix_end := char_end; suffix_start := suffix_start st;
             removed_chars := removed_chars st; suffix_started := suffix_started st |}
        else if (tail_start_target <=? idx)%N then
          if suffix_started st then st
          else {| prefix_end := prefix_end st; suffix_start := idx;
                  removed_chars := removed_chars st; suffix_started := true |}
        else
          {| prefix_end := prefix_end st; suffix_start := suffix_start st;
             removed_chars := sat_add (removed_chars st) 1; suffix_started := suffix_started st |} in
      split_loop beginning_bytes tail_start_target char_end st s'
  end.

Definition split_string (s : str) (beginning_bytes end_bytes : N) : option (N * str * str) :=
  if is_empty s then Some (0%N, [], [])
  else
    let len := byte_len s in
    let st := split_loop beginning_bytes (len - end_bytes) 0
      {| prefix_end := 0; suffix_start := len; removed_chars := 0; suffix_started := false |} s in
    let suffix_start :=
      if (suffix_start st <? prefix_end st)%N then prefix_end st else suffix_start st in
    match split_at_byte (prefix_end st) s, split_at_byte suffix_start s with
    | Some (before, _), Some (_, after) => Some (removed_chars st, before, after)
    | _, _ => None
    end.

Definition split_budget (budget : N) : N * N :=
  let half := (budget / 2)%N in (half, budget - half)%N.

(** ** Truncation *)

Definition ellipsis : char := 8230%N.

Definition format_truncation_marker (use_tokens : bool) (removed_count : N) : str :=
  [ellipsis] ++ digits_of_N removed_count ++
  (if use_tokens then s! " tokens truncated" else s! " chars truncated") ++ [ellipsis].

Definition removed_units (use_tokens : bool) (removed_bytes removed_chars : N) : N :=
  if use_tokens then approx_tokens_from_byte_count removed_bytes else removed_chars.

Definition assemble_truncated_output (prefix suffix marker : str) : str :=
  prefix ++ marker ++ suffix.

Definition truncate_with_byte_estimate (s : str) (max_bytes : N) (use_tokens : bool) : option str :=
  if is_empty s then Some []
  else if (max_bytes =? 0)%N then
    Some (format_truncation_marker use_tokens (removed_units use_tokens (byte_len s) (lenN s)))
  else if (byte_len s <=? max_bytes)%N then Some s
  else
    let '(left_budget, right_budget) := split_budget max_bytes in
    match split_string s left_budget right_budget with
    | None => None
    | Some (removed, prefix, suffix) =>
        let marker := format_truncation_marker use_tokens
          (removed_units use_tokens (byte_len s - max_bytes) removed) in
        Some (assemble_truncated_output prefix suffix marker)
    end.

Definition truncate_middle_chars (s : str) (max_bytes : N) : option str :=
  truncate_with_byte_estimate s max_bytes false.

Definition truncate_middle_with_token_budget (s : str) (max_tokens : N)
    : option (str * option N) :=
  if is_empty s then Some ([], None)
  else if (0 <? max_tokens)%N && (byte_len s <=? approx_bytes_for_tokens max_tokens)%N then
    Some (s, None)
  else
    match truncate_with_byte_estimate s (approx_bytes_for_tokens max_tokens) true with
    | None => None
    | Some truncated =>
        if str_eqb truncated s then Some (truncated, None)
        else Some (truncated, Some (approx_token_count s))
    end.

(** ** Policies *)

Inductive TruncationPolicy := Bytes (bytes : N) | Tokens (tokens : N).

Definition token_budget (p : TruncationPolicy) : N :=
  match p with
  | Bytes bytes => approx_tokens_from_byte_count bytes
  | Tokens tokens => tokens
  end.

Definition byte_budget (p : TruncationPolicy) : N :=
  match p with
  | Bytes bytes => bytes
  | Tokens tokens => approx_bytes_for_tokens tokens
  end.

Definition truncate_text (content : str) (policy : TruncationPolicy) : option str :=
  match policy with
  | Bytes bytes => truncate_middle_chars content bytes
  | Tokens tokens => fst <$> truncate_middle_with_token_budget content tokens
  end.

Definition formatted_truncate_text (content : str) (policy : TruncationPolicy) : option str :=
  if (byte_len content <=? byte_budget policy)%N then Some content
  else
    match truncate_text content policy with
    | None => None
    | Some result =>
        Some (s! "Warning: truncated output (original token count: "
              ++ digits_of_N (approx_token_count content) ++ s! ")" ++ [nl]
              ++ s! "Total output lines: " ++ digits_of_N (lenN (lines content)) ++ [nl] ++ [nl]
              ++ result)
    end.

Example truncate_example :
  truncate_middle_chars (s! "abcdefghij") 4 =
  Some (s! "ab" ++ format_truncation_marker false 6 ++ s! "ij").
Proof. reflexivity. Qed.

(** ** Splitting: lemmas *)

Lemma split_at_byte_app a b : split_at_byte (byte_len a) (a ++ b) = Some (a, b).
Proof.
  induction a as [|c a IH]; simpl; [by destruct b|].
  pose proof (len_utf8_pos c). destruct (N.eqb_spec (len_utf8 c + byte_len a) 0); [lia|].
  destruct (N.leb_spec (len_utf8 c) (len_utf8 c + byte_len a)); [|lia].
  replace (len_utf8 c + byte_len a - len_utf8 c)%N with (byte_len a) by lia. by rewrite IH.
Qed.

Section Split.
Context (b t total : N).

(** What the loop knows after the characters [before ++ mid ++ after]. *)
Record split_inv (before mid after : str) (st : split_state) : Prop := {
  inv_prefix : prefix_end st = byte_len before;
  inv_removed : removed_chars st = N.min USIZE_MAX (lenN mid);
  inv_fits : (byte_len before <= b)%N;
  inv_full : forall c r, mid ++ after = c :: r -> (b < byte_len before + len_utf8 c)%N;
  inv_mid : forall m c, mid = m ++ [c] -> (byte_len (before ++ m) < t)%N;
  inv_suffix :
    if suffix_started st
    then suffix_start st = byte_len (before ++ mid) /\ (t <= byte_len (before ++ mid))%N /\
      after <> []
    else suffix_start st = total /\ after = [];
}.

Lemma split_loop_inv s : forall before mid after st,
  split_inv before mid after st ->
  exists before' mid' after', before' ++ mid' ++ after' = before ++ mid ++ after ++ s /\
    split_inv before' mid' after' (split_loop b t (byte_len (before ++ mid ++ after)) st s).
Proof.
  induction s as [|ch s IH]; intros before mid after st Hinv.
  { exists before, mid, after. rewrite app_nil_r. done. }
  cbn [split_loop]. remember (byte_len (before ++ mid ++ after)) as idx eqn:Hidx.
  assert (Hend : forall x, byte_len (x ++ [ch]) = (byte_len x + len_utf8 ch)%N)
    by (intros; rewrite byte_len_app; simpl; lia).
  destruct Hinv as [Hp Hr Hfit Hfull Hmid Hsuf]. pose proof (len_utf8_pos ch) as Hch.
  destruct (N.leb_spec (idx + len_utf8 ch) b) as [Hb|Hb].
  - assert (Hnil : mid ++ after = []).
    { destruct (mid ++ after) as [|c r] eqn:E; [done|]. specialize (Hfull c r eq_refl).
      rewrite byte_len_app in Hidx. simpl in Hidx. lia. }
    apply app_eq_nil in Hnil as [-> ->]. rewrite !app_nil_r in Hidx.
    destruct (suffix_started st) eqn:Hst; [by destruct Hsuf as (_ & _ & ?)|].
    edestruct (IH (before ++ [ch]) [] []) as (x & y & z & Heq & Hinv);
      [|exists x, y, z; rewrite !app_nil_r, Hend, <- Hidx in Hinv; split; [|exact Hinv]].
    + split; simpl; rewrite ?Hend, <- ?Hidx; try done. intros [|? []] ?; done.
    + rewrite Heq. simpl. by rewrite <- app_assoc.
  - assert (Hfull' : forall c r, mid ++ after ++ [ch] = c :: r ->
      (b < byte_len before + len_utf8 c)%N).
    { intros c r Heq. rewrite app_assoc in Heq. destruct (mid ++ after) as [|d l] eqn:E.
      - simpl in Heq. injection Heq as <- _. by rewrite app_nil_r in Hidx; subst idx.
      - injection Heq as <- _. by eapply Hfull. }
    destruct (N.leb_spec t idx) as [Ht|Ht].
    + edestruct (IH before mid (after ++ [ch])) as (x & y & z & Heq & Hinv);
        [|exists x, y, z; rewrite !app_assoc in Hinv; rewrite Hend, <- !app_assoc, <- Hidx in Hinv;
          split; [|exact Hinv]].
      * destruct (suffix_started st) eqn:Hst.
        { destruct Hsuf as (Hs & Hle & Hne). split; try done. rewrite Hst.
          split; [done|]. split; [done|]. by destruct after. }
        destruct Hsuf as [Hs ->]. rewrite app_nil_r in Hidx. subst idx.
        split; simpl; try done.
      * rewrite Heq. by rewrite <- !app_assoc.
    + assert (Haft : after = [] /\ suffix_started st = false /\ suffix_start st = total).
      { destruct (suffix_started st); [|naive_solver]. destruct Hsuf as (_ & Hle & _).
        rewrite app_assoc, byte_len_app in Hidx. lia. }
      destruct Haft as (-> & Hst & Hs). rewrite app_nil_r in Hidx. simpl in Hfull'.
      edestruct (IH before (mid ++ [ch]) []) as (x & y & z & Heq & Hinv);
        [|exists x, y, z; rewrite app_nil_r, app_assoc, Hend, <- Hidx in Hinv;
          split; [|exact Hinv]].
      * split; simpl; rewrite ?Hst, ?app_nil_r; try done.
        -- rewrite Hr. autorewrite with dcode. unfold sat_add, USIZE_MAX. lia.
        -- intros m c Hm. apply app_inj_tail in Hm as [-> ->]. by rewrite <- Hidx.
      * rewrite Heq. simpl. by rewrite <- !app_assoc.
Qed.
End Split.

(** The pieces of a split, and that nothing more would fit. *)
Lemma split_string_spec s b e :
  exists before mid after,
    split_string s b e = Some (N.min USIZE_MAX (lenN mid), before, after) /\
    s = before ++ mid ++ after /\ (byte_len before <= b)%N /\ (byte_len after <= e)%N /\
    (forall c r, mid = c :: r -> (b < byte_len before + len_utf8 c)%N) /\
    (forall m c, mid = m ++ [c] -> (e < len_utf8 c + byte_len after)%N).
Proof.
  unfold split_string. destruct (is_empty s) eqn:E.
  { apply is_empty_true in E as ->. exists [], [], []. simpl. repeat split; try lia; try done.
    intros [] ? ?; done. }
  apply is_empty_false in E.
  destruct (split_loop_inv b (byte_len s - e) (byte_len s) s [] [] []
    {| prefix_end := 0; suffix_start := byte_len s; removed_chars := 0; suffix_started := false |})
    as (before & mid & after & Heq & Hinv).
  { split; simpl; try done; try lia. intros [] ? ?; done. }
  simpl in Heq, Hinv. set (st := split_loop _ _ _ _ _) in *.
  destruct Hinv as [Hp Hr Hfit Hfull Hmid Hsuf]. subst s.
  assert (Hs : suffix_start st = byte_len (before ++ mid) /\
    (after = [] \/ byte_len (before ++ mid ++ after) - e <= byte_len (before ++ mid))%N).
  { destruct (suffix_started st); [naive_solver|]. destruct Hsuf as [-> ->].
    rewrite app_nil_r. by auto. }
  destruct Hs as [Hs Ha]. rewrite Hs, Hp.
  destruct (N.ltb_spec (byte_len (before ++ mid)) (byte_len before)) as [Hlt|Hge].
  { rewrite byte_len_app in Hlt. lia. }
  rewrite split_at_byte_app, app_assoc, split_at_byte_app, <- app_assoc, Hr.
  exists before, mid, after. split; [done|]. split; [done|]. split; [done|].
  rewrite !byte_len_app in *. split; [|split].
  - destruct Ha as [->|Ha]; simpl; lia.
  - intros c r ->. by eapply Hfull.
  - intros m c Hm. specialize (Hmid m c Hm). subst mid. rewrite !byte_len_app in *. simpl in *. lia.
Qed.

Lemma lenN_le_byte_len s : (lenN s <= byte_len s)%N.
Proof. apply byte_len_ge_length. Qed.

Lemma byte_len_0 s : byte_len s = 0%N -> s = [].
Proof. destruct s as [|c s]; [done|]. simpl. pose proof (len_utf8_pos c). lia. Qed.

(** The shape of a truncated text: at most [max] bytes of it are kept, and no
    more than six fewer. *)
Definition truncated_as (s : str) (max : N) (marker : str -> str) (out : str) : Prop :=
  exists before mid after, s = before ++ mid ++ after /\ mid <> [] /\
    out = before ++ marker mid ++ after /\
    (max - 6 <= byte_len before + byte_len after <= max)%N.

Lemma truncate_with_byte_estimate_spec s max use_tokens :
  (byte_len s <= USIZE_MAX)%N ->
  if (byte_len s <=? max)%N then truncate_with_byte_estimate s max use_tokens = Some s
  else exists out, truncate_with_byte_estimate s max use_tokens = Some out /\
    truncated_as s max (fun mid => format_truncation_marker use_tokens
      (removed_units use_tokens (byte_len s - max) (lenN mid))) out.
Proof.
  intros Hmax. unfold truncate_with_byte_estimate, split_budget.
  destruct (is_empty s) eqn:Es.
  { apply is_empty_true in Es as ->. simpl. by destruct (N.leb_spec 0 max); [|lia]. }
  apply is_empty_false in Es.
  destruct (N.leb_spec (byte_len s) max) as [Hle|Hgt], (N.eqb_spec max 0) as [->|Hm]; try done.
  - destruct Es. apply byte_len_0. lia.
  - eexists. split; [done|]. exists [], s, []. rewrite !app_nil_r, N.sub_0_r. simpl.
    repeat split; [done|lia|lia].
  - destruct (split_string_spec s (max / 2) (max - max / 2))
      as (before & mid & after & -> & Heq & Hb & Ha & Hfirst & Hlast).
    eexists. split; [done|]. exists before, mid, after. unfold assemble_truncated_output.
    pose proof (N.Div0.mul_div_le max 2). pose proof (lenN_le_byte_len mid).
    assert (Hlen : byte_len s = (byte_len before + byte_len mid + byte_len after)%N)
      by (rewrite Heq, !byte_len_app; lia).
    split; [done|]. rewrite N.min_r by lia.
    assert (Hne : mid <> []) by (intros ->; simpl in Hlen; lia).
    split; [done|]. split; [done|].
    destruct mid as [|c r]; [done|]. specialize (Hfirst c r eq_refl).
    destruct (exists_last Hne) as (m & d & Hd). specialize (Hlast m d Hd).
    pose proof (len_utf8_pos c). pose proof (len_utf8_pos d). lia.
Qed.

(** The slices are always at character boundaries: truncation never panics. *)
Lemma truncate_text_total s p : is_Some (truncate_text s p).
Proof.
  assert (H : forall max use_tokens, is_Some (truncate_with_byte_estimate s max use_tokens)).
  { intros max use_tokens. unfold truncate_with_byte_estimate, split_budget.
    destruct (is_empty s); [done|]. destruct (max =? 0)%N; [done|]. destruct (byte_len s <=? max)%N; [done|].
    by destruct (split_string_spec s (max / 2) (max - max / 2)) as (before & mid & after & -> & _). }
  destruct p as [max|k]; simpl; [apply H|]. apply fmap_is_Some. unfold truncate_middle_with_token_budget.
  destruct (is_empty s); [done|]. destruct (_ && _); [done|].
  destruct (H (approx_bytes_for_tokens k) true) as [t ->]. by destruct (str_eqb t s).
Qed.

(** Rounding up to tokens of four bytes, below the largest [usize]. *)
Lemma approx_tokens_ceil n :
  (n + 3 <= USIZE_MAX)%N -> approx_tokens_from_byte_count n = ((n + 3) / 4)%N.
Proof.
  intros H. unfold approx_tokens_from_byte_count, APPROX_BYTES_PER_TOKEN.
  by rewrite sat_add_exact.
Qed.

Lemma truncate_token_budget_cases s k :
  (byte_len s + 3 <= USIZE_MAX)%N ->
  let budget := approx_bytes_for_tokens k in
  if (byte_len s <=? budget)%N then truncate_middle_with_token_budget s k = Some (s, None)
  else exists out,
    truncate_middle_with_token_budget s k =
      Some (out, if str_eqb out s then None else Some ((byte_len s + 3) / 4)%N) /\
    truncated_as s budget (fun _ =>
      format_truncation_marker true ((byte_len s - budget + 3) / 4)%N) out.
Proof.
  intros Hlen budget. unfold truncate_middle_with_token_budget. fold budget.
  pose proof (truncate_with_byte_estimate_spec s budget true ltac:(lia)) as Hspec.
  destruct (N.leb_spec (byte_len s) budget) as [Hle|Hgt].
  - destruct (is_empty s) eqn:Es; [by apply is_empty_true in Es as ->|].
    destruct (N.ltb_spec 0 k) as [|Hk]; [done|]. apply is_empty_false in Es. destruct Es.
    apply byte_len_0. assert (k = 0%N) as -> by lia.
    change budget with 0%N in Hle. lia.
  - destruct (is_empty s) eqn:Es; [apply is_empty_true in Es as ->; simpl in Hgt; lia|].
    rewrite andb_false_r. destruct Hspec as (out & -> & Hout). exists out.
    unfold approx_token_count. fold (approx_tokens_from_byte_count (byte_len s)).
    rewrite approx_tokens_ceil by lia. split; [by destruct (str_eqb out s)|].
    unfold removed_units in Hout. by rewrite approx_tokens_ceil in Hout by lia.
Qed.

(** ** Properties *)

(** C38: Truncation to a number of bytes returns the text itself when it fits;
    otherwise it keeps a prefix and a suffix of it, cut between characters, of
    together at most [max] and at least [max - 6] bytes, around a marker with
    the number of characters that were removed. *)
Theorem truncate_middle_chars_spec s max :
  (byte_len s <= USIZE_MAX)%N ->
  if (byte_len s <=? max)%N then truncate_middle_chars s max = Some s
  else exists out, truncate_middle_chars s max = Some out /\
    truncated_as s max (fun mid => format_truncation_marker false (lenN mid)) out.
Proof. apply truncate_with_byte_estimate_spec. Qed.

Lemma truncate_middle_chars_spec_witness :
  exists out, truncate_middle_chars (s! "hello world") 5 = Some out /\
    truncated_as (s! "hello world") 5 (fun mid => format_truncation_marker false (lenN mid)) out.
Proof.
  exact (truncate_middle_chars_spec (s! "hello world") 5 ltac:(vm_compute; discriminate)).
Defined.

(** Truncation to a number of tokens of about four bytes leaves a text that
    fits and reports no count; otherwise the text is cut in the same way to the
    bytes of the budget, the marker gives the tokens removed, and the token
    count of the whole text, rounded up, is returned unless the result happens
    to be the text itself. *)
Theorem truncate_token_budget_spec s k :
  (byte_len s + 3 <= USIZE_MAX)%N ->
  let budget := approx_bytes_for_tokens k in
  if (byte_len s <=? budget)%N then truncate_middle_with_token_budget s k = Some (s, None)
  else exists out,
    truncate_middle_with_token_budget s k =
      Some (out, if str_eqb out s then None else Some ((byte_len s + 3) / 4)%N) /\
    truncated_as s budget (fun _ =>
      format_truncation_marker true ((byte_len s - budget + 3) / 4)%N) out.
Proof. apply truncate_token_budget_cases. Qed.

Lemma truncate_token_budget_spec_witness :
  exists out, truncate_middle_with_token_budget (s! "hello world") 2 = Some (out, Some 3%N) /\
    truncated_as (s! "hello world") 8 (fun _ => format_truncation_marker true 1) out.
Proof.
  destruct (truncate_token_budget_spec (s! "hello world") 2 ltac:(vm_compute; discriminate))
    as (out & Ho & Ht).
  exists out. split; [|exact Ht]. rewrite Ho. vm_compute in Ho. injection Ho as <-. reflexivity.
Defined.
