(* ===== verification/OutputItems.v ===== *)
(** * Truncation of tool output: [utils/output-truncation/src/lib.rs]

    The content items a tool returns are fitted into a budget: text is kept in
    order and cut where the budget ends, images and encrypted content always
    stay, audio stays while it fits.  The token count of an audio item comes
    from the caller. *)

From S2P Require Import Prelude.
From S2P Require Import RustStr.
From S2P Require Import Truncate.

Inductive ImageDetail := DetailAuto | DetailLow | DetailHigh | DetailOriginal.

Inductive FunctionCallOutputContentItem :=
| InputText (text : str)
| InputImage (image_url : str) (detail : option ImageDetail)
| InputAudio (audio_url : str)
| EncryptedContent (encrypted_content : str).

Abbreviation item := FunctionCallOutputContentItem.

(** ** Operations *)

Definition item_text (i : item) : option str :=
  match i with InputText text => Some text | _ => None end.

Definition text_segments (items : list item) : list str := omap item_text items.

(** The loop that joins the text segments with newlines. *)
Definition combine_segments (segments : list str) : str :=
  foldl (fun combined text => (if is_empty combined then combined else combined ++ [nl]) ++ text)
    [] segments.

Definition not_text (i : item) : option item :=
  match i with InputText _ => None | _ => Some i end.

Definition formatted_truncate_text_content_items_with_policy (items : list item)
    (policy : TruncationPolicy) : option (list item * option N) :=
  let segments := text_segments items in
  if is_empty segments then Some (items, None)
  else
    let combined := combine_segments segments in
    if (byte_len combined <=? byte_budget policy)%N then Some (items, None)
    else
      match formatted_truncate_text combined policy with
      | None => None
      | Some text =>
          Some (InputText text :: omap not_text items, Some (approx_token_count combined))
      end.

Record items_state := {
  out : list item;
  remaining_budget : N;
  omitted_text_items : N;
  omitted_audio_items : N;
}.

(** The policy for the snippet that still fits. *)
Definition snippet_policy (policy : TruncationPolicy) (remaining : N) : TruncationPolicy :=
  match policy with Bytes _ => Bytes remaining | Tokens _ => Tokens remaining end.

Definition text_cost (policy : TruncationPolicy) (text : str) : N :=
  match policy with Bytes _ => byte_len text | Tokens _ => approx_token_count text end.

Definition audio_cost (policy : TruncationPolicy) (estimate : str -> N) (url : str) : N :=
  match policy with
  | Bytes _ => approx_bytes_for_tokens (estimate url)
  | Tokens _ => estimate url
  end.

Definition keep (st : items_state) (i : item) (remaining : N) : items_state :=
  {| out := out st ++ [i]; remaining_budget := remaining;
     omitted_text_items := omitted_text_items st; omitted_audio_items := omitted_audio_items st |}.

Definition omit_text (st : items_state) (remaining : N) : items_state :=
  {| out := out st; remaining_budget := remaining;
     omitted_text_items := omitted_text_items st + 1; omitted_audio_items := omitted_audio_items st |}.

Definition omit_audio (st : items_state) : items_state :=
  {| out := out st; remaining_budget := remaining_budget st;
     omitted_text_items := omitted_text_items st; omitted_audio_items := omitted_audio_items st + 1 |}.

(** One iteration of the loop; [None] is the panic of a bad slice. *)
Definition item_step (policy : TruncationPolicy) (estimate : str -> N) (st : items_state) (i : item)
    : option items_state :=
  let remaining := remaining_budget st in
  match i with
  | InputText text =>
      if (remaining =? 0)%N then Some (omit_text st 0)
      else
        let cost := text_cost policy text in
        if (cost <=? remaining)%N then Some (keep st (InputText text) (remaining - cost))
        else
          match truncate_text text (snippet_policy policy remaining) with
          | None => None
          | Some snippet =>
              if is_empty snippet then Some (omit_text st 0)
              else Some (keep st (InputText snippet) 0)
          end
  | InputImage image_url detail => Some (keep st (InputImage image_url detail) remaining)
  | InputAudio audio_url =>
      let cost := audio_cost policy estimate audio_url in
      if (cost <=? remaining)%N then Some (keep st (InputAudio audio_url) (remaining - cost))
      else Some (omit_audio st)
  | EncryptedContent encrypted_content =>
      Some (keep st (EncryptedContent encrypted_content) remaining)
  end.

Fixpoint items_loop (policy : TruncationPolicy) (estimate : str -> N) (st : items_state)
    (items : list item) : option items_state :=
  match items with
  | [] => Some st
  | i :: rest =>
      match item_step policy estimate st i with
      | None => None
      | Some st => items_loop policy estimate st rest
      end
  end.

Definition omitted_marker (n : N) (kind : str) : list item :=
  if (0 <? n)%N then [InputText (s! "[omitted " ++ digits_of_N n ++ s! " " ++ kind ++ s! " items ...]")]
  else [].

Definition initial_budget (policy : TruncationPolicy) : N :=
  match policy with Bytes _ => byte_budget policy | Tokens _ => token_budget policy end.

Definition truncate_function_output_items_with_policy (items : list item)
    (policy : TruncationPolicy) (estimate_audio_token_count : str -> N) : option (list item) :=
  match items_loop policy estimate_audio_token_count
          {| out := []; remaining_budget := initial_budget policy;
             omitted_text_items := 0; omitted_audio_items := 0 |} items with
  | None => None
  | Some st =>
      Some (out st ++ omitted_marker (omitted_text_items st) (s! "text")
            ++ omitted_marker (omitted_audio_items st) (s! "audio"))
  end.

Lemma truncate_items_total items policy estimate :
  is_Some (truncate_function_output_items_with_policy items policy estimate).
Proof.
  unfold truncate_function_output_items_with_policy.
  enough (forall st, is_Some (items_loop policy estimate st items)) as H
    by (destruct (H {| out := []; remaining_budget := initial_budget policy;
                       omitted_text_items := 0; omitted_audio_items := 0 |}) as [st ->]; done).
  induction items as [|i items IH]; intros st; simpl; [done|].
  enough (is_Some (item_step policy estimate st i)) as [st' ->] by apply IH.
  destruct i as [text| |url|]; simpl; try done; [|by destruct (_ <=? _)%N].
  destruct (_ =? 0)%N; [done|]. destruct (_ <=? _)%N; [done|].
  destruct (truncate_text_total text (snippet_policy policy (remaining_budget st))) as [t ->].
  by destruct (is_empty t).
Qed.

(** ** What is kept *)

Definition item_audio (i : item) : option str :=
  match i with InputAudio url => Some url | _ => None end.

(** Images and encrypted content. *)
Definition item_media (i : item) : option item :=
  match i with InputImage _ _ | EncryptedContent _ => Some i | _ => None end.

Definition sumN (l : list N) : N := foldr N.add 0%N l.

Lemma sumN_cons x l : sumN (x :: l) = (x + sumN l)%N.
Proof. done. Qed.

Section Kept.
Context (policy : TruncationPolicy) (estimate : str -> N).

(** [kept] is what a budget of [r] leaves of [items]; [nt] text and [na] audio
    items are left out. *)
Record kept_within (r : N) (items kept : list item) (nt na : N) : Prop := {
  kept_media : omap item_media kept = omap item_media items;
  kept_texts_count : lenN (text_segments items) = (lenN (text_segments kept) + nt)%N;
  kept_audio_count : lenN (omap item_audio items) = (lenN (omap item_audio kept) + na)%N;
  kept_audio_order : omap item_audio kept `sublist_of` omap item_audio items;
  kept_text : exists n,
    (sumN (text_cost policy <$> take n (text_segments items))
     + sumN (audio_cost policy estimate <$> omap item_audio kept) <= r)%N /\
    (text_segments kept = take n (text_segments items) \/
     exists t snippet remaining, text_segments items !! n = Some t /\
       text_segments kept = take n (text_segments items) ++ [snippet] /\
       (0 < remaining < text_cost policy t)%N /\ (remaining <= r)%N /\
       truncate_text t (snippet_policy policy remaining) = Some snippet);
}.

Lemma truncate_text_some t r :
  (byte_len t + 3 <= USIZE_MAX)%N -> (0 < r < text_cost policy t)%N ->
  exists s, truncate_text t (snippet_policy policy r) = Some s /\ s <> [].
Proof.
  intros Ht Hr. unfold truncate_text, snippet_policy, text_cost in *.
  assert (Hmark : forall u n a b, a ++ format_truncation_marker u n ++ b <> []).
  { intros u n a b H. apply app_eq_nil in H as [_ H]. done. }
  destruct policy as [m|m].
  - pose proof (truncate_with_byte_estimate_spec t r false ltac:(lia)) as H.
    destruct (N.leb_spec (byte_len t) r); [lia|]. destruct H as (s & Hs & a & m' & b & _ & _ & -> & _).
    exists (a ++ format_truncation_marker false (lenN m') ++ b). split; [exact Hs|apply Hmark].
  - pose proof (truncate_token_budget_cases t r Ht) as H. cbv zeta in H.
    destruct (N.leb_spec (byte_len t) (approx_bytes_for_tokens r)).
    + rewrite H. exists t. split; [done|]. intros ->. vm_compute in Hr. by destruct Hr, r.
    + destruct H as (s & -> & a & m' & b & _ & _ & -> & _). eexists. split; [done|apply Hmark].
Qed.

(** The selections of a list with one more item in front. *)
Ltac segments :=
  unfold text_segments in *; rewrite ?omap_cons_eq; cbn [item_text item_audio item_media].

(** Keeping one more item in front. *)
Lemma kept_within_media r i items kept nt na :
  item_media i = Some i -> kept_within r items kept nt na ->
  kept_within r (i :: items) (i :: kept) nt na.
Proof.
  intros Hi [H1 H2 H3 H4 H5].
  destruct i; simplify_eq; split; segments; auto; by f_equal.
Qed.

Lemma kept_within_text r t items kept nt na :
  (text_cost policy t <= r)%N ->
  kept_within (r - text_cost policy t) items kept nt na ->
  kept_within r (InputText t :: items) (InputText t :: kept) nt na.
Proof.
  intros Hc [H1 H2 H3 H4 (n & Hsum & H5)]. split; segments; auto.
  - rewrite !lenN_cons. lia.
  - exists (S n). cbn [take]. rewrite fmap_cons, sumN_cons. split; [lia|].
    destruct H5 as [->|(t' & s & rem & Hl & -> & Hrem & Hle & Ht)]; [by left|].
    right. exists t', s, rem. simpl. repeat split; try done; lia.
Qed.

Lemma kept_within_cut r t s items kept nt na :
  (0 < r < text_cost policy t)%N -> truncate_text t (snippet_policy policy r) = Some s ->
  kept_within 0 items kept nt na -> text_segments kept = [] ->
  kept_within r (InputText t :: items) (InputText s :: kept) nt na.
Proof.
  intros Hr Ht [H1 H2 H3 H4 (n & Hsum & H5)] Hnil. split; segments; auto.
  - rewrite !lenN_cons. lia.
  - exists 0. cbn [take fmap list_fmap sumN foldr]. split; [lia|]. right. exists t, s, r. rewrite Hnil. repeat split; try done; lia.
Qed.

Lemma kept_within_drop t items kept nt na :
  kept_within 0 items kept nt na -> text_segments kept = [] ->
  kept_within 0 (InputText t :: items) kept (nt + 1) na.
Proof.
  intros [H1 H2 H3 H4 (n & Hsum & H5)] Hnil. split; segments; auto.
  - rewrite lenN_cons. lia.
  - exists 0. cbn [take fmap list_fmap sumN foldr]. rewrite Hnil. split; [lia|by left].
Qed.

Lemma kept_within_audio r u items kept nt na :
  (audio_cost policy estimate u <= r)%N ->
  kept_within (r - audio_cost policy estimate u) items kept nt na ->
  kept_within r (InputAudio u :: items) (InputAudio u :: kept) nt na.
Proof.
  intros Hc [H1 H2 H3 H4 (n & Hsum & H5)]. split; segments; auto.
  - rewrite !lenN_cons. lia.
  - by constructor.
  - exists n. rewrite fmap_cons, sumN_cons. split; [lia|].
    destruct H5 as [->|(t' & s & rem & Hl & -> & Hrem & Hle & Ht)]; [by left|].
    right. exists t', s, rem. repeat split; try done; lia.
Qed.

Lemma kept_within_audio_drop r u items kept nt na :
  kept_within r items kept nt na -> kept_within r (InputAudio u :: items) kept nt (na + 1).
Proof.
  intros [H1 H2 H3 H4 H5]. split; segments; auto.
  - rewrite lenN_cons. lia.
  - by constructor.
Qed.

Definition texts_fit (items : list item) : Prop :=
  Forall (fun t => (byte_len t + 3 <= USIZE_MAX)%N) (text_segments items).

Definition advance (st : items_state) (kept : list item) (r nt na : N) : items_state :=
  {| out := out st ++ kept; remaining_budget := r;
     omitted_text_items := omitted_text_items st + nt;
     omitted_audio_items := omitted_audio_items st + na |}.

(** What one item contributes to any outcome of the items after it. *)
Definition extends (st st1 : items_state) (i : item) (items k : list item) (d e : N) : Prop :=
  st1 = advance st k (remaining_budget st1) d e /\
  forall kept nt na, kept_within (remaining_budget st1) items kept nt na ->
    (remaining_budget st1 = 0%N -> text_segments kept = []) ->
    kept_within (remaining_budget st) (i :: items) (k ++ kept) (d + nt) (e + na) /\
    (remaining_budget st = 0%N -> text_segments (k ++ kept) = []).

Lemma text_step_kept st t items :
  (byte_len t + 3 <= USIZE_MAX)%N ->
  exists st1 k d e, item_step policy estimate st (InputText t) = Some st1 /\
    extends st st1 (InputText t) items k d e.
Proof.
  intros Hfit. unfold item_step, extends.
  destruct (N.eqb_spec (remaining_budget st) 0) as [Hz|Hz].
  { exists (omit_text st 0), [], 1%N, 0%N. split; [done|].
    split; [unfold advance, omit_text; simpl; by rewrite app_nil_r, N.add_0_r|].
    intros kept nt na Hk Hn. rewrite Hz, (N.add_comm 1).
    split; [by apply kept_within_drop; auto|auto]. }
  destruct (N.leb_spec (text_cost policy t) (remaining_budget st)) as [Hc|Hc].
  { eexists _, [InputText t], 0%N, 0%N. split; [done|].
    split; [unfold advance, keep; simpl; by rewrite !N.add_0_r|].
    intros kept nt na Hk Hn. split; [by apply kept_within_text|done]. }
  destruct (truncate_text_some t (remaining_budget st)) as (s & Hs & Hne); [done|lia|]. rewrite Hs.
  destruct (is_empty s) eqn:E; [by apply is_empty_true in E|].
  eexists _, [InputText s], 0%N, 0%N. split; [done|].
  split; [unfold advance, keep; simpl; by rewrite !N.add_0_r|].
  intros kept nt na Hk Hn. split; [|done]. apply kept_within_cut; auto. lia.
Qed.

Lemma audio_step_kept st u items :
  exists st1 k d e, item_step policy estimate st (InputAudio u) = Some st1 /\
    extends st st1 (InputAudio u) items k d e.
Proof.
  unfold item_step, extends.
  destruct (N.leb_spec (audio_cost policy estimate u) (remaining_budget st)) as [Hc|Hc].
  - eexists _, [InputAudio u], 0%N, 0%N. split; [done|].
    split; [unfold advance, keep; simpl; by rewrite !N.add_0_r|].
    intros kept nt na Hk Hn. split; [by apply kept_within_audio|]. intros Hz. apply Hn. simpl. lia.
  - exists (omit_audio st), [], 0%N, 1%N. split; [done|].
    split; [unfold advance, omit_audio; simpl; by rewrite app_nil_r, N.add_0_r|].
    intros kept nt na Hk Hn. rewrite (N.add_comm 1).
    split; [by apply kept_within_audio_drop|]. auto.
Qed.

Lemma media_step_kept st i items :
  item_media i = Some i ->
  exists st1 k d e, item_step policy estimate st i = Some st1 /\ extends st st1 i items k d e.
Proof.
  intros Hi. exists (keep st i (remaining_budget st)), [i], 0%N, 0%N.
  split; [by destruct i|]. split; [unfold advance, keep; simpl; by rewrite !N.add_0_r|].
  intros kept nt na Hk Hn. split; [by apply kept_within_media|].
  intros Hz. destruct i; simplify_eq; by apply Hn.
Qed.

(** The loop from any point: it never fails, and keeps what the remaining
    budget allows; with no budget left, it keeps no text. *)
Lemma items_loop_kept items : forall st,
  texts_fit items ->
  exists kept r nt na, items_loop policy estimate st items = Some (advance st kept r nt na) /\
    kept_within (remaining_budget st) items kept nt na /\
    (remaining_budget st = 0%N -> text_segments kept = []).
Proof.
  induction items as [|i items IH]; intros st Hfit; cbn [items_loop].
  { exists [], (remaining_budget st), 0%N, 0%N. unfold advance. rewrite app_nil_r, !N.add_0_r.
    split; [by destruct st|]. split; [|done]. split; try done. exists 0. simpl. split; [lia|by left]. }
  assert (Hfit' : texts_fit items)
    by (destruct i; unfold texts_fit in *; simpl in *; auto; by inversion Hfit).
  assert (Hstep : exists st1 k d e, item_step policy estimate st i = Some st1 /\
    extends st st1 i items k d e).
  { destruct i; [apply text_step_kept; by inversion Hfit|by apply media_step_kept|
      apply audio_step_kept|by apply media_step_kept]. }
  destruct Hstep as (st1 & k & d & e & -> & Hst1 & Hext).
  destruct (IH st1 Hfit') as (kept & r & nt & na & -> & Hk & Hn).
  exists (k ++ kept), r, (d + nt)%N, (e + na)%N. split; [|by apply Hext].
  rewrite Hst1. unfold advance. simpl. by rewrite !N.add_assoc, app_assoc.
Qed.

(** ** Properties *)

(** The items fit the budget: every image and encrypted item is kept, in
    order; the texts kept are the first ones, unchanged, with at most the next
    one cut to the budget that was left; the audio kept is in order; the cost of
    what is kept unchanged is within the budget; and the markers at the end
    count exactly the text and audio items left out. *)
Theorem output_items_fit items :
  texts_fit items ->
  exists kept nt na,
    truncate_function_output_items_with_policy items policy estimate =
      Some (kept ++ omitted_marker nt (s! "text") ++ omitted_marker na (s! "audio")) /\
    kept_within (initial_budget policy) items kept nt na.
Proof.
  intros Hfit. unfold truncate_function_output_items_with_policy.
  edestruct (items_loop_kept items) as (kept & r & nt & na & -> & Hk & _); [done|].
  by exists kept, nt, na.
Qed.

End Kept.

Definition sample_items : list item :=
  [InputText (s! "abc"); InputImage (s! "u") None; InputText (s! "defghijklm"); InputText (s! "x")].

Lemma output_items_fit_witness :
  exists kept nt na,
    truncate_function_output_items_with_policy sample_items (Bytes 5) (fun _ => 1%N) =
      Some (kept ++ omitted_marker nt (s! "text") ++ omitted_marker na (s! "audio")) /\
    kept_within (Bytes 5) (fun _ => 1%N) 5 sample_items kept nt na.
Proof.
  apply (output_items_fit (Bytes 5) (fun _ => 1%N) sample_items).
  repeat constructor; vm_compute; discriminate.
Defined.

Example sample_items_truncated :
  truncate_function_output_items_with_policy sample_items (Bytes 5) (fun _ => 1%N) =
  Some [InputText (s! "abc"); InputImage (s! "u") None;
        InputText (s! "d" ++ format_truncation_marker false 8 ++ s! "m");
        InputText (s! "[omitted 1 text items ...]")].
Proof. reflexivity. Qed.
