(* ===== verification/ExecRule.v ===== *)
(** * Rules of the exec policy: [execpolicy/src/decision.rs] and [rule.rs]

    Decisions with their order, prefix patterns, rule matches, and the
    normalisation of the hosts of network rules.  [PrefixRule] is the only
    implementation of the [Rule] trait, so a [RuleRef] is one. *)

From S2P Require Import Prelude.
From S2P Require Import RustStr.

Inductive Error :=
| InvalidDecision (s : str)
| InvalidPattern (s : str)
| InvalidRule (s : str)
| ExampleDidNotMatch (rules examples : list str)
| ExampleDidMatch (rule example : str).

(** ** Decisions *)

Inductive Decision := Allow | Prompt | Forbidden.

#[global] Instance decision_eq_dec : EqDecision Decision.
Proof. solve_decision. Defined.

(** The derived order: [Allow < Prompt < Forbidden]. *)
Definition decision_rank (d : Decision) : nat :=
  match d with Allow => 0 | Prompt => 1 | Forbidden => 2 end.

Definition decision_le (a b : Decision) : Prop := decision_rank a <= decision_rank b.

#[global] Instance decision_le_dec a b : base.Decision (decision_le a b) :=
  le_dec (decision_rank a) (decision_rank b).

Definition decision_max (a b : Decision) : Decision := if decide (decision_le a b) then b else a.

Definition decision_parse (raw : str) : result Decision Error :=
  if str_eqb raw (s! "allow") then Ok Allow
  else if str_eqb raw (s! "prompt") then Ok Prompt
  else if str_eqb raw (s! "forbidden") then Ok Forbidden
  else Err (InvalidDecision raw).

(** [Iterator::max] of the decisions of some matches. *)
Fixpoint max_decision (l : list Decision) : option Decision :=
  match l with
  | [] => None
  | d :: rest => Some match max_decision rest with None => d | Some m => decision_max d m end
  end.

(** ** Patterns *)

Inductive PatternToken := Single (s : str) | Alts (alts : list str).

Definition token_matches (t : PatternToken) (token : str) : bool :=
  match t with
  | Single expected => str_eqb expected token
  | Alts alternatives => existsb (fun alt => str_eqb alt token) alternatives
  end.

Definition alternatives (t : PatternToken) : list str :=
  match t with Single expected => [expected] | Alts alts => alts end.

Record PrefixPattern := { first : str; rest : list PatternToken }.

(** The loop over the zipped pattern and command tokens. *)
Fixpoint rest_matches (pattern : list PatternToken) (tokens : list str) : bool :=
  match pattern, tokens with
  | p :: pattern, t :: tokens => if token_matches p t then rest_matches pattern tokens else false
  | _, _ => true
  end.

Definition matches_prefix (p : PrefixPattern) (cmd : list str) : option (list str) :=
  let pattern_length := length (rest p) + 1 in
  match cmd with
  | [] => None
  | cmd0 :: args =>
      if (length cmd <? pattern_length) || negb (str_eqb cmd0 (first p)) then None
      else if rest_matches (rest p) (take (length (rest p)) args)
      then Some (take pattern_length cmd)
      else None
  end.

(** ** Rules and matches *)

Section Rules.
Context {path : Type}.

Inductive RuleMatch :=
| PrefixRuleMatch (matched_prefix : list str) (decision : Decision)
    (resolved_program : option path) (justification : option str)
| HeuristicsRuleMatch (command : list str) (decision : Decision).

Definition match_decision (m : RuleMatch) : Decision :=
  match m with
  | PrefixRuleMatch _ decision _ _ => decision
  | HeuristicsRuleMatch _ decision => decision
  end.

Definition with_resolved_program (m : RuleMatch) (resolved_program : path) : RuleMatch :=
  match m with
  | PrefixRuleMatch matched_prefix decision _ justification =>
      PrefixRuleMatch matched_prefix decision (Some resolved_program) justification
  | other => other
  end.

End Rules.
Arguments RuleMatch path : clear implicits.

Record PrefixRule := {
  pattern : PrefixPattern;
  rule_decision : Decision;
  justification : option str;
}.

Abbreviation RuleRef := PrefixRule.

Definition rule_program (r : PrefixRule) : str := first (pattern r).

Definition rule_matches {path} (r : PrefixRule) (cmd : list str) : option (RuleMatch path) :=
  (fun matched_prefix => PrefixRuleMatch matched_prefix (rule_decision r) None (justification r))
    <$> matches_prefix (pattern r) cmd.

(** ** Network rules *)

Inductive NetworkRuleProtocol := Http | Https | Socks5Tcp | Socks5Udp.

Definition protocol_parse (raw : str) : result NetworkRuleProtocol Error :=
  if str_eqb raw (s! "http") then Ok Http
  else if str_eqb raw (s! "https") || str_eqb raw (s! "https_connect")
          || str_eqb raw (s! "http-connect") then Ok Https
  else if str_eqb raw (s! "socks5_tcp") then Ok Socks5Tcp
  else if str_eqb raw (s! "socks5_udp") then Ok Socks5Udp
  else Err (InvalidRule
    (s! "network_rule protocol must be one of http, https, socks5_tcp, socks5_udp (got "
     ++ raw ++ s! ")")).

Definition as_policy_string (p : NetworkRuleProtocol) : str :=
  match p with
  | Http => s! "http"
  | Https => s! "https"
  | Socks5Tcp => s! "socks5_tcp"
  | Socks5Udp => s! "socks5_udp"
  end.

Record NetworkRule := {
  host : str;
  protocol : NetworkRuleProtocol;
  net_decision : Decision;
  net_justification : option str;
}.

Definition is_port (port : str) : bool := negb (is_empty port) && forallb is_ascii_digit port.

(** The host without brackets and port. *)
Definition strip_port (raw h : str) : result str Error :=
  match strip_prefix (s! "[") h with
  | Some stripped =>
      match split_once (ch "]") stripped with
      | None => Err (InvalidRule (s! "network_rule host has an invalid bracketed IPv6 literal"))
      | Some (inside, suffix) =>
          let port_ok := match strip_prefix (s! ":") suffix with
                         | Some port => is_port port
                         | None => false
                         end in
          if negb (is_empty suffix) && negb port_ok
          then Err (InvalidRule (s! "network_rule host contains an unsupported suffix: " ++ raw))
          else Ok inside
      end
  | None =>
      if count_char (ch ":") h =? 1 then
        match rsplit_once (ch ":") h with
        | Some (candidate, port) =>
            if negb (is_empty candidate) && is_port port then Ok candidate else Ok h
        | None => Ok h
        end
      else Ok h
  end.

Definition normalize_network_rule_host (raw : str) : result str Error :=
  let h := trim raw in
  if is_empty h then Err (InvalidRule (s! "network_rule host cannot be empty"))
  else if contains_str (s! "://") h || contains_char (ch "/") h || contains_char (ch "?") h
          || contains_char (ch "#") h
  then Err (InvalidRule
    (s! "network_rule host must be a hostname or IP literal (without scheme or path)"))
  else
    let? h := strip_port raw h in
    let normalized := to_ascii_lowercase (trim (trim_end_char (ch ".") h)) in
    if is_empty normalized then Err (InvalidRule (s! "network_rule host cannot be empty"))
    else if contains_char (ch "*") normalized
    then Err (InvalidRule
      (s! "network_rule host must be a specific host; wildcards are not allowed"))
    else if existsb is_whitespace normalized
    then Err (InvalidRule (s! "network_rule host cannot contain whitespace"))
    else Ok normalized.

Example normalize_port :
  normalize_network_rule_host (s! " Example.COM.:443 ") = Ok (s! "example.com").
Proof. reflexivity. Qed.

Example normalize_ipv6 : normalize_network_rule_host (s! "[::1]:8080") = Ok (s! "::1").
Proof. reflexivity. Qed.

(** Only the dots at the very end are dropped: with a space between them one
    stays, and normalising again drops it. *)
Example normalize_not_idempotent :
  normalize_network_rule_host (s! "example.com. .") = Ok (s! "example.com.") /\
  normalize_network_rule_host (s! "example.com.") = Ok (s! "example.com").
Proof. split; reflexivity. Qed.

(** ** Lemmas: decisions *)

Lemma decision_le_refl a : decision_le a a.
Proof. unfold decision_le. lia. Qed.

Lemma decision_le_trans a b c : decision_le a b -> decision_le b c -> decision_le a c.
Proof. unfold decision_le. lia. Qed.

Lemma decision_le_antisym a b : decision_le a b -> decision_le b a -> a = b.
Proof. unfold decision_le. destruct a, b; simpl; (done || lia). Qed.

Lemma decision_max_spec a b c :
  decision_le (decision_max a b) c <-> decision_le a c /\ decision_le b c.
Proof. unfold decision_max. case_decide; unfold decision_le in *; lia. Qed.

Lemma decision_max_ub a b :
  decision_le a (decision_max a b) /\ decision_le b (decision_max a b).
Proof. apply decision_max_spec, decision_le_refl. Qed.

Lemma forbidden_top d : decision_le Forbidden d -> d = Forbidden.
Proof. by destruct d; unfold decision_le; simpl; try lia. Qed.

Lemma max_decision_None l : max_decision l = None <-> l = [].
Proof. by destruct l. Qed.

Lemma max_decision_sound l d :
  max_decision l = Some d -> d ∈ l /\ forall x, x ∈ l -> decision_le x d.
Proof.
  revert d. induction l as [|a l IH]; intros d H; simpl in H; [done|]. injection H as <-.
  destruct (max_decision l) as [m|] eqn:E.
  - destruct (IH m eq_refl) as [Hin Hmax]. destruct (decision_max_ub a m) as [H1 H2]. split.
    + unfold decision_max. case_decide; [by right|by left].
    + intros x [->|Hx]%elem_of_cons; [done|]. eapply decision_le_trans; [by apply Hmax|done].
  - apply max_decision_None in E as ->. split; [by left|].
    intros x [->|Hx%not_elem_of_nil]%elem_of_cons; [apply decision_le_refl|done].
Qed.

(** The maximum is the strictest of the decisions. *)
Lemma max_decision_Some l d :
  max_decision l = Some d <-> d ∈ l /\ forall x, x ∈ l -> decision_le x d.
Proof.
  split; [apply max_decision_sound|]. intros [Hin Hmax].
  destruct (max_decision l) as [m|] eqn:E.
  - apply max_decision_sound in E as [Hm Hle]. f_equal. apply decision_le_antisym; auto.
  - apply max_decision_None in E as ->. by apply not_elem_of_nil in Hin.
Qed.

(** ** Lemmas: patterns *)

Lemma rest_matches_Forall2 p ts :
  length ts = length p -> rest_matches p ts = true <-> Forall2 (fun p t => token_matches p t = true) p ts.
Proof.
  revert ts. induction p as [|a p IH]; intros [|t ts] Hlen; [|done|done|]; simpl in *.
  { by split; [constructor|]. }
  rewrite Forall2_cons. destruct (token_matches a t).
  - rewrite IH by lia. naive_solver.
  - naive_solver.
Qed.

(** A pattern matches the commands that start with tokens it accepts. *)
Lemma matches_prefix_Some p cmd m :
  matches_prefix p cmd = Some m <->
  exists ts args, cmd = first p :: ts ++ args /\ m = first p :: ts /\
    Forall2 (fun p t => token_matches p t = true) (rest p) ts.
Proof.
  unfold matches_prefix. destruct cmd as [|c cmd]; [naive_solver|].
  rewrite Nat.add_1_r. cbn [length take].
  destruct (Nat.ltb_spec (S (length cmd)) (S (length (rest p)))) as [Hlt|Hge]; simpl.
  { split; [done|]. intros (ts & args & [= -> ->] & _ & H%Forall2_length).
    rewrite length_app in Hlt. lia. }
  destruct (str_eqb c (first p)) eqn:Ec; simpl.
  2: { apply str_eqb_neq in Ec. split; [done|]. intros (ts & args & [= -> ->] & _). done. }
  apply str_eqb_eq in Ec as ->.
  pose proof (rest_matches_Forall2 (rest p) (take (length (rest p)) cmd)
    ltac:(rewrite length_take; lia)) as Hm.
  destruct (rest_matches _ _).
  - split.
    + intros [= <-]. exists (take (length (rest p)) cmd), (drop (length (rest p)) cmd).
      rewrite take_drop. naive_solver.
    + intros (ts & args & [= ->] & -> & H). apply Forall2_length in H as Hl.
      by rewrite take_app_length' by done.
  - split; [done|]. intros (ts & args & [= ->] & -> & H). apply Forall2_length in H as Hl.
    rewrite take_app_length' in Hm by done. naive_solver.
Qed.

Lemma matches_prefix_singles f tokens cmd :
  is_Some (matches_prefix {| first := f; rest := Single <$> tokens |} cmd) <->
  f :: tokens `prefix_of` cmd.
Proof.
  assert (Hts : forall ts, Forall2 (fun p t => token_matches p t = true) (Single <$> tokens) ts <->
    ts = tokens).
  { induction tokens as [|t tokens IH]; intros [|t' ts']; rewrite ?fmap_nil, ?fmap_cons.
    - split; [done|constructor].
    - by split; intros H; inversion H.
    - by split; intros H; inversion H.
    - rewrite Forall2_cons, IH. simpl. rewrite str_eqb_eq. naive_solver. }
  split.
  - intros [m (ts & args & -> & _ & ->%Hts)%matches_prefix_Some]. by exists args.
  - intros [args ->]. eexists. apply matches_prefix_Some. exists tokens, args.
    split; [done|]. split; [done|]. by apply Hts.
Qed.

(** ** Lemmas: hosts *)

Lemma trim_incl s x : x ∈ trim s -> x ∈ s.
Proof.
  unfold trim. destruct (trim_start_decomp s) as (w & Hs & _).
  destruct (trim_end_decomp (trim_start s)) as (w' & Hs' & _).
  intros H. rewrite Hs, Hs'. set_solver.
Qed.

Lemma strip_port_incl raw h h' x : strip_port raw h = Ok h' -> x ∈ h' -> x ∈ h.
Proof.
  unfold strip_port. destruct (strip_prefix (s! "[") h) as [stripped|] eqn:E.
  - apply strip_prefix_Some in E as ->.
    destruct (split_once _ stripped) as [[inside suffix]|] eqn:Es; [|done].
    apply split_once_app in Es as ->. case_match; [done|]. intros [= <-]. set_solver.
  - destruct (count_char _ h =? 1); [|by intros [= <-]].
    destruct (rsplit_once _ h) as [[a b]|] eqn:Es; [|by intros [= <-]].
    apply rsplit_once_app in Es. case_match; intros [= <-]; [|done]. subst h. set_solver.
Qed.

Lemma lowercase_elem c s :
  c ∈ to_ascii_lowercase s -> in_range 65 90 c = false /\ (in_range 97 122 c = false -> c ∈ s).
Proof.
  unfold to_ascii_lowercase. rewrite list_elem_of_fmap. intros (x & -> & Hx).
  unfold in_range. destruct (N.leb_spec 65 x), (N.leb_spec x 90); simpl;
    split; intros; try done;
    repeat match goal with |- context [N.leb ?a ?b] => destruct (N.leb_spec a b) end;
    repeat match goal with H : context [N.leb ?a ?b] |- _ => destruct (N.leb_spec a b) end;
    simpl in *; (done || lia).
Qed.

Lemma normalize_host_ok raw h :
  normalize_network_rule_host raw = Ok h ->
  h <> [] /\ Forall (fun c => is_whitespace c = false /\ in_range 65 90 c = false) h /\
  Forall (fun c => c ∉ h) [ch "*"; ch "/"; ch "?"; ch "#"].
Proof.
  unfold normalize_network_rule_host. intros H.
  destruct (is_empty (trim raw)); [done|].
  destruct (contains_str _ _); [done|]. simpl in H.
  destruct (contains_char (ch "/") (trim raw)) eqn:E1; [done|].
  destruct (contains_char (ch "?") (trim raw)) eqn:E2; [done|].
  destruct (contains_char (ch "#") (trim raw)) eqn:E3; [done|]. simpl in H.
  apply result_bind_Ok in H as (h' & Hp & H).
  set (n := to_ascii_lowercase (trim (trim_end_char (ch ".") h'))) in *.
  destruct (is_empty n) eqn:En; [done|].
  destruct (contains_char (ch "*") n) eqn:E4; [done|].
  destruct (existsb is_whitespace n) eqn:Ew; [done|]. injection H as <-.
  rewrite contains_char_false in E1, E2, E3, E4. apply is_empty_false in En.
  assert (Hin : forall c, c ∈ n -> in_range 97 122 c = false -> c ∈ trim raw).
  { intros c [_ Hc]%lowercase_elem Hr. eapply strip_port_incl; [done|].
    eapply trim_end_char_incl, trim_incl, Hc, Hr. }
  split; [done|]. split.
  - apply Forall_forall. intros c Hc. split; [|by apply lowercase_elem in Hc as [? _]].
    apply not_true_iff_false. intros Hw. apply not_true_iff_false in Ew. apply Ew.
    apply existsb_exists. exists c. by rewrite <- list_elem_of_In.
  - repeat constructor; [done|intros Hc; apply Hin in Hc; done..].
Qed.
