(* ===== verification/ExecPolicy.v ===== *)
(** * The exec policy: [execpolicy/src/policy.rs], the lookup key of
      [executable_name.rs] and the example checks of [rule.rs]

    A policy decides whether a command may run, must be approved or is
    forbidden.  The multimap of rules is the one of the [multimap] crate: an
    interface with its documented behaviour here, and so are the hash map of
    host executables and the paths of [AbsolutePathBuf]. *)

From stdpp Require Import gmap.
From S2P Require Import Prelude.
From S2P Require Import RustStr.
From S2P Require Import ExecRule.

(** ** Interfaces *)

(** [multimap::MultiMap]: several values per key, in insertion order. *)
Class MultiMap (M K V : Type) := {
  mm_new : M;
  mm_get_vec : M -> K -> option (list V);
  mm_insert : M -> K -> V -> M;
  mm_iter_all : M -> list (K * list V);
}.
#[global] Hint Mode MultiMap + - - : typeclass_instances.

Class MultiMapLaws (M K V : Type) `{!EqDecision K} `{!MultiMap M K V} := {
  mm_get_new : forall k : K, mm_get_vec (mm_new : M) k = None;
  mm_get_insert : forall (m : M) (k : K) (v : V) (k' : K),
    mm_get_vec (mm_insert m k v) k' =
    if decide (k' = k) then Some (default [] (mm_get_vec m k) ++ [v]) else mm_get_vec m k';
  (** every key once, with its values, in any order *)
  mm_iter_keys : forall m : M, NoDup (mm_iter_all m).*1;
  mm_iter_get : forall (m : M) (k : K) (vs : list V), (k, vs) ∈ mm_iter_all m <-> mm_get_vec m k = Some vs;
}.

(** Absolute paths: [AbsolutePathBuf::try_from], and [Path::file_name] as
    UTF-8. *)
Class AbsolutePath (path : Type) := {
  path_try_from : str -> option path;
  path_file_name : path -> option str;
  path_eq_dec :: EqDecision path;
}.

(** ** Data *)

Record MatchOptions := { resolve_host_executables : bool }.

Definition default_options : MatchOptions := {| resolve_host_executables := false |}.

Record Policy (M path : Type) := {
  rules_by_program : M;
  network_rules : list NetworkRule;
  host_executables_by_name : gmap str (list path);
}.
Arguments Build_Policy {M path} rules_by_program network_rules host_executables_by_name.
Arguments rules_by_program {M path} p.
Arguments network_rules {M path} p.
Arguments host_executables_by_name {M path} p.

Record Evaluation (path : Type) := {
  eval_decision : Decision;
  matched_rules : list (RuleMatch path);
}.
Arguments Build_Evaluation {path} eval_decision matched_rules.
Arguments eval_decision {path} e.
Arguments matched_rules {path} e.

(** ** Operations *)

Definition executable_lookup_key (raw : str) : str := raw.

Section PolicyOps.
Context {M path : Type} `{!MultiMap M str RuleRef} `{!AbsolutePath path}.
Abbreviation policy := (Policy M path).
Abbreviation rmatch := (RuleMatch path).

Definition executable_path_lookup_key (p : path) : option str :=
  executable_lookup_key <$> path_file_name p.

Definition policy_new (rules : M) : policy :=
  {| rules_by_program := rules; network_rules := []; host_executables_by_name := ∅ |}.

Definition policy_empty : policy := policy_new mm_new.

Definition prefix_rule (first_token : str) (tokens : list str) (decision : Decision) : PrefixRule :=
  {| pattern := {| first := first_token; rest := Single <$> tokens |};
     rule_decision := decision; justification := None |}.

Definition add_prefix_rule (p : policy) (prefix : list str) (decision : Decision)
    : result policy Error :=
  match prefix with
  | [] => Err (InvalidPattern (s! "prefix cannot be empty"))
  | first_token :: tokens =>
      Ok {| rules_by_program :=
              mm_insert (rules_by_program p) first_token (prefix_rule first_token tokens decision);
            network_rules := network_rules p;
            host_executables_by_name := host_executables_by_name p |}
  end.

Definition add_network_rule (p : policy) (raw_host : str) (proto : NetworkRuleProtocol)
    (decision : Decision) (just : option str) : result policy Error :=
  let? host := normalize_network_rule_host raw_host in
  if match just with Some raw => is_empty (trim raw) | None => false end
  then Err (InvalidRule (s! "justification cannot be empty"))
  else Ok {| rules_by_program := rules_by_program p;
             network_rules := network_rules p ++
               [{| host := host; protocol := proto; net_decision := decision;
                   net_justification := just |}];
             host_executables_by_name := host_executables_by_name p |}.

Definition set_host_executable_paths (p : policy) (name : str) (paths : list path) : policy :=
  {| rules_by_program := rules_by_program p; network_rules := network_rules p;
     host_executables_by_name := <[name := paths]> (host_executables_by_name p) |}.

(** The nested loops of [merge_overlay] over the rules of the overlay. *)
Definition insert_all (m : M) (entries : list (str * list RuleRef)) : M :=
  foldl (fun m '(program, rules) => foldl (fun m rule => mm_insert m program rule) m rules) m entries.

Definition merge_overlay (p overlay : policy) : policy :=
  {| rules_by_program := insert_all (rules_by_program p) (mm_iter_all (rules_by_program overlay));
     network_rules := network_rules p ++ network_rules overlay;
     (* [extend]: the entries of the overlay win *)
     host_executables_by_name := host_executables_by_name overlay ∪ host_executables_by_name p |}.

Definition retain_other (entries : list str) (h : str) : list str :=
  filter (fun entry => entry <> h) entries.

Definition upsert_domain (entries : list str) (h : str) : list str := retain_other entries h ++ [h].

Definition network_step (st : list str * list str) (rule : NetworkRule) : list str * list str :=
  let '(allowed, denied) := st in
  match net_decision rule with
  | Allow => (upsert_domain allowed (host rule), retain_other denied (host rule))
  | Forbidden => (retain_other allowed (host rule), upsert_domain denied (host rule))
  | Prompt => (allowed, denied)
  end.

Definition compiled_network_domains (p : policy) : list str * list str :=
  foldl network_step ([], []) (network_rules p).

Definition match_exact_rules (p : policy) (cmd : list str) : option (list rmatch) :=
  match cmd with
  | [] => None
  | first :: _ =>
      Some match mm_get_vec (rules_by_program p) first with
           | Some rules => omap (fun rule => rule_matches rule cmd) rules
           | None => []
           end
  end.

Definition match_host_executable_rules (p : policy) (cmd : list str) : list rmatch :=
  match cmd with
  | [] => []
  | first :: args =>
      match path_try_from first with
      | None => []
      | Some program =>
          match executable_path_lookup_key program with
          | None => []
          | Some basename =>
              match mm_get_vec (rules_by_program p) basename with
              | None => []
              | Some rules =>
                  if match host_executables_by_name p !! basename with
                     | Some paths => negb (existsb (fun path => bool_decide (path = program)) paths)
                     | None => false
                     end
                  then []
                  else (fun m => with_resolved_program m program) <$>
                       omap (fun rule => rule_matches rule (basename :: args)) rules
              end
          end
      end
  end.

(** [filter(|rules| !rules.is_empty())] *)
Definition non_empty (o : option (list rmatch)) : option (list rmatch) :=
  match o with Some (_ :: _) => o | _ => None end.

Definition matches_for_command_with_options (p : policy) (cmd : list str)
    (heuristics_fallback : option (list str -> Decision)) (options : MatchOptions) : list rmatch :=
  let rules :=
    match non_empty (match_exact_rules p cmd) with
    | Some rules => rules
    | None =>
        default [] (non_empty
          (if resolve_host_executables options
           then Some (match_host_executable_rules p cmd) else None))
    end in
  match rules, heuristics_fallback with
  | [], Some fallback => [HeuristicsRuleMatch cmd (fallback cmd)]
  | _, _ => rules
  end.

Definition matches_for_command (p : policy) (cmd : list str)
    (heuristics_fallback : option (list str -> Decision)) : list rmatch :=
  matches_for_command_with_options p cmd heuristics_fallback default_options.

(** [None] is the panic of the [expect] on an empty list. *)
Definition from_matches (rules : list rmatch) : option (Evaluation path) :=
  match max_decision (match_decision <$> rules) with
  | Some decision => Some {| eval_decision := decision; matched_rules := rules |}
  | None => None
  end.

Definition is_match (e : Evaluation path) : bool :=
  existsb (fun m => match m with HeuristicsRuleMatch _ _ => false | _ => true end) (matched_rules e).

Definition check_with_options (p : policy) (cmd : list str) (fallback : list str -> Decision)
    (options : MatchOptions) : option (Evaluation path) :=
  from_matches (matches_for_command_with_options p cmd (Some fallback) options).

Definition check (p : policy) (cmd : list str) (fallback : list str -> Decision)
    : option (Evaluation path) :=
  from_matches (matches_for_command_with_options p cmd (Some fallback) default_options).

Definition check_multiple_with_options (p : policy) (commands : list (list str))
    (fallback : list str -> Decision) (options : MatchOptions) : option (Evaluation path) :=
  from_matches (flat_map (fun command =>
    matches_for_command_with_options p command (Some fallback) options) commands).

Definition check_multiple (p : policy) (commands : list (list str)) (fallback : list str -> Decision)
    : option (Evaluation path) :=
  check_multiple_with_options p commands fallback default_options.

(** The checks of examples; rendering for the messages comes from elsewhere
    ([shlex::try_join], [Debug]). *)
Definition validate_match_examples (render_example : list str -> str) (render_rule : RuleRef -> str)
    (p : policy) (rules : list RuleRef) (examples : list (list str)) : result unit Error :=
  let options := {| resolve_host_executables := true |} in
  let unmatched := foldl (fun acc example =>
    if is_empty (matches_for_command_with_options p example None options)
    then acc ++ [render_example example] else acc) [] examples in
  if is_empty unmatched then Ok tt
  else Err (ExampleDidNotMatch (render_rule <$> rules) unmatched).

Fixpoint validate_not_match_examples (render_example : list str -> str)
    (render_match : rmatch -> str) (p : policy) (not_matches : list (list str))
    : result unit Error :=
  match not_matches with
  | [] => Ok tt
  | example :: more =>
      match matches_for_command_with_options p example None {| resolve_host_executables := true |} with
      | m :: _ => Err (ExampleDidMatch (render_match m) (render_example example))
      | [] => validate_not_match_examples render_example render_match p more
      end
  end.

End PolicyOps.

(** * Correctness of the exec policy

    The strictest applicable rule decides, overlays only add rules, and the
    compiled network domains follow the last rule for each host. *)

Section Facts.
Context {M path : Type} `{!MultiMap M str RuleRef} `{!MultiMapLaws M str RuleRef}.
Context `{!AbsolutePath path}.
Abbreviation policy := (Policy M path).
Implicit Types p overlay : policy.

(** The rules stored for a program. *)
Definition rules_for p (program : str) : list RuleRef :=
  default [] (mm_get_vec (rules_by_program p) program).

(** The matches of the rules stored for the first word of a command. *)
Definition exact_matches p (cmd : list str) : list (RuleMatch path) :=
  match cmd with
  | [] => []
  | first :: _ => omap (fun rule => rule_matches rule cmd) (rules_for p first)
  end.

(** The strictest decision of those rules, if any matches. *)
Definition exact_decision p (cmd : list str) : option Decision :=
  max_decision (match_decision <$> exact_matches p cmd).

Lemma non_empty_exact p cmd :
  non_empty (match_exact_rules p cmd) =
  match exact_matches p cmd with [] => None | l => Some l end.
Proof.
  unfold match_exact_rules, exact_matches, rules_for, non_empty. destruct cmd; [done|].
  by destruct (mm_get_vec _ _) as [rules|]; [simpl; destruct (omap _ rules)|].
Qed.

Lemma matches_exact p cmd fb opts :
  exact_matches p cmd <> [] ->
  matches_for_command_with_options p cmd fb opts = exact_matches p cmd.
Proof.
  intros H. unfold matches_for_command_with_options. rewrite non_empty_exact.
  by destruct (exact_matches p cmd).
Qed.

Lemma matches_fallback p cmd fb :
  exact_matches p cmd = [] ->
  matches_for_command_with_options p cmd (Some fb) default_options =
  [HeuristicsRuleMatch cmd (fb cmd)].
Proof.
  intros H. unfold matches_for_command_with_options. by rewrite non_empty_exact, H.
Qed.

(** With a fallback there is always a match. *)
Lemma matches_non_empty p cmd fb opts :
  matches_for_command_with_options p cmd (Some fb) opts <> [].
Proof. unfold matches_for_command_with_options. by case_match. Qed.

Lemma from_matches_spec (l : list (RuleMatch path)) :
  l <> [] ->
  exists d, from_matches l = Some {| eval_decision := d; matched_rules := l |} /\
    max_decision (match_decision <$> l) = Some d.
Proof.
  intros H. unfold from_matches.
  destruct (max_decision (match_decision <$> l)) as [d|] eqn:E; [by exists d|].
  apply max_decision_None in E. by destruct l.
Qed.

Lemma check_decision p cmd fb :
  exists e, check p cmd fb = Some e /\
    eval_decision e = default (fb cmd) (exact_decision p cmd) /\
    matched_rules e = matches_for_command_with_options p cmd (Some fb) default_options.
Proof.
  unfold check. destruct (from_matches_spec
    (matches_for_command_with_options p cmd (Some fb) default_options)) as (d & -> & Hd).
  { apply matches_non_empty. }
  eexists. split; [done|]. simpl. split; [|done]. unfold exact_decision.
  destruct (exact_matches p cmd) as [|m l] eqn:E.
  - rewrite matches_fallback in Hd by done. simpl in *. by injection Hd as <-.
  - rewrite matches_exact, E in Hd by (by rewrite E). by rewrite Hd.
Qed.

(** A rule of the policy matches the command as it stands. *)
Definition applies p (rule : RuleRef) (cmd : list str) : Prop :=
  rule ∈ rules_for p (default [] (head cmd)) /\ is_Some (matches_prefix (pattern rule) cmd).

Lemma elem_of_exact p cmd m :
  m ∈ exact_matches p cmd <->
  exists rule, rule ∈ rules_for p (default [] (head cmd)) /\ rule_matches rule cmd = Some m.
Proof.
  unfold exact_matches. destruct cmd as [|first args]; simpl.
  - split; [by intros ?%not_elem_of_nil|]. intros (rule & _ & H). done.
  - apply list_elem_of_omap.
Qed.

Lemma rule_matches_decision (rule : RuleRef) cmd (m : RuleMatch path) :
  rule_matches rule cmd = Some m -> match_decision m = rule_decision rule.
Proof. unfold rule_matches. destruct (matches_prefix _ _); [|done]. by intros [= <-]. Qed.

Lemma exact_decision_Some p cmd d :
  exact_decision p cmd = Some d <->
  (exists rule, applies p rule cmd /\ rule_decision rule = d) /\
  forall rule, applies p rule cmd -> decision_le (rule_decision rule) d.
Proof.
  assert (Hel : forall x, x ∈ match_decision <$> exact_matches p cmd <->
    exists rule, applies p rule cmd /\ rule_decision rule = x).
  { intros x. rewrite list_elem_of_fmap. split.
    - intros (m & -> & (rule & Hin & Hm)%elem_of_exact). exists rule.
      split; [|symmetry; by eapply rule_matches_decision]. split; [done|].
      unfold rule_matches in Hm. by destruct (matches_prefix (pattern rule) cmd).
    - intros (rule & [Hin [pre Hpre]] & <-).
      assert (Hm : @rule_matches path rule cmd =
        Some (PrefixRuleMatch pre (rule_decision rule) None (justification rule)))
        by (unfold rule_matches; by rewrite Hpre).
      eexists. split; [|apply elem_of_exact; exists rule; split; [done|exact Hm]]. done. }
  unfold exact_decision. rewrite max_decision_Some, Hel. split; intros [H1 H2]; (split; [done|]).
  - intros rule Ha. apply H2, Hel. eauto.
  - intros x (rule & Ha & <-)%Hel. auto.
Qed.

Lemma exact_decision_None p cmd :
  exact_decision p cmd = None <-> forall rule, ~ applies p rule cmd.
Proof.
  unfold exact_decision. rewrite max_decision_None. split.
  - intros H rule [Hin [pre Hpre]]. apply (not_elem_of_nil
      (PrefixRuleMatch (path := path) pre (rule_decision rule) None (justification rule))).
    destruct (exact_matches p cmd) eqn:E; [|done]. rewrite <- E. apply elem_of_exact.
    exists rule. unfold rule_matches. by rewrite Hpre.
  - intros H. destruct (exact_matches p cmd) as [|m l] eqn:E; [done|]. exfalso.
    assert (Hm : m ∈ exact_matches p cmd) by (rewrite E; by left).
    apply elem_of_exact in Hm as (rule & Hin & Hm). apply (H rule). split; [done|].
    unfold rule_matches in Hm. by destruct (matches_prefix (pattern rule) cmd).
Qed.

(** ** Overlays *)

Lemma insert_rules (m : M) k rules k' :
  default [] (mm_get_vec (foldl (fun m rule => mm_insert m k rule) m rules) k') =
  default [] (mm_get_vec m k') ++ (if decide (k' = k) then rules else []).
Proof.
  revert m. induction rules as [|r rules IH]; intros m; simpl; [case_decide; by rewrite app_nil_r|].
  rewrite IH, mm_get_insert. case_decide; [|done]. subst. simpl. by rewrite <- app_assoc.
Qed.

Lemma insert_all_get (m : M) entries k :
  NoDup entries.*1 ->
  default [] (mm_get_vec (insert_all m entries) k) =
  default [] (mm_get_vec m k) ++ default [] (snd <$> List.find (fun e => str_eqb (fst e) k) entries).
Proof.
  revert m. induction entries as [|[k' rules] entries IH]; intros m Hnd; simpl.
  { by rewrite app_nil_r. }
  apply NoDup_cons in Hnd as [Hnot Hnd]. unfold insert_all in *. simpl. rewrite IH by done.
  rewrite insert_rules, <- app_assoc. f_equal. destruct (str_eqb k' k) eqn:E.
  - apply str_eqb_eq in E as ->. rewrite decide_True by done. simpl.
    destruct (List.find _ entries) as [[k2 r2]|] eqn:Ef; simpl; [|by rewrite app_nil_r].
    apply List.find_some in Ef as [Hin Hk]. simpl in Hk. apply str_eqb_eq in Hk as ->.
    exfalso. apply Hnot. apply list_elem_of_fmap. exists (k, r2). by rewrite list_elem_of_In.
  - apply str_eqb_neq in E. by rewrite decide_False by done.
Qed.

Lemma rules_for_merge p overlay k :
  rules_for (merge_overlay p overlay) k = rules_for p k ++ rules_for overlay k.
Proof.
  unfold rules_for, merge_overlay. simpl. rewrite insert_all_get by apply mm_iter_keys. f_equal.
  destruct (List.find _ _) as [[k' vs]|] eqn:E; simpl.
  - apply List.find_some in E as [Hin Hk]. simpl in Hk. apply str_eqb_eq in Hk as ->.
    apply list_elem_of_In, mm_iter_get in Hin. by rewrite Hin.
  - destruct (mm_get_vec (rules_by_program overlay) k) as [vs|] eqn:Ev; [|done].
    apply mm_iter_get, list_elem_of_In in Ev. eapply List.find_none in E; [|done]. simpl in E.
    apply str_eqb_neq in E. done.
Qed.

Lemma exact_matches_merge p overlay cmd :
  exact_matches (merge_overlay p overlay) cmd = exact_matches p cmd ++ exact_matches overlay cmd.
Proof.
  unfold exact_matches. destruct cmd; [done|]. by rewrite rules_for_merge, omap_app.
Qed.

(** The stricter of two optional decisions. *)
Definition stricter (a b : option Decision) : option Decision :=
  match a, b with
  | Some a, Some b => Some (decision_max a b)
  | Some a, None => Some a
  | None, b => b
  end.

Lemma max_decision_app a b : max_decision (a ++ b) = stricter (max_decision a) (max_decision b).
Proof.
  destruct (max_decision a) as [x|] eqn:Ea, (max_decision b) as [y|] eqn:Eb; simpl;
    try (apply max_decision_None in Ea as ->); try (apply max_decision_None in Eb as ->);
    rewrite ?app_nil_r; try done.
  apply max_decision_Some in Ea as [Ha1 Ha2], Eb as [Hb1 Hb2].
  apply max_decision_Some. destruct (decision_max_ub x y) as [H1 H2]. split.
  - apply elem_of_app. unfold decision_max. case_decide; auto.
  - intros d [Hd|Hd]%elem_of_app; eapply decision_le_trans; eauto.
Qed.

Lemma exact_decision_merge p overlay cmd :
  exact_decision (merge_overlay p overlay) cmd =
  stricter (exact_decision p cmd) (exact_decision overlay cmd).
Proof.
  unfold exact_decision. by rewrite exact_matches_merge, fmap_app, max_decision_app.
Qed.

(** ** Network domains *)

(** The last rule for a host that allows or forbids it. *)
Definition last_verdict (rules : list NetworkRule) (h : str) : option Decision :=
  last (omap (fun r => if decide (host r = h /\ net_decision r <> Prompt)
                       then Some (net_decision r) else None) rules).

Definition domains_ok (rules : list NetworkRule) (st : list str * list str) : Prop :=
  NoDup (fst st) /\ NoDup (snd st) /\
  forall h, (h ∈ fst st <-> last_verdict rules h = Some Allow) /\
            (h ∈ snd st <-> last_verdict rules h = Some Forbidden).

Lemma last_verdict_snoc rules r h :
  last_verdict (rules ++ [r]) h =
  if decide (host r = h /\ net_decision r <> Prompt) then Some (net_decision r)
  else last_verdict rules h.
Proof.
  unfold last_verdict. rewrite omap_app. simpl. case_decide; [by rewrite last_snoc|].
  by rewrite app_nil_r.
Qed.

Lemma elem_of_retain_other l h x : x ∈ retain_other l h <-> x ∈ l /\ x <> h.
Proof. unfold retain_other. rewrite list_elem_of_filter. naive_solver. Qed.

Lemma elem_of_upsert l h x : x ∈ upsert_domain l h <-> x ∈ l \/ x = h.
Proof.
  unfold upsert_domain. rewrite elem_of_app, elem_of_retain_other, list_elem_of_singleton.
  destruct (decide (x = h)); naive_solver.
Qed.

Lemma NoDup_retain_other l h : NoDup l -> NoDup (retain_other l h).
Proof. apply NoDup_filter. Qed.

Lemma NoDup_upsert l h : NoDup l -> NoDup (upsert_domain l h).
Proof.
  intros H. unfold upsert_domain. apply NoDup_app. split; [by apply NoDup_retain_other|].
  split; [|apply NoDup_singleton].
  intros x [_ Hx]%elem_of_retain_other ->%list_elem_of_singleton. done.
Qed.

Lemma network_step_ok rules st r :
  domains_ok rules st -> domains_ok (rules ++ [r]) (network_step st r).
Proof.
  destruct st as [allowed denied]. intros (H1 & H2 & H3). simpl in *.
  unfold network_step. destruct (net_decision r) eqn:Ed; split; simpl;
    auto using NoDup_upsert, NoDup_retain_other; (split; [by auto using NoDup_upsert, NoDup_retain_other|]);
    intros h; destruct (H3 h) as [Ha Hf]; rewrite last_verdict_snoc, Ed;
    rewrite ?elem_of_upsert, ?elem_of_retain_other, Ha, Hf;
    case_decide; destruct (decide (h = host r)); naive_solver.
Qed.

Lemma network_fold_ok rules : domains_ok rules (foldl network_step ([], []) rules).
Proof.
  induction rules as [|r rules IH] using rev_ind.
  - split; [constructor|]. split; [constructor|]. intros h. simpl.
    split; split; (done || by intros ?%not_elem_of_nil).
  - rewrite foldl_app. simpl. by apply network_step_ok.
Qed.

(** ** Properties *)

(** A check never panics; its decision is the strictest one of the rules
    stored for the first word whose pattern matches the command, and the
    fallback's when none does. *)
Theorem check_strictest p cmd fb :
  exists e, check p cmd fb = Some e /\
  ((forall rule, applies p rule cmd -> decision_le (rule_decision rule) (eval_decision e)) /\
   (exists rule, applies p rule cmd /\ rule_decision rule = eval_decision e) /\ is_match e = true
   \/ (forall rule, ~ applies p rule cmd) /\ eval_decision e = fb cmd /\ is_match e = false).
Proof.
  destruct (check_decision p cmd fb) as (e & He & Hd & Hm). exists e. split; [done|].
  destruct (exact_decision p cmd) as [d|] eqn:E; simpl in Hd.
  - left. pose proof E as [Hex Hall]%exact_decision_Some. rewrite Hd.
    split; [done|]. split; [done|]. unfold is_match. rewrite Hm.
    assert (Hne : exact_matches p cmd <> []).
    { intros Hnil. unfold exact_decision in E. by rewrite Hnil in E. }
    rewrite matches_exact by done. destruct (exact_matches p cmd) as [|m l] eqn:El; [done|].
    assert (Hin : m ∈ exact_matches p cmd) by (rewrite El; by left).
    apply elem_of_exact in Hin as (rule & _ & Hr). unfold rule_matches in Hr.
    destruct (matches_prefix (pattern rule) cmd); [|done]. by injection Hr as <-.
  - right. pose proof (proj1 (exact_decision_None _ _) E) as Hno. split; [done|]. split; [done|].
    unfold is_match. rewrite Hm. unfold exact_decision in E. apply max_decision_None in E.
    by rewrite matches_fallback by (by destruct (exact_matches p cmd)).
Qed.

(** An overlay can only add to the rules that apply to a command: under the
    merged policy the decision is the stricter one of the two policies' rules,
    so what either forbids stays forbidden, and the fallback is asked only when
    neither has a rule. *)
Theorem merge_overlay_stricter p overlay cmd fb :
  exists e, check (merge_overlay p overlay) cmd fb = Some e /\
  eval_decision e =
    default (fb cmd) (stricter (exact_decision p cmd) (exact_decision overlay cmd)) /\
  (exact_decision p cmd = Some Forbidden \/ exact_decision overlay cmd = Some Forbidden ->
   eval_decision e = Forbidden).
Proof.
  destruct (check_decision (merge_overlay p overlay) cmd fb) as (e & He & Hd & _).
  exists e. rewrite exact_decision_merge in Hd. split; [done|]. split; [done|].
  rewrite Hd. intros [->| ->]; simpl.
  - destruct (exact_decision overlay cmd) as [d|]; [|done]. simpl.
    apply forbidden_top, decision_max_ub.
  - destruct (exact_decision p cmd) as [d|]; [|done]. simpl.
    apply forbidden_top, decision_max_ub.
Qed.

(** Several commands are decided together: the decision is the strictest
    one of the commands checked alone; for no command at all the check
    panics. *)
Theorem check_multiple_strictest p commands fb :
  option_map eval_decision (check_multiple p commands fb) =
  max_decision (omap (fun cmd => option_map eval_decision (check p cmd fb)) commands).
Proof.
  unfold check_multiple, check_multiple_with_options, check, from_matches.
  set (ms := fun cmd => matches_for_command_with_options p cmd (Some fb) default_options).
  transitivity (max_decision (match_decision <$> flat_map ms commands)).
  { by destruct (max_decision (match_decision <$> flat_map ms commands)). }
  induction commands as [|cmd commands IH]; [done|].
  cbn [flat_map]. rewrite fmap_app, max_decision_app, IH, omap_cons_eq. fold (ms cmd).
  destruct (from_matches_spec (ms cmd)) as (d & _ & Hd); [apply matches_non_empty|].
  rewrite Hd. simpl. by destruct (max_decision (omap _ commands)).
Qed.

(** No host is both allowed and denied or listed twice; a host is allowed
    (denied) exactly when the last rule for it that is not a prompt allows
    (forbids) it. *)
Theorem compiled_domains_last_rule p :
  let '(allowed, denied) := compiled_network_domains p in
  NoDup (allowed ++ denied) /\
  forall h, (h ∈ allowed <-> last_verdict (network_rules p) h = Some Allow) /\
            (h ∈ denied <-> last_verdict (network_rules p) h = Some Forbidden).
Proof.
  pose proof (network_fold_ok (network_rules p)) as H. unfold compiled_network_domains.
  destruct (foldl network_step _ _) as [allowed denied]. destruct H as (H1 & H2 & H3).
  simpl in *. split; [|done]. apply NoDup_app. split; [done|]. split; [|done].
  intros h Ha Hd. apply H3 in Ha. apply H3 in Hd. congruence.
Qed.

(** Adding a prefix rule makes its decision bind every command that starts
    with the prefix, token by token, and changes the rules that apply to no
    other command; the empty prefix is refused. *)
Theorem add_prefix_rule_effect p prefix d :
  match add_prefix_rule p prefix d with
  | Err e => prefix = [] /\ e = InvalidPattern (s! "prefix cannot be empty")
  | Ok p' =>
      (forall args fb, exists e, check p' (prefix ++ args) fb = Some e /\
         decision_le d (eval_decision e)) /\
      (forall cmd, ~ prefix `prefix_of` cmd -> exact_decision p' cmd = exact_decision p cmd)
  end.
Proof.
  destruct prefix as [|first_token tokens]; [done|]. simpl.
  set (r := prefix_rule first_token tokens d).
  set (p' := {| rules_by_program := _ |}).
  assert (Hrules : forall k, rules_for p' k = rules_for p k ++ if decide (k = first_token) then [r] else []).
  { intros k. unfold rules_for, p'. simpl. rewrite mm_get_insert. case_decide; [by subst|].
    by rewrite app_nil_r. }
  assert (Hmatch : forall cmd, is_Some (matches_prefix (pattern r) cmd) <->
    first_token :: tokens `prefix_of` cmd).
  { apply matches_prefix_singles. }
  split.
  - intros args fb. destruct (check_decision p' (first_token :: tokens ++ args) fb) as (e & He & Hd & _).
    exists e. split; [done|].
    assert (Ha : applies p' r (first_token :: tokens ++ args)).
    { split; [|apply Hmatch; by exists args]. simpl. rewrite Hrules, decide_True by done. set_solver. }
    destruct (exact_decision p' _) as [d'|] eqn:E; simpl in Hd; rewrite Hd.
    + apply exact_decision_Some in E as [_ Hall]. by apply (Hall r).
    + by destruct (proj1 (exact_decision_None _ _) E r).
  - intros cmd Hno. unfold exact_decision. do 2 f_equal. unfold exact_matches.
    destruct cmd as [|c args]; [done|]. rewrite Hrules, omap_app. case_decide; [|by rewrite app_nil_r].
    rewrite omap_cons_eq. unfold rule_matches.
    destruct (matches_prefix (pattern r) (c :: args)) eqn:E; [|by rewrite app_nil_r].
    exfalso. apply Hno, Hmatch. eauto.
Qed.

(** The hosts of network rules are normalised: never empty, without upper
    case ASCII letters, white space, wildcards, path, query or fragment
    characters; a rule that cannot be normalised, or has a blank justification,
    is refused and one that is accepted is appended to the rules. *)
Theorem add_network_rule_normalised p raw proto d just p' :
  add_network_rule p raw proto d just = Ok p' ->
  exists r, network_rules p' = network_rules p ++ [r] /\
    normalize_network_rule_host raw = Ok (host r) /\ net_decision r = d /\
    host r <> [] /\ Forall (fun c => is_whitespace c = false /\ in_range 65 90 c = false) (host r) /\
    Forall (fun c => c ∉ host r) [ch "*"; ch "/"; ch "?"; ch "#"] /\
    (forall j, net_justification r = Some j -> trim j <> []).
Proof.
  unfold add_network_rule. intros (h & Hh & H)%result_bind_Ok.
  destruct (match just with Some raw => _ | None => _ end) eqn:Ej; [done|]. injection H as <-.
  eexists. split; [done|]. simpl. apply normalize_host_ok in Hh as Hok. destruct Hok as (H1 & H2 & H3).
  repeat (split; [done|]). intros j ->. by apply is_empty_false.
Qed.
End Facts.

(** ** A concrete multimap *)

Module Concrete.

Abbreviation rules := (gmap str (list RuleRef)).

#[global] Instance gmap_multimap : MultiMap rules str RuleRef := {|
  mm_new := ∅;
  mm_get_vec m k := m !! k;
  mm_insert m k v := <[k := default [] (m !! k) ++ [v]]> m;
  mm_iter_all m := map_to_list m;
|}.

#[global] Instance gmap_multimap_laws : MultiMapLaws rules str RuleRef.
Proof.
  split; simpl.
  - intros k. apply lookup_empty.
  - intros m k v k'. case_decide; subst; [by rewrite lookup_insert_eq|by rewrite lookup_insert_ne].
  - intros m. apply NoDup_fst_map_to_list.
  - intros m k vs. apply elem_of_map_to_list.
Qed.

(** Unix paths as strings: absolute when they start with a slash. *)
#[global] Instance str_path : AbsolutePath str := {|
  path_try_from s := if starts_with (s! "/") s then Some s else None;
  path_file_name p := last (split_on (ch "/") p);
|}.

Definition git_rule (d : Decision) : Policy rules str :=
  policy_new {[ s! "git" := [prefix_rule (s! "git") [s! "push"] d] ]}.

End Concrete.

Lemma merge_overlay_stricter_witness :
  exists e, check (merge_overlay (Concrete.git_rule Forbidden) (Concrete.git_rule Allow))
    [s! "git"; s! "push"; s! "-f"] (fun _ => Allow) = Some e /\ eval_decision e = Forbidden.
Proof.
  destruct (merge_overlay_stricter (Concrete.git_rule Forbidden) (Concrete.git_rule Allow)
    [s! "git"; s! "push"; s! "-f"] (fun _ => Allow)) as (e & He & _ & Hf).
  exists e. split; [exact He|]. apply Hf. left. reflexivity.
Defined.

Lemma add_prefix_rule_effect_witness :
  exists p', add_prefix_rule (Concrete.git_rule Allow) [s! "git"; s! "push"] Prompt = Ok p' /\
    exists e, check p' [s! "git"; s! "push"; s! "origin"] (fun _ => Allow) = Some e /\
      decision_le Prompt (eval_decision e).
Proof.
  pose proof (add_prefix_rule_effect (Concrete.git_rule Allow) [s! "git"; s! "push"] Prompt) as H.
  eexists. split; [reflexivity|]. destruct H as [H _].
  exact (H [s! "origin"] (fun _ => Allow)).
Defined.

Lemma add_network_rule_normalised_witness :
  exists p' r, add_network_rule (Concrete.git_rule Allow) (s! "API.Example.com:443") Https Allow None = Ok p' /\
    network_rules p' = [r] /\ host r = s! "api.example.com" /\ host r <> [].
Proof.
  eexists. assert (H : add_network_rule (Concrete.git_rule Allow) (s! "API.Example.com:443") Https
    Allow None = Ok _) by reflexivity.
  destruct (add_network_rule_normalised _ _ _ _ _ _ H) as (r & Hr & Hn & _ & Hne & _).
  exists r. split; [exact H|]. split; [exact Hr|]. split; [|exact Hne].
  enough (He : Ok (host r) = @Ok str Error (s! "api.example.com")) by congruence.
  rewrite <- Hn. reflexivity.
Defined.

(** A host rule resolved through the basename of an absolute path. *)
Example host_executable_example :
  eval_decision <$> check_with_options (Concrete.git_rule Prompt)
    [s! "/usr/bin/git"; s! "push"] (fun _ => Allow) {| resolve_host_executables := true |}
  = Some Prompt.
Proof. reflexivity. Qed.
