(* ===== verification/History.v ===== *)
(** * Conversation history: [core/src/context_manager/normalize.rs] and the
      operations of [history.rs] that use it

    Before a request is sent, the history is normalised: every call gets an
    output, every output without a call is dropped, and content the model does
    not support is replaced.  [debug] is [cfg!(debug_assertions)], under which
    [error_or_panic] panics ([None] here).  Fields that are only carried along
    have the type [opaque]; the UUID of a synthetic item comes from the caller
    ([Uuid::new_v5] on the fixed namespace). *)

From stdpp Require Import gmap.
From S2P Require Import Prelude.
From S2P Require Import RustStr.
From S2P Require Import Truncate.
From S2P Require Import OutputItems.

(** ** Data *)

Inductive InputModality := ModText | ModImage | ModAudio.

#[global] Instance modality_eq_dec : EqDecision InputModality.
Proof. solve_decision. Defined.

Inductive ContentItem :=
| MsgInputText (text : str)
| MsgInputImage (image_url : str) (detail : option ImageDetail)
| MsgInputAudio (audio_url : str)
| MsgOutputText (text : str).

Inductive AgentMessageInputContent :=
| AgentInputText (text : str)
| AgentEncryptedContent (encrypted_content : str).

Inductive FunctionCallOutputBody :=
| BodyText (content : str)
| BodyContentItems (items : list FunctionCallOutputContentItem).

Record FunctionCallOutputPayload := { body : FunctionCallOutputBody; success : option bool }.

(** [FunctionCallOutputPayload::from_text] *)
Definition payload_from_text (content : str) : FunctionCallOutputPayload :=
  {| body := BodyText content; success := None |}.

Section History.
Context {opaque : Type} (uuid_v5 : str -> str) (debug : bool).

Inductive ResponseItem :=
| AdditionalTools (id : option str) (role : str) (tools : list opaque)
| Message (id : option str) (role : str) (content : list ContentItem) (phase : option opaque)
    (metadata : option opaque)
| AgentMessage (id : option str) (author recipient : str)
    (content : list AgentMessageInputContent) (metadata : option opaque)
| Reasoning (id : option str) (summary : list opaque) (content : option (list opaque))
    (encrypted_content : option str) (metadata : option opaque)
| LocalShellCall (id : option str) (call_id : option str) (status action : opaque)
    (metadata : option opaque)
| FunctionCall (id : option str) (name : str) (namespace : option str) (arguments : str)
    (encrypted_function_args : option (list str)) (call_id : str) (metadata : option opaque)
| ToolSearchCall (id : option str) (call_id : option str) (status : option str) (execution : str)
    (arguments : opaque) (metadata : option opaque)
| FunctionCallOutput (id : option str) (call_id : str) (output : FunctionCallOutputPayload)
    (metadata : option opaque)
| CustomToolCall (id : option str) (status : option str) (call_id name : str)
    (namespace : option str) (input : str) (metadata : option opaque)
| CustomToolCallOutput (id : option str) (call_id : str) (name : option str)
    (output : FunctionCallOutputPayload) (metadata : option opaque)
| ToolSearchOutput (id : option str) (call_id : option str) (status execution : str)
    (tools : list opaque) (metadata : option opaque)
| WebSearchCall (id : option str) (status : option str) (action metadata : option opaque)
| ImageGenerationCall (id : option str) (status : str) (revised_prompt : option str) (res : str)
    (metadata : option opaque)
| Compaction (id : option str) (encrypted_content : str) (metadata : option opaque)
| CompactionTrigger
| ContextCompaction (id : option str) (encrypted_content : option str) (metadata : option opaque)
| Other.

Implicit Types i item : ResponseItem.

(** ** Missing outputs *)

Definition error_or_panic : option unit := if debug then None else Some tt.

Definition synthetic_output_id (prefix : str) (item_id : option str) : option str :=
  match item_id with
  | Some source_id =>
      if is_empty source_id then None
      else Some (prefix ++ s! "_" ++ uuid_v5 (prefix ++ s! ":" ++ source_id))
  | None => None
  end.

Definition function_output_id i : option str :=
  match i with FunctionCallOutput _ call_id _ _ => Some call_id | _ => None end.
Definition tool_search_output_id i : option str :=
  match i with ToolSearchOutput _ call_id _ _ _ _ => call_id | _ => None end.
Definition custom_tool_output_id i : option str :=
  match i with CustomToolCallOutput _ call_id _ _ _ => Some call_id | _ => None end.

Definition id_set (f : ResponseItem -> option str) (items : list ResponseItem) : gset str :=
  list_to_set (omap f items).

Definition aborted_function_output (id : option str) (call_id : str) : ResponseItem :=
  FunctionCallOutput (synthetic_output_id (s! "fco") id) call_id
    (payload_from_text (s! "aborted")) None.

(** The output to insert after a call that has none: [None] when nothing is
    missing; the inner [option] is the panic of [error_or_panic]. *)
Definition missing_output (function_ids search_ids custom_ids : gset str) (item : ResponseItem)
    : option (option ResponseItem) :=
  match item with
  | FunctionCall id _ _ _ _ call_id _ =>
      if decide (call_id ∈ function_ids) then None
      else Some (Some (aborted_function_output id call_id))
  | ToolSearchCall id (Some call_id) _ _ _ _ =>
      if decide (call_id ∈ search_ids) then None
      else Some (Some (ToolSearchOutput (synthetic_output_id (s! "tso") id) (Some call_id)
                         (s! "completed") (s! "client") [] None))
  | CustomToolCall id _ call_id _ _ _ _ =>
      if decide (call_id ∈ custom_ids) then None
      else Some (match error_or_panic with
                 | None => None
                 | Some _ =>
                     Some (CustomToolCallOutput (synthetic_output_id (s! "ctco") id) call_id None
                             (payload_from_text (s! "aborted")) None)
                 end)
  | LocalShellCall id (Some call_id) _ _ _ =>
      if decide (call_id ∈ function_ids) then None
      else Some (match error_or_panic with
                 | None => None
                 | Some _ => Some (aborted_function_output id call_id)
                 end)
  | _ => None
  end.

(** The loop that collects what to insert, with the index of the call. *)
Fixpoint missing_outputs (fo ts ct : gset str) (idx : nat) (items : list ResponseItem)
    : option (list (nat * ResponseItem)) :=
  match items with
  | [] => Some []
  | item :: rest =>
      match missing_output fo ts ct item with
      | None => missing_outputs fo ts ct (S idx) rest
      | Some None => None
      | Some (Some out) =>
          match missing_outputs fo ts ct (S idx) rest with
          | Some l => Some ((idx, out) :: l)
          | None => None
          end
      end
  end.

(** [Vec::insert]; past the end it panics. *)
Definition vec_insert (idx : nat) (x : ResponseItem) (l : list ResponseItem)
    : option (list ResponseItem) :=
  if idx <=? length l then Some (take idx l ++ x :: drop idx l) else None.

(** Insertions in reverse order. *)
Fixpoint insert_reversed (missing : list (nat * ResponseItem)) (items : list ResponseItem)
    : option (list ResponseItem) :=
  match missing with
  | [] => Some items
  | (idx, out) :: rest =>
      match insert_reversed rest items with
      | Some items => vec_insert (idx + 1) out items
      | None => None
      end
  end.

Definition ensure_call_outputs_present (items : list ResponseItem) : option (list ResponseItem) :=
  match missing_outputs (id_set function_output_id items) (id_set tool_search_output_id items)
          (id_set custom_tool_output_id items) 0 items with
  | Some missing => insert_reversed missing items
  | None => None
  end.

(** ** Orphan outputs *)

Definition function_call_id i : option str :=
  match i with FunctionCall _ _ _ _ _ call_id _ => Some call_id | _ => None end.
Definition tool_search_call_id i : option str :=
  match i with ToolSearchCall _ call_id _ _ _ _ => call_id | _ => None end.
Definition local_shell_call_id i : option str :=
  match i with LocalShellCall _ call_id _ _ _ => call_id | _ => None end.
Definition custom_tool_call_id i : option str :=
  match i with CustomToolCall _ _ call_id _ _ _ _ => Some call_id | _ => None end.

(** [has_match], with its report; [None] is the panic. *)
Definition keep_if (has_match : bool) : option bool :=
  if has_match then Some true
  else match error_or_panic with None => None | Some _ => Some false end.

Definition retain_output (fc ts ls ct : gset str) (item : ResponseItem) : option bool :=
  match item with
  | FunctionCallOutput _ call_id _ _ =>
      keep_if (bool_decide (call_id ∈ fc) || bool_decide (call_id ∈ ls))
  | CustomToolCallOutput _ call_id _ _ _ => keep_if (bool_decide (call_id ∈ ct))
  | ToolSearchOutput _ call_id _ execution _ _ =>
      if str_eqb execution (s! "server") then Some true
      else match call_id with
           | Some call_id => keep_if (bool_decide (call_id ∈ ts))
           | None => Some true
           end
  | _ => Some true
  end.

(** [Vec::retain] with a predicate that may panic. *)
Fixpoint retain (keep : ResponseItem -> option bool) (items : list ResponseItem)
    : option (list ResponseItem) :=
  match items with
  | [] => Some []
  | item :: rest =>
      match keep item with
      | None => None
      | Some b =>
          match retain keep rest with
          | Some l => Some (if b : bool then item :: l else l)
          | None => None
          end
      end
  end.

Definition remove_orphan_outputs (items : list ResponseItem) : option (list ResponseItem) :=
  retain (retain_output (id_set function_call_id items) (id_set tool_search_call_id items)
            (id_set local_shell_call_id items) (id_set custom_tool_call_id items)) items.

(** ** Removing a counterpart *)

Definition remove_first_matching (items : list ResponseItem) (predicate : ResponseItem -> bool)
    : list ResponseItem :=
  match position predicate items with
  | Some pos => take pos items ++ drop (S pos) items
  | None => items
  end.

Definition has_id (f : ResponseItem -> option str) (call_id : str) (i : ResponseItem) : bool :=
  bool_decide (f i = Some call_id).

Definition remove_corresponding_for (items : list ResponseItem) (item : ResponseItem)
    : list ResponseItem :=
  match item with
  | FunctionCall _ _ _ _ _ call_id _ =>
      remove_first_matching items (has_id function_output_id call_id)
  | FunctionCallOutput _ call_id _ _ =>
      match position (has_id function_call_id call_id) items with
      | Some pos => take pos items ++ drop (S pos) items
      | None =>
          match position (has_id local_shell_call_id call_id) items with
          | Some pos => take pos items ++ drop (S pos) items
          | None => items
          end
      end
  | ToolSearchCall _ (Some call_id) _ _ _ _ =>
      remove_first_matching items (has_id tool_search_output_id call_id)
  | ToolSearchOutput _ (Some call_id) _ _ _ _ =>
      remove_first_matching items (has_id tool_search_call_id call_id)
  | CustomToolCall _ _ call_id _ _ _ _ =>
      remove_first_matching items (has_id custom_tool_output_id call_id)
  | CustomToolCallOutput _ call_id _ _ _ =>
      remove_first_matching items (has_id custom_tool_call_id call_id)
  | LocalShellCall _ (Some call_id) _ _ _ =>
      remove_first_matching items (has_id function_output_id call_id)
  | _ => items
  end.

(** The items after [ContextManager::remove_first_item]. *)
Definition remove_first_item (items : list ResponseItem) : list ResponseItem :=
  match items with
  | [] => []
  | removed :: rest => remove_corresponding_for rest removed
  end.

(** ** Unsupported content *)

Definition IMAGE_CONTENT_OMITTED_PLACEHOLDER : str :=
  s! "image content omitted because you do not support image input".
Definition AUDIO_CONTENT_OMITTED_PLACEHOLDER : str :=
  s! "audio content omitted because you do not support audio input".

(** [content_items_mut] followed by an update of every item. *)
Definition map_content_items (f : FunctionCallOutputContentItem -> FunctionCallOutputContentItem)
    (output : FunctionCallOutputPayload) : FunctionCallOutputPayload :=
  match body output with
  | BodyText _ => output
  | BodyContentItems items => {| body := BodyContentItems (f <$> items); success := success output |}
  end.

Definition strip_message_image (c : ContentItem) : ContentItem :=
  match c with
  | MsgInputImage _ _ => MsgInputText IMAGE_CONTENT_OMITTED_PLACEHOLDER
  | other => other
  end.

Definition strip_output_image (c : FunctionCallOutputContentItem) : FunctionCallOutputContentItem :=
  match c with
  | InputImage _ _ => InputText IMAGE_CONTENT_OMITTED_PLACEHOLDER
  | other => other
  end.

Definition strip_images_in (item : ResponseItem) : ResponseItem :=
  match item with
  | Message id role content phase metadata =>
      Message id role (strip_message_image <$> content) phase metadata
  | FunctionCallOutput id call_id output metadata =>
      FunctionCallOutput id call_id (map_content_items strip_output_image output) metadata
  | CustomToolCallOutput id call_id name output metadata =>
      CustomToolCallOutput id call_id name (map_content_items strip_output_image output) metadata
  | ImageGenerationCall id status revised_prompt _ metadata =>
      ImageGenerationCall id status revised_prompt [] metadata
  | other => other
  end.

Definition strip_images_when_unsupported (input_modalities : list InputModality)
    (items : list ResponseItem) : list ResponseItem :=
  if decide (ModImage ∈ input_modalities) then items else strip_images_in <$> items.

Definition strip_message_audio (c : ContentItem) : ContentItem :=
  match c with
  | MsgInputAudio _ => MsgInputText AUDIO_CONTENT_OMITTED_PLACEHOLDER
  | other => other
  end.

Definition strip_output_audio (c : FunctionCallOutputContentItem) : FunctionCallOutputContentItem :=
  match c with
  | InputAudio _ => InputText AUDIO_CONTENT_OMITTED_PLACEHOLDER
  | other => other
  end.

Definition strip_audio_in (item : ResponseItem) : ResponseItem :=
  match item with
  | Message id role content phase metadata =>
      Message id role (strip_message_audio <$> content) phase metadata
  | FunctionCallOutput id call_id output metadata =>
      FunctionCallOutput id call_id (map_content_items strip_output_audio output) metadata
  | CustomToolCallOutput id call_id name output metadata =>
      CustomToolCallOutput id call_id name (map_content_items strip_output_audio output) metadata
  | other => other
  end.

Definition strip_audio_when_unsupported (input_modalities : list InputModality)
    (items : list ResponseItem) : list ResponseItem :=
  if decide (ModAudio ∈ input_modalities) then items else strip_audio_in <$> items.

(** [normalize_history], as [for_prompt] returns it. *)
Definition normalize_history (input_modalities : list InputModality) (items : list ResponseItem)
    : option (list ResponseItem) :=
  match ensure_call_outputs_present items with
  | None => None
  | Some items =>
      match remove_orphan_outputs items with
      | None => None
      | Some items =>
          Some (strip_audio_when_unsupported input_modalities
                  (strip_images_when_unsupported input_modalities items))
      end
  end.

End History.
Arguments ResponseItem opaque : clear implicits.
