(* ===== verification/HistoryFacts.v ===== *)
(** * Correctness of history normalisation

    After normalisation calls and outputs are paired and unsupported content is
    gone; dropping the oldest item keeps a paired history paired. *)

From stdpp Require Import gmap.
From S2P Require Import Prelude.
From S2P Require Import RustStr.
From S2P Require Import OutputItems.
From S2P Require Import History.

(** ** Calls and outputs *)

Inductive call_kind := KFunction | KSearch | KCustom.

#[global] Instance call_kind_eq_dec : EqDecision call_kind.
Proof. solve_decision. Defined.

Section Facts.
Context {opaque : Type} (uuid_v5 : str -> str).
Abbreviation item := (ResponseItem opaque).
Abbreviation key := (call_kind * str)%type.
Implicit Types (i : item) (items : list item).

(** The key of the output a call waits for; a local shell call is answered by
    a function output. *)
Definition expects i : option key :=
  match i with
  | FunctionCall _ _ _ _ _ call_id _ => Some (KFunction, call_id)
  | LocalShellCall _ (Some call_id) _ _ _ => Some (KFunction, call_id)
  | ToolSearchCall _ (Some call_id) _ _ _ _ => Some (KSearch, call_id)
  | CustomToolCall _ _ call_id _ _ _ _ => Some (KCustom, call_id)
  | _ => None
  end.

(** The key of the call an output answers. *)
Definition answers i : option key :=
  match i with
  | FunctionCallOutput _ call_id _ _ => Some (KFunction, call_id)
  | ToolSearchOutput _ (Some call_id) _ _ _ _ => Some (KSearch, call_id)
  | CustomToolCallOutput _ call_id _ _ _ => Some (KCustom, call_id)
  | _ => None
  end.

(** The same, less the outputs of searches run by the server. *)
Definition needs_call i : option key :=
  match i with
  | ToolSearchOutput _ _ _ execution _ _ =>
      if str_eqb execution (s! "server") then None else answers i
  | _ => answers i
  end.

Definition calls_answered items : Prop :=
  forall i k, i ∈ items -> expects i = Some k -> exists o, o ∈ items /\ answers o = Some k.

Definition outputs_matched items : Prop :=
  forall o k, o ∈ items -> needs_call o = Some k -> exists i, i ∈ items /\ expects i = Some k.

(** ** Missing outputs *)

(** The synthetic output for an item, outside debug builds. *)
Definition synthetic (all : list item) (i : item) : list item :=
  match missing_output uuid_v5 false (id_set function_output_id all)
          (id_set tool_search_output_id all) (id_set custom_tool_output_id all) i with
  | Some (Some out) => [out]
  | _ => []
  end.

Lemma vec_insert_app n (x : item) pre l :
  length pre = n -> vec_insert n x (pre ++ l) = Some (pre ++ x :: l).
Proof.
  intros <-. unfold vec_insert. rewrite length_app, (proj2 (Nat.leb_le _ _)) by lia.
  by rewrite take_app_length, drop_app_length.
Qed.

Lemma insert_missing all idx pre rest :
  length pre = idx ->
  exists missing,
    missing_outputs uuid_v5 false (id_set function_output_id all) (id_set tool_search_output_id all)
      (id_set custom_tool_output_id all) idx rest = Some missing /\
    insert_reversed missing (pre ++ rest) =
      Some (pre ++ mjoin ((fun i => i :: synthetic all i) <$> rest)).
Proof.
  revert idx pre. induction rest as [|i rest IH]; intros idx pre Hlen; simpl.
  { by exists []. }
  unfold synthetic at 1. destruct (IH (S idx) (pre ++ [i])) as (missing & Hm & Hins).
  { rewrite length_app. simpl. lia. }
  rewrite <- !app_assoc in Hins. simpl in Hins.
  destruct (missing_output _ _ _ _ _ i) as [[out|]|] eqn:E.
  - rewrite Hm. eexists. split; [done|]. simpl. rewrite Hins.
    rewrite cons_middle, app_assoc, vec_insert_app by (rewrite length_app; simpl; lia).
    by rewrite <- app_assoc.
  - exfalso. unfold missing_output in E. destruct i; try done; repeat case_match; done.
  - exists missing. by rewrite Hm, Hins.
Qed.

Lemma ensure_reference items :
  ensure_call_outputs_present uuid_v5 false items =
  Some (mjoin ((fun i => i :: synthetic items i) <$> items)).
Proof.
  unfold ensure_call_outputs_present.
  destruct (insert_missing items 0 [] items eq_refl) as (missing & -> & H). exact H.
Qed.

Lemma elem_of_id_set (f : item -> option str) items c :
  c ∈ id_set f items <-> exists i, i ∈ items /\ f i = Some c.
Proof. unfold id_set. rewrite elem_of_list_to_set. apply list_elem_of_omap. Qed.

Lemma elem_of_ensured items o :
  o ∈ mjoin ((fun i => i :: synthetic items i) <$> items) <->
  o ∈ items \/ exists i, i ∈ items /\ o ∈ synthetic items i.
Proof.
  rewrite list_elem_of_join. split.
  - intros (l & Ho & Hl). apply list_elem_of_fmap in Hl as (i & -> & Hi).
    apply elem_of_cons in Ho as [->|Ho]; eauto.
  - intros [Ho|(i & Hi & Ho)].
    + exists (o :: synthetic items o). split; [by left|]. apply list_elem_of_fmap. eauto.
    + exists (i :: synthetic items i). split; [by right|]. apply list_elem_of_fmap. eauto.
Qed.

(** A call is answered already, or its synthetic output answers it. *)
Lemma synthetic_answers items i k :
  expects i = Some k ->
  (exists o, o ∈ items /\ answers o = Some k) \/
  exists o, o ∈ synthetic items i /\ answers o = Some k.
Proof.
  intros Hk. unfold synthetic, missing_output.
  assert (Hin : forall f kd c, (forall j : item, f j = Some c -> answers j = Some (kd, c)) ->
    c ∈ id_set f items -> exists o, o ∈ items /\ answers o = Some (kd, c)).
  { intros f kd c Hf (o & Ho & Hid)%elem_of_id_set. eauto. }
  destruct i as [| | | |? [c|]| |? [c|]| | | | | | | | | |]; simplify_eq/=;
    (case_decide as Hdec; [left; eapply Hin, Hdec|right; eexists; split; [by left|done]]);
    intros [] Hj; by simplify_eq/=.
Qed.

Lemma synthetic_output items i o :
  o ∈ synthetic items i -> expects o = None /\ needs_call o = expects i.
Proof.
  unfold synthetic, missing_output. intros H.
  destruct i; simpl in H; repeat case_match; simplify_eq/=;
    try (by apply not_elem_of_nil in H); apply list_elem_of_singleton in H as ->; done.
Qed.

Lemma ensured_answered items :
  calls_answered (mjoin ((fun i => i :: synthetic items i) <$> items)).
Proof.
  intros i k Hi Hk. apply elem_of_ensured in Hi as [Hi|(j & Hj & Hi)].
  - destruct (synthetic_answers items i k Hk) as [(o & Ho & Ha)|(o & Ho & Ha)];
      exists o; (split; [|done]); apply elem_of_ensured; eauto.
  - apply synthetic_output in Hi as [Hi _]. congruence.
Qed.

(** ** Orphans *)

Definition kept (all : list item) (i : item) : bool :=
  match retain_output false (id_set function_call_id all) (id_set tool_search_call_id all)
          (id_set local_shell_call_id all) (id_set custom_tool_call_id all) i with
  | Some b => b
  | None => false
  end.

Lemma remove_orphan_reference items :
  remove_orphan_outputs false items = Some (List.filter (kept items) items).
Proof.
  unfold remove_orphan_outputs, kept.
  generalize (id_set function_call_id items), (id_set tool_search_call_id items),
    (id_set local_shell_call_id items), (id_set custom_tool_call_id items).
  intros fc ts ls ct. induction items as [|i items IH]; [done|]. simpl. rewrite IH.
  destruct (retain_output false fc ts ls ct i) as [[]|] eqn:E; [done|done|]. exfalso.
  destruct i; simpl in E; repeat case_match; unfold keep_if in *; repeat case_match; done.
Qed.

Lemma keep_if_true b : keep_if false b = Some b.
Proof. by destruct b. Qed.

(** Exactly the outputs whose call is missing are dropped. *)
Lemma kept_spec all i :
  kept all i = true <->
  forall k, needs_call i = Some k -> exists c, c ∈ all /\ expects c = Some k.
Proof.
  assert (Hcall : forall f kd c, (forall j : item, f j = Some c <-> expects j = Some (kd, c)) ->
    c ∈ id_set f all <-> exists j, j ∈ all /\ expects j = Some (kd, c)).
  { intros f kd c Hf. rewrite elem_of_id_set. split; intros (j & Hj & H); exists j; by rewrite Hf in *. }
  unfold kept, needs_call. destruct i; simpl; try (by split; [done|]).
  - rewrite keep_if_true. split.
    + intros H k [= <-]. apply orb_true_iff in H as [H|H]; apply bool_decide_eq_true in H;
        apply elem_of_id_set in H as (j & Hj & Hid); exists j; (split; [done|]);
        destruct j; simplify_eq/=; done.
    + intros H. destruct (H _ eq_refl) as (j & Hj & Hid). apply orb_true_iff.
      destruct j as [| | | |? [c|]| |? [c|]| | | | | | | | | |]; simplify_eq/=; [right|left];
        apply bool_decide_eq_true, elem_of_id_set; eexists; by split.
  - rewrite keep_if_true, bool_decide_eq_true, (Hcall _ KCustom).
    + split; [by intros H k [= <-]|auto].
    + intros j. destruct j; simpl; repeat case_match; naive_solver.
  - destruct (str_eqb execution _); [done|]. destruct call_id as [c|]; [|done].
    rewrite keep_if_true, bool_decide_eq_true, (Hcall _ KSearch).
    + split; [by intros H k [= <-]|auto].
    + intros j. destruct j; simpl; repeat case_match; naive_solver.
Qed.

Lemma expects_kept all i k : expects i = Some k -> kept all i = true.
Proof. destruct i; simpl; intros; simplify_eq; done. Qed.

Lemma elem_of_kept all items i : i ∈ List.filter (kept all) items <-> i ∈ items /\ kept all i = true.
Proof. rewrite !list_elem_of_In. apply filter_In. Qed.

Lemma orphans_removed items :
  calls_answered items ->
  calls_answered (List.filter (kept items) items) /\ outputs_matched (List.filter (kept items) items).
Proof.
  intros Hc. split.
  - intros i k [Hi _]%elem_of_kept Hk. destruct (Hc i k Hi Hk) as (o & Ho & Ha).
    exists o. split; [|done]. apply elem_of_kept. split; [done|]. apply kept_spec.
    intros k' Hk'. exists i. split; [done|].
    assert (answers o = Some k') as Ha'.
    { unfold needs_call in Hk'. destruct o; try done. by destruct (str_eqb _ _). }
    congruence.
  - intros o k [Ho Hkeep]%elem_of_kept Hk. rewrite kept_spec in Hkeep.
    destruct (Hkeep k Hk) as (i & Hi & He). exists i. split; [|done].
    apply elem_of_kept. split; [done|]. by eapply expects_kept.
Qed.

(** ** Nothing to do on a paired history *)

Lemma synthetic_none items i :
  calls_answered items -> i ∈ items -> synthetic items i = [].
Proof.
  intros Hc Hi. unfold synthetic.
  assert (Hin : forall f kd c, (forall j : item, answers j = Some (kd, c) -> f j = Some c) ->
    expects i = Some (kd, c) -> c ∈ id_set f items).
  { intros f kd c Hf He. destruct (Hc i _ Hi He) as (o & Ho & Ha). apply elem_of_id_set. eauto. }
  destruct i as [| | | |? [c|]| |? [c|]| | | | | | | | | |]; try done; simpl;
    (rewrite decide_True; [done|]); (eapply Hin; [|done]);
    intros [| | | | | | | | | |? [c'|]| | | | | |] Hj; by simplify_eq/=.
Qed.

Lemma ensured_id items :
  calls_answered items -> mjoin ((fun i => i :: synthetic items i) <$> items) = items.
Proof.
  intros Hc. assert (H : forall l, (forall i, i ∈ l -> i ∈ items) ->
    mjoin ((fun i => i :: synthetic items i) <$> l) = l); [|by apply H].
  induction l as [|i l IH]; intros Hl; [done|]. rewrite fmap_cons. simpl.
  rewrite synthetic_none by (done || apply Hl; by left). simpl. f_equal. apply IH.
  intros j Hj. apply Hl. by right.
Qed.

Lemma kept_id items : outputs_matched items -> List.filter (kept items) items = items.
Proof.
  intros Hm. assert (H : forall l, (forall i, i ∈ l -> i ∈ items) ->
    List.filter (kept items) l = l); [|by apply H].
  induction l as [|i l IH]; intros Hl; [done|]. simpl.
  rewrite (proj2 (kept_spec items i)).
  - f_equal. apply IH. intros j Hj. apply Hl. by right.
  - intros k Hk. apply (Hm i); [apply Hl; by left|done].
Qed.

(** ** Stripping *)

(** A change of content that keeps the pairing. *)
Definition same_keys (f : item -> item) : Prop :=
  forall i, expects (f i) = expects i /\ answers (f i) = answers i /\ needs_call (f i) = needs_call i.

Lemma strip_images_keys : same_keys strip_images_in.
Proof. intros []; done. Qed.

Lemma strip_audio_keys : same_keys strip_audio_in.
Proof. intros []; done. Qed.

Lemma paired_fmap f items :
  same_keys f -> calls_answered items -> outputs_matched items ->
  calls_answered (f <$> items) /\ outputs_matched (f <$> items).
Proof.
  intros Hf Hc Hm. split.
  - intros i k (j & -> & Hj)%list_elem_of_fmap Hk. destruct (Hf j) as (He & _ & _).
    rewrite He in Hk. destruct (Hc j k Hj Hk) as (o & Ho & Ha). exists (f o).
    split; [by apply list_elem_of_fmap_2|]. by rewrite (proj1 (proj2 (Hf o))).
  - intros o k (j & -> & Hj)%list_elem_of_fmap Hk. destruct (Hf j) as (_ & _ & He).
    rewrite He in Hk. destruct (Hm j k Hj Hk) as (i & Hi & Ha). exists (f i).
    split; [by apply list_elem_of_fmap_2|]. by rewrite (proj1 (Hf i)).
Qed.

Definition strip (mods : list InputModality) items : list item :=
  strip_audio_when_unsupported mods (strip_images_when_unsupported mods items).

Lemma strip_paired mods items :
  calls_answered items -> outputs_matched items ->
  calls_answered (strip mods items) /\ outputs_matched (strip mods items).
Proof.
  intros Hc Hm. unfold strip.
  assert (H : calls_answered (strip_images_when_unsupported mods items) /\
    outputs_matched (strip_images_when_unsupported mods items)).
  { unfold strip_images_when_unsupported. case_decide; [done|].
    by apply paired_fmap; [apply strip_images_keys|..]. }
  destruct H as [H1 H2]. unfold strip_audio_when_unsupported. case_decide; [done|].
  by apply paired_fmap; [apply strip_audio_keys|..].
Qed.

Lemma strip_images_in_idemp i : strip_images_in (strip_images_in i) = strip_images_in i.
Proof.
  assert (Hm : forall c, strip_message_image (strip_message_image c) = strip_message_image c)
    by (by intros []).
  assert (Ho : forall o, map_content_items strip_output_image (map_content_items strip_output_image o)
    = map_content_items strip_output_image o).
  { intros [[|l] ?]; [done|]. unfold map_content_items. simpl. f_equal. f_equal.
    rewrite <- list_fmap_compose. apply list_fmap_ext. by intros ? [] _. }
  destruct i; simpl; try done; f_equal; try apply Ho.
  rewrite <- list_fmap_compose. apply list_fmap_ext. intros ? c _. apply Hm.
Qed.

Lemma strip_audio_in_idemp i : strip_audio_in (strip_audio_in i) = strip_audio_in i.
Proof.
  assert (Ho : forall o, map_content_items strip_output_audio (map_content_items strip_output_audio o)
    = map_content_items strip_output_audio o).
  { intros [[|l] ?]; [done|]. unfold map_content_items. simpl. f_equal. f_equal.
    rewrite <- list_fmap_compose. apply list_fmap_ext. by intros ? [] _. }
  destruct i; simpl; try done; f_equal; try apply Ho.
  rewrite <- list_fmap_compose. apply list_fmap_ext. by intros ? [] _.
Qed.

(** Stripping one kind of content leaves nothing to strip of the other. *)
Lemma strip_images_audio_comm i :
  strip_images_in (strip_audio_in i) = strip_audio_in (strip_images_in i).
Proof.
  assert (Ho : forall o, map_content_items strip_output_image (map_content_items strip_output_audio o)
    = map_content_items strip_output_audio (map_content_items strip_output_image o)).
  { intros [[|l] ?]; [done|]. unfold map_content_items. simpl. f_equal. f_equal.
    rewrite <- !list_fmap_compose. apply list_fmap_ext. by intros ? [] _. }
  destruct i; simpl; try done; f_equal; try apply Ho.
  rewrite <- !list_fmap_compose. apply list_fmap_ext. by intros ? [] _.
Qed.

Lemma strip_idemp mods items : strip mods (strip mods items) = strip mods items.
Proof.
  unfold strip, strip_audio_when_unsupported, strip_images_when_unsupported.
  repeat case_decide; rewrite <- ?list_fmap_compose; try done; apply list_fmap_ext; intros ? i _; simpl.
  - apply strip_images_in_idemp.
  - apply strip_audio_in_idemp.
  - by rewrite strip_images_audio_comm, strip_images_in_idemp, strip_audio_in_idemp.
Qed.

Lemma normalize_reference mods items :
  exists paired, normalize_history uuid_v5 false mods items = Some (strip mods paired) /\
    paired = List.filter (kept (mjoin ((fun i => i :: synthetic items i) <$> items)))
      (mjoin ((fun i => i :: synthetic items i) <$> items)) /\
    calls_answered paired /\ outputs_matched paired.
Proof.
  unfold normalize_history. rewrite ensure_reference, remove_orphan_reference.
  eexists. split; [done|]. split; [done|]. apply orphans_removed, ensured_answered.
Qed.

(** ** Content *)

Definition payload_items (o : FunctionCallOutputPayload) : list FunctionCallOutputContentItem :=
  match body o with BodyText _ => [] | BodyContentItems l => l end.

Definition message_items i : list ContentItem :=
  match i with Message _ _ content _ _ => content | _ => [] end.

Definition output_items i : list FunctionCallOutputContentItem :=
  match i with
  | FunctionCallOutput _ _ o _ | CustomToolCallOutput _ _ _ o _ => payload_items o
  | _ => []
  end.

Definition image_free i : Prop :=
  (forall u d, MsgInputImage u d ∉ message_items i) /\ (forall u d, InputImage u d ∉ output_items i) /\
  match i with ImageGenerationCall _ _ _ r _ => r = [] | _ => True end.

Definition audio_free i : Prop :=
  (forall u, MsgInputAudio u ∉ message_items i) /\ (forall u, InputAudio u ∉ output_items i).

Lemma payload_items_map f o : payload_items (map_content_items f o) = f <$> payload_items o.
Proof. by destruct o as [[|l] ?]. Qed.

Lemma strip_images_free i : image_free (strip_images_in i).
Proof.
  split; [|split].
  - intros u d. destruct i; simpl; try apply not_elem_of_nil.
    intros ([] & Hc & _)%list_elem_of_fmap; done.
  - intros u d. destruct i; simpl; try apply not_elem_of_nil; rewrite payload_items_map;
      intros ([] & Hc & _)%list_elem_of_fmap; done.
  - by destruct i.
Qed.

Lemma strip_audio_free i : audio_free (strip_audio_in i) /\ (image_free i -> image_free (strip_audio_in i)).
Proof.
  split; [split|].
  - intros u. destruct i; simpl; try apply not_elem_of_nil.
    intros ([] & Hc & _)%list_elem_of_fmap; done.
  - intros u. destruct i; simpl; try apply not_elem_of_nil; rewrite payload_items_map;
      intros ([] & Hc & _)%list_elem_of_fmap; done.
  - intros (H1 & H2 & H3). split; [|split].
    + intros u d. destruct i; simpl; try apply not_elem_of_nil.
      intros ([] & Hc & Hin)%list_elem_of_fmap; simplify_eq/=. by eapply H1.
    + intros u d. destruct i; simpl; try apply not_elem_of_nil; rewrite payload_items_map;
        intros ([] & Hc & Hin)%list_elem_of_fmap; simplify_eq/=; by eapply H2.
    + by destruct i.
Qed.

(** ** Properties *)

(** C39: In release builds normalisation always returns, and what it returns is
    paired: every function, custom tool, tool search and local shell call with
    an id has an output of its kind; every output has a call, except the outputs
    of tool searches that were run by the server or that have no call id, which
    are kept as they are although the comment of the function says that every
    output has a call; normalising again changes nothing. *)
Theorem normalize_pairs mods items :
  exists items', normalize_history uuid_v5 false mods items = Some items' /\
    calls_answered items' /\ outputs_matched items' /\
    normalize_history uuid_v5 false mods items' = Some items'.
Proof.
  destruct (normalize_reference mods items) as (l & Hn & _ & Hc & Hm).
  exists (strip mods l). destruct (strip_paired mods l Hc Hm) as [Hc' Hm'].
  split; [done|]. split; [done|]. split; [done|].
  unfold normalize_history. rewrite ensure_reference, ensured_id by done.
  rewrite remove_orphan_reference, kept_id by done. f_equal. apply strip_idemp.
Qed.

(** Normalisation invents nothing else and keeps the order: its result is
    the history with the synthetic output of each unanswered call right after
    the call, without the orphan outputs, and with each item stripped. *)
Theorem normalize_order mods items :
  let ensured := mjoin ((fun i => i :: synthetic items i) <$> items) in
  normalize_history uuid_v5 false mods items =
    Some (strip mods (List.filter (kept ensured) ensured)) /\
  (forall i o, o ∈ synthetic items i -> expects i <> None /\ needs_call o = expects i) /\
  (forall i, i ∈ ensured -> (kept ensured i = false <->
     exists k, needs_call i = Some k /\ forall c, c ∈ ensured -> expects c <> Some k)).
Proof.
  intros ensured. destruct (normalize_reference mods items) as (l & Hn & -> & _ & _).
  split; [done|]. split.
  - intros i o Ho. pose proof (synthetic_output _ _ _ Ho) as [_ Hk]. split; [|done].
    rewrite <- Hk. unfold synthetic, missing_output in Ho.
    destruct i; simpl in Ho; repeat case_match; simplify_eq/=;
      try (by apply not_elem_of_nil in Ho); apply list_elem_of_singleton in Ho as ->; done.
  - intros i Hi. destruct (kept ensured i) eqn:E.
    + pose proof (proj1 (kept_spec ensured i) E) as Hcall. split; [done|]. intros (k & Hk & Hno).
      destruct (Hcall k Hk) as (c & Hc & He). by destruct (Hno c Hc).
    + split; [intros _|done]. destruct (needs_call i) as [k|] eqn:Hk.
      * exists k. split; [done|]. intros c Hc He. apply not_true_iff_false in E. apply E.
        apply kept_spec. intros k' Hk'. rewrite Hk in Hk'. simplify_eq. eauto.
      * apply not_true_iff_false in E. destruct E. apply kept_spec. by rewrite Hk.
Qed.

(** Content the model does not support is gone after normalisation: images
    (and the results of image generation) when images are not among its
    modalities, audio when audio is not. *)
Theorem normalize_strips mods items :
  exists items', normalize_history uuid_v5 false mods items = Some items' /\
    (ModImage ∉ mods -> Forall image_free items') /\ (ModAudio ∉ mods -> Forall audio_free items').
Proof.
  destruct (normalize_reference mods items) as (l & Hn & _). exists (strip mods l).
  split; [done|]. unfold strip, strip_audio_when_unsupported, strip_images_when_unsupported.
  split; intros Hno; apply Forall_forall; intros i Hi; repeat case_decide; try done.
  - apply list_elem_of_fmap in Hi as (j & -> & _). apply strip_images_free.
  - apply list_elem_of_fmap in Hi as (j & -> & Hj). apply list_elem_of_fmap in Hj as (j' & -> & _).
    apply strip_audio_free, strip_images_free.
  - apply list_elem_of_fmap in Hi as (j & -> & _). apply strip_audio_free.
  - apply list_elem_of_fmap in Hi as (j & -> & _). apply strip_audio_free.
Qed.

End Facts.

Section RemoveFirst.
Context {opaque : Type}.
Abbreviation item := (ResponseItem opaque).
Abbreviation key := (call_kind * str)%type.
Implicit Types (i : item) (items : list item).

(** ** Removing the oldest item *)

Definition paired items : Prop :=
  calls_answered items /\ outputs_matched items /\
  NoDup (omap expects items) /\ NoDup (omap answers items).

(** [l] is [items] without one element, which has the key [k], or [items] itself
    if no element has it. *)
Definition without (f : item -> option key) (k : key) items (l : list item) : Prop :=
  (exists a x b, items = a ++ x :: b /\ l = a ++ b /\ f x = Some k) \/
  (l = items /\ forall x, x ∈ items -> f x <> Some k).

Lemma remove_at_position (p : item -> bool) items pos :
  position p items = Some pos ->
  exists a x b, items = a ++ x :: b /\ take pos items ++ drop (S pos) items = a ++ b /\ p x = true.
Proof.
  intros (x & Hx & Hp & _)%position_Some.
  exists (take pos items), x, (drop (S pos) items). split; [|done].
  symmetry. by apply take_drop_middle.
Qed.

Lemma remove_first_matching_without f k items p :
  (forall x, p x = true <-> f x = Some k) -> without f k items (remove_first_matching items p).
Proof.
  intros Hp. unfold remove_first_matching. destruct (position p items) as [pos|] eqn:E.
  - apply remove_at_position in E as (a & x & b & -> & -> & Hx). left.
    exists a, x, b. by rewrite <- Hp.
  - rewrite position_None in E. right. split; [done|]. intros x Hx Hf. apply Hp in Hf.
    by rewrite E in Hf.
Qed.

Lemma has_id_iff (f : item -> option str) (g : item -> option key) kd c :
  (forall x, f x = Some c <-> g x = Some (kd, c)) ->
  forall x, has_id f c x = true <-> g x = Some (kd, c).
Proof. intros H x. unfold has_id. by rewrite bool_decide_eq_true. Qed.

(** The counterpart of a call or an output goes with it. *)
Lemma remove_corresponding_spec items i :
  match expects i, answers i with
  | Some k, _ => without answers k items (remove_corresponding_for items i)
  | None, Some k => without expects k items (remove_corresponding_for items i)
  | None, None => remove_corresponding_for items i = items
  end.
Proof.
  destruct i as [| | | |? [c|]|? ? ? ? ? c|? [c|]|? c|? ? c|? c|? [c|]| | | | | |]; simpl; try done;
    try (apply remove_first_matching_without, has_id_iff;
         intros [| | | |? [c'|]| |? [c'|]| | | |? [c'|]| | | | | |]; simpl; naive_solver).
  destruct (position (has_id function_call_id c) items) as [pos|] eqn:E1.
  - apply remove_at_position in E1 as (a & x & b & -> & -> & Hx). left. exists a, x, b.
    split; [done|]. split; [done|]. unfold has_id in Hx. apply bool_decide_eq_true in Hx.
    destruct x; by simplify_eq/=.
  - destruct (position (has_id local_shell_call_id c) items) as [pos|] eqn:E2.
    + apply remove_at_position in E2 as (a & x & b & -> & -> & Hx). left. exists a, x, b.
      split; [done|]. split; [done|]. unfold has_id in Hx. apply bool_decide_eq_true in Hx.
      destruct x; by simplify_eq/=.
    + rewrite position_None in E1, E2. right. split; [done|]. intros x Hx Hk.
      specialize (E1 x Hx). specialize (E2 x Hx). unfold has_id in *.
      apply bool_decide_eq_false in E1, E2.
      destruct x as [| | | |? [c'|]| |? [c'|]| | | | | | | | | |]; by simplify_eq/=.
Qed.

Lemma NoDup_omap_middle (f : item -> option key) a x b k y :
  NoDup (omap f (a ++ x :: b)) -> f x = Some k -> y ∈ a ++ b -> f y <> Some k.
Proof.
  rewrite omap_app, omap_cons_eq. intros Hnd Hx Hy Hk. rewrite Hx in Hnd.
  apply NoDup_app in Hnd as (_ & Hdisj & Hnd). apply NoDup_cons in Hnd as [Hnot _].
  apply elem_of_app in Hy as [Hy|Hy].
  - apply (Hdisj k); [apply list_elem_of_omap; eauto|by left].
  - apply Hnot, list_elem_of_omap. eauto.
Qed.

Lemma NoDup_omap_remove (f : item -> option key) a x b :
  NoDup (omap f (a ++ x :: b)) -> NoDup (omap f (a ++ b)).
Proof.
  rewrite !omap_app, omap_cons_eq. intros H. destruct (f x); [|done].
  apply NoDup_app in H as (H1 & H2 & H3). apply NoDup_cons in H3 as [_ H3].
  apply NoDup_app. split; [done|]. split; [|done]. intros k Hk Hb. apply (H2 k Hk). by right.
Qed.

Lemma without_NoDup (f g : item -> option key) k items l :
  without f k items l -> NoDup (omap g items) -> NoDup (omap g l).
Proof.
  intros [(a & x & b & -> & -> & _)|[-> _]] H; [by eapply NoDup_omap_remove|done].
Qed.

Lemma NoDup_omap_tail (g : item -> option key) i items :
  NoDup (omap g (i :: items)) -> NoDup (omap g items).
Proof. intros H. by apply (NoDup_omap_remove g [] i items). Qed.

(** An element with a key other than the removed one is still there. *)
Lemma without_elem f k items l x :
  without f k items l -> x ∈ items -> f x <> Some k -> x ∈ l.
Proof.
  intros [(a & y & b & -> & -> & Hy)|[-> _]] Hx Hne; [|done].
  apply elem_of_app in Hx as [Hx|[->|Hx]%elem_of_cons]; [apply elem_of_app; auto|done|].
  apply elem_of_app. auto.
Qed.

Lemma without_sub f k items l x : without f k items l -> x ∈ l -> x ∈ items.
Proof.
  intros [(a & y & b & -> & -> & _)|[-> _]] Hx; [|done].
  apply elem_of_app in Hx as [Hx|Hx]; apply elem_of_app; [by left|right; by right].
Qed.

Lemma without_key f k items l x :
  NoDup (omap f items) -> without f k items l -> x ∈ l -> f x <> Some k.
Proof.
  intros Hnd [(a & y & b & -> & -> & Hy)|[-> Hno]] Hx; [|by apply Hno].
  by eapply NoDup_omap_middle.
Qed.

Lemma needs_answers i k : needs_call i = Some k -> answers i = Some k.
Proof. unfold needs_call. destruct i; try done. by destruct (str_eqb _ _). Qed.

Lemma answers_no_expects i k : answers i = Some k -> expects i = None.
Proof. by destruct i. Qed.

Lemma remove_first_paired items : paired items -> paired (remove_first_item items).
Proof.
  destruct items as [|i items]; [done|]. intros (Hc & Hm & Hne & Hna).
  pose proof (remove_corresponding_spec items i) as Hspec. simpl.
  pose proof (NoDup_omap_tail _ _ _ Hne) as Hne'. pose proof (NoDup_omap_tail _ _ _ Hna) as Hna'.
  destruct (expects i) as [k|] eqn:He; [|destruct (answers i) as [k|] eqn:Ha].
  - assert (Hai : answers i = None) by (by destruct i).
    assert (Hother : forall j, j ∈ items -> expects j <> Some k)
      by (intros j Hj; by apply (NoDup_omap_middle expects [] i items)).
    split; [|split; [|split; by eapply without_NoDup]].
    + intros j k' Hj Hk'. apply (without_sub _ _ _ _ _ Hspec) in Hj as Hj'.
      destruct (Hc j k') as (o & [->|Ho]%elem_of_cons & Hoa); [by right|done|congruence|].
      exists o. split; [|done]. eapply without_elem; [done..|]. intros Heq.
      apply (Hother j Hj'). congruence.
    + intros o k' Ho Hk'. apply needs_answers in Hk' as Hoa.
      pose proof (without_key _ _ _ _ _ Hna' Hspec Ho) as Hneq.
      apply (without_sub _ _ _ _ _ Hspec) in Ho as Ho'.
      destruct (Hm o k') as (c & [->|Hin]%elem_of_cons & Hce); [by right|done|congruence|].
      exists c. split; [|done]. eapply without_elem; [done..|]. by destruct c.
  - assert (Hother : forall j, j ∈ items -> answers j <> Some k)
      by (intros j Hj; by apply (NoDup_omap_middle answers [] i items)).
    split; [|split; [|split; by eapply without_NoDup]].
    + intros j k' Hj Hk'. pose proof (without_key _ _ _ _ _ Hne' Hspec Hj) as Hneq.
      apply (without_sub _ _ _ _ _ Hspec) in Hj as Hj'.
      destruct (Hc j k') as (o & [->|Ho]%elem_of_cons & Hoa); [by right|done|congruence|].
      exists o. split; [|done]. eapply without_elem; [done..|].
      by rewrite (answers_no_expects o k').
    + intros o k' Ho Hk'. apply needs_answers in Hk' as Hoa.
      apply (without_sub _ _ _ _ _ Hspec) in Ho as Ho'.
      destruct (Hm o k') as (c & [->|Hin]%elem_of_cons & Hce); [by right|done|congruence|].
      exists c. split; [|done]. eapply without_elem; [done..|]. intros Heq.
      apply (Hother o Ho'). congruence.
  - rewrite Hspec. split; [|split; [|done]].
    + intros j k' Hj Hk'. destruct (Hc j k') as (o & [->|Ho]%elem_of_cons & Hoa);
        [by right|done|congruence|eauto].
    + intros o k' Ho Hk'. destruct (Hm o k') as (c & [->|Hin]%elem_of_cons & Hce);
        [by right|done|congruence|eauto].
Qed.

(** Dropping the oldest item of a paired history, with the counterpart that
    [remove_corresponding_for] takes along, leaves a paired history. *)
Theorem remove_first_item_paired items :
  paired items -> paired (remove_first_item items).
Proof. apply remove_first_paired. Qed.

End RemoveFirst.

Definition call1 : ResponseItem unit :=
  FunctionCall None (s! "f") None (s! "{}") None (s! "c1") None.
Definition call2 : ResponseItem unit :=
  CustomToolCall None None (s! "c2") (s! "g") None (s! "x") None.
Definition output1 : ResponseItem unit :=
  FunctionCallOutput None (s! "c1") (payload_from_text (s! "ok")) None.
Definition output2 : ResponseItem unit :=
  CustomToolCallOutput None (s! "c2") None (payload_from_text (s! "y")) None.

Definition sample_history : list (ResponseItem unit) := [call1; call2; output2; output1].

Lemma remove_first_item_paired_witness :
  paired (remove_first_item sample_history) /\ remove_first_item sample_history = [call2; output2].
Proof.
  split; [|reflexivity]. apply (remove_first_item_paired sample_history).
  assert (Hall : forall i, i ∈ sample_history <-> i = call1 \/ i = call2 \/ i = output2 \/ i = output1).
  { intros i. unfold sample_history. rewrite !elem_of_cons, elem_of_nil. tauto. }
  split; [|split].
  - intros i k Hi Hk. apply Hall in Hi as [->|[->|[->| ->]]]; try discriminate Hk.
    + exists output1. split; [apply Hall; tauto|exact Hk].
    + exists output2. split; [apply Hall; tauto|exact Hk].
  - intros i k Hi Hk. apply Hall in Hi as [->|[->|[->| ->]]]; try discriminate Hk.
    + exists call2. split; [apply Hall; tauto|exact Hk].
    + exists call1. split; [apply Hall; tauto|exact Hk].
  - split; (apply NoDup_cons; split; [|apply NoDup_singleton]);
      intros [=]%list_elem_of_singleton.
Defined.

(** The output of a search on the client that has no call id stays without a
    call. *)
Example search_output_without_id_is_kept :
  normalize_history id false [ModText]
    [ToolSearchOutput None None (s! "completed") (s! "client") [] None : ResponseItem unit] =
  Some [ToolSearchOutput None None (s! "completed") (s! "client") [] None].
Proof. reflexivity. Qed.
