(* ===== verification/HistoryOps.v ===== *)
(** * The context manager: [core/src/context_manager/history.rs]

    The state of a [ContextManager] and every operation on it: recording items
    (tool outputs are cut to 1.2 times the budget, computed in [f64] as the code
    does), replacing, rolling back turns, token accounting and the estimates of
    model-visible size.  What other crates compute is a parameter: the length of
    an item serialised as JSON, the size of a decoded image, the token count of
    an audio clip, which user text is contextual and which assistant text is an
    inter-agent message.  The [Arc] that shares items is a plain list: it is
    copied on write.  The LRU cache of image estimates holds what the
    computation returns and is left out. *)

From Stdlib Require Import SpecFloat.
From S2P Require Import Prelude RustStr Truncate OutputItems History.

(** ** Machine integers *)

Definition I64_MIN : Z := -9223372036854775808.

Definition clamp_i64 (x : Z) : Z := Z.max I64_MIN (Z.min I64_MAX x).
Definition sat_add_i64 (a b : Z) : Z := clamp_i64 (a + b).
Definition sat_sub_i64 (a b : Z) : Z := clamp_i64 (a - b).
Definition sat_mul_i64 (a b : Z) : Z := clamp_i64 (a * b).

(** [i64::try_from(n).unwrap_or(i64::MAX)] of a [usize]. *)
Definition i64_of_usize (n : N) : Z := Z.min I64_MAX (Z.of_N n).

(** Plain [+] and [-]: a panic ([None]) with overflow checks, wrapping
    without. *)
Definition wrap_i64 (x : Z) : Z := ((x - I64_MIN) mod 2 ^ 64 + I64_MIN)%Z.
Definition checked_i64 (overflow_checks : bool) (x : Z) : option Z :=
  if ((I64_MIN <=? x) && (x <=? I64_MAX))%Z then Some x
  else if overflow_checks then None else Some (wrap_i64 x).

(** ** [f64]: binary64 with rounding to nearest even *)

Definition f64_of_usize (n : N) : spec_float := binary_normalize 53 1024 (Z.of_N n) 0 false.
Definition f64_mul (a b : spec_float) : spec_float := SFmul 53 1024 a b.

(** The literal [1.2]. *)
Definition f64_1_2 : spec_float := S754_finite false 5404319552844595 (-52).

(** [x.ceil() as usize]. *)
Definition ceil_as_usize (x : spec_float) : N :=
  match x with
  | S754_finite false m e =>
      N.min USIZE_MAX
        (match e with
         | Zneg k => (Npos m + 2 ^ Npos k - 1) / 2 ^ Npos k
         | Z0 => Npos m
         | Zpos k => Npos m * 2 ^ Npos k
         end)%N
  | S754_infinity false => USIZE_MAX
  | _ => 0%N
  end.

Definition scale_usize (n : N) (multiplier : spec_float) : N :=
  ceil_as_usize (f64_mul (f64_of_usize n) multiplier).

(** [impl Mul<f64> for TruncationPolicy]. *)
Definition policy_mul (p : TruncationPolicy) (multiplier : spec_float) : TruncationPolicy :=
  match p with
  | Bytes bytes => Bytes (scale_usize bytes multiplier)
  | Tokens tokens => Tokens (scale_usize tokens multiplier)
  end.

(** ** Token usage ([protocol.rs]) *)

Record TokenUsage := mkUsage {
  input_tokens : Z;
  cached_input_tokens : Z;
  cache_write_input_tokens : Z;
  output_tokens : Z;
  reasoning_output_tokens : Z;
  total_tokens : Z;
}.

Definition default_usage : TokenUsage := mkUsage 0 0 0 0 0 0.

Record TokenUsageInfo := mkUsageInfo {
  total_token_usage : TokenUsage;
  last_token_usage : TokenUsage;
  model_context_window : option Z;
}.

Section usage.
Context (overflow_checks : bool).
Let add a b := checked_i64 overflow_checks (a + b).

Definition add_assign (self other : TokenUsage) : option TokenUsage :=
  i ← add (input_tokens self) (input_tokens other);
  ci ← add (cached_input_tokens self) (cached_input_tokens other);
  cw ← add (cache_write_input_tokens self) (cache_write_input_tokens other);
  o ← add (output_tokens self) (output_tokens other);
  r ← add (reasoning_output_tokens self) (reasoning_output_tokens other);
  t ← add (total_tokens self) (total_tokens other);
  Some (mkUsage i ci cw o r t).

Definition append_last_usage (info : TokenUsageInfo) (last : TokenUsage) : option TokenUsageInfo :=
  total ← add_assign (total_token_usage info) last;
  Some (mkUsageInfo total last (model_context_window info)).

(** The outer [option] is the panic. *)
Definition new_or_append (info : option TokenUsageInfo) (last : option TokenUsage)
    (window : option Z) : option (option TokenUsageInfo) :=
  match info, last with
  | None, None => Some None
  | _, _ =>
      let info := default (mkUsageInfo default_usage default_usage window) info in
      info ← match last with Some last => append_last_usage info last | None => Some info end;
      Some (Some (match window with
                  | Some w => mkUsageInfo (total_token_usage info) (last_token_usage info) (Some w)
                  | None => info
                  end))
  end.

Definition fill_to_context_window (info : TokenUsageInfo) (context_window : Z)
    : option TokenUsageInfo :=
  delta ← checked_i64 overflow_checks (context_window - total_tokens (total_token_usage info));
  Some (mkUsageInfo (mkUsage 0 0 0 0 0 context_window) (mkUsage 0 0 0 0 0 (Z.max delta 0))
          (Some context_window)).

Definition full_context_window (context_window : Z) : option TokenUsageInfo :=
  fill_to_context_window (mkUsageInfo default_usage default_usage (Some context_window))
    context_window.

End usage.

(** ** Contextual content ([event_mapping.rs]) *)

Definition CONTEXTUAL_DEVELOPER_PREFIXES : list str :=
  [s!"<permissions instructions>"; s!"Approved command prefix saved:"; s!"<model_switch>";
   s!"<apps_instructions>"; s!"<collaboration_mode>"; s!"<multi_agent_mode>";
   s!"<environments_instructions>"; s!"<git_attribution>"; s!"<plugins_instructions>";
   s!"<realtime_conversation>"; s!"<skills_instructions>"; s!"<tools>"; s!"<personality_spec>";
   s!"<token_budget>"; s!"<context_window>"; s!"<context_window_guidance>"; s!"<rollout_budget>"].

(** [s.get(..n)] with [n] bytes. *)
Definition get_prefix (n : N) (s : str) : option str := fst <$> split_at_byte n s.

Definition has_prefix_ignore_ascii_case (prefix s : str) : bool :=
  match get_prefix (byte_len prefix) s with
  | Some candidate => eq_ignore_ascii_case candidate prefix
  | None => false
  end.

Definition is_contextual_dev_fragment (c : ContentItem) : bool :=
  match c with
  | MsgInputText text =>
      let trimmed := trim_start text in
      existsb (fun prefix => has_prefix_ignore_ascii_case prefix trimmed)
        CONTEXTUAL_DEVELOPER_PREFIXES
  | _ => false
  end.

Definition is_contextual_dev_message_content (message : list ContentItem) : bool :=
  existsb is_contextual_dev_fragment message.

Definition has_non_contextual_dev_message_content (message : list ContentItem) : bool :=
  existsb (fun c => negb (is_contextual_dev_fragment c)) message.

(** ** Data URLs *)

Definition parse_base64_data_url (url media_type_prefix : str) : option str :=
  if negb (has_prefix_ignore_ascii_case s!"data:" url) then None
  else
    '(metadata, payload) ← split_once (ch ",") url;
    let metadata_without_scheme := drop 5 metadata in
    match split_on (ch ";") metadata_without_scheme with
    | [] => None
    | mime_type :: metadata_parts =>
        let has_base64_marker :=
          existsb (fun part => eq_ignore_ascii_case part s!"base64") metadata_parts in
        if negb (has_prefix_ignore_ascii_case media_type_prefix mime_type) then None
        else if negb has_base64_marker then None
        else Some payload
    end.

Definition parse_base64_image_data_url (url : str) : option str :=
  parse_base64_data_url url s!"image/".
Definition parse_base64_audio_data_url (url : str) : option str :=
  parse_base64_data_url url s!"audio/".

Definition estimate_reasoning_length (encoded_len : N) : N :=
  (sat_mul encoded_len 3 / 4 - 650)%N.

(** [div_ceil]. *)
Definition div_ceil (a b : N) : N := ((a + b - 1) / b)%N.

Definition estimate_encrypted_function_output_length (encoded_len : N) : N :=
  div_ceil (sat_mul encoded_len 9) 16.

Definition RESIZED_IMAGE_BYTES_ESTIMATE : Z := 7373.
Definition ORIGINAL_IMAGE_PATCH_SIZE : Z := 32.
Definition ORIGINAL_IMAGE_MAX_PATCHES : N := 10000.

(** [usize::try_from(n).unwrap_or(usize::MAX)] of an [i64]. *)
Definition usize_of_i64 (x : Z) : N := if (x <? 0)%Z then USIZE_MAX else Z.to_N x.

(** ** Classification and recording *)

Section manager.
Context {opaque TurnContextItem WorldStateSnapshot : Type}.
Context (is_contextual_user_fragment : ContentItem -> bool).
Context (parses_as_inter_agent : str -> bool).
Context (serialized_len : ResponseItem opaque -> option N).
Context (decode_image : str -> option (N * N)).
Context (estimate_audio_token_count : str -> N).
Context (overflow_checks : bool).

Definition is_api_message (message : ResponseItem opaque) : bool :=
  match message with
  | Message _ role _ _ _ => negb (str_eqb role s!"system")
  | CompactionTrigger => false
  | Other => false
  | _ => true
  end.

Definition is_model_generated_item (item : ResponseItem opaque) : bool :=
  match item with
  | Message _ role _ _ _ => str_eqb role s!"assistant"
  | Reasoning _ _ _ _ _ | FunctionCall _ _ _ _ _ _ _ | ToolSearchCall _ _ _ _ _ _
  | WebSearchCall _ _ _ _ | ImageGenerationCall _ _ _ _ _ | CustomToolCall _ _ _ _ _ _ _
  | LocalShellCall _ _ _ _ _ | Compaction _ _ _ | ContextCompaction _ _ _ => true
  | _ => false
  end.

Definition is_contextual_user_message_content (message : list ContentItem) : bool :=
  existsb is_contextual_user_fragment message.

Definition is_inter_agent_instruction_content (content : list ContentItem) : bool :=
  match content with
  | [MsgInputText text] | [MsgOutputText text] => parses_as_inter_agent text
  | _ => false
  end.

Definition is_user_turn_boundary (item : ResponseItem opaque) : bool :=
  match item with
  | AgentMessage _ _ _ _ _ => true
  | Message _ role content _ _ =>
      (str_eqb role s!"user" && negb (is_contextual_user_message_content content))
      || (str_eqb role s!"assistant" && is_inter_agent_instruction_content content)
  | _ => false
  end.

Definition truncate_function_output_payload (output : FunctionCallOutputPayload)
    (policy : TruncationPolicy) : option FunctionCallOutputPayload :=
  body ← match body output with
         | BodyText content => BodyText <$> truncate_text content policy
         | BodyContentItems items =>
             BodyContentItems <$>
               truncate_function_output_items_with_policy items policy estimate_audio_token_count
         end;
  Some {| body := body; success := success output |}.

Definition process_item (item : ResponseItem opaque) (policy : TruncationPolicy)
    : option (ResponseItem opaque) :=
  let policy_with_serialization_budget := policy_mul policy f64_1_2 in
  match item with
  | FunctionCallOutput id call_id output metadata =>
      output ← truncate_function_output_payload output policy_with_serialization_budget;
      Some (FunctionCallOutput id call_id output metadata)
  | CustomToolCallOutput id call_id name output metadata =>
      output ← truncate_function_output_payload output policy_with_serialization_budget;
      Some (CustomToolCallOutput id call_id name output metadata)
  | _ => Some item
  end.

(** ** The state *)

Record ContextManager := mkManager {
  items : list (ResponseItem opaque);
  history_version : N;
  token_info : option TokenUsageInfo;
  reference_context_item : option TurnContextItem;
  world_state_baseline : option WorldStateSnapshot;
}.

Definition new_manager : ContextManager := mkManager [] 0 None None None.

Definition set_items (l : list (ResponseItem opaque)) (m : ContextManager) : ContextManager :=
  mkManager l (history_version m) (token_info m) (reference_context_item m) (world_state_baseline m).

Definition set_token_info (info : option TokenUsageInfo) (m : ContextManager) : ContextManager :=
  mkManager (items m) (history_version m) info (reference_context_item m) (world_state_baseline m).

Definition set_reference_context_item (item : option TurnContextItem) (m : ContextManager)
    : ContextManager :=
  mkManager (items m) (history_version m) (token_info m) item (world_state_baseline m).

Definition set_world_state_baseline (snapshot : WorldStateSnapshot) (m : ContextManager)
    : ContextManager :=
  mkManager (items m) (history_version m) (token_info m) (reference_context_item m) (Some snapshot).

Definition set_token_usage_full (context_window : Z) (m : ContextManager)
    : option ContextManager :=
  info ← match token_info m with
         | Some info => fill_to_context_window overflow_checks info context_window
         | None => full_context_window overflow_checks context_window
         end;
  Some (set_token_info (Some info) m).

Definition update_token_info (usage : TokenUsage) (window : option Z) (m : ContextManager)
    : option ContextManager :=
  info ← new_or_append overflow_checks (token_info m) (Some usage) window;
  Some (set_token_info info m).

Fixpoint record_items (new_items : list (ResponseItem opaque)) (policy : TruncationPolicy)
    (m : ContextManager) : option ContextManager :=
  match new_items with
  | [] => Some m
  | item :: rest =>
      if is_api_message item then
        processed ← process_item item policy;
        record_items rest policy (set_items (items m ++ [processed]) m)
      else record_items rest policy m
  end.

Definition replace (l : list (ResponseItem opaque)) (m : ContextManager) : ContextManager :=
  mkManager l (sat_add (history_version m) 1) (token_info m) (reference_context_item m) None.

(** [ContextManager::remove_first_item]. *)
Definition manager_remove_first_item (m : ContextManager) : ContextManager :=
  match items m with
  | [] => m
  | _ :: _ =>
      mkManager (remove_first_item (items m)) (history_version m) (token_info m)
        (reference_context_item m) None
  end.

(** ** Rollback *)

Fixpoint positions_from (idx : nat) (l : list (ResponseItem opaque)) : list nat :=
  match l with
  | [] => []
  | item :: rest =>
      if is_user_turn_boundary item then idx :: positions_from (S idx) rest
      else positions_from (S idx) rest
  end.

Definition user_message_positions (l : list (ResponseItem opaque)) : list nat := positions_from 0 l.

(** What [trim_pre_turn_context_updates] does with the item above the cut:
    [None] to stop, else whether the reference context is invalidated. *)
Definition trims (item : ResponseItem opaque) : option bool :=
  match item with
  | Message _ role content _ _ =>
      if str_eqb role s!"developer" && is_contextual_dev_message_content content
      then Some (has_non_contextual_dev_message_content content)
      else if str_eqb role s!"user" && is_contextual_user_message_content content
      then Some false
      else None
  | _ => None
  end.

(** The walk: the new cut and whether the reference context was cleared. *)
Fixpoint trim_pre_turn_context_updates (snapshot : list (ResponseItem opaque))
    (first_instruction_turn_idx cut_idx : nat) : nat * bool :=
  match cut_idx with
  | O => (O, false)
  | S above =>
      if first_instruction_turn_idx <? cut_idx then
        match snapshot !! above with
        | Some item =>
            match trims item with
            | Some invalidates =>
                let '(cut, cleared) :=
                  trim_pre_turn_context_updates snapshot first_instruction_turn_idx above in
                (cut, invalidates || cleared)
            | None => (cut_idx, false)
            end
        | None => (cut_idx, false)
        end
      else (cut_idx, false)
  end.

Definition drop_last_n_user_turns (num_turns : N) (m : ContextManager) : ContextManager :=
  if (num_turns =? 0)%N then m
  else
    let snapshot := items m in
    let user_positions := user_message_positions snapshot in
    match user_positions with
    | [] => replace snapshot m
    | first_instruction_turn_idx :: _ =>
        let n_from_end := N.to_nat num_turns in
        let cut_idx :=
          if length user_positions <=? n_from_end then first_instruction_turn_idx
          else default 0 (user_positions !! (length user_positions - n_from_end)) in
        let '(cut_idx, cleared) :=
          trim_pre_turn_context_updates snapshot first_instruction_turn_idx cut_idx in
        let m := if cleared then set_reference_context_item None m else m in
        replace (take cut_idx snapshot) m
    end.

(** ** Estimates *)

Definition estimate_original_image_bytes (image_url : str) : option Z :=
  payload ← parse_base64_image_data_url image_url;
  '(width, height) ← decode_image payload;
  let patches n :=
    (sat_add_i64 (Z.of_N n) (sat_sub_i64 ORIGINAL_IMAGE_PATCH_SIZE 1)
     / ORIGINAL_IMAGE_PATCH_SIZE)%Z in
  let patch_count := usize_of_i64 (sat_mul_i64 (patches width) (patches height)) in
  let patch_count := N.min patch_count ORIGINAL_IMAGE_MAX_PATCHES in
  Some (i64_of_usize (approx_bytes_for_tokens patch_count)).

(** Payload bytes to subtract and bytes to add instead. *)
Definition accumulate (acc : Z * Z) (payload_len : N) (replacement : Z) : Z * Z :=
  (sat_add_i64 acc.1 (i64_of_usize payload_len), sat_add_i64 acc.2 replacement).

Definition accumulate_image (acc : Z * Z) (image_url : str) (detail : option ImageDetail)
    : Z * Z :=
  match parse_base64_image_data_url image_url with
  | Some payload =>
      accumulate acc (byte_len payload)
        (match detail with
         | Some DetailOriginal =>
             default RESIZED_IMAGE_BYTES_ESTIMATE (estimate_original_image_bytes image_url)
         | _ => RESIZED_IMAGE_BYTES_ESTIMATE
         end)
  | None => acc
  end.

Definition image_data_url_estimate_adjustment (item : ResponseItem opaque) : Z * Z :=
  match item with
  | Message _ _ content _ _ =>
      fold_left (fun acc c => match c with
                              | MsgInputImage url detail => accumulate_image acc url detail
                              | _ => acc
                              end) content (0, 0)%Z
  | FunctionCallOutput _ _ output _ | CustomToolCallOutput _ _ _ output _ =>
      match body output with
      | BodyContentItems l =>
          fold_left (fun acc c => match c with
                                  | InputImage url detail => accumulate_image acc url detail
                                  | _ => acc
                                  end) l (0, 0)%Z
      | BodyText _ => (0, 0)%Z
      end
  | _ => (0, 0)%Z
  end.

Definition accumulate_audio (acc : Z * Z) (audio_url : str) : Z * Z :=
  match parse_base64_audio_data_url audio_url with
  | Some payload =>
      accumulate acc (byte_len payload)
        (i64_of_usize (approx_bytes_for_tokens (estimate_audio_token_count audio_url)))
  | None => acc
  end.

Definition audio_data_url_estimate_adjustment (item : ResponseItem opaque) : Z * Z :=
  match item with
  | Message _ _ content _ _ =>
      fold_left (fun acc c => match c with MsgInputAudio url => accumulate_audio acc url | _ => acc end)
        content (0, 0)%Z
  | FunctionCallOutput _ _ output _ | CustomToolCallOutput _ _ _ output _ =>
      match body output with
      | BodyContentItems l =>
          fold_left (fun acc c => match c with InputAudio url => accumulate_audio acc url | _ => acc end)
            l (0, 0)%Z
      | BodyText _ => (0, 0)%Z
      end
  | _ => (0, 0)%Z
  end.

Definition accumulate_encrypted (acc : Z * Z) (encrypted_content : str) : Z * Z :=
  accumulate acc (byte_len encrypted_content)
    (i64_of_usize (estimate_encrypted_function_output_length (byte_len encrypted_content))).

Definition encrypted_function_output_estimate_adjustment (item : ResponseItem opaque) : Z * Z :=
  match item with
  | FunctionCallOutput _ _ output _ =>
      match body output with
      | BodyContentItems l =>
          fold_left (fun acc c => match c with EncryptedContent e => accumulate_encrypted acc e | _ => acc end)
            l (0, 0)%Z
      | BodyText _ => (0, 0)%Z
      end
  | AgentMessage _ _ _ content _ =>
      fold_left (fun acc c => match c with AgentEncryptedContent e => accumulate_encrypted acc e | _ => acc end)
        content (0, 0)%Z
  | _ => (0, 0)%Z
  end.

Definition estimate_response_item_model_visible_bytes (item : ResponseItem opaque) : Z :=
  match item with
  | Reasoning _ _ _ (Some content) _ | Compaction _ content _ | ContextCompaction _ (Some content) _ =>
      i64_of_usize (estimate_reasoning_length (byte_len content))
  | _ =>
      let raw := match serialized_len item with Some n => i64_of_usize n | None => 0%Z end in
      let '(image_payload_bytes, image_replacement_bytes) := image_data_url_estimate_adjustment item in
      let '(audio_payload_bytes, audio_replacement_bytes) := audio_data_url_estimate_adjustment item in
      let '(encrypted_payload_bytes, encrypted_replacement_bytes) :=
        encrypted_function_output_estimate_adjustment item in
      let raw :=
        sat_add_i64 (sat_sub_i64 (sat_add_i64 (sat_sub_i64 raw image_payload_bytes)
                                    image_replacement_bytes)
                       audio_payload_bytes) audio_replacement_bytes in
      sat_add_i64 (sat_sub_i64 raw encrypted_payload_bytes) encrypted_replacement_bytes
  end.

Definition estimate_item_token_count (item : ResponseItem opaque) : Z :=
  approx_tokens_from_byte_count_i64 (estimate_response_item_model_visible_bytes item).

(** [.map(estimate_item_token_count).fold(0, i64::saturating_add)]. *)
Definition sum_estimates (l : list (ResponseItem opaque)) : Z :=
  fold_left sat_add_i64 (estimate_item_token_count <$> l) 0%Z.

Definition estimate_token_count_with_base_instructions (base_instructions : str)
    (m : ContextManager) : Z :=
  sat_add_i64 (i64_of_usize (approx_token_count base_instructions)) (sum_estimates (items m)).

(** [iter().rposition]. *)
Definition rposition (f : ResponseItem opaque -> bool) (l : list (ResponseItem opaque))
    : option nat :=
  (fun i => length l - 1 - i) <$> position f (reverse l).

Definition items_after_last_model_generated_item (m : ContextManager)
    : list (ResponseItem opaque) :=
  let start := match rposition is_model_generated_item (items m) with
               | Some index => S index
               | None => length (items m)
               end in
  drop start (items m).

Definition is_encrypted_reasoning (item : ResponseItem opaque) : bool :=
  match item with Reasoning _ _ _ (Some _) _ => true | _ => false end.

Definition get_non_last_reasoning_items_tokens (m : ContextManager) : Z :=
  match rposition is_user_turn_boundary (items m) with
  | None => 0%Z
  | Some last_user_index =>
      sum_estimates (List.filter is_encrypted_reasoning (take last_user_index (items m)))
  end.

Definition estimated_tokens_after_last_model_generated_item (m : ContextManager) : Z :=
  sum_estimates (items_after_last_model_generated_item m).

Definition get_total_token_usage (server_reasoning_included : bool) (m : ContextManager) : Z :=
  let last_tokens :=
    match token_info m with Some info => total_tokens (last_token_usage info) | None => 0%Z end in
  let after := sum_estimates (items_after_last_model_generated_item m) in
  if server_reasoning_included then sat_add_i64 last_tokens after
  else sat_add_i64 (sat_add_i64 last_tokens (get_non_last_reasoning_items_tokens m)) after.

End manager.
