(* ===== verification/HistoryOpsFacts.v ===== *)
(** * Theorems on the context manager

    Rolling back turns removes exactly those turns; recording only appends;
    estimates saturate instead of overflowing. *)

From S2P Require Import Prelude RustStr Truncate OutputItems History HistoryOps.

Section facts.
Context {opaque TurnContextItem WorldStateSnapshot : Type}.
Context (is_contextual_user_fragment : ContentItem -> bool).
Context (parses_as_inter_agent : str -> bool).

Abbreviation item := (ResponseItem opaque).
Abbreviation boundary := (is_user_turn_boundary is_contextual_user_fragment parses_as_inter_agent).
Abbreviation trims := (@trims opaque is_contextual_user_fragment).
Abbreviation positions := (positions_from is_contextual_user_fragment parses_as_inter_agent).
Abbreviation manager := (@ContextManager opaque TurnContextItem WorldStateSnapshot).

Implicit Types l : list item.

(** Instruction turns of a history. *)
Definition turns (l : list item) : nat := length (List.filter boundary l).

Lemma turns_app l1 l2 : turns (l1 ++ l2) = turns l1 + turns l2.
Proof. unfold turns. by rewrite List.filter_app, length_app. Qed.

Lemma positions_length idx l : length (positions idx l) = turns l.
Proof.
  unfold turns. revert idx. induction l as [|x l IH]; intros idx; simpl; [done|].
  destruct (boundary x); simpl; by rewrite IH.
Qed.

(** The [j]-th position is where the [j]-th turn starts. *)
Lemma positions_lookup idx l j i :
  positions idx l !! j = Some i ->
  exists a x b, l = a ++ x :: b /\ i = idx + length a /\ boundary x = true /\ turns a = j.
Proof.
  revert idx j. induction l as [|y l IH]; intros idx j; simpl; [done|].
  destruct (boundary y) eqn:Ey.
  - destruct j as [|j]; simpl.
    + intros [= <-]. exists [], y, l. split; [done|]. split; [simpl; lia|]. done.
    + intros (a & x & b & -> & -> & Hx & Hc)%IH. exists (y :: a), x, b. split; [done|].
      split; [simpl; lia|]. split; [done|]. unfold turns in *. simpl. rewrite Ey. simpl. by rewrite Hc.
  - intros (a & x & b & -> & -> & Hx & Hc)%IH. exists (y :: a), x, b. split; [done|].
    split; [simpl; lia|]. split; [done|]. unfold turns in *. simpl. by rewrite Ey.
Qed.

Lemma trims_not_boundary x b : trims x = Some b -> boundary x = false.
Proof.
  unfold HistoryOps.trims, is_user_turn_boundary. destruct x; try done.
  destruct (str_eqb role s!"developer") eqn:Ed.
  - apply str_eqb_eq in Ed as ->. intros _. reflexivity.
  - cbn [andb]. destruct (str_eqb role s!"user") eqn:Eu; [|done].
    apply str_eqb_eq in Eu as ->. cbn [andb].
    destruct (is_contextual_user_message_content _ content); [|done]. intros _. reflexivity.
Qed.

Lemma trims_no_turns l : Forall (fun x => is_Some (trims x)) l -> turns l = 0.
Proof.
  induction 1 as [|x l [b Hx] _ IH]; [done|]. unfold turns in *. simpl.
  by rewrite (trims_not_boundary _ _ Hx).
Qed.

Definition invalidates (x : item) : bool := bool_decide (trims x = Some true).

Lemma trim_spec l first cut c cl :
  first <= cut -> cut <= length l ->
  trim_pre_turn_context_updates is_contextual_user_fragment l first cut = (c, cl) ->
  first <= c <= cut /\
  exists ctx, take cut l = take c l ++ ctx /\ Forall (fun x => is_Some (trims x)) ctx /\
    cl = existsb invalidates ctx.
Proof.
  revert c cl. induction cut as [|above IH]; intros c cl Hf Hl; cbn [trim_pre_turn_context_updates].
  { intros [= <- <-]. split; [lia|]. by exists []. }
  assert (exists ctx, take (S above) l = take (S above) l ++ ctx /\
    Forall (fun x => is_Some (trims x)) ctx /\ false = existsb invalidates ctx) as Hstop.
  { exists []. by rewrite app_nil_r. }
  destruct (first <? S above) eqn:Elt; [|intros [= <- <-]; split; [lia|done]].
  apply Nat.ltb_lt in Elt.
  destruct (l !! above) as [x|] eqn:Ex; [|intros [= <- <-]; split; [lia|done]].
  destruct (trims x) as [inv|] eqn:Et; [|intros [= <- <-]; split; [lia|done]].
  destruct (trim_pre_turn_context_updates _ l first above) as [c' cl'] eqn:Er.
  intros [= <- <-]. destruct (IH c' cl') as (Hc & ctx & Htake & Hctx & ->); [lia|lia|done|].
  split; [lia|]. exists (ctx ++ [x]). split; [|split].
  - rewrite (take_S_r _ _ _ Ex), Htake. by rewrite <- app_assoc.
  - apply Forall_app. split; [done|]. repeat constructor. by rewrite Et.
  - rewrite existsb_app. simpl. rewrite orb_false_r, orb_comm. f_equal.
    unfold invalidates. rewrite Et. by destruct inv.
Qed.

(** Rolling back [n] turns removes exactly the last [n] instruction turns
    (all of them if there are fewer) and nothing before the first turn: the new
    history is a prefix, followed in the old one only by contextual updates that
    belonged to the next turn and then by that turn; the reference context is
    forgotten exactly when one of these updates carried persistent text. *)
Theorem rollback_removes_turns (m : manager) n :
  n <> 0%N -> turns (items m) <> 0 ->
  let m' := drop_last_n_user_turns is_contextual_user_fragment parses_as_inter_agent n m in
  exists ctx x rest,
    items m = items m' ++ ctx ++ x :: rest /\
    Forall (fun y => is_Some (trims y)) ctx /\ boundary x = true /\
    turns (items m') = turns (items m) - N.to_nat n /\
    (exists before, before `prefix_of` items m' /\ turns before = 0 /\
       forall y tail, items m = before ++ y :: tail -> boundary y = true) /\
    reference_context_item m' =
      (if existsb invalidates ctx then None else reference_context_item m) /\
    history_version m' = sat_add (history_version m) 1 /\ token_info m' = token_info m.
Proof.
  intros Hn Ht m'. unfold m', drop_last_n_user_turns.
  rewrite (proj2 (N.eqb_neq n 0) Hn).
  unfold user_message_positions. set (pos := positions 0 (items m)).
  assert (length pos = turns (items m)) as Hlen by apply positions_length.
  destruct pos as [|first pos'] eqn:Epos; [by rewrite <- Hlen in Ht|]. rewrite <- Epos in *.
  set (j := turns (items m) - N.to_nat n).
  set (cut0 := if length pos <=? N.to_nat n then first
               else default 0 (pos !! (length pos - N.to_nat n))).
  assert (pos !! j = Some cut0) as Hcut0.
  { unfold cut0, j. destruct (length pos <=? N.to_nat n) eqn:E.
    - apply Nat.leb_le in E. replace (turns (items m) - N.to_nat n) with 0 by lia. by rewrite Epos.
    - apply Nat.leb_gt in E. rewrite <- Hlen.
      destruct (lookup_lt_is_Some_2 pos (length pos - N.to_nat n)) as [i Hi]; [lia|]. by rewrite Hi. }
  assert (pos !! 0 = Some first) as Hfirst by by rewrite Epos.
  apply positions_lookup in Hcut0 as (a & x & rest & Hsplit & Ha & Hx & Hta). simpl in Ha.
  apply positions_lookup in Hfirst as (a0 & x0 & r0 & Hsplit0 & Ha0 & Hx0 & Hta0). simpl in Ha0.
  assert (length a0 <= length a) as Hle.
  { destruct (decide (length a0 <= length a)) as [|Hgt]; [done|exfalso].
    rewrite Hsplit in Hsplit0. destruct (app_eq_length_split _ _ _ _ Hsplit0) as (mid & -> & Hmid); [lia|].
    rewrite turns_app in Hta0. rewrite length_app in Hgt. destruct mid as [|y mid]; [simpl in *; lia|].
    injection Hmid as <- _. unfold turns in Hta0. simpl in Hta0. rewrite Hx in Hta0. simpl in Hta0. lia. }
  destruct (trim_pre_turn_context_updates _ _ first cut0) as [c cleared] eqn:Etrim.
  apply trim_spec in Etrim as (Hc & ctx & Htake & Hctx & ->);
    [|lia|rewrite Hsplit, length_app; lia].
  assert (take cut0 (items m) = a) as Htk by (rewrite Ha, Hsplit; apply take_app_length).
  rewrite Htk in Htake. exists ctx, x, rest.
  assert (items (replace (take c (items m))
     (if existsb invalidates ctx then set_reference_context_item None m else m)) = take c (items m))
    as Hitems by done.
  rewrite Hitems. split; [rewrite app_assoc, <- Htake; exact Hsplit|]. split; [done|]. split; [done|].
  split; [|split; [|by destruct (existsb invalidates ctx)]].
  - fold j. rewrite <- Hta, Htake, turns_app, (trims_no_turns ctx) by done. lia.
  - exists a0. split; [|split; [done|]].
    + exists (drop (length a0) (take c (items m))).
      rewrite <- (take_drop (length a0) (take c (items m))) at 1. f_equal.
      rewrite take_take, Nat.min_l by lia. rewrite Hsplit0. apply take_app_length.
    + intros y tail Hy. rewrite Hsplit0 in Hy. apply app_inv_head in Hy. by injection Hy as <- _.
Qed.

(** Without instruction turns a rollback is not quite nothing: the items stay,
    but the history counts as rewritten and the world state baseline is gone. *)
Theorem rollback_without_turns (m : manager) n :
  n <> 0%N -> turns (items m) = 0 ->
  drop_last_n_user_turns is_contextual_user_fragment parses_as_inter_agent n m =
  mkManager (items m) (sat_add (history_version m) 1) (token_info m) (reference_context_item m) None.
Proof.
  intros Hn Ht. unfold drop_last_n_user_turns. apply N.eqb_neq in Hn as ->.
  unfold user_message_positions. pose proof (positions_length 0 (items m)) as Hl.
  destruct (positions 0 (items m)); [done|]. rewrite Ht in Hl. done.
Qed.

(** ** Recording *)

Context (estimate_audio_token_count : str -> N).
Abbreviation record := (@record_items opaque TurnContextItem WorldStateSnapshot estimate_audio_token_count).
Abbreviation process := (@process_item opaque estimate_audio_token_count).

Lemma record_items_app a b policy (m : manager) :
  record (a ++ b) policy m = record a policy m ≫= record b policy.
Proof.
  revert m. induction a as [|x a IH]; intros m; simpl; [done|].
  destruct (is_api_message x); [|apply IH]. destruct (process x policy); simpl; [apply IH|done].
Qed.

Lemma record_items_spec new policy (m m' : manager) :
  record new policy m = Some m' <->
  exists out, Forall2 (fun x y => process x policy = Some y) (List.filter is_api_message new) out /\
    m' = set_items (items m ++ out) m.
Proof.
  revert m. induction new as [|x new IH]; intros m; simpl.
  { split.
    - intros [= <-]. exists []. rewrite app_nil_r. by destruct m.
    - intros (out & ->%Forall2_nil_inv_l & ->). rewrite app_nil_r. by destruct m. }
  destruct (is_api_message x); [|apply IH].
  destruct (process x policy) as [y|] eqn:Ey; simpl.
  - rewrite IH. split.
    + intros (out & Hout & ->). exists (y :: out). split; [by constructor|].
      unfold set_items. simpl. by rewrite <- app_assoc.
    + intros (out & (y' & out' & Hy & Hout & ->)%Forall2_cons_inv_l & ->).
      exists out'. split; [done|]. unfold set_items. simpl. rewrite <- app_assoc. simpl. congruence.
  - split; [done|]. intros (out & (y' & out' & Hy & _)%Forall2_cons_inv_l & _). congruence.
Qed.

(** Recording appends, in order, the items that are model messages and
    touches nothing else; each recorded item is the original except that the
    text of a tool output is cut to 1.2 times the budget; recording in two parts
    is recording at once. *)
Theorem recording_appends a b policy (m m' : manager) :
  record (a ++ b) policy m = Some m' ->
  (exists m1, record a policy m = Some m1 /\ record b policy m1 = Some m') /\
  (exists out, items m' = items m ++ out /\
     Forall2 (fun x y => is_api_message x = true /\ process x policy = Some y /\
        (function_output_id x = function_output_id y) /\
        (custom_tool_output_id x = custom_tool_output_id y) /\
        ((function_output_id x = None /\ custom_tool_output_id x = None) -> y = x))
       (List.filter is_api_message (a ++ b)) out) /\
  history_version m' = history_version m /\ token_info m' = token_info m /\
  reference_context_item m' = reference_context_item m /\
  world_state_baseline m' = world_state_baseline m.
Proof.
  intros Hr. split; [|].
  { rewrite record_items_app in Hr. destruct (record a policy m) as [m1|]; [|done]. eauto. }
  apply record_items_spec in Hr as (out & Hout & ->). split; [|done]. exists out. split; [done|].
  assert (Forall (fun x => is_api_message x = true) (List.filter is_api_message (a ++ b))) as Hapi.
  { rewrite Forall_forall. intros x Hx%list_elem_of_In%filter_In. by destruct Hx. }
  induction Hout as [|x y l out' Hxy _ IH]; constructor.
  - inversion_clear Hapi. split; [done|]. split; [done|].
    destruct x; simpl in Hxy; simplify_eq/=; try done.
    all: apply bind_Some in Hxy as (o & _ & [= <-]); split; [done|]; split; [done|]; by intros [? ?].
  - inversion_clear Hapi. by apply IH.
Qed.

(** ** Estimates *)

Context (serialized_len : item -> option N) (decode_image : str -> option (N * N)).
Abbreviation estimate := (estimate_item_token_count serialized_len decode_image estimate_audio_token_count).
Abbreviation estimates := (sum_estimates serialized_len decode_image estimate_audio_token_count).

Lemma estimate_bounds x : (0 <= estimate x <= I64_MAX)%Z.
Proof.
  unfold estimate_item_token_count, approx_tokens_from_byte_count_i64.
  destruct (Z.leb_spec (estimate_response_item_model_visible_bytes serialized_len decode_image
    estimate_audio_token_count x) 0); unfold I64_MAX; lia.
Qed.

Definition sumZ (l : list Z) : Z := foldr Z.add 0%Z l.

Lemma sum_sat_add (zs : list Z) acc :
  (0 <= acc <= I64_MAX)%Z -> Forall (fun x => 0 <= x <= I64_MAX)%Z zs ->
  fold_left sat_add_i64 zs acc = Z.min I64_MAX (acc + sumZ zs).
Proof.
  intros Hacc Hl. revert acc Hacc. induction Hl as [|x zs Hx Hl IH]; intros acc Hacc; simpl.
  { unfold I64_MAX in *. lia. }
  assert (0 <= sumZ zs)%Z as Hpos.
  { clear -Hl. induction Hl; simpl; [lia|]. unfold sumZ in *. lia. }
  rewrite IH; unfold sat_add_i64, clamp_i64, I64_MIN, I64_MAX in *; unfold sumZ in *; lia.
Qed.

(** The sum of the estimates, saturating only at the end. *)
Lemma sum_estimates_exact l : estimates l = Z.min I64_MAX (sumZ (estimate <$> l)).
Proof.
  unfold sum_estimates. rewrite sum_sat_add; [by rewrite Z.add_0_l|unfold I64_MAX; lia|].
  apply Forall_fmap, Forall_true. intros x. apply estimate_bounds.
Qed.

Lemma sumZ_nonneg l : (0 <= sumZ (estimate <$> l))%Z.
Proof.
  induction l as [|x l IH]; [done|]. rewrite fmap_cons. unfold sumZ in *. cbn [foldr].
  pose proof (estimate_bounds x). lia.
Qed.

(** [rposition] splits at the last hit. *)
Lemma rposition_spec (f : item -> bool) l :
  match rposition f l with
  | Some i => exists a x b, l = a ++ x :: b /\ length a = i /\ f x = true /\
      forall y, y ∈ b -> f y = false
  | None => forall y, y ∈ l -> f y = false
  end.
Proof.
  unfold rposition. destruct (position f (reverse l)) as [i|] eqn:E; simpl.
  - apply position_Some in E as (x & Hx & Hfx & Hlt).
    assert (i < length l) as Hil by (rewrite <- length_reverse; by eapply lookup_lt_Some).
    rewrite reverse_lookup in Hx by done.
    exists (take (length l - 1 - i) l), x, (drop (S (length l - 1 - i)) l).
    replace (length l - S i) with (length l - 1 - i) in Hx by lia.
    split; [by rewrite take_drop_middle|]. split; [rewrite length_take; lia|]. split; [done|].
    intros y Hy. apply list_elem_of_lookup in Hy as (j & Hj). rewrite lookup_drop in Hj.
    pose proof (lookup_lt_Some _ _ _ Hj) as Hjl.
    apply (Hlt (length l - 1 - (S (length l - 1 - i) + j))); [lia|].
    rewrite reverse_lookup by lia.
    by replace (length l - S (length l - 1 - (S (length l - 1 - i) + j)))
      with (S (length l - 1 - i) + j) by lia.
  - intros y Hy. rewrite position_None in E. apply E. by apply elem_of_reverse.
Qed.

Lemma sat_add_clamped a b :
  (0 <= a <= I64_MAX)%Z -> (0 <= b)%Z -> sat_add_i64 a (Z.min I64_MAX b) = Z.min I64_MAX (a + b).
Proof. unfold sat_add_i64, clamp_i64, I64_MIN, I64_MAX. lia. Qed.

Lemma sat_add_clamped_l a b :
  (0 <= a)%Z -> (0 <= b)%Z ->
  sat_add_i64 (Z.min I64_MAX a) (Z.min I64_MAX b) = Z.min I64_MAX (a + b).
Proof. unfold sat_add_i64, clamp_i64, I64_MIN, I64_MAX. lia. Qed.

Lemma items_after_split (m : manager) :
  exists before, items m = before ++ items_after_last_model_generated_item m /\
    (forall x, x ∈ items_after_last_model_generated_item m -> is_model_generated_item x = false) /\
    (items_after_last_model_generated_item m <> [] ->
       exists b x, before = b ++ [x] /\ is_model_generated_item x = true).
Proof.
  unfold items_after_last_model_generated_item.
  pose proof (rposition_spec is_model_generated_item (items m)) as Hr.
  destruct (rposition _ _) as [i|].
  - destruct Hr as (a & x & b & Hl & <- & Hx & Hb). rewrite Hl.
    exists (a ++ [x]). rewrite cons_middle, app_assoc.
    replace (S (length a)) with (length (a ++ [x])) by (rewrite length_app; simpl; lia).
    rewrite drop_app_length. split; [done|]. split; [done|]. eauto.
  - exists (items m). rewrite drop_all, app_nil_r. split; [done|].
    split; [by intros ? ?%not_elem_of_nil|done].
Qed.

(** Token totals never overflow and saturate at the largest [i64]: the
    total is the last reported usage plus the estimates of what came after the
    last model output, plus, unless the server counts them, the encrypted
    reasoning items before the last instruction. *)
Theorem total_usage_saturates (m : manager) server :
  let last := match token_info m with Some i => total_tokens (last_token_usage i) | None => 0%Z end in
  (0 <= last <= I64_MAX)%Z ->
  exists before after pre post,
    items m = before ++ after /\ (forall x, x ∈ after -> is_model_generated_item x = false) /\
    (after <> [] -> exists b x, before = b ++ [x] /\ is_model_generated_item x = true) /\
    items m = pre ++ post /\
    ((pre = [] /\ forall x, x ∈ post -> boundary x = false) \/
     exists x r, post = x :: r /\ boundary x = true /\ forall y, y ∈ r -> boundary y = false) /\
    get_total_token_usage is_contextual_user_fragment parses_as_inter_agent serialized_len
      decode_image estimate_audio_token_count server m =
    Z.min I64_MAX
      (last + (if server : bool then 0 else sumZ (estimate <$> List.filter is_encrypted_reasoning pre))
       + sumZ (estimate <$> after))%Z.
Proof.
  intros last Hlast. destruct (items_after_split m) as (before & Hb & Hafter & Hmodel).
  set (after := items_after_last_model_generated_item m) in *.
  assert (exists pre post, items m = pre ++ post /\
    ((pre = [] /\ forall x, x ∈ post -> boundary x = false) \/
     exists x r, post = x :: r /\ boundary x = true /\ forall y, y ∈ r -> boundary y = false) /\
    get_non_last_reasoning_items_tokens is_contextual_user_fragment parses_as_inter_agent
      serialized_len decode_image estimate_audio_token_count m =
    Z.min I64_MAX (sumZ (estimate <$> List.filter is_encrypted_reasoning pre)))
    as (pre & post & Hpp & Hcase & Hreason).
  { unfold get_non_last_reasoning_items_tokens.
    pose proof (rposition_spec boundary (items m)) as Hr. destruct (rposition _ _) as [i|].
    - destruct Hr as (a & x & r & Hl & <- & Hx & Hn). exists a, (x :: r). split; [done|].
      split; [right; eauto|]. rewrite sum_estimates_exact, Hl, take_app_length. done.
    - exists [], (items m). split; [done|]. split; [by left|]. done. }
  exists before, after, pre, post. do 5 (split; [done|]).
  unfold get_total_token_usage. fold after. fold last. rewrite Hreason, sum_estimates_exact.
  pose proof (sumZ_nonneg after). pose proof (sumZ_nonneg (List.filter is_encrypted_reasoning pre)).
  destruct server.
  - rewrite Z.add_0_r. by apply sat_add_clamped.
  - rewrite (sat_add_clamped last) by done. apply sat_add_clamped_l; lia.
Qed.

End facts.

(** ** Witnesses *)

Definition user_msg (text : str) : ResponseItem unit :=
  Message None s!"user" [MsgInputText text] None None.
Definition dev_msg (text : str) : ResponseItem unit :=
  Message None s!"developer" [MsgInputText text] None None.
Definition assistant_msg (text : str) : ResponseItem unit :=
  Message None s!"assistant" [MsgOutputText text] None None.

Definition demo_manager : @ContextManager unit unit unit :=
  mkManager [dev_msg s!"<tools> a"; user_msg s!"one"; assistant_msg s!"1";
             dev_msg s!"<Personality_spec>x"; user_msg s!"two"; assistant_msg s!"2"]
    7 None (Some tt) (Some tt).

Lemma rollback_removes_turns_witness :
  items (drop_last_n_user_turns (fun _ => false) (fun _ => false) 1 demo_manager) =
    [dev_msg s!"<tools> a"; user_msg s!"one"; assistant_msg s!"1"] /\
  exists ctx x rest, items demo_manager =
    items (drop_last_n_user_turns (fun _ => false) (fun _ => false) 1 demo_manager) ++ ctx ++ x :: rest.
Proof.
  split; [reflexivity|].
  destruct (rollback_removes_turns (fun _ => false) (fun _ => false) demo_manager 1)
    as (ctx & x & rest & Hs & _); [done|by vm_compute|]. by exists ctx, x, rest.
Defined.

Lemma rollback_without_turns_witness :
  history_version (drop_last_n_user_turns (fun _ => false) (fun _ => false) 3
    (mkManager (TurnContextItem := unit) (WorldStateSnapshot := unit)
       [assistant_msg s!"1"] 4 None None (Some tt))) = 5%N.
Proof. rewrite rollback_without_turns; [reflexivity|done|reflexivity]. Defined.

Lemma recording_appends_witness :
  exists out, items demo_manager ++ [FunctionCallOutput None s!"c" (payload_from_text s!"ok") None] =
    items demo_manager ++ out.
Proof.
  destruct (recording_appends (fun _ => 0%N) [Other]
    [FunctionCallOutput None s!"c" (payload_from_text s!"ok") None] (Bytes 100) demo_manager
    (set_items (items demo_manager ++ [FunctionCallOutput None s!"c" (payload_from_text s!"ok") None])
       demo_manager)) as (_ & (out & Ho & _) & _); [vm_compute; reflexivity|]. by exists out.
Defined.

Lemma total_usage_saturates_witness :
  exists before after, items demo_manager = before ++ after.
Proof.
  destruct (total_usage_saturates (fun _ => false) (fun _ => false) (fun _ => 0%N)
    (fun _ => Some 40%N) (fun _ => None) demo_manager false) as (b & a & _ & _ & Hb & _).
  { vm_compute. split; discriminate. }
  by exists b, a.
Defined.

(** The serialisation budget, in [f64]. *)
Example scaled_budgets :
  policy_mul (Bytes 10000) f64_1_2 = Bytes 12000 /\ policy_mul (Tokens 7) f64_1_2 = Tokens 9 /\
  policy_mul (Bytes 0) f64_1_2 = Bytes 0.
Proof. repeat split; vm_compute; reflexivity. Qed.
