(* ===== verification/ShellParse.v ===== *)
(** * Shell scripts: [shell-command/src/shell_detect.rs] and [bash.rs]

    Which command lines run a shell script, and the commands of a script.  The
    syntax tree comes from tree-sitter with the bash grammar, code outside the
    repository: the parser is a parameter, and a node is what the code asks it
    for. *)

From S2P Require Import Prelude.
From S2P Require Import RustStr.
From S2P Require Import ExecRule.

(** ** Paths: [std::path::Path] on Unix *)

Definition slash : char := Eval vm_compute in ch "/".
Definition dot : char := Eval vm_compute in ch ".".

(** The components other than the root and a leading dot. *)
Definition path_parts (p : str) : list str :=
  filter (fun part => part <> [] /\ part <> s! ".") (split_on slash p).

Definition file_name (p : str) : option str :=
  match last (path_parts p) with
  | Some name => if str_eqb name (s! "..") then None else Some name
  | None => None
  end.

(** The file name up to its last dot, unless that is its first character. *)
Definition file_stem (p : str) : option str :=
  match file_name p with
  | None => None
  | Some name =>
      match rsplit_once dot name with
      | Some (before, _) => if is_empty before then Some name else Some before
      | None => Some name
      end
  end.

(** [Path::new(name) == Path::new(p)] for a name that is one component. *)
Definition path_is (name p : str) : bool :=
  bool_decide (path_parts p = [name])
  && negb (starts_with (s! "/") p) && negb (str_eqb p (s! ".") || starts_with (s! "./") p).

(** ** Shells *)

Inductive ShellType := Zsh | Bash | PowerShell | Sh | Cmd.

Definition shell_of_name (s : str) : option ShellType :=
  if str_eqb s (s! "zsh") then Some Zsh
  else if str_eqb s (s! "sh") then Some Sh
  else if str_eqb s (s! "cmd") then Some Cmd
  else if str_eqb s (s! "bash") then Some Bash
  else if str_eqb s (s! "pwsh") then Some PowerShell
  else if str_eqb s (s! "powershell") then Some PowerShell
  else None.

(** The recursion of [detect_shell_type]: every step goes to a shorter path. *)
Fixpoint detect_shell (fuel : nat) (shell_path : str) : option ShellType :=
  match shell_of_name shell_path with
  | Some t => Some t
  | None =>
      match file_stem shell_path, fuel with
      | Some shell_name, S fuel =>
          if path_is shell_name shell_path then None else detect_shell fuel shell_name
      | _, _ => None
      end
  end.

Definition detect_shell_type (shell_path : str) : option ShellType :=
  detect_shell (length shell_path) shell_path.

Definition extract_bash_command (command : list str) : option (str * str) :=
  match command with
  | [shell; flag; script] =>
      if negb (str_eqb flag (s! "-lc") || str_eqb flag (s! "-c")) then None
      else match detect_shell_type shell with
           | Some Zsh | Some Bash | Some Sh => Some (shell, script)
           | _ => None
           end
  | _ => None
  end.

Definition one_of (names : list str) (s : str) : bool := existsb (str_eqb s) names.

(** ** Syntax trees *)

(** A [tree_sitter::Node]: its kind, whether it is named, [has_error],
    [start_byte], the result of [utf8_text] on the source it was parsed from, and
    its children. *)
Inductive Node :=
| mkNode (kind : str) (named error : bool) (start : N) (text : option str) (children : list Node).

Definition node_kind (n : Node) : str := let 'mkNode k _ _ _ _ _ := n in k.
Definition is_named (n : Node) : bool := let 'mkNode _ b _ _ _ _ := n in b.
Definition has_error (n : Node) : bool := let 'mkNode _ _ e _ _ _ := n in e.
Definition start_byte (n : Node) : N := let 'mkNode _ _ _ s _ _ := n in s.
Definition utf8_text (n : Node) : option str := let 'mkNode _ _ _ _ t _ := n in t.
Definition node_children (n : Node) : list Node := let 'mkNode _ _ _ _ _ cs := n in cs.

Definition named_children (n : Node) : list Node :=
  filter (fun c => is_named c = true) (node_children n).

Definition kind_is (k : str) (n : Node) : bool := str_eqb (node_kind n) k.

(** The number of nodes, the fuel of the walks below. *)
Fixpoint tree_size (n : Node) : nat :=
  let 'mkNode _ _ _ _ _ cs := n in S (sum_list_with tree_size cs).

(** ** Words *)

Definition strip_quotes (quote : str) (raw : str) : option str :=
  match strip_prefix quote raw with
  | Some text => strip_suffix quote text
  | None => None
  end.

Definition dquote : str := [34%N].
Definition squote : str := [39%N].

Definition parse_double_quoted_string (node : Node) : option str :=
  if negb (kind_is (s! "string") node) then None
  else if negb (forallb (kind_is (s! "string_content")) (named_children node)) then None
  else match utf8_text node with Some raw => strip_quotes dquote raw | None => None end.

Definition parse_raw_string (node : Node) : option str :=
  if negb (kind_is (s! "raw_string") node) then None
  else match utf8_text node with Some raw => strip_quotes squote raw | None => None end.

Definition is_literal_word_or_number (node : Node) : bool :=
  one_of [s! "word"; s! "number"] (node_kind node) && is_empty (named_children node).

(** The parts of a concatenation of a plain command, appended in order. *)
Fixpoint concat_plain_parts (concatenated : str) (parts : list Node) : option str :=
  match parts with
  | [] => Some concatenated
  | part :: parts =>
      let parsed :=
        if one_of [s! "word"; s! "number"] (node_kind part) then utf8_text part
        else if kind_is (s! "string") part then parse_double_quoted_string part
        else if kind_is (s! "raw_string") part then parse_raw_string part
        else None in
      match parsed with
      | Some w => concat_plain_parts (concatenated ++ w) parts
      | None => None
      end
  end.

(** The word a named child of a plain command contributes; [None] rejects. *)
Definition plain_word (child : Node) : option str :=
  if kind_is (s! "command_name") child then
    match head (named_children child) with
    | Some word_node => if kind_is (s! "word") word_node then utf8_text word_node else None
    | None => None
    end
  else if one_of [s! "word"; s! "number"] (node_kind child) then utf8_text child
  else if kind_is (s! "string") child then parse_double_quoted_string child
  else if kind_is (s! "raw_string") child then parse_raw_string child
  else if kind_is (s! "concatenation") child then
    match concat_plain_parts [] (named_children child) with
    | Some concatenated => if is_empty concatenated then None else Some concatenated
    | None => None
    end
  else None.

Fixpoint plain_words (words : list str) (children : list Node) : option (list str) :=
  match children with
  | [] => Some words
  | child :: children =>
      match plain_word child with
      | Some w => plain_words (words ++ [w]) children
      | None => None
      end
  end.

Definition parse_plain_command_from_node (cmd : Node) : option (list str) :=
  if negb (kind_is (s! "command") cmd) then None else plain_words [] (named_children cmd).

(** A concatenation is the only kind of word that recurses, on its named parts. *)
Fixpoint parse_literal_shell_word (node : Node) : option str :=
  let fix concat_parts (concatenated : str) (parts : list Node) : option str :=
    match parts with
    | [] => Some concatenated
    | part :: parts =>
        if is_named part then
          match parse_literal_shell_word part with
          | Some w => concat_parts (concatenated ++ w) parts
          | None => None
          end
        else concat_parts concatenated parts
    end in
  match node with
  | mkNode kind _ _ _ text children =>
      if one_of [s! "word"; s! "number"] kind then
        if is_literal_word_or_number node then text else None
      else if str_eqb kind (s! "string") then parse_double_quoted_string node
      else if str_eqb kind (s! "raw_string") then parse_raw_string node
      else if str_eqb kind (s! "concatenation") then
        match concat_parts [] children with
        | Some concatenated => if is_empty concatenated then None else Some concatenated
        | None => None
        end
      else None
  end.

Fixpoint literal_words (words : list str) (found_command_name : bool) (children : list Node)
    : option (list str) :=
  match children with
  | [] => if found_command_name then Some words else None
  | child :: children =>
      if kind_is (s! "command_name") child then
        match head (named_children child) with
        | Some name =>
            match parse_literal_shell_word name with
            | Some command_name => literal_words (words ++ [command_name]) true children
            | None => None
            end
        | None => None
        end
      else
        match (if found_command_name then parse_literal_shell_word child else None) with
        | Some word => literal_words (words ++ [word]) found_command_name children
        | None => literal_words words found_command_name children
        end
  end.

Definition parse_literal_command_from_node (cmd : Node) : option (list str) :=
  if negb (kind_is (s! "command") cmd) then None else literal_words [] false (named_children cmd).

Definition is_allowed_heredoc_attachment_kind (kind : str) : bool :=
  one_of [s! "heredoc_body"; s! "simple_heredoc_body"; s! "heredoc_redirect";
          s! "herestring_redirect"; s! "redirected_statement"] kind.

Fixpoint heredoc_words (words : list str) (children : list Node) : option (list str) :=
  match children with
  | [] => Some words
  | child :: children =>
      if kind_is (s! "command_name") child then
        match head (named_children child) with
        | Some word_node =>
            if negb (one_of [s! "word"; s! "number"] (node_kind word_node))
               || negb (is_literal_word_or_number word_node)
            then None
            else match utf8_text word_node with
                 | Some w => heredoc_words (words ++ [w]) children
                 | None => None
                 end
        | None => None
        end
      else if one_of [s! "word"; s! "number"] (node_kind child) then
        if negb (is_literal_word_or_number child) then None
        else match utf8_text child with
             | Some w => heredoc_words (words ++ [w]) children
             | None => None
             end
      else if kind_is (s! "comment") child then heredoc_words words children
      else if is_allowed_heredoc_attachment_kind (node_kind child)
      then heredoc_words words children
      else None
  end.

Definition parse_heredoc_command_words (cmd : Node) : option (list str) :=
  if negb (kind_is (s! "command") cmd) then None
  else match heredoc_words [] (named_children cmd) with
       | Some words => if is_empty words then None else Some words
       | None => None
       end.

(** ** Walks over the tree

    A walk keeps a stack whose top is the head of the list; pushing the children
    in order leaves the last one on top. *)

Definition push_children (children stack : list Node) : list Node := reverse children ++ stack.

Definition ALLOWED_KINDS : list str :=
  [s! "program"; s! "list"; s! "pipeline"; s! "command"; s! "command_name"; s! "word"; s! "string";
   s! "string_content"; s! "raw_string"; s! "number"; s! "concatenation"].

Definition ALLOWED_PUNCT_TOKENS : list str := [s! "&&"; s! "||"; s! ";"; s! "|"; dquote; squote].

Definition node_allowed (node : Node) : bool :=
  let kind := node_kind node in
  if is_named node then one_of ALLOWED_KINDS kind
  else if existsb (fun c => contains_char c (s! "&;|")) kind
          && negb (one_of ALLOWED_PUNCT_TOKENS kind) then false
  else one_of ALLOWED_PUNCT_TOKENS kind || is_empty (trim kind).

Fixpoint word_only_walk (fuel : nat) (stack command_nodes : list Node) : option (list Node) :=
  match fuel, stack with
  | S fuel, node :: stack =>
      if negb (node_allowed node) then None
      else
        let command_nodes := if is_named node && kind_is (s! "command") node
                             then command_nodes ++ [node] else command_nodes in
        word_only_walk fuel (push_children (node_children node) stack) command_nodes
  | _, _ => Some command_nodes
  end.

(** A stable sort by [start_byte]. *)
Fixpoint insert_by_start (n : Node) (l : list Node) : list Node :=
  match l with
  | [] => [n]
  | m :: l' => if (start_byte n <=? start_byte m)%N then n :: l else m :: insert_by_start n l'
  end.

Definition sort_by_start (l : list Node) : list Node := foldr insert_by_start [] l.

Fixpoint collect_plain (commands : list (list str)) (nodes : list Node)
    : option (list (list str)) :=
  match nodes with
  | [] => Some commands
  | node :: nodes =>
      match parse_plain_command_from_node node with
      | Some words => collect_plain (commands ++ [words]) nodes
      | None => None
      end
  end.

Definition try_parse_word_only_commands_sequence (root : Node) : option (list (list str)) :=
  if has_error root then None
  else match word_only_walk (tree_size root) [root] [] with
       | Some command_nodes => collect_plain [] (sort_by_start command_nodes)
       | None => None
       end.

Fixpoint literal_walk (fuel : nat) (stack : list Node) (commands : list (list str))
    : list (list str) :=
  match fuel, stack with
  | S fuel, node :: stack =>
      let commands :=
        if kind_is (s! "command") node then
          match parse_literal_command_from_node node with
          | Some command => commands ++ [command]
          | None => commands
          end
        else commands in
      literal_walk fuel (push_children (named_children node) stack) commands
  | _, _ => commands
  end.

Fixpoint single_command_walk (fuel : nat) (stack : list Node) (single_command : option Node)
    : option Node :=
  match fuel, stack with
  | S fuel, node :: stack =>
      let next := single_command_walk fuel (push_children (named_children node) stack) in
      if kind_is (s! "command") node then
        match single_command with
        | Some _ => None
        | None => next (Some node)
        end
      else next single_command
  | _, _ => single_command
  end.

Definition find_single_command_node (root : Node) : option Node :=
  single_command_walk (tree_size root) [root] None.

Fixpoint descendant_walk (kind : str) (fuel : nat) (stack : list Node) : bool :=
  match fuel, stack with
  | S fuel, current :: stack =>
      if kind_is kind current then true
      else descendant_walk kind fuel (push_children (named_children current) stack)
  | _, _ => false
  end.

Definition has_named_descendant_kind (node : Node) (kind : str) : bool :=
  descendant_walk kind (tree_size node) [node].

(** ** The commands of a script *)

Section Scripts.
Context (try_parse_shell : str -> option Node).

Definition parse_shell_script_into_commands (script : str) : option (list (list str)) :=
  match try_parse_shell script with
  | Some tree => try_parse_word_only_commands_sequence tree
  | None => None
  end.

Definition parse_shell_lc_plain_commands (command : list str) : option (list (list str)) :=
  match extract_bash_command command with
  | Some (_, script) => parse_shell_script_into_commands script
  | None => None
  end.

(** The part of [parse_shell_lc_literal_commands] after the script is found. *)
Definition literal_commands (script : str) : option (list (list str)) :=
  match try_parse_shell script with
  | Some root => if has_error root then None else Some (literal_walk (tree_size root) [root] [])
  | None => None
  end.

Definition parse_shell_lc_literal_commands (command : list str) : option (list (list str)) :=
  match extract_bash_command command with
  | Some (_, script) => literal_commands script
  | None => None
  end.

Definition parse_shell_lc_single_command_prefix (command : list str) : option (list str) :=
  match extract_bash_command command with
  | None => None
  | Some (_, script) =>
      match try_parse_shell script with
      | None => None
      | Some root =>
          if has_error root then None
          else if negb (has_named_descendant_kind root (s! "heredoc_redirect")) then None
          else if has_named_descendant_kind root (s! "file_redirect") then None
          else match find_single_command_node root with
               | Some command_node => parse_heredoc_command_words command_node
               | None => None
               end
      end
  end.

End Scripts.

(** The tree of [ls -l && pwd]. *)
Definition leaf (kind text : str) (start : N) : Node := mkNode kind true false start (Some text) [].
Definition token (kind : str) (start : N) : Node := mkNode kind false false start (Some kind) [].
Definition word_command (name : str) (args : list Node) (start : N) : Node :=
  mkNode (s! "command") true false start None
    (mkNode (s! "command_name") true false start None [leaf (s! "word") name start] :: args).

Example walk_restores_source_order :
  try_parse_word_only_commands_sequence
    (mkNode (s! "program") true false 0 None
      [mkNode (s! "list") true false 0 None
        [word_command (s! "ls") [leaf (s! "word") (s! "-l") 3] 0; token (s! "&&") 6;
         word_command (s! "pwd") [] 9]])
  = Some [[s! "ls"; s! "-l"]; [s! "pwd"]].
Proof. reflexivity. Qed.
