(* ===== verification/ShellParseFacts.v ===== *)
(** * Correctness of the walks over a shell script

    The stack walks visit every node once and need no more fuel than the tree has
    nodes; the commands of a plain script come out in source order; and where both
    parsers give commands, the literal ones are among the plain ones. *)

From Stdlib Require Import Sorted.
From S2P Require Import Prelude.
From S2P Require Import RustStr.
From S2P Require Import ShellParse.

(** ** The nodes of a tree *)

(** The nodes that are reached through the kept children, in document order. *)
Fixpoint nodes_by (keep : Node -> bool) (n : Node) : list Node :=
  let 'mkNode _ _ _ _ _ cs := n in
  n :: flat_map (fun c => if keep c then nodes_by keep c else []) cs.

Definition nodes : Node -> list Node := nodes_by (fun _ => true).

Definition kept (keep : Node -> bool) (n : Node) : list Node :=
  filter (fun c => keep c = true) (node_children n).

(** Document order. *)
Definition command_nodes (root : Node) : list Node :=
  filter (fun n => is_named n && kind_is (s! "command") n = true) (nodes root).

(** The order in which a walk pops nodes. *)
Fixpoint visit (keep : Node -> bool) (fuel : nat) (stack : list Node) : list Node :=
  match fuel, stack with
  | S fuel, node :: stack => node :: visit keep fuel (push_children (kept keep node) stack)
  | _, _ => []
  end.

Lemma nodes_by_unfold keep n : nodes_by keep n = n :: flat_map (nodes_by keep) (kept keep n).
Proof.
  destruct n as [k b e s t cs]. unfold kept. cbn [nodes_by node_children]. f_equal.
  induction cs as [|c cs IH]; [done|]. cbn [flat_map]. rewrite filter_cons.
  destruct (keep c); rewrite IH; [done|]. case_decide; done.
Qed.

Lemma tree_size_unfold n : tree_size n = S (sum_list_with tree_size (node_children n)).
Proof. by destruct n. Qed.

Lemma kept_size keep n :
  sum_list_with tree_size (kept keep n) <= sum_list_with tree_size (node_children n).
Proof.
  unfold kept. induction (node_children n) as [|c cs IH]; [done|]. rewrite filter_cons.
  case_decide; simpl; lia.
Qed.

Lemma flat_map_perm {A B} (f : A -> list B) l k : l ≡ₚ k -> flat_map f l ≡ₚ flat_map f k.
Proof.
  induction 1 as [|x l k _ IH|x y l|l k m _ IH1 _ IH2]; simpl.
  - done.
  - by rewrite IH.
  - by rewrite !app_assoc, (Permutation_app_comm (f y)).
  - by rewrite IH1.
Qed.

Lemma push_children_size cs stack :
  sum_list_with tree_size (push_children cs stack) =
  sum_list_with tree_size cs + sum_list_with tree_size stack.
Proof.
  unfold push_children. rewrite sum_list_with_app. f_equal.
  induction cs as [|c cs IH]; [done|]. rewrite reverse_cons, sum_list_with_app, IH. simpl. lia.
Qed.

(** With the size of the stack as fuel, a walk visits every node once. *)
Lemma visit_perm keep fuel stack :
  sum_list_with tree_size stack <= fuel -> visit keep fuel stack ≡ₚ flat_map (nodes_by keep) stack.
Proof.
  revert stack. induction fuel as [|fuel IH]; intros [|n stack] H; [done| |done|].
  - exfalso. cbn in H. rewrite tree_size_unfold in H. lia.
  - cbn [visit flat_map]. cbn [sum_list_with] in H. rewrite tree_size_unfold in H.
    pose proof (kept_size keep n). rewrite IH by (rewrite push_children_size; lia).
    rewrite nodes_by_unfold, <- app_comm_cons. f_equiv. unfold push_children.
    rewrite (flat_map_perm _ _ (kept keep n ++ stack)); [by rewrite flat_map_app|].
    f_equiv. apply reverse_Permutation.
Qed.

Lemma visit_root keep root : visit keep (tree_size root) [root] ≡ₚ nodes_by keep root.
Proof.
  rewrite visit_perm by (simpl; lia). simpl. by rewrite app_nil_r.
Qed.

Lemma kept_all n : kept (fun _ => true) n = node_children n.
Proof. unfold kept. induction (node_children n) as [|c cs IH]; [done|]. by rewrite filter_cons_True, IH. Qed.

(** ** The walks as functions of what they visit *)

Lemma word_only_walk_visit fuel stack acc :
  word_only_walk fuel stack acc =
  if forallb node_allowed (visit (fun _ => true) fuel stack)
  then Some (acc ++ filter (fun n => is_named n && kind_is (s! "command") n = true)
                      (visit (fun _ => true) fuel stack))
  else None.
Proof.
  revert stack acc. induction fuel as [|fuel IH]; intros [|n stack] acc;
    cbn [word_only_walk visit forallb]; rewrite ?filter_nil, ?app_nil_r; try done.
  destruct (node_allowed n); [|done]. cbn [negb andb]. rewrite kept_all, IH.
  destruct (forallb _ _); [|done]. f_equal. rewrite filter_cons.
  destruct (is_named n && kind_is (s! "command") n); case_decide; try done.
  by rewrite <- app_assoc.
Qed.

Lemma literal_walk_visit fuel stack acc command :
  command ∈ literal_walk fuel stack acc <->
  command ∈ acc \/ exists n, n ∈ visit is_named fuel stack /\
    parse_literal_command_from_node n = Some command.
Proof.
  revert stack acc. induction fuel as [|fuel IH]; intros [|n stack] acc; cbn;
    [set_solver..|].
  change (named_children n) with (kept is_named n). rewrite IH.
  assert (Hn : command ∈ (if kind_is (s! "command") n then
      match parse_literal_command_from_node n with Some c => acc ++ [c] | None => acc end
      else acc) <-> command ∈ acc \/ parse_literal_command_from_node n = Some command).
  { destruct (kind_is (s! "command") n) eqn:Ek.
    - destruct (parse_literal_command_from_node n) as [c|]; [|naive_solver].
      rewrite elem_of_app, list_elem_of_singleton. naive_solver.
    - unfold parse_literal_command_from_node. rewrite Ek. cbn. naive_solver. }
  rewrite Hn. setoid_rewrite elem_of_cons. naive_solver.
Qed.

Lemma named_nodes_sub n : forall m, m ∈ nodes_by is_named n -> m ∈ nodes n.
Proof.
  enough (H : forall k n, tree_size n <= k -> forall m, m ∈ nodes_by is_named n -> m ∈ nodes n)
    by (intros m; by apply (H (tree_size n))).
  clear n. induction k as [|k IH]; intros n Hk m; rewrite tree_size_unfold in Hk; [lia|].
  unfold nodes. rewrite !nodes_by_unfold, kept_all, !elem_of_cons. intros [->|Hm]; [by left|right].
  rewrite list_elem_of_In, in_flat_map in *. destruct Hm as (c & Hc & Hm). exists c.
  unfold kept in Hc. apply list_elem_of_In, list_elem_of_filter in Hc as [_ Hc].
  split; [by apply list_elem_of_In|]. apply list_elem_of_In, IH; [|by apply list_elem_of_In].
  pose proof (sum_list_with_in c tree_size _ Hc). lia.
Qed.

(** ** Sorting by position *)

Lemma insert_by_start_perm n l : insert_by_start n l ≡ₚ n :: l.
Proof.
  induction l as [|m l IH]; [done|]. simpl. case_match; [done|]. rewrite IH. apply perm_swap.
Qed.

Lemma sort_by_start_perm l : sort_by_start l ≡ₚ l.
Proof.
  unfold sort_by_start. induction l as [|n l IH]; [done|]. simpl. by rewrite insert_by_start_perm, IH.
Qed.

Definition starts_le (n m : Node) : Prop := (start_byte n <= start_byte m)%N.
Definition starts_lt (n m : Node) : Prop := (start_byte n < start_byte m)%N.

Lemma insert_by_start_sorted n l :
  StronglySorted starts_le l -> StronglySorted starts_le (insert_by_start n l).
Proof.
  induction 1 as [|m l Hs IH Hall]; simpl; [by repeat constructor|].
  destruct (N.leb_spec (start_byte n) (start_byte m)) as [H|H].
  - constructor; [by constructor|]. constructor; [done|].
    eapply Forall_impl; [done|]. unfold starts_le. intros x Hx; simpl in *. lia.
  - constructor; [done|]. rewrite insert_by_start_perm. constructor; [|done].
    unfold starts_le. lia.
Qed.

Lemma sort_by_start_sorted l : StronglySorted starts_le (sort_by_start l).
Proof.
  unfold sort_by_start. induction l; simpl; [constructor|]. by apply insert_by_start_sorted.
Qed.

Lemma sorted_unique l k :
  StronglySorted starts_lt l -> StronglySorted starts_le k -> l ≡ₚ k -> l = k.
Proof.
  intros Hl. revert k. induction Hl as [|x l Hl IH Hx]; intros k Hk Hp.
  { by apply Permutation_nil in Hp. }
  destruct k as [|y k]; [by apply Permutation_sym, Permutation_nil in Hp|].
  apply StronglySorted_inv in Hk as [Hk Hy].
  assert (x = y) as ->.
  { assert (Hx' : x ∈ y :: k) by (rewrite <- Hp; by left).
    assert (Hy' : y ∈ x :: l) by (rewrite Hp; by left).
    apply elem_of_cons in Hx' as [?|Hx']; [done|]. apply elem_of_cons in Hy' as [?|Hy']; [done|].
    rewrite Forall_forall in Hx, Hy. specialize (Hx _ Hy'). specialize (Hy _ Hx').
    unfold starts_lt, starts_le in *. lia. }
  f_equal. apply IH; [done|]. by apply Permutation_cons_inv in Hp.
Qed.

Lemma collect_plain_mapM acc l :
  collect_plain acc l = app acc <$> mapM parse_plain_command_from_node l.
Proof.
  revert acc. induction l as [|n l IH]; intros acc; simpl; [by rewrite app_nil_r|].
  destruct (parse_plain_command_from_node n) as [w|]; [|done]. cbn. rewrite IH.
  destruct (mapM _ l); [|done]. cbn. by rewrite <- app_assoc.
Qed.

Lemma word_only_sequence root :
  try_parse_word_only_commands_sequence root =
  if has_error root then None
  else if forallb node_allowed (visit (fun _ => true) (tree_size root) [root])
  then mapM parse_plain_command_from_node
         (sort_by_start (filter (fun n => is_named n && kind_is (s! "command") n = true)
            (visit (fun _ => true) (tree_size root) [root])))
  else None.
Proof.
  unfold try_parse_word_only_commands_sequence. destruct (has_error root); [done|].
  rewrite word_only_walk_visit. destruct (forallb _ _); [|done].
  rewrite collect_plain_mapM. by destruct (mapM _ _).
Qed.

Lemma forallb_Forall_true {A} (p : A -> bool) l : forallb p l = true <-> Forall (fun x => p x = true) l.
Proof. rewrite forallb_forall, Forall_forall. by setoid_rewrite list_elem_of_In. Qed.

(** What a script of plain commands is, whatever the positions of its nodes. *)
Lemma word_only_Some root commands :
  try_parse_word_only_commands_sequence root = Some commands ->
  Forall (fun n => node_allowed n = true) (nodes root) /\
  exists ordered, ordered ≡ₚ command_nodes root /\
    mapM parse_plain_command_from_node ordered = Some commands.
Proof.
  rewrite word_only_sequence. destruct (has_error root); [done|].
  destruct (forallb _ _) eqn:E; [|done]. apply forallb_Forall_true in E.
  rewrite visit_root in E. intros H. split; [done|]. eexists. split; [|exact H].
  unfold command_nodes, nodes. by rewrite sort_by_start_perm, visit_root.
Qed.

(** A script is one of plain commands exactly when its tree has no error,
    every node of it is an allowed construct or token, and every command node is
    made of plain words; its commands are then listed in the order of the source,
    although the walk meets them in another order. *)
Theorem plain_commands_in_source_order root commands :
  StronglySorted starts_lt (command_nodes root) ->
  try_parse_word_only_commands_sequence root = Some commands <->
  has_error root = false /\ Forall (fun n => node_allowed n = true) (nodes root) /\
  mapM parse_plain_command_from_node (command_nodes root) = Some commands.
Proof.
  intros Hs. rewrite word_only_sequence. destruct (has_error root); [naive_solver|].
  assert (Hf : forallb node_allowed (visit (fun _ => true) (tree_size root) [root]) = true <->
    Forall (fun n => node_allowed n = true) (nodes root)).
  { by rewrite forallb_Forall_true, visit_root. }
  rewrite <- Hf. destruct (forallb _ _); [|naive_solver].
  rewrite <- (sorted_unique (command_nodes root) (sort_by_start _));
    [naive_solver|done|apply sort_by_start_sorted|].
  unfold command_nodes, nodes. by rewrite sort_by_start_perm, visit_root.
Qed.

(** [ls -l && pwd] *)
Definition two_commands : Node :=
  mkNode (s! "program") true false 0 None
    [mkNode (s! "list") true false 0 None
      [word_command (s! "ls") [leaf (s! "word") (s! "-l") 3] 0; token (s! "&&") 6;
       word_command (s! "pwd") [] 9]].

Lemma plain_commands_in_source_order_witness :
  StronglySorted starts_lt (command_nodes two_commands) /\
  has_error two_commands = false /\
  Forall (fun n => node_allowed n = true) (nodes two_commands) /\
  mapM parse_plain_command_from_node (command_nodes two_commands)
    = Some [[s! "ls"; s! "-l"]; [s! "pwd"]].
Proof.
  assert (H : StronglySorted starts_lt (command_nodes two_commands)).
  { vm_compute. repeat constructor. }
  split; [exact H|]. apply (plain_commands_in_source_order two_commands); [exact H|reflexivity].
Defined.

(** ** Literal commands of a plain script *)

Definition WORD_KINDS : list str :=
  [s! "word"; s! "number"; s! "string"; s! "raw_string"; s! "concatenation"].

(** What the bash grammar says of a tree: a word has no named parts, a number at
    most an expansion or a substitution, and the arguments of a command come
    after its name. *)
Record bash_tree (root : Node) : Prop := {
  word_leaf n : n ∈ nodes root -> node_kind n = s! "word" -> named_children n = [];
  number_parts n : n ∈ nodes root -> node_kind n = s! "number" ->
    Forall (fun c => node_kind c ∈ [s! "expansion"; s! "command_substitution"]) (named_children n);
  name_before_arguments n pre c post : n ∈ nodes root -> node_kind n = s! "command" ->
    named_children n = pre ++ c :: post -> node_kind c = s! "command_name" ->
    Forall (fun p => node_kind p ∉ WORD_KINDS) pre }.

Lemma one_of_true names s : one_of names s = true <-> s ∈ names.
Proof.
  unfold one_of. rewrite existsb_exists. split.
  - intros (x & Hx & ->%str_eqb_eq). by apply list_elem_of_In.
  - intros H. exists s. split; [by apply list_elem_of_In|]. by apply str_eqb_eq.
Qed.

Lemma kind_is_true k n : kind_is k n = true <-> node_kind n = k.
Proof. apply str_eqb_eq. Qed.

Lemma named_children_elem n c : c ∈ named_children n -> is_named c = true /\ c ∈ node_children n.
Proof. intros H. by apply list_elem_of_filter in H. Qed.

Lemma nodes_self n : n ∈ nodes n.
Proof. unfold nodes. rewrite nodes_by_unfold. by left. Qed.

Lemma nodes_child n c m : c ∈ node_children n -> m ∈ nodes c -> m ∈ nodes n.
Proof.
  intros Hc Hm. unfold nodes. rewrite nodes_by_unfold, kept_all. right.
  apply list_elem_of_In, in_flat_map. exists c. by rewrite <- !list_elem_of_In.
Qed.

Lemma nodes_trans n : forall m k, m ∈ nodes n -> k ∈ nodes m -> k ∈ nodes n.
Proof.
  enough (H : forall s n, tree_size n <= s -> forall m k, m ∈ nodes n -> k ∈ nodes m -> k ∈ nodes n)
    by (intros m k; by apply (H (tree_size n))).
  clear n. induction s as [|s IH]; intros n Hs m k Hm Hk; rewrite tree_size_unfold in Hs; [lia|].
  unfold nodes in Hm. rewrite nodes_by_unfold, kept_all in Hm.
  apply elem_of_cons in Hm as [->|Hm]; [done|].
  rewrite list_elem_of_In, in_flat_map in Hm. destruct Hm as (c & Hc & Hm).
  rewrite <- list_elem_of_In in Hc, Hm. eapply nodes_child; [done|].
  eapply IH; [|done|done]. pose proof (sum_list_with_in c tree_size _ Hc). lia.
Qed.

Lemma nodes_named_child root n c : n ∈ nodes root -> c ∈ named_children n -> c ∈ nodes root.
Proof.
  intros Hn [_ Hc]%named_children_elem. eapply nodes_trans; [done|].
  eapply nodes_child; [done|apply nodes_self].
Qed.

(** The parts of a literal concatenation, named parts only. *)
Fixpoint concat_literal (acc : str) (parts : list Node) : option str :=
  match parts with
  | [] => Some acc
  | p :: parts =>
      match parse_literal_shell_word p with
      | Some w => concat_literal (acc ++ w) parts
      | None => None
      end
  end.

Lemma literal_word_unfold node :
  parse_literal_shell_word node =
  if one_of [s! "word"; s! "number"] (node_kind node) then
    if is_literal_word_or_number node then utf8_text node else None
  else if kind_is (s! "string") node then parse_double_quoted_string node
  else if kind_is (s! "raw_string") node then parse_raw_string node
  else if kind_is (s! "concatenation") node then
    match concat_literal [] (named_children node) with
    | Some concatenated => if is_empty concatenated then None else Some concatenated
    | None => None
    end
  else None.
Proof.
  destruct node as [k b e s t cs]. cbn [parse_literal_shell_word node_kind].
  unfold kind_is. cbn [node_kind utf8_text].
  destruct (one_of _ k); [done|]. destruct (str_eqb k (s! "string")); [done|].
  destruct (str_eqb k (s! "raw_string")); [done|].
  destruct (str_eqb k (s! "concatenation")); [|done].
  match goal with |- match ?f [] cs with _ => _ end = _ =>
    assert (Hf : forall acc, f acc cs = concat_literal acc (named_children (mkNode k b e s t cs)))
  end; [|by rewrite Hf].
  unfold named_children. cbn [node_children].
  induction cs as [|c cs IH]; intros acc; [done|]. rewrite filter_cons.
  destruct (is_named c); case_decide; try done. cbn [concat_literal].
  destruct (parse_literal_shell_word c); [apply IH|done].
Qed.

Section PlainTree.
Context (root : Node) (Htree : bash_tree root).
Context (Hallowed : Forall (fun n => node_allowed n = true) (nodes root)).

Lemma plain_leaf n :
  n ∈ nodes root -> one_of [s! "word"; s! "number"] (node_kind n) = true ->
  is_literal_word_or_number n = true.
Proof.
  intros Hn Hk. unfold is_literal_word_or_number. rewrite Hk. apply is_empty_true.
  apply one_of_true in Hk. rewrite elem_of_cons, list_elem_of_singleton in Hk. destruct Hk as [Hk|Hk].
  { by apply (word_leaf _ Htree). }
  pose proof (number_parts _ Htree n Hn Hk) as Hp.
  destruct (named_children n) as [|c cs] eqn:E; [done|]. exfalso.
  apply Forall_cons in Hp as [Hc _].
  assert (Hin : c ∈ named_children n) by (rewrite E; by left).
  pose proof (nodes_named_child _ _ _ Hn Hin) as Hcn. apply named_children_elem in Hin as [Hnamed _].
  rewrite Forall_forall in Hallowed. specialize (Hallowed _ Hcn). unfold node_allowed in Hallowed.
  rewrite Hnamed in Hallowed. rewrite elem_of_cons, list_elem_of_singleton in Hc.
  by destruct Hc as [Hc|Hc]; rewrite Hc in Hallowed.
Qed.

Lemma concat_plain_literal acc parts w :
  (forall p, p ∈ parts -> p ∈ nodes root) ->
  concat_plain_parts acc parts = Some w -> concat_literal acc parts = Some w.
Proof.
  revert acc. induction parts as [|p parts IH]; intros acc Hin; [done|].
  cbn [concat_plain_parts concat_literal]. rewrite literal_word_unfold.
  destruct (one_of _ (node_kind p)) eqn:Ek.
  { rewrite plain_leaf by (first [done|apply Hin; by left]).
    destruct (utf8_text p); [|done]. apply IH. intros q Hq. apply Hin. by right. }
  assert (Hrest : forall q, q ∈ parts -> q ∈ nodes root) by (intros q Hq; apply Hin; by right).
  destruct (kind_is (s! "string") p); [case_match; [by apply IH|done]|].
  destruct (kind_is (s! "raw_string") p); [|done]. case_match; [by apply IH|done].
Qed.

Lemma plain_word_literal child w :
  child ∈ nodes root -> kind_is (s! "command_name") child = false ->
  plain_word child = Some w -> parse_literal_shell_word child = Some w.
Proof.
  intros Hn Hk. unfold plain_word. rewrite Hk, literal_word_unfold.
  destruct (one_of _ (node_kind child)) eqn:Ek; [by rewrite plain_leaf|].
  destruct (kind_is (s! "string") child); [done|].
  destruct (kind_is (s! "raw_string") child); [done|].
  destruct (kind_is (s! "concatenation") child); [|done].
  destruct (concat_plain_parts [] (named_children child)) as [x|] eqn:E; [|done].
  apply concat_plain_literal in E; [by rewrite E|]. intros p. by apply nodes_named_child.
Qed.

(** Once the name is found, the literal words are the plain ones. *)
Lemma plain_words_literal acc children ws :
  (forall c, c ∈ children -> c ∈ nodes root) ->
  plain_words acc children = Some ws -> literal_words acc true children = Some ws.
Proof.
  revert acc. induction children as [|c children IH]; intros acc Hin; [done|].
  cbn [plain_words literal_words]. destruct (plain_word c) as [w|] eqn:Ew; [|done]. intros H.
  assert (Hc : c ∈ nodes root) by (apply Hin; by left).
  assert (Hr : literal_words (acc ++ [w]) true children = Some ws).
  { apply IH; [|done]. intros d Hd. apply Hin. by right. }
  destruct (kind_is (s! "command_name") c) eqn:Ek.
  - unfold plain_word in Ew. rewrite Ek in Ew.
    destruct (head (named_children c)) as [d|] eqn:Ed; [|done].
    destruct (kind_is (s! "word") d) eqn:Ekd; [|done]. apply kind_is_true in Ekd.
    rewrite literal_word_unfold, Ekd. change (one_of _ (s! "word")) with true. cbv iota.
    rewrite plain_leaf, Ew; [done| |by rewrite Ekd].
    eapply nodes_named_child; [exact Hc|]. destruct (named_children c); [done|].
    injection Ed as ->. by left.
  - by rewrite (plain_word_literal c w).
Qed.

(** A word of a plain command is not before the name. *)
Lemma plain_word_kind c w :
  plain_word c = Some w -> kind_is (s! "command_name") c = false -> node_kind c ∈ WORD_KINDS.
Proof.
  unfold plain_word. intros H Hk. rewrite Hk in H. unfold WORD_KINDS.
  destruct (one_of [s! "word"; s! "number"] (node_kind c)) eqn:E1; [apply one_of_true in E1; set_solver|].
  destruct (kind_is (s! "string") c) eqn:E2; [apply kind_is_true in E2; set_solver|].
  destruct (kind_is (s! "raw_string") c) eqn:E3; [apply kind_is_true in E3; set_solver|].
  destruct (kind_is (s! "concatenation") c) eqn:E4; [apply kind_is_true in E4; set_solver|done].
Qed.

Lemma literal_words_nameless acc children :
  Forall (fun c => kind_is (s! "command_name") c = false) children ->
  literal_words acc false children = None.
Proof. induction 1 as [|c children Hc _ IH]; [done|]. cbn [literal_words]. by rewrite Hc. Qed.

Lemma plain_command_literal n ws ls :
  n ∈ nodes root -> parse_plain_command_from_node n = Some ws ->
  parse_literal_command_from_node n = Some ls -> ls = ws.
Proof.
  unfold parse_plain_command_from_node, parse_literal_command_from_node. intros Hn.
  destruct (kind_is (s! "command") n) eqn:Ek; [|done]. cbn [negb]. apply kind_is_true in Ek.
  pose proof (fun pre c post => name_before_arguments _ Htree n pre c post Hn Ek) as Hname.
  pose proof (fun c => nodes_named_child root n c Hn) as Hin.
  destruct (named_children n) as [|c children]; [done|].
  destruct (kind_is (s! "command_name") c) eqn:Ec.
  - intros Hp Hl. apply plain_words_literal in Hp; [|done]. cbn [literal_words] in Hp, Hl.
    rewrite Ec in Hp, Hl. congruence.
  - cbn [plain_words]. destruct (plain_word c) as [w|] eqn:Ew; [|done]. intros _.
    rewrite literal_words_nameless; [done|]. constructor; [done|]. apply Forall_forall. intros d Hd.
    apply not_true_iff_false. intros Hk%kind_is_true.
    apply list_elem_of_split in Hd as (pre & post & ->). specialize (Hname (c :: pre) d post eq_refl Hk).
    apply Forall_cons in Hname as [Hc _]. by eapply Hc, plain_word_kind.
Qed.

End PlainTree.

(** Where both parsers of a script give commands, the literal ones are among the
    plain ones. *)
Lemma literal_among_plain try_parse_shell script cs ls :
  (forall root, try_parse_shell script = Some root -> bash_tree root) ->
  parse_shell_script_into_commands try_parse_shell script = Some cs ->
  literal_commands try_parse_shell script = Some ls ->
  forall c, c ∈ ls -> c ∈ cs.
Proof.
  unfold parse_shell_script_into_commands, literal_commands. intros Hg.
  destruct (try_parse_shell script) as [root|]; [|done]. specialize (Hg root eq_refl).
  intros (Hall & ordered & Hperm & Hm)%word_only_Some. destruct (has_error root); [done|].
  intros [= <-] c Hc. apply literal_walk_visit in Hc as [Hc|(n & Hn & Hlit)]; [by apply not_elem_of_nil in Hc|].
  rewrite visit_root in Hn. apply named_nodes_sub in Hn.
  assert (Hcmd : n ∈ ordered).
  { rewrite Hperm. unfold command_nodes. apply list_elem_of_filter. split; [|done].
    unfold parse_literal_command_from_node in Hlit.
    destruct (kind_is (s! "command") n) eqn:Ek; [|done]. apply kind_is_true in Ek.
    rewrite Forall_forall in Hall. specialize (Hall n Hn). unfold node_allowed in Hall.
    rewrite Ek in Hall. by destruct (is_named n). }
  apply mapM_Some in Hm. apply list_elem_of_lookup in Hcmd as [i Hi].
  destruct (Forall2_lookup_l _ _ _ _ _ Hm Hi) as (ws & Hws & Hplain).
  rewrite (plain_command_literal root Hg Hall n ws c) by done.
  by eapply list_elem_of_lookup_2.
Qed.

(** ** The single command of a here-document script *)

Lemma descendant_walk_visit kind fuel stack :
  descendant_walk kind fuel stack = existsb (kind_is kind) (visit is_named fuel stack).
Proof.
  revert stack. induction fuel as [|fuel IH]; intros [|n stack]; try done.
  cbn [descendant_walk visit existsb]. change (named_children n) with (kept is_named n).
  rewrite IH. by destruct (kind_is kind n).
Qed.

Lemma has_named_descendant_spec root kind :
  has_named_descendant_kind root kind = true <->
  exists n, n ∈ nodes_by is_named root /\ node_kind n = kind.
Proof.
  unfold has_named_descendant_kind. rewrite descendant_walk_visit, existsb_exists.
  setoid_rewrite <- list_elem_of_In. setoid_rewrite visit_root. by setoid_rewrite kind_is_true.
Qed.

Lemma single_command_walk_visit fuel stack single :
  single_command_walk fuel stack single =
  match option_list single ++ filter (fun n => kind_is (s! "command") n = true)
          (visit is_named fuel stack) with
  | [n] => Some n
  | _ => None
  end.
Proof.
  revert stack single. induction fuel as [|fuel IH]; intros [|n stack] single;
    cbn [single_command_walk visit]; rewrite ?filter_nil, ?app_nil_r; try by destruct single.
  change (named_children n) with (kept is_named n). rewrite filter_cons, !IH.
  destruct (kind_is (s! "command") n); case_decide; try done. by destruct single.
Qed.

(** The command node that is found is the only one of the tree. *)
Lemma find_single_command_spec root n :
  find_single_command_node root = Some n <->
  filter (fun n => kind_is (s! "command") n = true) (nodes_by is_named root) = [n].
Proof.
  unfold find_single_command_node. rewrite single_command_walk_visit. cbn [option_list app].
  assert (Hp : filter (fun n => kind_is (s! "command") n = true) (visit is_named (tree_size root) [root])
    ≡ₚ filter (fun n => kind_is (s! "command") n = true) (nodes_by is_named root))
    by (by rewrite visit_root).
  destruct (filter _ (visit _ _ _)) as [|x [|y l]] eqn:E.
  - apply Permutation_nil in Hp. by rewrite Hp.
  - apply Permutation_length_1_inv in Hp. rewrite Hp. naive_solver.
  - split; [done|]. intros H. rewrite H in Hp. apply Permutation_length in Hp. done.
Qed.

(** A prefix is given only for a script with one command, a here-document and no
    file redirection. *)
Lemma heredoc_prefix_shape try_parse_shell shell flag script words :
  parse_shell_lc_single_command_prefix try_parse_shell [shell; flag; script] = Some words ->
  exists root n, try_parse_shell script = Some root /\ has_error root = false /\
    filter (fun n => kind_is (s! "command") n = true) (nodes_by is_named root) = [n] /\
    (forall m, m ∈ nodes_by is_named root -> node_kind m <> s! "file_redirect") /\
    (exists m, m ∈ nodes_by is_named root /\ node_kind m = s! "heredoc_redirect") /\
    parse_heredoc_command_words n = Some words /\ words <> [].
Proof.
  unfold parse_shell_lc_single_command_prefix.
  destruct (extract_bash_command [shell; flag; script]) as [[sh sc]|] eqn:Ex; [|done].
  assert (sc = script) as ->.
  { unfold extract_bash_command in Ex. destruct (negb _); [done|].
    destruct (detect_shell_type shell) as [[]|]; naive_solver. }
  destruct (try_parse_shell script) as [root|]; [|done].
  destruct (has_error root) eqn:Ee; [done|].
  destruct (has_named_descendant_kind root (s! "heredoc_redirect")) eqn:Eh; [|done]. cbn [negb].
  destruct (has_named_descendant_kind root (s! "file_redirect")) eqn:Ef; [done|].
  destruct (find_single_command_node root) as [n|] eqn:En; [|done].
  apply has_named_descendant_spec in Eh. apply find_single_command_spec in En. intros H.
  exists root, n. split_and!; try done.
  - intros m Hm Hk. apply not_true_iff_false in Ef. apply Ef, has_named_descendant_spec. by exists m.
  - intros ->. unfold parse_heredoc_command_words in H. destruct (negb _); [done|].
    destruct (heredoc_words [] (named_children n)) as [[|w ws]|]; done.
Qed.
