(* ===== verification/CommandSafety.v ===== *)
(** * Command safety: [shell-command/src/command_safety/is_safe_command.rs] and
      [is_dangerous_command.rs]

    Which commands may run without asking, and which are known to be dangerous.
    The definitions are those of a target that is not Windows.  The parser of
    shell scripts is the parameter of [ShellParse]. *)

From S2P Require Import Prelude.
From S2P Require Import RustStr.
From S2P Require Import ExecRule.
From S2P Require Import ShellParse.

(** ** Git commands *)

Definition executable_name_lookup_key (raw : str) : option str := file_name raw.

Definition is_git_global_option_with_value (arg : str) : bool :=
  one_of [s! "-C"; s! "-c"; s! "--config-env"; s! "--exec-path"; s! "--git-dir"; s! "--namespace";
          s! "--super-prefix"; s! "--work-tree"] arg.

Definition is_git_global_option_with_inline_value (arg : str) : bool :=
  existsb (fun p => starts_with p arg)
    [s! "--config-env="; s! "--exec-path="; s! "--git-dir="; s! "--namespace=";
     s! "--super-prefix="; s! "--work-tree="]
  || ((starts_with (s! "-C") arg || starts_with (s! "-c") arg) && (2 <? byte_len arg)%N).

(** The loop over the arguments after the first word. *)
Fixpoint find_subcommand_from (subcommands : list str) (skip_next : bool) (idx : nat)
    (args : list str) : option (nat * str) :=
  match args with
  | [] => None
  | arg :: rest =>
      if skip_next then find_subcommand_from subcommands false (S idx) rest
      else if is_git_global_option_with_inline_value arg
      then find_subcommand_from subcommands false (S idx) rest
      else if is_git_global_option_with_value arg
      then find_subcommand_from subcommands true (S idx) rest
      else if str_eqb arg (s! "--") || starts_with (s! "-") arg
      then find_subcommand_from subcommands false (S idx) rest
      else if one_of subcommands arg then Some (idx, arg)
      else None
  end.

Definition find_git_subcommand (command subcommands : list str) : option (nat * str) :=
  match command with
  | [] => None
  | cmd0 :: args =>
      match executable_name_lookup_key cmd0 with
      | Some name =>
          if str_eqb name (s! "git") then find_subcommand_from subcommands false 1 args else None
      | None => None
      end
  end.

Inductive GitOptionPattern :=
| Exact (option : str)
| ShortWithInlineValue (option : str)
| Prefix (prefix : str).

Definition git_option_matches (p : GitOptionPattern) (arg : str) : bool :=
  match p with
  | Exact option => str_eqb arg option
  | ShortWithInlineValue option => starts_with option arg && (byte_len option <? byte_len arg)%N
  | Prefix prefix => starts_with prefix arg
  end.

Definition UNSAFE_GIT_GLOBAL_OPTIONS : list GitOptionPattern :=
  [Exact (s! "-C"); ShortWithInlineValue (s! "-C"); Exact (s! "-c");
   ShortWithInlineValue (s! "-c"); Exact (s! "-p"); Exact (s! "--config-env");
   Prefix (s! "--config-env="); Exact (s! "--exec-path"); Prefix (s! "--exec-path=");
   Exact (s! "--git-dir"); Prefix (s! "--git-dir="); Exact (s! "--namespace");
   Prefix (s! "--namespace="); Exact (s! "--paginate"); Exact (s! "--super-prefix");
   Prefix (s! "--super-prefix="); Exact (s! "--work-tree"); Prefix (s! "--work-tree=")].

Definition UNSAFE_GIT_SUBCOMMAND_OPTIONS : list GitOptionPattern :=
  [Exact (s! "--output"); Prefix (s! "--output="); Exact (s! "--ext-diff");
   Exact (s! "--textconv"); Exact (s! "--exec"); Prefix (s! "--exec=")].

Definition git_matches_option_pattern (arg : str) (patterns : list GitOptionPattern) : bool :=
  existsb (fun pattern => git_option_matches pattern arg) patterns.

Definition git_has_unsafe_global_option (global_args : list str) : bool :=
  existsb (fun arg => git_matches_option_pattern arg UNSAFE_GIT_GLOBAL_OPTIONS) global_args.

Definition git_subcommand_args_are_read_only (args : list str) : bool :=
  negb (existsb (fun arg => git_matches_option_pattern arg UNSAFE_GIT_SUBCOMMAND_OPTIONS) args).

Definition is_branch_query_flag (arg : str) : bool :=
  one_of [s! "--list"; s! "-l"; s! "--show-current"; s! "-a"; s! "--all"; s! "-r"; s! "--remotes";
          s! "-v"; s! "-vv"; s! "--verbose"] arg
  || starts_with (s! "--format=") arg.

Fixpoint branch_flags_loop (saw_read_only_flag : bool) (args : list str) : bool :=
  match args with
  | [] => saw_read_only_flag
  | arg :: rest => if is_branch_query_flag arg then branch_flags_loop true rest else false
  end.

Definition git_branch_is_read_only (branch_args : list str) : bool :=
  if is_empty branch_args then true else branch_flags_loop false branch_args.

Definition SAFE_GIT_SUBCOMMANDS : list str :=
  [s! "status"; s! "log"; s! "diff"; s! "show"; s! "branch"].

Definition is_safe_git_command (command : list str) : bool :=
  match find_git_subcommand command SAFE_GIT_SUBCOMMANDS with
  | None => false
  | Some (subcommand_idx, subcommand) =>
      let global_args := take (subcommand_idx - 1) (drop 1 command) in
      if git_has_unsafe_global_option global_args then false
      else
        let subcommand_args := drop (S subcommand_idx) command in
        if one_of [s! "status"; s! "log"; s! "diff"; s! "show"] subcommand
        then git_subcommand_args_are_read_only subcommand_args
        else if str_eqb subcommand (s! "branch")
        then git_subcommand_args_are_read_only subcommand_args
             && git_branch_is_read_only subcommand_args
        else false
  end.

(** ** Safe commands *)

Definition is_number (s : str) : bool := negb (is_empty s) && forallb is_ascii_digit s.

(** Matches [(\d+,)?\d+p]. *)
Definition is_valid_sed_n_arg (arg : option str) : bool :=
  match arg with
  | None => false
  | Some s =>
      match strip_suffix (s! "p") s with
      | None => false
      | Some core =>
          match split_on (ch ",") core with
          | [num] => is_number num
          | [a; b] => is_number a && is_number b
          | _ => false
          end
      end
  end.

Definition SAFE_PROGRAMS : list str :=
  [s! "cat"; s! "cd"; s! "cut"; s! "echo"; s! "expr"; s! "false"; s! "grep"; s! "head"; s! "id";
   s! "ls"; s! "nl"; s! "paste"; s! "pwd"; s! "rev"; s! "seq"; s! "stat"; s! "tail"; s! "tr";
   s! "true"; s! "uname"; s! "uniq"; s! "wc"; s! "which"; s! "whoami"].

Definition UNSAFE_FIND_OPTIONS : list str :=
  [s! "-exec"; s! "-execdir"; s! "-ok"; s! "-okdir"; s! "-delete"; s! "-fls"; s! "-fprint";
   s! "-fprint0"; s! "-fprintf"].

Definition unsafe_base64_arg (arg : str) : bool :=
  one_of [s! "-o"; s! "--output"] arg || starts_with (s! "--output=") arg
  || (starts_with (s! "-o") arg && negb (str_eqb arg (s! "-o"))).

Definition unsafe_ripgrep_arg (arg : str) : bool :=
  one_of [s! "--search-zip"; s! "-z"] arg
  || existsb (fun opt => str_eqb arg opt || starts_with (opt ++ s! "=") arg)
       [s! "--pre"; s! "--hostname-bin"].

Section Safety.
Context (linux : bool).
Context (try_parse_shell : str -> option Node).

Definition is_safe_to_call_with_exec (command : list str) : bool :=
  match command with
  | [] => false
  | cmd0 :: args =>
      match executable_name_lookup_key cmd0 with
      | None => false
      | Some name =>
          if linux && one_of [s! "numfmt"; s! "tac"] name then true
          else if one_of SAFE_PROGRAMS name then true
          else if str_eqb name (s! "base64") then negb (existsb unsafe_base64_arg args)
          else if str_eqb name (s! "find") then negb (existsb (one_of UNSAFE_FIND_OPTIONS) command)
          else if str_eqb name (s! "rg") then negb (existsb unsafe_ripgrep_arg command)
          else if str_eqb name (s! "git") then is_safe_git_command command
          else if str_eqb name (s! "sed") then
            (length command <=? 4) && bool_decide (command !! 1 = Some (s! "-n"))
            && is_valid_sed_n_arg (command !! 2)
          else false
      end
  end.

Definition is_known_safe_command (command : list str) : bool :=
  let command := (fun s => if str_eqb s (s! "zsh") then s! "bash" else s) <$> command in
  if is_safe_to_call_with_exec command then true
  else match parse_shell_lc_plain_commands try_parse_shell command with
       | Some all_commands =>
           negb (is_empty all_commands) && forallb is_safe_to_call_with_exec all_commands
       | None => false
       end.

(** ** Dangerous commands *)

Inductive DangerousCommandMatch := ForcedRm | OtherDanger.

Definition MAX_DANGEROUS_COMMAND_WRAPPER_DEPTH : nat := 8.

Fixpoint take_while {A} (p : A -> bool) (l : list A) : list A :=
  match l with [] => [] | x :: l' => if p x then x :: take_while p l' else [] end.

Definition is_force_arg (arg : str) : bool :=
  str_eqb arg (s! "--force")
  || match strip_prefix (s! "-") arg with
     | Some flags => negb (starts_with (s! "-") flags) && contains_char (ch "f") flags
     | None => false
     end.

Definition rm_args_include_force_option (args : list str) : bool :=
  existsb is_force_arg (take_while (fun arg => negb (str_eqb arg (s! "--"))) args).

(** What [env] runs: its arguments after options and assignments. *)
Fixpoint env_command (args : list str) : list str :=
  match args with
  | [] => []
  | argument :: rest =>
      if str_eqb argument (s! "--") then rest
      else if one_of [s! "-i"; s! "--ignore-environment"] argument
              || match split_once (ch "=") argument with
                 | Some (name, _) => negb (is_empty name) && negb (starts_with (s! "-") name)
                 | None => false
                 end
      then env_command rest
      else args
  end.

(** The shell source that [trap] stores. *)
Definition trap_action (args : list str) : option str :=
  let action := match args with
                | a :: rest => if str_eqb a (s! "--") then head rest else Some a
                | [] => None
                end in
  match action with
  | Some a => if starts_with (s! "-") a then None else Some a
  | None => None
  end.

Fixpoint find_map {A B} (f : A -> option B) (l : list A) : option B :=
  match l with
  | [] => None
  | x :: l' => match f x with Some b => Some b | None => find_map f l' end
  end.

(** [dangerous_command_match_with_depth], with [dangerous_command_match_for_exec]
    in place.  The depth bounds the recursion; the fuel is one more. *)
Fixpoint dangerous_with_depth (fuel wrapper_depth : nat) (command : list str)
    : option DangerousCommandMatch :=
  match fuel with
  | O => None
  | S fuel =>
      if MAX_DANGEROUS_COMMAND_WRAPPER_DEPTH <? wrapper_depth then None
      else
        let deeper := dangerous_with_depth fuel (wrapper_depth + 1) in
        let for_exec :=
          match command with
          | [] => None
          | cmd0 :: args =>
              match executable_name_lookup_key cmd0 with
              | Some name =>
                  if str_eqb name (s! "rm") then
                    if rm_args_include_force_option args then Some ForcedRm else None
                  else if str_eqb name (s! "sudo") then deeper args
                  else if str_eqb name (s! "env") then deeper (env_command args)
                  else if str_eqb name (s! "trap") then
                    match trap_action args with
                    | Some action => deeper [s! "sh"; s! "-c"; action]
                    | None => None
                    end
                  else None
              | None => None
              end
          end in
        match for_exec with
        | Some m => Some m
        | None =>
            match parse_shell_lc_literal_commands try_parse_shell command with
            | Some commands => find_map deeper commands
            | None => None
            end
        end
  end.

Definition dangerous_command_match (command : list str) : option DangerousCommandMatch :=
  dangerous_with_depth (MAX_DANGEROUS_COMMAND_WRAPPER_DEPTH + 2) 0 command.

End Safety.

Example sed_example : is_safe_to_call_with_exec true [s! "sed"; s! "-n"; s! "1,5p"; s! "f"] = true.
Proof. reflexivity. Qed.

Example git_example :
  is_safe_to_call_with_exec true [s! "/usr/bin/git"; s! "-C"; s! "x"; s! "status"] = false.
Proof. reflexivity. Qed.
