(* ===== verification/CommandSafetyFacts.v ===== *)
(** * Correctness of the command classification

    What is auto-approved has the shape the safelist intends, is never a command
    the dangerous-command rules match, and the recursion of those rules reaches
    exactly its stated depth. *)

From S2P Require Import Prelude.
From S2P Require Import RustStr.
From S2P Require Import ExecRule.
From S2P Require Import ShellParse.
From S2P Require Import ShellParseFacts.
From S2P Require Import CommandSafety.

(** ** Paths and shells *)

Lemma split_on_elem_length c s x :
  x ∈ split_on c s -> length x <= length s /\ (length x = length s -> x = s).
Proof.
  revert x. induction s as [|y s IH]; intros x H; simpl in H.
  { apply list_elem_of_singleton in H as ->. done. }
  case_decide.
  - apply elem_of_cons in H as [->|H]; simpl; [lia|]. apply IH in H as [? _]. lia.
  - destruct (split_on c s) as [|h t] eqn:E.
    { by apply split_on_nonnil in E. }
    apply elem_of_cons in H as [->|H]; simpl.
    + destruct (IH h) as [H1 H2]; [by left|]. split; [lia|]. intros ?. f_equal. apply H2. lia.
    + destruct (IH x) as [H1 _]; [by right|]. lia.
Qed.

Lemma file_name_part p n :
  file_name p = Some n ->
  last (path_parts p) = Some n /\ n ∈ split_on slash p /\ n <> [] /\ n <> s! "." /\ slash ∉ n.
Proof.
  unfold file_name. destruct (last (path_parts p)) as [x|] eqn:E; [|done].
  destruct (str_eqb x _); [done|]. intros [= ->]. split; [done|].
  apply last_Some_elem_of in E. unfold path_parts in E. apply list_elem_of_filter in E as [[H1 H2] H3].
  split; [done|]. split; [done|]. split; [done|].
  pose proof (split_on_pieces slash p) as Hp. rewrite Forall_forall in Hp. by apply Hp.
Qed.

Lemma path_parts_single n : n <> [] -> n <> s! "." -> slash ∉ n -> path_parts n = [n].
Proof.
  intros H1 H2 H3. unfold path_parts. rewrite split_on_free by done.
  by rewrite filter_cons_True, filter_nil.
Qed.

Lemma path_is_self n : n <> [] -> n <> s! "." -> slash ∉ n -> path_is n n = true.
Proof.
  intros H1 H2 H3. unfold path_is. rewrite path_parts_single, bool_decide_true by done. simpl.
  assert (Hs : forall p, slash ∈ p -> starts_with p n = false).
  { intros p Hp. apply starts_with_false. intros r ->. apply H3. set_solver. }
  rewrite !Hs by (vm_compute; set_solver). simpl.
  by rewrite (proj2 (str_eqb_neq n _)).
Qed.

Lemma file_stem_length p n :
  file_stem p = Some n -> path_is n p = false -> length n < length p.
Proof.
  unfold file_stem. destruct (file_name p) as [name|] eqn:En; [|done].
  apply file_name_part in En as (_ & Hin & H1 & H2 & H3).
  apply split_on_elem_length in Hin as [Hle Heq].
  destruct (rsplit_once dot name) as [[before after]|] eqn:E.
  - apply rsplit_once_app in E. destruct (is_empty before); intros [= <-] Hp.
    + destruct (decide (length name = length p)) as [Hl|]; [|lia].
      rewrite <- (Heq Hl) in Hp. by rewrite path_is_self in Hp.
    + apply (f_equal length) in E. rewrite length_app in E. simpl in E. lia.
  - intros [= <-] Hp. destruct (decide (length name = length p)) as [Hl|]; [|lia].
    rewrite <- (Heq Hl) in Hp. by rewrite path_is_self in Hp.
Qed.

(** The length of the path is enough fuel. *)
Lemma detect_shell_fuel f1 : forall f2 p,
  length p <= f1 -> length p <= f2 -> detect_shell f1 p = detect_shell f2 p.
Proof.
  induction f1 as [|f1 IH]; intros f2 p H1 H2; simpl.
  - destruct p; [|simpl in H1; lia]. by destruct f2.
  - destruct f2 as [|f2]; simpl.
    { destruct p; [done|simpl in H2; lia]. }
    destruct (shell_of_name p); [done|]. destruct (file_stem p) as [n|] eqn:E; [|done].
    destruct (path_is n p) eqn:Ep; [done|]. apply file_stem_length in E; [|done]. apply IH; lia.
Qed.

(** A program name: no dots, not a shell. *)
Definition plain_name (n : str) : bool :=
  negb (contains_char dot n) && negb (contains_char slash n) && negb (is_empty n)
  && match shell_of_name n with None => true | Some _ => false end.

Lemma plain_name_true n :
  plain_name n = true -> (dot ∉ n) /\ (slash ∉ n) /\ n <> [] /\ shell_of_name n = None.
Proof.
  unfold plain_name. intros H. apply andb_true_iff in H as [H H4].
  apply andb_true_iff in H as [H H3]. apply andb_true_iff in H as [H1 H2].
  rewrite negb_true_iff in H1, H2, H3. rewrite contains_char_false in H1, H2.
  apply is_empty_false in H3. by destruct (shell_of_name n).
Qed.

Lemma file_name_self n : dot ∉ n -> slash ∉ n -> n <> [] -> file_name n = Some n.
Proof.
  intros H1 H2 H3. unfold file_name. rewrite path_parts_single; [|done| |done].
  - simpl. destruct (str_eqb n _) eqn:E; [|done]. apply str_eqb_eq in E as ->.
    exfalso. apply H1. vm_compute. set_solver.
  - intros ->. apply H1. vm_compute. set_solver.
Qed.

Lemma detect_plain_name p n :
  file_name p = Some n -> plain_name n = true -> detect_shell_type p = None.
Proof.
  intros Hn Hp. apply plain_name_true in Hp as (Hdot & Hslash & Hne & Hsh).
  assert (Hstem : forall q, file_name q = Some n -> file_stem q = Some n).
  { intros q Hq. unfold file_stem. by rewrite Hq, rsplit_once_free. }
  assert (Hself : file_name n = Some n) by (by apply file_name_self).
  assert (Hno : detect_shell (length n) n = None).
  { destruct (length n) eqn:El; [by destruct n|]. simpl.
    rewrite Hsh, (Hstem n Hself), path_is_self; try done.
    intros ->. apply Hdot. vm_compute. set_solver. }
  assert (Hsp : shell_of_name p = None).
  { unfold shell_of_name in *.
    repeat match goal with |- context [str_eqb p ?x] =>
      destruct (str_eqb p x) eqn:?; [exfalso|] end; try done;
    match goal with H : str_eqb p _ = true |- _ => apply str_eqb_eq in H as -> end;
    vm_compute in Hn; injection Hn as <-; vm_compute in Hsh; done. }
  unfold detect_shell_type. destruct (length p) eqn:El.
  { by destruct p. }
  simpl. rewrite Hsp, (Hstem p Hn). destruct (path_is n p) eqn:Ep; [done|].
  pose proof (file_stem_length p n (Hstem p Hn) Ep).
  rewrite (detect_shell_fuel _ (length n)) by lia. done.
Qed.

(** ** Git *)

(** Every global option that takes a value is on the list of unsafe ones. *)
Lemma value_options_unsafe arg :
  is_git_global_option_with_value arg = true \/ is_git_global_option_with_inline_value arg = true ->
  git_matches_option_pattern arg UNSAFE_GIT_GLOBAL_OPTIONS = true.
Proof.
  unfold git_matches_option_pattern. rewrite existsb_exists. intros [H|H].
  - unfold is_git_global_option_with_value in H. apply one_of_true in H.
    exists (Exact arg). split; [|by apply str_eqb_eq].
    repeat (apply elem_of_cons in H as [->|H]; [vm_compute; tauto|]).
    by apply not_elem_of_nil in H.
  - unfold is_git_global_option_with_inline_value in H. apply orb_true_iff in H as [H|H].
    + apply existsb_exists in H as (x & Hx & Hs). exists (Prefix x). split; [|done].
      apply list_elem_of_In in Hx.
      repeat (apply elem_of_cons in Hx as [->|Hx]; [vm_compute; tauto|]).
      by apply not_elem_of_nil in Hx.
    + apply andb_true_iff in H as [H Hl]. apply orb_true_iff in H as [H|H].
      * exists (ShortWithInlineValue (s! "-C")). split; [vm_compute; tauto|].
        cbn [git_option_matches]. rewrite H. exact Hl.
      * exists (ShortWithInlineValue (s! "-c")). split; [vm_compute; tauto|].
        cbn [git_option_matches]. rewrite H. exact Hl.
Qed.

#[local] Arguments git_matches_option_pattern : simpl never.
#[local] Arguments is_git_global_option_with_value : simpl never.
#[local] Arguments is_git_global_option_with_inline_value : simpl never.
#[local] Arguments one_of : simpl never.
#[local] Arguments str_eqb : simpl never.
#[local] Arguments starts_with : simpl never.

Definition safe_global_option (arg : str) : Prop :=
  starts_with (s! "-") arg = true /\
  git_matches_option_pattern arg UNSAFE_GIT_GLOBAL_OPTIONS = false.

Lemma find_subcommand_spec subs skip idx args i sub :
  find_subcommand_from subs skip idx args = Some (i, sub) ->
  exists pre post, args = pre ++ sub :: post /\ i = idx + length pre /\ sub ∈ subs /\
    (skip = false -> git_has_unsafe_global_option pre = false -> Forall safe_global_option pre).
Proof.
  revert skip idx. induction args as [|arg args IH]; intros skip idx H; cbn [find_subcommand_from] in H; [done|].
  assert (Hunsafe : forall pre, git_matches_option_pattern arg UNSAFE_GIT_GLOBAL_OPTIONS = true ->
    git_has_unsafe_global_option (arg :: pre) = true).
  { intros pre Hu. unfold git_has_unsafe_global_option. simpl. by rewrite Hu. }
  assert (Hstep : forall skip', find_subcommand_from subs skip' (S idx) args = Some (i, sub) ->
    (skip = false -> git_matches_option_pattern arg UNSAFE_GIT_GLOBAL_OPTIONS = true \/
       skip' = false /\ starts_with (s! "-") arg = true) ->
    exists pre post, arg :: args = pre ++ sub :: post /\ i = idx + length pre /\ sub ∈ subs /\
      (skip = false -> git_has_unsafe_global_option pre = false -> Forall safe_global_option pre)).
  { intros skip' H' Harg. apply IH in H' as (pre & post & -> & -> & Hsub & Hsafe).
    exists (arg :: pre), post. split; [done|]. split; [simpl; lia|]. split; [done|]. intros Hs Hno.
    destruct (Harg Hs) as [Hu|[-> Hdash]]; [by rewrite Hunsafe in Hno|].
    unfold git_has_unsafe_global_option in Hno. cbn [existsb] in Hno.
    apply orb_false_iff in Hno as [Hno1 Hno2]. constructor; [done|]. by apply Hsafe. }
  destruct skip; [by apply (Hstep false)|].
  destruct (is_git_global_option_with_inline_value arg) eqn:E1.
  { apply (Hstep false); [done|]. intros _. left. apply value_options_unsafe. auto. }
  destruct (is_git_global_option_with_value arg) eqn:E2.
  { apply (Hstep true); [done|]. intros _. left. apply value_options_unsafe. auto. }
  destruct (str_eqb arg (s! "--") || starts_with (s! "-") arg) eqn:E3.
  { apply (Hstep false); [done|]. intros _. right. split; [done|].
    apply orb_true_iff in E3 as [->%str_eqb_eq|E3]; done. }
  destruct (one_of subs arg) eqn:E4; [|done]. injection H as <- <-.
  exists [], args. split; [done|]. split; [simpl; lia|]. split; [by apply one_of_true|]. constructor.
Qed.

Lemma branch_flags_loop_true saw args :
  branch_flags_loop saw args = true -> Forall (fun a => is_branch_query_flag a = true) args.
Proof.
  revert saw. induction args as [|a args IH]; intros saw H; [constructor|]. simpl in H.
  destruct (is_branch_query_flag a) eqn:E; [|done]. constructor; [done|]. by eapply IH.
Qed.

Lemma safe_git_shape command :
  is_safe_git_command command = true ->
  exists cmd0 opts sub args, command = cmd0 :: opts ++ sub :: args /\
    file_name cmd0 = Some (s! "git") /\ sub ∈ SAFE_GIT_SUBCOMMANDS /\
    Forall safe_global_option opts /\
    Forall (fun a => git_matches_option_pattern a UNSAFE_GIT_SUBCOMMAND_OPTIONS = false) args /\
    (sub = s! "branch" -> Forall (fun a => is_branch_query_flag a = true) args).
Proof.
  unfold is_safe_git_command, find_git_subcommand, executable_name_lookup_key.
  destruct command as [|cmd0 rest]; [done|].
  destruct (file_name cmd0) as [name|] eqn:En; [|done].
  destruct (str_eqb name (s! "git")) eqn:Eg; [|done]. apply str_eqb_eq in Eg as ->.
  destruct (find_subcommand_from _ false 1 rest) as [[i sub]|] eqn:Ef; [|done].
  apply find_subcommand_spec in Ef as (opts & args & -> & -> & Hsub & Hsafe).
  replace (1 + length opts - 1) with (length opts) by lia. cbn [drop]. rewrite drop_0, take_app_length.
  destruct (git_has_unsafe_global_option opts) eqn:Eu; [done|].
  change (drop (S (1 + length opts)) (cmd0 :: opts ++ sub :: args))
    with (drop (S (length opts)) (opts ++ sub :: args)).
  rewrite cons_middle, app_assoc, drop_app_length' by (rewrite length_app; simpl; lia).
  rewrite <- app_assoc. intros H. exists cmd0, opts, sub, args.
  assert (Hro : git_subcommand_args_are_read_only args = true ->
    Forall (fun a => git_matches_option_pattern a UNSAFE_GIT_SUBCOMMAND_OPTIONS = false) args).
  { unfold git_subcommand_args_are_read_only. rewrite negb_true_iff. intros Hex.
    apply Forall_forall. intros a Ha. apply not_true_iff_false. intros Hm.
    apply not_true_iff_false in Hex. apply Hex, existsb_exists. exists a.
    by rewrite <- list_elem_of_In. }
  split; [done|]. split; [done|]. split; [done|]. split; [by apply Hsafe|].
  destruct (one_of [_; _; _; _] sub) eqn:Eo.
  - split; [by apply Hro|]. intros ->. by vm_compute in Eo.
  - destruct (str_eqb sub (s! "branch")) eqn:Eb; [|done]. apply andb_true_iff in H as [H1 H2].
    split; [by apply Hro|]. intros _. unfold git_branch_is_read_only in H2.
    destruct (is_empty args) eqn:Ea; [by apply is_empty_true in Ea as ->|].
    by eapply branch_flags_loop_true.
Qed.

(** ** Line ranges of sed *)

Lemma is_number_free c s : is_ascii_digit c = false -> is_number s = true -> c ∉ s.
Proof.
  intros Hc H Hin. unfold is_number in H. apply andb_true_iff in H as [_ H].
  rewrite forallb_forall in H. rewrite (H c) in Hc; [done|]. by apply list_elem_of_In.
Qed.

Lemma sed_arg_shape s :
  is_valid_sed_n_arg (Some s) = true <->
  (exists b, s = b ++ s! "p" /\ is_number b = true) \/
  (exists a b, s = a ++ s! "," ++ b ++ s! "p" /\ is_number a = true /\ is_number b = true).
Proof.
  unfold is_valid_sed_n_arg. split.
  - destruct (strip_suffix (s! "p") s) as [core|] eqn:E; [|done]. apply strip_suffix_Some in E as ->.
    destruct (split_on (ch ",") core) as [|x [|y [|]]] eqn:Es; try done; intros H.
    + left. exists x. split; [|done]. f_equal. rewrite <- (join_split_on (ch ",") core), Es. done.
    + right. exists x, y. apply andb_true_iff in H as [H1 H2]. split; [|done].
      rewrite <- (join_split_on (ch ",") core), Es. simpl. by rewrite <- !app_assoc.
  - assert (Hp : forall core, strip_suffix (s! "p") (core ++ s! "p") = Some core)
      by (intros; by apply strip_suffix_Some).
    intros [(b & -> & Hb)|(a & b & -> & Ha & Hb)].
    + rewrite Hp, split_on_free by (by eapply is_number_free). done.
    + rewrite !app_assoc, Hp, <- app_assoc.
      change (a ++ s! "," ++ b) with (a ++ ch "," :: b).
      rewrite split_on_app, split_on_free by (by eapply is_number_free). by rewrite Ha, Hb.
Qed.

(** ** Safe commands are not dangerous *)

(** The programs the safelist knows. *)
Definition KNOWN_PROGRAMS : list str :=
  [s! "numfmt"; s! "tac"] ++ SAFE_PROGRAMS
  ++ [s! "base64"; s! "find"; s! "rg"; s! "git"; s! "sed"].

Definition WRAPPERS : list str := [s! "rm"; s! "sudo"; s! "env"; s! "trap"].

Section Safety.
Context (linux : bool).
Context (try_parse_shell : str -> option Node).
Abbreviation safe_exec := (is_safe_to_call_with_exec linux).
Abbreviation dangerous := (dangerous_with_depth try_parse_shell).

Lemma safe_exec_program command :
  safe_exec command = true ->
  exists cmd0 args n, command = cmd0 :: args /\ file_name cmd0 = Some n /\ n ∈ KNOWN_PROGRAMS.
Proof.
  unfold is_safe_to_call_with_exec, executable_name_lookup_key.
  destruct command as [|cmd0 args]; [done|]. destruct (file_name cmd0) as [n|] eqn:En; [|done].
  intros H. exists cmd0, args, n. split; [done|]. split; [done|]. unfold KNOWN_PROGRAMS.
  rewrite !elem_of_app.
  destruct (linux && one_of [s! "numfmt"; s! "tac"] n) eqn:E1.
  { apply andb_true_iff in E1 as [_ E1]. apply one_of_true in E1. by left. }
  destruct (one_of SAFE_PROGRAMS n) eqn:E2; [apply one_of_true in E2; by right; left|].
  right; right. rewrite !elem_of_cons.
  destruct (str_eqb n (s! "base64")) eqn:E3; [apply str_eqb_eq in E3; tauto|].
  destruct (str_eqb n (s! "find")) eqn:E4; [apply str_eqb_eq in E4; tauto|].
  destruct (str_eqb n (s! "rg")) eqn:E5; [apply str_eqb_eq in E5; tauto|].
  destruct (str_eqb n (s! "git")) eqn:E6; [apply str_eqb_eq in E6; tauto|].
  destruct (str_eqb n (s! "sed")) eqn:E7; [apply str_eqb_eq in E7; tauto|done].
Qed.

Lemma known_plain n : n ∈ KNOWN_PROGRAMS -> plain_name n = true /\ one_of WRAPPERS n = false.
Proof.
  assert (H : forallb (fun n => plain_name n && negb (one_of WRAPPERS n)) KNOWN_PROGRAMS = true)
    by (vm_compute; reflexivity).
  rewrite forallb_forall in H. intros Hn%list_elem_of_In. specialize (H n Hn).
  apply andb_true_iff in H as [H1 H2]. by rewrite negb_true_iff in H2.
Qed.

Lemma wrapper_plain n : one_of WRAPPERS n = true -> plain_name n = true.
Proof.
  intros Hn%one_of_true%list_elem_of_In.
  assert (H : forallb plain_name WRAPPERS = true) by (vm_compute; reflexivity).
  rewrite forallb_forall in H. by apply H.
Qed.

Lemma extract_plain cmd0 args n :
  file_name cmd0 = Some n -> plain_name n = true -> extract_bash_command (cmd0 :: args) = None.
Proof.
  intros Hn Hp. unfold extract_bash_command. destruct args as [|flag [|script [|]]]; try done.
  rewrite (detect_plain_name cmd0 n) by done. by destruct (negb _).
Qed.

(** One step of the rules on a program they do not look into. *)
Lemma dangerous_step fuel depth command :
  (forall cmd0 args n, command = cmd0 :: args -> file_name cmd0 = Some n -> one_of WRAPPERS n = false) ->
  dangerous (S fuel) depth command =
  if MAX_DANGEROUS_COMMAND_WRAPPER_DEPTH <? depth then None
  else match parse_shell_lc_literal_commands try_parse_shell command with
       | Some commands => find_map (dangerous fuel (depth + 1)) commands
       | None => None
       end.
Proof.
  intros Hw. cbn [dangerous_with_depth]. destruct (_ <? depth); [done|].
  unfold executable_name_lookup_key. destruct command as [|cmd0 args]; [done|].
  destruct (file_name cmd0) as [n|] eqn:En; [|done]. specialize (Hw _ _ _ eq_refl En).
  unfold one_of, WRAPPERS in Hw. cbn [existsb] in Hw.
  repeat (apply orb_false_iff in Hw as [? Hw]).
  repeat match goal with H : str_eqb n _ = false |- _ => rewrite H; clear H end. done.
Qed.

Lemma safe_exec_not_dangerous fuel depth command :
  safe_exec command = true -> dangerous fuel depth command = None.
Proof.
  intros (cmd0 & args & n & -> & Hn & Hin)%safe_exec_program.
  apply known_plain in Hin as [Hp Hw]. destruct fuel as [|fuel]; [done|].
  rewrite dangerous_step by (intros ? ? ? [= <- <-] ?; congruence).
  unfold parse_shell_lc_literal_commands. rewrite (extract_plain cmd0 args n) by done.
  by destruct (_ <? depth).
Qed.

Lemma find_map_none {A B} (f : A -> option B) l :
  (forall x, x ∈ l -> f x = None) -> find_map f l = None.
Proof.
  induction l as [|x l IH]; intros H; [done|]. simpl. rewrite H by (by left).
  apply IH. intros y Hy. apply H. by right.
Qed.

Definition zsh_to_bash (s : str) : str := if str_eqb s (s! "zsh") then s! "bash" else s.

Lemma extract_zsh_to_bash command shell script :
  extract_bash_command (zsh_to_bash <$> command) = Some (shell, script) ->
  exists shell0 flag script0, command = [shell0; flag; script0] /\ script = zsh_to_bash script0 /\
    extract_bash_command command = Some (shell0, script0).
Proof.
  destruct command as [|shell0 [|flag [|script0 [|]]]]; try done. cbn [fmap list_fmap].
  unfold extract_bash_command. intros H. exists shell0, flag, script0. split; [done|].
  destruct (str_eqb (zsh_to_bash flag) (s! "-lc") || str_eqb (zsh_to_bash flag) (s! "-c")) eqn:Ef;
    [|done]. cbn [negb] in H.
  assert (Hflag : str_eqb flag (s! "-lc") || str_eqb flag (s! "-c") = true).
  { unfold zsh_to_bash in Ef. by destruct (str_eqb flag (s! "zsh")). }
  rewrite Hflag. cbn [negb].
  assert (Hshell : detect_shell_type (zsh_to_bash shell0) = detect_shell_type shell0 \/
    shell0 = s! "zsh").
  { unfold zsh_to_bash. destruct (str_eqb shell0 (s! "zsh")) eqn:E; [|by left].
    right. by apply str_eqb_eq. }
  destruct Hshell as [Hs| ->].
  - rewrite Hs in H. destruct (detect_shell_type shell0) as [[]|]; try done;
      injection H as _ <-; done.
  - change (detect_shell_type (zsh_to_bash (s! "zsh"))) with (Some Bash) in H.
    injection H as _ <-. done.
Qed.

(** A command that runs a script is not a wrapper. *)
Lemma extract_not_wrapper command r :
  extract_bash_command command = Some r ->
  forall cmd0 args n, command = cmd0 :: args -> file_name cmd0 = Some n -> one_of WRAPPERS n = false.
Proof.
  intros H cmd0 args n -> Hn. apply not_true_iff_false. intros Hw%wrapper_plain.
  by rewrite (extract_plain cmd0 args n) in H.
Qed.

(** ** Properties *)

(** A git command that is auto-approved is a git program, options that
    start with a dash and are none of the unsafe global ones (so none that takes
    the next word as its value), one of the read-only subcommands, and arguments
    that are none of the unsafe ones; for [branch], only query flags. *)
Theorem safe_git_commands command :
  is_safe_git_command command = true ->
  exists cmd0 opts sub args, command = cmd0 :: opts ++ sub :: args /\
    file_name cmd0 = Some (s! "git") /\ sub ∈ SAFE_GIT_SUBCOMMANDS /\
    Forall safe_global_option opts /\
    Forall (fun a => git_matches_option_pattern a UNSAFE_GIT_SUBCOMMAND_OPTIONS = false) args /\
    (sub = s! "branch" -> Forall (fun a => is_branch_query_flag a = true) args).
Proof. apply safe_git_shape. Qed.

(** No command is both known to be safe and matched as dangerous, when the
    parser gives trees of the bash grammar and takes a script of the one word
    [bash] for that one command. *)
Theorem safe_not_dangerous command :
  (forall script root, try_parse_shell script = Some root -> bash_tree root) ->
  parse_shell_script_into_commands try_parse_shell (s! "bash") = Some [[s! "bash"]] ->
  is_known_safe_command linux try_parse_shell command = true ->
  dangerous_command_match try_parse_shell command = None.
Proof.
  intros Hparse Hword H. unfold is_known_safe_command in H. fold zsh_to_bash in H.
  unfold dangerous_command_match. rewrite Nat.add_comm. cbn [Nat.add].
  destruct (safe_exec (zsh_to_bash <$> command)) eqn:Es.
  - destruct (safe_exec_program _ Es) as (c0 & args & n & Heq & Hn & Hin).
    apply known_plain in Hin as [Hp Hw].
    destruct command as [|cmd0 rest]; [done|]. cbn [fmap list_fmap] in Heq.
    injection Heq as <- <-. assert (Hc : zsh_to_bash cmd0 = cmd0).
    { unfold zsh_to_bash in *. destruct (str_eqb cmd0 (s! "zsh")) eqn:E; [|done]. exfalso.
      vm_compute in Hn. injection Hn as <-. by vm_compute in Hp. }
    rewrite Hc in Hn.
    rewrite dangerous_step by (intros ? ? ? [= <- <-] ?; congruence).
    unfold parse_shell_lc_literal_commands. by rewrite (extract_plain cmd0 rest n).
  - unfold parse_shell_lc_plain_commands in H.
    destruct (extract_bash_command (zsh_to_bash <$> command)) as [[shell script]|] eqn:Ex; [|done].
    destruct (extract_zsh_to_bash _ _ _ Ex) as (shell0 & flag & script0 & -> & -> & Ex0).
    destruct (parse_shell_script_into_commands try_parse_shell (zsh_to_bash script0)) as [cs|] eqn:Ep; [|done].
    apply andb_true_iff in H as [_ Hall]. rewrite forallb_forall in Hall.
    assert (Hsc : zsh_to_bash script0 = script0).
    { unfold zsh_to_bash in *. destruct (str_eqb script0 (s! "zsh")) eqn:E; [|done]. exfalso.
      rewrite Hword in Ep. injection Ep as <-. specialize (Hall [s! "bash"] (or_introl eq_refl)).
      by vm_compute in Hall; destruct linux. }
    rewrite Hsc in Ep. rewrite dangerous_step by (by eapply extract_not_wrapper).
    unfold parse_shell_lc_literal_commands. rewrite Ex0. cbn [Nat.ltb Nat.leb].
    destruct (literal_commands try_parse_shell script0) as [ls|] eqn:El; [|done].
    rewrite find_map_none; [done|]. intros c Hc. apply safe_exec_not_dangerous.
    apply Hall, list_elem_of_In. by eapply literal_among_plain; [apply Hparse|..].
Qed.

Lemma sudo_chain depth n args fuel :
  rm_args_include_force_option args = true -> depth <= 9 -> fuel = 10 - depth ->
  dangerous fuel depth (replicate n (s! "sudo") ++ s! "rm" :: args) =
  if depth + n <=? 8 then Some ForcedRm else None.
Proof.
  intros Hf. revert depth fuel. induction n as [|n IH]; intros depth fuel Hd ->.
  - destruct (10 - depth) as [|fuel] eqn:E; [lia|]. cbn [replicate app dangerous_with_depth].
    change (executable_name_lookup_key (s! "rm")) with (Some (s! "rm")). cbv iota.
    change (str_eqb (s! "rm") (s! "rm")) with true. cbv iota. rewrite Hf, Nat.add_0_r.
    change MAX_DANGEROUS_COMMAND_WRAPPER_DEPTH with 8.
    destruct (Nat.ltb_spec 8 depth), (Nat.leb_spec depth 8); (done || lia).
  - destruct (10 - depth) as [|fuel] eqn:E; [lia|]. cbn [replicate app dangerous_with_depth].
    change (executable_name_lookup_key (s! "sudo")) with (Some (s! "sudo")). cbv iota.
    change (str_eqb (s! "sudo") (s! "rm")) with false.
    change (str_eqb (s! "sudo") (s! "sudo")) with true. cbv iota.
    change MAX_DANGEROUS_COMMAND_WRAPPER_DEPTH with 8.
    destruct (Nat.ltb_spec 8 depth) as [Hlt|Hge].
    { destruct (Nat.leb_spec (depth + S n) 8); [lia|done]. }
    rewrite IH by lia. unfold parse_shell_lc_literal_commands.
    rewrite (extract_plain (s! "sudo") _ (s! "sudo")) by reflexivity.
    replace (depth + 1 + n) with (depth + S n) by lia. by destruct (depth + S n <=? 8).
Qed.

(** A forced [rm] is found behind up to eight [sudo] wrappers and no more,
    whatever the shell parser does. *)
Theorem forced_rm_depth n args :
  rm_args_include_force_option args = true ->
  dangerous_command_match try_parse_shell (replicate n (s! "sudo") ++ s! "rm" :: args) =
  if n <=? 8 then Some ForcedRm else None.
Proof. intros Hf. apply (sudo_chain 0); [done|lia|done]. Qed.

End Safety.

(** ** The properties on concrete commands *)

Lemma safe_git_commands_witness :
  is_safe_git_command [s! "git"; s! "--no-pager"; s! "branch"; s! "--list"] = true /\
  exists cmd0 opts sub args,
    [s! "git"; s! "--no-pager"; s! "branch"; s! "--list"] = cmd0 :: opts ++ sub :: args /\
    file_name cmd0 = Some (s! "git") /\ sub ∈ SAFE_GIT_SUBCOMMANDS /\
    Forall safe_global_option opts /\
    Forall (fun a => git_matches_option_pattern a UNSAFE_GIT_SUBCOMMAND_OPTIONS = false) args /\
    (sub = s! "branch" -> Forall (fun a => is_branch_query_flag a = true) args).
Proof. split; [reflexivity|]. apply safe_git_commands. reflexivity. Defined.

(** A parser for scripts that are one command of words without quotes. *)
Definition words_tree (name : str) (args : list str) : Node :=
  mkNode (s! "program") true false 0 None
    [word_command name ((fun a => leaf (s! "word") a 0) <$> args) 0].

Definition parse_words (script : str) : option Node :=
  if forallb (fun c => in_range 97 122 c || (c =? 32)%N || (c =? 45)%N) script then
    match split_on 32 script with
    | name :: args => Some (words_tree name args)
    | [] => None
    end
  else None.

Lemma flat_map_leaves (args : list str) :
  flat_map (nodes_by (fun _ => true)) ((fun a => leaf (s! "word") a 0) <$> args) = (fun a => leaf (s! "word") a 0) <$> args.
Proof. induction args as [|a args IH]; [done|]. cbn [fmap list_fmap flat_map]. by rewrite IH. Qed.

Lemma words_tree_nodes name args n :
  n ∈ nodes (words_tree name args) ->
  node_kind n = s! "program" \/ node_kind n = s! "command_name" \/
  n = word_command name ((fun a => leaf (s! "word") a 0) <$> args) 0 \/
  exists w, n = leaf (s! "word") w 0.
Proof.
  unfold nodes. rewrite nodes_by_unfold, kept_all. cbn [node_children words_tree flat_map].
  rewrite nodes_by_unfold, kept_all. cbn [node_children word_command flat_map].
  rewrite (flat_map_leaves args), !app_nil_r. cbn [nodes_by flat_map app leaf].
  rewrite !elem_of_cons, list_elem_of_fmap. intros [->|[->|[->|[->|(w & -> & _)]]]].
  - by left.
  - by right; right; left.
  - by right; left.
  - right; right; right. by exists name.
  - right; right; right. by exists w.
Qed.

Lemma words_tree_bash name args : bash_tree (words_tree name args).
Proof.
  split.
  - intros n Hn Hk. apply words_tree_nodes in Hn as [Hn|[Hn|[->|[w ->]]]]; try done;
      rewrite Hn in Hk; done.
  - intros n Hn Hk. apply words_tree_nodes in Hn as [Hn|[Hn|[->|[w ->]]]]; try done;
      rewrite Hn in Hk; done.
  - intros n pre c post Hn Hk Hsplit Hc.
    apply words_tree_nodes in Hn as [Hn|[Hn|[->|[w ->]]]]; try (rewrite Hn in Hk; done); [|done].
    destruct pre as [|p pre]; [constructor|exfalso].
    unfold named_children, word_command in Hsplit. cbn [node_children] in Hsplit.
    rewrite filter_cons_True in Hsplit by done.
    apply (f_equal (@tail Node)) in Hsplit. cbn [tail app] in Hsplit.
    assert (Hin : c ∈ filter (fun x => is_named x = true) ((fun a => leaf (s! "word") a 0) <$> args)).
    { rewrite Hsplit. set_solver. }
    apply list_elem_of_filter in Hin as [_ Hin]. apply list_elem_of_fmap in Hin as (a & -> & _).
    by vm_compute in Hc.
Qed.

Lemma parse_words_bash script root : parse_words script = Some root -> bash_tree root.
Proof.
  unfold parse_words. case_match; [|done]. case_match; [done|]. intros [= <-]. apply words_tree_bash.
Qed.

Lemma safe_not_dangerous_witness :
  (forall script root, parse_words script = Some root -> bash_tree root) /\
  is_known_safe_command true parse_words [s! "bash"; s! "-lc"; s! "ls -l"] = true /\
  dangerous_command_match parse_words [s! "bash"; s! "-lc"; s! "ls -l"] = None.
Proof.
  split; [exact parse_words_bash|]. split; [reflexivity|].
  apply (safe_not_dangerous true parse_words); [exact parse_words_bash|reflexivity..].
Defined.

Lemma forced_rm_depth_witness :
  rm_args_include_force_option [s! "-rf"; s! "/"] = true /\
  dangerous_command_match parse_words
    (replicate 3 (s! "sudo") ++ s! "rm" :: [s! "-rf"; s! "/"]) = Some ForcedRm.
Proof. split; [reflexivity|]. apply (forced_rm_depth parse_words 3). reflexivity. Defined.
