(* ===== verification/PasteBurst.v ===== *)
(** * Paste bursts: [tui/src/bottom_pane/paste_burst.rs]

    Terminals without bracketed paste deliver a paste as fast key presses.  The
    detector holds the first fast character, buffers a burst and flushes it when
    the keys stop.  Instants are milliseconds; [duration_since] saturates at
    zero, and the idle timeout is the one of a build for another system than
    Windows.  [Composer] is the part of [ChatComposer] that drives the detector
    for plain characters: the text before the cursor (the cursor being at its
    end), the bash mode, the detector and the pending large pastes, with burst
    detection enabled; whether a pasted string is the path of a readable image
    is a parameter.  Popups are not modelled. *)

From S2P Require Import Prelude RustStr.

(** ** The detector *)

Abbreviation Instant := nat.
Definition duration_since (now earlier : Instant) : nat := now - earlier.

Definition PASTE_BURST_MIN_CHARS : nat := 3.
Definition PASTE_ENTER_SUPPRESS_WINDOW : nat := 120.
Definition PASTE_BURST_CHAR_INTERVAL : nat := 8.
Definition PASTE_BURST_ACTIVE_IDLE_TIMEOUT : nat := 8.

Record PasteBurst := mkBurst {
  last_plain_char_time : option Instant;
  consecutive_plain_char_burst : nat;
  burst_window_until : option Instant;
  buffer : str;
  active : bool;
  pending_first_char : option (char * Instant);
}.

Definition default_burst : PasteBurst := mkBurst None 0 None [] false None.

Inductive CharDecision :=
| BeginBuffer (retro_chars : nat)
| BufferAppend
| RetainFirstChar
| BeginBufferFromPending.

Record RetroGrab := mkGrab { start_char : nat; grabbed : str }.

Inductive FlushResult := Paste (s : str) | Typed (c : char) | NoFlush.

Definition recommended_flush_delay : nat := PASTE_BURST_CHAR_INTERVAL + 1.

(** [u16::saturating_add(1)]. *)
Definition sat_succ_u16 (n : nat) : nat := Nat.min (N.to_nat 65535) (S n).

Definition note_plain_char (b : PasteBurst) (now : Instant) : PasteBurst :=
  let count :=
    match last_plain_char_time b with
    | Some prev =>
        if duration_since now prev <=? PASTE_BURST_CHAR_INTERVAL
        then sat_succ_u16 (consecutive_plain_char_burst b) else 1
    | None => 1
    end in
  mkBurst (Some now) count (burst_window_until b) (buffer b) (active b) (pending_first_char b).

Definition extend_window (b : PasteBurst) (now : Instant) : PasteBurst :=
  mkBurst (last_plain_char_time b) (consecutive_plain_char_burst b)
    (Some (now + PASTE_ENTER_SUPPRESS_WINDOW)) (buffer b) (active b) (pending_first_char b).

Definition push_buffer (b : PasteBurst) (s : str) : PasteBurst :=
  mkBurst (last_plain_char_time b) (consecutive_plain_char_burst b) (burst_window_until b)
    (buffer b ++ s) (active b) (pending_first_char b).

Definition set_active (b : PasteBurst) (a : bool) : PasteBurst :=
  mkBurst (last_plain_char_time b) (consecutive_plain_char_burst b) (burst_window_until b)
    (buffer b) a (pending_first_char b).

Definition set_pending (b : PasteBurst) (p : option (char * Instant)) : PasteBurst :=
  mkBurst (last_plain_char_time b) (consecutive_plain_char_burst b) (burst_window_until b)
    (buffer b) (active b) p.

(** [mem::take(&mut self.buffer)] with [active = false]. *)
Definition take_buffer (b : PasteBurst) : PasteBurst :=
  mkBurst (last_plain_char_time b) (consecutive_plain_char_burst b) (burst_window_until b)
    [] false (pending_first_char b).

Definition is_active_internal (b : PasteBurst) : bool := active b || negb (is_empty (buffer b)).

Definition is_active (b : PasteBurst) : bool :=
  is_active_internal b || match pending_first_char b with Some _ => true | None => false end.

Definition on_plain_char (b : PasteBurst) (c : char) (now : Instant)
    : PasteBurst * CharDecision :=
  let b := note_plain_char b now in
  if active b then (extend_window b now, BufferAppend)
  else
    let rest b :=
      if PASTE_BURST_MIN_CHARS <=? consecutive_plain_char_burst b
      then (b, BeginBuffer (consecutive_plain_char_burst b - 1))
      else (set_pending b (Some (c, now)), RetainFirstChar) in
    match pending_first_char b with
    | Some (held, held_at) =>
        if duration_since now held_at <=? PASTE_BURST_CHAR_INTERVAL
        then (extend_window (push_buffer (set_pending (set_active b true) None) [held]) now,
              BeginBufferFromPending)
        else rest b
    | None => rest b
    end.

Definition on_plain_char_no_hold (b : PasteBurst) (now : Instant)
    : PasteBurst * option CharDecision :=
  let b := note_plain_char b now in
  if active b then (extend_window b now, Some BufferAppend)
  else if PASTE_BURST_MIN_CHARS <=? consecutive_plain_char_burst b
  then (b, Some (BeginBuffer (consecutive_plain_char_burst b - 1)))
  else (b, None).

Definition flush_if_due (b : PasteBurst) (now : Instant) : PasteBurst * FlushResult :=
  let timeout := if is_active_internal b then PASTE_BURST_ACTIVE_IDLE_TIMEOUT
                 else PASTE_BURST_CHAR_INTERVAL in
  let timed_out := match last_plain_char_time b with
                   | Some t => timeout <? duration_since now t
                   | None => false
                   end in
  if timed_out && is_active_internal b then (take_buffer b, Paste (buffer b))
  else if timed_out then
    match pending_first_char b with
    | Some (c, _) => (set_pending b None, Typed c)
    | None => (b, NoFlush)
    end
  else (b, NoFlush).

Definition append_newline_if_active (b : PasteBurst) (now : Instant) : PasteBurst * bool :=
  if is_active b then (extend_window (push_buffer b [nl]) now, true) else (b, false).

Definition newline_should_insert_instead_of_submit (b : PasteBurst) (now : Instant) : bool :=
  let in_burst_window :=
    match burst_window_until b with Some until => now <=? until | None => false end in
  is_active b || in_burst_window.

Definition direct_insert_newline_should_insert (b : PasteBurst) (now : Instant) : bool :=
  newline_should_insert_instead_of_submit b now
  || match last_plain_char_time b with
     | Some t => duration_since now t <=? PASTE_BURST_CHAR_INTERVAL
     | None => false
     end.

Definition begin_with_retro_grabbed (b : PasteBurst) (grabbed : str) (now : Instant) : PasteBurst :=
  extend_window (set_active (if is_empty grabbed then b else push_buffer b grabbed) true) now.

Definition append_char_to_buffer (b : PasteBurst) (c : char) (now : Instant) : PasteBurst :=
  extend_window (push_buffer b [c]) now.

Definition try_append_char_if_active (b : PasteBurst) (c : char) (now : Instant)
    : PasteBurst * bool :=
  if active b || negb (is_empty (buffer b)) then (append_char_to_buffer b c now, true)
  else (b, false).

(** Where the last [retro_chars] characters start, as a character index. *)
Definition retro_start_index (before : str) (retro_chars : nat) : nat :=
  length before - retro_chars.

Definition decide_begin_buffer (b : PasteBurst) (now : Instant) (before : str) (retro_chars : nat)
    : PasteBurst * option RetroGrab :=
  let start := retro_start_index before retro_chars in
  let grabbed := drop start before in
  let looks_pastey := existsb is_whitespace grabbed || (16 <=? length grabbed) in
  if looks_pastey then (begin_with_retro_grabbed b grabbed now, Some (mkGrab start grabbed))
  else (b, None).

Definition flush_before_modified_input (b : PasteBurst) : PasteBurst * option str :=
  if is_active b then
    (set_pending (take_buffer b) None,
     Some (buffer b ++ match pending_first_char b with Some (c, _) => [c] | None => [] end))
  else (b, None).

Definition clear_window_after_non_char (b : PasteBurst) : PasteBurst :=
  mkBurst None 0 None (buffer b) false None.

Definition clear_after_explicit_paste (b : PasteBurst) : PasteBurst :=
  mkBurst None 0 None [] false None.

(** ** The composer's handling of plain characters ([chat_composer.rs]) *)

Record Composer := mkComposer {
  text : str;
  is_bash_mode : bool;
  paste_burst : PasteBurst;
  pending_pastes : list (str * str);
}.

Definition set_text (c : Composer) (s : str) : Composer :=
  mkComposer s (is_bash_mode c) (paste_burst c) (pending_pastes c).

Definition set_burst (c : Composer) (b : PasteBurst) : Composer :=
  mkComposer (text c) (is_bash_mode c) b (pending_pastes c).

(** A leading [!] becomes the bash mode. *)
Definition sync_bash_mode_from_text (c : Composer) : Composer :=
  if negb (is_bash_mode c) && starts_with (s!"!") (text c)
  then mkComposer (drop 1 (text c)) true (paste_burst c) (pending_pastes c)
  else c.

(** [textarea.insert_str] at the cursor. *)
Definition textarea_insert (c : Composer) (s : str) : Composer := set_text c (text c ++ s).

Definition insert_str (c : Composer) (s : str) : Composer :=
  sync_bash_mode_from_text (textarea_insert c s).

(** [pending_pastes.retain(..)]: drop the pastes whose placeholder is gone. *)
Definition retain_pending_pastes (c : Composer) : Composer :=
  mkComposer (text c) (is_bash_mode c) (paste_burst c)
    (filter (fun '(placeholder, _) => contains_str placeholder (text c) = true) (pending_pastes c)).

Definition LARGE_PASTE_CHAR_THRESHOLD : nat := 1000.

(** [pasted.replace("\r\n", "\n").replace('\r', "\n")] *)
Fixpoint replace_crlf (s : str) : str :=
  match s with
  | [] => []
  | c :: s' =>
      if (c =? cr)%N
      then nl :: match s' with
                 | d :: s'' => if (d =? nl)%N then replace_crlf s'' else replace_crlf s'
                 | [] => []
                 end
      else c :: replace_crlf s'
  end.

(** [char::is_control] *)
Definition is_control (c : char) : bool := (c <? 32)%N || in_range 127 159 c.

(** [sanitize_user_text]: drop terminal sequences and control characters;
    [in_csi] while skipping to the final byte of a sequence. *)
Fixpoint sanitize_from (in_csi : bool) (s : str) : str :=
  match s with
  | [] => []
  | c :: s' =>
      if in_csi then sanitize_from (negb (in_range 64 126 c)) s'
      else if (c =? 27)%N
      then match s' with
           | d :: s'' => if (d =? 91)%N then sanitize_from true s'' else sanitize_from false s'
           | [] => []
           end
      else if (c =? nl)%N || (c =? 9)%N || negb (is_control c)
      then c :: sanitize_from false s' else sanitize_from false s'
  end.

Definition sanitize_user_text (s : str) : str := sanitize_from false s.

(** [str::parse::<usize>] *)
Definition parse_usize (s : str) : option N := parse_unsigned USIZE_MAX s.

Definition next_large_paste_placeholder (c : Composer) (char_count : nat) : str :=
  let base := s!"[Pasted Content " ++ digits_of_N (N.of_nat char_count) ++ s!" chars]" in
  let prefix := base ++ s!" #" in
  let max_suffix :=
    fold_left (fun acc '(placeholder, _) =>
      if str_eqb placeholder base then N.max acc 1
      else match strip_prefix prefix placeholder with
           | Some suffix => match parse_usize suffix with Some value => N.max acc value | None => acc end
           | None => acc
           end) (pending_pastes c) 0%N in
  if (max_suffix =? 0)%N then base else base ++ s!" #" ++ digits_of_N (max_suffix + 1).

Section composer.

(** The text of the element a pasted image path becomes, if it is the path of a
    readable image and image pasting is enabled. *)
Context (handle_paste_image_path : str -> option str).

(** A paste, after which the detector starts over. *)
Definition handle_paste (c : Composer) (pasted : str) : Composer :=
  let pasted := sanitize_user_text (replace_crlf pasted) in
  let char_count := length pasted in
  let c :=
    if LARGE_PASTE_CHAR_THRESHOLD <? char_count then
      let placeholder := next_large_paste_placeholder c char_count in
      mkComposer (text c ++ placeholder) (is_bash_mode c) (paste_burst c)
        (pending_pastes c ++ [(placeholder, pasted)])
    else
      match if 1 <? char_count then handle_paste_image_path pasted else None with
      | Some element => textarea_insert (textarea_insert c element) (s!" ")
      | None => insert_str c pasted
      end in
  set_burst c (clear_after_explicit_paste (paste_burst c)).

Definition handle_paste_burst_flush (c : Composer) (now : Instant) : Composer :=
  let '(b, r) := flush_if_due (paste_burst c) now in
  let c := set_burst c b in
  match r with
  | Paste pasted => handle_paste c pasted
  | Typed ch => insert_str c [ch]
  | NoFlush => c
  end.

Definition flush_modified (c : Composer) : Composer :=
  let '(b, pasted) := flush_before_modified_input (paste_burst c) in
  let c := set_burst c b in
  match pasted with Some pasted => handle_paste c pasted | None => c end.

(** [BeginBuffer]: move the tail of the text into the buffer if it looks like
    a paste; [None] to fall through to plain insertion. *)
Definition begin_buffer (c : Composer) (ch : char) (now : Instant) (retro_chars : nat)
    : Composer * bool :=
  let '(b, grab) := decide_begin_buffer (paste_burst c) now (text c) retro_chars in
  match grab with
  | Some g =>
      (set_burst (if is_empty (grabbed g) then c else set_text c (take (start_char g) (text c)))
         (append_char_to_buffer b ch now), true)
  | None => (set_burst c b, false)
  end.

(** [textarea.input] of a character once nothing is buffered: the end of
    [handle_non_ascii_char], and of [handle_input_basic_with_time], where
    inserting a character deletes no element. *)
Definition input_non_ascii (c : Composer) (ch : char) : Composer :=
  retain_pending_pastes (textarea_insert (flush_modified c) [ch]).

Definition input_ascii (c : Composer) (ch : char) : Composer :=
  sync_bash_mode_from_text (textarea_insert (flush_modified c) [ch]).

Definition handle_non_ascii_char (c : Composer) (ch : char) (now : Instant) : Composer :=
  let '(b, captured) := try_append_char_if_active (paste_burst c) ch now in
  if captured then set_burst c b
  else
    let c := flush_modified (set_burst c b) in
    let '(b, decision) := on_plain_char_no_hold (paste_burst c) now in
    let c := set_burst c b in
    match decision with
    | Some BufferAppend => set_burst c (append_char_to_buffer b ch now)
    | Some (BeginBuffer retro_chars) =>
        let '(c, done) := begin_buffer c ch now retro_chars in
        if done then c else input_non_ascii c ch
    | _ => input_non_ascii c ch
    end.

(** [handle_input_basic_with_time] for a plain ASCII character. *)
Definition handle_ascii_char (c : Composer) (ch : char) (now : Instant) : Composer :=
  let '(b, decision) := on_plain_char (paste_burst c) ch now in
  let c := set_burst c b in
  match decision with
  | BufferAppend | BeginBufferFromPending => set_burst c (append_char_to_buffer b ch now)
  | BeginBuffer retro_chars =>
      let '(c, done) := begin_buffer c ch now retro_chars in
      if done then c else input_ascii c ch
  | RetainFirstChar => c
  end.

Definition is_ascii (c : char) : bool := (c <? 128)%N.

Definition handle_char (c : Composer) (ch : char) (now : Instant) : Composer :=
  let c := handle_paste_burst_flush c now in
  if is_ascii ch then handle_ascii_char c ch now else handle_non_ascii_char c ch now.

(** A plain character or a timer tick. *)
Inductive Event := Key (ch : char) (now : Instant) | Tick (now : Instant).

Definition step (c : Composer) (e : Event) : Composer :=
  match e with
  | Key ch now => handle_char c ch now
  | Tick now => handle_paste_burst_flush c now
  end.

Definition run (c : Composer) (events : list Event) : Composer := fold_left step events c.

Definition typed (events : list Event) : str :=
  omap (fun e => match e with Key ch _ => Some ch | Tick _ => None end) events.

(** ** The invariant *)

Definition pending_text (b : PasteBurst) : str :=
  match pending_first_char b with Some (c, _) => [c] | None => [] end.

(** The text with the [!] that the bash mode stands for. *)
Definition full_text (c : Composer) : str := (if is_bash_mode c then s!"!" else []) ++ text c.

(** Everything the user typed, in order. *)
Definition contents (c : Composer) : str :=
  full_text c ++ buffer (paste_burst c) ++ pending_text (paste_burst c).

(** A buffer is only filled during a burst, no character is held then, and
    whatever waits has a timestamp to time out against. *)
Record burst_inv (b : PasteBurst) : Prop := {
  inv_buffer : buffer b <> [] -> active b = true;
  inv_active : active b = true -> pending_first_char b = None;
  inv_pending : forall c t, pending_first_char b = Some (c, t) -> last_plain_char_time b = Some t;
  inv_timed : active b = true -> is_Some (last_plain_char_time b);
}.

#[local] Arguments Nat.leb : simpl never.
#[local] Arguments handle_paste : simpl never.

(** Characters a paste leaves alone: no control character but newline and tab. *)
Definition plain (c : char) : bool := (c =? nl)%N || (c =? 9)%N || negb (is_control c).

(** Text that a paste inserts as it is. *)
Definition small (s : str) : Prop :=
  Forall (fun c => plain c = true) s /\ length s <= LARGE_PASTE_CHAR_THRESHOLD.

(** Nothing typed is the path of an image. *)
Context (no_image : forall s, handle_paste_image_path s = None).

Lemma sync_bash_burst c : paste_burst (sync_bash_mode_from_text c) = paste_burst c.
Proof. unfold sync_bash_mode_from_text. by destruct (_ && _). Qed.

Lemma full_text_sync c : full_text (sync_bash_mode_from_text c) = full_text c.
Proof.
  destruct c as [tx [] b pp]; [done|]. unfold sync_bash_mode_from_text.
  cbn [negb andb is_bash_mode text]. destruct (starts_with _ tx) eqn:Es; [|done].
  apply starts_with_true in Es as [r ->]. done.
Qed.

Lemma full_text_insert c s : full_text (insert_str c s) = full_text c ++ s.
Proof. unfold insert_str. rewrite full_text_sync. unfold full_text. simpl. by rewrite app_assoc. Qed.

Lemma insert_str_burst c s : paste_burst (insert_str c s) = paste_burst c.
Proof. unfold insert_str. by rewrite sync_bash_burst. Qed.

Lemma small_app a b : small (a ++ b) -> small a /\ small b.
Proof. intros [Hf Hl]. apply Forall_app in Hf as [? ?]. rewrite length_app in Hl. repeat split; (done || lia). Qed.

Lemma replace_crlf_plain s : Forall (fun c => plain c = true) s -> replace_crlf s = s.
Proof.
  induction 1 as [|c s Hc _ IH]; simpl; [done|].
  destruct (N.eqb_spec c cr) as [->|]; [done|]. by rewrite IH.
Qed.

Lemma sanitize_plain s : Forall (fun c => plain c = true) s -> sanitize_from false s = s.
Proof.
  induction 1 as [|c s Hc _ IH]; simpl; [done|].
  destruct (N.eqb_spec c 27) as [->|]; [done|]. unfold plain in Hc. by rewrite Hc, IH.
Qed.

Lemma handle_paste_small c pasted :
  small pasted ->
  handle_paste c pasted = set_burst (insert_str c pasted) (clear_after_explicit_paste (paste_burst c)).
Proof.
  intros [Hf Hl]. unfold handle_paste, sanitize_user_text.
  rewrite replace_crlf_plain, sanitize_plain by done.
  rewrite (proj2 (Nat.ltb_ge _ _)) by done. rewrite no_image. by destruct (1 <? length pasted).
Qed.

Lemma default_burst_inv : burst_inv default_burst.
Proof. by constructor. Qed.

Lemma cleared_inv b : burst_inv (clear_after_explicit_paste b).
Proof. by constructor. Qed.

(** Pasting what waits into the text keeps the contents. *)
Lemma handle_paste_keeps c b pasted :
  small pasted ->
  let c' := handle_paste (set_burst c b) pasted in
  burst_inv (paste_burst c') /\ contents c' = full_text c ++ pasted /\
  active (paste_burst c') = false /\ pending_first_char (paste_burst c') = None.
Proof.
  intros Hsm. cbn zeta. rewrite handle_paste_small by done.
  split; [apply cleared_inv|]. split; [|done].
  unfold contents. simpl. rewrite app_nil_r. exact (full_text_insert (set_burst c b) pasted).
Qed.

Lemma inactive_buffer b : burst_inv b -> active b = false -> buffer b = [].
Proof.
  intros [Hb _ _ _] Ha. destruct (buffer b) eqn:E; [done|].
  by rewrite Hb in Ha.
Qed.

Lemma is_active_internal_active b : burst_inv b -> is_active_internal b = active b.
Proof.
  intros Hi. unfold is_active_internal. destruct (active b) eqn:Ea; [done|].
  by rewrite (inactive_buffer b Hi Ea).
Qed.

(** A flush delivers what waits, or nothing was due. *)
Lemma flush_keeps c now :
  burst_inv (paste_burst c) -> small (contents c) ->
  let c' := handle_paste_burst_flush c now in
  burst_inv (paste_burst c') /\ contents c' = contents c /\
  (active (paste_burst c') = false ->
   forall held t, pending_first_char (paste_burst c') = Some (held, t) ->
     duration_since now t <= PASTE_BURST_CHAR_INTERVAL).
Proof.
  intros Hi Hsm. unfold handle_paste_burst_flush, flush_if_due.
  unfold contents in Hsm. apply small_app in Hsm as [_ [Hsm _]%small_app].
  destruct c as [tx bm b pp]. simpl in *.
  pose proof (inactive_buffer b Hi) as Hbuf.
  rewrite (is_active_internal_active b Hi). pose proof Hi as [Hb Ha Hp Ht].
  destruct (active b) eqn:Ea.
  - rewrite andb_true_r. destruct (last_plain_char_time b) as [l|] eqn:El.
    2: { by destruct (Ht eq_refl). }
    destruct (PASTE_BURST_ACTIVE_IDLE_TIMEOUT <? duration_since now l).
    + destruct (handle_paste_keeps (mkComposer tx bm b pp) (take_buffer b) (buffer b) Hsm)
        as (? & Hc & _ & Hn).
      split; [done|]. split.
      * rewrite Hc. unfold contents, pending_text. simpl. by rewrite (Ha eq_refl), app_nil_r.
      * intros _ held t E. by rewrite Hn in E.
    + split; [done|]. split; [done|]. simpl. by rewrite Ea.
  - rewrite andb_false_r. specialize (Hbuf eq_refl).
    destruct (last_plain_char_time b) as [l|] eqn:El.
    + destruct (PASTE_BURST_CHAR_INTERVAL <? duration_since now l) eqn:Elt.
      * destruct (pending_first_char b) as [[held t]|] eqn:Ep.
        -- cbn zeta. unfold contents. rewrite insert_str_burst, full_text_insert. simpl.
           split; [constructor; simpl; rewrite ?Ea, ?Hbuf; done|].
           split; [|done]. unfold full_text, pending_text. simpl. by rewrite Ep, Hbuf, app_nil_r.
        -- split; [done|]. split; [done|]. intros _ held t E. simpl in E. by rewrite Ep in E.
      * apply Nat.ltb_ge in Elt. split; [done|]. split; [done|].
        intros _ held t E. simpl in E. specialize (Hp held t E). by simplify_eq.
    + split; [done|]. split; [done|].
      intros _ held t E. simpl in E. by specialize (Hp held t E).
Qed.

(** Appending to an active burst. *)
Lemma append_active c b ch now :
  burst_inv b -> active b = true ->
  burst_inv (append_char_to_buffer b ch now) /\
  contents (set_burst c (append_char_to_buffer b ch now)) = contents (set_burst c b) ++ [ch].
Proof.
  intros [Hb Ha Hp Ht] Hact. split; [by constructor|].
  unfold contents, pending_text. simpl. rewrite (Ha Hact), !app_nil_r. by rewrite <- app_assoc.
Qed.

(** Nothing waits: the detector is neither buffering nor holding a character. *)
Definition quiet (b : PasteBurst) : Prop :=
  burst_inv b /\ active b = false /\ pending_first_char b = None.

Lemma quiet_contents c : quiet (paste_burst c) -> contents c = full_text c.
Proof.
  intros (Hi & Ha & Hp). unfold contents, pending_text.
  by rewrite Hp, (inactive_buffer _ Hi Ha), app_nil_r.
Qed.

Lemma flush_modified_quiet c : quiet (paste_burst c) -> flush_modified c = c.
Proof.
  intros (Hi & Ha & Hp). unfold flush_modified, flush_before_modified_input, is_active.
  rewrite (is_active_internal_active _ Hi), Ha, Hp. by destruct c.
Qed.

(** Inserting a character while nothing waits. *)
Lemma input_quiet c ch :
  quiet (paste_burst c) ->
  (burst_inv (paste_burst (input_ascii c ch)) /\ contents (input_ascii c ch) = contents c ++ [ch]) /\
  (burst_inv (paste_burst (input_non_ascii c ch)) /\ contents (input_non_ascii c ch) = contents c ++ [ch]).
Proof.
  intros Hq. unfold input_ascii, input_non_ascii. rewrite (flush_modified_quiet c Hq).
  change (sync_bash_mode_from_text (textarea_insert c [ch])) with (insert_str c [ch]).
  rewrite (quiet_contents c Hq). split.
  - rewrite quiet_contents; rewrite insert_str_burst; [|done].
    split; [apply Hq|]. apply full_text_insert.
  - rewrite quiet_contents by done. split; [apply Hq|].
    unfold full_text. simpl. by rewrite app_assoc.
Qed.

(** Starting a burst with the tail of the text, or leaving everything alone. *)
Lemma begin_buffer_keeps c ch now retro :
  quiet (paste_burst c) -> is_Some (last_plain_char_time (paste_burst c)) ->
  let '(c', done) := begin_buffer c ch now retro in
  if done then burst_inv (paste_burst c') /\ contents c' = contents c ++ [ch] else c' = c.
Proof.
  destruct c as [tx bm b pp]. simpl. intros Hq Ht.
  rewrite (quiet_contents (mkComposer tx bm b pp) Hq). destruct Hq as (Hi & Ha & Hp).
  pose proof (inactive_buffer b Hi Ha) as Hb.
  unfold begin_buffer, decide_begin_buffer. cbn [text paste_burst].
  generalize (retro_start_index tx retro). intros k. cbn zeta. set (g := drop k tx).
  destruct (existsb is_whitespace g || (16 <=? length g)); [|done]. cbn [grabbed start_char].
  assert (take k tx ++ g = tx) as Htx by apply take_drop.
  unfold begin_with_retro_grabbed. destruct (is_empty g) eqn:Eg.
  - split; [constructor; simpl; auto; by rewrite Hp|].
    unfold contents, full_text, pending_text. simpl. by rewrite Hp, Hb, !app_nil_r.
  - split; [constructor; simpl; auto; by rewrite Hp|].
    unfold contents, full_text, pending_text. simpl. rewrite Hp, Hb, !app_nil_r. simpl.
    rewrite <- Htx at 2. by rewrite <- !app_assoc.
Qed.

Lemma note_quiet b now : quiet b -> quiet (note_plain_char b now).
Proof.
  intros ([Hb Ha Hp Ht] & E & E'). split; [|done]. constructor; simpl; rewrite ?E'; auto. done.
Qed.

Lemma ascii_keeps c ch now :
  burst_inv (paste_burst c) ->
  (active (paste_burst c) = false ->
   forall held t, pending_first_char (paste_burst c) = Some (held, t) ->
     duration_since now t <= PASTE_BURST_CHAR_INTERVAL) ->
  burst_inv (paste_burst (handle_ascii_char c ch now)) /\
  contents (handle_ascii_char c ch now) = contents c ++ [ch].
Proof.
  destruct c as [tx bm b pp]. simpl. intros Hi Hfresh. unfold handle_ascii_char, on_plain_char. simpl.
  pose proof Hi as [Hb Ha Hp Ht]. destruct (active b) eqn:Ea.
  - assert (burst_inv (extend_window (note_plain_char b now) now)) as Hi'.
    { constructor; simpl; rewrite ?Ea, ?(Ha eq_refl); auto. done. }
    exact (append_active (mkComposer tx bm b pp) _ ch now Hi' Ea).
  - destruct (pending_first_char b) as [[held t]|] eqn:Ep.
    + specialize (Hfresh eq_refl held t eq_refl). apply Nat.leb_le in Hfresh as ->. simpl.
      split; [by constructor|]. unfold contents, full_text, pending_text. simpl.
      rewrite Ep, (inactive_buffer b Hi Ea). simpl. by rewrite <- !app_assoc.
    + destruct (PASTE_BURST_MIN_CHARS <=? _).
      * pose proof (note_quiet b now (conj Hi (conj Ea Ep))) as Hq.
        pose proof (begin_buffer_keeps (mkComposer tx bm (note_plain_char b now) pp) ch now
          (consecutive_plain_char_burst (note_plain_char b now) - 1) Hq (mk_is_Some _ _ eq_refl)) as Hk.
        change (set_burst (mkComposer tx bm b pp) (note_plain_char b now))
          with (mkComposer tx bm (note_plain_char b now) pp).
        simpl in Hk |- *. destruct (begin_buffer _ ch now _) as [c' done].
        destruct done; [exact Hk|]. rewrite Hk. exact (proj1 (input_quiet (mkComposer tx bm (note_plain_char b now) pp) ch Hq)).
      * split.
        -- constructor; simpl; rewrite ?Ea; try done. by intros ? ? [= <- <-].
        -- unfold contents, full_text, pending_text. simpl.
           rewrite Ep, (inactive_buffer b Hi Ea). by rewrite app_nil_r.
Qed.

Lemma flush_modified_keeps c :
  burst_inv (paste_burst c) -> active (paste_burst c) = false -> small (contents c) ->
  quiet (paste_burst (flush_modified c)) /\ contents (flush_modified c) = contents c.
Proof.
  intros Hi Ea Hsm. destruct (pending_first_char (paste_burst c)) as [[held t]|] eqn:Ep.
  2: { by rewrite flush_modified_quiet. }
  unfold contents in *. apply small_app in Hsm as [_ Hsm]. unfold pending_text in *.
  rewrite Ep, (inactive_buffer _ Hi Ea) in *. simpl in *.
  unfold flush_modified, flush_before_modified_input, is_active. rewrite Ep, orb_true_r.
  rewrite (inactive_buffer _ Hi Ea). simpl.
  destruct (handle_paste_keeps c (set_pending (take_buffer (paste_burst c)) None) [held] Hsm)
    as (Hi' & Hc & Ha' & Hp').
  split; [done|]. exact Hc.
Qed.

Lemma non_ascii_keeps c ch now :
  burst_inv (paste_burst c) -> small (contents c) ->
  burst_inv (paste_burst (handle_non_ascii_char c ch now)) /\
  contents (handle_non_ascii_char c ch now) = contents c ++ [ch].
Proof.
  destruct c as [tx bm b pp]. intros Hi Hsm. unfold handle_non_ascii_char, try_append_char_if_active. simpl in *.
  destruct (active b) eqn:Ea; simpl.
  { exact (append_active (mkComposer tx bm b pp) b ch now Hi Ea). }
  rewrite (inactive_buffer b Hi Ea). simpl.
  change (set_burst (mkComposer tx bm b pp) b) with (mkComposer tx bm b pp).
  destruct (flush_modified_keeps (mkComposer tx bm b pp) Hi Ea Hsm) as [Hq <-].
  destruct (flush_modified (mkComposer tx bm b pp)) as [tx' bm' b' pp']. simpl in *.
  pose proof (note_quiet b' now Hq) as Hn.
  change (contents (mkComposer tx' bm' b' pp'))
    with (contents (mkComposer tx' bm' (note_plain_char b' now) pp')).
  unfold on_plain_char_no_hold. destruct (active (note_plain_char b' now)) eqn:Ea'.
  { destruct Hn as (_ & Hna & _). congruence. }
  destruct (PASTE_BURST_MIN_CHARS <=? _).
  - pose proof (begin_buffer_keeps (mkComposer tx' bm' (note_plain_char b' now) pp') ch now
      (consecutive_plain_char_burst (note_plain_char b' now) - 1) Hn (mk_is_Some _ _ eq_refl)) as Hk.
    change (set_burst (mkComposer tx' bm' b' pp') (note_plain_char b' now))
      with (mkComposer tx' bm' (note_plain_char b' now) pp').
    simpl in Hk |- *. destruct (begin_buffer _ ch now _) as [c' done].
    destruct done; [exact Hk|]. rewrite Hk. exact (proj2 (input_quiet (mkComposer tx' bm' (note_plain_char b' now) pp') ch Hn)).
  - exact (proj2 (input_quiet (mkComposer tx' bm' (note_plain_char b' now) pp') ch Hn)).
Qed.

Lemma step_keeps c e :
  burst_inv (paste_burst c) -> small (contents c) ->
  burst_inv (paste_burst (step c e)) /\ contents (step c e) = contents c ++ typed [e].
Proof.
  intros Hi Hsm. destruct e as [ch now|now]; simpl.
  - destruct (flush_keeps c now Hi Hsm) as (Hi' & Heq & Hf). rewrite <- Heq in Hsm. rewrite <- Heq. unfold handle_char. csimpl.
    destruct (is_ascii ch); [by apply ascii_keeps|by apply non_ascii_keeps].
  - destruct (flush_keeps c now Hi Hsm) as (Hi' & -> & _). csimpl. by rewrite app_nil_r.
Qed.

Lemma typed_cons e events : typed (e :: events) = typed [e] ++ typed events.
Proof. unfold typed. by rewrite <- omap_app. Qed.

Lemma run_keeps c events :
  burst_inv (paste_burst c) -> small (contents c ++ typed events) ->
  burst_inv (paste_burst (run c events)) /\ contents (run c events) = contents c ++ typed events.
Proof.
  revert c. induction events as [|e events IH]; intros c Hi Hsm.
  { csimpl. by rewrite app_nil_r. }
  rewrite typed_cons in *. pose proof (small_app _ _ Hsm) as [Hc0 _].
  destruct (step_keeps c e Hi Hc0) as [Hi' Hc]. rewrite app_assoc, <- Hc in Hsm.
  destruct (IH (step c e) Hi' Hsm) as [? Hr].
  change (run c (e :: events)) with (run (step c e) events).
  split; [done|]. by rewrite Hr, Hc, <- app_assoc.
Qed.

Lemma start_contents initial : contents (mkComposer initial false default_burst []) = initial.
Proof. unfold contents. simpl. by rewrite app_nil_r. Qed.

Lemma run_from_start initial events :
  small (initial ++ typed events) ->
  let c := run (mkComposer initial false default_burst []) events in
  burst_inv (paste_burst c) /\ contents c = initial ++ typed events.
Proof.
  intros Hsm. pose proof (run_keeps (mkComposer initial false default_burst []) events default_burst_inv) as Hr.
  rewrite start_contents in Hr. by apply Hr.
Qed.

(** After the last key plus the interval, a tick leaves nothing waiting. *)
Lemma idle_flush_inactive c now :
  burst_inv (paste_burst c) -> small (contents c) ->
  (forall t, last_plain_char_time (paste_burst c) = Some t ->
     PASTE_BURST_CHAR_INTERVAL < duration_since now t) ->
  is_active (paste_burst (handle_paste_burst_flush c now)) = false.
Proof.
  intros Hi Hsm Hidle. unfold handle_paste_burst_flush, flush_if_due.
  apply small_app in Hsm as [_ [Hsm _]%small_app].
  pose proof (inactive_buffer _ Hi) as Hbuf.
  rewrite (is_active_internal_active _ Hi). destruct Hi as [Hb Ha Hp Ht].
  destruct (active (paste_burst c)) eqn:Ea.
  - destruct (Ht eq_refl) as [t El]. rewrite El. apply Hidle in El.
    change PASTE_BURST_ACTIVE_IDLE_TIMEOUT with PASTE_BURST_CHAR_INTERVAL.
    rewrite (proj2 (Nat.ltb_lt _ _) El). cbn -[handle_paste]. by rewrite handle_paste_small.
  - specialize (Hbuf eq_refl).
    destruct (pending_first_char (paste_burst c)) as [[held t]|] eqn:Ep.
    + specialize (Hp held t eq_refl). rewrite Hp. apply Hidle in Hp.
      rewrite (proj2 (Nat.ltb_lt _ _) Hp). simpl. rewrite insert_str_burst.
      unfold is_active, is_active_internal. simpl. by rewrite Ea, Hbuf.
    + destruct (last_plain_char_time (paste_burst c)); [destruct (_ <? _)|]; simpl;
        unfold is_active, is_active_internal; simpl; by rewrite Ea, Hbuf, Ep.
Qed.

Lemma inactive_contents c : is_active (paste_burst c) = false -> contents c = full_text c.
Proof.
  intros Hna. unfold is_active, is_active_internal in Hna.
  apply orb_false_iff in Hna as [[_ Hbuf]%orb_false_iff Hp].
  apply negb_false_iff, is_empty_true in Hbuf. unfold contents, pending_text. rewrite Hbuf.
  destruct (pending_first_char (paste_burst c)) as [[]|]; [done|]. by rewrite app_nil_r.
Qed.

End composer.

(** While characters are typed or pasted, at whatever speed and mixed with
    timer ticks, none is lost, duplicated or moved: the text (with the [!]
    that switched to bash mode, if any), the burst buffer and the held character
    are together exactly what was typed, and the detector
    stays in a consistent state.  The typed text holds no control characters but
    newline and tab, is at most 1000 characters long (a longer paste becomes a
    placeholder) and names no image file. *)
Theorem no_character_lost image_path initial events :
  (forall s, image_path s = None) -> small (initial ++ typed events) ->
  let c := run image_path (mkComposer initial false default_burst []) events in
  burst_inv (paste_burst c) /\ contents c = initial ++ typed events.
Proof.
  intros Hno Hsm. by apply run_from_start.
Qed.

Lemma no_character_lost_witness :
  small (s!"x" ++ typed [Key 97 0; Key 98 4; Tick 6; Key 99 7; Key 233 60]) /\
  contents (run (fun _ => None) (mkComposer (s!"x") false default_burst [])
    [Key 97 0; Key 98 4; Tick 6; Key 99 7; Key 233 60]) = s!"xabc" ++ [233%N].
Proof.
  assert (small (s!"x" ++ typed [Key 97 0; Key 98 4; Tick 6; Key 99 7; Key 233 60])) as Hsm.
  { split; [by repeat constructor|]. vm_compute. lia. }
  split; [done|]. apply (no_character_lost (fun _ => None) (s!"x") _ (fun _ => eq_refl) Hsm).
Defined.

(** Once the keys have been idle for longer than the interval, one tick
    delivers everything: nothing is buffered or held any more and the text (with
    the [!] that switched to bash mode, if any) is what was typed. *)
Theorem idle_tick_delivers image_path initial events now :
  (forall s, image_path s = None) -> small (initial ++ typed events) ->
  let c := run image_path (mkComposer initial false default_burst []) events in
  (forall t, last_plain_char_time (paste_burst c) = Some t ->
     PASTE_BURST_CHAR_INTERVAL < duration_since now t) ->
  let c' := step image_path c (Tick now) in
  full_text c' = initial ++ typed events /\ is_active (paste_burst c') = false.
Proof.
  intros Hno Hsm c Hidle c'.
  destruct (run_from_start image_path Hno initial events Hsm) as [Hi Hc]. fold c in Hi, Hc. rewrite <- Hc in Hsm |- *.
  pose proof (idle_flush_inactive image_path Hno c now Hi Hsm Hidle) as Hna.
  destruct (flush_keeps image_path Hno c now Hi Hsm) as (_ & Hcont & _).
  split; [|done]. unfold c'. simpl. rewrite <- Hcont. symmetry. by apply inactive_contents.
Qed.

Lemma idle_tick_delivers_witness :
  full_text (step (fun _ => None) (run (fun _ => None) (mkComposer [] false default_burst [])
    [Key 97 0; Key 98 4; Key 99 6]) (Tick 20)) = s!"abc".
Proof.
  apply (idle_tick_delivers (fun _ => None) [] [Key 97 0; Key 98 4; Key 99 6] 20).
  - done.
  - split; [by repeat constructor|]. vm_compute. lia.
  - vm_compute. intros t [= <-]. lia.
Defined.

(** ** Enter after a held character *)

(** Enter during a burst goes to the end of the buffer. *)
Lemma newline_in_burst b now :
  burst_inv b -> active b = true ->
  append_newline_if_active b now = (append_char_to_buffer b nl now, true).
Proof.
  intros Hi Ha. unfold append_newline_if_active, is_active, is_active_internal. by rewrite Ha.
Qed.

(** Enter right after a held first character is buffered ahead of it: the
    newline comes out as a paste, inserting that paste clears the held character,
    and the character is lost. *)
Theorem enter_after_held_char_loses_it :
  let c := handle_char (fun _ => None) (mkComposer [] false default_burst []) (ch "y") 0 in
  let '(b, captured) := append_newline_if_active (paste_burst c) 1 in
  captured = true /\
  text (handle_paste_burst_flush (fun _ => None) (set_burst c b) 20) = [nl] /\
  is_active (paste_burst (handle_paste_burst_flush (fun _ => None) (set_burst c b) 20)) = false.
Proof. vm_compute. done. Qed.
