(* ===== verification/TableDetect.v ===== *)
(** Pipe tables in streamed markdown: [tui/src/table_detect.rs] and
    [tui/src/streaming/table_holdback.rs].

    The line predicates of [table_detect.rs] (segments, header and delimiter
    rows, fence markers, block quotes) and the [FenceTracker]; on top of them
    the incremental [TableHoldbackScanner] of the stream controllers and the
    one-shot scan [table_holdback_state] of the same file, which the repository
    uses as the scanner's reference.  The theorem is their equivalence for every
    way of cutting the source into newline-terminated chunks.

    Strings are lists of scalar values; [split_unescaped_pipe] walks over bytes
    in the source and over characters here, which agree because a continuation
    byte is neither a backslash nor a pipe.  Offsets are byte offsets. *)
From S2P Require Import Prelude RustStr.
Open Scope dcode_scope.

(** ** Rust string helpers the two files use *)

(** [str::split_inclusive(c)]. *)
Fixpoint split_inclusive (c : char) (s : str) : list str :=
  match s with
  | [] => []
  | x :: s' =>
      if N.eqb x c then [x] :: split_inclusive c s'
      else match split_inclusive c s' with
           | [] => [[x]]
           | l :: ls => (x :: l) :: ls
           end
  end.

(** [iter().take_while(p)] and the rest of the slice. *)
Fixpoint take_while (p : char -> bool) (s : str) : str :=
  match s with
  | c :: s' => if p c then c :: take_while p s' else []
  | [] => []
  end.

Definition unwrap_or {A} (o : option A) (d : A) : A := default d o.

Definition pipe : char := ch "|".
Definition backslash : char := 92%N.

(** ** [table_detect.rs]: the structure of one line *)

Fixpoint split_unescaped_pipe_from (seg content : str) : list str :=
  match content with
  | [] => [reverse seg]
  | c :: rest =>
      if N.eqb c backslash then
        match rest with
        | [] => [reverse (c :: seg)]
        | d :: rest' => split_unescaped_pipe_from (d :: c :: seg) rest'
        end
      else if N.eqb c pipe then reverse seg :: split_unescaped_pipe_from [] rest
      else split_unescaped_pipe_from (c :: seg) rest
  end.

Definition split_unescaped_pipe (content : str) : list str := split_unescaped_pipe_from [] content.

Definition parse_table_segments (line : str) : option (list str) :=
  let trimmed := trim line in
  if is_empty trimmed then None
  else
    let has_outer_pipe := starts_with [pipe] trimmed || ends_with [pipe] trimmed in
    let content := unwrap_or (strip_prefix [pipe] trimmed) trimmed in
    let content := unwrap_or (strip_suffix [pipe] content) content in
    let raw_segments := split_unescaped_pipe content in
    if negb has_outer_pipe && (length raw_segments <=? 1)%nat then None
    else
      let segments := map trim raw_segments in
      if is_empty segments then None else Some segments.

Definition is_table_header_line (line : str) : bool :=
  match parse_table_segments line with
  | Some segments => existsb (fun s => negb (is_empty s)) segments
  | None => false
  end.

Definition is_table_delimiter_segment (segment : str) : bool :=
  let trimmed := trim segment in
  if is_empty trimmed then false
  else
    let without_leading := unwrap_or (strip_prefix [ch ":"] trimmed) trimmed in
    let without_ends := unwrap_or (strip_suffix [ch ":"] without_leading) without_leading in
    (3 <=? byte_len without_ends)%N && forallb (fun c => N.eqb c (ch "-")) without_ends.

Definition is_table_delimiter_line (line : str) : bool :=
  match parse_table_segments line with
  | Some segments => forallb is_table_delimiter_segment segments
  | None => false
  end.

(** [strip_blockquote_prefix]: the loop drops a character on every round, so
    the length of the line bounds the number of rounds
    ([strip_blockquote_prefix_done]). *)
Fixpoint strip_blockquote_loop (fuel : nat) (rest : str) : str :=
  match fuel with
  | O => rest
  | S fuel' =>
      match strip_prefix [ch ">"] rest with
      | None => rest
      | Some stripped =>
          strip_blockquote_loop fuel' (trim_start (unwrap_or (strip_prefix [ch " "] stripped) stripped))
      end
  end.

Definition strip_blockquote_prefix (line : str) : str :=
  strip_blockquote_loop (length line) (trim_start line).

(** ** Fenced code blocks *)

Inductive FenceKind := Outside | Markdown | Other.

#[global] Instance FenceKind_eq_dec : EqDecision FenceKind.
Proof. solve_decision. Defined.

Definition fence_eqb (a b : FenceKind) : bool := bool_decide (a = b).

Definition parse_fence_marker (line : str) : option (char * nat) :=
  match line with
  | [] => None
  | first :: _ =>
      if negb (N.eqb first (ch "`")) && negb (N.eqb first (ch "~")) then None
      else
        let len := length (take_while (N.eqb first) line) in
        if (len <? 3)%nat then None else Some (first, len)
  end.

Definition is_markdown_fence_info (trimmed_line : str) (marker_len : nat) : bool :=
  let info := take_while (fun c => negb (is_whitespace c)) (trim_start (drop marker_len trimmed_line)) in
  eq_ignore_ascii_case info (s! "md") || eq_ignore_ascii_case info (s! "markdown").

Record FenceTracker := { ft_state : option (char * nat * FenceKind) }.

Definition fence_new : FenceTracker := {| ft_state := None |}.

Definition fence_advance (t : FenceTracker) (raw_line : str) : FenceTracker :=
  let leading_spaces := length (take_while (N.eqb (ch " ")) raw_line) in
  if (3 <? leading_spaces)%nat then t
  else
    let fence_scan_text := strip_blockquote_prefix (drop leading_spaces raw_line) in
    match parse_fence_marker fence_scan_text with
    | None => t
    | Some (marker, len) =>
        match ft_state t with
        | Some (open_char, open_len, _) =>
            if N.eqb marker open_char && (open_len <=? len)%nat
                 && is_empty (trim (drop len fence_scan_text))
            then {| ft_state := None |} else t
        | None =>
            let kind := if is_markdown_fence_info fence_scan_text len then Markdown else Other in
            {| ft_state := Some (marker, len, kind) |}
        end
    end.

Definition fence_kind (t : FenceTracker) : FenceKind :=
  match ft_state t with None => Outside | Some (_, _, k) => k end.

(** ** [table_holdback.rs]: the incremental scanner *)

Inductive TableHoldbackState :=
| HoldbackNone
| PendingHeader (header_start : N)
| Confirmed (table_start : N).

Record PreviousLineState := {
  pl_source_start : N;
  pl_fence_kind : FenceKind;
  pl_is_header : bool
}.

Record TableHoldbackScanner := {
  source_offset : N;
  fence_tracker : FenceTracker;
  previous_line : option PreviousLineState;
  pending_header_start : option N;
  confirmed_table_start : option N
}.

Definition scanner_new : TableHoldbackScanner :=
  {| source_offset := 0; fence_tracker := fence_new; previous_line := None;
     pending_header_start := None; confirmed_table_start := None |}.

Definition scanner_reset (_ : TableHoldbackScanner) : TableHoldbackScanner := scanner_new.

Definition scanner_state (sc : TableHoldbackScanner) : TableHoldbackState :=
  match confirmed_table_start sc with
  | Some table_start => Confirmed table_start
  | None => match pending_header_start sc with
            | Some header_start => PendingHeader header_start
            | None => HoldbackNone
            end
  end.

Definition table_candidate_text (line : str) : option str :=
  let stripped := trim (strip_blockquote_prefix line) in
  match parse_table_segments stripped with Some _ => Some stripped | None => None end.

Definition is_some_and {A} (o : option A) (p : A -> bool) : bool :=
  match o with Some x => p x | None => false end.

Definition push_line (sc : TableHoldbackScanner) (source_line : str) : TableHoldbackScanner :=
  let line := unwrap_or (strip_suffix [nl] source_line) source_line in
  let source_start := source_offset sc in
  let kind := fence_kind (fence_tracker sc) in
  let candidate_text := if fence_eqb kind Other then None else table_candidate_text line in
  let is_header := is_some_and candidate_text is_table_header_line in
  let is_delimiter := is_some_and candidate_text is_table_delimiter_line in
  let '(confirmed, pending) :=
    match confirmed_table_start sc, previous_line sc with
    | None, Some prev =>
        if negb (fence_eqb (pl_fence_kind prev) Other) && negb (fence_eqb kind Other)
             && pl_is_header prev && is_delimiter
        then (Some (pl_source_start prev), None)
        else (confirmed_table_start sc, pending_header_start sc)
    | _, _ => (confirmed_table_start sc, pending_header_start sc)
    end in
  let pending :=
    match confirmed with
    | None =>
        if negb (is_empty (trim line)) then
          if negb (fence_eqb kind Other) && is_header then Some source_start else None
        else pending
    | Some _ => pending
    end in
  {| source_offset := sat_add (source_offset sc) (byte_len source_line);
     fence_tracker := fence_advance (fence_tracker sc) line;
     previous_line := Some {| pl_source_start := source_start; pl_fence_kind := kind;
                              pl_is_header := is_header |};
     pending_header_start := pending;
     confirmed_table_start := confirmed |}.

Definition push_source_chunk (sc : TableHoldbackScanner) (source_chunk : str) : TableHoldbackScanner :=
  if is_empty source_chunk then sc
  else fold_left push_line (split_inclusive nl source_chunk) sc.

(** ** The one-shot scan *)

Record ParsedLine := {
  text : str;
  fence_context : FenceKind;
  source_start : N
}.

Fixpoint parse_lines_from (tracker : FenceTracker) (start : N) (raw_lines : list str)
  : list ParsedLine :=
  match raw_lines with
  | [] => []
  | raw_line :: rest =>
      {| text := raw_line; fence_context := fence_kind tracker; source_start := start |}
        :: parse_lines_from (fence_advance tracker raw_line)
             (sat_add (sat_add start (byte_len raw_line)) 1) rest
  end.

Definition parse_lines_with_fence_state (source : str) : list ParsedLine :=
  parse_lines_from fence_new 0 (split_on nl source).

(** The body of the loop over [lines.windows(2)]. *)
Definition confirms (header_line delimiter_line : ParsedLine) : bool :=
  if fence_eqb (fence_context header_line) Other || fence_eqb (fence_context delimiter_line) Other
  then false
  else match table_candidate_text (text header_line), table_candidate_text (text delimiter_line) with
       | Some header_text, Some delimiter_text =>
           is_table_header_line header_text && is_table_delimiter_line delimiter_text
       | _, _ => false
       end.

Fixpoint first_confirmed (lines : list ParsedLine) : option N :=
  match lines with
  | header_line :: (delimiter_line :: _) as rest =>
      if confirms header_line delimiter_line then Some (source_start header_line)
      else first_confirmed rest
  | _ => None
  end.

Definition table_holdback_state (source : str) : TableHoldbackState :=
  let lines := parse_lines_with_fence_state source in
  match first_confirmed lines with
  | Some table_start => Confirmed table_start
  | None =>
      match List.find (fun line => negb (is_empty (trim (text line)))) (reverse lines) with
      | Some line =>
          if negb (fence_eqb (fence_context line) Other)
               && is_some_and (table_candidate_text (text line)) is_table_header_line
          then PendingHeader (source_start line) else HoldbackNone
      | None => HoldbackNone
      end
  end.

(** ** Facts about the line predicates *)

Lemma strip_prefix_length p s r : strip_prefix p s = Some r -> length s = (length p + length r)%nat.
Proof. intros ->%strip_prefix_Some. by rewrite length_app. Qed.

Lemma trim_start_length s : (length (trim_start s) <= length s)%nat.
Proof. induction s as [|c s IH]; simpl; [lia|]. destruct (is_whitespace c); simpl; lia. Qed.

Lemma strip_blockquote_loop_done fuel rest :
  (length rest <= fuel)%nat -> starts_with [ch ">"] (strip_blockquote_loop fuel rest) = false.
Proof.
  revert rest; induction fuel as [|fuel IH]; intros rest Hf.
  - by destruct rest; [|simpl in Hf; lia].
  - cbn [strip_blockquote_loop].
    destruct (strip_prefix [ch ">"] rest) as [stripped|] eqn:E.
    + apply IH. apply strip_prefix_length in E.
      etrans; [apply trim_start_length|].
      destruct (strip_prefix [ch " "] stripped) as [r|] eqn:E2; simpl in E |- *; [|lia].
      apply strip_prefix_length in E2; simpl in E2; lia.
    + unfold starts_with. by rewrite E.
Qed.

(** The loop's fuel is enough: what is left carries no block-quote marker. *)
Lemma strip_blockquote_prefix_done line : starts_with [ch ">"] (strip_blockquote_prefix line) = false.
Proof. apply strip_blockquote_loop_done, trim_start_length. Qed.

Lemma table_candidate_text_nil : table_candidate_text [] = None.
Proof. reflexivity. Qed.

(** ** Lines and chunks *)

Definition chomp (source_line : str) : str := unwrap_or (strip_suffix [nl] source_line) source_line.

(** Source the collector commits: empty or ending in a newline. *)
Definition newline_terminated (s : str) : Prop := s = [] \/ exists r, s = r ++ [nl].

Lemma chomp_nl l : chomp (l ++ [nl]) = l.
Proof.
  unfold chomp. destruct (strip_suffix [nl] (l ++ [nl])) as [r|] eqn:E.
  - apply strip_suffix_Some in E. simpl. by apply app_inj_tail in E as [-> _].
  - assert (strip_suffix [nl] (l ++ [nl]) = Some l) by (by apply strip_suffix_Some). congruence.
Qed.

Lemma chomp_free l : nl ∉ l -> chomp l = l.
Proof.
  intros Hn. unfold chomp. destruct (strip_suffix [nl] l) as [r|] eqn:E; [|done].
  apply strip_suffix_Some in E. subst. exfalso. apply Hn. set_solver.
Qed.

Lemma split_inclusive_nil s : split_inclusive nl s = [] <-> s = [].
Proof. destruct s as [|x s]; simpl; [done|]. split; [|done]. by repeat case_match. Qed.

Lemma split_inclusive_app a b :
  newline_terminated a -> split_inclusive nl (a ++ b) = split_inclusive nl a ++ split_inclusive nl b.
Proof.
  induction a as [|x a IH]; intros Ha; [done|].
  destruct Ha as [?|[r Hr]]; [done|].
  destruct r as [|y r]; simplify_eq/=; [done|].
  rewrite IH by (right; eauto).
  destruct (N.eqb y nl); [done|].
  destruct (split_inclusive nl (r ++ [nl])) eqn:E; [|done].
  apply split_inclusive_nil in E. by destruct r.
Qed.

Lemma split_inclusive_free l s :
  nl ∉ l -> split_inclusive nl (l ++ nl :: s) = (l ++ [nl]) :: split_inclusive nl s.
Proof.
  induction l as [|x l IH]; intros Hl; simpl; [done|].
  apply not_elem_of_cons in Hl as [Hx Hl].
  replace (N.eqb x nl) with false by (symmetry; apply N.eqb_neq; congruence).
  by rewrite IH.
Qed.

Lemma split_inclusive_unterminated l : nl ∉ l -> l <> [] -> split_inclusive nl l = [l].
Proof.
  induction l as [|x l IH]; intros Hl Hne; [done|]; simpl.
  apply not_elem_of_cons in Hl as [Hx Hl].
  replace (N.eqb x nl) with false by (symmetry; apply N.eqb_neq; congruence).
  destruct l as [|y l]; [done|]. by rewrite IH.
Qed.

(** Every string is a first line with its newline and the rest, or a last line. *)
Lemma line_ind (P : str -> Prop) :
  (forall l, nl ∉ l -> P l) ->
  (forall l s, nl ∉ l -> P s -> P (l ++ nl :: s)) ->
  forall s, P s.
Proof.
  intros Hlast Hline s. rewrite <- (join_split_on nl s).
  generalize (split_on_pieces nl s) (split_on_nonnil nl s).
  induction (split_on nl s) as [|l ls IH]; intros Hf Hne; [done|].
  apply Forall_cons in Hf as [Hl Hf].
  destruct ls as [|l' ls]; [by apply Hlast|].
  rewrite join_cons by done. apply Hline; [done|]. by apply IH.
Qed.

(** [split('\n')] against [split_inclusive('\n')]. *)
Lemma split_on_inclusive s :
  split_on nl s = map chomp (split_inclusive nl s) \/
  split_on nl s = map chomp (split_inclusive nl s) ++ [[]].
Proof.
  induction s as [l Hl|l s Hl IH] using line_ind.
  - rewrite split_on_free by done. destruct l as [|x l]; [by right|left].
    rewrite split_inclusive_unterminated by done. simpl. by rewrite chomp_free.
  - rewrite split_on_app, split_inclusive_free by done. simpl. rewrite chomp_nl.
    destruct IH as [-> | ->]; [by left|by right].
Qed.

(** ** The scanner follows the one-shot scan line by line *)

Definition line_is_header (p : ParsedLine) : bool :=
  negb (fence_eqb (fence_context p) Other)
    && is_some_and (table_candidate_text (text p)) is_table_header_line.

Definition nonblank (p : ParsedLine) : bool := negb (is_empty (trim (text p))).

Definition pending_of (ps : list ParsedLine) : option N :=
  match List.find nonblank (reverse ps) with
  | Some line => if line_is_header line then Some (source_start line) else None
  | None => None
  end.

Definition holdback_of (ps : list ParsedLine) : TableHoldbackState :=
  match first_confirmed ps, pending_of ps with
  | Some table_start, _ => Confirmed table_start
  | None, Some header_start => PendingHeader header_start
  | None, None => HoldbackNone
  end.

Definition remembered (p : ParsedLine) : PreviousLineState :=
  {| pl_source_start := source_start p; pl_fence_kind := fence_context p;
     pl_is_header := line_is_header p |}.

(** What the scanner knows after the lines [ps]. *)
Record tracks (sc : TableHoldbackScanner) (ps : list ParsedLine) : Prop := {
  tr_previous : previous_line sc = remembered <$> last ps;
  tr_confirmed : confirmed_table_start sc = first_confirmed ps;
  tr_pending : first_confirmed ps = None -> pending_header_start sc = pending_of ps
}.

Lemma table_holdback_state_eq source :
  table_holdback_state source = holdback_of (parse_lines_with_fence_state source).
Proof.
  unfold table_holdback_state, holdback_of, pending_of, line_is_header.
  destruct (first_confirmed _); [done|]. change (fun line => negb (is_empty (trim (text line)))) with nonblank.
  destruct (List.find _ _) as [p|]; [|done]. by case_match.
Qed.

Lemma first_confirmed_snoc ps x :
  first_confirmed (ps ++ [x]) =
  match first_confirmed ps with
  | Some n => Some n
  | None => match last ps with
            | Some p => if confirms p x then Some (source_start p) else None
            | None => None
            end
  end.
Proof.
  induction ps as [|p ps IH]; [done|].
  destruct ps as [|q ps]; [done|].
  change ((p :: q :: ps) ++ [x]) with (p :: q :: (ps ++ [x])).
  cbn [first_confirmed]. destruct (confirms p q); [done|]. exact IH.
Qed.

Lemma pending_of_snoc ps x :
  pending_of (ps ++ [x]) =
  if nonblank x then if line_is_header x then Some (source_start x) else None else pending_of ps.
Proof. unfold pending_of. rewrite reverse_snoc. simpl. by destruct (nonblank x). Qed.

Lemma confirms_eq p x :
  confirms p x = negb (fence_eqb (fence_context p) Other) && negb (fence_eqb (fence_context x) Other)
                   && line_is_header p
                   && is_some_and (table_candidate_text (text x)) is_table_delimiter_line.
Proof.
  unfold confirms, line_is_header.
  destruct (fence_eqb (fence_context p) Other), (fence_eqb (fence_context x) Other); simpl;
    rewrite ?andb_false_r; try done.
  destruct (table_candidate_text (text p)), (table_candidate_text (text x)); simpl;
    rewrite ?andb_false_r; done.
Qed.

Lemma tracks_state sc ps : tracks sc ps -> scanner_state sc = holdback_of ps.
Proof.
  intros [_ Hc Hp]. unfold scanner_state, holdback_of. rewrite Hc.
  destruct (first_confirmed ps); [done|]. by rewrite Hp.
Qed.

Lemma push_line_tracks sc ps source_line :
  tracks sc ps ->
  tracks (push_line sc source_line)
    (ps ++ [{| text := chomp source_line; fence_context := fence_kind (fence_tracker sc);
               source_start := source_offset sc |}]).
Proof.
  intros [Hprev Hconf Hpend]. unfold push_line. fold (chomp source_line).
  set (x := {| text := _ |}).
  assert (Hh : is_some_and (if fence_eqb (fence_kind (fence_tracker sc)) Other then None
                            else table_candidate_text (chomp source_line)) is_table_header_line
               = line_is_header x).
  { unfold line_is_header. simpl. by destruct (fence_eqb _ Other). }
  rewrite Hprev, Hconf, Hh.
  assert (Hcf : forall p, confirms p x =
     negb (fence_eqb (fence_context p) Other) && negb (fence_eqb (fence_kind (fence_tracker sc)) Other)
     && line_is_header p
     && is_some_and (if fence_eqb (fence_kind (fence_tracker sc)) Other then None
                     else table_candidate_text (chomp source_line)) is_table_delimiter_line).
  { intros p. rewrite confirms_eq. simpl. destruct (fence_eqb (fence_kind _) Other); simpl;
      by rewrite ?andb_false_r. }
  assert (Hhx : negb (fence_eqb (fence_kind (fence_tracker sc)) Other) && line_is_header x
                = line_is_header x).
  { unfold line_is_header. simpl. by destruct (fence_eqb _ Other). }
  split; simpl; rewrite ?last_snoc, ?first_confirmed_snoc, ?pending_of_snoc.
  all: destruct (first_confirmed ps) as [n|] eqn:Efc; simpl; try done.
  all: destruct (last ps) as [p|]; simpl; try done.
  all: try (rewrite <- Hcf; destruct (confirms p x); simpl; try done).
  all: intros _; rewrite Hhx; unfold nonblank; simpl; rewrite Hpend by done; done.
Qed.

Lemma sat_add_succ a b : sat_add a (b + 1) = sat_add (sat_add a b) 1.
Proof. unfold sat_add, USIZE_MAX. lia. Qed.

Lemma push_line_tracker sc source_line :
  fence_tracker (push_line sc source_line) = fence_advance (fence_tracker sc) (chomp source_line).
Proof. unfold push_line. by destruct (match confirmed_table_start sc with Some _ => _ | None => _ end). Qed.

Lemma push_line_offset sc l :
  source_offset (push_line sc (l ++ [nl])) = sat_add (sat_add (source_offset sc) (byte_len l)) 1.
Proof.
  rewrite <- sat_add_succ. change 1%N with (byte_len [nl]). rewrite <- byte_len_app.
  unfold push_line. by destruct (match confirmed_table_start sc with Some _ => _ | None => _ end).
Qed.

Lemma push_lines_track source sc ps :
  tracks sc ps ->
  tracks (fold_left push_line (split_inclusive nl source) sc)
    (ps ++ parse_lines_from (fence_tracker sc) (source_offset sc)
             (map chomp (split_inclusive nl source))).
Proof.
  revert sc ps. induction source as [l Hl|l s Hl IH] using line_ind; intros sc ps Ht.
  - destruct l as [|c l]; [by rewrite app_nil_r|].
    rewrite split_inclusive_unterminated by done. by apply push_line_tracks.
  - rewrite split_inclusive_free by done. simpl.
    apply (push_line_tracks _ _ (l ++ [nl])) in Ht. apply IH in Ht.
    rewrite <- app_assoc, push_line_offset, push_line_tracker, chomp_nl in Ht. by rewrite chomp_nl.
Qed.

Lemma parse_lines_from_app tr off a b :
  exists tr' off', parse_lines_from tr off (a ++ b) =
    parse_lines_from tr off a ++ parse_lines_from tr' off' b.
Proof.
  revert tr off; induction a as [|l a IH]; intros tr off; simpl; [by eauto|].
  destruct (IH (fence_advance tr l) (sat_add (sat_add off (byte_len l)) 1)) as (tr' & off' & ->).
  eauto.
Qed.

(** The empty piece after a final newline changes nothing. *)
Lemma holdback_of_blank ps k n :
  holdback_of (ps ++ [{| text := []; fence_context := k; source_start := n |}]) = holdback_of ps.
Proof.
  unfold holdback_of. rewrite first_confirmed_snoc, pending_of_snoc. simpl.
  destruct (first_confirmed ps); [done|]. destruct (last ps) as [p|]; [|done].
  rewrite confirms_eq. cbn [text]. by rewrite table_candidate_text_nil, andb_false_r.
Qed.

Lemma scanner_whole source :
  scanner_state (fold_left push_line (split_inclusive nl source) scanner_new)
  = table_holdback_state source.
Proof.
  rewrite table_holdback_state_eq. unfold parse_lines_with_fence_state.
  rewrite (tracks_state _ _ (push_lines_track source scanner_new []
             (Build_tracks scanner_new [] eq_refl eq_refl (fun _ => eq_refl)))).
  simpl. destruct (split_on_inclusive source) as [-> | ->]; [done|].
  destruct (parse_lines_from_app fence_new 0 (map chomp (split_inclusive nl source)) [[]])
    as (tr' & off' & ->).
  simpl. by rewrite holdback_of_blank.
Qed.

Lemma push_source_chunk_fold sc c :
  push_source_chunk sc c = fold_left push_line (split_inclusive nl c) sc.
Proof. by destruct c. Qed.

Lemma push_source_chunks sc chunks rest :
  Forall newline_terminated chunks ->
  push_source_chunk (fold_left push_source_chunk chunks sc) rest
  = fold_left push_line (split_inclusive nl (mjoin chunks ++ rest)) sc.
Proof.
  intros Hc; revert sc; induction Hc as [|c chunks Hc _ IH]; intros sc; simpl.
  - apply push_source_chunk_fold.
  - rewrite IH, <- app_assoc. rewrite (split_inclusive_app c) by done.
    by rewrite fold_left_app, (push_source_chunk_fold sc c).
Qed.

(** ** Properties *)

(** However the source is cut into newline-terminated chunks (and a last
    chunk that may lack its newline), the incremental holdback scanner of the
    stream controllers ends in the state the one-shot scan
    [table_holdback_state] computes from the whole source: the same table or
    pending header, at the same byte offset. *)
Theorem holdback_scanner_equivalent chunks rest :
  Forall newline_terminated chunks ->
  scanner_state (push_source_chunk (fold_left push_source_chunk chunks scanner_new) rest)
  = table_holdback_state (mjoin chunks ++ rest).
Proof. intros Hc. rewrite push_source_chunks by done. apply scanner_whole. Qed.

Lemma holdback_scanner_equivalent_witness :
  Forall newline_terminated
    [s! "intro" ++ [nl]; s! "> | a | b |" ++ [nl]; s! "> | --- | :---: |" ++ [nl]] /\
  scanner_state (push_source_chunk (fold_left push_source_chunk
    [s! "intro" ++ [nl]; s! "> | a | b |" ++ [nl]; s! "> | --- | :---: |" ++ [nl]] scanner_new)
    (s! "> | 1 |")) = Confirmed 6.
Proof.
  assert (Forall newline_terminated
    [s! "intro" ++ [nl]; s! "> | a | b |" ++ [nl]; s! "> | --- | :---: |" ++ [nl]]).
  { repeat apply Forall_cons_2; [right; by eexists..|apply Forall_nil_2]. }
  split; [done|]. rewrite holdback_scanner_equivalent by done. vm_compute. reflexivity.
Defined.
