(* ===== verification/StreamChunking.v ===== *)
(** Adaptive chunking of streamed lines: [tui/src/streaming/chunking.rs].

    [AdaptiveChunkingPolicy] decides, from the depth of the queue of committed
    lines and the age of its oldest one, whether a commit tick drains one line
    ([Smooth]) or the whole backlog ([CatchUp]).  Instants and durations are
    nanoseconds; [saturating_duration_since] is the truncated subtraction.  The
    theorem unfolds the hysteresis over whole sequences of decisions. *)
From S2P Require Import Prelude RustStr.
Open Scope dcode_scope.

Abbreviation Instant := N.
Abbreviation Duration := N.

Definition from_millis (ms : N) : Duration := (ms * 1000000)%N.
Definition saturating_duration_since (now since : Instant) : Duration := (now - since)%N.

Definition ENTER_QUEUE_DEPTH_LINES : N := 8.
Definition ENTER_OLDEST_AGE : Duration := from_millis 120.
Definition EXIT_QUEUE_DEPTH_LINES : N := 2.
Definition EXIT_OLDEST_AGE : Duration := from_millis 40.
Definition EXIT_HOLD : Duration := from_millis 250.
Definition REENTER_CATCH_UP_HOLD : Duration := from_millis 250.
Definition SEVERE_QUEUE_DEPTH_LINES : N := 64.
Definition SEVERE_OLDEST_AGE : Duration := from_millis 300.

Inductive ChunkingMode := Smooth | CatchUp.

#[global] Instance ChunkingMode_eq_dec : EqDecision ChunkingMode.
Proof. solve_decision. Defined.

Record QueueSnapshot := { queued_lines : N; oldest_age : option Duration }.

Inductive DrainPlan := Single | Batch (max_lines : N).

Record ChunkingDecision := {
  decision_mode : ChunkingMode;
  entered_catch_up : bool;
  drain_plan : DrainPlan
}.

Record AdaptiveChunkingPolicy := {
  mode : ChunkingMode;
  below_exit_threshold_since : option Instant;
  last_catch_up_exit_at : option Instant
}.

Definition policy_default : AdaptiveChunkingPolicy :=
  {| mode := Smooth; below_exit_threshold_since := None; last_catch_up_exit_at := None |}.

Definition policy_reset (_ : AdaptiveChunkingPolicy) : AdaptiveChunkingPolicy := policy_default.

Definition age_at_least (age : option Duration) (d : Duration) : bool :=
  match age with Some oldest => (d <=? oldest)%N | None => false end.

Definition should_enter_catch_up (snapshot : QueueSnapshot) : bool :=
  (ENTER_QUEUE_DEPTH_LINES <=? queued_lines snapshot)%N
    || age_at_least (oldest_age snapshot) ENTER_OLDEST_AGE.

Definition should_exit_catch_up (snapshot : QueueSnapshot) : bool :=
  (queued_lines snapshot <=? EXIT_QUEUE_DEPTH_LINES)%N
    && match oldest_age snapshot with
       | Some oldest => (oldest <=? EXIT_OLDEST_AGE)%N
       | None => false
       end.

Definition is_severe_backlog (snapshot : QueueSnapshot) : bool :=
  (SEVERE_QUEUE_DEPTH_LINES <=? queued_lines snapshot)%N
    || age_at_least (oldest_age snapshot) SEVERE_OLDEST_AGE.

Definition reentry_hold_active (p : AdaptiveChunkingPolicy) (now : Instant) : bool :=
  match last_catch_up_exit_at p with
  | Some exit => (saturating_duration_since now exit <? REENTER_CATCH_UP_HOLD)%N
  | None => false
  end.

Definition note_catch_up_exit (p : AdaptiveChunkingPolicy) (now : Instant) : AdaptiveChunkingPolicy :=
  match mode p with
  | CatchUp => {| mode := mode p; below_exit_threshold_since := below_exit_threshold_since p;
                  last_catch_up_exit_at := Some now |}
  | Smooth => p
  end.

Definition maybe_enter_catch_up (p : AdaptiveChunkingPolicy) (snapshot : QueueSnapshot) (now : Instant)
  : AdaptiveChunkingPolicy * bool :=
  if negb (should_enter_catch_up snapshot) then (p, false)
  else if reentry_hold_active p now && negb (is_severe_backlog snapshot) then (p, false)
  else ({| mode := CatchUp; below_exit_threshold_since := None; last_catch_up_exit_at := None |}, true).

Definition maybe_exit_catch_up (p : AdaptiveChunkingPolicy) (snapshot : QueueSnapshot) (now : Instant)
  : AdaptiveChunkingPolicy :=
  if negb (should_exit_catch_up snapshot) then
    {| mode := mode p; below_exit_threshold_since := None;
       last_catch_up_exit_at := last_catch_up_exit_at p |}
  else match below_exit_threshold_since p with
       | Some since =>
           if (EXIT_HOLD <=? saturating_duration_since now since)%N then
             {| mode := Smooth; below_exit_threshold_since := None;
                last_catch_up_exit_at := Some now |}
           else p
       | None =>
           {| mode := mode p; below_exit_threshold_since := Some now;
              last_catch_up_exit_at := last_catch_up_exit_at p |}
       end.

Definition decide_chunking (p : AdaptiveChunkingPolicy) (snapshot : QueueSnapshot) (now : Instant)
  : AdaptiveChunkingPolicy * ChunkingDecision :=
  if (queued_lines snapshot =? 0)%N then
    let p := note_catch_up_exit p now in
    let p := {| mode := Smooth; below_exit_threshold_since := None;
                last_catch_up_exit_at := last_catch_up_exit_at p |} in
    (p, {| decision_mode := mode p; entered_catch_up := false; drain_plan := Single |})
  else
    let '(p, entered) :=
      match mode p with
      | Smooth => maybe_enter_catch_up p snapshot now
      | CatchUp => (maybe_exit_catch_up p snapshot now, false)
      end in
    let plan := match mode p with
                | Smooth => Single
                | CatchUp => Batch (N.max (queued_lines snapshot) 1)
                end in
    (p, {| decision_mode := mode p; entered_catch_up := entered; drain_plan := plan |}).

(** ** Sequences of decisions *)

(** The policy after the decisions on the snapshots of [obs], in order. *)
Definition after (p : AdaptiveChunkingPolicy) (obs : list (QueueSnapshot * Instant))
  : AdaptiveChunkingPolicy :=
  fold_left (fun p '(snapshot, now) => fst (decide_chunking p snapshot now)) obs p.

(** A decision taken under low pressure: lines are queued, few and young. *)
Definition calm (o : QueueSnapshot * Instant) : Prop :=
  queued_lines (fst o) <> 0%N /\ should_exit_catch_up (fst o) = true.

(** The last decisions of [obs] were all calm, the first of them at [since]. *)
Definition calm_since (since : Instant) (obs : list (QueueSnapshot * Instant)) : Prop :=
  exists earlier first later, obs = earlier ++ first :: later /\ snd first = since /\
    Forall calm (first :: later).

(** The instant of the last step from [CatchUp] to [Smooth]. *)
Definition exit_step (st : AdaptiveChunkingPolicy * option Instant) (o : QueueSnapshot * Instant)
  : AdaptiveChunkingPolicy * option Instant :=
  let p' := fst (decide_chunking (fst st) (fst o) (snd o)) in
  (p', match mode (fst st), mode p' with CatchUp, Smooth => Some (snd o) | _, _ => snd st end).

Definition last_exit (obs : list (QueueSnapshot * Instant)) : option Instant :=
  snd (fold_left exit_step obs (policy_default, None)).

Lemma after_snoc p obs o :
  after p (obs ++ [o]) = fst (decide_chunking (after p obs) (fst o) (snd o)).
Proof. unfold after. rewrite fold_left_app. by destruct o. Qed.

Lemma calm_since_start o obs : calm o -> calm_since (snd o) (obs ++ [o]).
Proof. intros Ho. exists obs, o, []. auto using Forall_cons_2, Forall_nil_2. Qed.

Lemma calm_since_snoc since obs o : calm_since since obs -> calm o -> calm_since since (obs ++ [o]).
Proof.
  intros (e & f & l & -> & <- & Hf) Ho. exists e, f, (l ++ [o]).
  rewrite <- app_assoc, app_comm_cons. split_and!; [done..|]. by apply Forall_app_2, Forall_singleton.
Qed.

(** What the state remembers of the decisions taken so far. *)
Record policy_inv (obs : list (QueueSnapshot * Instant)) (p : AdaptiveChunkingPolicy) : Prop := {
  inv_calm : forall since, below_exit_threshold_since p = Some since -> calm_since since obs;
  inv_smooth : mode p = Smooth -> below_exit_threshold_since p = None;
  inv_exit : mode p = CatchUp -> last_catch_up_exit_at p = None
}.

Lemma decide_cases p snapshot now :
  let '(p', d) := decide_chunking p snapshot now in
  decision_mode d = mode p' /\
  (entered_catch_up d = true <-> mode p = Smooth /\ mode p' = CatchUp) /\
  drain_plan d = match mode p' with Smooth => Single | CatchUp => Batch (queued_lines snapshot) end.
Proof.
  unfold decide_chunking, maybe_enter_catch_up, maybe_exit_catch_up.
  destruct (N.eqb_spec (queued_lines snapshot) 0) as [Hz|Hz]; simpl; [naive_solver|].
  replace (N.max (queued_lines snapshot) 1) with (queued_lines snapshot) by lia.
  repeat case_match; simplify_eq/=; naive_solver congruence.
Qed.

Lemma policy_inv_step obs p snapshot now :
  policy_inv obs p -> policy_inv (obs ++ [(snapshot, now)]) (fst (decide_chunking p snapshot now)).
Proof.
  intros [Hc Hs He]. unfold decide_chunking, maybe_enter_catch_up, maybe_exit_catch_up.
  destruct (N.eqb_spec (queued_lines snapshot) 0) as [Hz|Hz]; [by split|].
  destruct (mode p) eqn:Em.
  - specialize (Hs eq_refl).
    assert (policy_inv (obs ++ [(snapshot, now)]) p) by (split; congruence).
    repeat case_match; simplify_eq/=; [done..|by split].
  - destruct (should_exit_catch_up snapshot) eqn:Ex; simpl; [|by split; simpl; auto; congruence].
    assert (calm (snapshot, now)) by done.
    destruct (below_exit_threshold_since p) as [since|] eqn:Eb; [case_match|];
      split; simpl; intros; simplify_eq; try done; try congruence; auto.
    + simplify_eq. eauto using calm_since_snoc.
    + by apply (calm_since_start (_, _)).
Qed.

Lemma last_exit_snoc obs o :
  last_exit (obs ++ [o]) =
  match mode (after policy_default obs), mode (after policy_default (obs ++ [o])) with
  | CatchUp, Smooth => Some (snd o)
  | _, _ => last_exit obs
  end.
Proof.
  unfold last_exit. rewrite after_snoc, fold_left_app. cbn [fold_left].
  assert (Hf : forall st, fst (fold_left exit_step obs st) = after (fst st) obs).
  { induction obs as [|[s n] obs IH]; intros st; [done|]. simpl. by rewrite IH. }
  unfold exit_step at 1. by rewrite Hf.
Qed.

(** In smooth mode the state remembers when catch-up mode was last left. *)
Lemma last_exit_after obs :
  mode (after policy_default obs) = Smooth ->
  last_catch_up_exit_at (after policy_default obs) = last_exit obs.
Proof.
  induction obs as [|o obs IH] using rev_ind; [done|].
  rewrite last_exit_snoc, after_snoc. destruct o as [snapshot now]; simpl.
  unfold decide_chunking, maybe_enter_catch_up, maybe_exit_catch_up, note_catch_up_exit.
  destruct (mode (after policy_default obs)) eqn:Em; repeat case_match; simplify_eq/=; try congruence; auto.
Qed.

Lemma policy_inv_after obs : policy_inv obs (after policy_default obs).
Proof.
  induction obs as [|o obs IH] using rev_ind; [by split|].
  rewrite after_snoc. destruct o. by apply policy_inv_step.
Qed.

(** ** Properties *)

(** Over any sequence of decisions from a fresh policy, the plan drains
    one line in smooth mode and the whole backlog in catch-up mode, and the
    one-shot flag marks exactly the entry; catch-up mode is left only when
    nothing is queued or when every decision of the last 250 ms or more saw at
    most 2 lines no older than 40 ms; it is entered only under the entry
    thresholds, and within 250 ms of the last exit only for a severe backlog. *)
Theorem chunking_hysteresis obs snapshot now :
  let p := after policy_default obs in
  let '(p', d) := decide_chunking p snapshot now in
  (drain_plan d = match mode p' with Smooth => Single | CatchUp => Batch (queued_lines snapshot) end) /\
  (entered_catch_up d = true <-> mode p = Smooth /\ mode p' = CatchUp) /\
  (mode p = CatchUp /\ mode p' = Smooth ->
     queued_lines snapshot = 0%N \/
     exists since, calm_since since (obs ++ [(snapshot, now)]) /\ (since + EXIT_HOLD <= now)%N) /\
  (mode p = Smooth /\ mode p' = CatchUp ->
     should_enter_catch_up snapshot = true /\
     (is_severe_backlog snapshot = true \/
      forall exit, last_exit obs = Some exit -> (exit + REENTER_CATCH_UP_HOLD <= now)%N)).
Proof.
  intros p. pose proof (decide_cases p snapshot now) as Hd.
  pose proof (policy_inv_after obs) as Hinv. pose proof (last_exit_after obs) as Hle.
  fold p in Hinv, Hle.
  destruct (decide_chunking p snapshot now) as [p' d] eqn:E. destruct Hd as (_ & Hen & Hpl).
  split_and!; [done..| |].
  - intros [Hm Hm']. destruct (N.eq_dec (queued_lines snapshot) 0) as [Hz|Hz]; [by left|right].
    revert E. unfold decide_chunking, maybe_exit_catch_up. rewrite Hm.
    destruct (N.eqb_spec (queued_lines snapshot) 0); [done|].
    destruct (should_exit_catch_up snapshot) eqn:Ex; simpl; [|intros; simplify_eq/=; congruence].
    destruct (below_exit_threshold_since p) as [since|] eqn:Eb; [|intros; simplify_eq/=; congruence].
    unfold saturating_duration_since.
    destruct (N.leb_spec EXIT_HOLD (now - since)); [|intros; simplify_eq/=; congruence].
    intros _. exists since. split; [|unfold EXIT_HOLD, from_millis in *; lia].
    apply calm_since_snoc; [by apply (inv_calm _ _ Hinv)|done].
  - intros [Hm Hm']. revert E. unfold decide_chunking, maybe_enter_catch_up. rewrite Hm.
    destruct (N.eqb_spec (queued_lines snapshot) 0); [intros; simplify_eq/=; congruence|].
    destruct (should_enter_catch_up snapshot); simpl; [|intros; simplify_eq/=; congruence].
    destruct (is_severe_backlog snapshot); [by auto|].
    destruct (reentry_hold_active p now) eqn:Er; simpl; [intros; simplify_eq/=; congruence|].
    intros _. split; [done|right]. intros exit Hexit. rewrite <- Hle in Hexit by done.
    unfold reentry_hold_active, saturating_duration_since in Er. rewrite Hexit in Er.
    apply N.ltb_ge in Er. unfold REENTER_CATCH_UP_HOLD, from_millis in *. lia.
Qed.
