(* ===== verification/StreamCore.v ===== *)
(** Streamed markdown in the terminal UI: [tui/src/markdown_stream.rs],
    [tui/src/streaming/mod.rs], [render.rs], [controller.rs] and
    [commit_tick.rs].

    A stream is a buffer of source ([MarkdownStreamCollector]) whose
    newline-terminated prefix is rendered into lines ([StreamingRender]); the
    lines of the stable region go through a queue ([StreamState]) into the
    scrollback, a tail that a table may still reshape stays back ([StreamCore]).
    [StreamController] and [PlanStreamController] wrap the core, and
    [run_commit_tick] drains both under the chunking policy.

    The markdown renderer is the interface [Renderer]: the two render functions
    the stream calls, and the line values of the terminal library.  A slice out
    of range or off a character boundary is a panic, the value [None]; line
    counts are [nat], byte offsets [N].  [now] stands for [Instant::now()] at
    each enqueue. *)
From S2P Require Import Prelude RustStr Truncate TableDetect StreamChunking.
Open Scope dcode_scope.

(** ** Lines and the renderer *)

Inductive DestinationKind := Web | TrustedFile.

Record TerminalHyperlink := {
  columns : N * N;
  destination : str;
  destination_kind : DestinationKind
}.

Record HyperlinkLineOf (Line : Type) := hyperlink_line {
  hl_line : Line;
  hl_hyperlinks : list TerminalHyperlink
}.
Arguments hyperlink_line {_} _ _.

Record StreamingMarkdownRenderOf (Line : Type) := {
  smr_lines : list (HyperlinkLineOf Line);
  smr_has_reference_link_definition : bool;
  smr_last_top_level_block_start : option N;
  smr_first_top_level_block_is_html : bool
}.
Arguments smr_lines {_} _.
Arguments smr_has_reference_link_definition {_} _.
Arguments smr_last_top_level_block_start {_} _.
Arguments smr_first_top_level_block_is_html {_} _.

(** What the stream uses of the terminal library and the markdown renderer. *)
Class Renderer := {
  Line : Type;
  line_from : str -> Line;
  line_default : Line;
  (** [prefix_hyperlink_lines(_, "  ", "  ")] and [proposed_plan_style], per line. *)
  plan_style_line : HyperlinkLineOf Line -> HyperlinkLineOf Line;
  plan_title : Line;
  InlineVisualizationContext : Type;
  render_markdown_agent_with_links_cwd_and_visualizations :
    str -> option N -> str -> option InlineVisualizationContext -> list (HyperlinkLineOf Line);
  render_streaming_markdown_agent_with_links_and_cwd :
    str -> option N -> str -> StreamingMarkdownRenderOf Line
}.

(** The parser reports block starts as offsets of characters of its input. *)
Class LawfulRenderer `{Renderer} : Prop := {
  block_start_on_boundary : forall source width cwd boundary,
    smr_last_top_level_block_start
      (render_streaming_markdown_agent_with_links_and_cwd source width cwd) = Some boundary ->
    is_Some (split_at_byte boundary source)
}.

(** ** [markdown_stream.rs]: the collector *)

Record MarkdownStreamCollector := {
  buffer : str;
  committed_source_len : N;
  collector_width : option N
}.

Definition collector_new (width : option N) : MarkdownStreamCollector :=
  {| buffer := []; committed_source_len := 0; collector_width := width |}.

Definition collector_set_width (c : MarkdownStreamCollector) (width : option N) :=
  {| buffer := buffer c; committed_source_len := committed_source_len c; collector_width := width |}.

Definition collector_clear (c : MarkdownStreamCollector) : MarkdownStreamCollector :=
  {| buffer := []; committed_source_len := 0; collector_width := collector_width c |}.

Definition collector_push_delta (c : MarkdownStreamCollector) (delta : str) : MarkdownStreamCollector :=
  {| buffer := buffer c ++ delta; committed_source_len := committed_source_len c;
     collector_width := collector_width c |}.

Definition commit_complete_source (c : MarkdownStreamCollector)
  : MarkdownStreamCollector * option (N * N) :=
  match rsplit_once nl (buffer c) with
  | None => (c, None)
  | Some (before, _) =>
      let commit_end := (byte_len before + 1)%N in
      let commit_start := committed_source_len c in
      if (commit_end <=? commit_start)%N then (c, None)
      else ({| buffer := buffer c; committed_source_len := commit_end;
               collector_width := collector_width c |}, Some (commit_start, commit_end))
  end.

Definition str_to (s : str) (n : N) : option str := fst <$> split_at_byte n s.
Definition str_from (s : str) (n : N) : option str := snd <$> split_at_byte n s.

Definition committed_source (c : MarkdownStreamCollector) : option str :=
  str_to (buffer c) (committed_source_len c).

Definition finalize_and_take_source (c : MarkdownStreamCollector) : MarkdownStreamCollector * str :=
  let out := buffer c in
  let out := if negb (is_empty out) && negb (ends_with [nl] out) then out ++ [nl] else out in
  (collector_clear c, out).

(** [&v[a..b]] *)
Definition slice {A} (v : list A) (a b : nat) : option (list A) :=
  if (a <=? b)%nat && (b <=? length v)%nat then Some (take (b - a) (drop a v)) else None.

Inductive HistoryRenderMode := Rich | Raw.

#[global] Instance HistoryRenderMode_eq_dec : EqDecision HistoryRenderMode.
Proof. solve_decision. Defined.

Definition raw_lines_of (source : str) : list str :=
  if is_empty source then []
  else
    let parts := split_on nl source in
    if ends_with [nl] source then removelast parts else parts.

Definition DIRECTIVE_PREFIX : str := s! "::codex-inline-vis{".

Section Stream.
Context `{R : Renderer}.

Abbreviation HyperlinkLine := (HyperlinkLineOf Line).

Definition hyperlink_line_new (l : Line) : HyperlinkLine := hyperlink_line l [].

Definition raw_lines_from_source (source : str) : list Line := map line_from (raw_lines_of source).
Definition plain_hyperlink_lines (lines : list Line) : list HyperlinkLine := map hyperlink_line_new lines.

(** ** [streaming/mod.rs]: the queue *)

Record QueuedLine := { q_line : HyperlinkLine; enqueued_at : Instant }.

Record StreamState := {
  collector : MarkdownStreamCollector;
  queue : list QueuedLine;
  has_seen_delta : bool
}.

Definition state_new (width : option N) : StreamState :=
  {| collector := collector_new width; queue := []; has_seen_delta := false |}.

Definition state_clear (s : StreamState) : StreamState :=
  {| collector := collector_clear (collector s); queue := []; has_seen_delta := false |}.

Definition with_queue (s : StreamState) (q : list QueuedLine) : StreamState :=
  {| collector := collector s; queue := q; has_seen_delta := has_seen_delta s |}.

Definition state_step (s : StreamState) : StreamState * list HyperlinkLine :=
  match queue s with
  | [] => (s, [])
  | queued :: rest => (with_queue s rest, [q_line queued])
  end.

Definition drain_n (s : StreamState) (max_lines : N) : StreamState * list HyperlinkLine :=
  let e := Nat.min (N.to_nat max_lines) (length (queue s)) in
  (with_queue s (drop e (queue s)), map q_line (take e (queue s))).

Definition state_clear_queue (s : StreamState) : StreamState := with_queue s [].
Definition state_is_idle (s : StreamState) : bool := is_empty (queue s).
Definition queued_len (s : StreamState) : nat := length (queue s).

Definition state_oldest_queued_age (s : StreamState) (now : Instant) : option Duration :=
  (fun queued => saturating_duration_since now (enqueued_at queued)) <$> head (queue s).

Definition enqueue (s : StreamState) (lines : list HyperlinkLine) (now : Instant) : StreamState :=
  with_queue s (queue s ++ map (fun line => {| q_line := line; enqueued_at := now |}) lines).

(** ** [streaming/render.rs]: incremental rendering *)

Record StreamingRender := {
  sr_lines : list HyperlinkLine;
  stable_source_len : N;
  stable_rendered_len : nat;
  has_reference_link_definition : bool;
  has_inline_visualization_directive : bool
}.

Definition render_new : StreamingRender :=
  {| sr_lines := []; stable_source_len := 0; stable_rendered_len := 0;
     has_reference_link_definition := false; has_inline_visualization_directive := false |}.

Definition render_clear (_ : StreamingRender) : StreamingRender := render_new.

Definition render_source (source : str) (width : option N) (cwd : str) (render_mode : HistoryRenderMode)
    (ctx : option InlineVisualizationContext) : list HyperlinkLine :=
  match render_mode with
  | Rich => render_markdown_agent_with_links_cwd_and_visualizations source width cwd ctx
  | Raw => plain_hyperlink_lines (raw_lines_from_source source)
  end.

Definition recompute (source : str) (width : option N) (cwd : str) (render_mode : HistoryRenderMode)
    (ctx : option InlineVisualizationContext) : StreamingRender :=
  let has_directive := contains_str DIRECTIVE_PREFIX source in
  let '(lines, has_ref) :=
    match render_mode, ctx, has_directive with
    | Rich, None, false =>
        let rendered := render_streaming_markdown_agent_with_links_and_cwd source width cwd in
        (smr_lines rendered, smr_has_reference_link_definition rendered)
    | _, _, _ => (render_source source width cwd render_mode ctx, false)
    end in
  {| sr_lines := lines; stable_source_len := 0; stable_rendered_len := 0;
     has_reference_link_definition := has_ref; has_inline_visualization_directive := has_directive |}.

Definition render_append (r : StreamingRender) (raw_source committed : str) (width : option N)
    (cwd : str) (render_mode : HistoryRenderMode) (ctx : option InlineVisualizationContext)
  : option StreamingRender :=
  match render_mode with
  | Raw =>
      Some {| sr_lines := sr_lines r ++ plain_hyperlink_lines (raw_lines_from_source committed);
              stable_source_len := stable_source_len r; stable_rendered_len := stable_rendered_len r;
              has_reference_link_definition := has_reference_link_definition r;
              has_inline_visualization_directive := has_inline_visualization_directive r |}
  | Rich =>
      if has_inline_visualization_directive r || contains_str DIRECTIVE_PREFIX committed then
        Some (recompute raw_source width cwd render_mode ctx)
      else if has_reference_link_definition r then
        Some (recompute raw_source width cwd render_mode ctx)
      else
        pending_source ← str_from raw_source (stable_source_len r);
        let pending := render_streaming_markdown_agent_with_links_and_cwd pending_source width cwd in
        if smr_has_reference_link_definition pending then
          Some (recompute raw_source width cwd render_mode ctx)
        else
          '(source_len, newly_stable_rendered_len) ←
            match smr_last_top_level_block_start pending with
            | None => Some (stable_source_len r, None)
            | Some boundary =>
                newly_stable_source ← str_to pending_source boundary;
                let newly_stable := render_source newly_stable_source width cwd render_mode ctx in
                Some ((stable_source_len r + boundary)%N, Some (length newly_stable))
            end;
          let lines := take (stable_rendered_len r) (sr_lines r) in
          let lines :=
            if negb (is_empty lines)
                 && (negb (is_empty (smr_lines pending)) || negb (is_empty (trim pending_source)))
                 && negb (smr_first_top_level_block_is_html pending)
            then lines ++ [hyperlink_line_new line_default] else lines in
          let pending_render_start := length lines in
          Some {| sr_lines := lines ++ smr_lines pending;
                  stable_source_len := source_len;
                  stable_rendered_len :=
                    match newly_stable_rendered_len with
                    | Some n => pending_render_start + n
                    | None => stable_rendered_len r
                    end;
                  has_reference_link_definition := false;
                  has_inline_visualization_directive := false |}
  end.

(** ** [controller.rs]: the core *)

Record StablePrefixLenCache := {
  cache_source_start : N;
  cache_width : option N;
  cache_stable_prefix_len : nat
}.

Record StreamCore := {
  state : StreamState;
  width : option N;
  render : StreamingRender;
  enqueued_stable_len : nat;
  emitted_stable_len : nat;
  cwd : str;
  inline_visualization_context : option InlineVisualizationContext;
  render_mode : HistoryRenderMode;
  stable_prefix_len_cache : option StablePrefixLenCache;
  holdback_scanner : TableHoldbackScanner
}.

Definition core_new (w : option N) (dir : str) (m : HistoryRenderMode)
    (ctx : option InlineVisualizationContext) : StreamCore :=
  {| state := state_new w; width := w; render := render_new; enqueued_stable_len := 0;
     emitted_stable_len := 0; cwd := dir; inline_visualization_context := ctx; render_mode := m;
     stable_prefix_len_cache := None; holdback_scanner := scanner_new |}.

(** Field updates. *)
Definition set_state (c : StreamCore) (s : StreamState) : StreamCore :=
  {| state := s; width := width c; render := render c; enqueued_stable_len := enqueued_stable_len c;
     emitted_stable_len := emitted_stable_len c; cwd := cwd c;
     inline_visualization_context := inline_visualization_context c; render_mode := render_mode c;
     stable_prefix_len_cache := stable_prefix_len_cache c; holdback_scanner := holdback_scanner c |}.

Definition set_counts (c : StreamCore) (enqueued emitted : nat) : StreamCore :=
  {| state := state c; width := width c; render := render c; enqueued_stable_len := enqueued;
     emitted_stable_len := emitted; cwd := cwd c;
     inline_visualization_context := inline_visualization_context c; render_mode := render_mode c;
     stable_prefix_len_cache := stable_prefix_len_cache c; holdback_scanner := holdback_scanner c |}.

Definition set_render (c : StreamCore) (r : StreamingRender) (sc : TableHoldbackScanner) : StreamCore :=
  {| state := state c; width := width c; render := r; enqueued_stable_len := enqueued_stable_len c;
     emitted_stable_len := emitted_stable_len c; cwd := cwd c;
     inline_visualization_context := inline_visualization_context c; render_mode := render_mode c;
     stable_prefix_len_cache := stable_prefix_len_cache c; holdback_scanner := sc |}.

Definition set_layout (c : StreamCore) (w : option N) (m : HistoryRenderMode) (s : StreamState)
  : StreamCore :=
  {| state := s; width := w; render := render c; enqueued_stable_len := enqueued_stable_len c;
     emitted_stable_len := emitted_stable_len c; cwd := cwd c;
     inline_visualization_context := inline_visualization_context c; render_mode := m;
     stable_prefix_len_cache := stable_prefix_len_cache c; holdback_scanner := holdback_scanner c |}.

Definition set_cache (c : StreamCore) (k : StablePrefixLenCache) : StreamCore :=
  {| state := state c; width := width c; render := render c;
     enqueued_stable_len := enqueued_stable_len c;
     emitted_stable_len := emitted_stable_len c; cwd := cwd c;
     inline_visualization_context := inline_visualization_context c; render_mode := render_mode c;
     stable_prefix_len_cache := Some k; holdback_scanner := holdback_scanner c |}.

Definition core_is_idle (c : StreamCore) : bool := state_is_idle (state c).
Definition core_queued_lines (c : StreamCore) : nat := queued_len (state c).
Definition core_oldest_queued_age (c : StreamCore) (now : Instant) : option Duration :=
  state_oldest_queued_age (state c) now.

Definition current_tail_lines (c : StreamCore) : list HyperlinkLine :=
  drop (Nat.min (enqueued_stable_len c) (length (sr_lines (render c)))) (sr_lines (render c)).

Definition has_tail (c : StreamCore) : bool :=
  (enqueued_stable_len c <? length (sr_lines (render c)))%nat.

Definition stable_prefix_len_for_source_start (c : StreamCore) (source_start : N)
  : option (StreamCore * nat) :=
  let miss :=
    source ← committed_source (collector (state c));
    prefix ← str_to source (N.min source_start (byte_len source));
    let n := length (render_markdown_agent_with_links_cwd_and_visualizations prefix (width c) (cwd c)
                       (inline_visualization_context c)) in
    Some (set_cache c {| cache_source_start := source_start; cache_width := width c;
                         cache_stable_prefix_len := n |}, n) in
  match stable_prefix_len_cache c with
  | Some cache =>
      if (cache_source_start cache =? source_start)%N && bool_decide (cache_width cache = width c)
      then Some (c, cache_stable_prefix_len cache) else miss
  | None => miss
  end.

Definition tail_budget_from_source_start (c : StreamCore) (source_start : N)
  : option (StreamCore * nat) :=
  if (source_start =? 0)%N then Some (c, length (sr_lines (render c)))
  else
    source ← committed_source (collector (state c));
    let source_start := N.min source_start (byte_len source) in
    '(c, stable_prefix_len) ← stable_prefix_len_for_source_start c source_start;
    Some (c, length (sr_lines (render c)) - stable_prefix_len)%nat.

Definition active_tail_budget_lines (c : StreamCore) : option (StreamCore * nat) :=
  match render_mode c with
  | Raw => Some (c, 0%nat)
  | Rich =>
      match scanner_state (holdback_scanner c) with
      | Confirmed start | PendingHeader start => tail_budget_from_source_start c start
      | HoldbackNone => Some (c, 0%nat)
      end
  end.

Definition compute_target_stable_len (c : StreamCore) : option (StreamCore * nat) :=
  '(c, tail_budget) ← active_tail_budget_lines c;
  Some (c, Nat.max (length (sr_lines (render c)) - tail_budget) (emitted_stable_len c)).

Definition sync_stable_queue (c : StreamCore) (now : Instant) : option (StreamCore * bool) :=
  '(c, target) ← compute_target_stable_len c;
  if (target <? enqueued_stable_len c)%nat then
    let c := set_state c (state_clear_queue (state c)) in
    c ← (if (emitted_stable_len c <? target)%nat then
           lines ← slice (sr_lines (render c)) (emitted_stable_len c) target;
           Some (set_state c (enqueue (state c) lines now))
         else Some c);
    let c := set_counts c target (emitted_stable_len c) in
    Some (c, (0 <? queued_len (state c))%nat)
  else if (target =? enqueued_stable_len c)%nat then Some (c, false)
  else
    lines ← slice (sr_lines (render c)) (enqueued_stable_len c) target;
    let c := set_state c (enqueue (state c) lines now) in
    Some (set_counts c target (emitted_stable_len c), true).

Definition rebuild_stable_queue_from_render (c : StreamCore) (now : Instant) : option StreamCore :=
  '(c, target) ← compute_target_stable_len c;
  let c := set_state c (state_clear_queue (state c)) in
  c ← (if (emitted_stable_len c <? target)%nat then
         lines ← slice (sr_lines (render c)) (emitted_stable_len c) target;
         Some (set_state c (enqueue (state c) lines now))
       else Some c);
  Some (set_counts c target (emitted_stable_len c)).

Definition core_push_delta (c : StreamCore) (delta : str) (now : Instant)
  : option (StreamCore * bool) :=
  let s := state c in
  let s := {| collector := collector_push_delta (collector s) delta; queue := queue s;
              has_seen_delta := has_seen_delta s || negb (is_empty delta) |} in
  let c := set_state c s in
  if contains_char nl delta then
    match commit_complete_source (collector s) with
    | (col, Some (range_start, range_end)) =>
        let c := set_state c {| collector := col; queue := queue s;
                                has_seen_delta := has_seen_delta s |} in
        source ← committed_source col;
        upto ← str_to source range_end;
        committed ← str_from upto range_start;
        let scanner := push_source_chunk (holdback_scanner c) committed in
        r ← render_append (render c) source committed (width c) (cwd c) (render_mode c)
              (inline_visualization_context c);
        sync_stable_queue (set_render c r scanner) now
    | (col, None) => Some (c, false)
    end
  else Some (c, false).

Definition finalize_remaining (c : StreamCore) : StreamCore * list HyperlinkLine * str :=
  let '(col, source) := finalize_and_take_source (collector (state c)) in
  let rendered := render_source source (width c) (cwd c) (render_mode c)
                    (inline_visualization_context c) in
  let remaining := drop (Nat.min (emitted_stable_len c) (length rendered)) rendered in
  (set_state c {| collector := col; queue := queue (state c);
                  has_seen_delta := has_seen_delta (state c) |}, remaining, source).

Definition core_tick (c : StreamCore) : StreamCore * list HyperlinkLine :=
  let '(s, step) := state_step (state c) in
  let c := set_state c s in
  (set_counts c (enqueued_stable_len c) (emitted_stable_len c + length step), step).

Definition core_tick_batch (c : StreamCore) (max_lines : N) : StreamCore * list HyperlinkLine :=
  if (max_lines =? 0)%N then (c, [])
  else
    let '(s, step) := drain_n (state c) max_lines in
    let c := set_state c s in
    if is_empty step then (c, step)
    else (set_counts c (enqueued_stable_len c) (emitted_stable_len c + length step), step).

Definition core_reset (c : StreamCore) : StreamCore :=
  {| state := state_clear (state c); width := width c; render := render_clear (render c);
     enqueued_stable_len := 0; emitted_stable_len := 0; cwd := cwd c;
     inline_visualization_context := inline_visualization_context c; render_mode := render_mode c;
     stable_prefix_len_cache := None; holdback_scanner := scanner_reset (holdback_scanner c) |}.

(** The common tail of [set_width] and [set_render_mode]: render the committed
    source again and rebuild the queue from the number of emitted lines. *)
Definition relayout (c : StreamCore) (had_pending_queue had_live_tail : bool) (now : Instant)
  : option StreamCore :=
  source ← committed_source (collector (state c));
  if is_empty source then Some c
  else
    let r := recompute source (width c) (cwd c) (render_mode c) (inline_visualization_context c) in
    let c := set_render c r (holdback_scanner c) in
    let total := length (sr_lines r) in
    let emitted := Nat.min (emitted_stable_len c) total in
    let emitted :=
      if had_pending_queue && (emitted =? total)%nat && (0 <? emitted)%nat
      then (emitted - 1)%nat else emitted in
    let c := set_state (set_counts c (enqueued_stable_len c) emitted) (state_clear_queue (state c)) in
    if (0 <? emitted)%nat && negb had_pending_queue && negb had_live_tail then
      Some (set_counts c total emitted)
    else rebuild_stable_queue_from_render c now.

Definition core_set_width (c : StreamCore) (w : option N) (now : Instant) : option StreamCore :=
  if bool_decide (width c = w) then Some c
  else
    let had_pending_queue := (0 <? queued_len (state c))%nat in
    let had_live_tail := has_tail c in
    let s := state c in
    let s := {| collector := collector_set_width (collector s) w; queue := queue s;
                has_seen_delta := has_seen_delta s |} in
    relayout (set_layout c w (render_mode c) s) had_pending_queue had_live_tail now.

Definition core_set_render_mode (c : StreamCore) (m : HistoryRenderMode) (now : Instant)
  : option StreamCore :=
  if bool_decide (render_mode c = m) then Some c
  else
    let had_pending_queue := (0 <? queued_len (state c))%nat in
    let had_live_tail := has_tail c in
    relayout (set_layout c (width c) m (state c)) had_pending_queue had_live_tail now.

Definition core_clear_queue (c : StreamCore) : StreamCore :=
  let c := set_state c (state_clear_queue (state c)) in
  set_counts c (emitted_stable_len c) (emitted_stable_len c).

(** ** The controllers *)

Record AgentMessageCell := { amc_lines : list HyperlinkLine; is_first_line : bool }.
Record ProposedPlanStreamCell := { psc_lines : list HyperlinkLine; is_stream_continuation : bool }.

(** [Box<dyn HistoryCell>] *)
Inductive HistoryCell :=
| AgentCell (c : AgentMessageCell)
| PlanCell (c : ProposedPlanStreamCell).

Record StreamController := { sc_core : StreamCore; sc_header_emitted : bool }.

Definition controller_new (w : option N) (dir : str) (m : HistoryRenderMode)
    (ctx : option InlineVisualizationContext) : StreamController :=
  {| sc_core := core_new w dir m ctx; sc_header_emitted := false |}.

Definition with_core (sc : StreamController) (c : StreamCore) : StreamController :=
  {| sc_core := c; sc_header_emitted := sc_header_emitted sc |}.

Definition emit (sc : StreamController) (lines : list HyperlinkLine)
  : StreamController * option HistoryCell :=
  if is_empty lines then (sc, None)
  else ({| sc_core := sc_core sc; sc_header_emitted := true |},
        Some (AgentCell {| amc_lines := lines; is_first_line := negb (sc_header_emitted sc) |})).

Definition push (sc : StreamController) (delta : str) (now : Instant)
  : option (StreamController * bool) :=
  '(c, enqueued) ← core_push_delta (sc_core sc) delta now; Some (with_core sc c, enqueued).

Definition finalize (sc : StreamController)
  : StreamController * (option HistoryCell * option str) :=
  let '(c, remaining, source) := finalize_remaining (sc_core sc) in
  let sc := with_core sc c in
  if is_empty source then (with_core sc (core_reset c), (None, None))
  else
    let '(sc, out) := emit sc remaining in
    (with_core sc (core_reset (sc_core sc)), (out, Some source)).

Definition on_commit_tick (sc : StreamController) : StreamController * (option HistoryCell * bool) :=
  let '(c, step) := core_tick (sc_core sc) in
  let '(sc, cell) := emit (with_core sc c) step in
  (sc, (cell, core_is_idle (sc_core sc))).

Definition on_commit_tick_batch (sc : StreamController) (max_lines : N)
  : StreamController * (option HistoryCell * bool) :=
  let '(c, step) := core_tick_batch (sc_core sc) max_lines in
  let '(sc, cell) := emit (with_core sc c) step in
  (sc, (cell, core_is_idle (sc_core sc))).

Definition tail_starts_stream (sc : StreamController) : bool :=
  negb (sc_header_emitted sc) && (enqueued_stable_len (sc_core sc) =? 0)%nat.

Definition clear_queue (sc : StreamController) : StreamController :=
  with_core sc (core_clear_queue (sc_core sc)).

Definition set_width (sc : StreamController) (w : option N) (now : Instant) : option StreamController :=
  c ← core_set_width (sc_core sc) w now; Some (with_core sc c).

Definition set_render_mode (sc : StreamController) (m : HistoryRenderMode) (now : Instant)
  : option StreamController :=
  c ← core_set_render_mode (sc_core sc) m now; Some (with_core sc c).

Record PlanStreamController := {
  pc_core : StreamCore;
  pc_header_emitted : bool;
  top_padding_emitted : bool
}.

Definition plan_new (w : option N) (dir : str) (m : HistoryRenderMode) : PlanStreamController :=
  {| pc_core := core_new w dir m None; pc_header_emitted := false; top_padding_emitted := false |}.

Definition plan_with_core (pc : PlanStreamController) (c : StreamCore) : PlanStreamController :=
  {| pc_core := c; pc_header_emitted := pc_header_emitted pc;
     top_padding_emitted := top_padding_emitted pc |}.

Definition padding_line : HyperlinkLine := hyperlink_line_new (line_from (s! " ")).

Definition render_display_lines (pc : PlanStreamController) (lines : list HyperlinkLine)
    (include_bottom_padding : bool) : list HyperlinkLine :=
  let out_lines :=
    if negb (pc_header_emitted pc) then [hyperlink_line_new plan_title; padding_line] else [] in
  let plan_lines := if negb (top_padding_emitted pc) then [padding_line] else [] in
  let plan_lines := plan_lines ++ lines in
  let plan_lines := if include_bottom_padding then plan_lines ++ [padding_line] else plan_lines in
  out_lines ++ map plan_style_line plan_lines.

Definition plan_emit (pc : PlanStreamController) (lines : list HyperlinkLine)
    (include_bottom_padding : bool) : PlanStreamController * option HistoryCell :=
  if is_empty lines && negb include_bottom_padding then (pc, None)
  else ({| pc_core := pc_core pc; pc_header_emitted := true; top_padding_emitted := true |},
        Some (PlanCell {| psc_lines := render_display_lines pc lines include_bottom_padding;
                          is_stream_continuation := pc_header_emitted pc |})).

Definition plan_push (pc : PlanStreamController) (delta : str) (now : Instant)
  : option (PlanStreamController * bool) :=
  '(c, enqueued) ← core_push_delta (pc_core pc) delta now; Some (plan_with_core pc c, enqueued).

Definition plan_finalize (pc : PlanStreamController)
  : PlanStreamController * (option HistoryCell * option str) :=
  let '(c, remaining, source) := finalize_remaining (pc_core pc) in
  let pc := plan_with_core pc c in
  if is_empty source then (plan_with_core pc (core_reset c), (None, None))
  else
    let '(pc, out) := plan_emit pc remaining true in
    (plan_with_core pc (core_reset (pc_core pc)), (out, Some source)).

Definition plan_on_commit_tick (pc : PlanStreamController)
  : PlanStreamController * (option HistoryCell * bool) :=
  let '(c, step) := core_tick (pc_core pc) in
  let '(pc, cell) := plan_emit (plan_with_core pc c) step false in
  (pc, (cell, core_is_idle (pc_core pc))).

Definition plan_on_commit_tick_batch (pc : PlanStreamController) (max_lines : N)
  : PlanStreamController * (option HistoryCell * bool) :=
  let '(c, step) := core_tick_batch (pc_core pc) max_lines in
  let '(pc, cell) := plan_emit (plan_with_core pc c) step false in
  (pc, (cell, core_is_idle (pc_core pc))).

Definition current_tail_display_lines (pc : PlanStreamController) : list HyperlinkLine :=
  let lines := current_tail_lines (pc_core pc) in
  if is_empty lines then [] else render_display_lines pc lines false.

Definition plan_tail_starts_stream (pc : PlanStreamController) : bool :=
  negb (pc_header_emitted pc) && (enqueued_stable_len (pc_core pc) =? 0)%nat.

Definition plan_clear_queue (pc : PlanStreamController) : PlanStreamController :=
  plan_with_core pc (core_clear_queue (pc_core pc)).

Definition plan_set_width (pc : PlanStreamController) (w : option N) (now : Instant)
    : option PlanStreamController :=
  plan_with_core pc <$> core_set_width (pc_core pc) w now.

Definition plan_set_render_mode (pc : PlanStreamController) (m : HistoryRenderMode) (now : Instant)
    : option PlanStreamController :=
  plan_with_core pc <$> core_set_render_mode (pc_core pc) m now.

(** ** [commit_tick.rs] *)

Inductive CommitTickScope := AnyMode | CatchUpOnly.

Record CommitTickOutput := {
  cells : list HistoryCell;
  has_controller : bool;
  all_idle : bool
}.

Definition output_default : CommitTickOutput :=
  {| cells := []; has_controller := false; all_idle := true |}.

Definition max_duration (lhs rhs : option Duration) : option Duration :=
  match lhs, rhs with
  | Some l, Some r => Some (N.max l r)
  | Some l, None => Some l
  | None, Some r => Some r
  | None, None => None
  end.

Definition stream_queue_snapshot (stream_controller : option StreamController)
    (plan_stream_controller : option PlanStreamController) (now : Instant) : QueueSnapshot :=
  let '(queued, oldest) :=
    match stream_controller with
    | Some c => (N.of_nat (core_queued_lines (sc_core c)),
                 max_duration None (core_oldest_queued_age (sc_core c) now))
    | None => (0%N, None)
    end in
  let '(queued, oldest) :=
    match plan_stream_controller with
    | Some c => ((queued + N.of_nat (core_queued_lines (pc_core c)))%N,
                 max_duration oldest (core_oldest_queued_age (pc_core c) now))
    | None => (queued, oldest)
    end in
  {| queued_lines := queued; oldest_age := oldest |}.

Definition drain_stream_controller (c : StreamController) (plan : DrainPlan) :=
  match plan with
  | Single => on_commit_tick c
  | Batch max_lines => on_commit_tick_batch c max_lines
  end.

Definition drain_plan_stream_controller (c : PlanStreamController) (plan : DrainPlan) :=
  match plan with
  | Single => plan_on_commit_tick c
  | Batch max_lines => plan_on_commit_tick_batch c max_lines
  end.

Definition push_cell (o : CommitTickOutput) (cell : option HistoryCell) (is_idle : bool) : CommitTickOutput :=
  {| cells := match cell with Some cell => cells o ++ [cell] | None => cells o end;
     has_controller := true; all_idle := all_idle o && is_idle |}.

Definition apply_commit_tick_plan (plan : DrainPlan) (stream_controller : option StreamController)
    (plan_stream_controller : option PlanStreamController)
  : option StreamController * option PlanStreamController * CommitTickOutput :=
  let output := output_default in
  let '(stream_controller, output) :=
    match stream_controller with
    | Some controller =>
        let '(controller, (cell, is_idle)) := drain_stream_controller controller plan in
        (Some controller, push_cell output cell is_idle)
    | None => (None, output)
    end in
  let '(plan_stream_controller, output) :=
    match plan_stream_controller with
    | Some controller =>
        let '(controller, (cell, is_idle)) := drain_plan_stream_controller controller plan in
        (Some controller, push_cell output cell is_idle)
    | None => (None, output)
    end in
  (stream_controller, plan_stream_controller, output).

(** The policy and the controllers of one chat widget. *)
Definition TickState : Type :=
  AdaptiveChunkingPolicy * option StreamController * option PlanStreamController.

Definition run_commit_tick (st : TickState) (scope : CommitTickScope) (now : Instant)
  : TickState * CommitTickOutput :=
  let '(policy, stream_controller, plan_stream_controller) := st in
  let snapshot := stream_queue_snapshot stream_controller plan_stream_controller now in
  let '(policy, decision) := decide_chunking policy snapshot now in
  match scope, decision_mode decision with
  | CatchUpOnly, Smooth => ((policy, stream_controller, plan_stream_controller), output_default)
  | _, _ =>
      let '(stream_controller, plan_stream_controller, output) :=
        apply_commit_tick_plan (drain_plan decision) stream_controller plan_stream_controller in
      ((policy, stream_controller, plan_stream_controller), output)
  end.

End Stream.
