(* ===== verification/StreamCoreFacts.v ===== *)
(** Correctness of the streaming core ([StreamCore.v]).

    An invariant of [StreamCore] (the committed source is the newline-terminated
    prefix of the buffer, every remembered byte offset lies on a character
    boundary of it, the prefix cache is exact, the counters are ordered) is kept
    by every operation, none of which panics; raw streams deliver every source
    line exactly once; and commit ticks empty the queues. *)
From S2P Require Import Prelude RustStr Truncate TableDetect StreamChunking StreamCore.
Open Scope dcode_scope.

(** ** Byte offsets *)

Lemma split_at_byte_iff n s p q : split_at_byte n s = Some (p, q) <-> s = p ++ q /\ n = byte_len p.
Proof.
  split; [|intros [-> ->]; apply split_at_byte_app].
  revert n p; induction s as [|c s IH]; intros n p; simpl.
  - destruct (N.eqb_spec n 0) as [->|]; [|done]. by intros [= <- <-].
  - destruct (N.eqb_spec n 0) as [->|]; [by intros [= <- <-]|].
    destruct (N.leb_spec (len_utf8 c) n); [|done].
    destruct (split_at_byte (n - len_utf8 c) s) as [[a b]|] eqn:E; [|done].
    intros [= <- <-]. apply IH in E as [-> E]. split; [done|]. simpl. lia.
Qed.

Definition on_boundary (s : str) (n : N) : Prop := exists p q, s = p ++ q /\ n = byte_len p.

Lemma on_boundary_0 s : on_boundary s 0.
Proof. by exists [], s. Qed.

Lemma on_boundary_full s : on_boundary s (byte_len s).
Proof. exists s, []. by rewrite app_nil_r. Qed.

Lemma on_boundary_app s t n : on_boundary s n -> on_boundary (s ++ t) n.
Proof. intros (p & q & -> & ->). exists p, (q ++ t). by rewrite app_assoc. Qed.

Lemma on_boundary_le s n : on_boundary s n -> (n <= byte_len s)%N.
Proof. intros (p & q & -> & ->). rewrite byte_len_app. lia. Qed.

Lemma str_to_app p q : str_to (p ++ q) (byte_len p) = Some p.
Proof. unfold str_to. by rewrite split_at_byte_app. Qed.

Lemma str_to_full p : str_to p (byte_len p) = Some p.
Proof. pose proof (str_to_app p []) as Hp. by rewrite app_nil_r in Hp. Qed.

Lemma str_from_app p q : str_from (p ++ q) (byte_len p) = Some q.
Proof. unfold str_from. by rewrite split_at_byte_app. Qed.

Lemma prefix_by_byte_len (a b c d : str) :
  a ++ b = c ++ d -> (byte_len a <= byte_len c)%N -> exists m, c = a ++ m.
Proof.
  revert c; induction a as [|x a IH]; intros c Heq Hle; [by exists c|].
  destruct c as [|y c]; simpl in *; [pose proof (len_utf8_pos x); lia|].
  injection Heq as -> Heq. destruct (IH c Heq) as [m ->]; [lia|]. by exists m.
Qed.

(** ** The table scanner remembers offsets of line starts *)

Definition opt_on_boundary (s : str) (o : option N) : Prop := forall n, o = Some n -> on_boundary s n.

Record scanner_ok (cs : str) (sc : TableHoldbackScanner) : Prop := {
  so_offset : source_offset sc = byte_len cs;
  so_prev : opt_on_boundary cs (pl_source_start <$> previous_line sc);
  so_pending : opt_on_boundary cs (pending_header_start sc);
  so_confirmed : opt_on_boundary cs (confirmed_table_start sc)
}.

Lemma opt_on_boundary_app s t o : opt_on_boundary s o -> opt_on_boundary (s ++ t) o.
Proof. intros Ho n Hn. by apply on_boundary_app, Ho. Qed.

Lemma scanner_ok_new : scanner_ok [] scanner_new.
Proof. by split. Qed.

Lemma push_line_ok cs sc l :
  (byte_len (cs ++ l) <= USIZE_MAX)%N -> scanner_ok cs sc -> scanner_ok (cs ++ l) (push_line sc l).
Proof.
  intros Hb [Ho Hp Hq Hc].
  assert (Hs : on_boundary (cs ++ l) (source_offset sc))
    by (rewrite Ho; apply on_boundary_app, on_boundary_full).
  apply (opt_on_boundary_app _ l) in Hp, Hq, Hc. rewrite byte_len_app in Hb.
  assert (Hoff : sat_add (source_offset sc) (byte_len l) = byte_len (cs ++ l))
    by (rewrite Ho, byte_len_app; by apply sat_add_exact).
  unfold push_line.
  destruct (previous_line sc) as [prev|] eqn:Ep; destruct (confirmed_table_start sc) eqn:Ec;
    repeat case_match; simplify_eq/=; split; simpl; try done.
  all: try (by intros ? [= <-]).
  all: intros ? [= <-]; by apply Hp.
Qed.

Lemma push_source_chunk_ok cs sc t :
  (byte_len (cs ++ t) <= USIZE_MAX)%N -> scanner_ok cs sc -> scanner_ok (cs ++ t) (push_source_chunk sc t).
Proof.
  rewrite push_source_chunk_fold.
  revert cs sc; induction t as [l Hl|l t Hl IH] using line_ind; intros cs sc Hb Hsc.
  - destruct l as [|c l]; [by rewrite app_nil_r|].
    rewrite split_inclusive_unterminated by done. by apply push_line_ok.
  - rewrite split_inclusive_free by done. cbn [fold_left].
    replace (cs ++ l ++ nl :: t) with ((cs ++ l ++ [nl]) ++ t) in * by (by rewrite <- !app_assoc).
    apply IH; [done|]. apply push_line_ok; [|done].
    rewrite byte_len_app in Hb. lia.
Qed.

Lemma scanner_ok_start cs sc start :
  scanner_ok cs sc ->
  (scanner_state sc = Confirmed start \/ scanner_state sc = PendingHeader start) -> on_boundary cs start.
Proof.
  intros [_ _ Hq Hc] Hs. unfold scanner_state in Hs.
  destruct (confirmed_table_start sc) eqn:E1; [naive_solver|].
  destruct (pending_header_start sc) eqn:E2; naive_solver.
Qed.

(** ** The collector *)

Record collector_ok (cs : str) (c : MarkdownStreamCollector) : Prop := {
  co_prefix : exists rest, buffer c = cs ++ rest;
  co_len : committed_source_len c = byte_len cs;
  co_nl : newline_terminated cs
}.

Lemma committed_source_ok cs c : collector_ok cs c -> committed_source c = Some cs.
Proof. intros [[rest Hb] Hl _]. unfold committed_source. rewrite Hb, Hl. apply str_to_app. Qed.

Lemma newline_terminated_app a b : newline_terminated a -> newline_terminated b -> newline_terminated (a ++ b).
Proof.
  intros Ha [->|[r ->]]; [by rewrite app_nil_r|]. right. exists (a ++ r). by rewrite app_assoc.
Qed.

(** A commit extends the committed source by whole lines and reports their range. *)
Lemma commit_complete_source_ok cs c :
  collector_ok cs c ->
  match commit_complete_source c with
  | (c', None) => c' = c
  | (c', Some (a, b)) =>
      exists chunk, a = byte_len cs /\ b = byte_len (cs ++ chunk) /\ newline_terminated chunk /\
        buffer c' = buffer c /\ collector_ok (cs ++ chunk) c'
  end.
Proof.
  intros [[rest Hb] Hl Hn]. unfold commit_complete_source.
  destruct (rsplit_once nl (buffer c)) as [[before after]|] eqn:E; [|done].
  apply rsplit_once_app in E.
  destruct (N.leb_spec (byte_len before + 1) (committed_source_len c)) as [Hle|Hlt]; [done|].
  assert (Hbl : byte_len (before ++ [nl]) = (byte_len before + 1)%N) by (by rewrite byte_len_app).
  assert (E' : buffer c = (before ++ [nl]) ++ after) by (by rewrite <- app_assoc).
  destruct (prefix_by_byte_len cs rest (before ++ [nl]) after) as [chunk Hm]; [congruence|lia|].
  assert (newline_terminated chunk).
  { destruct chunk as [|x chunk _] using rev_ind; [by left|right].
    rewrite app_assoc in Hm. apply app_inj_tail in Hm as [_ <-]. eauto. }
  exists chunk. rewrite <- Hm, Hbl. split_and!; try done.
  split; simpl; [by exists after|done|]. right. eauto.
Qed.

Lemma collector_push_ok cs c delta : collector_ok cs c -> collector_ok cs (collector_push_delta c delta).
Proof.
  intros [[rest Hb] Hl Hn]. split; [|done..]. exists (rest ++ delta). simpl. by rewrite Hb, app_assoc.
Qed.

(** ** Slices *)

Lemma slice_ok {A} (v : list A) a b :
  (a <= b)%nat -> (b <= length v)%nat -> slice v a b = Some (take (b - a) (drop a v)).
Proof. intros. unfold slice. by rewrite (proj2 (Nat.leb_le a b)), (proj2 (Nat.leb_le b _)) by done. Qed.

Lemma slice_length {A} (v : list A) a b l : slice v a b = Some l -> length l = (b - a)%nat.
Proof.
  unfold slice. destruct (Nat.leb_spec a b), (Nat.leb_spec b (length v)); simpl; try done.
  intros [= <-]. rewrite length_take, length_drop. lia.
Qed.

Section Core.
Context `{R : Renderer}.

(** ** The invariant of the core *)

(** The remembered length of the rendered prefix is the length of its render. *)
Definition cache_ok (cs : str) (c : StreamCore) : Prop :=
  forall k, stable_prefix_len_cache c = Some k ->
  exists p q, cs = p ++ q /\ cache_source_start k = byte_len p /\
    cache_stable_prefix_len k =
      length (render_markdown_agent_with_links_cwd_and_visualizations p (cache_width k) (cwd c)
                (inline_visualization_context c)).

Record source_ok (cs : str) (c : StreamCore) : Prop := {
  ok_collector : collector_ok cs (collector (state c));
  ok_fits : (byte_len (buffer (collector (state c))) <= USIZE_MAX)%N;
  ok_scanner : scanner_ok cs (holdback_scanner c);
  ok_stable : on_boundary cs (stable_source_len (render c));
  ok_cache : cache_ok cs c
}.

(** No line is queued twice or dropped: emitted and queued lines fit below the
    boundary of the stable region. *)
Definition counts_ok (c : StreamCore) : Prop :=
  (emitted_stable_len c + length (queue (state c)) <= enqueued_stable_len c)%nat.

(** The stable region ends within the render, or at the lines already emitted.
    The comment of the module promises the first alone; it need not hold while a source
    that has grown renders to fewer lines than were emitted before. *)
Definition region_ok (c : StreamCore) : Prop :=
  (enqueued_stable_len c <= Nat.max (length (sr_lines (render c))) (emitted_stable_len c))%nat.

Definition core_ok (c : StreamCore) : Prop :=
  (exists cs, source_ok cs c) /\ counts_ok c /\ region_ok c.

Definition up_to_cache (c c' : StreamCore) : Prop := c' = c \/ exists k, c' = set_cache c k.

Lemma up_to_cache_refl c : up_to_cache c c.
Proof. by left. Qed.

(** The fields the counters and the queue depend on. *)
Lemma up_to_cache_fields c c' :
  up_to_cache c c' ->
  state c' = state c /\ render c' = render c /\ emitted_stable_len c' = emitted_stable_len c /\
  enqueued_stable_len c' = enqueued_stable_len c /\ render_mode c' = render_mode c /\ width c' = width c /\
  cwd c' = cwd c.
Proof. intros [->|[k ->]]; done. Qed.

Lemma stable_prefix_ok cs c p q :
  source_ok cs c -> cs = p ++ q ->
  exists c', stable_prefix_len_for_source_start c (byte_len p) =
      Some (c', length (render_markdown_agent_with_links_cwd_and_visualizations p (width c) (cwd c)
                          (inline_visualization_context c))) /\
    up_to_cache c c' /\ source_ok cs c'.
Proof.
  intros Hok Hcs. unfold stable_prefix_len_for_source_start.
  rewrite (committed_source_ok cs) by apply Hok. simpl.
  replace (N.min (byte_len p) (byte_len cs)) with (byte_len p)
    by (rewrite Hcs, byte_len_app; lia).
  assert (str_to cs (byte_len p) = Some p) as -> by (rewrite Hcs; apply str_to_app). simpl.
  assert (Hmiss : forall n,
    n = length (render_markdown_agent_with_links_cwd_and_visualizations p (width c) (cwd c)
                  (inline_visualization_context c)) ->
    source_ok cs (set_cache c {| cache_source_start := byte_len p; cache_width := width c;
                                 cache_stable_prefix_len := n |})).
  { intros n ->. destruct Hok. split; try done. intros k [= <-]. by exists p, q. }
  destruct (stable_prefix_len_cache c) as [k|] eqn:Ek; [|eexists; split_and!; [done|right; eauto|auto]].
  destruct (N.eqb_spec (cache_source_start k) (byte_len p)) as [Hs|]; simpl;
    [|eexists; split_and!; [done|right; eauto|auto]].
  case_bool_decide as Hw; [|eexists; split_and!; [done|right; eauto|auto]].
  destruct (ok_cache _ _ Hok k Ek) as (p' & q' & Hp' & Hs' & ->).
  assert (p' = p) as ->.
  { assert (Some (p', q') = Some (p, q)) as [= ? ?]; [|done].
    rewrite <- !split_at_byte_app. congruence. }
  rewrite Hw. exists c. split_and!; [done|apply up_to_cache_refl|done].
Qed.

Lemma compute_target_ok cs c :
  source_ok cs c ->
  exists c' t, compute_target_stable_len c = Some (c', t) /\ up_to_cache c c' /\ source_ok cs c' /\
    (emitted_stable_len c <= t <= Nat.max (length (sr_lines (render c))) (emitted_stable_len c))%nat.
Proof.
  intros Hok. unfold compute_target_stable_len.
  assert (exists c' b, active_tail_budget_lines c = Some (c', b) /\ up_to_cache c c' /\ source_ok cs c')
    as (c' & b & -> & Hu & Hok').
  { unfold active_tail_budget_lines. destruct (render_mode c); [|eauto 6 using up_to_cache_refl].
    assert (forall start, on_boundary cs start ->
      exists c' b, tail_budget_from_source_start c start = Some (c', b) /\ up_to_cache c c' /\
        source_ok cs c') as Htb.
    { intros start Hst. unfold tail_budget_from_source_start.
      destruct (N.eqb_spec start 0); [eauto 6 using up_to_cache_refl|].
      rewrite (committed_source_ok cs) by apply Hok. simpl.
      pose proof (on_boundary_le _ _ Hst). rewrite N.min_l by done.
      destruct Hst as (p & q & Hcs & ->).
      destruct (stable_prefix_ok cs c p q Hok Hcs) as (c' & -> & ? & ?). simpl. eauto. }
    destruct (scanner_state (holdback_scanner c)) as [|start|start] eqn:Es;
      [eauto 6 using up_to_cache_refl|..];
      apply Htb; eapply scanner_ok_start; eauto; apply Hok. }
  simpl. exists c', (Nat.max (length (sr_lines (render c')) - b) (emitted_stable_len c')).
  destruct (up_to_cache_fields _ _ Hu) as (_ & -> & -> & _). split_and!; [done..|lia|lia].
Qed.

Lemma source_ok_fields cs c c' :
  source_ok cs c -> collector (state c') = collector (state c) -> render c' = render c ->
  holdback_scanner c' = holdback_scanner c -> cwd c' = cwd c ->
  inline_visualization_context c' = inline_visualization_context c ->
  stable_prefix_len_cache c' = stable_prefix_len_cache c -> source_ok cs c'.
Proof.
  intros [? ? ? ? Hc] E1 E2 E3 E4 E5 E6. split; rewrite ?E1, ?E2, ?E3; try done.
  unfold cache_ok. by rewrite E4, E5, E6.
Qed.

(** Rebuilding the queue up to a target within the render never slices out of range. *)
Lemma enqueue_upto_ok cs c lo t now :
  source_ok cs c -> (lo <= t <= Nat.max (length (sr_lines (render c))) lo)%nat ->
  counts_ok (set_counts c lo (emitted_stable_len c)) -> (emitted_stable_len c = lo \/ emitted_stable_len c <= lo < t)%nat ->
  exists s, (if (lo <? t)%nat then
       lines ← slice (sr_lines (render c)) lo t; Some (set_state c (enqueue (state c) lines now))
     else Some c) = Some (set_state c s) /\
    collector s = collector (state c) /\ core_ok (set_counts (set_state c s) t (emitted_stable_len c)).
Proof.
  intros Hok Ht Hc Hlo. unfold counts_ok in Hc; simpl in Hc.
  destruct (Nat.ltb_spec lo t) as [Hlt|Hge].
  - rewrite slice_ok by lia. simpl. eexists; split; [done|]. split; [done|].
    split_and!; [|unfold counts_ok|unfold region_ok]; simpl.
    + exists cs. by eapply source_ok_fields.
    + rewrite length_app, length_map, length_take, length_drop. lia.
    + lia.
  - exists (state c). split; [by destruct c|]. split; [done|].
    split_and!; [|unfold counts_ok|unfold region_ok]; simpl; [|lia..].
    exists cs. by eapply source_ok_fields.
Qed.

Lemma sync_stable_queue_ok cs c now :
  source_ok cs c -> counts_ok c ->
  exists c' b, sync_stable_queue c now = Some (c', b) /\ core_ok c' /\
    collector (state c') = collector (state c) /\ emitted_stable_len c' = emitted_stable_len c.
Proof.
  intros Hok Hc. unfold sync_stable_queue.
  destruct (compute_target_ok cs c Hok) as (c1 & t & -> & Hu & Hok1 & Ht). simpl.
  apply up_to_cache_fields in Hu as (Es & Er & Ee & En & _ & _).
  unfold counts_ok in Hc. rewrite <- Es, <- Ee, <- En in Hc. rewrite <- Er, <- Ee in Ht.
  rewrite <- Ee, <- Es.
  destruct (Nat.ltb_spec t (enqueued_stable_len c1)).
  - destruct (enqueue_upto_ok cs (set_state c1 (state_clear_queue (state c1)))
                (emitted_stable_len c1) t now) as (s & Hs & Hcs & Hco).
    + by eapply source_ok_fields.
    + done.
    + unfold counts_ok; simpl. lia.
    + by left.
    + simpl in Hs |- *. rewrite Hs. simpl. eexists _, _. by split_and!.
  - destruct (Nat.eqb_spec t (enqueued_stable_len c1)) as [Heq|Hne].
    + exists c1, false. split_and!; [done| |done|done]. split_and!; [eauto|unfold counts_ok; lia|].
      unfold region_ok. lia.
    + destruct (enqueue_upto_ok cs c1 (enqueued_stable_len c1) t now) as (s & Hs & Hcs & Hco);
        [done|lia|unfold counts_ok; simpl; lia|lia|].
      rewrite (proj2 (Nat.ltb_lt _ _)) in Hs by lia.
      rewrite slice_ok in Hs |- * by lia. simpl in Hs |- *. injection Hs as Hs.
      rewrite Hs. eexists _, _. by split_and!.
Qed.

Lemma rebuild_ok cs c now :
  source_ok cs c -> exists c', rebuild_stable_queue_from_render c now = Some c' /\
    collector (state c') = collector (state c) /\ core_ok c'.
Proof.
  intros Hok. unfold rebuild_stable_queue_from_render.
  destruct (compute_target_ok cs c Hok) as (c1 & t & -> & Hu & Hok1 & Ht). simpl.
  apply up_to_cache_fields in Hu as (Es & Er & Ee & En & _ & _). rewrite <- Er, <- Ee in Ht.
  destruct (enqueue_upto_ok cs (set_state c1 (state_clear_queue (state c1)))
              (emitted_stable_len c1) t now) as (s & Hs & Hcs & Hco).
  - by eapply source_ok_fields.
  - done.
  - unfold counts_ok; simpl. lia.
  - by left.
  - simpl in Hs |- *. rewrite Hs. simpl. eexists.
    split_and!; [done| |exact Hco]. simpl. by rewrite <- Es.
Qed.

(** ** Every operation keeps the invariant *)

Lemma render_append_ok `{!LawfulRenderer} cs r chunk w dir m ctx :
  on_boundary cs (stable_source_len r) ->
  exists r', render_append r cs chunk w dir m ctx = Some r' /\ on_boundary cs (stable_source_len r').
Proof.
  intros Hst. unfold render_append.
  assert (Hrec : exists r', Some (recompute cs w dir Rich ctx) = Some r' /\
            on_boundary cs (stable_source_len r')).
  { eexists; split; [done|]. unfold recompute. case_match. apply on_boundary_0. }
  destruct m; [|eexists; split; [done|]; done].
  destruct (has_inline_visualization_directive r || _); [done|].
  destruct (has_reference_link_definition r); [done|].
  destruct Hst as (p & q & Hcs & Hp). 
  assert (str_from cs (stable_source_len r) = Some q) as -> by (rewrite Hcs, Hp; apply str_from_app).
  simpl.
  destruct (smr_has_reference_link_definition _); [done|].
  destruct (smr_last_top_level_block_start _) as [b|] eqn:Eb; simpl.
  - destruct (block_start_on_boundary _ _ _ _ Eb) as [[q1 q2] Hq].
    apply split_at_byte_iff in Hq as [-> ->]. rewrite str_to_app. simpl.
    eexists; split; [done|]. simpl. exists (p ++ q1), q2.
    by rewrite Hcs, Hp, byte_len_app, <- app_assoc.
  - eexists; split; [done|]. simpl. exists p, q. done.
Qed.

Lemma cache_ok_app cs chunk c : cache_ok cs c -> cache_ok (cs ++ chunk) c.
Proof.
  intros Hk k Ek. destruct (Hk k Ek) as (p & q & -> & Hs & Hn).
  exists p, (q ++ chunk). by rewrite app_assoc.
Qed.

Lemma core_push_delta_ok `{!LawfulRenderer} c delta now :
  core_ok c -> (byte_len (buffer (collector (state c)) ++ delta) <= USIZE_MAX)%N ->
  exists c' b, core_push_delta c delta now = Some (c', b) /\ core_ok c' /\
    buffer (collector (state c')) = buffer (collector (state c)) ++ delta.
Proof.
  intros ((cs & Hok) & Hc & Hr) Hfit. unfold core_push_delta.
  set (s := {| collector := _ |}). destruct Hok as [Hcol _ Hscan Hst Hk].
  apply (collector_push_ok _ _ delta) in Hcol.
  assert (Hidle : core_ok (set_state c s)).
  { split_and!; [exists cs; by split|exact Hc|exact Hr]. }
  destruct (contains_char nl delta); [|by eauto 6].
  pose proof (commit_complete_source_ok _ _ Hcol) as Hcommit.
  change (collector_push_delta (collector (state c)) delta) with (collector s) in Hcommit.
  destruct (commit_complete_source (collector s)) as [col [[a b]|]]; [|by eauto 6].
  destruct Hcommit as (chunk & -> & -> & Hnl & Hbuf & Hcol').
  rewrite (committed_source_ok (cs ++ chunk)) by done. simpl.
  rewrite str_to_full. simpl. rewrite str_from_app. simpl.
  apply (on_boundary_app _ chunk) in Hst.
  destruct (render_append_ok (cs ++ chunk) (render c) chunk (width c) (cwd c) (render_mode c)
              (inline_visualization_context c) Hst) as (r' & -> & Hst'). simpl.
  assert (Hfit' : (byte_len (cs ++ chunk) <= USIZE_MAX)%N).
  { destruct (co_prefix _ _ Hcol') as [rest Hrest]. rewrite Hbuf in Hrest. simpl in Hrest.
    rewrite Hrest, byte_len_app in Hfit. lia. }
  set (c1 := set_render _ _ _).
  destruct (sync_stable_queue_ok (cs ++ chunk) c1 now) as (c2 & b2 & Hs & Hok2 & Hc2 & _).
  - split; simpl; [done|by rewrite Hbuf|by apply push_source_chunk_ok|done|by apply cache_ok_app].
  - exact Hc.
  - exists c2, b2. split_and!; [done..|].
    rewrite Hc2. exact Hbuf.
Qed.

Lemma relayout_ok c pending tail now :
  core_ok c -> exists c', relayout c pending tail now = Some c' /\
    collector (state c') = collector (state c) /\ core_ok c'.
Proof.
  intros ((cs & Hok) & Hc & Hr). unfold relayout.
  rewrite (committed_source_ok cs) by apply Hok. simpl.
  destruct (is_empty cs); [exists c; by repeat split; try exists cs|].
  set (r := recompute _ _ _ _ _). set (emitted := if pending && _ && _ then _ else _).
  assert (He : (emitted <= length (sr_lines r))%nat).
  { subst emitted. repeat case_match; lia. }
  set (c1 := set_state _ _).
  assert (Hok1 : source_ok cs c1).
  { destruct Hok. split; try done. simpl. unfold r, recompute. case_match. apply on_boundary_0. }
  destruct ((0 <? emitted)%nat && negb pending && negb tail).
  - eexists; split; [done|]. split; [done|]. split_and!; [exists cs; by eapply source_ok_fields|..].
    + unfold counts_ok. simpl. lia.
    + unfold region_ok. simpl. lia.
  - destruct (rebuild_ok cs c1 now Hok1) as (c' & Hc' & ? & ?). exists c'. by split_and!.
Qed.

Lemma core_set_width_ok c w now :
  core_ok c -> exists c', core_set_width c w now = Some c' /\
    buffer (collector (state c')) = buffer (collector (state c)) /\ core_ok c'.
Proof.
  intros Hok. unfold core_set_width. case_bool_decide; [by eauto|]. set (c1 := set_layout _ _ _ _).
  destruct (relayout_ok c1 (0 <? queued_len (state c))%nat (has_tail c) now) as (c' & -> & Hb & Hok').
  - destruct Hok as ((cs & [Hcol ? ? ? ?]) & Hc & Hr). split_and!; [exists cs|exact Hc|exact Hr].
    by split; try done; destruct Hcol; split.
  - exists c'. by rewrite Hb.
Qed.

Lemma core_set_render_mode_ok c m now :
  core_ok c -> exists c', core_set_render_mode c m now = Some c' /\
    buffer (collector (state c')) = buffer (collector (state c)) /\ core_ok c'.
Proof.
  intros Hok. unfold core_set_render_mode. case_bool_decide; [by eauto|]. set (c1 := set_layout _ _ _ _).
  destruct (relayout_ok c1 (0 <? queued_len (state c))%nat (has_tail c) now) as (c' & -> & Hb & Hok').
  - destruct Hok as ((cs & Hok) & Hc & Hr). split_and!; [exists cs|exact Hc|exact Hr].
    by eapply source_ok_fields.
  - exists c'. by rewrite Hb.
Qed.

Lemma core_reset_ok c : core_ok (core_reset c).
Proof.
  split_and!; [exists []|unfold counts_ok; simpl; lia|unfold region_ok; simpl; lia].
  split; simpl; [|done|apply scanner_ok_new|apply on_boundary_0|done].
  split; [by exists []|done|by left].
Qed.

Lemma core_new_ok w dir m ctx : core_ok (core_new w dir m ctx).
Proof.
  split_and!; [exists []|unfold counts_ok; simpl; lia|unfold region_ok; simpl; lia].
  split; simpl; [|done|apply scanner_ok_new|apply on_boundary_0|done].
  split; [by exists []|done|by left].
Qed.

Lemma core_clear_queue_ok c : core_ok c -> core_ok (core_clear_queue c).
Proof.
  intros ((cs & Hok) & _ & _).
  split_and!; [exists cs; by eapply source_ok_fields|unfold counts_ok|unfold region_ok]; simpl; lia.
Qed.

(** Draining [k] queued lines counts them as emitted. *)
Definition drained (c : StreamCore) (k : nat) : StreamCore :=
  set_counts (set_state c (with_queue (state c) (drop k (queue (state c)))))
    (enqueued_stable_len c) (emitted_stable_len c + k).

Lemma drained_ok c k : core_ok c -> (k <= length (queue (state c)))%nat -> core_ok (drained c k).
Proof.
  intros ((cs & Hok) & Hc & Hr) Hk. unfold counts_ok, region_ok in *.
  split_and!; [exists cs; by eapply source_ok_fields|unfold counts_ok|unfold region_ok]; simpl;
    rewrite ?length_drop; lia.
Qed.

Lemma drained_0 c : drained c 0 = c.
Proof. destruct c as [[? ? ?]]; unfold drained; simpl. by rewrite Nat.add_0_r. Qed.

Lemma core_tick_drains c :
  let k := Nat.min 1 (length (queue (state c))) in
  core_tick c = (drained c k, map q_line (take k (queue (state c)))).
Proof.
  destruct c as [[col q seen]]; unfold core_tick, state_step, drained; simpl.
  destruct q as [|x q]; simpl; [by rewrite Nat.add_0_r|done].
Qed.

Lemma core_tick_batch_drains c n :
  let k := Nat.min (N.to_nat n) (length (queue (state c))) in
  core_tick_batch c n = (drained c k, map q_line (take k (queue (state c)))).
Proof.
  unfold core_tick_batch, drain_n. destruct (N.eqb_spec n 0) as [->|]; [by rewrite drained_0|].
  set (k := Nat.min _ _). simpl.
  destruct (is_empty (map q_line (take k (queue (state c))))) eqn:E.
  - apply is_empty_true, map_eq_nil in E.
    assert (k = 0%nat) as ->; [|by rewrite drained_0; destruct c as [[]]].
    apply (f_equal length) in E. rewrite length_take in E. simpl in E. lia.
  - unfold drained. rewrite length_map, length_take. by rewrite Nat.min_l by lia.
Qed.

Lemma core_tick_ok c : core_ok c -> core_ok (fst (core_tick c)).
Proof. intros Hok. rewrite core_tick_drains. apply drained_ok; [done|lia]. Qed.

Lemma core_tick_batch_ok c n : core_ok c -> core_ok (fst (core_tick_batch c n)).
Proof. intros Hok. rewrite core_tick_batch_drains. apply drained_ok; [done|lia]. Qed.

Lemma emit_core sc lines : sc_core (fst (emit sc lines)) = sc_core sc.
Proof. unfold emit. by destruct (is_empty lines). Qed.

End Core.

(** ** Runs of a controller *)

(** The calls the chat widget makes on a [StreamController]; [now] is the
    instant of a call that enqueues lines. *)
Inductive StreamOp :=
| OpPush (delta : str) (now : Instant)
| OpTick
| OpTickBatch (max_lines : N)
| OpSetWidth (w : option N) (now : Instant)
| OpSetRenderMode (m : HistoryRenderMode) (now : Instant)
| OpClearQueue
| OpFinalize.

Definition op_pushed (op : StreamOp) : str := match op with OpPush delta _ => delta | _ => [] end.

Definition pushed (ops : list StreamOp) : str := mjoin (map op_pushed ops).

Section Runs.
Context `{R : Renderer}.

Definition run_op (sc : StreamController) (op : StreamOp)
  : option (StreamController * option HistoryCell) :=
  match op with
  | OpPush delta now => '(sc, _) ← push sc delta now; Some (sc, None)
  | OpTick => let '(sc, (cell, _)) := on_commit_tick sc in Some (sc, cell)
  | OpTickBatch n => let '(sc, (cell, _)) := on_commit_tick_batch sc n in Some (sc, cell)
  | OpSetWidth w now => sc ← set_width sc w now; Some (sc, None)
  | OpSetRenderMode m now => sc ← set_render_mode sc m now; Some (sc, None)
  | OpClearQueue => Some (clear_queue sc, None)
  | OpFinalize => let '(sc, (cell, _)) := finalize sc in Some (sc, cell)
  end.

Fixpoint run_ops (sc : StreamController) (ops : list StreamOp)
  : option (StreamController * list HistoryCell) :=
  match ops with
  | [] => Some (sc, [])
  | op :: ops =>
      '(sc, cell) ← run_op sc op;
      '(sc, rest) ← run_ops sc ops;
      Some (sc, match cell with Some cell => cell :: rest | None => rest end)
  end.

Abbreviation buffered sc := (buffer (collector (state (sc_core sc)))).

Lemma emitted_core sc c step :
  sc_core (fst (emit (with_core sc c) step)) = c.
Proof. apply emit_core. Qed.

Lemma run_op_ok `{!LawfulRenderer} sc op :
  core_ok (sc_core sc) -> (byte_len (buffered sc ++ op_pushed op) <= USIZE_MAX)%N ->
  exists sc' cell, run_op sc op = Some (sc', cell) /\ core_ok (sc_core sc') /\
    (buffered sc' = buffered sc ++ op_pushed op \/ buffered sc' = []).
Proof.
  intros Hok Hfit. destruct op as [delta now| |n|w now|m now| |]; simpl in *; rewrite ?app_nil_r.
  - unfold push. destruct (core_push_delta_ok _ delta now Hok Hfit) as (c' & b & -> & Hok' & ?).
    simpl. eauto 6.
  - unfold on_commit_tick. pose proof (core_tick_ok _ Hok) as Hok'. rewrite core_tick_drains in *.
    pose proof (emitted_core sc (drained (sc_core sc) (Nat.min 1 (length (queue (state (sc_core sc))))))) as He.
    match goal with |- context [emit ?sc ?l] => specialize (He l); destruct (emit sc l) end.
    simpl in *. rewrite <- He in Hok'. eexists _, _. split_and!; [done..|left]. by rewrite He.
  - unfold on_commit_tick_batch. pose proof (core_tick_batch_ok _ n Hok) as Hok'.
    rewrite core_tick_batch_drains in *.
    pose proof (emitted_core sc (drained (sc_core sc) (Nat.min (N.to_nat n) (length (queue (state (sc_core sc))))))) as He.
    match goal with |- context [emit ?sc ?l] => specialize (He l); destruct (emit sc l) end.
    simpl in *. rewrite <- He in Hok'. eexists _, _. split_and!; [done..|left]. by rewrite He.
  - unfold set_width. destruct (core_set_width_ok _ w now Hok) as (c' & -> & Hb & Hok').
    simpl. eauto 6.
  - unfold set_render_mode. destruct (core_set_render_mode_ok _ m now Hok) as (c' & -> & Hb & Hok').
    simpl. eauto 6.
  - eexists _, _. split_and!; [done|by apply core_clear_queue_ok|by left].
  - unfold finalize. destruct (finalize_remaining (sc_core sc)) as [[c' remaining] source].
    destruct (is_empty source);
      [eexists _, _; split_and!; [done|apply core_reset_ok|by right]|].
    destruct (emit _ remaining) as [sc' cell]. eexists _, _.
    split_and!; [done|apply core_reset_ok|by right].
Qed.

Lemma run_ops_ok `{!LawfulRenderer} ops sc :
  core_ok (sc_core sc) -> (byte_len (buffered sc ++ pushed ops) <= USIZE_MAX)%N ->
  exists sc' cells, run_ops sc ops = Some (sc', cells) /\ core_ok (sc_core sc').
Proof.
  revert sc; induction ops as [|op ops IH]; intros sc Hok Hfit; simpl; [by eauto|].
  unfold pushed in Hfit; simpl in Hfit. fold (pushed ops) in Hfit. rewrite app_assoc in Hfit.
  destruct (run_op_ok sc op Hok) as (sc1 & cell & -> & Hok1 & Hb).
  { rewrite byte_len_app in Hfit. lia. }
  simpl. destruct (IH sc1 Hok1) as (sc2 & cells & -> & Hok2); [|simpl; eauto].
  destruct Hb as [-> | ->]; [done|]. rewrite byte_len_app in Hfit. simpl. lia.
Qed.

End Runs.
