(* ===== verification/StreamLaws.v ===== *)
(** Properties of the streaming pipeline: absence of panics, exact delivery of
    raw streams, and progress of commit ticks. *)
From S2P Require Import Prelude RustStr Truncate TableDetect StreamChunking StreamCore StreamCoreFacts.
Open Scope dcode_scope.

(** ** Raw lines of newline-terminated source *)

Lemma ends_with_last c s : ends_with [c] s = bool_decide (last s = Some c).
Proof.
  apply eq_iff_eq_true. rewrite ends_with_true, bool_decide_eq_true, last_Some_snoc. done.
Qed.

Lemma raw_lines_chomp s : raw_lines_of s = map chomp (split_inclusive nl s).
Proof.
  unfold raw_lines_of. induction s as [l Hl|l s Hl IH] using line_ind.
  - destruct l as [|x l]; [done|]. rewrite split_inclusive_unterminated, split_on_free by done.
    simpl map. rewrite chomp_free by done. rewrite ends_with_last. case_bool_decide as E; [|done].
    apply last_Some_snoc in E as [r Hr]. rewrite Hr in Hl. exfalso. apply Hl. set_solver.
  - rewrite split_inclusive_free, split_on_app by done. cbn [map]. rewrite chomp_nl, <- IH.
    assert (is_empty (l ++ nl :: s) = false) as -> by (apply is_empty_false; by destruct l).
    rewrite !ends_with_last, last_app_cons. destruct s as [|x s]; [done|].
    rewrite last_cons_cons. cbn [is_empty]. case_bool_decide; [|done].
    generalize (split_on_nonnil nl (x :: s)). generalize (split_on nl (x :: s)). by intros [].
Qed.

Lemma raw_lines_app a b :
  newline_terminated a -> raw_lines_of (a ++ b) = raw_lines_of a ++ raw_lines_of b.
Proof. intros Ha. by rewrite !raw_lines_chomp, split_inclusive_app, map_app. Qed.

(** A final newline that [finalize_and_take_source] adds is not a line. *)
Lemma raw_lines_terminate s : s <> [] -> ends_with [nl] s = false -> raw_lines_of (s ++ [nl]) = raw_lines_of s.
Proof.
  rewrite !raw_lines_chomp. induction s as [l Hl|l s Hl IH] using line_ind; intros Hne He.
  - rewrite split_inclusive_free, (split_inclusive_unterminated l) by done.
    cbn [map split_inclusive]. by rewrite chomp_nl, chomp_free.
  - rewrite <- app_assoc. change ((nl :: s) ++ [nl]) with (nl :: (s ++ [nl])).
    rewrite (split_inclusive_free l (s ++ [nl])), (split_inclusive_free l s) by done.
    cbn [map]. f_equal.
    rewrite ends_with_last, last_app_cons in He.
    destruct s as [|x s]; [by rewrite bool_decide_true in He|].
    apply IH; [done|]. by rewrite ends_with_last.
Qed.

Section Laws.
Context `{R : Renderer}.

Abbreviation raw s := (plain_hyperlink_lines (raw_lines_from_source s)).

Lemma raw_app a b : newline_terminated a -> raw (a ++ b) = raw a ++ raw b.
Proof.
  intros Ha. unfold plain_hyperlink_lines, raw_lines_from_source. by rewrite raw_lines_app, !map_app.
Qed.

(** ** The invariant of a raw stream *)

(** [src] has been pushed and [out] has been emitted: the render is the lines
    of the committed source, of which [out] is the emitted prefix and the queue
    the next lines. *)
Record raw_ok (src : str) (out : list (HyperlinkLineOf Line)) (c : StreamCore) : Prop := {
  ro_mode : render_mode c = Raw;
  ro_buffer : buffer (collector (state c)) = src;
  ro_render : exists cs, collector_ok cs (collector (state c)) /\ sr_lines (render c) = raw cs;
  ro_counts : (emitted_stable_len c <= enqueued_stable_len c <= length (sr_lines (render c)))%nat;
  ro_queue : map q_line (queue (state c)) =
    take (enqueued_stable_len c - emitted_stable_len c) (drop (emitted_stable_len c) (sr_lines (render c)));
  ro_out : out = take (emitted_stable_len c) (sr_lines (render c))
}.

Lemma compute_target_raw c :
  render_mode c = Raw -> (emitted_stable_len c <= length (sr_lines (render c)))%nat ->
  compute_target_stable_len c = Some (c, length (sr_lines (render c))).
Proof.
  intros Hm He. unfold compute_target_stable_len, active_tail_budget_lines. rewrite Hm. simpl.
  do 2 f_equal. lia.
Qed.

Lemma map_enqueued (lines : list (HyperlinkLineOf Line)) now :
  map q_line (map (fun line => {| q_line := line; enqueued_at := now |}) lines) = lines.
Proof. rewrite map_map. apply map_id. Qed.

Lemma take_drop_ext {A} (v : list A) a b c :
  (a <= b <= c)%nat -> (c <= length v)%nat ->
  take (b - a) (drop a v) ++ take (c - b) (drop b v) = take (c - a) (drop a v).
Proof.
  intros. replace (drop b v) with (drop (b - a) (drop a v)) by (rewrite drop_drop; f_equal; lia).
  rewrite take_take_drop. f_equal. lia.
Qed.

Lemma sync_raw src out c now :
  raw_ok src out c ->
  exists c' b, sync_stable_queue c now = Some (c', b) /\ raw_ok src out c'.
Proof.
  intros Hraw. destruct Hraw as [Hm Hb Hr Hc Hq Ho] eqn:Heq. clear Heq. unfold sync_stable_queue.
  rewrite compute_target_raw by (done || lia). simpl.
  destruct (Nat.ltb_spec (length (sr_lines (render c))) (enqueued_stable_len c)); [lia|].
  destruct (Nat.eqb_spec (length (sr_lines (render c))) (enqueued_stable_len c)); [by eauto 6|].
  rewrite slice_ok by lia. simpl. eexists _, _. split; [done|].
  split; simpl; try done; [lia|].
  rewrite map_app, map_enqueued, Hq. apply take_drop_ext; lia.
Qed.

Lemma push_raw src out c delta now :
  raw_ok src out c ->
  exists c' b, core_push_delta c delta now = Some (c', b) /\ raw_ok (src ++ delta) out c'.
Proof.
  intros [Hm Hb (cs & Hcol & Hr) Hc Hq Ho]. unfold core_push_delta.
  set (s := {| collector := _ |}). apply (collector_push_ok _ _ delta) in Hcol.
  assert (Hbuf : buffer (collector s) = src ++ delta) by (simpl; by rewrite Hb).
  assert (Hidle : raw_ok (src ++ delta) out (set_state c s)) by (split; try done; by exists cs).
  destruct (contains_char nl delta); [|by eauto].
  pose proof (commit_complete_source_ok _ _ Hcol) as Hcommit.
  change (collector_push_delta (collector (state c)) delta) with (collector s) in Hcommit.
  destruct (commit_complete_source (collector s)) as [col [[a b]|]]; [|by eauto].
  destruct Hcommit as (chunk & -> & -> & Hnl & Hbuf' & Hcol').
  rewrite (committed_source_ok (cs ++ chunk)) by done. simpl.
  rewrite str_to_full. simpl. rewrite str_from_app. simpl. rewrite Hm. simpl.
  apply sync_raw. rewrite Hr in Hc.
  split; simpl; try done; rewrite ?Hr.
  - rewrite Hbuf'. done.
  - exists (cs ++ chunk). split; [done|]. by rewrite raw_app by apply Hcol.
  - rewrite length_app. lia.
  - rewrite Hq, Hr, drop_app_le, take_app_le; rewrite ?length_drop; (done || lia).
  - rewrite Ho, Hr, take_app_le; (done || lia).
Qed.

Lemma relayout_raw src out c pending tail now :
  raw_ok src out c -> (pending = (0 <? length (queue (state c)))%nat) -> tail = has_tail c ->
  exists c', relayout c pending tail now = Some c' /\ raw_ok src out c'.
Proof.
  intros [Hm Hb (cs & Hcol & Hr) Hc Hq Ho] Hp Ht. unfold relayout.
  rewrite (committed_source_ok cs) by done. simpl.
  destruct (is_empty cs); [eexists; split; [done|]; by split; eauto|].
  rewrite Hm. set (r := recompute _ _ _ _ _).
  assert (Hrl : sr_lines r = sr_lines (render c)) by (by rewrite Hr). clearbody r.
  rewrite Hrl, Nat.min_l by lia.
  assert (Hlen : length (queue (state c)) = (enqueued_stable_len c - emitted_stable_len c)%nat).
  { rewrite <- (length_map q_line), Hq, length_take, length_drop. lia. }
  assert (pending && (emitted_stable_len c =? length (sr_lines (render c)))%nat = false) as ->.
  { subst pending. destruct (Nat.ltb_spec 0 (length (queue (state c)))); [|done].
    apply Nat.eqb_neq. lia. }
  cbn [andb]. set (c1 := set_state _ _).
  destruct ((0 <? emitted_stable_len c)%nat && negb pending && negb tail) eqn:E.
  - eexists; split; [done|].
    assert (emitted_stable_len c = length (sr_lines (render c))) as He.
    { apply andb_prop in E as [E E3]. apply andb_prop in E as [_ E2].
      subst pending tail. unfold has_tail in E3.
      apply negb_true_iff, Nat.ltb_ge in E2. apply negb_true_iff, Nat.ltb_ge in E3. lia. }
    split; simpl; rewrite ?Hrl; try done; [by eauto|lia|].
    rewrite He, Nat.sub_diag. done.
  - unfold rebuild_stable_queue_from_render.
    rewrite compute_target_raw by (simpl; rewrite ?Hrl; done || lia). simpl. rewrite Hrl.
    destruct (Nat.ltb_spec (emitted_stable_len c) (length (sr_lines (render c)))).
    + rewrite slice_ok by lia. simpl. eexists; split; [done|].
      split; simpl; rewrite ?Hrl; try done; [by eauto|lia|]. by rewrite map_enqueued.
    + simpl. eexists; split; [done|]. split; simpl; rewrite ?Hrl; try done; [by eauto|lia|].
      by replace (length (sr_lines (render c)) - emitted_stable_len c)%nat with 0%nat by lia.
Qed.

Lemma drained_raw src out c k :
  raw_ok src out c -> (k <= length (queue (state c)))%nat ->
  raw_ok src (out ++ map q_line (take k (queue (state c)))) (drained c k).
Proof.
  intros [Hm Hb Hr Hc Hq Ho] Hk.
  assert (Hlen : length (queue (state c)) = (enqueued_stable_len c - emitted_stable_len c)%nat).
  { rewrite <- (length_map q_line), Hq, length_take, length_drop. lia. }
  split; simpl; try done.
  - lia.
  - rewrite <- skipn_map, Hq, skipn_firstn_comm, drop_drop. f_equal. lia.
  - rewrite <- firstn_map, Hq, Ho, take_take, take_take_drop. f_equal. lia.
Qed.

(** ** Cells *)

Definition cell_lines (cell : HistoryCell) : list (HyperlinkLineOf Line) :=
  match cell with AgentCell c => amc_lines c | PlanCell c => psc_lines c end.

Definition opt_list {A} (o : option A) : list A := match o with Some x => [x] | None => [] end.

(** The lines the cells put on the screen, in order. *)
Definition shown (cs : list HistoryCell) : list (HyperlinkLineOf Line) := mjoin (map cell_lines cs).

Lemma shown_app a b : shown (a ++ b) = shown a ++ shown b.
Proof. unfold shown. induction a as [|x a IH]; simpl; [done|]. by rewrite IH, app_assoc. Qed.

Lemma emit_shown sc lines : shown (opt_list (snd (emit sc lines))) = lines.
Proof. unfold emit. destruct lines; simpl; [done|]. unfold shown; simpl. by rewrite app_nil_r. Qed.

(** Calls a raw stream sees before it is finalized. *)
Definition streaming (op : StreamOp) : bool :=
  match op with OpFinalize | OpSetRenderMode _ _ => false | _ => true end.

Lemma emit_raw src out sc c step :
  raw_ok src (out ++ step) c ->
  let '(sc', cell) := emit (with_core sc c) step in raw_ok src (out ++ shown (opt_list cell)) (sc_core sc').
Proof.
  intros Hraw. pose proof (emit_shown (with_core sc c) step) as Hs.
  pose proof (emit_core (with_core sc c) step) as Hc.
  destruct (emit (with_core sc c) step) as [sc' cell]. simpl in *. by rewrite Hs, Hc.
Qed.

Lemma run_op_raw src out sc op :
  streaming op = true -> raw_ok src out (sc_core sc) ->
  exists sc' cell, run_op sc op = Some (sc', cell) /\
    raw_ok (src ++ op_pushed op) (out ++ shown (opt_list cell)) (sc_core sc').
Proof.
  intros Hop Hraw. destruct op as [delta now| |n|w now| | |]; try done; simpl; rewrite ?app_nil_r.
  - unfold push. destruct (push_raw _ _ _ delta now Hraw) as (c' & b & -> & Hr'). simpl.
    eexists _, _. split; [done|]. by rewrite app_nil_r.
  - unfold on_commit_tick. rewrite core_tick_drains.
    pose proof (emit_raw src out sc _ _ (drained_raw _ _ _ (Nat.min 1 (length (queue (state (sc_core sc)))))
                  Hraw ltac:(lia))) as He.
    destruct (emit _ _) as [sc' cell]. simpl. eauto.
  - unfold on_commit_tick_batch. rewrite core_tick_batch_drains.
    pose proof (emit_raw src out sc _ _ (drained_raw _ _ _ (Nat.min (N.to_nat n) (length (queue (state (sc_core sc)))))
                  Hraw ltac:(lia))) as He.
    destruct (emit _ _) as [sc' cell]. simpl. eauto.
  - unfold set_width, core_set_width.
    case_bool_decide; [simpl; eexists _, _; split; [done|]; by rewrite app_nil_r; destruct sc|].
    destruct Hraw as [Hm Hb (cs & Hcol & Hr) Hc Hq Ho].
    edestruct relayout_raw as (c' & -> & Hr'); [|done..|].
    + split; try done. exists cs. split; [|done]. by destruct Hcol; split.
    + simpl. eexists _, _. split; [done|]. by rewrite app_nil_r.
  - eexists _, _. split; [done|]. rewrite app_nil_r. destruct Hraw as [Hm Hb Hr Hc Hq Ho].
    split; simpl; try done; [lia|]. by rewrite Nat.sub_diag.
Qed.

Lemma run_ops_raw src out sc ops :
  Forall (fun op => streaming op = true) ops -> raw_ok src out (sc_core sc) ->
  exists sc' cells, run_ops sc ops = Some (sc', cells) /\
    raw_ok (src ++ pushed ops) (out ++ shown cells) (sc_core sc').
Proof.
  intros Hops; revert src out sc; induction Hops as [|op ops Hop _ IH]; intros src out sc Hraw; simpl.
  - eexists _, _. split; [done|]. by rewrite !app_nil_r.
  - destruct (run_op_raw src out sc op Hop Hraw) as (sc1 & cell & -> & Hraw1). simpl.
    destruct (IH _ _ _ Hraw1) as (sc2 & cells & -> & Hraw2). simpl.
    eexists _, _. split; [done|].
    rewrite <- !app_assoc, <- shown_app in Hraw2. by destruct cell.
Qed.

Lemma raw_ok_new w dir ctx : raw_ok [] [] (core_new w dir Raw ctx).
Proof.
  split; simpl; try done. exists []. split; [|done]. by split; [exists []| |left].
Qed.

Lemma finalize_raw src out sc :
  raw_ok src out (sc_core sc) ->
  out ++ shown (opt_list (fst (snd (finalize sc)))) = raw src.
Proof.
  intros [Hm Hb (cs & [[rest Hcs] _ Hn] & Hr) Hc Hq Ho].
  unfold finalize, finalize_remaining, finalize_and_take_source. rewrite Hb, Hm. cbn [fst snd].
  set (source := if negb (is_empty src) && _ then _ else src).
  assert (raw source = raw src /\ (is_empty source = true -> src = [])) as [Hsrc Hemp].
  { subst source. destruct (is_empty src) eqn:E1; simpl; [by split; [|intros; apply is_empty_true]|].
    destruct (ends_with [nl] src) eqn:E2; simpl; [split; [done|congruence]|].
    split; [|intros E; apply is_empty_true in E; by destruct src].
    unfold plain_hyperlink_lines, raw_lines_from_source.
    rewrite raw_lines_terminate; [done|by apply is_empty_false|done]. }
  rewrite Hb in Hcs. rewrite Hr in *.
  destruct (is_empty source) eqn:E.
  - rewrite (Hemp eq_refl) in *. symmetry in Hcs. apply app_nil in Hcs as [-> ->].
    subst out. simpl in *. by rewrite take_nil.
  - cbn [render_source]. rewrite Hsrc.
    pose proof (emit_shown (with_core sc (set_state (sc_core sc)
      {| collector := collector_clear (collector (state (sc_core sc))); queue := queue (state (sc_core sc));
         has_seen_delta := has_seen_delta (state (sc_core sc)) |}))
      (drop (Nat.min (emitted_stable_len (sc_core sc)) (length (raw src))) (raw src))) as Hs.
    destruct (emit _ _) as [sc' cell]. simpl in *. rewrite Hs.
    rewrite Hcs, raw_app by done. rewrite length_app, Nat.min_l by lia.
    rewrite Ho, <- (take_app_le (raw cs) (raw rest)) by lia. apply take_drop.
Qed.

End Laws.

(** ** Properties *)

(** C10: Whatever sequence of deltas, ticks, batch drains, resizes, mode
    switches, queue clears and finalizations a stream controller sees (as long
    as the pushed text fits a string), no call panics: every slice of the
    source falls on a character boundary and every slice of the render is in
    range; and afterwards emitted lines and queued lines still fit below the
    boundary of the stable region, and the cached prefix length is exact. *)
Theorem stream_never_panics `{R : Renderer} `{!LawfulRenderer} w dir m ctx ops :
  (byte_len (pushed ops) <= USIZE_MAX)%N ->
  exists sc cells, run_ops (controller_new w dir m ctx) ops = Some (sc, cells) /\ core_ok (sc_core sc).
Proof. intros Hfit. apply run_ops_ok; [apply core_new_ok|done]. Qed.

(** A raw stream is delivered exactly: whatever deltas, ticks, batch
    drains, resizes and queue clears happen before it is finalized, nothing
    panics, and the lines of all cells it produced, the final one included, are
    the lines of the pushed source, each once and in order. *)
Theorem raw_stream_delivered `{R : Renderer} w dir ctx ops :
  Forall (fun op => streaming op = true) ops ->
  exists sc cells, run_ops (controller_new w dir Raw ctx) ops = Some (sc, cells) /\
    shown (cells ++ opt_list (fst (snd (finalize sc))))
    = plain_hyperlink_lines (raw_lines_from_source (pushed ops)).
Proof.
  intros Hops. destruct (run_ops_raw [] [] (controller_new w dir Raw ctx) ops Hops) as (sc & cells & -> & Hraw).
  - apply raw_ok_new.
  - exists sc, cells. split; [done|]. rewrite shown_app. by apply finalize_raw.
Qed.

(** ** Commit ticks *)

Section Ticks.
Context `{R : Renderer}.

Abbreviation agent_queue sc := (queue (state (sc_core sc))).
Abbreviation plan_queue pc := (queue (state (pc_core pc))).

(** The queues of the controllers that are present. *)
Definition opt_agent_queue (o : option StreamController) : list QueuedLine :=
  match o with Some sc => agent_queue sc | None => [] end.

Definition opt_plan_queue (o : option PlanStreamController) : list QueuedLine :=
  match o with Some pc => plan_queue pc | None => [] end.

Definition agent_lines (cs : list HistoryCell) : list (HyperlinkLineOf Line) :=
  mjoin (map (fun cell => match cell with AgentCell c => amc_lines c | PlanCell _ => [] end) cs).

(** Lines a plan takes from each queue. *)
Definition plan_lines (plan : DrainPlan) : nat :=
  match plan with Single => 1%nat | Batch n => N.to_nat n end.

Lemma take_min_length {A} n (l : list A) : take (Nat.min n (length l)) l = take n l.
Proof. rewrite <- take_take. by rewrite (take_ge l (length l)) by lia. Qed.

Lemma drop_min_length {A} n (l : list A) : drop (Nat.min n (length l)) l = drop n l.
Proof. destruct (Nat.le_ge_cases n (length l)); [by rewrite Nat.min_l|]. by rewrite Nat.min_r, !drop_ge by lia. Qed.

Lemma agent_lines_emit sc lines : agent_lines (opt_list (snd (emit sc lines))) = lines.
Proof. unfold emit. destruct lines; simpl; [done|]. unfold agent_lines; simpl. by rewrite app_nil_r. Qed.

Lemma drain_stream_controller_spec sc plan :
  let '(sc', (cell, idle)) := drain_stream_controller sc plan in
  agent_queue sc' = drop (plan_lines plan) (agent_queue sc) /\
  agent_lines (opt_list cell) = map q_line (take (plan_lines plan) (agent_queue sc)) /\
  idle = is_empty (agent_queue sc').
Proof.
  assert (forall k step,
    let '(sc', cell) := emit (with_core sc (drained (sc_core sc) k)) step in
    agent_queue sc' = drop k (agent_queue sc) /\ agent_lines (opt_list cell) = step) as Hemit.
  { intros k step. pose proof (agent_lines_emit (with_core sc (drained (sc_core sc) k)) step) as Hl.
    pose proof (emit_core (with_core sc (drained (sc_core sc) k)) step) as Hc.
    destruct (emit _ _) as [sc' cell]. simpl in *. by rewrite Hc. }
  destruct plan as [|n]; simpl; unfold on_commit_tick, on_commit_tick_batch;
    rewrite ?core_tick_drains, ?core_tick_batch_drains.
  - specialize (Hemit (Nat.min 1 (length (agent_queue sc)))
                  (map q_line (take (Nat.min 1 (length (agent_queue sc))) (agent_queue sc)))).
    destruct (emit _ _) as [sc' cell]. destruct Hemit as [Hq ->].
    split_and!; [by rewrite Hq, drop_min_length|by rewrite take_min_length|done].
  - specialize (Hemit (Nat.min (N.to_nat n) (length (agent_queue sc)))
                  (map q_line (take (Nat.min (N.to_nat n) (length (agent_queue sc))) (agent_queue sc)))).
    destruct (emit _ _) as [sc' cell]. destruct Hemit as [Hq ->].
    split_and!; [by rewrite Hq, drop_min_length|by rewrite take_min_length|done].
Qed.

Lemma plan_emit_core pc lines b : pc_core (fst (plan_emit pc lines b)) = pc_core pc.
Proof. unfold plan_emit. by destruct (is_empty lines && negb b). Qed.

Lemma plan_emit_agent_lines pc lines b : agent_lines (opt_list (snd (plan_emit pc lines b))) = [].
Proof. unfold plan_emit. by destruct (is_empty lines && negb b). Qed.

Lemma drain_plan_stream_controller_spec pc plan :
  let '(pc', (cell, idle)) := drain_plan_stream_controller pc plan in
  plan_queue pc' = drop (plan_lines plan) (plan_queue pc) /\
  agent_lines (opt_list cell) = [] /\ idle = is_empty (plan_queue pc').
Proof.
  assert (forall k step,
    let '(pc', cell) := plan_emit (plan_with_core pc (drained (pc_core pc) k)) step false in
    plan_queue pc' = drop k (plan_queue pc) /\ agent_lines (opt_list cell) = []) as Hemit.
  { intros k step.
    pose proof (plan_emit_agent_lines (plan_with_core pc (drained (pc_core pc) k)) step false) as Hl.
    pose proof (plan_emit_core (plan_with_core pc (drained (pc_core pc) k)) step false) as Hc.
    destruct (plan_emit _ _ _) as [pc' cell]. simpl in *. by rewrite Hc. }
  destruct plan as [|n]; simpl; unfold plan_on_commit_tick, plan_on_commit_tick_batch;
    rewrite ?core_tick_drains, ?core_tick_batch_drains.
  - specialize (Hemit (Nat.min 1 (length (plan_queue pc)))
                  (map q_line (take (Nat.min 1 (length (plan_queue pc))) (plan_queue pc)))).
    destruct (plan_emit _ _ _) as [pc' cell]. destruct Hemit as [Hq Hl].
    split_and!; [by rewrite Hq, drop_min_length|done|done].
  - specialize (Hemit (Nat.min (N.to_nat n) (length (plan_queue pc)))
                  (map q_line (take (Nat.min (N.to_nat n) (length (plan_queue pc))) (plan_queue pc)))).
    destruct (plan_emit _ _ _) as [pc' cell]. destruct Hemit as [Hq Hl].
    split_and!; [by rewrite Hq, drop_min_length|done|done].
Qed.

Lemma agent_lines_app a b : agent_lines (a ++ b) = agent_lines a ++ agent_lines b.
Proof. unfold agent_lines. induction a as [|x a IH]; simpl; [done|]. by rewrite IH, app_assoc. Qed.

(** One applied plan: both queues lose their first [plan_lines plan] lines, the
    agent's lines are shown, and [all_idle] tells whether anything is left. *)
Lemma apply_commit_tick_plan_spec plan sc pc :
  let '(sc', pc', out) := apply_commit_tick_plan plan sc pc in
  opt_agent_queue sc' = drop (plan_lines plan) (opt_agent_queue sc) /\
  opt_plan_queue pc' = drop (plan_lines plan) (opt_plan_queue pc) /\
  agent_lines (cells out) = map q_line (take (plan_lines plan) (opt_agent_queue sc)) /\
  all_idle out = is_empty (opt_agent_queue sc') && is_empty (opt_plan_queue pc').
Proof.
  unfold apply_commit_tick_plan. destruct sc as [sc|], pc as [pc|]; simpl;
    rewrite ?drop_nil, ?take_nil; simpl; try done.
  - pose proof (drain_stream_controller_spec sc plan) as H1.
    destruct (drain_stream_controller sc plan) as [sc' [cell idle]]. destruct H1 as (Hq & Hl & Hi).
    pose proof (drain_plan_stream_controller_spec pc plan) as H2.
    destruct (drain_plan_stream_controller pc plan) as [pc' [cell' idle']]. destruct H2 as (Hq' & Hl' & Hi').
    simpl. split_and!; [done|done| |by rewrite Hi, Hi'].
    rewrite <- Hl, <- (app_nil_r (agent_lines (opt_list cell))), <- Hl', <- agent_lines_app.
    by destruct cell, cell'.
  - pose proof (drain_stream_controller_spec sc plan) as H1.
    destruct (drain_stream_controller sc plan) as [sc' [cell idle]]. destruct H1 as (Hq & Hl & Hi).
    simpl. split_and!; [done|by rewrite ?drop_nil| |by rewrite Hi, andb_true_r].
    rewrite <- Hl. by destruct cell.
  - pose proof (drain_plan_stream_controller_spec pc plan) as H2.
    destruct (drain_plan_stream_controller pc plan) as [pc' [cell' idle']]. destruct H2 as (Hq' & Hl' & Hi').
    simpl. split_and!; [by rewrite ?drop_nil|done| |done].
    rewrite ?take_nil. simpl. rewrite <- Hl'. by destruct cell'.
Qed.

Lemma snapshot_queued sc pc now :
  queued_lines (stream_queue_snapshot sc pc now)
  = N.of_nat (length (opt_agent_queue sc) + length (opt_plan_queue pc)).
Proof.
  unfold stream_queue_snapshot, core_queued_lines, queued_len.
  destruct sc, pc; simpl; lia.
Qed.

(** A plan takes at least one line, and a batch plan everything. *)
Lemma decide_plan_lines p snapshot now :
  let '(p', d) := decide_chunking p snapshot now in
  (drain_plan d = Single \/ drain_plan d = Batch (queued_lines snapshot)) /\
  (1 <= plan_lines (drain_plan d))%nat.
Proof.
  unfold decide_chunking. destruct (N.eqb_spec (queued_lines snapshot) 0); simpl; [auto|].
  replace (N.max (queued_lines snapshot) 1) with (queued_lines snapshot) by lia.
  repeat case_match; simplify_eq/=; split; auto; lia.
Qed.

(** All commit ticks of a sequence of instants, in any mode. *)
Fixpoint run_ticks (st : TickState) (times : list Instant) : TickState * list HistoryCell :=
  match times with
  | [] => (st, [])
  | now :: times =>
      let '(st, out) := run_commit_tick st AnyMode now in
      let '(st, rest) := run_ticks st times in
      (st, cells out ++ rest)
  end.

Lemma any_tick_spec p sc pc now :
  let '((p', sc', pc'), out) := run_commit_tick (p, sc, pc) AnyMode now in
  exists n, (1 <= n)%nat /\ opt_agent_queue sc' = drop n (opt_agent_queue sc) /\
    opt_plan_queue pc' = drop n (opt_plan_queue pc) /\
    agent_lines (cells out) = map q_line (take n (opt_agent_queue sc)).
Proof.
  unfold run_commit_tick. set (snapshot := stream_queue_snapshot sc pc now).
  pose proof (decide_plan_lines p snapshot now) as Hd.
  destruct (decide_chunking p snapshot now) as [p' d]. destruct Hd as [_ Hn].
  pose proof (apply_commit_tick_plan_spec (drain_plan d) sc pc) as Ha.
  destruct (apply_commit_tick_plan (drain_plan d) sc pc) as [[sc' pc'] out].
  destruct Ha as (? & ? & ? & _). eauto 6.
Qed.

Lemma snapshot_age_queued sc pc now d :
  age_at_least (oldest_age (stream_queue_snapshot sc pc now)) d = true ->
  queued_lines (stream_queue_snapshot sc pc now) <> 0%N.
Proof.
  rewrite snapshot_queued. unfold stream_queue_snapshot, core_oldest_queued_age, state_oldest_queued_age.
  destruct sc as [sc|], pc as [pc|]; simpl; try done;
    repeat match goal with |- context [queue ?s] => destruct (queue s) end; simpl; try done; lia.
Qed.

(** A severe age forces catch-up mode and a plan for the whole backlog. *)
Lemma decide_severe p snapshot now :
  age_at_least (oldest_age snapshot) SEVERE_OLDEST_AGE = true -> queued_lines snapshot <> 0%N ->
  let '(p', d) := decide_chunking p snapshot now in
  mode p' = CatchUp /\ decision_mode d = CatchUp /\ drain_plan d = Batch (queued_lines snapshot).
Proof.
  intros Hage Hq. pose proof (decide_cases p snapshot now) as Hd.
  assert (mode (fst (decide_chunking p snapshot now)) = CatchUp) as Hm.
  { unfold decide_chunking. rewrite (proj2 (N.eqb_neq _ _)) by done.
    assert (should_exit_catch_up snapshot = false) as Hx.
    { unfold should_exit_catch_up, age_at_least in *. destruct (oldest_age snapshot); [|done].
      apply N.leb_le in Hage. apply andb_false_intro2, N.leb_gt.
      unfold SEVERE_OLDEST_AGE, EXIT_OLDEST_AGE, from_millis in *. lia. }
    assert (should_enter_catch_up snapshot = true) as He.
    { unfold should_enter_catch_up, age_at_least in *. destruct (oldest_age snapshot); [|done].
      apply N.leb_le in Hage. apply orb_true_intro. right. apply N.leb_le.
      unfold SEVERE_OLDEST_AGE, ENTER_OLDEST_AGE, from_millis in *. lia. }
    assert (is_severe_backlog snapshot = true) as Hs by (apply orb_true_intro; by right).
    unfold maybe_enter_catch_up, maybe_exit_catch_up. rewrite Hx, He, Hs.
    destruct (mode p) eqn:Em; simpl; [by rewrite andb_false_r|done]. }
  destruct (decide_chunking p snapshot now) as [p' d]. simpl in Hm.
  destruct Hd as (Hdm & _ & Hpl). rewrite Hm in Hdm, Hpl. done.
Qed.

Lemma run_ticks_spec times p sc pc :
  let '((p', sc', pc'), out) := run_ticks (p, sc, pc) times in
  exists n, (length times <= n)%nat /\ opt_agent_queue sc' = drop n (opt_agent_queue sc) /\
    opt_plan_queue pc' = drop n (opt_plan_queue pc) /\
    agent_lines out = map q_line (take n (opt_agent_queue sc)).
Proof.
  revert p sc pc; induction times as [|now times IH]; intros p sc pc; cbn [run_ticks].
  { by exists 0%nat. }
  pose proof (any_tick_spec p sc pc now) as Ht.
  destruct (run_commit_tick (p, sc, pc) AnyMode now) as [[[p1 sc1] pc1] out1].
  destruct Ht as (n & Hn & Hq1 & Hp1 & Hl1). pose proof (IH p1 sc1 pc1) as Ht2.
  destruct (run_ticks (p1, sc1, pc1) times) as [[[p2 sc2] pc2] out2].
  destruct Ht2 as (m & Hm & Hq2 & Hp2 & Hl2). cbn [length]. exists (n + m)%nat.
  split_and!; [lia|by rewrite Hq2, Hq1, drop_drop|by rewrite Hp2, Hp1, drop_drop|].
  rewrite agent_lines_app, Hl1, Hl2, Hq1, <- map_app. by rewrite take_take_drop.
Qed.

End Ticks.

(** C40: No queued line waits beyond the next commit tick once it is 300 ms
    old: a tick (of either scope, from any policy state) that finds a line that
    old on either queue enters or stays in catch-up mode, shows every queued
    line of the agent stream in order, leaves both queues empty and reports all
    controllers idle. *)
Theorem stale_backlog_is_drained `{R : Renderer} p sc pc scope now :
  age_at_least (oldest_age (stream_queue_snapshot sc pc now)) SEVERE_OLDEST_AGE = true ->
  let '((p', sc', pc'), out) := run_commit_tick (p, sc, pc) scope now in
  mode p' = CatchUp /\ opt_agent_queue sc' = [] /\ opt_plan_queue pc' = [] /\
  agent_lines (cells out) = map q_line (opt_agent_queue sc) /\ all_idle out = true.
Proof.
  intros Hage. unfold run_commit_tick. set (snapshot := stream_queue_snapshot sc pc now) in *.
  pose proof (snapshot_age_queued sc pc now _ Hage) as Hq.
  pose proof (decide_severe p snapshot now Hage Hq) as Hd.
  destruct (decide_chunking p snapshot now) as [p' d]. destruct Hd as (Hm & Hdm & Hpl).
  rewrite Hdm, Hpl.
  pose proof (apply_commit_tick_plan_spec (Batch (queued_lines snapshot)) sc pc) as Ha.
  cbn [plan_lines] in Ha. subst snapshot. rewrite snapshot_queued in *. rewrite Nnat.Nat2N.id in Ha.
  destruct scope; destruct (apply_commit_tick_plan _ sc pc) as [[sc' pc'] out];
    destruct Ha as (-> & -> & -> & ->); rewrite !drop_ge, take_ge by lia; done.
Qed.

(** Commit ticks empty the queues: after as many any-mode ticks as the
    longer queue has lines, at whatever instants, both queues are empty, and
    the cells of those ticks show the queued lines of the agent stream, each
    once and in order. *)
Theorem commit_ticks_drain `{R : Renderer} p sc pc times :
  (Nat.max (length (opt_agent_queue sc)) (length (opt_plan_queue pc)) <= length times)%nat ->
  let '((p', sc', pc'), out) := run_ticks (p, sc, pc) times in
  opt_agent_queue sc' = [] /\ opt_plan_queue pc' = [] /\
  agent_lines out = map q_line (opt_agent_queue sc).
Proof.
  intros Hlen. pose proof (run_ticks_spec times p sc pc) as Ht.
  destruct (run_ticks (p, sc, pc) times) as [[[p' sc'] pc'] out].
  destruct Ht as (n & Hn & -> & -> & ->). by rewrite !drop_ge, take_ge by lia.
Qed.

(** ** Witnesses *)

(** A renderer of plain lines, with every block mutable. *)
#[local] Instance plain_renderer : Renderer := {|
  Line := str;
  line_from := id;
  line_default := [];
  plan_style_line := id;
  plan_title := s! "Proposed Plan";
  InlineVisualizationContext := unit;
  render_markdown_agent_with_links_cwd_and_visualizations source _ _ _ :=
    map (fun l => hyperlink_line l []) (raw_lines_of source);
  render_streaming_markdown_agent_with_links_and_cwd source _ _ :=
    {| smr_lines := map (fun l => hyperlink_line l []) (raw_lines_of source);
       smr_has_reference_link_definition := false;
       smr_last_top_level_block_start := Some 0%N;
       smr_first_top_level_block_is_html := false |}
|}.

#[local] Instance plain_renderer_lawful : LawfulRenderer.
Proof. split. intros source w c b [= <-]. exists ([], source). by destruct source. Qed.

Definition sample_ops : list StreamOp :=
  [OpPush (s! "one" ++ [nl] ++ s! "| a | b |" ++ [nl] ++ s! "|---|---|") 0; OpTick;
   OpPush ([nl] ++ s! "| 1 | 2 |" ++ [nl]) 10; OpSetWidth (Some 40%N) 20; OpTickBatch 5].

Lemma stream_never_panics_witness :
  (byte_len (pushed (sample_ops ++ [OpSetRenderMode Raw 30; OpFinalize])) <= USIZE_MAX)%N /\
  exists sc cells,
    run_ops (controller_new (Some 80%N) [] Rich None) (sample_ops ++ [OpSetRenderMode Raw 30; OpFinalize])
      = Some (sc, cells) /\ core_ok (sc_core sc).
Proof.
  assert (byte_len (pushed (sample_ops ++ [OpSetRenderMode Raw 30; OpFinalize])) <= USIZE_MAX)%N
    by (vm_compute; discriminate).
  split; [done|]. by apply stream_never_panics.
Defined.

Lemma raw_stream_delivered_witness :
  Forall (fun op => streaming op = true) sample_ops /\
  exists sc cells, run_ops (controller_new (Some 80%N) [] Raw None) sample_ops = Some (sc, cells) /\
    shown (cells ++ opt_list (fst (snd (finalize sc))))
    = plain_hyperlink_lines (raw_lines_from_source (pushed sample_ops)).
Proof.
  assert (Forall (fun op => streaming op = true) sample_ops) by (repeat constructor).
  split; [done|]. by apply raw_stream_delivered.
Defined.

(** A controller with three lines queued at instant 0. *)
Definition sample_controller : StreamController :=
  match push (controller_new None [] Rich None) (s! "a" ++ [nl] ++ s! "b" ++ [nl] ++ s! "c" ++ [nl]) 0 with
  | Some (sc, _) => sc
  | None => controller_new None [] Rich None
  end.

Lemma stale_backlog_is_drained_witness :
  age_at_least (oldest_age (stream_queue_snapshot (Some sample_controller) None (from_millis 300)))
    SEVERE_OLDEST_AGE = true /\
  length (opt_agent_queue (Some sample_controller)) = 3%nat /\
  opt_agent_queue (snd (fst (fst (run_commit_tick (policy_default, Some sample_controller, None)
    CatchUpOnly (from_millis 300))))) = [].
Proof.
  assert (Ha : age_at_least (oldest_age (stream_queue_snapshot (Some sample_controller) None (from_millis 300)))
    SEVERE_OLDEST_AGE = true) by (vm_compute; reflexivity).
  split_and!; [done|vm_compute; reflexivity|].
  pose proof (stale_backlog_is_drained policy_default (Some sample_controller) None CatchUpOnly
                (from_millis 300) Ha) as Hd.
  destruct (run_commit_tick _ _ _) as [[[p' sc'] pc'] out]. apply Hd.
Defined.

Lemma commit_ticks_drain_witness :
  opt_agent_queue (snd (fst (fst (run_ticks (policy_default, Some sample_controller, None)
    [1; 2; 3]%N)))) = [].
Proof.
  pose proof (commit_ticks_drain policy_default (Some sample_controller) None [1; 2; 3]%N
                ltac:(vm_compute; lia)) as Hd.
  destruct (run_ticks _ _) as [[[p' sc'] pc'] out]. apply Hd.
Defined.
