(* ===== verification/AgentRegistry.v ===== *)
(** Sub-agents of a session: [protocol/src/agent_path.rs] and
    [core/src/agent/registry.rs].

    Agent paths and their validation; the registry of live agents, shared by all
    threads of a session: an atomic counter of spawned agents and a mutex around
    the maps of agents, paths and nicknames.  Each atomic operation and each
    locked section is one step of [exec], so that a run interleaves the
    compare-exchange loop of one spawner, the two halves of a dropped
    reservation and of a released thread, and the operations of every other
    thread.  [usize] arithmetic of the counter wraps. *)
From stdpp Require Import gmap.
From S2P Require Import Prelude RustStr.
Open Scope dcode_scope.

(** ** Agent paths *)

Definition ROOT : str := s! "/root".
Definition MORPHEUS : str := s! "/morpheus".
Definition ROOT_SEGMENT : str := s! "root".
Definition slash : char := ch "/".

Definition is_root (path : str) : bool := str_eqb path ROOT.

Definition agent_name_char (c : char) : bool :=
  in_range 97 122 c || is_ascii_digit c || N.eqb c (ch "_").

Definition validate_agent_name (agent_name : str) : result unit str :=
  if is_empty agent_name then Err (s! "agent_name must not be empty")
  else if str_eqb agent_name ROOT_SEGMENT then Err (s! "agent_name `root` is reserved")
  else if str_eqb agent_name (s! ".") || str_eqb agent_name (s! "..") then
    Err (s! "agent_name `" ++ agent_name ++ s! "` is reserved")
  else if contains_char slash agent_name then Err (s! "agent_name must not contain `/`")
  else if negb (forallb agent_name_char agent_name) then
    Err (s! "agent_name must use only lowercase letters, digits, and underscores")
  else Ok tt.

Fixpoint validate_agent_names (segments : list str) : result unit str :=
  match segments with
  | [] => Ok tt
  | segment :: rest => let? _ := validate_agent_name segment in validate_agent_names rest
  end.

Definition validate_absolute_path (path : str) : result unit str :=
  if str_eqb path MORPHEUS then Ok tt
  else match strip_prefix [slash] path with
       | None => Err (s! "absolute agent paths must start with `/root` or be `/morpheus`")
       | Some stripped =>
           match split_on slash stripped with
           | [] => Err (s! "absolute agent path must not be empty")
           | root :: segments =>
               if negb (str_eqb root ROOT_SEGMENT) then
                 Err (s! "absolute agent paths must start with `/root` or be `/morpheus`")
               else if ends_with [slash] stripped then
                 Err (s! "absolute agent path must not end with `/`")
               else validate_agent_names segments
           end
       end.

Definition validate_relative_reference (reference : str) : result unit str :=
  if ends_with [slash] reference then Err (s! "relative agent path must not end with `/`")
  else validate_agent_names (split_on slash reference).

Definition from_string (path : str) : result str str :=
  let? _ := validate_absolute_path path in Ok path.

(** [rsplit('/').next()] is the last piece of [split('/')]. *)
Definition name (path : str) : str :=
  if is_root path then ROOT_SEGMENT
  else match last (split_on slash path) with
       | Some segment => if negb (is_empty segment) then segment else ROOT_SEGMENT
       | None => ROOT_SEGMENT
       end.

Definition join_path (path agent_name : str) : result str str :=
  let? _ := validate_agent_name agent_name in from_string (path ++ [slash] ++ agent_name).

Definition resolve (path reference : str) : result str str :=
  if is_empty reference then Err (s! "agent path must not be empty")
  else if str_eqb reference ROOT then Ok ROOT
  else if starts_with [slash] reference then from_string reference
  else let? _ := validate_relative_reference reference in from_string (path ++ [slash] ++ reference).

(** ** The registry *)

Abbreviation ThreadId := str.

Record AgentMetadata := {
  agent_id : option ThreadId;
  agent_path : option str;
  agent_nickname : option str;
  agent_role : option str
}.

Record ActiveAgents := {
  agent_tree : gmap str AgentMetadata;
  thread_paths : gmap ThreadId str;
  used_agent_nicknames : gset str;
  nickname_reset_count : N
}.

Record AgentRegistry := { active_agents : ActiveAgents; total_count : N }.

Definition registry_default : AgentRegistry :=
  {| active_agents := {| agent_tree := ∅; thread_paths := ∅; used_agent_nicknames := ∅;
                         nickname_reset_count := 0 |};
     total_count := 0 |}.

Definition with_agents (r : AgentRegistry) (a : ActiveAgents) : AgentRegistry :=
  {| active_agents := a; total_count := total_count r |}.

Definition with_tree (a : ActiveAgents) (t : gmap str AgentMetadata) (p : gmap ThreadId str) : ActiveAgents :=
  {| agent_tree := t; thread_paths := p; used_agent_nicknames := used_agent_nicknames a;
     nickname_reset_count := nickname_reset_count a |}.

Definition with_nicknames (a : ActiveAgents) (used : gset str) (resets : N) : ActiveAgents :=
  {| agent_tree := agent_tree a; thread_paths := thread_paths a; used_agent_nicknames := used;
     nickname_reset_count := resets |}.

(** [fetch_add(1)] and [fetch_sub(1)]. *)
Definition fetch_add (r : AgentRegistry) : AgentRegistry :=
  {| active_agents := active_agents r; total_count := ((total_count r + 1) mod (USIZE_MAX + 1))%N |}.

Definition fetch_sub (r : AgentRegistry) : AgentRegistry :=
  {| active_agents := active_agents r;
     total_count := ((total_count r + USIZE_MAX) mod (USIZE_MAX + 1))%N |}.

Definition format_agent_nickname (nm : str) (nickname_reset_count : N) : str :=
  if (nickname_reset_count =? 0)%N then nm
  else
    let value := (nickname_reset_count + 1)%N in
    let suffix :=
      if in_range 11 13 (value mod 100)%N then s! "th"
      else match (value mod 10)%N with
           | 1%N => s! "st"
           | 2%N => s! "nd"
           | 3%N => s! "rd"
           | _ => s! "th"
           end in
    nm ++ s! " the " ++ digits_of_N value ++ suffix.

Inductive SubAgentSource :=
| Review
| Compact
| ThreadSpawn (parent_thread_id : ThreadId) (depth : Z) (agent_path agent_nickname agent_role : option str)
| SubAgentMemoryConsolidation
| OtherSubAgent (name : str).

Inductive InternalSessionSource := MemoryConsolidation.

Inductive SessionSource :=
| Cli
| VSCode
| Exec
| Mcp
| Custom (name : str)
| Internal (s : InternalSessionSource)
| SubAgent (s : SubAgentSource)
| UnknownSource.

Definition session_depth (s : SessionSource) : Z :=
  match s with SubAgent (ThreadSpawn _ depth _ _ _) => depth | _ => 0%Z end.

(** [i32::saturating_add(1)] *)
Definition next_thread_spawn_depth (s : SessionSource) : Z := Z.min 2147483647 (session_depth s + 1).
Definition exceeds_thread_spawn_depth_limit (depth max_depth : Z) : bool := (max_depth <? depth)%Z.

Definition metadata_is_root (m : AgentMetadata) : bool :=
  match agent_path m with Some p => is_root p | None => false end.

(** The locked half of [release_spawned_thread]: whether a counted agent was removed. *)
Definition remove_thread (r : AgentRegistry) (thread_id : ThreadId) : AgentRegistry * bool :=
  let a := active_agents r in
  match thread_paths a !! thread_id with
  | None => (r, false)
  | Some key =>
      let r' := with_agents r (with_tree a (delete key (agent_tree a)) (delete thread_id (thread_paths a))) in
      match agent_tree a !! key with
      | Some metadata => (r', negb (metadata_is_root metadata))
      | None => (r', false)
      end
  end.

Definition register_root_thread (r : AgentRegistry) (thread_id : ThreadId) : AgentRegistry :=
  let a := active_agents r in
  let '(tree, root_thread_id) :=
    match agent_tree a !! ROOT with
    | Some m => (agent_tree a, agent_id m)
    | None =>
        let m := {| agent_id := Some thread_id; agent_path := Some ROOT; agent_nickname := None;
                    agent_role := None |} in
        (<[ROOT := m]> (agent_tree a), agent_id m)
    end in
  let paths :=
    match root_thread_id with
    | Some root_thread_id => <[root_thread_id := ROOT]> (thread_paths a)
    | None => thread_paths a
    end in
  with_agents r (with_tree a tree paths).

Definition agent_id_for_path (r : AgentRegistry) (path : str) : option ThreadId :=
  agent_tree (active_agents r) !! path ≫= agent_id.

Definition agent_metadata_for_thread (r : AgentRegistry) (thread_id : ThreadId) : option AgentMetadata :=
  thread_paths (active_agents r) !! thread_id ≫= fun path => agent_tree (active_agents r) !! path.

Definition counts (m : AgentMetadata) : bool :=
  match agent_id m with Some _ => negb (metadata_is_root m) | None => false end.

Definition live_agents (r : AgentRegistry) : list AgentMetadata :=
  List.filter counts ((map_to_list (agent_tree (active_agents r))).*2).

Definition metadata_key (m : AgentMetadata) (thread_id : ThreadId) : str :=
  match agent_path m with Some p => p | None => s! "thread:" ++ thread_id end.

Definition register_spawned_thread (r : AgentRegistry) (m : AgentMetadata) : AgentRegistry :=
  match agent_id m with
  | None => r
  | Some thread_id =>
      let a := active_agents r in
      let key := metadata_key m thread_id in
      let a := match agent_nickname m with
               | Some nick => with_nicknames a ({[nick]} ∪ used_agent_nicknames a) (nickname_reset_count a)
               | None => a
               end in
      let tree :=
        match thread_paths a !! thread_id with
        | Some previous_key =>
            if negb (str_eqb previous_key key) then delete previous_key (agent_tree a) else agent_tree a
        | None => agent_tree a
        end in
      let paths := <[thread_id := key]> (thread_paths a) in
      let paths :=
        match tree !! key ≫= agent_id with
        | Some previous_thread_id =>
            if negb (str_eqb previous_thread_id thread_id) then delete previous_thread_id paths else paths
        | None => paths
        end in
      with_agents r (with_tree a (<[key := m]> tree) paths)
  end.

(** [choose(&mut rng)]: some element, [choice] standing for the random draw. *)
Definition choose {A} (l : list A) (choice : nat) : option A := l !! (choice mod length l)%nat.

Definition reserve_agent_nickname (r : AgentRegistry) (names : list str) (preferred : option str)
    (choice : nat) : AgentRegistry * option str :=
  let a := active_agents r in
  let finish a nick :=
    (with_agents r (with_nicknames a ({[nick]} ∪ used_agent_nicknames a) (nickname_reset_count a)), Some nick) in
  match preferred with
  | Some preferred => finish a preferred
  | None =>
      if is_empty names then (r, None)
      else
        let available_names :=
          List.filter (fun nick => bool_decide (nick ∉ used_agent_nicknames a))
            (map (fun nm => format_agent_nickname nm (nickname_reset_count a)) names) in
        match choose available_names choice with
        | Some nick => finish a nick
        | None =>
            let a := with_nicknames a ∅ (nickname_reset_count a + 1) in
            match choose names choice with
            | Some nm => finish a (format_agent_nickname nm (nickname_reset_count a))
            | None => (with_agents r a, None)
            end
        end
  end.

Definition reserve_agent_path (r : AgentRegistry) (path : str) : result AgentRegistry str :=
  let a := active_agents r in
  match agent_tree a !! path with
  | Some _ => Err (s! "agent path `" ++ path ++ s! "` already exists")
  | None =>
      let m := {| agent_id := None; agent_path := Some path; agent_nickname := None; agent_role := None |} in
      Ok (with_agents r (with_tree a (<[path := m]> (agent_tree a)) (thread_paths a)))
  end.

Definition release_reserved_agent_path (r : AgentRegistry) (path : str) : AgentRegistry :=
  let a := active_agents r in
  match agent_tree a !! path with
  | Some m =>
      match agent_id m with
      | None => with_agents r (with_tree a (delete path (agent_tree a)) (thread_paths a))
      | Some _ => r
      end
  | None => r
  end.

(** ** Interleavings *)

Record SpawnReservation := {
  reserved_agent_nickname : option str;
  reserved_agent_path : option str
}.

(** What a thread is in the middle of: the loop of [try_increment_spawned] with
    the value it last read, holding a reservation, or due to decrement the
    counter after the locked half of a drop or of a release. *)
Inductive Process :=
| Incrementing (max_threads current : N)
| Reserved (r : SpawnReservation)
| Decrementing.

Record System := { registry : AgentRegistry; processes : gmap nat Process }.

Definition system_init : System := {| registry := registry_default; processes := ∅ |}.

Inductive Event :=
| EStart (i : nat) (max_threads : option N)
| ECompareExchange (i : nat) (spurious : bool)
| ENickname (i : nat) (names : list str) (preferred : option str) (choice : nat)
| EPath (i : nat) (path : str)
| ECommit (i : nat) (m : AgentMetadata)
| EDrop (i : nat)
| ERelease (i : nat) (thread_id : ThreadId)
| EDecrement (i : nat)
| ERoot (thread_id : ThreadId).

Definition set_proc (s : System) (r : AgentRegistry) (i : nat) (p : Process) : System :=
  {| registry := r; processes := <[i := p]> (processes s) |}.

Definition end_proc (s : System) (r : AgentRegistry) (i : nat) : System :=
  {| registry := r; processes := delete i (processes s) |}.

Definition fresh_reservation : Process :=
  Reserved {| reserved_agent_nickname := None; reserved_agent_path := None |}.

(** One step; [None] when the event is not enabled. *)
Definition exec (s : System) (e : Event) : option System :=
  let r := registry s in
  match e with
  | EStart i max_threads =>
      match processes s !! i, max_threads with
      | None, Some max_threads => Some (set_proc s r i (Incrementing max_threads (total_count r)))
      | None, None => Some (set_proc s (fetch_add r) i fresh_reservation)
      | Some _, _ => None
      end
  | ECompareExchange i spurious =>
      match processes s !! i with
      | Some (Incrementing max_threads current) =>
          if (max_threads <=? current)%N then Some (end_proc s r i)
          else if (total_count r =? current)%N && negb spurious then
            Some (set_proc s {| active_agents := active_agents r; total_count := current + 1 |} i
                    fresh_reservation)
          else Some (set_proc s r i (Incrementing max_threads (total_count r)))
      | _ => None
      end
  | ENickname i names preferred choice =>
      match processes s !! i with
      | Some (Reserved res) =>
          match reserve_agent_nickname r names preferred choice with
          | (r, Some nick) =>
              Some (set_proc s r i (Reserved {| reserved_agent_nickname := Some nick;
                                                reserved_agent_path := reserved_agent_path res |}))
          | (r, None) => Some {| registry := r; processes := processes s |}
          end
      | _ => None
      end
  | EPath i path =>
      match processes s !! i with
      | Some (Reserved res) =>
          match reserve_agent_path r path with
          | Ok r => Some (set_proc s r i (Reserved {| reserved_agent_nickname := reserved_agent_nickname res;
                                                      reserved_agent_path := Some path |}))
          | Err _ => Some s
          end
      | _ => None
      end
  | ECommit i m =>
      match processes s !! i with
      | Some (Reserved _) => Some (end_proc s (register_spawned_thread r m) i)
      | _ => None
      end
  | EDrop i =>
      match processes s !! i with
      | Some (Reserved res) =>
          let r := match reserved_agent_path res with
                   | Some path => release_reserved_agent_path r path
                   | None => r
                   end in
          Some (set_proc s r i Decrementing)
      | _ => None
      end
  | ERelease i thread_id =>
      match processes s !! i with
      | None =>
          let '(r, removed_counted_agent) := remove_thread r thread_id in
          if removed_counted_agent then Some (set_proc s r i Decrementing)
          else Some {| registry := r; processes := processes s |}
      | Some _ => None
      end
  | EDecrement i =>
      match processes s !! i with
      | Some Decrementing => Some (end_proc s (fetch_sub r) i)
      | _ => None
      end
  | ERoot thread_id => Some {| registry := register_root_thread r thread_id; processes := processes s |}
  end.

Fixpoint run (s : System) (evs : list Event) : option System :=
  match evs with
  | [] => Some s
  | e :: evs => s ← exec s e; run s evs
  end.
