(* ===== verification/AgentRegistryFacts.v ===== *)
(** Safety of the agent registry under every interleaving, and the algebra of
    agent paths ([AgentRegistry.v]). *)
From stdpp Require Import gmap.
From S2P Require Import Prelude RustStr AgentRegistry.
Open Scope dcode_scope.

(** ** Counting the entries of a map *)

Section Count.
Context {K : Type} `{Countable K} {A : Type} (p : A -> bool).

Definition b2n (b : bool) : nat := if b then 1%nat else 0%nat.
Definition count (m : gmap K A) : nat := size (filter (fun kv => p kv.2 = true) m).
Definition count_at (o : option A) : nat := match o with Some x => b2n (p x) | None => 0%nat end.

Lemma count_empty : count ∅ = 0%nat.
Proof. unfold count. rewrite map_filter_empty. apply map_size_empty. Qed.

Lemma count_delete m k : (count (delete k m) + count_at (m !! k) = count m)%nat.
Proof.
  unfold count. rewrite map_filter_delete. set (f := filter _ m).
  destruct (m !! k) as [x|] eqn:E; simpl; [destruct (p x) eqn:Ep; simpl|].
  - assert (is_Some (f !! k)) as Hs by (exists x; by apply map_lookup_filter_Some).
    pose proof (map_size_ne_0_lookup_2 f k Hs). rewrite map_size_delete_Some by done. lia.
  - rewrite map_size_delete_None; [lia|]. apply map_lookup_filter_None_2. right.
    intros y Hy. simpl. congruence.
  - rewrite map_size_delete_None; [lia|]. apply map_lookup_filter_None_2. by left.
Qed.

Lemma count_insert m k v :
  (count (<[k := v]> m) + count_at (m !! k) = count m + b2n (p v))%nat.
Proof.
  pose proof (count_delete (<[k := v]> m) k) as Hd. pose proof (count_delete m k) as Hm.
  rewrite lookup_insert_eq in Hd. rewrite delete_insert_eq in Hd. simpl in Hd. lia.
Qed.

End Count.

(** ** The invariant *)

Definition holds (p : Process) : bool := match p with Incrementing _ _ => false | _ => true end.

(** Agents with a thread, the root apart. *)
Definition live (s : System) : nat := count counts (agent_tree (active_agents (registry s))).

(** Threads that hold a slot without a live agent: reservations, and drops and
    releases that have not decremented the counter yet. *)
Definition held (s : System) : nat := count holds (processes s).

Definition balance (s : System) : Z :=
  (Z.of_N (total_count (registry s)) - Z.of_nat (live s) - Z.of_nat (held s))%Z.

(** A thread's path leads to that thread's entry. *)
Definition paths_ok (a : ActiveAgents) : Prop :=
  forall t k, thread_paths a !! t = Some k -> exists m, agent_tree a !! k = Some m /\ agent_id m = Some t.

(** The loops in progress run with a bound of at most [max_threads]. *)
Definition procs_ok (max_threads : N) (ps : gmap nat Process) : Prop :=
  map_Forall (fun _ p => match p with Incrementing n _ => (n <= max_threads)%N | _ => True end) ps.

Record inv (max_threads : N) (s : System) : Prop := {
  inv_paths : paths_ok (active_agents (registry s));
  inv_balance : (0 <= balance s)%Z;
  inv_limit : (total_count (registry s) <= max_threads)%N;
  inv_procs : procs_ok max_threads (processes s)
}.

(** Spawns bounded by [max_threads]. *)
Definition limited (max_threads : N) (e : Event) : Prop :=
  match e with EStart _ (Some n) => (n <= max_threads)%N | EStart _ None => False | _ => True end.

(** A commit that registers a new thread under a path nobody lives at. *)
Definition clean_commit (a : ActiveAgents) (m : AgentMetadata) : Prop :=
  exists t, agent_id m = Some t /\ metadata_is_root m = false /\ thread_paths a !! t = None /\
    (agent_tree a !! metadata_key m t ≫= agent_id) = None.

Definition disciplined (s : System) (e : Event) : Prop :=
  match e with ECommit _ m => clean_commit (active_agents (registry s)) m | _ => True end.

Ltac lookups :=
  repeat match goal with
  | H : <[?i := _]> _ !! ?i = _ |- _ => rewrite lookup_insert_eq in H
  | H : delete ?i _ !! ?i = _ |- _ => rewrite lookup_delete_eq in H
  | H : <[_ := _]> _ !! _ = Some _ |- _ => apply lookup_insert_Some in H as [[??]|[??]]
  | H : delete _ _ !! _ = Some _ |- _ => apply lookup_delete_Some in H as [??]
  end; simplify_eq.

(** ** The locked sections *)

Lemma paths_inj a t t' k :
  paths_ok a -> thread_paths a !! t = Some k -> thread_paths a !! t' = Some k -> t = t'.
Proof. intros Hp H1 H2. destruct (Hp _ _ H1) as (m & ? & ?), (Hp _ _ H2) as (m' & ? & ?). congruence. Qed.

Lemma remove_thread_ok r t :
  paths_ok (active_agents r) ->
  let '(r', counted) := remove_thread r t in
  paths_ok (active_agents r') /\ total_count r' = total_count r /\
  (count counts (agent_tree (active_agents r')) + b2n counted = count counts (agent_tree (active_agents r)))%nat.
Proof.
  intros Hp. unfold remove_thread.
  destruct (thread_paths (active_agents r) !! t) as [k|] eqn:Ek; [|by rewrite Nat.add_0_r].
  destruct (Hp _ _ Ek) as (m & Hm & Hid). rewrite Hm. split_and!; [|done|].
  - intros t' k' Ht'. simpl in *. apply lookup_delete_Some in Ht' as [Hne Ht'].
    destruct (Hp _ _ Ht') as (m' & Hm' & Hid'). exists m'. split; [|done].
    rewrite lookup_delete_ne; [done|]. intros ->. congruence.
  - simpl. pose proof (count_delete counts (agent_tree (active_agents r)) k) as Hc.
    rewrite Hm in Hc. simpl in Hc. unfold counts in Hc at 2. by rewrite Hid in Hc.
Qed.

Lemma register_root_thread_ok r t :
  paths_ok (active_agents r) ->
  let r' := register_root_thread r t in
  paths_ok (active_agents r') /\ total_count r' = total_count r /\
  count counts (agent_tree (active_agents r')) = count counts (agent_tree (active_agents r)).
Proof.
  intros Hp. unfold register_root_thread.
  destruct (agent_tree (active_agents r) !! ROOT) as [m|] eqn:Em; simpl; split_and!; try done.
  - destruct (agent_id m) as [rt|] eqn:Eid; [|done].
    intros t' k' Ht'. simpl in *. lookups; [by eauto|]. by apply Hp.
  - intros t' k' Ht'. simpl in *. lookups.
    + eexists. by rewrite lookup_insert_eq.
    + destruct (Hp t' k') as (m' & Hm' & Hid'); [done|]. exists m'. split; [|done].
      rewrite lookup_insert_ne; [done|]. intros <-. congruence.
  - pose proof (count_insert counts (agent_tree (active_agents r)) ROOT
      {| agent_id := Some t; agent_path := Some ROOT; agent_nickname := None; agent_role := None |}) as Hc.
    rewrite Em in Hc. change (b2n (counts _)) with 0%nat in Hc. simpl in Hc. lia.
Qed.

Lemma register_spawned_thread_ok r m :
  paths_ok (active_agents r) ->
  let r' := register_spawned_thread r m in
  let n := count counts (agent_tree (active_agents r)) in
  let n' := count counts (agent_tree (active_agents r')) in
  paths_ok (active_agents r') /\ total_count r' = total_count r /\ (n' <= n + 1)%nat /\
  (clean_commit (active_agents r) m -> n' = n + 1)%nat.
Proof.
  intros Hp. unfold register_spawned_thread.
  destruct (agent_id m) as [t|] eqn:Eid; [|split_and!; [done..|lia|]; intros (? & ? & _); congruence].
  set (key := metadata_key m t). set (a := active_agents r) in *.
  set (a1 := match agent_nickname m with Some _ => _ | None => _ end).
  assert (agent_tree a1 = agent_tree a /\ thread_paths a1 = thread_paths a) as [-> ->]
    by (unfold a1; by destruct (agent_nickname m)).
  set (tree := match thread_paths a !! t with Some _ => _ | None => _ end).
  (* removing the thread's previous entry *)
  assert (Htree : forall t' k', t' <> t -> thread_paths a !! t' = Some k' ->
            exists m', tree !! k' = Some m' /\ agent_id m' = Some t').
  { intros t' k' Hne Ht'. destruct (Hp _ _ Ht') as (m' & Hm' & Hid').
    exists m'. split; [|done]. unfold tree. destruct (thread_paths a !! t) as [pk|] eqn:Epk; [|done].
    case_match; [|done]. rewrite lookup_delete_ne; [done|]. intros ->.
    apply Hne. by eapply paths_inj. }
  assert (Hcount : (count counts tree <= count counts (agent_tree a))%nat).
  { unfold tree. repeat case_match; try lia.
    match goal with |- context [delete ?k _] => pose proof (count_delete counts (agent_tree a) k) end. lia. }
  pose proof (count_insert counts tree key m) as Hins.
  split_and!; [|done| |].
  - intros t' k' Ht'. simpl in *.
    destruct (decide (t' = t)) as [->|Hne].
    + assert (k' = key) as ->; [|exists m; by rewrite lookup_insert_eq].
      repeat case_match; lookups; done.
    + destruct (decide (k' = key)) as [->|Hk].
      * exfalso. assert (Hold : thread_paths a !! t' = Some key).
        { repeat case_match; lookups; done. }
        destruct (Htree t' key Hne Hold) as (m' & Hm' & Hid').
        rewrite Hm' in Ht'. simpl in Ht'. rewrite Hid' in Ht'.
        destruct (negb (str_eqb t' t)) eqn:E; [by rewrite lookup_delete_eq in Ht'|].
        apply negb_false_iff, str_eqb_eq in E. done.
      * assert (Hold : thread_paths a !! t' = Some k').
        { repeat case_match; lookups; done. }
        destruct (Htree t' k' Hne Hold) as (m' & Hm' & Hid'). exists m'.
        by rewrite lookup_insert_ne.
  - simpl. unfold b2n in Hins. case_match; lia.
  - intros (t' & Hid & Hroot & Hnew & Hfree). simplify_eq. simpl.
    assert (tree = agent_tree a) as Htr by (unfold tree; by rewrite Hnew).
    rewrite Htr in *. fold key in Hfree.
    assert (counts m = true) as Hcm by (unfold counts; by rewrite Eid, Hroot).
    rewrite Hcm in Hins. simpl in Hins.
    destruct (agent_tree a !! key) as [old|]; simpl in *; [|lia].
    assert (counts old = false) as Hco by (unfold counts; by rewrite Hfree).
    rewrite Hco in Hins. simpl in Hins. lia.
Qed.

Lemma reserve_agent_nickname_frame r names preferred choice :
  let r' := fst (reserve_agent_nickname r names preferred choice) in
  agent_tree (active_agents r') = agent_tree (active_agents r) /\
  thread_paths (active_agents r') = thread_paths (active_agents r) /\ total_count r' = total_count r.
Proof. unfold reserve_agent_nickname. by repeat case_match. Qed.

Lemma reserve_agent_path_ok r path r' :
  paths_ok (active_agents r) -> reserve_agent_path r path = Ok r' ->
  paths_ok (active_agents r') /\ total_count r' = total_count r /\
  count counts (agent_tree (active_agents r')) = count counts (agent_tree (active_agents r)).
Proof.
  intros Hp. unfold reserve_agent_path.
  destruct (agent_tree (active_agents r) !! path) as [m|] eqn:Em; intros [= <-]. simpl. split_and!; [|done|].
  - intros t k Ht. destruct (Hp _ _ Ht) as (m & Hm & Hid). exists m. split; [|done]. simpl.
    rewrite lookup_insert_ne; [done|]. intros <-. congruence.
  - pose proof (count_insert counts (agent_tree (active_agents r)) path
      {| agent_id := None; agent_path := Some path; agent_nickname := None; agent_role := None |}) as Hc.
    rewrite Em in Hc. simpl in Hc. lia.
Qed.

Lemma release_reserved_agent_path_ok r path :
  paths_ok (active_agents r) ->
  let r' := release_reserved_agent_path r path in
  paths_ok (active_agents r') /\ total_count r' = total_count r /\
  count counts (agent_tree (active_agents r')) = count counts (agent_tree (active_agents r)).
Proof.
  intros Hp. unfold release_reserved_agent_path.
  destruct (agent_tree (active_agents r) !! path) as [m|] eqn:Em; [|done].
  destruct (agent_id m) eqn:Eid; [done|]. simpl. split_and!; [|done|].
  - intros t k Ht. destruct (Hp _ _ Ht) as (m' & Hm & Hid). exists m'. split; [|done]. simpl.
    rewrite lookup_delete_ne; [done|]. intros <-. congruence.
  - pose proof (count_delete counts (agent_tree (active_agents r)) path) as Hc.
    rewrite Em in Hc. simpl in Hc. unfold counts in Hc at 2. rewrite Eid in Hc. simpl in Hc. lia.
Qed.

(** ** Steps *)

(** What a step does to the books: slots held by processes and live agents. *)
Lemma held_set s r i p :
  (held (set_proc s r i p) + count_at holds (processes s !! i) = held s + b2n (holds p))%nat.
Proof. apply count_insert. Qed.

Lemma held_end s r i : (held (end_proc s r i) + count_at holds (processes s !! i) = held s)%nat.
Proof. apply count_delete. Qed.

Lemma fetch_sub_pos r : (0 < total_count r <= USIZE_MAX)%N -> total_count (fetch_sub r) = (total_count r - 1)%N.
Proof.
  intros Hr. simpl. replace (total_count r + USIZE_MAX)%N with (total_count r - 1 + 1 * (USIZE_MAX + 1))%N by lia.
  rewrite N.Div0.mod_add. apply N.mod_small. lia.
Qed.

(** The books of two states, compared. *)
Lemma inv_step n s s' (P : Prop) :
  inv n s -> paths_ok (active_agents (registry s')) -> procs_ok n (processes s') ->
  (total_count (registry s') <= n)%N ->
  (balance s <= balance s')%Z -> (P -> balance s' = balance s) ->
  inv n s' /\ (P -> balance s' = balance s).
Proof. intros [? ? ? ?] ? ? ? ? ?. split; [split; (done || lia)|done]. Qed.

Lemma inv_same n s s' (P : Prop) :
  inv n s -> paths_ok (active_agents (registry s')) -> procs_ok n (processes s') ->
  total_count (registry s') = total_count (registry s) -> live s' = live s -> held s' = held s ->
  inv n s' /\ (P -> balance s' = balance s).
Proof.
  intros Hi Hp Hps Ht Hl Hh. assert (balance s' = balance s) by (unfold balance; by rewrite Ht, Hl, Hh).
  apply inv_step; [done..|rewrite Ht; apply Hi|lia|done].
Qed.

Lemma exec_spawn_inv n s i mx s' (P : Prop) :
  (mx <= n)%N -> inv n s -> exec s (EStart i (Some mx)) = Some s' ->
  inv n s' /\ (P -> balance s' = balance s).
Proof.
  intros Hm Hi Hexec. simpl in Hexec. destruct (processes s !! i) eqn:Ei; [done|]. simplify_eq.
  pose proof (held_set s (registry s) i (Incrementing mx (total_count (registry s)))) as Hh.
  rewrite Ei in Hh. simpl in Hh. apply inv_same; try done; try apply Hi; [|lia].
  by apply map_Forall_insert_2; [|apply Hi].
Qed.

(** The compare-exchange loop counts a slot only below the bound. *)
Lemma exec_cas_inv n s i spurious s' (P : Prop) :
  inv n s -> exec s (ECompareExchange i spurious) = Some s' ->
  inv n s' /\ (P -> balance s' = balance s).
Proof.
  intros Hi Hexec. simpl in Hexec.
  destruct (processes s !! i) as [[mx cur| |]|] eqn:Ei; try done.
  assert (mx <= n)%N as Hm by apply (inv_procs _ _ Hi _ _ Ei).
  destruct (N.leb_spec mx cur); [|destruct ((total_count (registry s) =? cur)%N && _) eqn:E]; simplify_eq.
  - pose proof (held_end s (registry s) i) as Hh. rewrite Ei in Hh. simpl in Hh.
    apply inv_same; try done; try apply Hi; [|lia]. apply map_Forall_delete, Hi.
  - set (r' := {| active_agents := _ |}). apply andb_prop in E as [E%N.eqb_eq _].
    pose proof (held_set s r' i fresh_reservation) as Hh. rewrite Ei in Hh. simpl in Hh.
    assert (live (set_proc s r' i fresh_reservation) = live s) as Hlv by done.
    apply inv_step; try done; try apply Hi; try (unfold balance; simpl; lia).
    by apply map_Forall_insert_2; [|apply Hi].
  - pose proof (held_set s (registry s) i (Incrementing mx (total_count (registry s)))) as Hh.
    rewrite Ei in Hh. simpl in Hh. apply inv_same; try done; try apply Hi; [|lia].
    by apply map_Forall_insert_2; [|apply Hi].
Qed.

(** A locked section run by the holder of a reservation that keeps it. *)
Lemma reserved_inv n s i res r' res' (P : Prop) :
  inv n s -> processes s !! i = Some (Reserved res) ->
  paths_ok (active_agents r') -> total_count r' = total_count (registry s) ->
  count counts (agent_tree (active_agents r')) = live s -> holds res' = true ->
  let s' := set_proc s r' i res' in inv n s' /\ (P -> balance s' = balance s).
Proof.
  intros Hi Ei Hp Ht Hl Hr. pose proof (held_set s r' i res') as Hh. rewrite Ei, Hr in Hh. simpl in Hh.
  apply inv_same; try done; [|lia]. apply map_Forall_insert_2; [by destruct res'|apply Hi].
Qed.

(** Every step keeps the invariant and never lets the balance fall; a
    disciplined one keeps the balance. *)
Lemma exec_inv n s e s' :
  (n <= USIZE_MAX)%N -> limited n e -> inv n s -> exec s e = Some s' ->
  inv n s' /\ (disciplined s e -> balance s' = balance s).
Proof.
  intros Hn Hlim Hi Hexec. pose proof Hi as [Hp Hb Hl Hps].
  destruct e as [i mx|i spurious|i names preferred choice|i path|i m|i|i t|i|t].
  - destruct mx as [mx|]; [|done]. eapply exec_spawn_inv; [exact Hlim|done..].
  - by eapply exec_cas_inv.
  - simpl in Hexec. destruct (processes s !! i) as [[|res|]|] eqn:Ei; try done.
    pose proof (reserve_agent_nickname_frame (registry s) names preferred choice) as (Ht & Hpa & Hc).
    destruct (reserve_agent_nickname _ _ _ _) as [r' [nick|]]; simplify_eq/=.
    + eapply reserved_inv; eauto; [|unfold live; by rewrite Ht].
      intros t k. rewrite Ht, Hpa. apply Hp.
    + apply inv_same; simpl; try done; [|unfold live; simpl; by rewrite Ht].
      intros t k. rewrite Ht, Hpa. apply Hp.
  - simpl in Hexec. destruct (processes s !! i) as [[|res|]|] eqn:Ei; try done.
    destruct (reserve_agent_path (registry s) path) as [r'|] eqn:Er; simplify_eq; [|by apply inv_same].
    destruct (reserve_agent_path_ok _ _ _ Hp Er) as (? & ? & ?). by eapply reserved_inv.
  - simpl in Hexec. destruct (processes s !! i) as [[|res|]|] eqn:Ei; try done. simplify_eq.
    destruct (register_spawned_thread_ok (registry s) m Hp) as (Hp' & Ht & Hle & Heq).
    pose proof (held_end s (register_spawned_thread (registry s) m) i) as Hh. rewrite Ei in Hh. simpl in Hh.
    apply inv_step; try done.
    + by apply map_Forall_delete.
    + simpl. by rewrite Ht.
    + unfold balance, live in *. simpl. rewrite Ht. lia.
    + intros Hd. specialize (Heq Hd). unfold balance, live in *. simpl. rewrite Ht. lia.
  - simpl in Hexec. destruct (processes s !! i) as [[|res|]|] eqn:Ei; try done. simplify_eq.
    destruct (reserved_agent_path res) as [path|]; [|by eapply reserved_inv].
    destruct (release_reserved_agent_path_ok (registry s) path Hp) as (? & ? & ?). by eapply reserved_inv.
  - simpl in Hexec. destruct (processes s !! i) eqn:Ei; [done|].
    pose proof (remove_thread_ok (registry s) t Hp) as Hr.
    destruct (remove_thread (registry s) t) as [r' counted]. destruct Hr as (Hp' & Ht & Hc).
    destruct counted; simplify_eq; simpl in Hc.
    + pose proof (held_set s r' i Decrementing) as Hh. rewrite Ei in Hh. simpl in Hh.
      apply inv_step; try done; try (unfold balance, live in *; simpl in *; lia).
      by apply map_Forall_insert_2.
    + apply inv_same; try done. unfold live. simpl. lia.
  - simpl in Hexec. destruct (processes s !! i) as [[| |]|] eqn:Ei; try done. simplify_eq.
    pose proof (held_end s (fetch_sub (registry s)) i) as Hh. rewrite Ei in Hh. simpl in Hh.
    assert (total_count (fetch_sub (registry s)) = total_count (registry s) - 1)%N as Ht.
    { apply fetch_sub_pos. unfold balance in Hb. lia. }
    assert (live (end_proc s (fetch_sub (registry s)) i) = live s) as Hlv by done.
    unfold balance in Hb.
    apply inv_step; try done; try (unfold balance; simpl registry; lia).
    by apply map_Forall_delete.
  - simpl in Hexec. simplify_eq.
    destruct (register_root_thread_ok (registry s) t Hp) as (? & ? & ?). by apply inv_same.
Qed.

Lemma inv_init n : inv n system_init.
Proof.
  split; simpl; [by intros t k|by unfold balance, live, held; simpl; rewrite !count_empty|lia|].
  by intros i p.
Qed.

(** ** Runs *)

(** Every event of the run satisfies [P] in the state it happens in. *)
Fixpoint run_all (P : System -> Event -> Prop) (s : System) (evs : list Event) : Prop :=
  match evs with
  | [] => True
  | e :: evs => P s e /\ match exec s e with Some s' => run_all P s' evs | None => True end
  end.

Lemma run_inv n s evs s' :
  (n <= USIZE_MAX)%N -> Forall (limited n) evs -> inv n s -> run s evs = Some s' ->
  inv n s' /\ (run_all disciplined s evs -> balance s' = balance s).
Proof.
  intros Hn Hlim; revert s; induction Hlim as [|e evs He _ IH]; intros s Hi Hrun; simpl in *; [by simplify_eq|].
  destruct (exec s e) as [s1|] eqn:E; simpl in Hrun; [|done].
  destruct (exec_inv n s e s1 Hn He Hi E) as [Hi1 Hb1].
  destruct (IH s1 Hi1 Hrun) as [Hi' Hb']. split; [done|]. intros [Hd Hds]. rewrite Hb' by done. by apply Hb1.
Qed.

(** ** Properties *)

(** C35: Under every interleaving of spawns bounded by at most [n] threads,
    nickname and path reservations, commits of whatever metadata, dropped
    reservations, releases and root registrations, the counter never exceeds
    [n] and never wraps below zero, live agents and outstanding slots together
    number at most the counter, and every registered thread's path leads to
    that thread's own entry. *)
Theorem spawn_limit_respected n evs s :
  (n <= USIZE_MAX)%N -> Forall (limited n) evs -> run system_init evs = Some s ->
  (N.of_nat (live s + held s) <= total_count (registry s) <= n)%N /\
  (forall t k, thread_paths (active_agents (registry s)) !! t = Some k ->
     exists m, agent_metadata_for_thread (registry s) t = Some m /\ agent_id m = Some t).
Proof.
  intros Hn Hlim Hrun. destruct (run_inv n _ _ _ Hn Hlim (inv_init n) Hrun) as [[Hp Hb Hl _] _].
  split; [unfold balance in Hb; lia|].
  intros t k Ht. destruct (Hp t k Ht) as (m & Hm & Hid). exists m.
  unfold agent_metadata_for_thread. rewrite Ht. simpl. by rewrite Hm.
Qed.

(** Slots are not leaked: when every commit registers a new thread, under
    a path where no other thread lives, the counter is exactly the number of
    live agents plus the slots still held; so once every agent is released and
    no reservation, drop or release is in progress, it is back to zero. *)
Theorem spawn_slots_returned n evs s :
  (n <= USIZE_MAX)%N -> Forall (limited n) evs -> run system_init evs = Some s ->
  run_all disciplined system_init evs ->
  total_count (registry s) = N.of_nat (live s + held s) /\
  (processes s = ∅ -> (forall k m, agent_tree (active_agents (registry s)) !! k = Some m -> counts m = false) ->
   total_count (registry s) = 0%N).
Proof.
  intros Hn Hlim Hrun Hd. destruct (run_inv n _ _ _ Hn Hlim (inv_init n) Hrun) as [_ Hb].
  specialize (Hb Hd). unfold balance in Hb.
  change (live system_init) with (count counts (∅ : gmap str AgentMetadata)) in Hb.
  change (held system_init) with (count holds (∅ : gmap nat Process)) in Hb.
  rewrite !count_empty in Hb. simpl in Hb.
  assert (total_count (registry s) = N.of_nat (live s + held s)) as Ht by lia.
  split; [done|]. intros Hps Hnone. rewrite Ht. unfold live, held. rewrite Hps, count_empty.
  enough (count counts (agent_tree (active_agents (registry s))) = 0%nat) by lia.
  unfold count. apply map_size_empty_iff, map_empty. intros k.
  apply map_lookup_filter_None_2. right. intros m Hm. simpl. by rewrite (Hnone k m Hm).
Qed.

Definition sample_run : list Event :=
  [ERoot (s! "r"); EStart 0 (Some 1%N); EStart 1 (Some 1%N); ECompareExchange 1 true; ECompareExchange 0 false;
   ECompareExchange 1 false; ENickname 0 [s! "ada"] None 0; EPath 0 (s! "/root/a"); ECompareExchange 1 false;
   ECommit 0 {| agent_id := Some (s! "t"); agent_path := Some (s! "/root/a"); agent_nickname := None;
                agent_role := None |};
   ERelease 2 (s! "t"); EDecrement 2].

(** Two spawners race for one slot: one wins, the other is refused. *)
Lemma spawn_limit_respected_witness :
  exists s, run system_init (take 10 sample_run) = Some s /\ total_count (registry s) = 1%N /\
    (N.of_nat (live s + held s) <= total_count (registry s) <= 1)%N.
Proof.
  destruct (run system_init (take 10 sample_run)) as [s|] eqn:E; [|by vm_compute in E].
  exists s. split; [done|]. split; [by vm_compute in E; simplify_eq|].
  apply (spawn_limit_respected 1 (take 10 sample_run) s); [done|by repeat constructor|done].
Defined.

Lemma spawn_slots_returned_witness :
  exists s, run system_init sample_run = Some s /\ total_count (registry s) = N.of_nat (live s + held s).
Proof.
  destruct (run system_init sample_run) as [s|] eqn:E; [|by vm_compute in E].
  exists s. split; [done|].
  apply (spawn_slots_returned 1 sample_run s); [done|by repeat constructor|done|].
  repeat split. eexists. by split_and!.
Defined.

(** ** Agent paths *)

Definition valid_name (n : str) : Prop := validate_agent_name n = Ok tt.

(** [/root/n1/n2/...] *)
Definition path_of (names : list str) : str := join [slash] ([] :: ROOT_SEGMENT :: names).

Lemma valid_name_free n : valid_name n -> (slash ∉ n) /\ n <> [].
Proof.
  unfold valid_name, validate_agent_name. destruct (is_empty n) eqn:E1; [done|].
  destruct (str_eqb n ROOT_SEGMENT); [done|]. destruct (_ || _); [done|].
  destruct (contains_char slash n) eqn:E2; [done|]. intros _.
  by split; [apply contains_char_false|apply is_empty_false].
Qed.

Lemma validate_agent_names_ok names : (validate_agent_names names = Ok tt) <-> Forall valid_name names.
Proof.
  induction names as [|n names IH]; simpl; [by split|].
  rewrite Forall_cons, <- IH. unfold valid_name.
  destruct (validate_agent_name n) as [[]|e]; simpl; naive_solver.
Qed.

Lemma names_free names : Forall valid_name names -> Forall (fun p => slash ∉ p) names.
Proof. intros Hn. eapply Forall_impl; [done|]. intros n Hv. by apply valid_name_free. Qed.

Lemma join_last_nonslash names n :
  slash ∉ n -> n <> [] -> ends_with [slash] (join [slash] (names ++ [n])) = false.
Proof.
  intros Hf Hne. destruct (ends_with [slash] (join [slash] (names ++ [n]))) eqn:E; [|done].
  apply ends_with_true in E as [r Hr]. exfalso.
  assert (exists q, join [slash] (names ++ [n]) = q ++ n) as [q Hq].
  { destruct names as [|x names]; [by exists []|].
    rewrite join_app by done. eexists. by rewrite app_assoc. }
  destruct n as [|c n _] using rev_ind; [done|].
  rewrite Hq, app_assoc in Hr. apply app_inj_tail in Hr as [_ ->]. apply Hf. set_solver.
Qed.

Lemma path_of_unfold names : path_of names = slash :: join [slash] (ROOT_SEGMENT :: names).
Proof. unfold path_of. by rewrite join_cons. Qed.

Lemma path_of_app ns ms : ms <> [] -> path_of (ns ++ ms) = path_of ns ++ [slash] ++ join [slash] ms.
Proof. intros Hms. unfold path_of. rewrite !app_comm_cons. by apply join_app. Qed.

Lemma split_path_of names :
  Forall valid_name names -> split_on slash (join [slash] (ROOT_SEGMENT :: names)) = ROOT_SEGMENT :: names.
Proof.
  intros Hn. apply split_on_join; [done|]. apply Forall_cons_2; [|by apply names_free].
  apply contains_char_false. reflexivity.
Qed.

Lemma validate_path_of names : Forall valid_name names -> validate_absolute_path (path_of names) = Ok tt.
Proof.
  intros Hn. unfold validate_absolute_path. destruct (str_eqb (path_of names) MORPHEUS); [done|].
  rewrite path_of_unfold.
  change (slash :: join ?sep ?x) with ([slash] ++ join sep x). rewrite strip_prefix_app.
  rewrite split_path_of by done. rewrite (proj2 (str_eqb_eq ROOT_SEGMENT ROOT_SEGMENT)) by done. simpl negb.
    assert (ends_with [slash] (join [slash] (ROOT_SEGMENT :: names)) = false) as ->.
  { destruct names as [|n names _] using rev_ind; [done|].
    rewrite app_comm_cons. apply Forall_app in Hn as [_ [? ?]%Forall_singleton%valid_name_free].
    by apply (join_last_nonslash (ROOT_SEGMENT :: names)). }
  by apply validate_agent_names_ok.
Qed.

Lemma name_path_of ns n : valid_name n -> Forall valid_name ns -> name (path_of (ns ++ [n])) = n.
Proof.
  intros Hn Hns. unfold name. destruct (is_root (path_of (ns ++ [n]))) eqn:E.
  - apply str_eqb_eq, (f_equal (split_on slash)) in E. revert E.
    rewrite path_of_unfold.
    change (slash :: join ?sep ?x) with ([] ++ slash :: join sep x). rewrite split_on_app by set_solver.
    rewrite split_path_of by (by apply Forall_app_2; [|apply Forall_singleton]).
    change (split_on slash ROOT) with [[]; ROOT_SEGMENT]. intros [= E]. by destruct ns.
  - rewrite path_of_unfold.
    change (slash :: join ?sep ?x) with ([] ++ slash :: join sep x). rewrite split_on_app by set_solver.
    rewrite split_path_of by (by apply Forall_app_2; [|apply Forall_singleton]).
    rewrite !app_comm_cons, last_snoc.
    by rewrite (proj2 (is_empty_false n)) by apply valid_name_free, Hn.
Qed.

Lemma join_path_of ns n :
  Forall valid_name ns -> valid_name n -> join_path (path_of ns) n = Ok (path_of (ns ++ [n])).
Proof.
  intros Hns Hn. unfold join_path, from_string.
  assert (path_of ns ++ [slash] ++ n = path_of (ns ++ [n])) as -> by (symmetry; by apply path_of_app).
  rewrite Hn, validate_path_of; [done|]. by apply Forall_app_2; [|apply Forall_singleton].
Qed.

Lemma relative_reference_ok ms :
  Forall valid_name ms -> ms <> [] ->
  let reference := join [slash] ms in
  is_empty reference = false /\ starts_with [slash] reference = false /\
  validate_relative_reference reference = Ok tt.
Proof.
  intros Hm Hne reference.
  assert (exists c rest, reference = c :: rest /\ c <> slash) as (c & rest & Heq & Hc).
  { subst reference. destruct ms as [|m ms]; [done|]. apply Forall_cons in Hm as [[Hf Hmn]%valid_name_free _].
    destruct m as [|c m]; [done|]. exists c. destruct ms; [|rewrite join_cons by done]; eexists; split;
      try done; set_solver. }
  split_and!; [by rewrite Heq|by rewrite Heq; apply starts_with_head_ne|].
  unfold validate_relative_reference.
  assert (ends_with [slash] reference = false) as ->.
  { subst reference. destruct ms as [|m ms _] using rev_ind; [done|].
    apply Forall_app in Hm as [_ [? ?]%Forall_singleton%valid_name_free]. by apply join_last_nonslash. }
  subst reference. rewrite split_on_join by (done || by apply names_free). by apply validate_agent_names_ok.
Qed.

(** Joining names one at a time. *)
Fixpoint join_all (path : str) (names : list str) : result str str :=
  match names with
  | [] => Ok path
  | n :: names => let? p := join_path path n in join_all p names
  end.

Lemma join_all_path_of ns ms :
  Forall valid_name ns -> Forall valid_name ms -> join_all (path_of ns) ms = Ok (path_of (ns ++ ms)).
Proof.
  intros Hn Hm; revert ns Hn; induction Hm as [|m ms Hm _ IH]; intros ns Hn; simpl; [by rewrite app_nil_r|].
  rewrite join_path_of by done. simpl. rewrite IH; [by rewrite <- app_assoc|].
  by apply Forall_app_2; [|apply Forall_singleton].
Qed.

(** An agent path is accepted exactly when it is [/morpheus] or [/root]
    followed by names that [validate_agent_name] accepts. *)
Theorem agent_path_grammar p :
  is_ok (from_string p) = true <->
  p = MORPHEUS \/ exists names, Forall valid_name names /\ p = path_of names.
Proof.
  unfold from_string. split.
  - destruct (validate_absolute_path p) as [[]|] eqn:E; [intros _|done].
    unfold validate_absolute_path in E. destruct (str_eqb p MORPHEUS) eqn:Em; [left; by apply str_eqb_eq|right].
    destruct (strip_prefix [slash] p) as [stripped|] eqn:Es; [|done]. apply strip_prefix_Some in Es.
    destruct (split_on slash stripped) as [|root segments] eqn:Eq; [done|].
    destruct (str_eqb root ROOT_SEGMENT) eqn:Er; [simpl in E|done]. apply str_eqb_eq in Er as ->.
    destruct (ends_with [slash] stripped); [done|].
    exists segments. split; [by apply validate_agent_names_ok|].
    by rewrite path_of_unfold, <- Eq, join_split_on.
  - intros [->|(names & Hn & ->)]; [done|]. by rewrite validate_path_of.
Qed.

(** Resolving a relative reference is joining its names one by one: from
    a path below [/root], [n1/.../nk] resolves to the path extended by those
    names, and the last of them is the name of the result. *)
Theorem agent_path_resolve ns ms m :
  Forall valid_name ns -> Forall valid_name (ms ++ [m]) ->
  resolve (path_of ns) (join [slash] (ms ++ [m])) = Ok (path_of (ns ++ ms ++ [m])) /\
  join_all (path_of ns) (ms ++ [m]) = Ok (path_of (ns ++ ms ++ [m])) /\
  name (path_of (ns ++ ms ++ [m])) = m.
Proof.
  intros Hn Hm. assert (Hne : ms ++ [m] <> []) by (by destruct ms).
  destruct (relative_reference_ok _ Hm Hne) as (He & Hs & Hv).
  split_and!.
  - unfold resolve. rewrite He.
    destruct (str_eqb (join [slash] (ms ++ [m])) ROOT) eqn:Er.
    { apply str_eqb_eq in Er. rewrite Er in Hs. by vm_compute in Hs. }
    rewrite Hs, Hv. cbn [result_bind]. unfold from_string.
    rewrite <- path_of_app, validate_path_of by (done || by apply Forall_app_2). done.
  - by apply join_all_path_of.
  - apply Forall_app in Hm as [Hm Hm1]. rewrite Forall_singleton in Hm1.
    rewrite app_assoc. apply name_path_of; [done|]. by apply Forall_app_2.
Qed.

Lemma agent_path_resolve_witness :
  resolve (path_of [s! "a"]) (s! "b/c_1") = Ok (s! "/root/a/b/c_1") /\ name (s! "/root/a/b/c_1") = s! "c_1".
Proof.
  destruct (agent_path_resolve [s! "a"] [s! "b"] (s! "c_1")) as (H1 & _ & H3);
    [by repeat constructor..|]. split; [exact H1|exact H3].
Defined.
