(* ===== verification/NetAddr.v ===== *)
(** * Internet addresses and their classes

    The addresses of [network-proxy/src/policy.rs]: the parser and the
    classification helpers of [std::net] that the proxy calls, and the test for
    addresses that are not publicly routable.  A parser takes the rest of the
    input and gives back a value with what is left, or nothing, in which case the
    caller goes on from where it was ([read_atomically]). *)

From S2P Require Import Prelude RustStr.
From Stdlib Require Import ZifyBool ZifyN.

(** ** Addresses *)

Record Ipv4Addr := mk4 { oct1 : N; oct2 : N; oct3 : N; oct4 : N }.

(** The eight 16-bit segments. *)
Record Ipv6Addr := mk6 { segments : list N }.

Inductive IpAddr := V4 (ip : Ipv4Addr) | V6 (ip : Ipv6Addr).

#[export] Instance ipv4_eq_dec : EqDecision Ipv4Addr.
Proof. solve_decision. Defined.
#[export] Instance ipv6_eq_dec : EqDecision Ipv6Addr.
Proof. solve_decision. Defined.
#[export] Instance ip_eq_dec : EqDecision IpAddr.
Proof. solve_decision. Defined.

Definition wf4 (ip : Ipv4Addr) : Prop :=
  (oct1 ip < 256 /\ oct2 ip < 256 /\ oct3 ip < 256 /\ oct4 ip < 256)%N.
Definition wf6 (ip : Ipv6Addr) : Prop :=
  length (segments ip) = 8 /\ Forall (fun s => s < 65536)%N (segments ip).
Definition wf_ip (ip : IpAddr) : Prop :=
  match ip with V4 ip => wf4 ip | V6 ip => wf6 ip end.

(** ** [host.parse::<IpAddr>()] *)

Definition parser (A : Type) : Type := str -> option (A * str).

(** [char::to_digit] *)
Definition to_digit (radix : N) (c : char) : option N :=
  let d := if in_range 48 57 c then Some (c - 48)%N
           else if in_range 97 122 c then Some (c - 87)%N
           else if in_range 65 90 c then Some (c - 55)%N else None in
  match d with Some d => if (d <? radix)%N then Some d else None | None => None end.

Fixpoint read_digits (radix : N) (s : str) : list N * str :=
  match s with
  | [] => ([], [])
  | c :: s' =>
      match to_digit radix c with
      | Some d => let '(ds, rest) := read_digits radix s' in (d :: ds, rest)
      | None => ([], s)
      end
  end.

(** [read_number]: at most [max_digits] digits with a value below [bound]. *)
Definition read_number (radix bound : N) (max_digits : nat) (allow_zero_prefix : bool) : parser N :=
  fun s =>
    let '(ds, rest) := read_digits radix s in
    let result := fold_left (fun r d => r * radix + d)%N ds 0%N in
    let has_leading_zero := match ds with 0%N :: _ => true | _ => false end in
    if is_empty ds || (max_digits <? length ds)
       || (negb allow_zero_prefix && has_leading_zero && (1 <? length ds))
       || (bound <=? result)%N
    then None else Some (result, rest).

(** [read_separator]: before every item but the first. *)
Definition read_separator {A} (sep : char) (first : bool) (inner : parser A) : parser A :=
  fun s =>
    if first then inner s
    else match s with
         | c :: s' => if decide (c = sep) then inner s' else None
         | [] => None
         end.

Definition read_octet (first : bool) : parser N :=
  read_separator (ch ".") first (read_number 10 256 3 false).

Definition read_ipv4_addr : parser Ipv4Addr := fun s =>
  '(a, s) ← read_octet true s;
  '(b, s) ← read_octet false s;
  '(c, s) ← read_octet false s;
  '(d, s) ← read_octet false s;
  Some (mk4 a b c d, s).

(** [read_groups] with [n] slots left: the groups, whether they end in an
    embedded IPv4 address, and what is left. *)
Fixpoint read_groups (n : nat) (first : bool) (s : str) : list N * bool * str :=
  match n with
  | 0 => ([], false, s)
  | S n' =>
      match (if n' =? 0 then None
             else read_separator (ch ":") first read_ipv4_addr s) with
      | Some (ip, rest) =>
          ([oct1 ip * 256 + oct2 ip; oct3 ip * 256 + oct4 ip]%N, true, rest)
      | None =>
          match read_separator (ch ":") first (read_number 16 65536 4 true) s with
          | Some (g, rest) =>
              let '(gs, v4, rest) := read_groups n' false rest in (g :: gs, v4, rest)
          | None => ([], false, s)
          end
      end
  end.

Definition read_ipv6_addr : parser Ipv6Addr := fun s =>
  let '(head, head_ipv4, s) := read_groups 8 true s in
  if length head =? 8 then Some (mk6 head, s)
  else if head_ipv4 then None
  else match strip_prefix (s!"::") s with
       | None => None
       | Some s =>
           let '(tail, _, s) := read_groups (8 - (length head + 1)) true s in
           Some (mk6 (head ++ replicate (8 - length head - length tail) 0%N ++ tail), s)
       end.

Definition read_ip_addr : parser IpAddr := fun s =>
  match read_ipv4_addr s with
  | Some (ip, rest) => Some (V4 ip, rest)
  | None => match read_ipv6_addr s with
            | Some (ip, rest) => Some (V6 ip, rest)
            | None => None
            end
  end.

(** The whole input has to be read. *)
Definition parse_ip (s : str) : option IpAddr :=
  match read_ip_addr s with Some (ip, []) => Some ip | _ => None end.

(** ** Classification *)

Definition u32_of (ip : Ipv4Addr) : N :=
  (oct1 ip * 16777216 + oct2 ip * 65536 + oct3 ip * 256 + oct4 ip)%N.

Definition v4_is_loopback (ip : Ipv4Addr) : bool := (oct1 ip =? 127)%N.
Definition v4_is_private (ip : Ipv4Addr) : bool :=
  (oct1 ip =? 10)%N || ((oct1 ip =? 172)%N && in_range 16 31 (oct2 ip))
  || ((oct1 ip =? 192)%N && (oct2 ip =? 168)%N).
Definition v4_is_link_local (ip : Ipv4Addr) : bool := (oct1 ip =? 169)%N && (oct2 ip =? 254)%N.
Definition v4_is_unspecified (ip : Ipv4Addr) : bool := (u32_of ip =? 0)%N.
Definition v4_is_multicast (ip : Ipv4Addr) : bool := in_range 224 239 (oct1 ip).
Definition v4_is_broadcast (ip : Ipv4Addr) : bool := (u32_of ip =? 4294967295)%N.

(** [u32::MAX << n], the bits that leave the word being lost. *)
Definition shl_max_u32 (n : N) : N := N.land (N.shiftl 4294967295 n) 4294967295.

Definition ipv4_in_cidr (ip base : Ipv4Addr) (prefix : N) : bool :=
  let mask := if (prefix =? 0)%N then 0%N else shl_max_u32 (32 - prefix) in
  (N.land (u32_of ip) mask =? N.land (u32_of base) mask)%N.

Definition is_non_public_ipv4 (ip : Ipv4Addr) : bool :=
  v4_is_loopback ip || v4_is_private ip || v4_is_link_local ip || v4_is_unspecified ip
  || v4_is_multicast ip || v4_is_broadcast ip
  || ipv4_in_cidr ip (mk4 0 0 0 0) 8
  || ipv4_in_cidr ip (mk4 100 64 0 0) 10
  || ipv4_in_cidr ip (mk4 192 0 0 0) 24
  || ipv4_in_cidr ip (mk4 192 0 2 0) 24
  || ipv4_in_cidr ip (mk4 198 18 0 0) 15
  || ipv4_in_cidr ip (mk4 198 51 100 0) 24
  || ipv4_in_cidr ip (mk4 203 0 113 0) 24
  || ipv4_in_cidr ip (mk4 240 0 0 0) 4.

(** [Ipv6Addr::to_ipv4]: IPv4-compatible and IPv4-mapped addresses. *)
Definition to_ipv4 (ip : Ipv6Addr) : option Ipv4Addr :=
  match segments ip with
  | [a; b; c; d; e; f; ab; cd] =>
      if forallb (fun x => x =? 0)%N [a; b; c; d; e] && ((f =? 0)%N || (f =? 65535)%N)
      then Some (mk4 (ab / 256) (ab mod 256) (cd / 256) (cd mod 256)) else None
  | _ => None
  end.

Definition v6_is_loopback (ip : Ipv6Addr) : bool :=
  bool_decide (segments ip = [0; 0; 0; 0; 0; 0; 0; 1]%N).
Definition v6_is_unspecified (ip : Ipv6Addr) : bool := bool_decide (segments ip = replicate 8 0%N).
Definition first_segment (ip : Ipv6Addr) : N := default 0%N (head (segments ip)).
Definition v6_is_multicast (ip : Ipv6Addr) : bool := (first_segment ip / 256 =? 255)%N.
Definition v6_is_unique_local (ip : Ipv6Addr) : bool :=
  (N.land (first_segment ip) 65024 =? 64512)%N.
Definition v6_is_unicast_link_local (ip : Ipv6Addr) : bool :=
  (N.land (first_segment ip) 65472 =? 65152)%N.

Definition is_non_public_ipv6 (ip : Ipv6Addr) : bool :=
  match to_ipv4 ip with
  | Some v4 => is_non_public_ipv4 v4 || v6_is_loopback ip
  | None =>
      v6_is_loopback ip || v6_is_unspecified ip || v6_is_multicast ip || v6_is_unique_local ip
      || v6_is_unicast_link_local ip
  end.

Definition is_non_public_ip (ip : IpAddr) : bool :=
  match ip with V4 ip => is_non_public_ipv4 ip | V6 ip => is_non_public_ipv6 ip end.

Definition is_loopback (ip : IpAddr) : bool :=
  match ip with V4 ip => v4_is_loopback ip | V6 ip => v6_is_loopback ip end.

Example parse_samples :
  (parse_ip (s!"127.0.0.1"), parse_ip (s!"1.2.3.256"), parse_ip (s!"01.2.3.4"), parse_ip (s!"::1"),
   parse_ip (s!"fe80::1:2"), parse_ip (s!"::ffff:10.0.0.1"), parse_ip (s!"1:2:3:4:5:6:7:8:9"),
   parse_ip (s!"1::2::3")) =
  (Some (V4 (mk4 127 0 0 1)), None, None, Some (V6 (mk6 [0; 0; 0; 0; 0; 0; 0; 1]%N)),
   Some (V6 (mk6 [65152; 0; 0; 0; 0; 0; 1; 2]%N)),
   Some (V6 (mk6 [0; 0; 0; 0; 0; 65535; 2560; 1]%N)), None, None).
Proof. vm_compute. reflexivity. Qed.

(** ** Lemmas: parsed addresses are addresses *)

Lemma read_number_bound radix bound k z s n rest :
  read_number radix bound k z s = Some (n, rest) -> (n < bound)%N.
Proof.
  unfold read_number. destruct (read_digits radix s) as [ds r].
  destruct (is_empty ds || _ || _ || _) eqn:E; [done|]. intros [= <- <-].
  apply orb_false_iff in E as [_ E]. lia.
Qed.

Lemma read_separator_Some {A} sep first (inner : parser A) s r :
  read_separator sep first inner s = Some r -> exists s', inner s' = Some r.
Proof.
  unfold read_separator. destruct first; [eauto|]. destruct s as [|c s]; [done|].
  case_decide; [eauto|done].
Qed.

Lemma read_octet_bound first s n rest : read_octet first s = Some (n, rest) -> (n < 256)%N.
Proof. intros [s' H]%read_separator_Some. by eapply read_number_bound. Qed.

#[local] Arguments read_octet : simpl never.

Lemma read_ipv4_wf s ip rest : read_ipv4_addr s = Some (ip, rest) -> wf4 ip.
Proof.
  unfold read_ipv4_addr. intros H.
  repeat match type of H with
         | (_ ← ?x; _) = _ =>
             let E := fresh "E" in destruct x as [[? ?]|] eqn:E; simpl in H; [|done];
             apply read_octet_bound in E
         end.
  simplify_eq. by repeat split.
Qed.

Lemma read_groups_wf n first s gs v4 rest :
  read_groups n first s = (gs, v4, rest) ->
  length gs <= n /\ Forall (fun g => g < 65536)%N gs.
Proof.
  revert first s gs v4 rest. induction n as [|n IH]; intros first s gs v4 rest H; simpl in H.
  { simplify_eq. split; [done|constructor]. }
  destruct (if n =? 0 then None else read_separator _ _ _ s) as [[ip r]|] eqn:E.
  - destruct (n =? 0) eqn:En; [done|]. apply Nat.eqb_neq in En.
    apply read_separator_Some in E as [? E]. apply read_ipv4_wf in E as (? & ? & ? & ?).
    simplify_eq. split; [simpl; lia|]. repeat constructor; lia.
  - destruct (read_separator _ _ (read_number 16 65536 4 true) s) as [[g r]|] eqn:Eg.
    + destruct (read_groups n false r) as [[gs' v'] r'] eqn:Er. simplify_eq.
      apply IH in Er as [? ?]. apply read_separator_Some in Eg as [? Eg].
      apply read_number_bound in Eg. split; [simpl; lia|]. by constructor.
    + simplify_eq. split; [simpl; lia|constructor].
Qed.

Lemma read_ipv6_wf s ip rest : read_ipv6_addr s = Some (ip, rest) -> wf6 ip.
Proof.
  unfold read_ipv6_addr. destruct (read_groups 8 true s) as [[hd v4] s1] eqn:Eh.
  apply read_groups_wf in Eh as [Hl Hf].
  destruct (length hd =? 8) eqn:E8; [apply Nat.eqb_eq in E8; intros [= <- <-]; done|].
  apply Nat.eqb_neq in E8. destruct v4; [done|]. destruct (strip_prefix _ s1) as [s2|]; [|done].
  destruct (read_groups _ true s2) as [[tl v] s3] eqn:Et. apply read_groups_wf in Et as [Hlt Hft].
  intros [= <- <-]. unfold wf6. simpl. rewrite !length_app, length_replicate. split; [lia|].
  rewrite !Forall_app. repeat split; [done| |done]. apply Forall_replicate. lia.
Qed.

Lemma parse_ip_wf s ip : parse_ip s = Some ip -> wf_ip ip.
Proof.
  unfold parse_ip, read_ip_addr. destruct (read_ipv4_addr s) as [[v4 [|]]|] eqn:E4; [|done|].
  - intros [= <-]. by eapply read_ipv4_wf.
  - destruct (read_ipv6_addr s) as [[v6 [|]]|] eqn:E6; [|done|done].
    intros [= <-]. by eapply read_ipv6_wf.
Qed.

(** ** Lemmas: prefixes are ranges *)

Lemma u32_of_bound ip : wf4 ip -> (u32_of ip < 4294967296)%N.
Proof. unfold wf4, u32_of. lia. Qed.

Lemma shl_max_u32_spec k : (k <= 32)%N -> shl_max_u32 k = N.shiftl (N.ones (32 - k)) k.
Proof.
  intros Hk. unfold shl_max_u32. change 4294967295%N with (N.ones 32). apply N.bits_inj. intros i.
  rewrite N.land_spec. destruct (N.lt_ge_cases i k).
  { rewrite !N.shiftl_spec_low by done. done. }
  rewrite !N.shiftl_spec_high' by done.
  destruct (N.lt_ge_cases i 32).
  - rewrite !N.ones_spec_low by lia. done.
  - rewrite (N.ones_spec_high 32 i), (N.ones_spec_high (32 - k)) by lia. by rewrite andb_false_r.
Qed.

(** Masking the low [k] bits of a [w]-bit number. *)
Lemma land_high w x k :
  (k <= w)%N -> (x < 2 ^ w)%N ->
  N.land x (N.shiftl (N.ones (w - k)) k) = N.shiftl (N.shiftr x k) k.
Proof.
  intros Hk Hx. apply N.bits_inj. intros i. rewrite N.land_spec.
  destruct (N.lt_ge_cases i k).
  { rewrite !N.shiftl_spec_low by done. by rewrite andb_false_r. }
  rewrite !N.shiftl_spec_high' by done. rewrite N.shiftr_spec'. replace (i - k + k)%N with i by lia.
  destruct (N.lt_ge_cases i w).
  - rewrite N.ones_spec_low by lia. by rewrite andb_true_r.
  - rewrite N.ones_spec_high by lia. rewrite andb_false_r.
    destruct (N.eq_dec x 0) as [->|Hne]; [by rewrite N.bits_0|].
    rewrite N.bits_above_log2; [done|]. apply N.log2_lt_pow2; [lia|].
    eapply N.lt_le_trans; [exact Hx|]. by apply N.pow_le_mono_r.
Qed.

Lemma land_prefix x k :
  (k <= 32)%N -> (x < 2 ^ 32)%N -> N.land x (shl_max_u32 k) = N.shiftl (N.shiftr x k) k.
Proof. intros Hk Hx. rewrite shl_max_u32_spec by done. by apply land_high. Qed.

(** A block is the range of addresses that agree with its base above the
    prefix. *)
Lemma ipv4_in_cidr_spec ip base p :
  wf4 ip -> wf4 base -> (0 < p <= 32)%N ->
  ipv4_in_cidr ip base p = true <-> (u32_of ip / 2 ^ (32 - p) = u32_of base / 2 ^ (32 - p))%N.
Proof.
  intros Hi Hb Hp. unfold ipv4_in_cidr. rewrite (proj2 (N.eqb_neq p 0)) by lia.
  apply u32_of_bound in Hi, Hb. rewrite !land_prefix by lia. rewrite N.eqb_eq.
  rewrite <- !N.shiftr_div_pow2. split; [|by intros ->].
  intros H%(f_equal (fun x => N.shiftr x (32 - p))).
  by rewrite !N.shiftr_shiftl_l, !N.sub_diag, !N.shiftl_0_r in H by lia.
Qed.

(** ** The blocks *)

(** Address [ip] is one of [a] to [b]. *)
Definition in_block (ip a b : Ipv4Addr) : Prop := (u32_of a <= u32_of ip <= u32_of b)%N.

(** IPv4 addresses that are not publicly routable. *)
Definition non_public_blocks : list (Ipv4Addr * Ipv4Addr) :=
  [(mk4 0 0 0 0, mk4 0 255 255 255); (mk4 10 0 0 0, mk4 10 255 255 255);
   (mk4 100 64 0 0, mk4 100 127 255 255); (mk4 127 0 0 0, mk4 127 255 255 255);
   (mk4 169 254 0 0, mk4 169 254 255 255); (mk4 172 16 0 0, mk4 172 31 255 255);
   (mk4 192 0 0 0, mk4 192 0 0 255); (mk4 192 0 2 0, mk4 192 0 2 255);
   (mk4 192 168 0 0, mk4 192 168 255 255); (mk4 198 18 0 0, mk4 198 19 255 255);
   (mk4 198 51 100 0, mk4 198 51 100 255); (mk4 203 0 113 0, mk4 203 0 113 255);
   (mk4 224 0 0 0, mk4 239 255 255 255); (mk4 240 0 0 0, mk4 255 255 255 255)].

Definition in_blocks (blocks : list (Ipv4Addr * Ipv4Addr)) (ip : Ipv4Addr) : Prop :=
  exists a b, (a, b) ∈ blocks /\ in_block ip a b.

(** The tests of the code, one block each. *)
Ltac solve_block :=
  intros (? & ? & ? & ?);
  unfold in_block, v4_is_loopback, v4_is_private, v4_is_link_local, v4_is_unspecified,
    v4_is_multicast, v4_is_broadcast, in_range, u32_of; cbn [oct1 oct2 oct3 oct4]; lia.

Lemma loopback_block ip : wf4 ip ->
  v4_is_loopback ip = true <-> in_block ip (mk4 127 0 0 0) (mk4 127 255 255 255).
Proof. solve_block. Qed.
Lemma private_block ip : wf4 ip ->
  v4_is_private ip = true <->
  in_block ip (mk4 10 0 0 0) (mk4 10 255 255 255) \/ in_block ip (mk4 172 16 0 0) (mk4 172 31 255 255)
  \/ in_block ip (mk4 192 168 0 0) (mk4 192 168 255 255).
Proof. solve_block. Qed.
Lemma link_local_block ip : wf4 ip ->
  v4_is_link_local ip = true <-> in_block ip (mk4 169 254 0 0) (mk4 169 254 255 255).
Proof. solve_block. Qed.
Lemma unspecified_block ip : wf4 ip ->
  v4_is_unspecified ip = true <-> in_block ip (mk4 0 0 0 0) (mk4 0 0 0 0).
Proof. solve_block. Qed.
Lemma multicast_block ip : wf4 ip ->
  v4_is_multicast ip = true <-> in_block ip (mk4 224 0 0 0) (mk4 239 255 255 255).
Proof. solve_block. Qed.
Lemma broadcast_block ip : wf4 ip ->
  v4_is_broadcast ip = true <-> in_block ip (mk4 255 255 255 255) (mk4 255 255 255 255).
Proof. solve_block. Qed.

Lemma cidr_block ip a b p :
  wf4 ip -> wf4 a -> (0 < p <= 32)%N ->
  (u32_of a mod 2 ^ (32 - p) = 0)%N -> (u32_of b = u32_of a + (2 ^ (32 - p) - 1))%N ->
  ipv4_in_cidr ip a p = true <-> in_block ip a b.
Proof.
  intros Hi Ha Hp Hm Hb. rewrite ipv4_in_cidr_spec by done. unfold in_block. rewrite Hb.
  set (k := (2 ^ (32 - p))%N) in *. assert (0 < k)%N as Hk by (apply N.neq_0_lt_0, N.pow_nonzero; done).
  pose proof (N.div_mod (u32_of ip) k). pose proof (N.mod_lt (u32_of ip) k).
  pose proof (N.div_mod (u32_of a) k). split; intros; [nia|].
  symmetry. apply N.div_unique with (r := (u32_of ip - u32_of a)%N); [lia|].
  rewrite Hm, N.add_0_r in *. lia.
Qed.


(** Prove a disjunction by the hypothesis [H], found by its syntax. *)
Ltac pick H :=
  let T := type of H in
  lazymatch goal with
  | |- ?P \/ ?Q => first [left; pick H | right; pick H]
  | |- ?P => constr_eq P T; exact H
  end.

Lemma is_non_public_ipv4_spec ip :
  wf4 ip -> is_non_public_ipv4 ip = true <-> in_blocks non_public_blocks ip.
Proof.
  intros Hw. unfold is_non_public_ipv4.
  rewrite !orb_true_iff, loopback_block, private_block, link_local_block, unspecified_block,
    multicast_block, broadcast_block by done.
  rewrite (cidr_block ip (mk4 0 0 0 0) (mk4 0 255 255 255)), (cidr_block ip (mk4 100 64 0 0) (mk4 100 127 255 255)),
    (cidr_block ip (mk4 192 0 0 0) (mk4 192 0 0 255)), (cidr_block ip (mk4 192 0 2 0) (mk4 192 0 2 255)),
    (cidr_block ip (mk4 198 18 0 0) (mk4 198 19 255 255)),
    (cidr_block ip (mk4 198 51 100 0) (mk4 198 51 100 255)),
    (cidr_block ip (mk4 203 0 113 0) (mk4 203 0 113 255)),
    (cidr_block ip (mk4 240 0 0 0) (mk4 255 255 255 255)) by (done || by repeat split).
  assert (in_block ip (mk4 0 0 0 0) (mk4 0 0 0 0) -> in_block ip (mk4 0 0 0 0) (mk4 0 255 255 255))
    as Hlo by (unfold in_block, u32_of; cbn [oct1 oct2 oct3 oct4]; lia).
  assert (in_block ip (mk4 255 255 255 255) (mk4 255 255 255 255) ->
    in_block ip (mk4 240 0 0 0) (mk4 255 255 255 255))
    as Hbr by (unfold in_block, u32_of; cbn [oct1 oct2 oct3 oct4]; lia).
  unfold in_blocks. split.
  - intros H. repeat destruct H as [H|H];
      lazymatch type of H with
      | in_block _ (mk4 0 0 0 0) (mk4 0 0 0 0) => apply Hlo in H
      | in_block _ (mk4 255 _ _ _) _ => apply Hbr in H
      | _ => idtac
      end;
      match type of H with in_block _ ?a ?b => exists a, b end;
      (split; [apply (bool_decide_unpack _); vm_compute; exact I | exact H]).
  - intros (a & b & Hin & H). clear Hlo Hbr. unfold non_public_blocks in Hin.
    repeat (apply elem_of_cons in Hin as [Hin|Hin]; [injection Hin as -> ->; pick H|]).
    by apply not_elem_of_nil in Hin.
Qed.

(** ** IPv6 *)

Lemma segment_block x k base :
  (k <= 16)%N -> (x < 2 ^ 16)%N -> (base mod 2 ^ k = 0)%N ->
  (N.land x (N.shiftl (N.ones (16 - k)) k) =? base)%N = true <-> (base <= x <= base + (2 ^ k - 1))%N.
Proof.
  intros Hk Hx Hb. rewrite land_high by done. rewrite N.eqb_eq, N.shiftl_mul_pow2, N.shiftr_div_pow2.
  assert (2 ^ k <> 0)%N as Hp by (by apply N.pow_nonzero).
  set (p := (2 ^ k)%N) in *. pose proof (N.div_mod x p Hp). pose proof (N.mod_lt x p Hp).
  pose proof (N.div_mod base p Hp). split; intros; [lia|].
  assert (x / p = base / p)%N as ->; [|lia].
  symmetry. apply N.div_unique with (r := (x - base)%N); lia.
Qed.

(** The last 32 bits of an address as an IPv4 address. *)
Definition embeds (ip : Ipv6Addr) (v4 : Ipv4Addr) : Prop :=
  exists f, (f = 0 \/ f = 65535)%N /\
    segments ip = [0; 0; 0; 0; 0; f; oct1 v4 * 256 + oct2 v4; oct3 v4 * 256 + oct4 v4]%N.

(** IPv6 addresses that are not publicly routable: loopback, multicast,
    unique-local, link-local, and IPv4 addresses in disguise. *)
Definition non_public_v6 (ip : Ipv6Addr) : Prop :=
  segments ip = [0; 0; 0; 0; 0; 0; 0; 1]%N
  \/ (0xff00 <= first_segment ip <= 0xffff)%N
  \/ (0xfc00 <= first_segment ip <= 0xfdff)%N
  \/ (0xfe80 <= first_segment ip <= 0xfebf)%N
  \/ exists v4, wf4 v4 /\ embeds ip v4 /\ in_blocks non_public_blocks v4.

Definition non_public (ip : IpAddr) : Prop :=
  match ip with V4 ip => in_blocks non_public_blocks ip | V6 ip => non_public_v6 ip end.

Lemma first_segment_bound ip : wf6 ip -> (first_segment ip < 65536)%N.
Proof.
  intros [_ H]. unfold first_segment. destruct H; simpl; lia.
Qed.

Lemma embeds_first ip v4 : embeds ip v4 -> first_segment ip = 0%N.
Proof. intros (f & _ & H). unfold first_segment. by rewrite H. Qed.

Lemma to_ipv4_spec ip v4 : wf6 ip -> to_ipv4 ip = Some v4 <-> wf4 v4 /\ embeds ip v4.
Proof.
  destruct ip as [l], v4 as [p q r t]. intros [Hl Hf]. unfold to_ipv4, embeds, wf4. simpl in *.
  do 9 (destruct l as [|? l]; simpl in Hl; try lia). clear Hl.
  rewrite !Forall_cons in Hf. destruct Hf as (_ & _ & _ & _ & _ & _ & Hab & Hcd & _).
  case_match eqn:E; cbn [forallb] in E; split; intros H.
  - simplify_eq. split; [lia|]. exists n4. split; [lia|]. repeat f_equal; lia.
  - destruct H as (? & f & _ & ?). simplify_eq. repeat f_equal; lia.
  - done.
  - destruct H as (? & f & ? & ?). simplify_eq. lia.
Qed.

Lemma is_non_public_ipv6_spec ip : wf6 ip -> is_non_public_ipv6 ip = true <-> non_public_v6 ip.
Proof.
  intros Hw. pose proof (first_segment_bound ip Hw) as Hb. unfold is_non_public_ipv6, non_public_v6.
  destruct (to_ipv4 ip) as [v4|] eqn:E.
  - apply to_ipv4_spec in E as [Hv He]; [|done]. rewrite orb_true_iff, is_non_public_ipv4_spec by done.
    unfold v6_is_loopback. rewrite bool_decide_eq_true, (embeds_first ip v4) by done.
    split; [naive_solver|]. intros [H|[H|[H|[H|H]]]]; [by right|lia|lia|lia|].
    left. destruct H as (v4' & Hv' & He' & H).
    assert (to_ipv4 ip = Some v4) as E1 by (by apply to_ipv4_spec).
    assert (to_ipv4 ip = Some v4') as E2 by (by apply to_ipv4_spec). congruence.
  - assert (forall v4, wf4 v4 -> ~ embeds ip v4) as Hno.
    { intros v4 Hv He. assert (to_ipv4 ip = Some v4) by (by apply to_ipv4_spec). congruence. }
    assert (segments ip <> replicate 8 0%N) as Hz.
    { intros Hz. apply (Hno (mk4 0 0 0 0)); [by repeat split|]. exists 0%N. by split; [left|]. }
    rewrite !orb_true_iff. unfold v6_is_loopback, v6_is_unspecified, v6_is_multicast, v6_is_unique_local,
      v6_is_unicast_link_local. rewrite !bool_decide_eq_true.
    change 65024%N with (N.shiftl (N.ones (16 - 9)) 9). change 65472%N with (N.shiftl (N.ones (16 - 6)) 6).
    rewrite !segment_block by done. change (2 ^ 9)%N with 512%N. change (2 ^ 6)%N with 64%N.
    assert ((first_segment ip / 256 =? 255)%N = true <-> (0xff00 <= first_segment ip <= 0xffff)%N) as Hm by lia.
    rewrite Hm. naive_solver lia.
Qed.

(** The proxy's test is the table of blocks, for IPv4 and IPv6. *)
Lemma is_non_public_ip_spec ip : wf_ip ip -> is_non_public_ip ip = true <-> non_public ip.
Proof.
  destruct ip as [ip|ip]; simpl; intros; [by apply is_non_public_ipv4_spec|by apply is_non_public_ipv6_spec].
Qed.

(** Addresses are held back from clients exactly when they lie in one of the
    listed blocks; an IPv4 address in IPv6 clothes counts as what it embeds. *)
Theorem non_public_is_block_table ip : wf_ip ip -> is_non_public_ip ip = true <-> non_public ip.
Proof. apply is_non_public_ip_spec. Qed.

Lemma non_public_is_block_table_witness :
  non_public (V6 (mk6 [0; 0; 0; 0; 0; 65535; 2560; 1]%N)) /\ ~ non_public (V4 (mk4 8 8 8 8)).
Proof.
  split.
  - apply (non_public_is_block_table (V6 (mk6 [0; 0; 0; 0; 0; 65535; 2560; 1]%N))); [|by vm_compute].
    split; [done|]. by repeat constructor.
  - intros H. apply (non_public_is_block_table (V4 (mk4 8 8 8 8))) in H; [|by repeat split]. by vm_compute in H.
Defined.
