(* ===== verification/NetAddrText.v ===== *)
(** * Printed addresses

    [Display] for internet addresses, as the standard library prints them, and
    the proof that the parser of [NetAddr] reads them back. *)

From S2P Require Import Prelude RustStr NetAddr.
From Stdlib Require Import ZifyBool ZifyN.

#[local] Arguments read_octet : simpl never.

(** ** Printing: [impl Display for IpAddr] *)

Definition display_ipv4 (ip : Ipv4Addr) : str :=
  join (s!".") (digits_of_N <$> [oct1 ip; oct2 ip; oct3 ip; oct4 ip]).

Definition hex_char (d : N) : char := if (d <? 10)%N then (48 + d)%N else (87 + d)%N.

(** A segment in lower-case hexadecimal, without leading zeros. *)
Definition hex16 (g : N) : str :=
  hex_char <$>
    (if g <? 16 then [g]
     else if g <? 256 then [g / 16; g mod 16]
     else if g <? 4096 then [g / 256; g / 16 mod 16; g mod 16]
     else [g / 4096; g / 256 mod 16; g / 16 mod 16; g mod 16])%N.

(** The longest run of zero segments, as start and length; the first one wins. *)
Fixpoint longest_zeros (i : nat) (segs : list N) (current longest : nat * nat) : nat * nat :=
  match segs with
  | [] => longest
  | seg :: rest =>
      if (seg =? 0)%N then
        let current := if current.2 =? 0 then (i, 1) else (current.1, S current.2) in
        longest_zeros (S i) rest current (if longest.2 <? current.2 then current else longest)
      else longest_zeros (S i) rest (0, 0) longest
  end.

Definition fmt_subslice (segs : list N) : str := join (s!":") (hex16 <$> segs).

Definition to_ipv4_mapped (ip : Ipv6Addr) : option Ipv4Addr :=
  match segments ip with
  | [0%N; 0%N; 0%N; 0%N; 0%N; f; ab; cd] =>
      if (f =? 65535)%N then Some (mk4 (ab / 256) (ab mod 256) (cd / 256) (cd mod 256)) else None
  | _ => None
  end.

Definition display_ipv6 (ip : Ipv6Addr) : str :=
  match to_ipv4_mapped ip with
  | Some v4 => s!"::ffff:" ++ display_ipv4 v4
  | None =>
      let segs := segments ip in
      let '(start, len) := longest_zeros 0 segs (0, 0) (0, 0) in
      if 1 <? len
      then fmt_subslice (take start segs) ++ s!"::" ++ fmt_subslice (drop (start + len) segs)
      else fmt_subslice segs
  end.

Definition display_ip (ip : IpAddr) : str :=
  match ip with V4 ip => display_ipv4 ip | V6 ip => display_ipv6 ip end.

Example display_samples :
  display_ip <$> [V4 (mk4 10 0 200 7); V6 (mk6 [0; 0; 0; 0; 0; 0; 0; 1]%N);
                  V6 (mk6 [8193; 3512; 0; 0; 1; 0; 0; 0]%N); V6 (mk6 [0; 0; 0; 0; 0; 65535; 2560; 1]%N);
                  V6 (mk6 [1; 0; 3; 4; 5; 6; 7; 43981]%N)]
  = [s!"10.0.200.7"; s!"::1"; s!"2001:db8:0:0:1::"; s!"::ffff:10.0.0.1"; s!"1:0:3:4:5:6:7:abcd"].
Proof. by vm_compute. Qed.

(** ** Lemmas: a printed number is read back *)

(** No digit at the front. *)
Definition no_digit (radix : N) (s : str) : Prop :=
  forall c, head s = Some c -> to_digit radix c = None.

Lemma read_digits_app radix ds rest vals :
  read_digits radix ds = (vals, []) -> no_digit radix rest ->
  read_digits radix (ds ++ rest) = (vals, rest).
Proof.
  revert vals. induction ds as [|c ds IH]; intros vals Hd Hr; simpl in *.
  - injection Hd as <-. destruct rest as [|x rest]; [done|]. simpl. by rewrite (Hr x).
  - destruct (to_digit radix c); [|done]. destruct (read_digits radix ds) as [vs r] eqn:E.
    injection Hd as <- ->. by rewrite (IH vs).
Qed.

Lemma read_number_app radix bound k z ds n rest :
  read_number radix bound k z ds = Some (n, []) -> no_digit radix rest ->
  read_number radix bound k z (ds ++ rest) = Some (n, rest).
Proof.
  unfold read_number. destruct (read_digits radix ds) as [vals r] eqn:E. intros Hn Hr.
  destruct (_ || (bound <=? _)%N) eqn:Eb; [done|]. injection Hn as <- ->.
  rewrite (read_digits_app _ _ _ _ E Hr). by rewrite Eb.
Qed.

Lemma read_octet_digits n : (n < 256)%N -> read_number 10 256 3 false (digits_of_N n) = Some (n, []).
Proof.
  intros Hn.
  assert (forallb (fun n => bool_decide (read_number 10 256 3 false (digits_of_N n) = Some (n, [])))
    (N.of_nat <$> seq 0 256) = true) as H by (by vm_compute).
  rewrite forallb_forall in H. apply (bool_decide_eq_true_1 _), H, list_elem_of_In, list_elem_of_fmap.
  exists (N.to_nat n). rewrite N2Nat.id. split; [done|]. apply elem_of_seq. lia.
Qed.

Lemma to_digit_hex d : (d < 16)%N -> to_digit 16 (hex_char d) = Some d.
Proof.
  intros Hd. pose proof (ascii_all_spec (fun d => implb (d <? 16)%N (bool_decide (to_digit 16 (hex_char d) = Some d))) d
    ltac:(by vm_compute) ltac:(lia)) as H. cbv beta in H. rewrite (proj2 (N.ltb_lt d 16) Hd) in H.
  by apply bool_decide_eq_true_1 in H.
Qed.

Lemma read_digits_hex ds : Forall (fun d => d < 16)%N ds -> read_digits 16 (hex_char <$> ds) = (ds, []).
Proof.
  induction 1 as [|d ds Hd _ IH]; [done|]. rewrite fmap_cons. cbn [read_digits]. by rewrite to_digit_hex, IH.
Qed.

Lemma read_number_hex g : (g < 65536)%N -> read_number 16 65536 4 true (hex16 g) = Some (g, []).
Proof.
  intros Hg. unfold hex16.
  destruct (g <? 16)%N eqn:E1; [|destruct (g <? 256)%N eqn:E2; [|destruct (g <? 4096)%N eqn:E3]];
    (unfold read_number; rewrite read_digits_hex by (repeat constructor; lia));
    cbn [is_empty length fold_left orb andb negb Nat.ltb Nat.leb];
    match goal with |- (if (?b <=? ?x)%N then _ else _) = _ =>
      replace x with g by lia; by rewrite (proj2 (N.leb_gt b g)) by lia end.
Qed.

Lemma hex16_chars g c : c ∈ hex16 g -> (g < 65536)%N -> c <> ch "." /\ c <> ch ":" /\ c <> ch "%" /\ to_digit 16 c <> None.
Proof.
  intros Hc Hg. assert (exists d, (d < 16)%N /\ c = hex_char d) as (d & Hd & ->).
  { unfold hex16 in Hc. apply list_elem_of_fmap in Hc as (d & -> & Hd). exists d. split; [|done].
    repeat case_match; rewrite !elem_of_cons, elem_of_nil in Hd; lia. }
  rewrite to_digit_hex by done.
  pose proof (ascii_all_spec (fun d => implb (d <? 16)%N (negb (existsb (N.eqb (hex_char d)) (s!".:%")))) d
    ltac:(by vm_compute) ltac:(lia)) as H. cbv beta in H. rewrite (proj2 (N.ltb_lt d 16) Hd) in H.
  cbn [implb] in H. rewrite negb_true_iff in H. simpl in H. rewrite !orb_false_iff, !N.eqb_neq in H. naive_solver.
Qed.

Lemma read_digits_split radix s vals rest :
  read_digits radix s = (vals, rest) -> exists ds, s = ds ++ rest.
Proof.
  revert vals. induction s as [|c s IH]; intros vals H; simpl in H; [by exists []; simplify_eq|].
  destruct (to_digit radix c); [|exists []; by simplify_eq].
  destruct (read_digits radix s) as [vs r]. simplify_eq. destruct (IH vs eq_refl) as [ds ->]. by exists (c :: ds).
Qed.

(** Nothing without a dot is an IPv4 address. *)
Lemma read_ipv4_no_dot s : ch "." ∉ s -> read_ipv4_addr s = None.
Proof.
  intros H. unfold read_ipv4_addr, read_octet, read_separator. destruct (read_number 10 256 3 false s) as [[a r]|] eqn:E; [|done].
  simpl. assert (exists ds, s = ds ++ r) as [ds ->].
  { unfold read_number in E. destruct (read_digits 10 s) as [vals rest] eqn:Ed. apply read_digits_split in Ed.
    case_match; [done|]. by simplify_eq. }
  destruct r as [|c r]; [done|]. case_decide as Ec; [|done]. subst c. set_solver.
Qed.

Lemma read_ipv4_no_number s :
  read_number 10 256 3 false s = None -> read_ipv4_addr s = None.
Proof. intros H. unfold read_ipv4_addr, read_octet, read_separator. by rewrite H. Qed.

(** Segments as they stand in an address: after a separator unless first. *)
Definition fmt_groups (first : bool) (gs : list N) : str :=
  if first then fmt_subslice gs else concat ((fun g => ch ":" :: hex16 g) <$> gs).

Lemma join_concat {A} (c : char) (f : A -> str) x l :
  join [c] (f x :: (f <$> l)) = f x ++ concat ((fun y => c :: f y) <$> l).
Proof.
  revert x. induction l as [|y l IH]; intros x; [simpl; by rewrite app_nil_r|].
  rewrite fmap_cons, join_cons, IH by done. done.
Qed.

Lemma fmt_groups_cons first g gs :
  fmt_groups first (g :: gs) = (if first then [] else [ch ":"]) ++ hex16 g ++ fmt_groups false gs.
Proof. destruct first; [apply join_concat|done]. Qed.

(** Groups stop at the end or at a double colon. *)
Definition groups_end (rest : str) : Prop := rest = [] \/ exists r, rest = s!"::" ++ r.

Lemma groups_end_no_digit rest radix : groups_end rest -> no_digit radix rest.
Proof. intros [->|[r ->]]; [done|]. intros c [= <-]. by destruct (radix <=? 0)%N. Qed.

Lemma colon_no_digit radix s : no_digit radix (ch ":" :: s).
Proof. by intros c [= <-]. Qed.

Lemma fmt_groups_no_digit radix gs rest :
  groups_end rest -> no_digit radix (fmt_groups false gs ++ rest).
Proof.
  intros Hr. destruct gs as [|g gs]; [by apply groups_end_no_digit|]. rewrite fmt_groups_cons. apply colon_no_digit.
Qed.

Lemma read_group_end n first rest :
  groups_end rest -> ch "." ∉ rest -> read_groups n first rest = ([], false, rest).
Proof.
  intros Hr Hd. destruct n as [|n]; [done|]. cbn [read_groups].
  assert (read_separator (ch ":") first (read_number 16 65536 4 true) rest = None) as ->.
  { unfold read_separator. destruct Hr as [->|[r ->]]; by destruct first. }
  assert (read_separator (ch ":") first read_ipv4_addr rest = None) as ->; [|by destruct (n =? 0)].
  unfold read_separator. destruct first; [by apply read_ipv4_no_dot|].
  destruct rest as [|c rest]; [done|]. case_decide; [|done]. apply read_ipv4_no_dot. set_solver.
Qed.

Lemma fmt_groups_no_dot first gs : Forall (fun g => g < 65536)%N gs -> ch "." ∉ fmt_groups first gs.
Proof.
  intros H. revert first. induction H as [|g gs Hg _ IH]; intros first.
  { destruct first; simpl; apply not_elem_of_nil. }
  rewrite fmt_groups_cons, !not_elem_of_app. repeat split; [|by intros Hc%hex16_chars; [|done]; naive_solver|done].
  destruct first; [apply not_elem_of_nil|]. by rewrite list_elem_of_singleton.
Qed.

Lemma read_groups_fmt n first gs rest :
  Forall (fun g => g < 65536)%N gs -> length gs <= n -> groups_end rest -> ch "." ∉ rest ->
  read_groups n first (fmt_groups first gs ++ rest) = (gs, false, rest).
Proof.
  intros Hg. revert n first. induction Hg as [|g gs Hg Hgs IH]; intros n first Hn Hr Hd.
  { replace (fmt_groups first []) with (@nil N) by (by destruct first). by apply read_group_end. }
  destruct n as [|n]; simpl in Hn; [lia|]. cbn [read_groups]. rewrite fmt_groups_cons.
  set (tail := fmt_groups false gs ++ rest) in *.
  assert (forall A (inner : parser A), read_separator (ch ":") first inner
    (((if first then [] else [ch ":"]) ++ hex16 g ++ fmt_groups false gs) ++ rest) = inner (hex16 g ++ tail)) as Hs.
  { intros A inner. rewrite <- !app_assoc. by destruct first; simpl; rewrite ?decide_True. }
  rewrite !Hs. assert (ch "." ∉ hex16 g ++ tail) as Hdot.
  { unfold tail. rewrite !not_elem_of_app. repeat split; [|by apply fmt_groups_no_dot|done].
    intros Hc%hex16_chars; [|done]. naive_solver. }
  rewrite read_ipv4_no_dot by done.
  rewrite (read_number_app 16 65536 4 true (hex16 g) g tail)
    by (by apply read_number_hex || by apply fmt_groups_no_digit).
  unfold tail. rewrite IH by (done || lia). by destruct (n =? 0).
Qed.

(** ** Lemmas: the run of zeros *)

Definition zero_run (segs : list N) (r : nat * nat) : Prop :=
  forall k, r.1 <= k < r.1 + r.2 -> segs !! k = Some 0%N.

Lemma longest_zeros_run pre segs current longest :
  zero_run (pre ++ segs) current -> zero_run (pre ++ segs) longest ->
  (current.2 = 0 \/ current.1 + current.2 = length pre) ->
  zero_run (pre ++ segs) (longest_zeros (length pre) segs current longest).
Proof.
  revert pre current longest. induction segs as [|seg segs IH]; intros pre current longest Hc Hl Hcur; simpl; [done|].
  assert (forall c l, zero_run (pre ++ seg :: segs) c -> zero_run (pre ++ seg :: segs) l ->
    (c.2 = 0 \/ c.1 + c.2 = S (length pre)) ->
    zero_run (pre ++ seg :: segs) (longest_zeros (S (length pre)) segs c l)) as Hstep.
  { intros c l Hzc Hzl Hend. rewrite cons_middle, app_assoc in *.
    replace (S (length pre)) with (length (pre ++ [seg])) in * by (rewrite length_app; simpl; lia). by apply IH. }
  destruct (N.eqb_spec seg 0) as [->|Hne]; [|by apply Hstep; [intros k; simpl; lia|done|left]].
  set (c := if current.2 =? 0 then (length pre, 1) else (current.1, S current.2)).
  assert (zero_run (pre ++ 0%N :: segs) c /\ c.1 + c.2 = S (length pre)) as [Hzc Hend].
  { assert ((pre ++ 0%N :: segs) !! length pre = Some 0%N) as Hat
      by (rewrite lookup_app_r by lia; by rewrite Nat.sub_diag).
    unfold c. destruct (Nat.eqb_spec current.2 0) as [E|E]; simpl.
    - split; [|lia]. intros k Hk. simpl in Hk. by replace k with (length pre) by lia.
    - destruct Hcur as [?|Hcur]; [done|]. split; [|lia]. intros k Hk. simpl in Hk.
      destruct (decide (k = length pre)) as [->|]; [done|]. apply Hc. lia. }
  apply Hstep; [done| |by right]. by destruct (_ <? _).
Qed.

Lemma zero_run_split segs start len :
  zero_run segs (start, len) -> 0 < len ->
  segs = take start segs ++ replicate len 0%N ++ drop (start + len) segs /\ start + len <= length segs.
Proof.
  intros Hz Hlen. assert (start + len <= length segs) as Hb.
  { assert (segs !! (start + len - 1) = Some 0%N) as H by (apply Hz; simpl; lia).
    apply lookup_lt_Some in H. lia. }
  split; [|done]. rewrite <- (take_drop start segs) at 1. f_equal.
  rewrite <- (take_drop len (drop start segs)) at 1. rewrite drop_drop. f_equal.
  apply list_eq. intros i. destruct (decide (i < len)) as [Hi|Hi].
  - rewrite lookup_take_lt, lookup_drop, lookup_replicate_2 by lia. apply Hz. simpl. lia.
  - rewrite !lookup_ge_None_2; [done| |]; rewrite ?length_replicate, ?length_take; lia.
Qed.

(** ** Round trip *)

Lemma read_octet_app first n rest :
  (n < 256)%N -> no_digit 10 rest ->
  read_octet first ((if first then [] else [ch "."]) ++ digits_of_N n ++ rest) = Some (n, rest).
Proof.
  intros Hn Hr. assert (read_number 10 256 3 false (digits_of_N n ++ rest) = Some (n, rest)) as E
    by (apply read_number_app; [by apply read_octet_digits|done]).
  unfold read_octet, read_separator. by destruct first; simpl; rewrite ?decide_True.
Qed.

Lemma dot_no_digit radix s : no_digit radix (ch "." :: s).
Proof. by intros c [= <-]. Qed.

Lemma read_display_ipv4 ip rest :
  wf4 ip -> no_digit 10 rest -> read_ipv4_addr (display_ipv4 ip ++ rest) = Some (ip, rest).
Proof.
  destruct ip as [a b c d]. intros (Ha & Hb & Hc & Hd) Hr. simpl in *.
  set (t3 := ch "." :: digits_of_N d ++ rest). set (t2 := ch "." :: digits_of_N c ++ t3).
  set (t1 := ch "." :: digits_of_N b ++ t2).
  assert (display_ipv4 (mk4 a b c d) ++ rest = digits_of_N a ++ t1) as ->
    by (unfold display_ipv4; simpl; by rewrite <- !app_assoc; simpl; rewrite <- !app_assoc; simpl; rewrite <- !app_assoc).
  unfold read_ipv4_addr.
  assert (read_octet true (digits_of_N a ++ t1) = Some (a, t1)) as -> by (by apply (read_octet_app true), dot_no_digit).
  assert (read_octet false t1 = Some (b, t2)) as E1 by (by apply (read_octet_app false), dot_no_digit).
  assert (read_octet false t2 = Some (c, t3)) as E2 by (by apply (read_octet_app false), dot_no_digit).
  assert (read_octet false t3 = Some (d, rest)) as E3 by (by apply (read_octet_app false)).
  cbn [mbind option_bind]. rewrite E1. cbn [mbind option_bind]. rewrite E2. cbn [mbind option_bind].
  rewrite E3. done.
Qed.

Lemma to_ipv4_mapped_segments ip v4 :
  wf6 ip -> to_ipv4_mapped ip = Some v4 ->
  wf4 v4 /\ segments ip = [0; 0; 0; 0; 0; 65535; oct1 v4 * 256 + oct2 v4; oct3 v4 * 256 + oct4 v4]%N.
Proof.
  destruct ip as [l]. intros [Hl Hf]. unfold to_ipv4_mapped. simpl in *.
  do 9 (destruct l as [|? l]; simpl in Hl; try lia). clear Hl.
  rewrite !Forall_cons in Hf. destruct Hf as (_ & _ & _ & _ & _ & _ & Hab & Hcd & _).
  intros H. destruct n, n0, n1, n2, n3; try done. destruct (N.eqb_spec n4 65535) as [->|]; [|done].
  injection H as <-. unfold wf4. simpl. split; [lia|]. repeat f_equal; lia.
Qed.

Lemma parse_mapped v4 :
  wf4 v4 -> read_ipv6_addr (s!"::ffff:" ++ display_ipv4 v4)
  = Some (mk6 [0; 0; 0; 0; 0; 65535; oct1 v4 * 256 + oct2 v4; oct3 v4 * 256 + oct4 v4]%N, []).
Proof.
  intros Hw. unfold read_ipv6_addr.
  assert (read_groups 8 true (s!"::ffff:" ++ display_ipv4 v4) = ([], false, s!"::ffff:" ++ display_ipv4 v4)) as -> by done.
  cbn [length Nat.eqb]. rewrite (strip_prefix_app (s!"::") (s!"ffff:" ++ display_ipv4 v4) : strip_prefix (s!"::") (s!"::ffff:" ++ display_ipv4 v4) = _).
  assert (read_groups 7 true (s!"ffff:" ++ display_ipv4 v4) =
    ([65535; oct1 v4 * 256 + oct2 v4; oct3 v4 * 256 + oct4 v4]%N, true, [])) as E.
  { cbn [read_groups]. change (7 - 1 =? 0) with false. cbn [Nat.eqb].
    assert (read_separator (ch ":") true read_ipv4_addr (s!"ffff:" ++ display_ipv4 v4) = None) as -> by done.
    assert (read_separator (ch ":") true (read_number 16 65536 4 true) (s!"ffff:" ++ display_ipv4 v4)
      = Some (65535%N, ch ":" :: display_ipv4 v4)) as -> by done.
    assert (read_separator (ch ":") false read_ipv4_addr (ch ":" :: display_ipv4 v4) = Some (v4, [])) as ->; [|done].
    unfold read_separator. rewrite decide_True by done. rewrite <- (app_nil_r (display_ipv4 v4)).
    by apply read_display_ipv4. }
  change (8 - (0 + 1)) with 7. rewrite E. done.
Qed.

Lemma parse_display_ipv6 ip : wf6 ip -> read_ipv6_addr (display_ipv6 ip) = Some (ip, []).
Proof.
  intros Hw. unfold display_ipv6. destruct (to_ipv4_mapped ip) as [v4|] eqn:Em.
  { destruct (to_ipv4_mapped_segments ip v4 Hw Em) as [Hv Hs]. rewrite parse_mapped by done.
    destruct ip as [l]. simpl in *. by rewrite Hs. }
  destruct ip as [segs]. destruct Hw as [Hl Hf]. cbn [segments] in *.
  destruct (longest_zeros 0 segs (0, 0) (0, 0)) as [start len] eqn:Ez. unfold read_ipv6_addr.
  destruct (Nat.ltb_spec 1 len) as [Hlen|Hlen].
  - assert (zero_run segs (start, len)) as Hz.
    { rewrite <- Ez. apply (longest_zeros_run []); [intros k; simpl; lia|intros k; simpl; lia|by left]. }
    destruct (zero_run_split segs start len Hz) as [Hsplit Hb]; [lia|].
    assert (Forall (fun g => g < 65536)%N (take start segs)) as Hft by (by apply Forall_take).
    assert (Forall (fun g => g < 65536)%N (drop (start + len) segs)) as Hfd by (by apply Forall_drop).
    assert (ch "." ∉ fmt_subslice (drop (start + len) segs)) as Hdot by (by apply (fmt_groups_no_dot true)).
    pose proof (read_groups_fmt 8 true (take start segs) (s!"::" ++ fmt_subslice (drop (start + len) segs)) Hft
      ltac:(rewrite length_take; lia) ltac:(right; by eexists)) as Eh. cbn [fmt_groups] in Eh. rewrite Eh.
    2: { rewrite not_elem_of_app. split; [by apply (bool_decide_unpack _); vm_compute|done]. }
    rewrite length_take, Nat.min_l by lia. rewrite (proj2 (Nat.eqb_neq start 8)) by lia.
    rewrite strip_prefix_app.
    pose proof (read_groups_fmt (8 - (start + 1)) true (drop (start + len) segs) [] Hfd
      ltac:(rewrite length_drop; lia) ltac:(by left) ltac:(apply not_elem_of_nil)) as Et.
    cbn [fmt_groups] in Et. rewrite app_nil_r in Et. rewrite Et.
    rewrite length_drop, Hl. replace (8 - start - (8 - (start + len))) with len by lia. by rewrite <- Hsplit.
  - pose proof (read_groups_fmt 8 true segs [] Hf ltac:(lia) ltac:(by left) ltac:(apply not_elem_of_nil)) as E.
    cbn [fmt_groups] in E. rewrite app_nil_r in E. rewrite E. by rewrite Hl.
Qed.

(** Printing an address and parsing it gives the address back. *)
Lemma parse_display_ip ip : wf_ip ip -> parse_ip (display_ip ip) = Some ip.
Proof.
  intros Hw. unfold parse_ip, read_ip_addr. destruct ip as [ip|ip]; simpl in *.
  - rewrite <- (app_nil_r (display_ipv4 ip)). by rewrite read_display_ipv4.
  - assert (read_ipv4_addr (display_ipv6 ip) = None) as ->; [|by rewrite parse_display_ipv6].
    unfold display_ipv6. destruct (to_ipv4_mapped ip); [done|].
    destruct ip as [segs]. destruct Hw as [Hl Hf]. cbn [segments] in *. apply read_ipv4_no_dot.
    destruct (longest_zeros _ _ _ _) as [start len].
    destruct (1 <? len); [|by apply (fmt_groups_no_dot true)].
    rewrite !not_elem_of_app. repeat split; try (by apply (fmt_groups_no_dot true), Forall_take);
      try (by apply (fmt_groups_no_dot true), Forall_drop). by apply (bool_decide_unpack _); vm_compute.
Qed.
