(* ===== verification/NetDomain.v ===== *)
(** * Hosts and domain patterns

    The rest of [network-proxy/src/policy.rs]: normal forms of hosts, domain
    patterns, the glob sets that the allow and deny lists compile to, and the
    comparison of patterns with the patterns of a managed configuration.  The
    [globset] crate and the host parser of the [url] crate are parameters. *)

From S2P Require Import Prelude RustStr NetAddr.

(** ** Normal forms of hosts *)

Definition unscoped_ip_literal (host : str) : option str :=
  match split_once (ch "%") host with
  | Some (ip, _) => match parse_ip ip with Some _ => Some ip | None => None end
  | None => None
  end.

Definition is_ip (s : str) : bool :=
  match parse_ip s with Some _ => true | None => false end.

(** The loop over the two delimiters, an encoded and a plain percent sign. *)
Fixpoint normalize_scoped (delimiters : list str) (host : str) : option str :=
  match delimiters with
  | [] => None
  | delimiter :: rest =>
      match split_once_str delimiter host with
      | Some (ip, scope) =>
          if is_ip ip then Some (ip ++ s!"%" ++ scope) else normalize_scoped rest host
      | None => normalize_scoped rest host
      end
  end.

Definition normalize_ip_literal (host : str) : option str :=
  if is_ip host then Some host else normalize_scoped [s!"%25"; s!"%"] host.

Definition normalize_dns_host_or_ip_literal (host : str) : str :=
  let host := trim_end_char (ch ".") (to_ascii_lowercase host) in
  match normalize_ip_literal host with
  | Some ip => ip
  | None => host
  end.

Definition normalize_host (host : str) : str :=
  let host := trim host in
  match (if starts_with (s!"[") host then find_str (s!"]") host else None) with
  | Some close => normalize_dns_host_or_ip_literal (drop 1 (take close host))
  | None =>
      if count_char (ch ":") host =? 1
      then normalize_dns_host_or_ip_literal (default [] (head (split_on (ch ":") host)))
      else normalize_dns_host_or_ip_literal host
  end.

(** [Host::parse]; a [Host] is its normal form. *)
Definition host_parse (input : str) : option str :=
  let normalized := normalize_host input in
  if is_empty normalized then None else Some normalized.

Definition is_loopback_host (host : str) : bool :=
  let host := default host (unscoped_ip_literal host) in
  str_eqb host (s!"localhost")
  || match parse_ip host with Some ip => is_loopback ip | None => false end.

(** ** Patterns *)

Inductive DomainPattern : Type :=
| ApexAndSubdomains (domain : str)
| SubdomainsOnly (domain : str)
| Exact (domain : str).

Definition parse_domain (domain : str) (build : str -> DomainPattern) : DomainPattern :=
  let domain := trim domain in
  if is_empty domain then Exact [] else build domain.

(** [DomainPattern::parse] *)
Definition pattern_parse (input : str) : DomainPattern :=
  let input := trim input in
  if is_empty input then Exact []
  else match strip_prefix (s!"**.") input with
       | Some domain => parse_domain domain ApexAndSubdomains
       | None =>
           match strip_prefix (s!"*.") input with
           | Some domain => parse_domain domain SubdomainsOnly
           | None => Exact input
           end
       end.

Definition expand_domain_pattern (pattern : str) : list str :=
  match pattern_parse pattern with
  | Exact domain => [domain]
  | SubdomainsOnly domain => [s!"?*." ++ domain]
  | ApexAndSubdomains domain => [domain; s!"?*." ++ domain]
  end.

Definition normalize_pattern (pattern : str) : str :=
  let pattern := trim pattern in
  if str_eqb pattern (s!"*") then s!"*"
  else
    let '(prefix, remainder) :=
      match strip_prefix (s!"**.") pattern with
      | Some domain => (s!"**.", domain)
      | None =>
          match strip_prefix (s!"*.") pattern with
          | Some domain => (s!"*.", domain)
          | None => ([], pattern)
          end
      end in
    prefix ++ normalize_host remainder.

Definition is_global_wildcard_domain_pattern (pattern : str) : bool :=
  existsb (fun candidate => str_eqb candidate (s!"*"))
    (expand_domain_pattern (normalize_pattern pattern)).

Definition normalize_domain (domain : str) : str :=
  to_ascii_lowercase (trim_end_char (ch ".") domain).

Definition domain_eq (left right : str) : bool :=
  str_eqb (normalize_domain left) (normalize_domain right).

Definition is_subdomain_or_equal (child parent : str) : bool :=
  let child := normalize_domain child in
  let parent := normalize_domain parent in
  str_eqb child parent || ends_with (s!"." ++ parent) child.

Definition is_strict_subdomain (child parent : str) : bool :=
  let child := normalize_domain child in
  let parent := normalize_domain parent in
  negb (str_eqb child parent) && ends_with (s!"." ++ parent) child.

(** [DomainPattern::allows] *)
Definition allows (self candidate : DomainPattern) : bool :=
  match self, candidate with
  | Exact domain, Exact candidate => domain_eq candidate domain
  | Exact _, _ => false
  | SubdomainsOnly domain, Exact candidate => is_strict_subdomain candidate domain
  | SubdomainsOnly domain, SubdomainsOnly candidate => is_subdomain_or_equal candidate domain
  | SubdomainsOnly domain, ApexAndSubdomains candidate => is_strict_subdomain candidate domain
  | ApexAndSubdomains domain, Exact candidate => is_subdomain_or_equal candidate domain
  | ApexAndSubdomains domain, SubdomainsOnly candidate => is_subdomain_or_equal candidate domain
  | ApexAndSubdomains domain, ApexAndSubdomains candidate => is_subdomain_or_equal candidate domain
  end.

(** [UrlHost::parse] followed by [to_string]. *)
Class UrlHost : Type := { url_host_parse : str -> option str }.

Section Constraints.
Context `{UrlHost}.

Definition parse_domain_for_constraints (domain : str) : str :=
  let domain := trim_end_char (ch ".") (trim domain) in
  if is_empty domain then []
  else
    let host := if starts_with (s!"[") domain && ends_with (s!"]") domain
                then drop 1 (take (length domain - 1) domain) else domain in
    if contains_char (ch "*") host || contains_char (ch "?") host || contains_char (ch "%") host
    then domain
    else default [] (url_host_parse host).

Definition parse_for_constraints (input : str) : DomainPattern :=
  let input := trim input in
  if is_empty input then Exact []
  else match strip_prefix (s!"**.") input with
       | Some domain => ApexAndSubdomains (parse_domain_for_constraints domain)
       | None =>
           match strip_prefix (s!"*.") input with
           | Some domain => SubdomainsOnly (parse_domain_for_constraints domain)
           | None => Exact (parse_domain_for_constraints input)
           end
       end.
End Constraints.

(** ** Glob sets *)

Record GlobOptions := { case_insensitive : bool; literal_separator : bool; backslash_escape : bool }.

(** The [globset] crate: building a glob or a set of globs may fail. *)
Class Globs : Type := {
  Glob : Type;
  GlobSet : Type;
  glob_build : GlobOptions -> str -> option Glob;
  glob_match : Glob -> str -> bool;
  globset_build : list Glob -> option GlobSet;
  globset_match : GlobSet -> str -> bool
}.

Inductive GlobError : Type :=
| GlobalWildcardPattern
| InvalidGlob (candidate : str)
| InvalidGlobSet.

Inductive GlobalWildcard : Type := WildcardAllow | WildcardReject.
#[export] Instance global_wildcard_eq_dec : EqDecision GlobalWildcard.
Proof. solve_decision. Defined.

(** [GlobBuilder::new(..).case_insensitive(true)] on Unix. *)
Definition domain_glob_options : GlobOptions :=
  {| case_insensitive := true; literal_separator := false; backslash_escape := true |}.

Section Compile.
Context `{Globs}.

(** The inner loop: the candidates of a pattern that were not seen yet. *)
Fixpoint add_candidates (candidates : list str) (builder : list Glob) (seen : list str) :
    result (list Glob * list str) GlobError :=
  match candidates with
  | [] => Ok (builder, seen)
  | candidate :: rest =>
      if bool_decide (candidate ∈ seen) then add_candidates rest builder seen
      else match glob_build domain_glob_options candidate with
           | Some glob => add_candidates rest (builder ++ [glob]) (candidate :: seen)
           | None => Err (InvalidGlob candidate)
           end
  end.

Fixpoint add_patterns (global_wildcard : GlobalWildcard) (patterns : list str)
    (builder : list Glob) (seen : list str) : result (list Glob) GlobError :=
  match patterns with
  | [] => Ok builder
  | pattern :: rest =>
      if bool_decide (global_wildcard = WildcardReject) && is_global_wildcard_domain_pattern pattern
      then Err GlobalWildcardPattern
      else
        let? (builder, seen) :=
          add_candidates (expand_domain_pattern (normalize_pattern pattern)) builder seen in
        add_patterns global_wildcard rest builder seen
  end.

Definition compile_globset_with_policy (patterns : list str) (global_wildcard : GlobalWildcard) :
    result GlobSet GlobError :=
  let? builder := add_patterns global_wildcard patterns [] [] in
  match globset_build builder with
  | Some set => Ok set
  | None => Err InvalidGlobSet
  end.

Definition compile_allowlist_globset (patterns : list str) : result GlobSet GlobError :=
  compile_globset_with_policy patterns WildcardAllow.
Definition compile_denylist_globset (patterns : list str) : result GlobSet GlobError :=
  compile_globset_with_policy patterns WildcardReject.
End Compile.

(** ** What globs mean

    The documented meaning of the patterns that domain entries are made of: a
    question mark is any character, a star any number of them, everything else
    itself.  Characters with a meaning beyond that are left out. *)

Definition ascii_lower (c : char) : char := if in_range 65 90 c then (c + 32)%N else c.

Fixpoint wild_match (p h : str) : bool :=
  match p with
  | [] => is_empty h
  | c :: p' =>
      if decide (c = ch "*") then
        (fix star (h : str) : bool :=
           wild_match p' h || match h with [] => false | _ :: h' => star h' end) h
      else match h with
           | [] => false
           | x :: h' =>
               (bool_decide (c = ch "?") || bool_decide (ascii_lower c = ascii_lower x)) && wild_match p' h'
           end
  end.

(** No classes, alternatives, escapes or separators, and no double star. *)
Definition plain_glob_char (c : char) : bool := negb (contains_char c (s!"[]{}\/")).
Definition plain_glob (p : str) : bool :=
  forallb plain_glob_char p && negb (contains_str (s!"**") p).

Class GlobLaws `(Globs) : Prop := {
  glob_build_plain : forall p, plain_glob p = true -> exists g, glob_build domain_glob_options p = Some g;
  glob_match_plain : forall p g h, plain_glob p = true -> glob_build domain_glob_options p = Some g ->
    glob_match g h = wild_match p h;
  globset_match_any : forall gs set h, globset_build gs = Some set ->
    globset_match set h = existsb (fun g => glob_match g h) gs
}.

(** A glob library that knows plain patterns only. *)
#[export] Instance plain_globs : Globs := {|
  Glob := str; GlobSet := list str;
  glob_build _ p := if plain_glob p then Some p else None;
  glob_match := wild_match;
  globset_build := Some;
  globset_match gs h := existsb (fun g => wild_match g h) gs |}.

#[export] Instance plain_globs_laws : GlobLaws plain_globs.
Proof.
  split; simpl.
  - intros p Hp. rewrite Hp. eauto.
  - intros p g h Hp. rewrite Hp. by intros [= ->].
  - by intros gs set h [= ->].
Qed.

(** ** Lemmas: globs *)

#[local] Arguments ascii_lower : simpl never.
#[local] Arguments to_ascii_lowercase : simpl never.

(** A text without wildcards. *)
Definition literal_text (p : str) : Prop := (ch "*" ∉ p) /\ (ch "?" ∉ p).

Lemma literal_text_cons c p : literal_text (c :: p) <-> c <> ch "*" /\ c <> ch "?" /\ literal_text p.
Proof. unfold literal_text. rewrite !not_elem_of_cons. naive_solver. Qed.

Lemma to_lower_map s : to_ascii_lowercase s = ascii_lower <$> s.
Proof. done. Qed.

Lemma to_lower_cons c s : to_ascii_lowercase (c :: s) = ascii_lower c :: to_ascii_lowercase s.
Proof. done. Qed.

Lemma to_lower_app a b : to_ascii_lowercase (a ++ b) = to_ascii_lowercase a ++ to_ascii_lowercase b.
Proof. apply fmap_app. Qed.

Lemma ascii_lower_idemp c : ascii_lower (ascii_lower c) = ascii_lower c.
Proof.
  unfold ascii_lower, in_range.
  destruct (65 <=? c)%N eqn:A, (c <=? 90)%N eqn:B; simpl; rewrite ?A, ?B; try done.
  apply N.leb_le in A, B. by rewrite (proj2 (N.leb_gt (c + 32) 90)), andb_false_r by lia.
Qed.

Lemma to_lower_idemp s : to_ascii_lowercase (to_ascii_lowercase s) = to_ascii_lowercase s.
Proof.
  induction s as [|c s IH]; [done|]. by rewrite !to_lower_cons, ascii_lower_idemp, IH.
Qed.

Lemma wild_match_literal p h :
  literal_text p -> wild_match p h = true <-> to_ascii_lowercase h = to_ascii_lowercase p.
Proof.
  revert h. induction p as [|c p IH]; intros h Hl; simpl.
  { destruct h; simpl; [done|]. done. }
  apply literal_text_cons in Hl as (Hs & Hq & Hl). rewrite decide_False by done.
  destruct h as [|x h]; [by rewrite to_lower_cons|].
  rewrite (bool_decide_eq_false_2 (c = _)) by done. simpl.
  rewrite andb_true_iff, bool_decide_eq_true, IH by done. rewrite !to_lower_cons.
  split; [intros [-> ->]; done|]. by intros [= -> ->].
Qed.

Lemma wild_match_star p h :
  wild_match (ch "*" :: p) h = true <-> exists a b, h = a ++ b /\ wild_match p b = true.
Proof.
  cbn [wild_match]. rewrite decide_True by done. induction h as [|x h IH].
  - rewrite orb_false_r. split; [by exists [], []|]. intros ([|] & b & E & Hm); [|done]. by simpl in E; subst.
  - rewrite orb_true_iff, IH. split.
    + intros [Hm|(a & b & -> & Hm)]; [by exists [], (x :: h)|by exists (x :: a), b].
    + intros ([|y a] & b & E & Hm); simpl in E; [by left; subst|]. right. simplify_eq. by exists a, b.
Qed.

Lemma wild_match_one p h :
  wild_match (ch "?" :: p) h = match h with [] => false | _ :: h' => wild_match p h' end.
Proof. by destruct h. Qed.

Lemma wild_match_all h : wild_match (s!"*") h = true.
Proof. apply (wild_match_star []). by exists h, []; rewrite app_nil_r. Qed.

Lemma wild_match_subdomain d h :
  literal_text d ->
  wild_match (s!"?*." ++ d) h = true <->
  exists l, l <> [] /\ to_ascii_lowercase h = l ++ ch "." :: to_ascii_lowercase d.
Proof.
  intros Hd. change (s!"?*." ++ d) with (ch "?" :: ch "*" :: ch "." :: d).
  transitivity (exists x a b, h = x :: a ++ b /\ wild_match (ch "." :: d) b = true).
  { rewrite wild_match_one. destruct h as [|x h].
    { split; [done|]. by intros (? & ? & ? & ? & _). }
    rewrite wild_match_star.
    split; [intros (a & b & -> & ?); by exists x, a, b|]. intros (? & a & b & ? & ?). simplify_eq. eauto. }
  setoid_rewrite wild_match_literal; [|by apply literal_text_cons]. split.
  - intros (x & a & b & -> & Hb). exists (to_ascii_lowercase (x :: a)). split; [by rewrite to_lower_map|].
    change (x :: a ++ b) with ((x :: a) ++ b). by rewrite to_lower_app, Hb.
  - intros (l & Hl & Hh). destruct l as [|x l]; [done|]. rewrite to_lower_map in Hh.
    apply fmap_app_inv in Hh as (h1 & h2 & H1 & H2 & ->). destruct h1 as [|y h1]; [done|].
    exists y, h1, h2. split; [done|]. by rewrite to_lower_map, <- H2.
Qed.

(** ** Lemmas: compiled sets *)

Section CompileFacts.
Context `{GL : GlobLaws}.

Lemma add_candidates_spec candidates builder seen builder' seen' :
  Forall (fun c => plain_glob c = true) candidates ->
  add_candidates candidates builder seen = Ok (builder', seen') ->
  (forall h, (exists g, g ∈ builder /\ glob_match g h = true) <-> exists c, c ∈ seen /\ wild_match c h = true) ->
  (forall h, (exists g, g ∈ builder' /\ glob_match g h = true) <-> exists c, c ∈ seen' /\ wild_match c h = true)
  /\ forall c, c ∈ seen' <-> c ∈ seen \/ c ∈ candidates.
Proof.
  intros Hp. revert builder seen. induction Hp as [|c cs Hc Hcs IH]; intros builder seen Hadd Hinv; simpl in Hadd.
  { simplify_eq. split; [done|]. set_solver. }
  case_bool_decide as Hseen.
  - apply IH in Hadd as [? Hs]; [|done]. split; [done|]. intros c'. rewrite Hs. set_solver.
  - destruct (glob_build domain_glob_options c) as [g|] eqn:Eg; [|done].
    apply IH in Hadd as [? Hs].
    + split; [done|]. intros c'. rewrite Hs. set_solver.
    + intros h. pose proof (glob_match_plain c g h Hc Eg) as Hm. split.
      * intros (g' & [Hg|Hg]%elem_of_app & Hg').
        -- destruct (proj1 (Hinv h)) as (c' & ? & ?); [by eauto|]. exists c'. set_solver.
        -- apply list_elem_of_singleton in Hg as ->. exists c. split; [set_solver|congruence].
      * intros (c' & [->|Hin]%elem_of_cons & Hc').
        -- exists g. split; [set_solver|congruence].
        -- destruct (proj2 (Hinv h)) as (g' & ? & ?); [by eauto|]. exists g'. set_solver.
Qed.

Lemma add_patterns_spec w patterns builder seen builder' :
  Forall (fun p => Forall (fun c => plain_glob c = true) (expand_domain_pattern (normalize_pattern p))) patterns ->
  add_patterns w patterns builder seen = Ok builder' ->
  (forall h, (exists g, g ∈ builder /\ glob_match g h = true) <-> exists c, c ∈ seen /\ wild_match c h = true) ->
  forall h, (exists g, g ∈ builder' /\ glob_match g h = true) <->
    exists c, (c ∈ seen \/ exists p, p ∈ patterns /\ c ∈ expand_domain_pattern (normalize_pattern p))
      /\ wild_match c h = true.
Proof.
  intros Hp. revert builder seen. induction Hp as [|p ps Hpp Hps IH]; intros builder seen Hadd Hinv h; cbn [add_patterns] in Hadd.
  { injection Hadd as <-. rewrite Hinv. set_solver. }
  destruct (bool_decide _ && _); [done|]. inv_bind. destruct x as [b s].
  destruct (add_candidates_spec _ _ _ _ _ Hpp Haddr Hinv) as [Hinv' Hs].
  rewrite (IH _ _ Hadd Hinv' h). setoid_rewrite Hs. set_solver.
Qed.

(** A compiled list matches a host when one of the globs that its entries stand
    for does, however often an entry is repeated. *)
Lemma compile_globset_spec patterns w set h :
  Forall (fun p => Forall (fun c => plain_glob c = true) (expand_domain_pattern (normalize_pattern p))) patterns ->
  compile_globset_with_policy patterns w = Ok set ->
  globset_match set h = true <->
  exists p c, p ∈ patterns /\ c ∈ expand_domain_pattern (normalize_pattern p) /\ wild_match c h = true.
Proof.
  intros Hp Hc. unfold compile_globset_with_policy in Hc. inv_bind.
  destruct (globset_build x) as [s|] eqn:Es; [|done]. injection Hc as <-.
  rewrite (globset_match_any x s h Es), existsb_true.
  rewrite (add_patterns_spec w patterns [] [] x Hp Hcr) by set_solver. set_solver.
Qed.
End CompileFacts.
