(* ===== verification/NetDomainFacts.v ===== *)
(** * Theorems on domain patterns

    What the compiled lists match, and that the comparison of patterns decides
    inclusion of the sets of hosts they stand for. *)

From S2P Require Import Prelude RustStr NetAddr NetDomain.

#[local] Arguments to_ascii_lowercase : simpl never.
#[local] Arguments ascii_lower : simpl never.

(** ** Hosts that a pattern stands for *)

(** The normal form [h] is below [d]. *)
Definition below (d h : str) : Prop := exists l, h = l ++ ch "." :: d.

Definition denotes (p : DomainPattern) (h : str) : Prop :=
  match p with
  | Exact d => normalize_domain h = normalize_domain d
  | SubdomainsOnly d => below (normalize_domain d) (normalize_domain h)
  | ApexAndSubdomains d =>
      normalize_domain h = normalize_domain d \/ below (normalize_domain d) (normalize_domain h)
  end.

Definition domain_of (p : DomainPattern) : str :=
  match p with Exact d | SubdomainsOnly d | ApexAndSubdomains d => d end.

Lemma below_ends d h : ends_with (s!"." ++ d) h = true <-> below d h.
Proof. apply ends_with_true. Qed.

Lemma below_length d h : below d h -> length d < length h.
Proof. intros [l ->]. rewrite length_app. simpl. lia. Qed.

Lemma below_trans a b c : below a b -> below b c -> below a c.
Proof. intros [l ->] [k ->]. exists (k ++ ch "." :: l). by rewrite <- app_assoc. Qed.

Lemma is_subdomain_or_equal_spec child parent :
  is_subdomain_or_equal child parent = true <->
  normalize_domain child = normalize_domain parent
  \/ below (normalize_domain parent) (normalize_domain child).
Proof. unfold is_subdomain_or_equal. by rewrite orb_true_iff, str_eqb_eq, below_ends. Qed.

Lemma is_strict_subdomain_spec child parent :
  is_strict_subdomain child parent = true <-> below (normalize_domain parent) (normalize_domain child).
Proof.
  unfold is_strict_subdomain. rewrite andb_true_iff, negb_true_iff, str_eqb_neq, below_ends.
  split; [naive_solver|]. intros H. split; [|done]. intros E. apply below_length in H. rewrite E in H. lia.
Qed.

(** ** Normal forms of domains *)

Lemma ascii_lower_dot c : ascii_lower c = ch "." -> c = ch ".".
Proof.
  unfold ascii_lower, in_range. intros H. change (ch ".") with 46%N in *.
  destruct (65 <=? c)%N eqn:E; simpl in H; [|done]. apply N.leb_le in E. destruct (c <=? 90)%N; lia.
Qed.

Lemma to_lower_last s : last (to_ascii_lowercase s) = ascii_lower <$> last s.
Proof. apply fmap_last. Qed.

Lemma to_lower_length s : length (to_ascii_lowercase s) = length s.
Proof. apply length_fmap. Qed.

Lemma normalize_domain_last d : last (normalize_domain d) <> Some (ch ".").
Proof.
  unfold normalize_domain. rewrite to_lower_last. intros (x & Hx & Hd)%fmap_Some.
  symmetry in Hd. apply ascii_lower_dot in Hd as ->. by apply trim_end_char_last in Hx.
Qed.

Definition normal_domain (d : str) : Prop := to_ascii_lowercase d = d /\ last d <> Some (ch ".").

Lemma normalize_domain_id d : normal_domain d -> normalize_domain d = d.
Proof. intros [Hl Hd]. unfold normalize_domain. by rewrite trim_end_char_id. Qed.

Lemma normalize_domain_normal d : normal_domain (normalize_domain d).
Proof. split; [apply to_lower_idemp|apply normalize_domain_last]. Qed.

(** A long name below a domain. *)
Definition long_name (n : nat) (d : str) : str := replicate n (ch "a") ++ ch "." :: d.

Lemma to_lower_replicate_a n : to_ascii_lowercase (replicate n (ch "a")) = replicate n (ch "a").
Proof. induction n as [|n IH]; [done|]. simpl. by rewrite to_lower_cons, IH. Qed.

Lemma last_app_cons {A} (l : list A) x k : last (l ++ x :: k) = last (x :: k).
Proof. by rewrite last_app_cons. Qed.

Lemma long_name_normal n d : normal_domain d -> d <> [] -> normal_domain (long_name n d).
Proof.
  intros [Hl Hd] Hne. unfold long_name. split.
  - by rewrite to_lower_app, to_lower_cons, to_lower_replicate_a, Hl.
  - rewrite last_app_cons. by destruct d.
Qed.

Lemma long_name_below n d e : length e < n -> below e (long_name n d) -> d = e \/ below e d.
Proof.
  intros Hn [l Hl]. unfold long_name in Hl. destruct (Nat.lt_ge_cases (length l) n) as [Hlt|Hge].
  - exfalso. assert ((l ++ ch "." :: e) !! length l = Some (ch ".")) as H1.
    { rewrite lookup_app_r by lia. by rewrite Nat.sub_diag. }
    rewrite <- Hl, lookup_app_l, lookup_replicate in H1 by (rewrite length_replicate; lia). naive_solver.
  - apply app_eq_length_split in Hl as (m & -> & Hm).
    + destruct m as [|x m]; simpl in Hm; simplify_eq; [by left|]. right. by exists m.
    + by rewrite length_replicate.
Qed.

(** ** Comparison with managed patterns *)

Lemma allows_sound self candidate h :
  allows self candidate = true -> denotes candidate h -> denotes self h.
Proof.
  destruct self, candidate; simpl; try done; unfold domain_eq;
    rewrite ?is_subdomain_or_equal_spec, ?is_strict_subdomain_spec, ?str_eqb_eq;
    intros; destruct_or?; auto;
    repeat match goal with
           | H : normalize_domain _ = normalize_domain _ |- _ => rewrite H in *; clear H
           end; eauto using below_trans.
Qed.

Lemma denotes_long n p :
  normalize_domain (domain_of p) <> [] -> (forall d, p <> Exact d) ->
  denotes p (long_name n (normalize_domain (domain_of p))).
Proof.
  intros Hne Hp. destruct p as [d|d|d]; simpl in *; [right| |by destruct (Hp d)];
    (rewrite (normalize_domain_id (long_name _ _));
     [by eexists|by apply long_name_normal; [apply normalize_domain_normal|]]).
Qed.

Lemma long_name_denoted self n d :
  normal_domain d -> d <> [] -> length (normalize_domain (domain_of self)) < n ->
  denotes self (long_name n d) ->
  (forall e, self <> Exact e) /\ (d = normalize_domain (domain_of self) \/ below (normalize_domain (domain_of self)) d).
Proof.
  intros Hd Hne Hn Hs.
  assert (normalize_domain (long_name n d) = long_name n d) as E
    by (by apply normalize_domain_id, long_name_normal).
  assert (length (normalize_domain (domain_of self)) < length (long_name n d)) as Hlen.
  { unfold long_name. rewrite length_app, length_replicate. lia. }
  destruct self as [e|e|e]; simpl in *; rewrite E in Hs.
  - destruct Hs as [Hs|Hs]; [rewrite Hs in Hlen; lia|]. split; [done|]. by apply long_name_below in Hs.
  - split; [done|]. by apply long_name_below in Hs.
  - rewrite Hs in Hlen. lia.
Qed.

(** [allows] holds exactly when every host of the candidate is a host of the
    managed pattern. *)
Theorem allows_iff_included self candidate :
  normalize_domain (domain_of candidate) <> [] ->
  allows self candidate = true <-> forall h, denotes candidate h -> denotes self h.
Proof.
  intros Hne. split; [intros Ha h; by apply allows_sound|]. intros Hincl.
  set (n := S (length (normalize_domain (domain_of self)))).
  assert ((forall e, candidate <> Exact e) ->
    (forall e, self <> Exact e) /\
    (normalize_domain (domain_of candidate) = normalize_domain (domain_of self)
     \/ below (normalize_domain (domain_of self)) (normalize_domain (domain_of candidate)))) as Hlong.
  { intros Hc. apply (long_name_denoted self n); [apply normalize_domain_normal|done|lia|].
    apply Hincl. by apply denotes_long. }
  destruct candidate as [c|c|c]; simpl in *.
  - specialize (Hincl c (or_introl eq_refl)). destruct Hlong as [Hse Hlong]; [done|].
    destruct self as [d|d|d]; simpl in *; [|by apply is_strict_subdomain_spec|by destruct (Hse d)].
    by apply is_subdomain_or_equal_spec.
  - destruct Hlong as [Hse Hlong]; [done|].
    destruct self as [d|d|d]; simpl in *; [| |by destruct (Hse d)]; by apply is_subdomain_or_equal_spec.
  - specialize (Hincl c eq_refl). destruct self as [d|d|d]; simpl in *.
    + by apply is_subdomain_or_equal_spec.
    + by apply is_strict_subdomain_spec.
    + by apply str_eqb_eq.
Qed.

(** ** Entries that name plain domains *)

(** A letter or digit of any case, or a hyphen. *)
Definition dns_char (c : char) : bool :=
  in_range 97 122 c || in_range 65 90 c || in_range 48 57 c || (c =? 45)%N.

Definition dns_label (l : str) : bool :=
  negb (is_empty l) && forallb dns_char l && negb (starts_with (s!"xn--") (to_ascii_lowercase l)).

(** A domain name in ASCII whose last label starts with a letter, so that it is
    no IPv4 address in any notation, and that has no internationalised label. *)
Definition dns_name (d : str) : bool :=
  let labels := split_on (ch ".") d in
  forallb dns_label labels
  && match last labels with
     | Some (c :: _) => in_range 97 122 c || in_range 65 90 c
     | _ => false
     end.

(** The [url] crate keeps such names, in lower case. *)
Class UrlHostLaws `(UrlHost) : Prop := {
  url_host_parse_dns : forall d, dns_name d = true -> url_host_parse d = Some (to_ascii_lowercase d)
}.

(** An entry of a list: a plain domain, alone or behind a wildcard. *)
Definition dns_entry (e : str) : Prop :=
  exists prefix d, e = prefix ++ d /\ prefix ∈ [[]; s!"*."; s!"**."] /\ dns_name d = true.

Definition dns_entryb (e : str) : bool :=
  existsb (fun prefix => match strip_prefix prefix e with Some d => dns_name d | None => false end)
    [[]; s!"*."; s!"**."].

Lemma dns_entries_checked l : forallb dns_entryb l = true -> Forall dns_entry l.
Proof.
  intros H. apply Forall_forall. intros e He. rewrite forallb_forall in H. apply list_elem_of_In, H in He.
  apply existsb_true in He as (prefix & Hp & Hd).
  destruct (strip_prefix prefix e) as [d|] eqn:E; [|done]. apply strip_prefix_Some in E as ->. by exists prefix, d.
Qed.

(** A host as [Host::parse] gives it back: lower case, without dots at its ends. *)
Definition normal_host (h : str) : Prop := normal_domain h /\ head h <> Some (ch ".").

Definition name_char (c : char) : bool := dns_char c || (c =? 46)%N.

Lemma name_char_spec c : name_char c = true ->
  is_whitespace c = false /\ plain_glob_char c = true /\ c <> ch "*" /\ c <> ch "?" /\ c <> ch ":"
  /\ c <> ch "%" /\ c <> ch "[" /\ name_char (ascii_lower c) = true.
Proof.
  intros H. assert (c < 128)%N as Hc.
  { unfold name_char, dns_char, in_range in H. destruct (N.lt_ge_cases c 128); [done|].
    exfalso. rewrite !(proj2 (N.leb_gt c _)), !andb_false_r, !(proj2 (N.eqb_neq c _)) in H by lia. done. }
  assert (ascii_all (fun c => implb (name_char c)
    (negb (is_whitespace c) && plain_glob_char c && negb (c =? ch "*")%N && negb (c =? ch "?")%N
     && negb (c =? ch ":")%N && negb (c =? ch "%")%N && negb (c =? ch "[")%N && name_char (ascii_lower c))) = true)
    as Hall by (by vm_compute).
  apply (ascii_all_spec _ c) in Hall; [|done]. cbv beta in Hall. rewrite H in Hall. cbn [implb] in Hall.
  rewrite !andb_true_iff, !negb_true_iff, !N.eqb_neq in Hall. naive_solver.
Qed.

Lemma dns_name_chars d : dns_name d = true ->
  Forall (fun c => name_char c = true) d /\ d <> [] /\ head d <> Some (ch ".") /\ last d <> Some (ch ".").
Proof.
  unfold dns_name. rewrite andb_true_iff. intros [Hl Hlast].
  rewrite <- (join_split_on (ch ".") d).
  assert (Forall (fun l => l <> [] /\ Forall (fun c => dns_char c = true) l) (split_on (ch ".") d)) as Hf.
  { apply Forall_forall. intros l Hin%list_elem_of_In. rewrite forallb_forall in Hl. specialize (Hl l Hin).
    unfold dns_label in Hl. rewrite !andb_true_iff, negb_true_iff, is_empty_false in Hl.
    destruct Hl as [[? Hc] _]. split; [done|]. apply Forall_forall. intros c Hcin%list_elem_of_In.
    by apply (proj1 (forallb_forall _ _) Hc). }
  clear Hl Hlast. pose proof (split_on_nonnil (ch ".") d) as Hne.
  assert (forall l, l <> [] -> Forall (fun c => dns_char c = true) l ->
    head l <> Some (ch ".") /\ last l <> Some (ch ".") /\ Forall (fun c => name_char c = true) l) as Hlab.
  { intros l Hl Hc. assert (ch "." ∉ l) as Hd.
    { intros Hin. rewrite Forall_forall in Hc. by apply Hc in Hin. }
    repeat split.
    - destruct l as [|x l]; [done|]. intros [= ->]. apply Hd. by left.
    - intros H. apply Hd. apply last_Some_snoc in H as [k ->]. set_solver.
    - eapply Forall_impl; [done|]. intros c Hc'. unfold name_char. by rewrite Hc'. }
  induction Hf as [|l ls [Hl Hc] Hls IH]; [done|]. destruct (Hlab l Hl Hc) as (Hh & Hla & Hn).
  destruct ls as [|l' ls]; [done|]. rewrite join_cons by done. destruct IH as (IHc & IHne & IHh & IHl); [done|].
  split; [|split; [|split]].
  - apply Forall_app. split; [done|]. by constructor.
  - by destruct l.
  - by destruct l.
  - set (k := join _ _) in *. change ([ch "."] ++ k) with (ch "." :: k). rewrite last_app_cons. by destruct k.
Qed.

(** ** What a plain entry compiles to *)

Definition name_text (d : str) : Prop := Forall (fun c => name_char c = true) d.

Lemma name_text_lower d : name_text d -> name_text (to_ascii_lowercase d).
Proof. induction 1 as [|c d Hc _ IH]; [constructor|]. constructor; [|done]. by apply name_char_spec. Qed.

Lemma name_text_free c d : name_char c = false -> name_text d -> c ∉ d.
Proof. intros Hc Hd Hin. unfold name_text in Hd. rewrite Forall_forall in Hd. apply Hd in Hin. congruence. Qed.

Lemma name_text_trim d : name_text d -> trim d = d.
Proof.
  intros H. apply trim_id.
  - intros c Hc. destruct H as [|x d Hx]; [done|]. injection Hc as ->. by apply name_char_spec.
  - intros c Hc. apply last_Some_snoc in Hc as [k ->]. unfold name_text in H. apply Forall_app in H as [_ H].
    inversion H; subst. by apply name_char_spec.
Qed.

Lemma name_text_literal d : name_text d -> literal_text d.
Proof. intros H. by split; apply name_text_free. Qed.

Lemma normalize_ip_literal_free h : ch "%" ∉ h -> default h (normalize_ip_literal h) = h.
Proof.
  intros H. unfold normalize_ip_literal. destruct (is_ip h); [done|]. cbn [normalize_scoped].
  by rewrite !(split_once_str_free (ch "%")) by (done || (apply list_elem_of_In; simpl; auto)).
Qed.

Lemma normalize_dns_free h : ch "%" ∉ h -> normalize_dns_host_or_ip_literal h = trim_end_char (ch ".") (to_ascii_lowercase h).
Proof.
  intros H. unfold normalize_dns_host_or_ip_literal.
  assert (ch "%" ∉ trim_end_char (ch ".") (to_ascii_lowercase h)) as Hf.
  { intros Hin%trim_end_char_incl. apply H. rewrite to_lower_map in Hin. apply list_elem_of_fmap in Hin as (x & Hx & Hin).
    assert (x = ch "%") as <-; [|done]. revert Hx. unfold ascii_lower, in_range. change (ch "%") with 37%N.
    destruct (65 <=? x)%N eqn:E; [|done]. apply N.leb_le in E. destruct (x <=? 90)%N; simpl; lia. }
  pose proof (normalize_ip_literal_free _ Hf) as E. by destruct (normalize_ip_literal _).
Qed.

Lemma normalize_host_name d :
  name_text d -> last d <> Some (ch ".") -> normalize_host d = to_ascii_lowercase d.
Proof.
  intros Hd Hl. unfold normalize_host. rewrite name_text_trim by done. cbn [lit].
  rewrite starts_with_free by (by apply name_text_free).
  rewrite count_char_free by (by apply name_text_free). simpl.
  rewrite normalize_dns_free by (by apply name_text_free). apply trim_end_char_id.
  rewrite to_lower_last. intros (x & Hx & E)%fmap_Some. symmetry in E. apply ascii_lower_dot in E as ->. done.
Qed.

(** The pattern that the prefix of an entry stands for. *)
Definition pattern_of (prefix d : str) : DomainPattern :=
  if decide (prefix = s!"**.") then ApexAndSubdomains d
  else if decide (prefix = s!"*.") then SubdomainsOnly d else Exact d.

Lemma entry_trim prefix d :
  prefix ∈ [[]; s!"*."; s!"**."] -> name_text d -> d <> [] -> trim (prefix ++ d) = prefix ++ d.
Proof.
  intros Hp Hd Hne. pose proof (name_text_trim d Hd) as Ht.
  assert (clean_head d /\ clean_last d) as [Hh Hl] by (rewrite <- Ht; apply trim_clean).
  apply trim_id.
  - rewrite !elem_of_cons, elem_of_nil in Hp. destruct_or! Hp; subst; [done| |]; by intros c [= <-].
  - destruct d as [|x d]; [done|]. intros c. rewrite last_app_cons. apply Hl.
Qed.

Lemma entry_cases (A : Type) (f g h : str -> A) prefix d :
  prefix ∈ [[]; s!"*."; s!"**."] -> name_text d -> d <> [] ->
  match strip_prefix (s!"**.") (prefix ++ d) with
  | Some d => f d
  | None => match strip_prefix (s!"*.") (prefix ++ d) with Some d => g d | None => h (prefix ++ d) end
  end = match pattern_of prefix d with
        | ApexAndSubdomains d => f d | SubdomainsOnly d => g d | Exact d => h d end.
Proof.
  intros Hp Hd Hne. rewrite !elem_of_cons, elem_of_nil in Hp. destruct_or! Hp; subst; [|done|done].
  destruct d as [|x d]; [done|]. assert (x <> ch "*") as Hx.
  { unfold name_text in Hd. apply Forall_cons in Hd as [Hx _]. by apply name_char_spec in Hx as (_ & _ & ? & _). }
  simpl. by rewrite !decide_False by done.
Qed.

Lemma entry_nonempty (prefix d : str) : d <> [] -> is_empty (prefix ++ d) = false.
Proof. intros H. apply is_empty_false. by destruct prefix, d. Qed.

Lemma pattern_parse_entry prefix d :
  prefix ∈ [[]; s!"*."; s!"**."] -> name_text d -> d <> [] ->
  pattern_parse (prefix ++ d) = pattern_of prefix d.
Proof.
  intros Hp Hd Hne. unfold pattern_parse. rewrite entry_trim, entry_nonempty by done.
  rewrite (entry_cases _ (fun d => parse_domain d ApexAndSubdomains) (fun d => parse_domain d SubdomainsOnly) Exact)
    by done.
  unfold parse_domain, pattern_of. do 2 (case_decide; [rewrite name_text_trim by done; by destruct d|]). done.
Qed.

Lemma to_lower_nonempty d : d <> [] -> to_ascii_lowercase d <> [].
Proof. by destruct d. Qed.

Lemma normalize_pattern_entry prefix d :
  prefix ∈ [[]; s!"*."; s!"**."] -> name_text d -> d <> [] -> last d <> Some (ch ".") ->
  normalize_pattern (prefix ++ d) = prefix ++ to_ascii_lowercase d.
Proof.
  intros Hp Hd Hne Hl. unfold normalize_pattern. rewrite entry_trim by done.
  assert (prefix ++ d <> s!"*") as Hstar.
  { rewrite !elem_of_cons, elem_of_nil in Hp. destruct_or! Hp; subst; [|done|done].
    destruct d as [|x d]; [done|]. unfold name_text in Hd. apply Forall_cons in Hd as [Hx _].
    apply name_char_spec in Hx as (_ & _ & ? & _). by intros [= ->]. }
  rewrite (proj2 (str_eqb_neq _ _) Hstar).
  rewrite (entry_cases _ (fun d => (s!"**.", d)) (fun d => (s!"*.", d)) (fun d => ([], d))) by done.
  unfold pattern_of. rewrite !elem_of_cons, elem_of_nil in Hp.
  destruct_or! Hp; subst; simpl; by rewrite normalize_host_name.
Qed.

Lemma expand_entry prefix d :
  prefix ∈ [[]; s!"*."; s!"**."] -> name_text d -> d <> [] ->
  expand_domain_pattern (prefix ++ d) =
  match pattern_of prefix d with
  | Exact d => [d] | SubdomainsOnly d => [s!"?*." ++ d] | ApexAndSubdomains d => [d; s!"?*." ++ d] end.
Proof. intros. unfold expand_domain_pattern. by rewrite pattern_parse_entry. Qed.

Lemma name_text_plain d : name_text d -> plain_glob d = true /\ plain_glob (s!"?*." ++ d) = true.
Proof.
  intros Hd. assert (forallb plain_glob_char d = true) as Hc.
  { induction Hd as [|c d Hc _ IH]; [done|]. simpl. rewrite IH. by apply name_char_spec in Hc as (_ & -> & _). }
  assert (find_str (s!"**") d = None) as Hf by (apply (find_str_free (ch "*")); [set_solver|by apply name_text_free]).
  assert (find_str (s!"**") (s!"?*." ++ d) = S <$> (S <$> (S <$> find_str (s!"**") d))) as E by done.
  unfold plain_glob, contains_str. by rewrite E, Hf, forallb_app, Hc.
Qed.

Lemma expand_entry_plain prefix d :
  prefix ∈ [[]; s!"*."; s!"**."] -> name_text d -> d <> [] ->
  Forall (fun c => plain_glob c = true) (expand_domain_pattern (prefix ++ d)).
Proof.
  intros Hp Hd Hne. rewrite expand_entry by done. destruct (name_text_plain d Hd) as [H1 H2].
  unfold pattern_of. repeat case_decide; repeat constructor; done.
Qed.

Lemma below_host d h :
  head h <> Some (ch ".") -> below d h <-> exists l, l <> [] /\ h = l ++ ch "." :: d.
Proof.
  intros Hh. split; [|intros (l & _ & ->); by exists l]. intros [l ->]. exists l. split; [|done]. by intros ->.
Qed.

Section Entries.
Context `{UL : UrlHostLaws}.

Lemma constraints_entry prefix d :
  prefix ∈ [[]; s!"*."; s!"**."] -> dns_name d = true ->
  parse_for_constraints (prefix ++ d) = pattern_of prefix (to_ascii_lowercase d).
Proof.
  intros Hp Hn. destruct (dns_name_chars d Hn) as (Hd & Hne & _ & Hl). change (name_text d) in Hd.
  unfold parse_for_constraints. rewrite entry_trim, entry_nonempty by done.
  rewrite (entry_cases _ (fun d => ApexAndSubdomains (parse_domain_for_constraints d))
    (fun d => SubdomainsOnly (parse_domain_for_constraints d))
    (fun d => Exact (parse_domain_for_constraints d))) by done.
  assert (parse_domain_for_constraints d = to_ascii_lowercase d) as E.
  { unfold parse_domain_for_constraints. rewrite name_text_trim, trim_end_char_id by done.
    rewrite (proj2 (is_empty_false d)) by done. cbn [lit].
    rewrite starts_with_free by (by apply name_text_free). simpl.
    rewrite !(proj2 (contains_char_false _ d)) by (by apply name_text_free). simpl.
    by rewrite url_host_parse_dns. }
  unfold pattern_of. repeat case_decide; by rewrite E.
Qed.

(** A plain entry compiles to globs that match exactly the hosts that its
    pattern stands for. *)
Lemma entry_match e h :
  dns_entry e -> normal_host h ->
  (exists c, c ∈ expand_domain_pattern (normalize_pattern e) /\ wild_match c h = true)
  <-> denotes (parse_for_constraints e) h.
Proof.
  intros (prefix & d & -> & Hp & Hn) [[Hlow Hlast] Hhead].
  destruct (dns_name_chars d Hn) as (Hd & Hne & _ & Hl). change (name_text d) in Hd.
  rewrite normalize_pattern_entry, constraints_entry by done.
  pose proof (name_text_lower d Hd) as Hd'. pose proof (to_lower_nonempty d Hne) as Hne'.
  assert (normalize_domain (to_ascii_lowercase d) = to_ascii_lowercase d) as Hnd.
  { apply normalize_domain_id. split; [apply to_lower_idemp|]. rewrite to_lower_last.
    intros (x & Hx & E)%fmap_Some. symmetry in E. by apply ascii_lower_dot in E as ->. }
  assert (normalize_domain h = h) as Hnh by (by apply normalize_domain_id).
  pose proof (wild_match_literal (to_ascii_lowercase d) h (name_text_literal _ Hd')) as Hlit.
  pose proof (wild_match_subdomain (to_ascii_lowercase d) h (name_text_literal _ Hd')) as Hsub.
  rewrite to_lower_idemp, Hlow in Hlit, Hsub. rewrite <- (below_host _ h Hhead) in Hsub.
  rewrite expand_entry by done.
  unfold pattern_of. repeat case_decide; simpl denotes; rewrite ?Hnd, ?Hnh, <- ?Hlit, <- ?Hsub; set_solver.
Qed.

Lemma dns_entries_plain patterns :
  Forall dns_entry patterns ->
  Forall (fun p => Forall (fun c => plain_glob c = true) (expand_domain_pattern (normalize_pattern p))) patterns.
Proof.
  intros Hp0. eapply Forall_impl; [exact Hp0|]. intros e (prefix & d & -> & Hp & Hn).
  destruct (dns_name_chars d Hn) as (Hd & Hne & _ & Hl).
  rewrite normalize_pattern_entry by done.
  apply expand_entry_plain; [done|by apply name_text_lower|by apply to_lower_nonempty].
Qed.

Context `{GL : GlobLaws}.

(** A compiled list of plain entries matches exactly the hosts of its entries. *)
Theorem compiled_list_spec patterns w set h :
  Forall dns_entry patterns -> normal_host h ->
  compile_globset_with_policy patterns w = Ok set ->
  globset_match set h = true <-> exists e, e ∈ patterns /\ denotes (parse_for_constraints e) h.
Proof.
  intros Hp Hh Hc. rewrite (compile_globset_spec patterns w set h) by (done || by apply dns_entries_plain).
  rewrite Forall_forall in Hp. split.
  - intros (e & c & He & Hin & Hm). exists e. split; [done|]. apply entry_match; [by apply Hp|done|]. eauto.
  - intros (e & He & Hd). apply entry_match in Hd as (c & ? & ?); [|by apply Hp|done]. eauto.
Qed.
End Entries.

Lemma allows_iff_included_witness :
  allows (SubdomainsOnly (s!"Example.com")) (ApexAndSubdomains (s!"api.example.com.")) = true /\
  forall h, denotes (ApexAndSubdomains (s!"api.example.com.")) h -> denotes (SubdomainsOnly (s!"Example.com")) h.
Proof. split; [by vm_compute|]. apply allows_iff_included; [done|by vm_compute]. Defined.
