(* ===== verification/NetConfig.v ===== *)
(** * Configuration of the network proxy

    [network-proxy/src/config.rs]: domain and socket permissions, the
    configuration with the operations that edit it, the addresses the listeners
    bind to, and the parsing of host and port.  A [BTreeMap] is the list of its
    bindings in the order of the keys.  The URL parser of the [url] crate is a
    parameter, the host's directories come from the class [Host]. *)

From Stdlib Require Sorted.
From stdpp Require Import gmap.
From S2P Require Import Prelude.
From S2P Require Import RustStr.
From S2P Require Import Paths.
From S2P Require Import NetAddr.

(** ** Data *)

Inductive NetworkDomainPermission : Type := PermNone | PermAllow | PermDeny.
Inductive NetworkUnixSocketPermission : Type := SocketAllow | SocketDeny.
Inductive NetworkMode : Type := Limited | Full.

Record NetworkDomainPermissionEntry := mk_entry { pattern : str; permission : NetworkDomainPermission }.

(** Configuration of the hooks on intercepted requests ([mitm_hook.rs]); a JSON
    body matcher is kept as its text. *)
Record InjectedHeaderConfig := {
  ih_name : str; secret_env_var : option str; secret_file : option str; ih_prefix : option str }.
Record MitmHookMatchConfig := {
  mc_methods : list str; mc_path_prefixes : list str; mc_query : list (str * list str);
  mc_headers : list (str * list str); mc_body : option str }.
Record MitmHookActionsConfig := {
  strip_headers_cfg : list str; inject_headers_cfg : list InjectedHeaderConfig }.
Record MitmHookConfig := {
  hook_host : str; hook_matcher : MitmHookMatchConfig; hook_actions : MitmHookActionsConfig }.

Record NetworkProxyConfig := {
  enabled : bool; proxy_url : str; enable_socks5 : bool; socks_url : str; enable_socks5_udp : bool;
  allow_upstream_proxy : bool; dangerously_allow_non_loopback_proxy : bool;
  dangerously_allow_all_unix_sockets : bool; mode : NetworkMode;
  domains : option (list NetworkDomainPermissionEntry);
  unix_sockets : option (list (str * NetworkUnixSocketPermission));
  allow_local_binding : bool; mitm : bool; credential_broker : bool;
  dangerously_allow_plaintext_credential_injection : bool; mitm_hooks : list MitmHookConfig }.

#[export] Instance domain_permission_eq_dec : EqDecision NetworkDomainPermission.
Proof. solve_decision. Defined.
#[export] Instance socket_permission_eq_dec : EqDecision NetworkUnixSocketPermission.
Proof. solve_decision. Defined.
#[export] Instance network_mode_eq_dec : EqDecision NetworkMode.
Proof. solve_decision. Defined.
#[export] Instance domain_entry_eq_dec : EqDecision NetworkDomainPermissionEntry.
Proof. solve_decision. Defined.
#[export] Instance injected_header_config_eq_dec : EqDecision InjectedHeaderConfig.
Proof. solve_decision. Defined.
#[export] Instance match_config_eq_dec : EqDecision MitmHookMatchConfig.
Proof. solve_decision. Defined.
#[export] Instance actions_config_eq_dec : EqDecision MitmHookActionsConfig.
Proof. solve_decision. Defined.
#[export] Instance hook_config_eq_dec : EqDecision MitmHookConfig.
Proof. solve_decision. Defined.
#[export] Instance proxy_config_eq_dec : EqDecision NetworkProxyConfig.
Proof. solve_decision. Defined.

Definition default_proxy_url : str := s!"http://127.0.0.1:3128".
Definition default_socks_url : str := s!"http://127.0.0.1:8081".

(** [NetworkProxyConfig::default] *)
Definition default_config : NetworkProxyConfig := {|
  enabled := false; proxy_url := default_proxy_url; enable_socks5 := true;
  socks_url := default_socks_url; enable_socks5_udp := true; allow_upstream_proxy := true;
  dangerously_allow_non_loopback_proxy := false; dangerously_allow_all_unix_sockets := false;
  mode := Full; domains := None; unix_sockets := None; allow_local_binding := false; mitm := false;
  credential_broker := false; dangerously_allow_plaintext_credential_injection := false;
  mitm_hooks := [] |}.

(** ** Effective permissions *)

(** The order of the variants: none, allow, deny. *)
Definition permission_rank (p : NetworkDomainPermission) : N :=
  match p with PermNone => 0 | PermAllow => 1 | PermDeny => 2 end.

(** One turn of the loop of [effective_entries]. *)
Definition effective_step (st : list str * gmap str NetworkDomainPermission)
    (entry : NetworkDomainPermissionEntry) : list str * gmap str NetworkDomainPermission :=
  let '(order, effective_permissions) := st in
  match effective_permissions !! pattern entry with
  | None => (order ++ [pattern entry], <[pattern entry := permission entry]> effective_permissions)
  | Some p =>
      (order, if (permission_rank p <? permission_rank (permission entry))%N
              then <[pattern entry := permission entry]> effective_permissions
              else effective_permissions)
  end.

(** The closing [filter_map], which takes each permission out of the map. *)
Fixpoint take_effective (order : list str) (effective_permissions : gmap str NetworkDomainPermission) :
    list NetworkDomainPermissionEntry :=
  match order with
  | [] => []
  | p :: rest =>
      match effective_permissions !! p with
      | Some perm => mk_entry p perm :: take_effective rest (delete p effective_permissions)
      | None => take_effective rest effective_permissions
      end
  end.

Definition effective_entries (entries : list NetworkDomainPermissionEntry) :
    list NetworkDomainPermissionEntry :=
  let '(order, effective_permissions) := fold_left effective_step entries ([], ∅) in
  take_effective order effective_permissions.

Definition domain_entries (self : NetworkProxyConfig) (perm : NetworkDomainPermission) :
    option (list str) :=
  match domains self with
  | None => None
  | Some entries =>
      let found := pattern <$> filter (fun e => permission e = perm) (effective_entries entries) in
      if is_empty found then None else Some found
  end.

Definition allowed_domains (self : NetworkProxyConfig) : option (list str) := domain_entries self PermAllow.
Definition denied_domains (self : NetworkProxyConfig) : option (list str) := domain_entries self PermDeny.

Definition allow_unix_sockets (self : NetworkProxyConfig) : list str :=
  match unix_sockets self with
  | None => []
  | Some entries => fst <$> filter (fun e => snd e = SocketAllow) entries
  end.

(** ** Edits *)

(** The configuration with the fields that change while the proxy runs or is set
    up; an empty table of domains or sockets is none. *)
Definition update_config (self : NetworkProxyConfig) (m : NetworkMode)
    (d : option (list NetworkDomainPermissionEntry))
    (u : option (list (str * NetworkUnixSocketPermission))) (intercept broker : bool) :
    NetworkProxyConfig := {|
  enabled := enabled self; proxy_url := proxy_url self; enable_socks5 := enable_socks5 self;
  socks_url := socks_url self; enable_socks5_udp := enable_socks5_udp self;
  allow_upstream_proxy := allow_upstream_proxy self;
  dangerously_allow_non_loopback_proxy := dangerously_allow_non_loopback_proxy self;
  dangerously_allow_all_unix_sockets := dangerously_allow_all_unix_sockets self; mode := m;
  domains := d; unix_sockets := u; allow_local_binding := allow_local_binding self; mitm := intercept;
  credential_broker := broker;
  dangerously_allow_plaintext_credential_injection := dangerously_allow_plaintext_credential_injection self;
  mitm_hooks := mitm_hooks self |}.

Definition then_some {A} (l : list A) : option (list A) := if is_empty l then None else Some l.

Definition with_domains (self : NetworkProxyConfig) (d : list NetworkDomainPermissionEntry) :
    NetworkProxyConfig :=
  update_config self (mode self) (then_some d) (unix_sockets self) (mitm self) (credential_broker self).
Definition with_unix_sockets (self : NetworkProxyConfig) (u : list (str * NetworkUnixSocketPermission)) :
    NetworkProxyConfig :=
  update_config self (mode self) (domains self) (then_some u) (mitm self) (credential_broker self).
Definition with_mode (self : NetworkProxyConfig) (m : NetworkMode) : NetworkProxyConfig :=
  update_config self m (domains self) (unix_sockets self) (mitm self) (credential_broker self).

Definition set_credential_broker_enabled (self : NetworkProxyConfig) (on : bool) : NetworkProxyConfig :=
  update_config self (mode self) (domains self) (unix_sockets self) (mitm self || on) on.

Definition upsert_domain_permission (self : NetworkProxyConfig) (host : str)
    (perm : NetworkDomainPermission) (normalize : str -> str) : NetworkProxyConfig :=
  let entries := default [] (domains self) in
  let normalized_host := normalize host in
  let entries := filter (fun e => normalize (pattern e) <> normalized_host) entries in
  with_domains self (entries ++ [mk_entry host perm]).

Fixpoint push_domain_entries (perm : NetworkDomainPermission) (new : list str)
    (entries : list NetworkDomainPermissionEntry) : list NetworkDomainPermissionEntry :=
  match new with
  | [] => entries
  | e :: rest =>
      push_domain_entries perm rest
        (if bool_decide (mk_entry e perm ∈ entries) then entries else entries ++ [mk_entry e perm])
  end.

Definition set_domain_entries (self : NetworkProxyConfig) (new : list str)
    (perm : NetworkDomainPermission) : NetworkProxyConfig :=
  let entries := filter (fun e => permission e <> perm) (default [] (domains self)) in
  with_domains self (push_domain_entries perm new entries).

Definition set_allowed_domains (self : NetworkProxyConfig) (l : list str) : NetworkProxyConfig :=
  set_domain_entries self l PermAllow.
Definition set_denied_domains (self : NetworkProxyConfig) (l : list str) : NetworkProxyConfig :=
  set_domain_entries self l PermDeny.

(** [BTreeMap::insert] *)
Fixpoint btree_insert {A} (k : str) (v : A) (m : list (str * A)) : list (str * A) :=
  match m with
  | [] => [(k, v)]
  | (k', v') :: m' =>
      match str_compare k k' with
      | Lt => (k, v) :: m
      | Eq => (k, v) :: m'
      | Gt => (k', v') :: btree_insert k v m'
      end
  end.

Definition set_unix_socket_entries (self : NetworkProxyConfig) (new : list str)
    (perm : NetworkUnixSocketPermission) : NetworkProxyConfig :=
  let entries := filter (fun e => snd e <> perm) (default [] (unix_sockets self)) in
  with_unix_sockets self (fold_left (fun m e => btree_insert e perm m) new entries).

Definition set_allow_unix_sockets (self : NetworkProxyConfig) (l : list str) : NetworkProxyConfig :=
  set_unix_socket_entries self l SocketAllow.

Definition allows_method (self : NetworkMode) (method : str) : bool :=
  match self with
  | Full => true
  | Limited => existsb (str_eqb method) [s!"GET"; s!"HEAD"; s!"OPTIONS"]
  end.

(** ** Addresses of the listeners *)

Record SocketAddr := mk_addr { addr_ip : IpAddr; addr_port : N }.
Record SocketAddressParts := { parts_host : str; parts_port : N }.
Record RuntimeConfig := { http_addr : SocketAddr; socks_addr : SocketAddr }.

Definition localhost_v4 : IpAddr := V4 (mk4 127 0 0 1).

Definition clamp_non_loopback (addr : SocketAddr) (allow_non_loopback : bool) : SocketAddr :=
  if is_loopback (addr_ip addr) then addr
  else if allow_non_loopback then addr
  else mk_addr localhost_v4 (addr_port addr).

Definition clamp_bind_addrs (http socks : SocketAddr) (cfg : NetworkProxyConfig) : SocketAddr * SocketAddr :=
  let http := clamp_non_loopback http (dangerously_allow_non_loopback_proxy cfg) in
  let socks := clamp_non_loopback socks (dangerously_allow_non_loopback_proxy cfg) in
  if is_empty (allow_unix_sockets cfg) && negb (dangerously_allow_all_unix_sockets cfg) then (http, socks)
  else (mk_addr localhost_v4 (addr_port http), mk_addr localhost_v4 (addr_port socks)).

(** ** Errors: a message with its arguments, or an error with its context *)

Inductive ConfigError : Type :=
| MissingHost (address : str)
| NormalizeSocketPath (socket_path : str)
| ExpectedAbsolutePath (socket_path : str)
| InvalidAllowUnixSockets (index : nat) (e : ConfigError)
| InvalidProxyUrl (url : str) (e : ConfigError)
| InvalidSocksUrl (url : str) (e : ConfigError)
| ProxyUrlNeedsPort
| SocksUrlNeedsPort.

(** [Url::parse]: the host, if the URL has one, and the explicit port. *)
Class UrlParser : Type := { url_parse : str -> option (option str * option N) }.

Inductive ValidatedUnixSocketPath : Type :=
| Native (path : Path)
| UnixStyleAbsolute (path : str).

(** [UnixStyleAbsolutePath::parse] *)
Definition unix_style_parse (value : str) : option str :=
  if starts_with (s!"/") value then Some value else None.

Section Runtime.
Context `{Host} `{UrlParser}.

Definition socket_path_parse (socket_path : str) : result ValidatedUnixSocketPath ConfigError :=
  let path := components socket_path in
  if is_absolute path then
    match from_absolute_path path with
    | Some path => Ok (Native path)
    | None => Err (NormalizeSocketPath socket_path)
    end
  else match unix_style_parse socket_path with
       | Some path => Ok (UnixStyleAbsolute path)
       | None => Err (ExpectedAbsolutePath socket_path)
       end.

Fixpoint validate_socket_paths (index : nat) (paths : list str) : result unit ConfigError :=
  match paths with
  | [] => Ok tt
  | p :: rest =>
      match socket_path_parse p with
      | Ok _ => validate_socket_paths (S index) rest
      | Err e => Err (InvalidAllowUnixSockets index e)
      end
  end.

Definition validate_unix_socket_allowlist_paths (cfg : NetworkProxyConfig) : result unit ConfigError :=
  validate_socket_paths 0 (allow_unix_sockets cfg).

Definition U16_MAX : N := 65535.
Definition parse_u16 (s : str) : option N := parse_unsigned U16_MAX s.

Definition parse_host_port_fallback (input : str) (default_port : N) :
    result SocketAddressParts ConfigError :=
  let without_scheme := match split_once_str (s!"://") input with Some (_, rest) => rest | None => input end in
  let host_port := default without_scheme (head (split_on (ch "/") without_scheme)) in
  let host_port := match rsplit_once (ch "@") host_port with Some (_, rest) => rest | None => host_port end in
  match (if starts_with (s!"[") host_port then find_str (s!"]") host_port else None) with
  | Some close =>
      let host := drop 1 (take close host_port) in
      let port := default default_port
        (match strip_prefix (s!":") (drop (close + 1) host_port) with
         | Some port => parse_u16 port | None => None end) in
      if is_empty host then Err (MissingHost input)
      else Ok {| parts_host := host; parts_port := port |}
  | None =>
      match (if count_char (ch ":") host_port =? 1 then rsplit_once (ch ":") host_port else None) with
      | Some (host, port) =>
          if is_empty host then Err (MissingHost input)
          else Ok {| parts_host := host; parts_port := default default_port (parse_u16 port) |}
      | None =>
          if is_empty host_port then Err (MissingHost input)
          else Ok {| parts_host := host_port; parts_port := default_port |}
      end
  end.

(** [s.trim_matches(|c| c == '[' || c == ']')] *)
Definition is_bracket (c : char) : bool := (c =? ch "[")%N || (c =? ch "]")%N.
Fixpoint drop_brackets (s : str) : str :=
  match s with
  | [] => []
  | c :: s' => if is_bracket c then drop_brackets s' else s
  end.
Definition trim_brackets (s : str) : str := reverse (drop_brackets (reverse (drop_brackets s))).

Definition parse_host_port (url : str) (default_port : N) : result SocketAddressParts ConfigError :=
  let trimmed := trim url in
  if is_empty trimmed then Err (MissingHost url)
  else if match parse_ip trimmed with Some (V6 _) => true | _ => false end
          && negb (starts_with (s!"[") trimmed)
  then Ok {| parts_host := trimmed; parts_port := default_port |}
  else
    let candidate := if contains_str (s!"://") trimmed then trimmed else s!"http://" ++ trimmed in
    match url_parse candidate with
    | Some (Some host, port) =>
        let host := trim_brackets host in
        if is_empty host then Err (MissingHost url)
        else Ok {| parts_host := host; parts_port := default default_port port |}
    | _ => parse_host_port_fallback trimmed default_port
    end.

Definition resolve_addr (url : str) (default_port : N) : result SocketAddr ConfigError :=
  let? addr_parts := parse_host_port url default_port in
  let host := if eq_ignore_ascii_case (parts_host addr_parts) (s!"localhost")
              then s!"127.0.0.1" else parts_host addr_parts in
  match parse_ip host with
  | Some ip => Ok (mk_addr ip (parts_port addr_parts))
  | None => Ok (mk_addr localhost_v4 (parts_port addr_parts))
  end.

Definition with_context {T E} (r : result T E) (f : E -> E) : result T E :=
  match r with Ok t => Ok t | Err e => Err (f e) end.

Definition resolve_runtime (cfg : NetworkProxyConfig) : result RuntimeConfig ConfigError :=
  let? _ := validate_unix_socket_allowlist_paths cfg in
  let? http := with_context (resolve_addr (proxy_url cfg) 3128) (InvalidProxyUrl (proxy_url cfg)) in
  let? socks := with_context (resolve_addr (socks_url cfg) 8081) (InvalidSocksUrl (socks_url cfg)) in
  let '(http, socks) := clamp_bind_addrs http socks cfg in
  Ok {| http_addr := http; socks_addr := socks |}.

(** At most two ports, sorted and without repetition. *)
Definition sort_dedup_ports (ports : list N) : list N :=
  match ports with
  | [a; b] => if (a =? b)%N then [a] else if (a <=? b)%N then [a; b] else [b; a]
  | _ => ports
  end.

Definition managed_proxy_ports (cfg : NetworkProxyConfig) : result (list N) ConfigError :=
  let? runtime := resolve_runtime cfg in
  if (addr_port (http_addr runtime) =? 0)%N then Err ProxyUrlNeedsPort
  else if enable_socks5 cfg then
    if (addr_port (socks_addr runtime) =? 0)%N then Err SocksUrlNeedsPort
    else Ok (sort_dedup_ports [addr_port (http_addr runtime); addr_port (socks_addr runtime)])
  else Ok (sort_dedup_ports [addr_port (http_addr runtime)]).

Definition format_host_and_port (host : str) (port : N) : str :=
  if contains_char (ch ":") host then s!"[" ++ host ++ s!"]:" ++ digits_of_N port
  else host ++ s!":" ++ digits_of_N port.

Definition host_and_port_from_network_addr (value : str) (default_port : N) : str :=
  let trimmed := trim value in
  if is_empty trimmed then s!"<missing>"
  else match parse_host_port trimmed default_port with
       | Ok parts => format_host_and_port (parts_host parts) (parts_port parts)
       | Err _ => format_host_and_port trimmed default_port
       end.
End Runtime.

(** * Theorems on the configuration of the network proxy

    The strictest permission of a domain pattern is the one in force, edits do
    what they say, listeners stay on the loopback interface unless the
    configuration says otherwise, and a printed address reads back. *)

(** ** Effective permissions *)

Definition perm_le (a b : NetworkDomainPermission) : Prop := (permission_rank a <= permission_rank b)%N.

(** [perm] is the greatest permission that the entries give to pattern [p]. *)
Definition strictest (entries : list NetworkDomainPermissionEntry) (p : str)
    (perm : NetworkDomainPermission) : Prop :=
  mk_entry p perm ∈ entries /\ forall q, mk_entry p q ∈ entries -> perm_le q perm.

Lemma permission_rank_inj a b : permission_rank a = permission_rank b -> a = b.
Proof. by destruct a, b. Qed.

Lemma strictest_unique entries p a b : strictest entries p a -> strictest entries p b -> a = b.
Proof.
  intros [Ha Hla] [Hb Hlb]. apply permission_rank_inj. apply Hlb in Ha. apply Hla in Hb.
  unfold perm_le in *. lia.
Qed.

(** The loop: patterns seen once each, with their strictest permission. *)
Definition effective_inv (done : list NetworkDomainPermissionEntry)
    (st : list str * gmap str NetworkDomainPermission) : Prop :=
  NoDup st.1 /\ (forall p, p ∈ st.1 <-> is_Some (st.2 !! p))
  /\ forall p perm, st.2 !! p = Some perm <-> strictest done p perm.

Lemma strictest_snoc_other entries e p perm :
  pattern e <> p -> strictest (entries ++ [e]) p perm <-> strictest entries p perm.
Proof.
  intros Hne. unfold strictest. setoid_rewrite elem_of_app. setoid_rewrite list_elem_of_singleton.
  split.
  - intros [[?|<-] ?]; [|done]. naive_solver.
  - intros [? Hq]. split; [by left|]. intros q [?|<-]; [by apply Hq|done].
Qed.

Lemma strictest_snoc_same entries e perm :
  strictest (entries ++ [e]) (pattern e) perm <->
  (strictest entries (pattern e) perm /\ perm_le (permission e) perm)
  \/ (perm = permission e /\ forall q, mk_entry (pattern e) q ∈ entries -> perm_le q (permission e)).
Proof.
  destruct e as [p pe]. simpl. unfold strictest. setoid_rewrite elem_of_app.
  setoid_rewrite list_elem_of_singleton. split.
  - intros [[Hin|Hin] Hq].
    + left. split; [|by apply Hq; right]. split; [done|]. intros q Hq'. apply Hq. by left.
    + injection Hin as ->. right. split; [done|]. intros q Hq'. apply Hq. by left.
  - intros [[[Hin Hq] Hle]|[-> Hq]].
    + split; [by left|]. intros q [Hq'|Hq']; [by apply Hq|]. by injection Hq' as ->.
    + split; [by right|]. intros q [Hq'|Hq']; [by apply Hq|]. injection Hq' as ->. unfold perm_le; lia.
Qed.

Lemma effective_step_inv done st e :
  effective_inv done st -> effective_inv (done ++ [e]) (effective_step st e).
Proof.
  destruct st as [order m]. intros (Hnd & Hdom & Hm). simpl in *.
  destruct (m !! pattern e) as [p|] eqn:Ep.
  - assert (strictest done (pattern e) p) as Hs by (by apply Hm).
    split; [done|]. simpl. split.
    + intros q. rewrite Hdom. case_match; [|done]. destruct (decide (q = pattern e)) as [->|Hne].
      * rewrite lookup_insert_eq, Ep. by split.
      * by rewrite lookup_insert_ne by done.
    + intros q perm. destruct (decide (q = pattern e)) as [->|Hne].
      2: { rewrite strictest_snoc_other by done. case_match; [rewrite lookup_insert_ne by done|]; apply Hm. }
      rewrite strictest_snoc_same. destruct (permission_rank p <? permission_rank (permission e))%N eqn:El.
      * apply N.ltb_lt in El. rewrite lookup_insert_eq. split.
        -- intros [= <-]. right. split; [done|]. intros r Hr. apply Hs in Hr. unfold perm_le in *. lia.
        -- intros [[Hp Hle]|[-> _]]; [|done]. rewrite (strictest_unique _ _ _ _ Hp Hs) in Hle.
           unfold perm_le in Hle. lia.
      * apply N.ltb_ge in El. rewrite Ep. split.
        -- intros [= <-]. by left.
        -- intros [[Hp _]|[-> Hq]]; [by rewrite (strictest_unique _ _ _ _ Hp Hs)|].
           f_equal. apply permission_rank_inj. destruct Hs as [Hin _]. apply Hq in Hin. unfold perm_le in *. lia.
  - assert (forall q, mk_entry (pattern e) q ∉ done) as Hno.
    { intros q Hq. assert (exists r, strictest done (pattern e) r) as [r Hr].
      { exists (if bool_decide (mk_entry (pattern e) PermDeny ∈ done) then PermDeny
                else if bool_decide (mk_entry (pattern e) PermAllow ∈ done) then PermAllow else PermNone).
        repeat case_bool_decide; (split; [|intros [] ?]); unfold perm_le; simpl; try done; try lia.
        by destruct q. }
      apply Hm in Hr. congruence. }
    split; [|split]; simpl.
    + apply NoDup_app. split; [done|]. split; [|apply NoDup_singleton].
      intros x Hx ->%list_elem_of_singleton. apply Hdom in Hx. rewrite Ep in Hx. by destruct Hx.
    + intros q. rewrite elem_of_app, list_elem_of_singleton, Hdom.
      destruct (decide (q = pattern e)) as [->|Hne]; [rewrite lookup_insert_eq; naive_solver|].
      rewrite lookup_insert_ne by done. naive_solver.
    + intros q perm. destruct (decide (q = pattern e)) as [->|Hne].
      * rewrite lookup_insert_eq, strictest_snoc_same. split.
        -- intros [= <-]. right. split; [done|]. intros r Hr. by apply Hno in Hr.
        -- intros [[[Hin _] _]|[-> _]]; [by apply Hno in Hin|done].
      * rewrite lookup_insert_ne, strictest_snoc_other by done. apply Hm.
Qed.

Lemma effective_fold done rest st :
  effective_inv done st -> effective_inv (done ++ rest) (fold_left effective_step rest st).
Proof.
  revert done st. induction rest as [|e rest IH]; intros done st Hinv; [by rewrite app_nil_r|].
  simpl. rewrite cons_middle, app_assoc. by apply IH, effective_step_inv.
Qed.

Lemma take_effective_spec order m :
  NoDup order -> (forall p, p ∈ order -> is_Some (m !! p)) ->
  pattern <$> take_effective order m = order /\
  forall p perm, mk_entry p perm ∈ take_effective order m <-> p ∈ order /\ m !! p = Some perm.
Proof.
  intros Hnd. revert m. induction Hnd as [|x order Hx Hnd IH]; intros m Hm; simpl.
  { split; [done|]. intros p perm. rewrite !elem_of_nil. naive_solver. }
  destruct (Hm x) as [perm0 Hp0]; [by left|]. rewrite Hp0.
  destruct (IH (delete x m)) as [IH1 IH2].
  { intros p Hp. rewrite lookup_delete_ne by (by intros ->). apply Hm. by right. }
  split; [by rewrite fmap_cons, IH1|]. intros p perm. rewrite !elem_of_cons, IH2. split.
  - intros [[= -> ->]|[Hp Hl]]; [by auto|]. rewrite lookup_delete_ne in Hl by (by intros ->). auto.
  - intros [[->|Hp] Hl]; [left; congruence|]. right. rewrite lookup_delete_ne by (by intros ->). done.
Qed.

Lemma effective_entries_spec entries :
  NoDup (pattern <$> effective_entries entries) /\
  forall p perm, mk_entry p perm ∈ effective_entries entries <-> strictest entries p perm.
Proof.
  unfold effective_entries.
  assert (effective_inv [] ([], ∅)) as H0.
  { split; [apply NoDup_nil_2|]. split; simpl; intros p.
    - rewrite lookup_empty, elem_of_nil. split; [done|]. by intros [].
    - intros perm. rewrite lookup_empty. split; [done|]. by intros [?%elem_of_nil _]. }
  pose proof (effective_fold [] entries _ H0) as (Hnd & Hdom & Hm). simpl in *.
  destruct (fold_left effective_step entries ([], ∅)) as [order m]. simpl in *.
  destruct (take_effective_spec order m Hnd) as [H1 H2]; [by intros; apply Hdom|].
  rewrite H1. split; [done|]. intros p perm. rewrite H2, Hm, Hdom. split; [naive_solver|].
  intros Hs. split; [|done]. exists perm. by apply Hm.
Qed.

Lemma domain_entries_spec c perm p :
  p ∈ default [] (domain_entries c perm) <-> strictest (default [] (domains c)) p perm.
Proof.
  unfold domain_entries. destruct (domains c) as [es|]; simpl.
  2: { rewrite elem_of_nil. split; [done|]. by intros [?%elem_of_nil _]. }
  rewrite <- (proj2 (effective_entries_spec es)).
  assert (p ∈ pattern <$> filter (fun e => permission e = perm) (effective_entries es) <->
    mk_entry p perm ∈ effective_entries es) as <-.
  { rewrite list_elem_of_fmap. setoid_rewrite list_elem_of_filter. split.
    - intros ([q r] & -> & <- & Hin). done.
    - intros Hin. by exists (mk_entry p perm). }
  destruct (is_empty _) eqn:E; [|done]. apply is_empty_true in E. by rewrite E.
Qed.

(** The lists of the proxy are what the entries say, with the stricter entry
    winning: a pattern is denied as soon as one entry denies it, allowed when an
    entry allows it and none denies it. *)
Theorem deny_entry_wins c p :
  (p ∈ default [] (denied_domains c) <-> mk_entry p PermDeny ∈ default [] (domains c)) /\
  (p ∈ default [] (allowed_domains c) <->
   mk_entry p PermAllow ∈ default [] (domains c) /\ mk_entry p PermDeny ∉ default [] (domains c)).
Proof.
  unfold denied_domains, allowed_domains. rewrite !domain_entries_spec. unfold strictest, perm_le. split.
  - split; [naive_solver|]. intros H. split; [done|]. intros [] _; simpl; lia.
  - split.
    + intros [Ha Hq]. split; [done|]. intros Hd. apply Hq in Hd. simpl in Hd. lia.
    + intros [Ha Hd]. split; [done|]. intros [] Hq; simpl; [lia|lia|done].
Qed.

(** ** Edits *)

Lemma default_then_some {A} (l : list A) : default [] (then_some l) = l.
Proof. by destruct l. Qed.

Lemma domains_with_domains c d : default [] (domains (with_domains c d)) = d.
Proof. apply default_then_some. Qed.

(** After [upsert_domain_permission] the host has the new permission, and no
    other entry with the same normal form is left to contradict it. *)
Theorem upsert_takes_effect c host perm normalize :
  strictest (default [] (domains (upsert_domain_permission c host perm normalize))) host perm
  /\ forall e, e ∈ default [] (domains (upsert_domain_permission c host perm normalize)) ->
       e = mk_entry host perm \/ (normalize (pattern e) <> normalize host /\ e ∈ default [] (domains c)).
Proof.
  unfold upsert_domain_permission. rewrite domains_with_domains. unfold strictest.
  setoid_rewrite elem_of_app. setoid_rewrite list_elem_of_filter. setoid_rewrite list_elem_of_singleton.
  split; [|naive_solver]. split; [by right|].
  intros q [[Hq _]|Hq]; [done|]. injection Hq as ->. unfold perm_le; lia.
Qed.

Lemma push_domain_entries_spec perm new entries e :
  e ∈ push_domain_entries perm new entries <-> e ∈ entries \/ (permission e = perm /\ pattern e ∈ new).
Proof.
  revert entries. induction new as [|x new IH]; intros entries; simpl; [rewrite elem_of_nil; naive_solver|].
  rewrite IH, elem_of_cons. destruct e as [p q]. simpl. case_bool_decide as Hin.
  - naive_solver.
  - rewrite elem_of_app, list_elem_of_singleton. naive_solver.
Qed.

(** Setting the allowed domains replaces them, except where an entry that denies
    the same pattern stays in force, and leaves the denied ones alone. *)
Theorem set_allowed_domains_spec c new p :
  (p ∈ default [] (allowed_domains (set_allowed_domains c new)) <->
   p ∈ new /\ p ∉ default [] (denied_domains c)) /\
  (p ∈ default [] (denied_domains (set_allowed_domains c new)) <-> p ∈ default [] (denied_domains c)).
Proof.
  destruct (deny_entry_wins (set_allowed_domains c new) p) as [-> ->].
  destruct (deny_entry_wins c p) as [-> _].
  unfold set_allowed_domains, set_domain_entries. rewrite domains_with_domains.
  rewrite !push_domain_entries_spec, !list_elem_of_filter. simpl. naive_solver.
Qed.

(** ** Listeners *)

(** Listeners that are reachable from outside the machine need the explicit
    setting and no Unix socket that could be reached through them; ports are
    never changed. *)
Theorem clamped_to_loopback cfg http socks http' socks' :
  clamp_bind_addrs http socks cfg = (http', socks') ->
  addr_port http' = addr_port http /\ addr_port socks' = addr_port socks /\
  ((is_loopback (addr_ip http') = true /\ is_loopback (addr_ip socks') = true)
   \/ (dangerously_allow_non_loopback_proxy cfg = true /\ dangerously_allow_all_unix_sockets cfg = false
       /\ allow_unix_sockets cfg = [] /\ http' = http /\ socks' = socks)).
Proof.
  assert (forall a, addr_port (clamp_non_loopback a (dangerously_allow_non_loopback_proxy cfg)) = addr_port a) as Hport.
  { intros a. unfold clamp_non_loopback. by repeat case_match. }
  unfold clamp_bind_addrs. destruct (is_empty _ && _) eqn:E; intros [= <- <-]; simpl; rewrite ?Hport.
  2: { split; [done|]. split; [done|]. by left. }
  split; [done|]. split; [done|]. apply andb_true_iff in E as [E1%is_empty_true E2%negb_true_iff].
  unfold clamp_non_loopback. destruct (dangerously_allow_non_loopback_proxy cfg).
  - right. repeat split; try done; by case_match.
  - left. split; by case_match eqn:E.
Qed.

Lemma sort_dedup_ports_spec a b :
  a <> 0%N -> b <> 0%N ->
  exists ports, sort_dedup_ports [a; b] = ports /\ Sorted.StronglySorted N.lt ports /\
    forall p, p ∈ ports <-> p = a \/ p = b.
Proof.
  intros Ha Hb. eexists. split; [done|]. simpl.
  destruct (N.eqb_spec a b) as [->|Hne]; [|destruct (N.leb_spec a b)];
    (split; [repeat constructor; lia|set_solver]).
Qed.

(** ** Host and port *)

(** A host that can stand in an address: none of the characters that separate
    the parts of a URL. *)
Definition plain_host (h : str) : Prop :=
  h <> [] /\ Forall (fun c => c ∉ s!"/@[]") h.

Lemma plain_host_free c h : plain_host h -> c ∈ s!"/@[]" -> c ∉ h.
Proof. intros [_ H] Hc Hin. rewrite Forall_forall in H. by apply (H c). Qed.

Lemma digits_free c n : is_ascii_digit c = false -> c ∉ digits_of_N n.
Proof.
  intros Hc Hin. destruct (digits_of_N_spec n) as [H _]. rewrite forallb_forall in H.
  apply list_elem_of_In, H in Hin. congruence.
Qed.

Lemma split_once_free c s : c ∉ s -> split_once c s = None.
Proof.
  induction s as [|x s IH]; [done|]. intros H. simpl. rewrite decide_False by set_solver.
  rewrite IH; [done|]. set_solver.
Qed.

Lemma split_once_first c a b : c ∉ a -> split_once c (a ++ c :: b) = Some (a, b).
Proof.
  induction a as [|x a IH]; intros H; simpl; [by rewrite decide_True|].
  rewrite decide_False by set_solver. rewrite IH; [done|]. set_solver.
Qed.

Lemma rsplit_once_last c a b : c ∉ b -> rsplit_once c (a ++ c :: b) = Some (a, b).
Proof.
  intros H. unfold rsplit_once. rewrite reverse_app, reverse_cons, <- app_assoc. simpl.
  rewrite split_once_first by (by rewrite elem_of_reverse). by rewrite !reverse_involutive.
Qed.

Lemma count_char_app c a b : count_char c (a ++ b) = count_char c a + count_char c b.
Proof. unfold count_char. by rewrite filter_app, length_app. Qed.

Lemma find_char_first c a b : c ∉ a -> find_str [c] (a ++ c :: b) = Some (length a).
Proof.
  induction a as [|x a IH]; intros H; simpl.
  - unfold starts_with. simpl. by rewrite decide_True.
  - rewrite starts_with_head_ne by set_solver. rewrite IH; [done|]. set_solver.
Qed.

(** A concrete character that does not occur in a printed address. *)
Ltac solve_free :=
  rewrite ?not_elem_of_app; repeat split;
  first [ by apply (bool_decide_unpack _); vm_compute
        | by apply digits_free
        | match goal with H : plain_host ?h |- _ ∉ ?h =>
            apply (plain_host_free _ _ H); by apply (bool_decide_unpack _); vm_compute end ].

(** A printed address without scheme, path and user is read as it is. *)
Lemma fallback_unfold input q :
  ch "/" ∉ input -> ch "@" ∉ input ->
  parse_host_port_fallback input q =
  match (if starts_with (s!"[") input then find_str (s!"]") input else None) with
  | Some close =>
      if is_empty (drop 1 (take close input)) then Err (MissingHost input)
      else Ok {| parts_host := drop 1 (take close input);
                 parts_port := default q (match strip_prefix (s!":") (drop (close + 1) input) with
                                          | Some port => parse_u16 port | None => None end) |}
  | None =>
      match (if count_char (ch ":") input =? 1 then rsplit_once (ch ":") input else None) with
      | Some (host, port) =>
          if is_empty host then Err (MissingHost input)
          else Ok {| parts_host := host; parts_port := default q (parse_u16 port) |}
      | None => if is_empty input then Err (MissingHost input)
                else Ok {| parts_host := input; parts_port := q |}
      end
  end.
Proof.
  intros H1 H2. unfold parse_host_port_fallback.
  rewrite (split_once_str_free (ch "/")) by (done || (apply list_elem_of_In; simpl; auto)).
  rewrite split_on_free by done. simpl head. simpl default. by rewrite rsplit_once_free.
Qed.

(** Printing an address and reading it gives host and port back, also for IPv6
    addresses, which are put into brackets. *)
Theorem host_port_roundtrip h p q :
  plain_host h -> (p <= U16_MAX)%N ->
  parse_host_port_fallback (format_host_and_port h p) q = Ok {| parts_host := h; parts_port := p |}.
Proof.
  intros Hh Hp. pose proof (proj1 Hh) as Hne. unfold format_host_and_port.
  destruct (contains_char (ch ":") h) eqn:Ec.
  - rewrite fallback_unfold by solve_free.
    change (s!"[" ++ h ++ s!"]:" ++ digits_of_N p) with ((ch "[" :: h) ++ ch "]" :: ch ":" :: digits_of_N p).
    change (starts_with (s!"[") _) with true. change (s!"]") with [ch "]"]. cbv iota.
    rewrite find_char_first by (apply not_elem_of_cons; split; [done|solve_free]).
    rewrite take_app_length, (drop_app_ge _ _ (_ + 1)) by lia. simpl. rewrite drop_0, (proj2 (is_empty_false h)) by done.
    replace (length h + 1 - length h) with 1 by lia. simpl. unfold parse_u16. by rewrite parse_digits_of_N.
  - apply contains_char_false in Ec. rewrite fallback_unfold by solve_free.
    change (s!":" ++ digits_of_N p) with (ch ":" :: digits_of_N p).
    assert (starts_with (s!"[") (h ++ ch ":" :: digits_of_N p) = false) as ->.
    { destruct h as [|x h]; [done|]. apply starts_with_head_ne. intros <-.
      by apply (plain_host_free (ch "[") (ch "[" :: h) Hh); [solve_free|left]. }
    rewrite count_char_app, (count_char_free _ h) by done.
    assert (count_char (ch ":") (ch ":" :: digits_of_N p) = 1) as ->.
    { change (S (count_char (ch ":") (digits_of_N p)) = 1). by rewrite count_char_free by solve_free. }
    simpl. rewrite rsplit_once_last by solve_free. rewrite (proj2 (is_empty_false h)) by done.
    unfold parse_u16. by rewrite parse_digits_of_N.
Qed.

Lemma clamped_to_loopback_witness :
  exists http socks, clamp_bind_addrs (mk_addr (V4 (mk4 0 0 0 0)) 3128) (mk_addr (V4 (mk4 127 0 0 2)) 8081) default_config
    = (http, socks) /\ addr_port http = 3128%N.
Proof.
  exists (mk_addr localhost_v4 3128), (mk_addr (V4 (mk4 127 0 0 2)) 8081). split; [by vm_compute|].
  by apply (clamped_to_loopback default_config (mk_addr (V4 (mk4 0 0 0 0)) 3128) (mk_addr (V4 (mk4 127 0 0 2)) 8081)
    (mk_addr localhost_v4 3128) (mk_addr (V4 (mk4 127 0 0 2)) 8081)).
Defined.

Lemma host_port_roundtrip_witness :
  format_host_and_port (s!"::1") 3128 = s!"[::1]:3128" /\
  parse_host_port_fallback (s!"[::1]:3128") 80 = Ok {| parts_host := s!"::1"; parts_port := 3128 |}.
Proof.
  split; [by vm_compute|]. apply (host_port_roundtrip (s!"::1") 3128 80); [|by vm_compute].
  split; [done|]. by repeat constructor; apply (bool_decide_unpack _); vm_compute.
Defined.
