(* ===== verification/NetHooks.v ===== *)
(** * Hooks on intercepted requests

    [network-proxy/src/mitm_hook.rs]: validation and compilation of the hooks of
    the configuration, and the choice of the hook for a request.  Header names
    and values ([http]), form decoding ([url]) and globs ([globset]) are
    parameters; secrets are read through the resolvers that the code passes. *)

From stdpp Require Import gmap.
From S2P Require Import Prelude RustStr Paths NetAddr NetDomain NetConfig.

(** ** Parameters *)

Class HttpTypes : Type := {
  HeaderName : Type;
  HeaderValue : Type;
  header_name_eq_dec :: EqDecision HeaderName;
  header_name_from_bytes : str -> option HeaderName;
  header_value_from_str : str -> option HeaderValue;
  header_value_to_str : HeaderValue -> option str;
  form_parse : str -> list (str * str)
}.

(** ** Data *)

Inductive HookError : Type :=
| HooksNeedMitm
| InHook (hook_index : nat) (field : str) (e : HookError)
| MethodsEmpty (hook_index : nat)
| PathPrefixesEmpty (hook_index : nat)
| BodyNotSupported (hook_index : nat)
| HookHostEmpty (hook_index : nat)
| HostEmpty
| HostWildcard
| EmptyMethod
| EmptyPathPrefix
| EmptyGlob
| InvalidGlobPattern (pattern : str)
| EmptyQueryKey
| NoAllowedValue (name : str)
| InvalidMatcher (name : str) (e : HookError)
| InvalidHeaderName (name : str)
| EmptySecretEnvVar
| ExactlyOneSecret
| EmptySecretFile
| SecretFileNotAbsolute (path : str)
| MissingEnvVar (name : str)
| SecretFileUnreadable (path : Path)
| InvalidHeaderValue (name : str)
| InInjectedHeader (name : str) (e : HookError).

Inductive MatcherPattern : Type := PatLiteral (p : str) | PatGlob (p : str).

Section Hooks.
Context `{HttpTypes} `{Globs} `{Host}.

(** A compiled glob with the text it comes from. *)
Record CompiledGlobMatcher := { cg_pattern : str; cg_matcher : Glob }.
Inductive PathMatcher : Type := PathPrefix (prefix : str) | PathGlob (glob : CompiledGlobMatcher).
Inductive ValueMatcher : Type := ValueExact (value : str) | ValueGlob (glob : CompiledGlobMatcher).
Record QueryConstraint := { qc_name : str; qc_allowed : list ValueMatcher }.
Record HeaderConstraint := { hc_name : HeaderName; hc_allowed : list ValueMatcher }.
Inductive SecretSource : Type := EnvVar (name : str) | SecretFile (path : Path).
Record ResolvedInjectedHeader := { rh_name : HeaderName; rh_value : HeaderValue; rh_source : SecretSource }.
Record MitmHookActions := {
  strip_request_headers : list HeaderName; inject_request_headers : list ResolvedInjectedHeader }.
Record MitmHookMatcher := {
  m_methods : list str; m_path_prefixes : list PathMatcher; m_query : list QueryConstraint;
  m_headers : list HeaderConstraint; m_body : option str }.
Record MitmHook := { h_host : str; h_matcher : MitmHookMatcher; h_actions : MitmHookActions }.

Definition MitmHooksByHost : Type := list (str * list MitmHook).

Inductive HookEvaluation : Type :=
| NoHooksForHost
| Matched (actions : MitmHookActions)
| HookedHostNoMatch.

(** The parts of a request that hooks look at. *)
Record Request := { req_method : str; req_path : str; req_query : option str;
                    req_headers : list (HeaderName * HeaderValue) }.

(** ** Compilation of matchers *)

(** [iter().map(f).collect::<Result<Vec<_>>>()] *)
Fixpoint collect {A B E} (f : A -> result B E) (l : list A) : result (list B) E :=
  match l with
  | [] => Ok []
  | x :: l' => let? y := f x in let? ys := collect f l' in Ok (y :: ys)
  end.

Definition LITERAL_PREFIX : str := s!"literal:".
Definition PATTERN_PREFIX : str := s!"pattern:".

Definition parse_matcher_pattern (p : str) : result MatcherPattern HookError :=
  match strip_prefix LITERAL_PREFIX p with
  | Some literal => Ok (PatLiteral literal)
  | None =>
      match strip_prefix PATTERN_PREFIX p with
      | None => Ok (PatLiteral p)
      | Some glob_pattern => if is_empty glob_pattern then Err EmptyGlob else Ok (PatGlob glob_pattern)
      end
  end.

Definition compile_glob_matcher (p : str) (separator : bool) : result CompiledGlobMatcher HookError :=
  match glob_build {| case_insensitive := false; literal_separator := separator; backslash_escape := true |} p with
  | Some g => Ok {| cg_pattern := p; cg_matcher := g |}
  | None => Err (InvalidGlobPattern p)
  end.

Definition compile_path_matcher (prefix : str) : result PathMatcher HookError :=
  let? p := parse_matcher_pattern prefix in
  match p with
  | PatLiteral prefix => if is_empty prefix then Err EmptyPathPrefix else Ok (PathPrefix prefix)
  | PatGlob glob_pattern => let? g := compile_glob_matcher glob_pattern true in Ok (PathGlob g)
  end.

Definition compile_path_matchers (path_prefixes : list str) : result (list PathMatcher) HookError :=
  collect compile_path_matcher path_prefixes.

Definition compile_value_matcher (value : str) : result ValueMatcher HookError :=
  let? p := parse_matcher_pattern value in
  match p with
  | PatLiteral value => Ok (ValueExact value)
  | PatGlob glob_pattern => let? g := compile_glob_matcher glob_pattern false in Ok (ValueGlob g)
  end.

Definition compile_value_matchers (values : list str) : result (list ValueMatcher) HookError :=
  collect compile_value_matcher values.

Definition normalize_hook_host (host : str) : result str HookError :=
  let normalized := normalize_host host in
  if is_empty normalized then Err HostEmpty
  else if contains_char (ch "*") normalized then Err HostWildcard
  else Ok normalized.

Definition normalize_method (method : str) : result str HookError :=
  let normalized := to_ascii_uppercase (trim method) in
  if is_empty normalized then Err EmptyMethod else Ok normalized.

Definition normalize_methods (methods : list str) : result (list str) HookError :=
  collect normalize_method methods.

Definition normalize_query_name (name : str) : result str HookError :=
  if is_empty name then Err EmptyQueryKey else Ok name.

Definition parse_header_name (name : str) : result HeaderName HookError :=
  match header_name_from_bytes name with
  | Some n => Ok n
  | None => Err (InvalidHeaderName name)
  end.

Definition parse_secret_file (path : str) : result Path HookError :=
  if is_empty (trim path) then Err EmptySecretFile
  else if negb (is_absolute (components path)) then Err (SecretFileNotAbsolute path)
  else match from_absolute_path (components path) with
       | Some p => Ok p
       | None => Err (SecretFileNotAbsolute path)
       end.

(** ** Validation *)

(** A loop that checks every element. *)
Fixpoint validate_all {A} (check : A -> result unit HookError) (l : list A) : result unit HookError :=
  match l with
  | [] => Ok tt
  | x :: l' => let? _ := check x in validate_all check l'
  end.

Definition validate_query_constraint (c : str * list str) : result unit HookError :=
  let '(name, values) := c in
  let? normalized := normalize_query_name name in
  if is_empty normalized then Err EmptyQueryKey
  else if is_empty values then Err (NoAllowedValue name)
  else let? _ := with_context (compile_value_matchers values) (InvalidMatcher name) in Ok tt.

Definition validate_query_constraints (query : list (str * list str)) : result unit HookError :=
  validate_all validate_query_constraint query.

Definition validate_header_constraint (c : str * list str) : result unit HookError :=
  let '(name, values) := c in
  let? _ := parse_header_name name in
  let? _ := with_context (compile_value_matchers values) (InvalidMatcher name) in Ok tt.

Definition validate_header_constraints (headers : list (str * list str)) : result unit HookError :=
  validate_all validate_header_constraint headers.

Definition validate_strip_request_headers (header_names : list str) : result unit HookError :=
  validate_all (fun name => let? _ := parse_header_name name in Ok tt) header_names.

Definition validate_injected_header (header : InjectedHeaderConfig) : result unit HookError :=
  let? _ := parse_header_name (ih_name header) in
  match secret_env_var header, secret_file header with
  | Some env_var, None => if is_empty (trim env_var) then Err EmptySecretEnvVar else Ok tt
  | None, Some file => let? _ := parse_secret_file file in Ok tt
  | _, _ => Err ExactlyOneSecret
  end.

Definition validate_injected_headers (headers : list InjectedHeaderConfig) : result unit HookError :=
  validate_all validate_injected_header headers.

Definition validate_hook (hook_index : nat) (hook : MitmHookConfig) : result unit HookError :=
  let m := hook_matcher hook in
  let ctx {T} (r : result T HookError) (field : str) : result T HookError :=
    with_context r (InHook hook_index field) in
  let? host := ctx (normalize_hook_host (hook_host hook)) (s!"host") in
  let? methods := ctx (normalize_methods (mc_methods m)) (s!"match.methods") in
  if is_empty methods then Err (MethodsEmpty hook_index) else
  let? path_prefixes := ctx (compile_path_matchers (mc_path_prefixes m)) (s!"match.path_prefixes") in
  if is_empty path_prefixes then Err (PathPrefixesEmpty hook_index) else
  if mc_body m is Some _ then Err (BodyNotSupported hook_index) else
  let? _ := ctx (validate_query_constraints (mc_query m)) (s!"match.query") in
  let? _ := ctx (validate_header_constraints (mc_headers m)) (s!"match.headers") in
  let? _ := ctx (validate_strip_request_headers (strip_headers_cfg (hook_actions hook)))
              (s!"actions.strip_request_headers") in
  let? _ := ctx (validate_injected_headers (inject_headers_cfg (hook_actions hook)))
              (s!"actions.inject_request_headers") in
  if is_empty host then Err (HookHostEmpty hook_index) else Ok tt.

Fixpoint validate_hooks (hook_index : nat) (hooks : list MitmHookConfig) : result unit HookError :=
  match hooks with
  | [] => Ok tt
  | hook :: rest => let? _ := validate_hook hook_index hook in validate_hooks (S hook_index) rest
  end.

Definition validate_mitm_hook_config (config : NetworkProxyConfig) : result unit HookError :=
  let hooks := mitm_hooks config in
  if is_empty hooks then Ok tt
  else if negb (mitm config) then Err HooksNeedMitm
  else validate_hooks 0 hooks.

(** ** Compilation *)

(** The environment and the secret files. *)
Context (resolve_env_var : str -> option str) (read_secret_file : Path -> result str HookError).

Definition compile_injected_header (header : InjectedHeaderConfig) :
    result ResolvedInjectedHeader HookError :=
  let? name := parse_header_name (ih_name header) in
  let? (secret, source) :=
    match secret_env_var header, secret_file header with
    | Some env_var, None =>
        match resolve_env_var env_var with
        | Some value => Ok (value, EnvVar env_var)
        | None => Err (MissingEnvVar env_var)
        end
    | None, Some file =>
        let? path := parse_secret_file file in
        let? value := read_secret_file path in Ok (value, SecretFile path)
    | _, _ => Err ExactlyOneSecret
    end in
  let prefix := default [] (ih_prefix header) in
  match header_value_from_str (prefix ++ secret) with
  | Some value => Ok {| rh_name := name; rh_value := value; rh_source := source |}
  | None => Err (InvalidHeaderValue (ih_name header))
  end.

Definition compile_query (c : str * list str) : result QueryConstraint HookError :=
  let '(name, values) := c in
  let? name := normalize_query_name name in
  let? allowed := compile_value_matchers values in
  Ok {| qc_name := name; qc_allowed := allowed |}.

Definition compile_header (c : str * list str) : result HeaderConstraint HookError :=
  let '(name, values) := c in
  let? name := parse_header_name name in
  let? allowed := compile_value_matchers values in
  Ok {| hc_name := name; hc_allowed := allowed |}.

Definition compile_hook (hook : MitmHookConfig) : result MitmHook HookError :=
  let m := hook_matcher hook in
  let? host := normalize_hook_host (hook_host hook) in
  let? methods := normalize_methods (mc_methods m) in
  let? path_prefixes := compile_path_matchers (mc_path_prefixes m) in
  let? query := collect compile_query (mc_query m) in
  let? headers := collect compile_header (mc_headers m) in
  let? strip := collect parse_header_name (strip_headers_cfg (hook_actions hook)) in
  let? inject := collect (fun header =>
    with_context (compile_injected_header header) (InInjectedHeader (ih_name header)))
    (inject_headers_cfg (hook_actions hook)) in
  Ok {| h_host := host;
        h_matcher := {| m_methods := methods; m_path_prefixes := path_prefixes; m_query := query;
                        m_headers := headers; m_body := None |};
        h_actions := {| strip_request_headers := strip; inject_request_headers := inject |} |}.

(** [BTreeMap::get] *)
Fixpoint btree_get {A} (k : str) (m : list (str * A)) : option A :=
  match m with
  | [] => None
  | (k', v) :: m' => if decide (k = k') then Some v else btree_get k m'
  end.

(** [entry(host).or_default().push(hook)] *)
Definition push_hook (hooks : MitmHooksByHost) (hook : MitmHook) : MitmHooksByHost :=
  btree_insert (h_host hook) (default [] (btree_get (h_host hook) hooks) ++ [hook]) hooks.

Fixpoint compile_hooks (hooks : list MitmHookConfig) (acc : MitmHooksByHost) :
    result MitmHooksByHost HookError :=
  match hooks with
  | [] => Ok acc
  | hook :: rest => let? h := compile_hook hook in compile_hooks rest (push_hook acc h)
  end.

Definition compile_mitm_hooks_with_resolvers (config : NetworkProxyConfig) :
    result MitmHooksByHost HookError :=
  let? _ := validate_mitm_hook_config config in compile_hooks (mitm_hooks config) [].

(** ** Matching *)

Definition glob_is_match (g : CompiledGlobMatcher) (candidate : str) : bool :=
  glob_match (cg_matcher g) candidate.

Definition path_matcher_matches (m : PathMatcher) (candidate : str) : bool :=
  match m with
  | PathPrefix prefix => starts_with prefix candidate
  | PathGlob g => glob_is_match g candidate
  end.

Definition value_matches (m : ValueMatcher) (candidate : str) : bool :=
  match m with
  | ValueExact value => str_eqb value candidate
  | ValueGlob g => glob_is_match g candidate
  end.

Definition path_matches (path_prefixes : list PathMatcher) (path : str) : bool :=
  existsb (fun m => path_matcher_matches m path) path_prefixes.

(** The values of a query parameter, in order. *)
Definition query_values (pairs : list (str * str)) (name : str) : list str :=
  snd <$> filter (fun p => p.1 = name) pairs.

Definition query_matches (constraints : list QueryConstraint) (req : Request) : bool :=
  if is_empty constraints then true
  else
    let pairs := form_parse (default [] (req_query req)) in
    forallb (fun c =>
      existsb (fun candidate => existsb (fun allowed => value_matches allowed candidate) (qc_allowed c))
        (query_values pairs (qc_name c))) constraints.

(** [headers().get_all(name)] *)
Definition get_all (headers : list (HeaderName * HeaderValue)) (name : HeaderName) : list HeaderValue :=
  snd <$> filter (fun p => p.1 = name) headers.

Definition headers_match (constraints : list HeaderConstraint) (req : Request) : bool :=
  forallb (fun c =>
    let actual := get_all (req_headers req) (hc_name c) in
    if is_empty actual then false
    else if is_empty (hc_allowed c) then true
    else existsb (fun value =>
           match header_value_to_str value with
           | Some candidate => existsb (fun allowed => value_matches allowed candidate) (hc_allowed c)
           | None => false
           end) actual) constraints.

Definition hook_matches (hook : MitmHook) (req : Request) : bool :=
  let method := to_ascii_uppercase (req_method req) in
  if negb (existsb (str_eqb method) (m_methods (h_matcher hook))) then false
  else if negb (path_matches (m_path_prefixes (h_matcher hook)) (req_path req)) then false
  else if negb (query_matches (m_query (h_matcher hook)) req) then false
  else headers_match (m_headers (h_matcher hook)) req.

Fixpoint first_match (hooks : list MitmHook) (req : Request) : HookEvaluation :=
  match hooks with
  | [] => HookedHostNoMatch
  | hook :: rest => if hook_matches hook req then Matched (h_actions hook) else first_match rest req
  end.

Definition evaluate_mitm_hooks (hooks_by_host : MitmHooksByHost) (host : str) (req : Request) :
    HookEvaluation :=
  match btree_get (normalize_host host) hooks_by_host with
  | None => NoHooksForHost
  | Some hooks => first_match hooks req
  end.
End Hooks.
