(* ===== verification/NetState.v ===== *)
(** * State of the network proxy and managed constraints

    [network-proxy/src/state.rs]: the constraints of a managed configuration,
    the check of a policy against them, and the construction of the state that
    the proxy runs on; with the data of [runtime.rs].  [HashSet]s are finite sets.
    The creation of the interception state (certificates) is a parameter. *)

From stdpp Require Import gmap.
From S2P Require Import Prelude RustStr Paths NetAddr NetDomain NetConfig NetHooks.

(** ** Constraints *)

Record NetworkProxyConstraints := {
  c_enabled : option bool; c_mode : option NetworkMode; c_allow_upstream_proxy : option bool;
  c_dangerously_allow_non_loopback_proxy : option bool;
  c_dangerously_allow_all_unix_sockets : option bool;
  c_allowed_domains : option (list str); c_allowlist_expansion_enabled : option bool;
  c_denied_domains : option (list str); c_denylist_expansion_enabled : option bool;
  c_allow_unix_sockets : option (list str); c_allow_local_binding : option bool }.

#[export] Instance constraints_eq_dec : EqDecision NetworkProxyConstraints.
Proof. solve_decision. Defined.

(** No constraint at all, [NetworkProxyConstraints::default]. *)
Definition default_constraints : NetworkProxyConstraints := {|
  c_enabled := None; c_mode := None; c_allow_upstream_proxy := None;
  c_dangerously_allow_non_loopback_proxy := None; c_dangerously_allow_all_unix_sockets := None;
  c_allowed_domains := None; c_allowlist_expansion_enabled := None; c_denied_domains := None;
  c_denylist_expansion_enabled := None; c_allow_unix_sockets := None; c_allow_local_binding := None |}.

(** The texts of an error, with the values that are formatted into them. *)
Inductive ErrorText : Type :=
| Text (s : str)
| DebugList (l : list str)
| DebugSet (s : gset str)
| DebugMode (m : NetworkMode)
| ModeOrStricter (m : NetworkMode)
| HookText (e : HookError).

Inductive NetworkProxyConstraintError : Type :=
| InvalidValue (field_name : str) (candidate allowed : ErrorText).

Definition network_mode_rank (m : NetworkMode) : N := match m with Limited => 0 | Full => 1 end.

Definition validate_non_global_wildcard_domain_patterns (field_name : str) (patterns : list str) :
    result unit NetworkProxyConstraintError :=
  match find is_global_wildcard_domain_pattern patterns with
  | Some pattern =>
      Err (InvalidValue field_name (Text (trim pattern))
             (Text (s!"exact hosts or scoped wildcards like *.example.com or **.example.com")))
  | None => Ok tt
  end.

(** A switch that the managed configuration may have turned off. *)
Definition validate_switch (field_name : str) (candidate allowed : bool) :
    result unit NetworkProxyConstraintError :=
  if candidate && negb allowed
  then Err (InvalidValue field_name (Text (s!"true")) (Text (s!"false (disabled by managed config)")))
  else Ok tt.

Definition validate_mode (candidate : NetworkMode) (c : NetworkProxyConstraints) :
    result unit NetworkProxyConstraintError :=
  match c_mode c with
  | Some max_mode =>
      if (network_mode_rank max_mode <? network_mode_rank candidate)%N
      then Err (InvalidValue (s!"network.mode") (DebugMode candidate) (ModeOrStricter max_mode))
      else Ok tt
  | None => Ok tt
  end.

(** [iter().map(to_ascii_lowercase).collect::<HashSet<_>>()] *)
Definition lower_set (l : list str) : gset str := list_to_set (to_ascii_lowercase <$> l).

Section State.
Context `{HttpTypes} `{Globs} `{UrlHost} `{Host}.

Definition validate_allowed_domains (config_allowed_domains : list str) (denied_domain_overrides : gset str)
    (c : NetworkProxyConstraints) : result unit NetworkProxyConstraintError :=
  let field := s!"network.allowed_domains" in
  match c_allowed_domains c with
  | None => Ok tt
  | Some allowed =>
      let? _ := validate_non_global_wildcard_domain_patterns field allowed in
      match c_allowlist_expansion_enabled c with
      | Some true =>
          let missing := lower_set allowed ∖ lower_set config_allowed_domains ∖ denied_domain_overrides in
          if decide (missing = ∅) then Ok tt
          else Err (InvalidValue field (Text (s!"missing managed allowed_domains entries")) (DebugSet missing))
      | Some false =>
          if decide (lower_set config_allowed_domains = lower_set allowed ∖ denied_domain_overrides) then Ok tt
          else Err (InvalidValue field (DebugList config_allowed_domains)
                      (Text (s!"must match managed allowed_domains")))
      | None =>
          let managed_patterns := parse_for_constraints <$> allowed in
          let invalid := filter (fun entry =>
            existsb (fun managed => allows managed (parse_for_constraints entry)) managed_patterns = false)
            config_allowed_domains in
          if is_empty invalid then Ok tt
          else Err (InvalidValue field (DebugList invalid) (Text (s!"subset of managed allowed_domains")))
      end
  end.

Definition validate_denied_domains (config_denied_domains : list str) (c : NetworkProxyConstraints) :
    result unit NetworkProxyConstraintError :=
  let field := s!"network.denied_domains" in
  match c_denied_domains c with
  | None => Ok tt
  | Some denied =>
      let? _ := validate_non_global_wildcard_domain_patterns field denied in
      match c_denylist_expansion_enabled c with
      | Some false =>
          if decide (lower_set config_denied_domains = lower_set denied) then Ok tt
          else Err (InvalidValue field (DebugList config_denied_domains)
                      (Text (s!"must match managed denied_domains")))
      | _ =>
          let missing := lower_set denied ∖ lower_set config_denied_domains in
          if decide (missing = ∅) then Ok tt
          else Err (InvalidValue field (Text (s!"missing managed denied_domains entries")) (DebugSet missing))
      end
  end.

Definition validate_allow_unix_sockets (config_allow_unix_sockets : list str) (c : NetworkProxyConstraints) :
    result unit NetworkProxyConstraintError :=
  match c_allow_unix_sockets c with
  | None => Ok tt
  | Some allowed =>
      let invalid := filter (fun entry => to_ascii_lowercase entry ∉ lower_set allowed)
                       config_allow_unix_sockets in
      if is_empty invalid then Ok tt
      else Err (InvalidValue (s!"network.allow_unix_sockets") (DebugList invalid)
                  (Text (s!"subset of managed allow_unix_sockets")))
  end.

Definition validate_policy_against_constraints (config : NetworkProxyConfig)
    (c : NetworkProxyConstraints) : result unit NetworkProxyConstraintError :=
  let config_allowed_domains := default [] (allowed_domains config) in
  let config_denied_domains := default [] (denied_domains config) in
  let denied_domain_overrides := lower_set config_denied_domains in
  let? _ := match validate_mitm_hook_config config with
            | Ok _ => Ok tt
            | Err e => Err (InvalidValue (s!"network.mitm_hooks") (HookText e)
                              (Text (s!"valid MITM hook configuration")))
            end in
  let? _ := validate_non_global_wildcard_domain_patterns (s!"network.denied_domains") config_denied_domains in
  let? _ := validate_switch (s!"network.enabled") (enabled config) (default true (c_enabled c)) in
  let? _ := validate_mode (mode config) c in
  let? _ := validate_switch (s!"network.allow_upstream_proxy") (allow_upstream_proxy config)
              (default true (c_allow_upstream_proxy c)) in
  let? _ := validate_switch (s!"network.dangerously_allow_non_loopback_proxy")
              (dangerously_allow_non_loopback_proxy config)
              (default true (c_dangerously_allow_non_loopback_proxy c)) in
  let? _ := validate_switch (s!"network.dangerously_allow_all_unix_sockets")
              (dangerously_allow_all_unix_sockets config)
              (default (bool_decide (c_allow_unix_sockets c = None)) (c_dangerously_allow_all_unix_sockets c)) in
  let? _ := validate_switch (s!"network.allow_local_binding") (allow_local_binding config)
              (default true (c_allow_local_binding c)) in
  let? _ := validate_allowed_domains config_allowed_domains denied_domain_overrides c in
  let? _ := validate_denied_domains config_denied_domains c in
  validate_allow_unix_sockets (allow_unix_sockets config) c.

(** ** The state of the proxy *)

Record BlockedRequest := {
  b_host : str; b_reason : str; b_client : option str; b_method : option str; b_mode : option NetworkMode;
  b_protocol : str; b_execution_id : option str; b_decision : option str; b_source : option str;
  b_port : option N; b_timestamp : Z }.

Record BlockedRequestArgs := {
  a_host : str; a_reason : str; a_client : option str; a_method : option str; a_mode : option NetworkMode;
  a_protocol : str; a_decision : option str; a_source : option str; a_port : option N }.

(** [BlockedRequest::new], the clock being an argument. *)
Definition blocked_request_new (now : Z) (a : BlockedRequestArgs) : BlockedRequest := {|
  b_host := a_host a; b_reason := a_reason a; b_client := a_client a; b_method := a_method a;
  b_mode := a_mode a; b_protocol := a_protocol a; b_execution_id := None; b_decision := a_decision a;
  b_source := a_source a; b_port := a_port a; b_timestamp := now |}.

Inductive StateError : Type :=
| SocketPaths (e : ConfigError)
| BrokerNeedsMitm
| Constraint (e : NetworkProxyConstraintError)
| DenyGlobs (e : GlobError)
| AllowGlobs (e : GlobError)
| Hooks (e : HookError)
| MitmInit
| BrokerChanged
| InvalidHost
| ReloadFailed
| ModeConstrained (e : StateError)
| ListConstrained (field : str) (e : StateError)
| ListNotCompiled (list_name : str) (e : StateError).

(** [MitmState::new]: whether an upstream proxy may be used. *)
Context {MitmState : Type} (mitm_state_new : bool -> option MitmState).
Context (resolve_env_var : str -> option str) (read_secret_file : Path -> result str HookError).

Record ConfigState := mk_state {
  config : NetworkProxyConfig; allow_set : GlobSet; deny_set : GlobSet; mitm_state : option MitmState;
  hooks : MitmHooksByHost; constraints : NetworkProxyConstraints;
  blocked : list BlockedRequest; blocked_total : N }.

Definition map_err {T E F} (r : result T E) (f : E -> F) : result T F :=
  match r with Ok t => Ok t | Err e => Err (f e) end.

Definition build_config_state (cfg : NetworkProxyConfig) (c : NetworkProxyConstraints) :
    result ConfigState StateError :=
  let? _ := map_err (validate_unix_socket_allowlist_paths cfg) SocketPaths in
  let? _ := if credential_broker cfg && negb (mitm cfg) then Err BrokerNeedsMitm else Ok tt in
  let allowed := default [] (allowed_domains cfg) in
  let denied := default [] (denied_domains cfg) in
  let? _ := map_err (validate_non_global_wildcard_domain_patterns (s!"network.denied_domains") denied)
              Constraint in
  let? deny := map_err (compile_denylist_globset denied) DenyGlobs in
  let? allow := map_err (compile_allowlist_globset allowed) AllowGlobs in
  let? compiled := map_err (compile_mitm_hooks_with_resolvers resolve_env_var read_secret_file cfg) Hooks in
  let? m := if mitm cfg
            then match mitm_state_new (allow_upstream_proxy cfg) with
                 | Some m => Ok (Some m)
                 | None => Err MitmInit
                 end
            else Ok None in
  Ok {| config := cfg; allow_set := allow; deny_set := deny; mitm_state := m; hooks := compiled;
        constraints := c; blocked := []; blocked_total := 0 |}.
End State.

Arguments config {_ _ _} _. Arguments allow_set {_ _ _} _. Arguments deny_set {_ _ _} _.
Arguments mitm_state {_ _ _} _. Arguments hooks {_ _ _} _. Arguments constraints {_ _ _} _.
Arguments blocked {_ _ _} _. Arguments blocked_total {_ _ _} _.
