(* ===== verification/NetInstances.v ===== *)
(** * Instances for the network proxy

    Concrete parameters that satisfy the laws of the network files, and sample
    configurations that use them. *)

From stdpp Require Import gmap.
From S2P Require Import Prelude RustStr Paths NetAddr NetDomain NetDomainFacts NetConfig NetHooks NetState.

(** A host parser that knows plain domain names only. *)
#[export] Instance dns_url_host : UrlHost := {|
  url_host_parse d := if dns_name d then Some (to_ascii_lowercase d) else None |}.

#[export] Instance dns_url_host_laws : UrlHostLaws dns_url_host.
Proof. split. simpl. intros d ->. done. Qed.

(** Header names in lower case, values as they are; forms without escapes. *)
#[export] Instance plain_http : HttpTypes := {|
  HeaderName := str; HeaderValue := str;
  header_name_from_bytes n := if is_empty n then None else Some (to_ascii_lowercase n);
  header_value_from_str v := if contains_char nl v then None else Some v;
  header_value_to_str := Some;
  form_parse q := (fun p => match split_once (ch "=") p with Some kv => kv | None => (p, []) end)
                    <$> split_on (ch "&") q |}.

(** A machine with an empty file system. *)
#[export] Instance bare_host : Paths.Host := {|
  current_dir := Some [RootDir]; home_dir := None; tmpdir_var := None;
  is_dir _ := false; is_file _ := false; exists_path _ := false; read_to_string _ := None;
  symlink_metadata _ := None; fs_canonicalize _ := None |}.

(** No secrets, and no interception state but a token. *)
Definition no_env (_ : str) : option str := None.
Definition no_file (p : Path) : result str HookError := Err (SecretFileUnreadable p).
Definition token_mitm (_ : bool) : option unit := Some tt.

(** Allows the domains below example.com and one local address, denies one host. *)
Definition sample_config : NetworkProxyConfig :=
  set_denied_domains
    (set_allowed_domains default_config [s!"*.Example.com"; s!"10.0.0.7"; s!"localhost"]) [s!"bad.example.com"].

Definition sample_constraints : NetworkProxyConstraints := {|
  c_enabled := None; c_mode := Some Full; c_allow_upstream_proxy := None;
  c_dangerously_allow_non_loopback_proxy := None; c_dangerously_allow_all_unix_sockets := None;
  c_allowed_domains := None; c_allowlist_expansion_enabled := None;
  c_denied_domains := Some [s!"BAD.example.com"]; c_denylist_expansion_enabled := None;
  c_allow_unix_sockets := None; c_allow_local_binding := Some false |}.

(** The state of a configuration that compiles. *)
Definition state_of (cfg : NetworkProxyConfig) (c : NetworkProxyConstraints) : @ConfigState plain_http plain_globs unit :=
  match build_config_state token_mitm no_env no_file cfg c with
  | Ok st => st
  | Err _ => mk_state cfg [] [] None [] c [] 0
  end.

Definition sample_state : @ConfigState plain_http plain_globs unit := state_of sample_config sample_constraints.

(** One host per name, all at the same public or private address. *)
Definition lookup_at (ip : IpAddr) : str -> N -> option (list SocketAddr) := fun _ port => Some [mk_addr ip port].

Example sample_state_sets :
  (allow_set sample_state, deny_set sample_state) =
  ([s!"?*.example.com"; s!"10.0.0.7"; s!"localhost"], [s!"bad.example.com"]).
Proof. by vm_compute. Qed.
