(* ===== verification/NetHooksFacts.v ===== *)
(** * Theorems on the hooks of intercepted requests

    A configuration compiles exactly when it is valid and its secrets can be
    read, and a request gets the first matching hook of its host in the order of
    the configuration. *)

From stdpp Require Import gmap.
From S2P Require Import Prelude RustStr Paths NetAddr NetDomain NetConfig NetHooks NetState NetInstances.

(** ** Ordered maps *)

Lemma str_compare_eq a b : str_compare a b = Eq <-> a = b.
Proof.
  revert b. induction a as [|x a IH]; intros [|y b]; simpl; try done.
  destruct (N.compare_spec x y) as [->|Hlt|Hgt]; [rewrite IH; naive_solver| |];
    (split; [done|]; intros [= -> ->]; lia).
Qed.

Lemma btree_get_insert {A} k (v : A) m k' :
  btree_get k' (btree_insert k v m) = if decide (k' = k) then Some v else btree_get k' m.
Proof.
  induction m as [|[x y] m IH]; simpl; [done|].
  destruct (str_compare k x) eqn:E; simpl.
  - apply str_compare_eq in E as ->. by case_decide.
  - by repeat case_decide.
  - rewrite IH. repeat case_decide; subst; try done.
    by rewrite (proj2 (str_compare_eq x x)) in E.
Qed.

(** ** Collecting and validating *)

Lemma collect_Ok {A B E} (f : A -> result B E) l ys :
  collect f l = Ok ys <-> Forall2 (fun x y => f x = Ok y) l ys.
Proof.
  revert ys. induction l as [|x l IH]; intros ys; simpl.
  { split; [intros [= <-]; constructor|]. by inversion 1. }
  rewrite result_bind_Ok. setoid_rewrite result_bind_Ok. setoid_rewrite IH. split.
  - intros (y & Hy & ys' & Hys & [= <-]). by constructor.
  - inversion 1; subst. eauto 10.
Qed.

Lemma collect_ok_iff {A B E} (f : A -> result B E) l :
  is_ok (collect f l) = true <-> Forall (fun x => is_ok (f x) = true) l.
Proof.
  induction l as [|x l IH]; simpl; [by split; [constructor|]|].
  rewrite Forall_cons, <- IH. destruct (f x); simpl; [|naive_solver].
  destruct (collect f l); simpl; naive_solver.
Qed.

Lemma is_ok_bind {T U E} (r : result T E) (k : T -> result U E) :
  is_ok (result_bind r k) = true <-> exists t, r = Ok t /\ is_ok (k t) = true.
Proof. destruct r; simpl; naive_solver. Qed.

Lemma is_ok_context {T E} (r : result T E) f : is_ok (with_context r f) = is_ok r.
Proof. by destruct r. Qed.

Lemma with_context_Ok {T E} (r : result T E) f t : with_context r f = Ok t <-> r = Ok t.
Proof. destruct r; simpl; naive_solver. Qed.

Lemma is_ok_ex {T E} (r : result T E) : is_ok r = true <-> exists t, r = Ok t.
Proof. destruct r; simpl; naive_solver. Qed.

Section Hooks.
Context `{HttpTypes} `{Globs} `{Host}.
Context (env : str -> option str) (file : Path -> result str HookError).

Lemma validate_all_ok {A} (check : A -> result unit HookError) l :
  is_ok (validate_all check l) = true <-> Forall (fun x => is_ok (check x) = true) l.
Proof.
  induction l as [|x l IH]; simpl; [by split; [constructor|]|].
  rewrite Forall_cons, <- IH. destruct (check x); simpl; naive_solver.
Qed.

Lemma validate_hooks_ok i hooks :
  is_ok (validate_hooks i hooks) = true <->
  forall j hook, hooks !! j = Some hook -> is_ok (validate_hook (i + j) hook) = true.
Proof.
  revert i. induction hooks as [|hook hooks IH]; intros i; simpl; [done|].
  rewrite is_ok_bind. setoid_rewrite IH. split.
  - intros ([] & Hh & Hr) [|j] hook' Hl; simpl in Hl.
    + simplify_eq. rewrite Nat.add_0_r, Hh. done.
    + replace (i + S j) with (S i + j) by lia. by apply Hr.
  - intros Hall. pose proof (Hall 0 hook eq_refl) as Hz. rewrite Nat.add_0_r in Hz.
    apply is_ok_ex in Hz as [[] Hz]. exists tt. split; [done|].
    intros j hook' Hl. replace (S i + j) with (i + S j) by lia. by apply Hall.
Qed.

Lemma query_compiles c : is_ok (validate_query_constraint c) = true -> is_ok (compile_query c) = true.
Proof.
  destruct c as [name values]. unfold validate_query_constraint, compile_query.
  intros (n & Hn & Hv)%is_ok_bind. apply is_ok_bind. exists n. split; [done|].
  destruct (is_empty n); [done|]. destruct (is_empty values); [done|].
  apply is_ok_bind in Hv as (t & Ht%with_context_Ok & _). by rewrite Ht.
Qed.

Lemma header_compiles c : is_ok (validate_header_constraint c) = true -> is_ok (compile_header c) = true.
Proof.
  destruct c as [name values]. unfold validate_header_constraint, compile_header.
  intros (n & Hn & Hv)%is_ok_bind. apply is_ok_bind. exists n. split; [done|].
  apply is_ok_bind in Hv as (t & Ht%with_context_Ok & _). by rewrite Ht.
Qed.

Lemma collect_validated {A B} (check : A -> result unit HookError) (f : A -> result B HookError) l :
  (forall x, is_ok (check x) = true -> is_ok (f x) = true) ->
  is_ok (validate_all check l) = true -> exists ys, collect f l = Ok ys.
Proof.
  intros Hf Hv. apply is_ok_ex, collect_ok_iff. apply validate_all_ok in Hv.
  eapply Forall_impl; [exact Hv|]. exact Hf.
Qed.

(** Secrets can be read and make valid header values. *)
Definition secrets_ok (hook : MitmHookConfig) : Prop :=
  Forall (fun h => is_ok (compile_injected_header env file h) = true) (inject_headers_cfg (hook_actions hook)).

Ltac ok_step H t Ht := apply is_ok_bind in H as (t & Ht%with_context_Ok & H).

Lemma hook_compiles i hook :
  is_ok (validate_hook i hook) = true -> secrets_ok hook -> is_ok (compile_hook env file hook) = true.
Proof.
  intros Hv Hs. unfold validate_hook in Hv.
  ok_step Hv host Hhost. ok_step Hv methods Hm. destruct (is_empty methods); [done|].
  ok_step Hv paths Hp. destruct (is_empty paths); [done|]. destruct (mc_body _); [done|].
  ok_step Hv u1 Hq. ok_step Hv u2 Hh. ok_step Hv u3 Hst. ok_step Hv u4 Hin.
  destruct (collect_validated _ _ _ query_compiles (proj2 (is_ok_ex _) (ex_intro _ _ Hq))) as [qs Hqs].
  destruct (collect_validated _ _ _ header_compiles (proj2 (is_ok_ex _) (ex_intro _ _ Hh))) as [hs Hhs].
  destruct (collect_validated _ parse_header_name (strip_headers_cfg (hook_actions hook))
    (fun x Hx => proj2 (is_ok_ex _) (match proj1 (is_ok_bind _ _) Hx with ex_intro _ t (conj Ht _) => ex_intro _ t Ht end))
    (proj2 (is_ok_ex _) (ex_intro _ _ Hst))) as [ss Hss].
  assert (exists inj, collect (fun h => with_context (compile_injected_header env file h) (InInjectedHeader (ih_name h)))
    (inject_headers_cfg (hook_actions hook)) = Ok inj) as [inj His].
  { apply is_ok_ex, collect_ok_iff. eapply Forall_impl; [exact Hs|]. intros h Hok. by rewrite is_ok_context. }
  unfold compile_hook. by rewrite Hhost, Hm, Hp; simpl; rewrite Hqs, Hhs; simpl; rewrite Hss; simpl; rewrite His.
Qed.

Lemma compile_hook_secrets hook : is_ok (compile_hook env file hook) = true -> secrets_ok hook.
Proof.
  intros Hc. unfold compile_hook in Hc.
  do 6 (apply is_ok_bind in Hc as (? & _ & Hc)). apply is_ok_bind in Hc as (inj & His & _).
  assert (is_ok (Ok inj : result _ HookError) = true) as Hok by done. rewrite <- His in Hok.
  apply collect_ok_iff in Hok. eapply Forall_impl; [exact Hok|]. intros h Hh. cbv beta in Hh. by rewrite is_ok_context in Hh.
Qed.

Lemma compile_hooks_ok hooks acc :
  is_ok (compile_hooks env file hooks acc) = true <->
  Forall (fun hook => is_ok (compile_hook env file hook) = true) hooks.
Proof.
  revert acc. induction hooks as [|hook hooks IH]; intros acc; simpl; [by split; [constructor|]|].
  rewrite Forall_cons, is_ok_bind. setoid_rewrite IH. rewrite (is_ok_ex (compile_hook _ _ _)). naive_solver.
Qed.

(** The hooks of a configuration compile exactly when they are valid and every
    secret they inject can be read: validation misses no other error. *)
Theorem hooks_compile_iff config :
  is_ok (compile_mitm_hooks_with_resolvers env file config) = true <->
  is_ok (validate_mitm_hook_config config) = true /\ Forall secrets_ok (mitm_hooks config).
Proof.
  unfold compile_mitm_hooks_with_resolvers. rewrite is_ok_bind. setoid_rewrite compile_hooks_ok.
  rewrite (is_ok_ex (validate_mitm_hook_config _)). split.
  - intros (t & Ht & Hc). split; [by eauto|]. eapply Forall_impl; [exact Hc|]. apply compile_hook_secrets.
  - intros ([t Ht] & Hs). exists t. split; [done|]. unfold validate_mitm_hook_config in Ht.
    destruct (is_empty (mitm_hooks config)) eqn:E; [by apply is_empty_true in E as ->|].
    destruct (negb _); [done|]. assert (is_ok (validate_hooks 0 (mitm_hooks config)) = true) as Hv by (by rewrite Ht).
    rewrite validate_hooks_ok in Hv. apply Forall_forall. intros hook Hin.
    destruct (list_elem_of_lookup_1 _ _ Hin) as [j Hj]. apply (hook_compiles j); [by apply (Hv j)|].
    rewrite Forall_forall in Hs. by apply Hs.
Qed.

(** ** Choice of a hook *)

Definition hooks_for (host : str) (hooks : list MitmHook) : list MitmHook :=
  filter (fun h => h_host h = host) hooks.

Lemma compile_hooks_spec hooks acc m :
  compile_hooks env file hooks acc = Ok m ->
  exists hs, Forall2 (fun c h => compile_hook env file c = Ok h) hooks hs /\
    forall k, btree_get k m =
      match default [] (btree_get k acc) ++ hooks_for k hs with
      | [] => btree_get k acc
      | l => Some l
      end.
Proof.
  revert acc. induction hooks as [|c hooks IH]; intros acc Hc; simpl in Hc.
  { injection Hc as <-. exists []. split; [constructor|]. intros k. rewrite app_nil_r.
    destruct (btree_get k acc) as [[|]|]; done. }
  inv_bind. destruct (IH _ Hc) as (hs & Hf & Hget). exists (x :: hs). split; [by constructor|]. intros k.
  rewrite Hget. unfold push_hook. rewrite btree_get_insert. unfold hooks_for. rewrite filter_cons.
  case_decide as Hk.
  - subst k. rewrite decide_True by done. simpl. rewrite <- app_assoc. simpl.
    by destruct (default [] (btree_get (h_host x) acc)).
  - by rewrite decide_False by congruence.
Qed.

(** A request on a host gets the actions of the first hook, in the order of the
    configuration, that is for this host and matches; hosts without hooks are
    told apart from hosts whose hooks do not match. *)
Theorem first_hook_wins config m host req :
  compile_mitm_hooks_with_resolvers env file config = Ok m ->
  exists hs, Forall2 (fun c h => compile_hook env file c = Ok h) (mitm_hooks config) hs /\
    evaluate_mitm_hooks m host req =
    match hooks_for (normalize_host host) hs with
    | [] => NoHooksForHost
    | l => match find (fun h => hook_matches h req) l with
           | Some h => Matched (h_actions h)
           | None => HookedHostNoMatch
           end
    end.
Proof.
  unfold compile_mitm_hooks_with_resolvers. intros Hc. inv_bind.
  destruct (compile_hooks_spec _ _ _ Hc) as (hs & Hf & Hget). exists hs. split; [done|].
  unfold evaluate_mitm_hooks. rewrite Hget. simpl.
  assert (forall l, first_match l req = match find (fun h => hook_matches h req) l with
    | Some h => Matched (h_actions h) | None => HookedHostNoMatch end) as Hfm.
  { induction l as [|h l IHl]; simpl; [done|]. by destruct (hook_matches h req). }
  destruct (hooks_for _ hs) as [|h l] eqn:E; [done|]. apply Hfm.
Qed.
End Hooks.

(** ** Instances *)

Definition sample_hook (host path : str) (secret : option str) : MitmHookConfig := {|
  hook_host := host;
  hook_matcher := {| mc_methods := [s!"get"; s!"POST"]; mc_path_prefixes := [path]; mc_query := [];
                     mc_headers := []; mc_body := None |};
  hook_actions := {| strip_headers_cfg := [s!"Authorization"];
                     inject_headers_cfg := match secret with
                       | Some v => [{| ih_name := s!"Authorization"; secret_env_var := Some v;
                                       secret_file := None; ih_prefix := Some (s!"Bearer ") |}]
                       | None => [] end |} |}.

Definition hook_config (hs : list MitmHookConfig) : NetworkProxyConfig := {|
  enabled := true; proxy_url := default_proxy_url; enable_socks5 := true; socks_url := default_socks_url;
  enable_socks5_udp := true; allow_upstream_proxy := true; dangerously_allow_non_loopback_proxy := false;
  dangerously_allow_all_unix_sockets := false; mode := Full; domains := None; unix_sockets := None;
  allow_local_binding := false; mitm := true; credential_broker := false;
  dangerously_allow_plaintext_credential_injection := false; mitm_hooks := hs |}.

Definition sample_get : Request :=
  {| req_method := s!"GET"; req_path := s!"/x"; req_query := None; req_headers := [] |}.

Definition two_hooks : NetworkProxyConfig :=
  hook_config [sample_hook (s!"a.org") (s!"/private") None; sample_hook (s!"A.org.") (s!"/") None].

Lemma first_hook_wins_witness :
  exists m hs, compile_mitm_hooks_with_resolvers no_env no_file two_hooks = Ok m /\
    evaluate_mitm_hooks m (s!"a.org:443") sample_get = (
      match hooks_for (s!"a.org") hs with
      | [] => NoHooksForHost
      | l => match find (fun h => hook_matches h sample_get) l with
             | Some h => Matched (h_actions h) | None => HookedHostNoMatch end
      end).
Proof.
  destruct (compile_mitm_hooks_with_resolvers no_env no_file two_hooks) as [m|] eqn:Em; [|by vm_compute in Em].
  destruct (first_hook_wins no_env no_file two_hooks m (s!"a.org:443") sample_get Em) as (hs & _ & E).
  exists m, hs. split; [done|]. exact E.
Defined.
