(* ===== verification/NetStateFacts.v ===== *)
(** * Theorems on managed constraints

    What a policy that passed the check against a managed configuration can
    reach. *)

From stdpp Require Import gmap.
From S2P Require Import Prelude RustStr Paths NetAddr NetDomain NetDomainFacts NetConfig.
From S2P Require Import NetHooks NetState NetInstances.

(** ** Entries that differ in case only *)

Section Managed.
Context `{UL : UrlHostLaws}.

Lemma prefix_lower prefix : prefix ∈ [[]; s!"*."; s!"**."] -> to_ascii_lowercase prefix = prefix.
Proof. intros Hp. rewrite !elem_of_cons, elem_of_nil in Hp. by destruct_or! Hp; subst. Qed.

Lemma name_text_head_star d r : name_text d -> d <> ch "*" :: r.
Proof.
  intros Hd ->. unfold name_text in Hd. apply Forall_cons in Hd as [Hc _].
  by apply name_char_spec in Hc as (_ & _ & ? & _).
Qed.

Lemma prefix_unique p q d e :
  p ∈ [[]; s!"*."; s!"**."] -> q ∈ [[]; s!"*."; s!"**."] -> name_text d -> name_text e ->
  p ++ d = q ++ e -> p = q /\ d = e.
Proof.
  intros Hp Hq Hd He E. rewrite !elem_of_cons, elem_of_nil in Hp, Hq.
  destruct_or! Hp; destruct_or! Hq; subst; simpl in E; try done; try (by injection E as ->);
    (exfalso; first [discriminate E | by apply (name_text_head_star d _ Hd E)
                   | by symmetry in E; apply (name_text_head_star e _ He E)]).
Qed.

Lemma same_lower_same_pattern e m :
  dns_entry e -> dns_entry m -> to_ascii_lowercase e = to_ascii_lowercase m ->
  parse_for_constraints e = parse_for_constraints m.
Proof.
  intros (p & d & -> & Hp & Hd) (q & d' & -> & Hq & Hd') E. rewrite !constraints_entry by done.
  rewrite !to_lower_app, (prefix_lower p), (prefix_lower q) in E by done.
  apply dns_name_chars in Hd as (Hd & _), Hd' as (Hd' & _).
  destruct (prefix_unique p q _ _ Hp Hq (name_text_lower _ Hd) (name_text_lower _ Hd') E) as [-> ->]. done.
Qed.

Lemma elem_of_lower_set s l : s ∈ lower_set l <-> exists x, x ∈ l /\ to_ascii_lowercase x = s.
Proof. unfold lower_set. rewrite elem_of_list_to_set, list_elem_of_fmap. naive_solver. Qed.

Lemma empty_difference_subset (X Y : gset str) : X ∖ Y = ∅ -> X ⊆ Y.
Proof. intros E x Hx. destruct (decide (x ∈ Y)); [done|]. exfalso. set_solver. Qed.

Lemma denotes_lower l k h :
  Forall dns_entry l -> Forall dns_entry k -> lower_set l ⊆ lower_set k ->
  (exists e, e ∈ l /\ denotes (parse_for_constraints e) h) ->
  exists e, e ∈ k /\ denotes (parse_for_constraints e) h.
Proof.
  intros Hl Hk Hsub (e & He & Hd). rewrite Forall_forall in Hl, Hk.
  assert (to_ascii_lowercase e ∈ lower_set k) as (m & Hm & E)%elem_of_lower_set.
  { apply Hsub, elem_of_lower_set. eauto. }
  exists m. split; [done|]. by rewrite (same_lower_same_pattern m e) by auto.
Qed.

(** ** What the check promises *)

Context `{HT : HttpTypes} `{GL : GlobLaws} `{HO : Paths.Host}.

Lemma validate_parts cfg c :
  validate_policy_against_constraints cfg c = Ok tt <->
  is_ok (validate_mitm_hook_config cfg) = true
  /\ validate_non_global_wildcard_domain_patterns (s!"network.denied_domains") (default [] (denied_domains cfg)) = Ok tt
  /\ validate_switch (s!"network.enabled") (enabled cfg) (default true (c_enabled c)) = Ok tt
  /\ validate_mode (mode cfg) c = Ok tt
  /\ validate_switch (s!"network.allow_upstream_proxy") (allow_upstream_proxy cfg)
       (default true (c_allow_upstream_proxy c)) = Ok tt
  /\ validate_switch (s!"network.dangerously_allow_non_loopback_proxy")
       (dangerously_allow_non_loopback_proxy cfg) (default true (c_dangerously_allow_non_loopback_proxy c)) = Ok tt
  /\ validate_switch (s!"network.dangerously_allow_all_unix_sockets") (dangerously_allow_all_unix_sockets cfg)
       (default (bool_decide (c_allow_unix_sockets c = None)) (c_dangerously_allow_all_unix_sockets c)) = Ok tt
  /\ validate_switch (s!"network.allow_local_binding") (allow_local_binding cfg)
       (default true (c_allow_local_binding c)) = Ok tt
  /\ validate_allowed_domains (default [] (allowed_domains cfg)) (lower_set (default [] (denied_domains cfg))) c = Ok tt
  /\ validate_denied_domains (default [] (denied_domains cfg)) c = Ok tt
  /\ validate_allow_unix_sockets (allow_unix_sockets cfg) c = Ok tt.
Proof.
  unfold validate_policy_against_constraints.
  assert (forall {T E} (r : result unit E) (k : unit -> result T E) t,
    result_bind r k = Ok t <-> r = Ok tt /\ k tt = Ok t) as Hb.
  { intros T E [[]|e] k t; simpl; naive_solver. }
  rewrite !Hb. destruct (validate_mitm_hook_config cfg) as [[]|]; simpl; naive_solver.
Qed.

Lemma allowed_within_managed cfg c managed h :
  validate_policy_against_constraints cfg c = Ok tt ->
  c_allowed_domains c = Some managed -> c_allowlist_expansion_enabled c <> Some true ->
  Forall dns_entry managed -> Forall dns_entry (default [] (allowed_domains cfg)) ->
  (exists e, e ∈ default [] (allowed_domains cfg) /\ denotes (parse_for_constraints e) h) ->
  exists m, m ∈ managed /\ denotes (parse_for_constraints m) h.
Proof.
  intros Hv Hc Hx Hm Ha. apply validate_parts in Hv as (_ & _ & _ & _ & _ & _ & _ & _ & Hv & _).
  unfold validate_allowed_domains in Hv. rewrite Hc in Hv. inv_bind.
  destruct (c_allowlist_expansion_enabled c) as [[]|]; [done| |].
  - case_decide as E; [|done]. apply denotes_lower; [done|done|]. rewrite E. set_solver.
  - destruct (is_empty _) eqn:E; [|done]. apply is_empty_true in E. intros (e & He & Hd).
    destruct (existsb (fun m => allows m (parse_for_constraints e)) (parse_for_constraints <$> managed)) eqn:Ex.
    + apply existsb_true in Ex as (p & (m & -> & Hin)%list_elem_of_fmap & Hal).
      exists m. split; [done|]. by apply (allows_sound _ (parse_for_constraints e)).
    + assert (e ∈ @nil str) as Hin by (rewrite <- E; by apply list_elem_of_filter). by apply elem_of_nil in Hin.
Qed.

Lemma managed_denied_kept cfg c managed h :
  validate_policy_against_constraints cfg c = Ok tt ->
  c_denied_domains c = Some managed ->
  Forall dns_entry managed -> Forall dns_entry (default [] (denied_domains cfg)) ->
  (exists m, m ∈ managed /\ denotes (parse_for_constraints m) h) ->
  exists e, e ∈ default [] (denied_domains cfg) /\ denotes (parse_for_constraints e) h.
Proof.
  intros Hv Hc Hm Ha. apply validate_parts in Hv as (_ & _ & _ & _ & _ & _ & _ & _ & _ & Hv & _).
  unfold validate_denied_domains in Hv. rewrite Hc in Hv. inv_bind.
  apply denotes_lower; [done|done|].
  destruct (c_denylist_expansion_enabled c) as [[]|]; (case_decide as E; [|discriminate Hv]).
  - by apply empty_difference_subset.
  - rewrite E. set_solver.
  - by apply empty_difference_subset.
Qed.

Context {MitmState : Type} (mitm_new : bool -> option MitmState) (env : str -> option str)
  (file : Path -> result str HookError).

Lemma build_sets cfg c st :
  build_config_state mitm_new env file cfg c = Ok st ->
  config st = cfg /\ constraints st = c /\ blocked st = [] /\
  compile_denylist_globset (default [] (denied_domains cfg)) = Ok (deny_set st) /\
  compile_allowlist_globset (default [] (allowed_domains cfg)) = Ok (allow_set st).
Proof.
  assert (forall T E F (r : result T E) (f : E -> F) t, map_err r f = Ok t <-> r = Ok t) as Hm.
  { intros T E F [u|e] f t; simpl; naive_solver. }
  unfold build_config_state. intros Hb. inv_bind. rewrite !Hm in *. naive_solver.
Qed.

Lemma managed_sets_enforced cfg c allow deny allowed denied allow_bound deny_bound h :
  validate_policy_against_constraints cfg c = Ok tt ->
  compile_allowlist_globset (default [] (allowed_domains cfg)) = Ok allow ->
  compile_denylist_globset (default [] (denied_domains cfg)) = Ok deny ->
  c_allowed_domains c = Some allowed -> c_allowlist_expansion_enabled c <> Some true ->
  c_denied_domains c = Some denied ->
  Forall dns_entry (allowed ++ denied ++ default [] (allowed_domains cfg) ++ default [] (denied_domains cfg)) ->
  compile_allowlist_globset allowed = Ok allow_bound -> compile_denylist_globset denied = Ok deny_bound ->
  normal_host h ->
  (globset_match allow h = true -> globset_match allow_bound h = true) /\
  (globset_match deny_bound h = true -> globset_match deny h = true).
Proof.
  intros Hv Ha Hd Hca Hx Hcd Hall Hab Hdb Hh. rewrite !Forall_app in Hall. destruct Hall as (H1 & H2 & H3 & H4).
  unfold compile_allowlist_globset, compile_denylist_globset in *.
  rewrite (compiled_list_spec _ _ allow h H3 Hh Ha), (compiled_list_spec _ _ allow_bound h H1 Hh Hab),
    (compiled_list_spec _ _ deny_bound h H2 Hh Hdb), (compiled_list_spec _ _ deny h H4 Hh Hd).
  split; [by apply (allowed_within_managed cfg c)|by apply (managed_denied_kept cfg c)].
Qed.
End Managed.

(** ** A pattern with a port escapes the managed list

    The check compares the entry as it is written, but the list is compiled from
    its normal form, which drops everything from a colon on. *)

Definition managed_example : NetworkProxyConstraints := {|
  c_enabled := None; c_mode := None; c_allow_upstream_proxy := None;
  c_dangerously_allow_non_loopback_proxy := None; c_dangerously_allow_all_unix_sockets := None;
  c_allowed_domains := Some [s!"*.example.com"]; c_allowlist_expansion_enabled := None;
  c_denied_domains := None; c_denylist_expansion_enabled := None;
  c_allow_unix_sockets := None; c_allow_local_binding := None |}.

Definition escaping_config : NetworkProxyConfig := set_allowed_domains default_config [s!"*:.example.com"].

Lemma port_pattern_escapes_managed_list h :
  validate_policy_against_constraints escaping_config managed_example = Ok tt /\
  globset_match (allow_set (state_of escaping_config managed_example)) h = true.
Proof.
  split; [by vm_compute|].
  change (allow_set (state_of escaping_config managed_example)) with [s!"*"]. simpl.
  by rewrite wild_match_all.
Qed.
