(* ===== verification/NetRuntime.v ===== *)
(** * The running network proxy

    [network-proxy/src/runtime.rs] with the decisions of [network_policy.rs] and
    [connect_policy.rs].  Operations that only look at the state are functions of
    a snapshot; those that change it are in [NetTasks].  The DNS resolver and the
    decider are arguments; a failed or timed out lookup is [None]. *)

From stdpp Require Import gmap.
From S2P Require Import Prelude.
From S2P Require Import RustStr.
From S2P Require Import Paths.
From S2P Require Import NetAddr.
From S2P Require Import NetAddrText.
From S2P Require Import NetDomain.
From S2P Require Import NetDomainFacts.
From S2P Require Import NetConfig.
From S2P Require Import NetHooks.
From S2P Require Import NetState.
From S2P Require Import NetInstances.

(** ** Decisions about hosts *)

Inductive HostBlockReason : Type := Denied | NotAllowed | NotAllowedLocal.
Inductive HostBlockDecision : Type := Allowed | Blocked (reason : HostBlockReason).

#[export] Instance block_reason_eq_dec : EqDecision HostBlockReason.
Proof. solve_decision. Defined.
#[export] Instance block_decision_eq_dec : EqDecision HostBlockDecision.
Proof. solve_decision. Defined.

Definition reason_as_str (r : HostBlockReason) : str :=
  match r with
  | Denied => s!"denied"
  | NotAllowed => s!"not_allowed"
  | NotAllowedLocal => s!"not_allowed_local"
  end.

(** Addresses of a host, or nothing when the lookup failed or timed out. *)
Definition Lookup : Type := str -> N -> option (list SocketAddr).

Definition host_resolves_to_non_public_ip (lookup : Lookup) (host : str) (port : N) : bool :=
  match parse_ip host with
  | Some ip => is_non_public_ip ip
  | None =>
      match lookup host port with
      | None => true
      | Some addrs => existsb (fun addr => is_non_public_ip (addr_ip addr)) addrs
      end
  end.

Definition is_explicit_local_allowlisted (allowed : list str) (host : str) : bool :=
  let unscoped_host := unscoped_ip_literal host in
  existsb (fun pattern =>
    let pattern := trim pattern in
    if str_eqb pattern (s!"*") || starts_with (s!"*.") pattern || starts_with (s!"**.") pattern then false
    else if contains_char (ch "*") pattern || contains_char (ch "?") pattern then false
    else
      let normalized_pattern := normalize_host pattern in
      str_eqb normalized_pattern host
      || match unscoped_host with Some ip => str_eqb normalized_pattern ip | None => false end) allowed.

(** Whether the host is a literal for a local or private address. *)
Definition local_literal (host : str) : bool :=
  let host_no_scope := default host (unscoped_ip_literal host) in
  if is_loopback_host host then true
  else match parse_ip host_no_scope with
       | Some ip => is_non_public_ip ip
       | None => false
       end.

Section Snapshot.
Context `{HttpTypes} `{Globs} `{Host} {MitmState : Type}.
Abbreviation ConfigState := (@ConfigState _ _ MitmState).

Definition globset_matches_host_or_unscoped (set : GlobSet) (host : str) : bool :=
  globset_match set host
  || match unscoped_ip_literal host with Some ip => globset_match set ip | None => false end.

(** [host_blocked], after the reload. *)
Definition host_blocked (st : ConfigState) (lookup : Lookup) (host : str) (port : N) : HostBlockDecision :=
  match host_parse host with
  | None => Blocked NotAllowed
  | Some host =>
      let allowed := allowed_domains (config st) in
      if globset_matches_host_or_unscoped (deny_set st) host then Blocked Denied
      else
        let is_allowlisted := globset_matches_host_or_unscoped (allow_set st) host in
        if negb (allow_local_binding (config st))
           && (if local_literal host then negb (is_explicit_local_allowlisted (default [] allowed) host)
               else host_resolves_to_non_public_ip lookup host port)
        then Blocked NotAllowedLocal
        else match allowed with
             | None => Blocked NotAllowed
             | Some _ => if is_allowlisted then Allowed else Blocked NotAllowed
             end
  end.

(** [is_unix_socket_allowed]; sockets are supported on macOS only. *)
Definition socket_entry_allows (requested_abs : Path) (allowed : str) : bool :=
  match socket_path_parse allowed with
  | Ok (Native allowed_path) =>
      if decide (allowed_path = requested_abs) then true
      else match fs_canonicalize requested_abs, fs_canonicalize allowed_path with
           | Some requested_canonical, Some allowed_canonical => bool_decide (allowed_canonical = requested_canonical)
           | _, _ => false
           end
  | _ => false
  end.

Definition is_unix_socket_allowed (supported : bool) (st : ConfigState) (path : str) : bool :=
  if negb supported then false
  else if negb (is_absolute (components path)) then false
  else if dangerously_allow_all_unix_sockets (config st) then true
  else match from_absolute_path (components path) with
       | None => false
       | Some requested_abs => existsb (socket_entry_allows requested_abs) (allow_unix_sockets (config st))
       end.

Definition method_allowed (st : ConfigState) (method : str) : bool := allows_method (mode (config st)) method.

Inductive HostMitmRequirement : Type := MitmNone | MitmTls | MitmAlways.

(** The credential broker's own test is an argument. *)
Definition host_mitm_requirement (st : ConfigState) (broker_requires : str -> bool) (host : str) :
    HostMitmRequirement :=
  let normalized_host := normalize_host host in
  match btree_get normalized_host (hooks st) with
  | Some _ => MitmAlways
  | None => if broker_requires normalized_host then MitmTls else MitmNone
  end.

(** ** Policy decisions ([network_policy.rs]) *)

Inductive NetworkProtocol : Type := Http | HttpsConnect | Socks5Tcp | Socks5Udp.
Inductive NetworkPolicyDecision : Type := PolicyDeny | PolicyAsk.
Inductive NetworkDecisionSource : Type := BaselinePolicy | ModeGuard | ProxyState | Decider.

Record NetworkPolicyRequest := {
  q_protocol : NetworkProtocol; q_host : str; q_port : N; q_environment_id : option str;
  q_client_addr : option str; q_method : option str; q_command : option str;
  q_exec_policy_hint : option str; q_execution_id : option str }.

Inductive NetworkDecision : Type :=
| DecisionAllow
| DecisionDeny (reason : str) (source : NetworkDecisionSource) (decision : NetworkPolicyDecision).

Definition REASON_POLICY_DENIED : str := s!"policy_denied".

Definition reason_or_default (reason : str) : str := if is_empty reason then REASON_POLICY_DENIED else reason.
Definition deny_with_source (reason : str) (source : NetworkDecisionSource) : NetworkDecision :=
  DecisionDeny (reason_or_default reason) source PolicyDeny.
Definition ask_with_source (reason : str) (source : NetworkDecisionSource) : NetworkDecision :=
  DecisionDeny (reason_or_default reason) source PolicyAsk.

Definition map_decider_decision (d : NetworkDecision) : NetworkDecision :=
  match d with
  | DecisionAllow => DecisionAllow
  | DecisionDeny reason _ decision => DecisionDeny reason Decider decision
  end.

(** The request as the decider sees it. *)
Definition decider_request (environment_id execution_id : option str) (r : NetworkPolicyRequest) :
    NetworkPolicyRequest := {|
  q_protocol := q_protocol r; q_host := q_host r; q_port := q_port r;
  q_environment_id := match q_environment_id r with None => environment_id | Some e => Some e end;
  q_client_addr := q_client_addr r; q_method := q_method r; q_command := q_command r;
  q_exec_policy_hint := q_exec_policy_hint r; q_execution_id := execution_id |}.

(** What the audit event says of a decision: outcome, source, reason, override. *)
Record AuditEvent := {
  e_decision : str; e_source : NetworkDecisionSource; e_reason : str; e_policy_override : bool;
  e_execution_id : option str }.

Definition decision_as_str (d : NetworkPolicyDecision) : str :=
  match d with PolicyDeny => s!"deny" | PolicyAsk => s!"ask" end.

Definition audit_event (execution_id : option str) (decision : NetworkDecision) (override : bool) : AuditEvent :=
  match decision with
  | DecisionAllow => {|
      e_decision := s!"allow"; e_source := if override then Decider else BaselinePolicy;
      e_reason := if override then reason_as_str NotAllowed else s!"allow";
      e_policy_override := override; e_execution_id := execution_id |}
  | DecisionDeny reason source d => {|
      e_decision := decision_as_str d; e_source := source; e_reason := reason;
      e_policy_override := override; e_execution_id := execution_id |}
  end.

Definition evaluate_host_policy (st : ConfigState) (lookup : Lookup)
    (environment_id execution_id : option str)
    (decider : option (NetworkPolicyRequest -> NetworkDecision)) (r : NetworkPolicyRequest) :
    NetworkDecision * AuditEvent :=
  let '(decision, policy_override) :=
    match host_blocked st lookup (q_host r) (q_port r) with
    | Allowed => (DecisionAllow, false)
    | Blocked NotAllowed =>
        match decider with
        | Some decide_request =>
            let d := map_decider_decision (decide_request (decider_request environment_id execution_id r)) in
            (d, match d with DecisionAllow => true | _ => false end)
        | None => (deny_with_source (reason_as_str NotAllowed) BaselinePolicy, false)
        end
    | Blocked reason => (deny_with_source (reason_as_str reason) BaselinePolicy, false)
    end in
  (decision, audit_event execution_id decision policy_override).

(** ** Connecting ([connect_policy.rs]) *)

(** A target of the HTTP library: a name or an address. *)
Inductive TargetHost : Type := HostName (name : str) | HostAddress (ip : IpAddr).

Definition target_to_string (t : TargetHost) : str :=
  match t with HostName name => name | HostAddress ip => display_ip ip end.

Definition is_localhost_name (name : str) : bool :=
  eq_ignore_ascii_case (trim_end_char (ch ".") name) (s!"localhost").

Definition is_non_public_target (t : TargetHost) : bool :=
  match t with
  | HostAddress ip => is_non_public_ip ip
  | HostName name => is_localhost_name name
  end.

Definition target_matches_non_public_addr (t : TargetHost) (addr : IpAddr) : bool :=
  match t with
  | HostAddress ip => bool_decide (ip = addr)
  | HostName name => is_localhost_name name && is_loopback addr
  end.

Definition allows_non_public_target (st : ConfigState) (lookup : Lookup) (t : TargetHost) (port : N)
    (addr : SocketAddr) : bool :=
  if allow_local_binding (config st) then true
  else if negb (target_matches_non_public_addr t (addr_ip addr)) then false
  else bool_decide (host_blocked st lookup (target_to_string t) port = Allowed).

(** [TargetCheckedStreamConnector::connect] up to the system call: whether a direct
    connection is made. *)
Definition connect_permitted (st : ConfigState) (lookup : Lookup) (t : TargetHost) (port : N)
    (addr : SocketAddr) : bool :=
  negb (is_non_public_ip (addr_ip addr) && negb (allows_non_public_target st lookup t port addr)).

(** ** Upstream proxies

    [upstream.rs]: the proxies of the environment, which a request goes through
    where the configuration allows it. *)

Context {ProxyAddress : Type}.

Record ProxyConfig := mkProxyConfig {
  proxy_http : option ProxyAddress;
  proxy_https : option ProxyAddress;
  proxy_all : option ProxyAddress;
}.

Definition no_proxies : ProxyConfig := mkProxyConfig None None None.

Definition or_else {A} (a b : option A) : option A := match a with Some x => Some x | None => b end.

Definition proxy_for_protocol (c : ProxyConfig) (is_secure : bool) : option ProxyAddress :=
  if is_secure then or_else (or_else (proxy_https c) (proxy_http c)) (proxy_all c)
  else or_else (proxy_http c) (proxy_all c).

Definition proxy_for_target (c : ProxyConfig) (t : TargetHost) (is_secure : bool) : option ProxyAddress :=
  if is_non_public_target t then None else proxy_for_protocol c is_secure.

(** The extension that a request carries when it is connected: the clients are
    made with the proxies of the environment [env] or with none.  [context] is the
    target of the request and whether its protocol is secure, if they can be read
    from it. *)
Definition upstream_proxy (st : ConfigState) (env : ProxyConfig) (context : option (TargetHost * bool))
    : option ProxyAddress :=
  let proxy_config := if allow_upstream_proxy (config st) then env else no_proxies in
  match context with
  | None => proxy_for_protocol proxy_config false
  | Some (t, is_secure) => proxy_for_target proxy_config t is_secure
  end.

(** [TargetCheckedTcpConnector::serve]: a connection to a proxy is not checked;
    [addr] is then an address of the proxy. *)
Definition serve_permitted (st : ConfigState) (lookup : Lookup) (proxy : option ProxyAddress)
    (t : TargetHost) (port : N) (addr : SocketAddr) : bool :=
  match proxy with
  | Some _ => true
  | None => connect_permitted st lookup t port addr
  end.
End Snapshot.

(** * Theorems on the decisions of the network proxy

    When a host is allowed, and that no connection reaches a local or private
    address behind the back of the configuration. *)

(** ** Normal forms of printed addresses *)

(** Characters of a printed address. *)
Definition addr_char (c : char) : bool :=
  in_range 48 57 c || in_range 97 102 c || (c =? 46)%N || (c =? 58)%N.

Lemma addr_char_spec c : addr_char c = true ->
  is_whitespace c = false /\ ascii_lower c = c /\ c <> ch "[" /\ c <> ch "%".
Proof.
  intros H. assert (c < 128)%N as Hc.
  { unfold addr_char, in_range in H. destruct (N.lt_ge_cases c 128); [done|].
    exfalso. rewrite !(proj2 (N.leb_gt c _)), !andb_false_r, !(proj2 (N.eqb_neq c _)) in H by lia. done. }
  pose proof (ascii_all_spec (fun c => implb (addr_char c)
    (negb (is_whitespace c) && (ascii_lower c =? c)%N && negb (c =? ch "[")%N && negb (c =? ch "%")%N)) c
    ltac:(by vm_compute) Hc) as Hall. cbv beta in Hall. rewrite H in Hall. cbn [implb] in Hall.
  rewrite !andb_true_iff, !negb_true_iff, N.eqb_eq, !N.eqb_neq in Hall. naive_solver.
Qed.

Definition addr_text (s : str) : Prop := Forall (fun c => addr_char c = true) s.

Lemma digits_addr_text n : addr_text (digits_of_N n).
Proof.
  apply Forall_forall. intros c Hc. destruct (digits_of_N_spec n) as [Hd _].
  rewrite forallb_forall in Hd. apply list_elem_of_In, Hd in Hc. unfold is_ascii_digit in Hc.
  unfold addr_char. by rewrite Hc.
Qed.

Lemma hex16_addr_text g : (g < 65536)%N -> addr_text (hex16 g).
Proof.
  intros Hg. apply Forall_forall. intros c Hc. unfold hex16 in Hc. apply list_elem_of_fmap in Hc as (d & -> & Hd).
  assert (d < 16)%N as Hlt.
  { repeat case_match; rewrite !elem_of_cons, elem_of_nil in Hd; rewrite ?N.ltb_lt, ?N.ltb_ge in *;
      destruct_or? Hd; subst; try done; try (by apply N.mod_lt); apply N.Div0.div_lt_upper_bound; lia. }
  pose proof (ascii_all_spec (fun d => implb (d <? 16)%N (addr_char (hex_char d))) d
    ltac:(by vm_compute) ltac:(lia)) as H. cbv beta in H. by rewrite (proj2 (N.ltb_lt d 16) Hlt) in H.
Qed.

Lemma join_addr_text sep l : addr_text sep -> Forall addr_text l -> addr_text (join sep l).
Proof.
  intros Hs. induction 1 as [|x l Hx Hl IH]; [constructor|]. destruct l as [|y l]; [done|].
  rewrite join_cons by done. unfold addr_text in *. rewrite !Forall_app. auto.
Qed.

Lemma fmt_subslice_addr_text gs : Forall (fun g => g < 65536)%N gs -> addr_text (fmt_subslice gs).
Proof.
  intros H. apply join_addr_text; [repeat constructor|]. apply Forall_fmap. eapply Forall_impl; [exact H|].
  intros g Hg. by apply hex16_addr_text.
Qed.

Lemma display_ipv4_addr_text ip : addr_text (display_ipv4 ip).
Proof. apply join_addr_text; repeat constructor; apply digits_addr_text. Qed.

Lemma display_addr_text ip : wf_ip ip -> addr_text (display_ip ip).
Proof.
  destruct ip as [ip|ip]; simpl; intros Hw; [apply display_ipv4_addr_text|]. unfold display_ipv6.
  destruct (to_ipv4_mapped ip) as [v4|].
  { apply Forall_app. split; [by repeat constructor|apply display_ipv4_addr_text]. }
  destruct ip as [segs], Hw as [_ Hf]. cbn [segments] in *. destruct (longest_zeros _ _ _ _) as [start len].
  destruct (1 <? len); [|by apply fmt_subslice_addr_text].
  unfold addr_text. rewrite !Forall_app. repeat split;
    try (apply fmt_subslice_addr_text; by (apply Forall_take || apply Forall_drop)). by repeat constructor.
Qed.

Lemma count_char_join c f (l : list N) :
  (forall x, x ∈ l -> c ∉ f x) -> count_char c (join [c] (f <$> l)) = length l - 1.
Proof.
  intros Hf. destruct l as [|x l]; [done|]. rewrite fmap_cons, join_concat, count_char_app.
  rewrite count_char_free by (apply Hf; by left). simpl. rewrite Nat.sub_0_r.
  assert (forall x, x ∈ l -> c ∉ f x) as Hl by (intros; apply Hf; by right). clear Hf.
  induction l as [|y l IH]; [done|]. rewrite fmap_cons. cbn [concat]. rewrite count_char_app, IH.
  - change (count_char c (c :: f y)) with (length (filter (fun z => z = c) (c :: f y))).
    rewrite filter_cons_True by done. cbn [length].
    fold (count_char c (f y)). rewrite count_char_free by (apply Hl; by left). done.
  - intros z Hz. apply Hl. by right.
Qed.

Lemma digits_no_colon n : ch ":" ∉ digits_of_N n.
Proof. by apply digits_free. Qed.

Lemma display_ipv4_eq ip :
  display_ipv4 ip = (digits_of_N (oct1 ip) ++ ch "." :: digits_of_N (oct2 ip) ++ ch "." :: digits_of_N (oct3 ip)
                     ++ [ch "."]) ++ digits_of_N (oct4 ip).
Proof. unfold display_ipv4. simpl. by repeat (rewrite <- app_assoc; simpl). Qed.

Lemma display_ipv4_no_colon ip : ch ":" ∉ display_ipv4 ip.
Proof.
  rewrite display_ipv4_eq. pose proof digits_no_colon as Hd.
  intros H. repeat first [apply elem_of_app in H as [H|H] | apply elem_of_cons in H as [H|H]];
    first [by apply Hd in H | done | by apply elem_of_nil in H].
Qed.

Lemma display_colons ip : wf_ip ip -> count_char (ch ":") (display_ip ip) <> 1.
Proof.
  destruct ip as [ip|ip]; simpl; intros Hw; [by rewrite count_char_free by apply display_ipv4_no_colon|].
  unfold display_ipv6. destruct (to_ipv4_mapped ip) as [v4|].
  { rewrite count_char_app. change (count_char (ch ":") (s!"::ffff:")) with 3. lia. }
  destruct ip as [segs], Hw as [Hl Hf]. cbn [segments] in *. destruct (longest_zeros _ _ _ _) as [start len].
  destruct (1 <? len).
  - rewrite !count_char_app. change (count_char (ch ":") (s!"::")) with 2. lia.
  - unfold fmt_subslice. change (s!":") with [ch ":"]. rewrite count_char_join, Hl; [done|].
    intros g Hg Hc. rewrite Forall_forall in Hf. apply hex16_chars in Hc; [naive_solver|by apply Hf].
Qed.

Lemma addr_text_trim s : addr_text s -> trim s = s.
Proof.
  intros H. apply trim_id.
  - intros c Hc. destruct H as [|x d Hx]; [done|]. injection Hc as ->. by apply addr_char_spec.
  - intros c Hc. apply last_Some_snoc in Hc as [k ->]. unfold addr_text in H. apply Forall_app in H as [_ H].
    inversion H; subst. by apply addr_char_spec.
Qed.

Lemma addr_text_lower s : addr_text s -> to_ascii_lowercase s = s.
Proof.
  induction 1 as [|c s Hc _ IH]; [done|]. rewrite to_lower_cons, IH. f_equal. by apply addr_char_spec.
Qed.

Lemma last_digits_app s n : last (s ++ digits_of_N n) <> Some (ch ".").
Proof.
  destruct (digits_of_N_spec n) as (_ & Hne & _). destruct (digits_of_N n) as [|x l] eqn:E; [done|].
  rewrite last_app_cons, <- E. intros H. apply (digits_free (ch ".") n); [done|].
  apply last_Some_snoc in H as [k ->]. set_solver.
Qed.

Lemma display_ipv4_last ip : last (display_ipv4 ip) <> Some (ch ".").
Proof. rewrite display_ipv4_eq. apply last_digits_app. Qed.

Lemma display_last ip : wf_ip ip -> last (display_ip ip) <> Some (ch ".").
Proof.
  destruct ip as [ip|ip]; simpl; intros Hw; [apply display_ipv4_last|].
  unfold display_ipv6. destruct (to_ipv4_mapped ip) as [v4|].
  { rewrite display_ipv4_eq, app_assoc. apply last_digits_app. }
  destruct ip as [segs], Hw as [_ Hf]. cbn [segments] in *. destruct (longest_zeros _ _ _ _) as [start len].
  assert (forall gs, Forall (fun g => g < 65536)%N gs -> ch "." ∉ fmt_subslice gs) as Hno
    by (intros gs Hg; by apply (fmt_groups_no_dot true)).
  intros H. assert (ch "." ∈ (if 1 <? len
    then fmt_subslice (take start segs) ++ s!"::" ++ fmt_subslice (drop (start + len) segs)
    else fmt_subslice segs)) as Hin by (apply last_Some_snoc in H as [k ->]; set_solver).
  destruct (1 <? len); [|by apply Hno in Hin].
  apply elem_of_app in Hin as [Hin|Hin]; [by apply Hno in Hin; [|apply Forall_take]|].
  apply elem_of_app in Hin as [Hin|Hin]; [|by apply Hno in Hin; [|apply Forall_drop]].
  revert Hin. by apply (bool_decide_unpack _); vm_compute.
Qed.

(** A printed address is its own normal form. *)
Lemma normalize_display ip : wf_ip ip -> normalize_host (display_ip ip) = display_ip ip.
Proof.
  intros Hw. pose proof (display_addr_text ip Hw) as Ht. unfold normalize_host. rewrite addr_text_trim by done.
  assert (starts_with (s!"[") (display_ip ip) = false) as ->.
  { apply starts_with_false. intros r Hr. rewrite Hr in Ht. apply Forall_cons in Ht as [Hc _].
    by apply addr_char_spec in Hc as (_ & _ & ? & _). }
  rewrite (proj2 (Nat.eqb_neq _ 1)) by (by apply display_colons).
  unfold normalize_dns_host_or_ip_literal. rewrite addr_text_lower, trim_end_char_id by (done || by apply display_last).
  unfold normalize_ip_literal, is_ip. by rewrite parse_display_ip.
Qed.

Lemma display_nonempty ip : wf_ip ip -> display_ip ip <> [].
Proof. intros Hw E. pose proof (parse_display_ip ip Hw) as H. by rewrite E in H. Qed.

Lemma host_parse_display ip : wf_ip ip -> host_parse (display_ip ip) = Some (display_ip ip).
Proof.
  intros Hw. unfold host_parse. rewrite normalize_display by done.
  by rewrite (proj2 (is_empty_false _)) by (by apply display_nonempty).
Qed.

Lemma display_unscoped ip : wf_ip ip -> unscoped_ip_literal (display_ip ip) = None.
Proof.
  intros Hw. unfold unscoped_ip_literal. rewrite split_once_free; [done|]. intros Hin.
  pose proof (display_addr_text ip Hw) as Ht. unfold addr_text in Ht. rewrite Forall_forall in Ht.
  by apply Ht, addr_char_spec in Hin as (_ & _ & _ & ?).
Qed.

Lemma local_literal_display ip : wf_ip ip -> is_non_public_ip ip = true -> local_literal (display_ip ip) = true.
Proof.
  intros Hw Hn. unfold local_literal. rewrite display_unscoped by done. simpl.
  destruct (is_loopback_host _); [done|]. by rewrite parse_display_ip.
Qed.

Lemma trim_start_dot_lower s :
  trim_start_char (ch ".") (to_ascii_lowercase s) = to_ascii_lowercase (trim_start_char (ch ".") s).
Proof.
  induction s as [|c s IH]; [done|]. rewrite to_lower_cons. cbn [trim_start_char].
  destruct (decide (c = ch ".")) as [->|Hc]; [rewrite decide_True by done; apply IH|].
  rewrite decide_False; [by rewrite to_lower_cons|]. by intros ?%ascii_lower_dot.
Qed.

Lemma trim_end_dot_lower s :
  trim_end_char (ch ".") (to_ascii_lowercase s) = to_ascii_lowercase (trim_end_char (ch ".") s).
Proof.
  assert (forall l, reverse (to_ascii_lowercase l) = to_ascii_lowercase (reverse l)) as Hr
    by (intros l; symmetry; apply fmap_reverse).
  unfold trim_end_char. by rewrite Hr, trim_start_dot_lower, Hr.
Qed.

Lemma trim_end_char_decomp c s : exists n, s = trim_end_char c s ++ replicate n c.
Proof.
  assert (forall t, exists n, t = replicate n c ++ trim_start_char c t) as H.
  { intros t. induction t as [|x l [n Hn]]; [by exists 0|]. simpl. case_decide as E; [|by exists 0].
    exists (S n). simpl. by rewrite <- Hn, E. }
  destruct (H (reverse s)) as [n Hn]. exists n. unfold trim_end_char.
  rewrite <- (reverse_involutive s) at 1. rewrite Hn at 1. by rewrite reverse_app, reverse_replicate.
Qed.

Lemma name_char_lower_inv c : name_char (ascii_lower c) = true -> name_char c = true.
Proof.
  unfold ascii_lower. destruct (in_range 65 90 c) eqn:E; [|done]. intros _.
  unfold name_char, dns_char. by rewrite E, orb_true_r.
Qed.

(** Any spelling of localhost normalises to it. *)
Lemma host_parse_localhost name :
  is_localhost_name name = true -> host_parse name = Some (s!"localhost").
Proof.
  unfold is_localhost_name, eq_ignore_ascii_case. rewrite str_eqb_eq. intros H.
  change (to_ascii_lowercase (s!"localhost")) with (s!"localhost") in H.
  assert (name_text name) as Hn.
  { destruct (trim_end_char_decomp (ch ".") name) as [n Hd]. rewrite Hd. apply Forall_app. split.
    - apply Forall_forall. intros c Hc. apply name_char_lower_inv.
      assert (ascii_lower c ∈ s!"localhost") as Hin.
      { rewrite <- H, to_lower_map. apply list_elem_of_fmap. eauto. }
      revert Hin. generalize (ascii_lower c). apply Forall_forall. by repeat constructor.
    - by apply Forall_replicate. }
  unfold host_parse, normalize_host. rewrite name_text_trim by done. cbn [lit].
  rewrite starts_with_free by (by apply name_text_free).
  rewrite count_char_free by (by apply name_text_free). cbn [Nat.eqb].
  rewrite normalize_dns_free by (by apply name_text_free). by rewrite trim_end_dot_lower, H.
Qed.

(** ** Decisions *)

Section Decisions.
Context `{HT : HttpTypes} `{GS : Globs} `{HO : Paths.Host} {MitmState : Type}.
Abbreviation ConfigState := (@ConfigState _ _ MitmState).
Implicit Type st : ConfigState.

(** An entry of the allow list that names the host itself, without wildcards. *)
Definition explicitly_allowed (st : ConfigState) (h : str) : Prop :=
  exists e, e ∈ default [] (allowed_domains (config st)) /\ (ch "*" ∉ trim e) /\ (ch "?" ∉ trim e) /\
    (normalize_host (trim e) = h \/ Some (normalize_host (trim e)) = unscoped_ip_literal h).

Lemma explicit_spec st h :
  is_explicit_local_allowlisted (default [] (allowed_domains (config st))) h = true -> explicitly_allowed st h.
Proof.
  unfold is_explicit_local_allowlisted, explicitly_allowed. rewrite existsb_true. intros (e & He & H).
  exists e. split; [done|]. destruct (_ || starts_with (s!"**.") _); [done|].
  destruct (contains_char (ch "*") _ || _) eqn:E; [done|].
  apply orb_false_iff in E as [E1%contains_char_false E2%contains_char_false]. split; [done|]. split; [done|].
  apply orb_true_iff in H as [H%str_eqb_eq|H]; [by left|right].
  destruct (unscoped_ip_literal h); [|done]. by apply str_eqb_eq in H as <-.
Qed.

(** The host resolves, to public addresses only. *)
Definition resolves_publicly (lookup : Lookup) (h : str) (port : N) : Prop :=
  match parse_ip h with
  | Some ip => is_non_public_ip ip = false
  | None => exists addrs, lookup h port = Some addrs /\
      Forall (fun a => is_non_public_ip (addr_ip a) = false) addrs
  end.

Lemma resolves_spec lookup h port :
  host_resolves_to_non_public_ip lookup h port = false <-> resolves_publicly lookup h port.
Proof.
  unfold host_resolves_to_non_public_ip, resolves_publicly. destruct (parse_ip h); [done|].
  destruct (lookup h port) as [addrs|].
  - rewrite existsb_false, <- Forall_forall. naive_solver.
  - split; [done|]. by intros (? & ? & _).
Qed.

Lemma host_allowed_inv st lookup host port :
  host_blocked st lookup host port = Allowed ->
  exists h, host_parse host = Some h
    /\ globset_matches_host_or_unscoped (deny_set st) h = false
    /\ globset_matches_host_or_unscoped (allow_set st) h = true
    /\ default [] (allowed_domains (config st)) <> []
    /\ (allow_local_binding (config st) = true
        \/ (local_literal h = true /\ explicitly_allowed st h)
        \/ (local_literal h = false /\ resolves_publicly lookup h port)).
Proof.
  unfold host_blocked. destruct (host_parse host) as [h|]; [|done]. intros H. exists h. split; [done|].
  destruct (globset_matches_host_or_unscoped (deny_set st) h); [done|]. split; [done|].
  destruct (negb _ && _) eqn:Eloc; [done|]. destruct (allowed_domains (config st)) as [l|] eqn:El; [|done].
  destruct (globset_matches_host_or_unscoped (allow_set st) h); [|done]. split; [done|]. split.
  { unfold allowed_domains, domain_entries in El. destruct (domains _); [|done].
    destruct (is_empty _) eqn:Ee; [done|]. simplify_eq. simpl. by apply is_empty_false. }
  apply andb_false_iff in Eloc as [E%negb_false_iff|E]; [by left|right].
  destruct (local_literal h); [left|right]; (split; [done|]).
  - apply negb_false_iff in E. rewrite <- El in E. by apply explicit_spec.
  - by apply resolves_spec.
Qed.

(** A host is allowed only if no deny rule matches it, an allow rule does, and it
    is either public by a lookup that succeeded, or a literal for a local address
    that the allow list names without wildcards, or local binding is on. *)
Theorem allowed_host_is_safe st lookup host port :
  host_blocked st lookup host port = Allowed ->
  exists h, host_parse host = Some h
    /\ globset_matches_host_or_unscoped (deny_set st) h = false
    /\ globset_matches_host_or_unscoped (allow_set st) h = true
    /\ (allow_local_binding (config st) = true
        \/ (local_literal h = true /\ explicitly_allowed st h)
        \/ (local_literal h = false /\ resolves_publicly lookup h port)).
Proof. intros (h & ? & ? & ? & _ & ?)%host_allowed_inv. eauto 10. Qed.

(** The target names the address itself, or is localhost for a loopback address. *)
Definition names_address (t : TargetHost) (ip : IpAddr) : Prop :=
  match t with
  | HostAddress ip' => ip' = ip
  | HostName name => is_localhost_name name = true /\ is_loopback ip = true
  end.

(** The text that stands for a literal target in the lists. *)
Definition target_text (t : TargetHost) : str :=
  match t with HostAddress ip => display_ip ip | HostName _ => s!"localhost" end.

Lemma named_target_parse t ip :
  wf_ip ip -> names_address t ip -> host_parse (target_to_string t) = Some (target_text t).
Proof.
  intros Hw Hn. destruct t as [name|ip']; simpl in *.
  - destruct Hn as [Hn _]. by apply host_parse_localhost.
  - subst. by apply host_parse_display.
Qed.

Lemma named_target_local t ip :
  wf_ip ip -> is_non_public_ip ip = true -> names_address t ip -> local_literal (target_text t) = true.
Proof.
  intros Hw Hnp Hn. destruct t as [name|ip']; simpl in *; [done|]. subst. by apply local_literal_display.
Qed.

Lemma direct_connection_checked st lookup t port addr :
  wf_ip (addr_ip addr) -> non_public (addr_ip addr) ->
  connect_permitted st lookup t port addr = true ->
  allow_local_binding (config st) = true
  \/ (names_address t (addr_ip addr) /\ explicitly_allowed st (target_text t)
      /\ globset_match (deny_set st) (target_text t) = false).
Proof.
  intros Hw Hnp. apply is_non_public_ip_spec in Hnp; [|done]. unfold connect_permitted.
  rewrite Hnp, negb_true_iff, andb_true_l, negb_false_iff. unfold allows_non_public_target.
  destruct (allow_local_binding (config st)) eqn:El; [by left|]. intros H. right.
  destruct (target_matches_non_public_addr t (addr_ip addr)) eqn:Et; [|done]. cbn [negb] in H.
  assert (names_address t (addr_ip addr)) as Hn.
  { destruct t; simpl in *; [by apply andb_true_iff in Et|by apply bool_decide_eq_true_1 in Et]. }
  apply bool_decide_eq_true_1, host_allowed_inv in H as (h & Hp & Hd & _ & _ & Hloc).
  rewrite (named_target_parse t (addr_ip addr)) in Hp by done. injection Hp as <-.
  rewrite (named_target_local t (addr_ip addr)) in Hloc by done.
  split; [done|]. split; [naive_solver congruence|].
  unfold globset_matches_host_or_unscoped in Hd. by apply orb_false_iff in Hd as [? _].
Qed.

(** C5: However a name resolves when the connection is made, the proxy itself makes
    no connection to an address that is not publicly routable unless local binding
    is on, or the request named that very address (or localhost) and the allow
    list names it without wildcards while no deny rule matches it; or the
    connection is to an upstream proxy of the environment, which the configuration
    allowed when the route was chosen.  Such a connection is not checked, wherever
    the upstream proxy is, and what it connects to is up to it; but a request to
    localhost or to an address that is not public never goes there. *)
Theorem no_connection_to_private_address {ProxyAddress} st0 st lookup (env : @ProxyConfig ProxyAddress)
    t is_secure port addr :
  wf_ip (addr_ip addr) -> non_public (addr_ip addr) ->
  serve_permitted st lookup (upstream_proxy st0 env (Some (t, is_secure))) t port addr = true ->
  allow_local_binding (config st) = true
  \/ (names_address t (addr_ip addr) /\ explicitly_allowed st (target_text t)
      /\ globset_match (deny_set st) (target_text t) = false)
  \/ (exists proxy, upstream_proxy st0 env (Some (t, is_secure)) = Some proxy /\
       allow_upstream_proxy (config st0) = true /\ proxy_for_protocol env is_secure = Some proxy /\
       is_non_public_target t = false).
Proof.
  intros Hw Hnp. destruct (upstream_proxy st0 env (Some (t, is_secure))) as [proxy|] eqn:Ep; simpl.
  - intros _. right. right. exists proxy. split; [done|]. unfold upstream_proxy, proxy_for_target in Ep.
    destruct (is_non_public_target t); [done|]. destruct (allow_upstream_proxy (config st0)); [done|].
    by destruct is_secure.
  - intros [?|?]%direct_connection_checked; auto.
Qed.

(** The decider is asked only about hosts that no list mentions: it can neither
    lift a deny rule nor open a local address, and an override is audited. *)
Theorem decider_only_extends_allowlist st lookup env exec decider r ev :
  evaluate_host_policy st lookup env exec decider r = (DecisionAllow, ev) ->
  (host_blocked st lookup (q_host r) (q_port r) = Allowed /\ e_policy_override ev = false)
  \/ (host_blocked st lookup (q_host r) (q_port r) = Blocked NotAllowed /\ e_policy_override ev = true
      /\ e_source ev = Decider
      /\ exists d, decider = Some d /\ d (decider_request env exec r) = DecisionAllow).
Proof.
  unfold evaluate_host_policy. destruct (host_blocked _ _ _ _) as [|[]]; try done.
  - intros [= <-]. by left.
  - destruct decider as [d|]; [|done]. destruct (d _) eqn:E; [|done]. intros [= <-]. right. eauto 10.
Qed.

(** Deny rules come first: a host that one of them matches is blocked whatever
    else the configuration and the resolver say. *)
Lemma deny_rule_wins st lookup host port h :
  host_parse host = Some h -> globset_matches_host_or_unscoped (deny_set st) h = true ->
  host_blocked st lookup host port = Blocked Denied.
Proof. intros Hp Hd. unfold host_blocked. by rewrite Hp, Hd. Qed.
End Decisions.

(** ** Instances *)

Lemma allowed_host_is_safe_witness :
  exists h, host_parse (s!"API.example.com:443") = Some h
    /\ globset_matches_host_or_unscoped (deny_set sample_state) h = false.
Proof.
  destruct (allowed_host_is_safe sample_state (lookup_at (V4 (mk4 93 184 216 34))) (s!"API.example.com:443") 443)
    as (h & Hp & Hd & _); [by vm_compute|]. eauto.
Defined.

Definition one_proxy : @ProxyConfig N := mkProxyConfig (Some 7%N) None None.

Lemma no_connection_to_private_address_witness :
  upstream_proxy sample_state one_proxy (Some (HostAddress (V4 (mk4 10 0 0 7)), false)) = None /\
  serve_permitted sample_state (lookup_at (V4 (mk4 93 184 216 34)))
    (upstream_proxy sample_state one_proxy (Some (HostAddress (V4 (mk4 10 0 0 7)), false)))
    (HostAddress (V4 (mk4 10 0 0 7))) 80 (mk_addr (V4 (mk4 10 0 0 7)) 80) = true /\
  serve_permitted sample_state (lookup_at (V4 (mk4 93 184 216 34))) (@None N) (HostName (s!"api.example.com")) 80
    (mk_addr (V4 (mk4 10 0 0 7)) 80) = false /\
  (allow_local_binding (config sample_state) = true
   \/ (names_address (HostAddress (V4 (mk4 10 0 0 7))) (V4 (mk4 10 0 0 7))
       /\ explicitly_allowed sample_state (s!"10.0.0.7")
       /\ globset_match (deny_set sample_state) (s!"10.0.0.7") = false)).
Proof.
  split; [by vm_compute|]. split; [by vm_compute|]. split; [by vm_compute|].
  destruct (no_connection_to_private_address sample_state sample_state (lookup_at (V4 (mk4 93 184 216 34)))
    one_proxy (HostAddress (V4 (mk4 10 0 0 7))) false 80 (mk_addr (V4 (mk4 10 0 0 7)) 80))
    as [H|[H|(proxy & H & _)]].
  - by repeat split.
  - apply is_non_public_ip_spec; [by repeat split|by vm_compute].
  - by vm_compute.
  - by left.
  - by right.
  - by vm_compute in H.
Defined.

Definition sample_request (host : str) : NetworkPolicyRequest := {|
  q_protocol := HttpsConnect; q_host := host; q_port := 443; q_environment_id := None; q_client_addr := None;
  q_method := None; q_command := None; q_exec_policy_hint := None; q_execution_id := None |}.

Lemma decider_only_extends_allowlist_witness :
  exists ev, evaluate_host_policy sample_state (lookup_at (V4 (mk4 93 184 216 34))) None None
    (Some (fun _ => DecisionAllow)) (sample_request (s!"other.org")) = (DecisionAllow, ev) /\
  (host_blocked sample_state (lookup_at (V4 (mk4 93 184 216 34))) (s!"other.org") 443 = Allowed
   \/ host_blocked sample_state (lookup_at (V4 (mk4 93 184 216 34))) (s!"other.org") 443 = Blocked NotAllowed).
Proof.
  eexists. split; [by vm_compute|].
  destruct (decider_only_extends_allowlist sample_state (lookup_at (V4 (mk4 93 184 216 34))) None None
    (Some (fun _ => DecisionAllow)) (sample_request (s!"other.org")) _ eq_refl) as [[? _]|[? _]]; [by left|by right].
Defined.
