(* ===== verification/NetTasks.v ===== *)
(** * Concurrent changes of the proxy's state

    The operations of [network-proxy/src/runtime.rs] that change the state behind
    the lock of [NetworkProxyState].  Each is cut where the code releases the
    lock, so that the others may run in between; [step] is one critical section
    of one of them.  The reloader may return any state that [reloads] admits. *)

From stdpp Require Import gmap.
From stdpp Require Import relations.
From S2P Require Import Prelude.
From S2P Require Import RustStr.
From S2P Require Import Paths.
From S2P Require Import NetAddr.
From S2P Require Import NetDomain.
From S2P Require Import NetDomainFacts.
From S2P Require Import NetConfig.
From S2P Require Import NetHooks.
From S2P Require Import NetState.
From S2P Require Import NetInstances.
From S2P Require Import NetStateFacts.
From S2P Require Import NetRuntime.

Definition MAX_BLOCKED_EVENTS : nat := 200.

(** ** Lists that can be extended at run time *)

Inductive DomainListKind : Type := ListAllow | ListDeny.

Definition list_name (k : DomainListKind) : str :=
  match k with ListAllow => s!"allowlist" | ListDeny => s!"denylist" end.
Definition constraint_field (k : DomainListKind) : str :=
  match k with ListAllow => s!"network.allowed_domains" | ListDeny => s!"network.denied_domains" end.
Definition list_permission (k : DomainListKind) : NetworkDomainPermission :=
  match k with ListAllow => PermAllow | ListDeny => PermDeny end.
Definition list_entries (k : DomainListKind) (network : NetworkProxyConfig) : list str :=
  match k with
  | ListAllow => default [] (allowed_domains network)
  | ListDeny => default [] (denied_domains network)
  end.
Definition opposite_entries (k : DomainListKind) (network : NetworkProxyConfig) : list str :=
  match k with
  | ListAllow => default [] (denied_domains network)
  | ListDeny => default [] (allowed_domains network)
  end.

Section Tasks.
Context `{HT : HttpTypes} `{GS : Globs} `{UH : UrlHost} `{HO : Paths.Host} {MitmState : Type}.
Context (mitm_new : bool -> option MitmState) (env : str -> option str)
  (file : Path -> result str HookError).
Abbreviation ConfigState := (@ConfigState _ _ MitmState).

(** ** Critical sections *)

Definition with_blocked (st : ConfigState) (b : list BlockedRequest) (total : N) : ConfigState :=
  mk_state (config st) (allow_set st) (deny_set st) (mitm_state st) (hooks st) (constraints st) b total.

Definition with_config (st : ConfigState) (cfg : NetworkProxyConfig) : ConfigState :=
  mk_state cfg (allow_set st) (deny_set st) (mitm_state st) (hooks st) (constraints st) (blocked st)
    (blocked_total st).

(** [while blocked.len() > MAX_BLOCKED_EVENTS { blocked.pop_front() }] *)
Fixpoint pop_excess (fuel : nat) (b : list BlockedRequest) : list BlockedRequest :=
  match fuel with
  | 0 => b
  | S fuel => if MAX_BLOCKED_EVENTS <? length b then pop_excess fuel (drop 1 b) else b
  end.

(** The critical section of [record_blocked]. *)
Definition record_blocked (st : ConfigState) (entry : BlockedRequest) : ConfigState :=
  let b := blocked st ++ [entry] in
  with_blocked st (pop_excess (length b) b) (sat_add (blocked_total st) 1).

(** [record_blocked] stores the execution the proxy works for. *)
Definition with_execution (execution_id : option str) (e : BlockedRequest) : BlockedRequest := {|
  b_host := b_host e; b_reason := b_reason e; b_client := b_client e; b_method := b_method e;
  b_mode := b_mode e; b_protocol := b_protocol e; b_execution_id := execution_id;
  b_decision := b_decision e; b_source := b_source e; b_port := b_port e; b_timestamp := b_timestamp e |}.

(** [drain_blocked] *)
Definition drain_blocked (st : ConfigState) : ConfigState * list BlockedRequest :=
  (with_blocked st [] (blocked_total st), blocked st).

Definition broker_unchanged (broker : bool) (new_state : ConfigState) : bool :=
  bool_decide (broker = credential_broker (config new_state)).

(** [set_network_mode]: the read with the check, then the write. *)
Definition mode_candidate (st : ConfigState) (m : NetworkMode) :
    result NetworkProxyConstraints StateError :=
  match validate_policy_against_constraints (with_mode (config st) m) (constraints st) with
  | Ok _ => Ok (constraints st)
  | Err e => Err (ModeConstrained (Constraint e))
  end.

Definition mode_commit (st : ConfigState) (m : NetworkMode) (c : NetworkProxyConstraints) :
    option ConfigState :=
  if decide (constraints st = c) then Some (with_config st (with_mode (config st) m)) else None.

(** [update_domain_list]: nothing to do, or the state to install. *)
Definition list_candidate (st : ConfigState) (host : str) (k : DomainListKind) :
    result (option ConfigState) StateError :=
  let contains entries := existsb (fun entry => str_eqb (normalize_host entry) host) entries in
  if contains (list_entries k (config st)) && negb (contains (opposite_entries k (config st)))
  then Ok None
  else
    let candidate := upsert_domain_permission (config st) host (list_permission k) normalize_host in
    let? _ := match validate_policy_against_constraints candidate (constraints st) with
              | Ok _ => Ok tt
              | Err e => Err (ListConstrained (constraint_field k) (Constraint e))
              end in
    let? new_state := with_context (build_config_state mitm_new env file candidate (constraints st))
                        (ListNotCompiled (list_name k)) in
    Ok (Some (with_blocked new_state (blocked st) (blocked_total st))).

Definition list_commit (st : ConfigState) (previous_cfg : NetworkProxyConfig)
    (c : NetworkProxyConstraints) (new_state : ConfigState) : option ConfigState :=
  if decide (constraints st = c /\ config st = previous_cfg) then Some new_state else None.

(** ** Tasks *)

(** What a caller asks for. *)
Inductive task : Type :=
| SetNetworkMode (m : NetworkMode)
| UpdateDomainList (host : str) (k : DomainListKind)
| RecordBlocked (entry : BlockedRequest)
| DrainBlocked
| ReplaceConfigState (new_state : ConfigState)
| ForceReload
| Look.

(** Where it is: before [reload_if_needed], about to install a reloaded state,
    after the reload, or about to commit. *)
Inductive pc : Type :=
| AtReload (t : task)
| ReloadCommit (new_state : ConfigState) (t : task)
| AtBody (t : task)
| ModeCommit (m : NetworkMode) (c : NetworkProxyConstraints)
| ListCommit (host : str) (k : DomainListKind) (previous_cfg : NetworkProxyConfig)
    (c : NetworkProxyConstraints) (new_state : ConfigState)
| ForceCommit (new_state : ConfigState)
| Finished (r : result (list BlockedRequest) StateError).

(** [update_domain_list] checks the host before it starts. *)
Definition start (t : task) : pc :=
  match t with
  | UpdateDomainList host k =>
      match host_parse host with
      | Some h => AtReload (UpdateDomainList h k)
      | None => Finished (Err InvalidHost)
      end
  | ForceReload => AtBody ForceReload
  | _ => AtReload t
  end.

Context (broker : bool) (reloads : ConfigState -> Prop).

Inductive pc_step : ConfigState * pc -> ConfigState * pc -> Prop :=
| reload_error st t : pc_step (st, AtReload t) (st, Finished (Err ReloadFailed))
| reload_none st t : pc_step (st, AtReload t) (st, AtBody t)
| reload_rejected st t new : reloads new -> broker_unchanged broker new = false ->
    pc_step (st, AtReload t) (st, Finished (Err BrokerChanged))
| reload_read st t new : reloads new -> broker_unchanged broker new = true ->
    pc_step (st, AtReload t) (st, ReloadCommit (with_blocked new (blocked st) (blocked_total st)) t)
| reload_commit st t new : pc_step (st, ReloadCommit new t) (new, AtBody t)
| mode_read_ok st m c : mode_candidate st m = Ok c ->
    pc_step (st, AtBody (SetNetworkMode m)) (st, ModeCommit m c)
| mode_read_err st m e : mode_candidate st m = Err e ->
    pc_step (st, AtBody (SetNetworkMode m)) (st, Finished (Err e))
| mode_write st m c st' : mode_commit st m c = Some st' ->
    pc_step (st, ModeCommit m c) (st', Finished (Ok []))
| mode_retry st m c : mode_commit st m c = None ->
    pc_step (st, ModeCommit m c) (st, AtReload (SetNetworkMode m))
| list_read_done st host k : list_candidate st host k = Ok None ->
    pc_step (st, AtBody (UpdateDomainList host k)) (st, Finished (Ok []))
| list_read_ok st host k new : list_candidate st host k = Ok (Some new) ->
    pc_step (st, AtBody (UpdateDomainList host k)) (st, ListCommit host k (config st) (constraints st) new)
| list_read_err st host k e : list_candidate st host k = Err e ->
    pc_step (st, AtBody (UpdateDomainList host k)) (st, Finished (Err e))
| list_write st host k prev c new st' : list_commit st prev c new = Some st' ->
    pc_step (st, ListCommit host k prev c new) (st', Finished (Ok []))
| list_retry st host k prev c new : list_commit st prev c new = None ->
    pc_step (st, ListCommit host k prev c new) (st, AtReload (UpdateDomainList host k))
| record_write st e :
    pc_step (st, AtBody (RecordBlocked e)) (record_blocked st e, Finished (Ok []))
| drain_write st :
    pc_step (st, AtBody DrainBlocked) ((drain_blocked st).1, Finished (Ok (drain_blocked st).2))
| replace_rejected st new : broker_unchanged broker new = false ->
    pc_step (st, AtBody (ReplaceConfigState new)) (st, Finished (Err BrokerChanged))
| replace_write st new : broker_unchanged broker new = true ->
    pc_step (st, AtBody (ReplaceConfigState new))
      (with_blocked new (blocked st) (blocked_total st), Finished (Ok []))
| force_failed st : pc_step (st, AtBody ForceReload) (st, Finished (Err ReloadFailed))
| force_rejected st new : reloads new -> broker_unchanged broker new = false ->
    pc_step (st, AtBody ForceReload) (st, Finished (Err BrokerChanged))
| force_read st new : reloads new -> broker_unchanged broker new = true ->
    pc_step (st, AtBody ForceReload) (st, ForceCommit new)
| force_commit st new :
    pc_step (st, ForceCommit new) (with_blocked new (blocked st) (blocked_total new), Finished (Ok []))
| look st : pc_step (st, AtBody Look) (st, Finished (Ok [])).

(** One task takes a step while the others wait. *)
Inductive step : ConfigState * list pc -> ConfigState * list pc -> Prop :=
| step_at st st' ps i p p' : ps !! i = Some p -> pc_step (st, p) (st', p') ->
    step (st, ps) (st', <[i := p']> ps).

Definition reachable (st0 : ConfigState) (tasks : list task) (st : ConfigState) (ps : list pc) : Prop :=
  rtc step (st0, start <$> tasks) (st, ps).
End Tasks.

(** * Theorems on concurrent changes of the proxy's state

    In every interleaving the policy in force obeys the managed constraints it
    is stored with, and the buffer of blocked requests stays within its bound;
    entries of that buffer can get lost. *)

(** Task [k] takes the step that [tac] proves. *)
Ltac run_step k tac :=
  eapply rtc_l; [eapply step_at with (i := k); [reflexivity|tac]|]; simpl.

Section Invariant.
Context {UH : UrlHost} {UL : UrlHostLaws UH} {HT : HttpTypes} {GS : Globs} {GL : GlobLaws GS}
  {HO : Paths.Host} {MitmState : Type}.
Context (mitm_new : bool -> option MitmState) (env : str -> option str) (file : Path -> result str HookError).
Context (broker : bool) (reloads : @ConfigState _ _ MitmState -> Prop).
Abbreviation ConfigState := (@ConfigState _ _ MitmState).
Implicit Types st new : ConfigState.

(** ** The invariant *)

(** The policy passes the check against its constraints, and hosts are matched
    with the sets of that policy. *)
Definition policy_ok st : Prop :=
  validate_policy_against_constraints (config st) (constraints st) = Ok tt
  /\ compile_denylist_globset (default [] (denied_domains (config st))) = Ok (deny_set st)
  /\ compile_allowlist_globset (default [] (allowed_domains (config st))) = Ok (allow_set st).

Definition buffer_ok st : Prop := length (blocked st) <= MAX_BLOCKED_EVENTS.

Definition task_ok (t : @task _ _ MitmState) : Prop :=
  match t with ReplaceConfigState new => policy_ok new | _ => True end.

Definition pc_ok (p : @pc _ _ MitmState) : Prop :=
  match p with
  | AtReload t | AtBody t => task_ok t
  | ReloadCommit new t => policy_ok new /\ buffer_ok new /\ task_ok t
  | ModeCommit m c => validate_mode m c = Ok tt
  | ListCommit _ _ _ _ new => policy_ok new /\ buffer_ok new
  | ForceCommit new => policy_ok new
  | Finished _ => True
  end.

Definition system_ok (s : ConfigState * list pc) : Prop :=
  policy_ok s.1 /\ buffer_ok s.1 /\ Forall pc_ok s.2.

(** ** The mode is checked on its own *)

Lemma validate_with_mode cfg m c :
  validate_policy_against_constraints cfg c = Ok tt ->
  validate_policy_against_constraints (with_mode cfg m) c = Ok tt <-> validate_mode m c = Ok tt.
Proof.
  rewrite !validate_parts. unfold with_mode. intros H.
  change (mode (update_config cfg m _ _ _ _)) with m. split; [naive_solver|].
  intros Hm. destruct H as (? & ? & ? & _ & ? & ? & ? & ? & ? & ? & ?). repeat (split; [done|]). done.
Qed.

Lemma candidate_mode_ok cfg m c :
  validate_policy_against_constraints (with_mode cfg m) c = Ok tt -> validate_mode m c = Ok tt.
Proof. rewrite validate_parts. naive_solver. Qed.

(** ** The buffer *)

Lemma pop_excess_spec fuel b :
  length b <= fuel + MAX_BLOCKED_EVENTS ->
  pop_excess fuel b = drop (length b - MAX_BLOCKED_EVENTS) b.
Proof.
  revert b. induction fuel as [|fuel IH]; intros b Hb; simpl.
  - by replace (length b - MAX_BLOCKED_EVENTS) with 0 by lia.
  - destruct (Nat.ltb_spec MAX_BLOCKED_EVENTS (length b)) as [H|H].
    + rewrite IH by (rewrite length_drop; lia). rewrite drop_drop, length_drop. f_equal. lia.
    + by replace (length b - MAX_BLOCKED_EVENTS) with 0 by lia.
Qed.

(** Recording keeps the newest entries, in order, up to the bound, and counts
    every request. *)
Lemma record_blocked_spec st e :
  blocked (record_blocked st e) = drop (S (length (blocked st)) - MAX_BLOCKED_EVENTS) (blocked st ++ [e])
  /\ blocked_total (record_blocked st e) = sat_add (blocked_total st) 1
  /\ buffer_ok (record_blocked st e).
Proof.
  unfold record_blocked, buffer_ok. simpl. rewrite pop_excess_spec by lia.
  rewrite length_drop, length_app. simpl. rewrite Nat.add_1_r. repeat split. lia.
Qed.

(** ** Preservation *)

Lemma policy_ok_with_blocked st b n : policy_ok (with_blocked st b n) <-> policy_ok st.
Proof. done. Qed.

Lemma mode_commit_ok st m c st' :
  policy_ok st -> buffer_ok st -> validate_mode m c = Ok tt -> mode_commit st m c = Some st' ->
  policy_ok st' /\ buffer_ok st'.
Proof.
  intros (Hv & Hd & Ha) Hb Hm. unfold mode_commit. case_decide as E; [|done]. intros [= <-]. subst c.
  split; [|done]. split; [|done]. simpl. by apply validate_with_mode.
Qed.

Lemma list_candidate_ok st host k new :
  buffer_ok st -> list_candidate mitm_new env file st host k = Ok (Some new) ->
  policy_ok new /\ buffer_ok new.
Proof.
  intros Hb. unfold list_candidate. destruct (_ && _); [done|]. intros H. inv_bind. simplify_eq.
  destruct (validate_policy_against_constraints _ _) as [[]|] eqn:Ev; [|done].
  destruct (build_config_state _ _ _ _ _) as [st'|] eqn:Eb; [|done]. simpl in *. simplify_eq.
  apply build_sets in Eb as (Ec & Ek & _ & Hd & Ha). split; [|done].
  unfold policy_ok. simpl. by rewrite Ec, Ek.
Qed.

Context (Hreloads : forall new, reloads new -> policy_ok new).

Lemma pc_step_ok st p st' p' :
  pc_step mitm_new env file broker reloads (st, p) (st', p') ->
  policy_ok st -> buffer_ok st -> pc_ok p -> policy_ok st' /\ buffer_ok st' /\ pc_ok p'.
Proof.
  intros Hs Hp Hb Hpc. inversion Hs; subst; simpl in *; try (by auto).
  - split; [done|]. split; [done|]. split; [apply policy_ok_with_blocked; by apply Hreloads|]. auto.
  - split; [done|]. split; [done|]. unfold mode_candidate in *. case_match eqn:E; [|done]. simplify_eq.
    destruct t. by eapply candidate_mode_ok.
  - by edestruct mode_commit_ok as [? ?]; [| | | eassumption|].
  - split; [done|]. split; [done|]. by eapply list_candidate_ok.
  - unfold list_commit in *. case_decide; [|done]. simplify_eq. naive_solver.
  - destruct (record_blocked_spec st e) as (_ & _ & ?). done.
  - split; [done|]. split; [|done]. unfold buffer_ok. simpl. lia.
Qed.

(** Every task runs under the same invariant. *)
Lemma system_step_ok s s' : step mitm_new env file broker reloads s s' -> system_ok s -> system_ok s'.
Proof.
  intros [st st' ps i p p' Hi Hs] (Hp & Hb & Hf). simpl in *.
  assert (pc_ok p) as Hpc by (by eapply Forall_lookup_1).
  destruct (pc_step_ok st p st' p' Hs Hp Hb Hpc) as (? & ? & ?).
  split; [done|]. split; [done|]. by apply Forall_insert.
Qed.

Lemma start_ok t : task_ok t -> pc_ok (start t).
Proof. destruct t; simpl; try done. by destruct (host_parse host). Qed.

Lemma reachable_ok st0 tasks st ps :
  policy_ok st0 -> buffer_ok st0 -> Forall task_ok tasks ->
  reachable mitm_new env file broker reloads st0 tasks st ps -> system_ok (st, ps).
Proof.
  intros Hp Hb Ht Hr. unfold reachable in Hr.
  assert (system_ok (st0, start <$> tasks)) as H0.
  { split; [done|]. split; [done|]. simpl. apply Forall_fmap. eapply Forall_impl; [exact Ht|]. apply start_ok. }
  revert H0. induction Hr as [|x y z Hxy _ IH]; [done|]. intros Hx. by eapply IH, system_step_ok.
Qed.

(** C8: Whatever callers do at the same time, in whatever order their critical
    sections run and whenever configurations are reloaded, the policy in force
    passes the check against the constraints it is stored with (also when a mode
    was checked against a configuration that has changed since), and the buffer
    of blocked requests keeps its bound; the initial state and those handed in
    by callers and by the reloader do so by assumption. *)
Theorem constraints_hold_in_every_interleaving st0 tasks st ps :
  policy_ok st0 -> buffer_ok st0 -> Forall task_ok tasks ->
  reachable mitm_new env file broker reloads st0 tasks st ps ->
  validate_policy_against_constraints (config st) (constraints st) = Ok tt
  /\ length (blocked st) <= MAX_BLOCKED_EVENTS.
Proof.
  intros Hp Hb Ht Hr. by destruct (reachable_ok st0 tasks st ps Hp Hb Ht Hr) as ([Hv _] & Hbuf & _).
Qed.

(** C32: A host that the running proxy allows is one that the managed lists allow and
    do not deny, in every state that concurrent changes can reach from states that
    passed the check, when users may not extend the managed allow list.  The entries
    of all lists are plain domain patterns and the host is a name in normal form. *)
Theorem allowed_hosts_are_managed st0 tasks st ps lookup host port h allowed denied allow_bound deny_bound :
  policy_ok st0 -> buffer_ok st0 -> Forall task_ok tasks ->
  reachable mitm_new env file broker reloads st0 tasks st ps ->
  c_allowed_domains (constraints st) = Some allowed -> c_allowlist_expansion_enabled (constraints st) <> Some true ->
  c_denied_domains (constraints st) = Some denied ->
  Forall dns_entry (allowed ++ denied ++ default [] (allowed_domains (config st))
                    ++ default [] (denied_domains (config st))) ->
  compile_allowlist_globset allowed = Ok allow_bound -> compile_denylist_globset denied = Ok deny_bound ->
  host_parse host = Some h -> normal_host h -> unscoped_ip_literal h = None ->
  host_blocked st lookup host port = Allowed ->
  globset_match allow_bound h = true /\ globset_match deny_bound h = false.
Proof.
  intros Hp Hb Ht Hr Hca Hx Hcd Hall Hab Hdb Hh Hn Hu Hallow.
  destruct (reachable_ok st0 tasks st ps Hp Hb Ht Hr) as ((Hv & Hd & Ha) & _ & _).
  destruct (host_allowed_inv st lookup host port Hallow) as (h' & Hh' & Hnd & Hal & _).
  rewrite Hh in Hh'. injection Hh' as <-. unfold globset_matches_host_or_unscoped in *.
  rewrite Hu, orb_false_r in Hnd, Hal.
  destruct (managed_sets_enforced (config st) (constraints st) (allow_set st) (deny_set st)
    allowed denied allow_bound deny_bound h) as [H1 H2]; try done.
  split; [by apply H1|]. destruct (globset_match deny_bound h); [|done]. by rewrite H2 in Hnd.
Qed.

(** ** Lost entries *)

(** An entry that is recorded between the two critical sections of a reload is
    gone, although recording it succeeded. *)
Lemma recorded_entry_lost st n e :
  reloads n -> broker_unchanged broker n = true ->
  reachable mitm_new env file broker reloads st [RecordBlocked e; Look]
    (with_blocked n (blocked st) (blocked_total st)) [Finished (Ok []); Finished (Ok [])].
Proof.
  intros Hn Hbr. unfold reachable. simpl.
  run_step 1 ltac:(by eapply reload_read).
  run_step 0 ltac:(by eapply reload_none).
  run_step 0 ltac:(by eapply record_write).
  run_step 1 ltac:(by eapply reload_commit).
  run_step 1 ltac:(by eapply look). apply rtc_refl.
Qed.

(** A forced reload forgets how many requests were blocked, unlike the other ways
    to install a state. *)
Lemma force_reload_resets_total st n :
  reloads n -> broker_unchanged broker n = true ->
  reachable mitm_new env file broker reloads st [ForceReload]
    (with_blocked n (blocked st) (blocked_total n)) [Finished (Ok [])].
Proof.
  intros Hn Hbr. unfold reachable. simpl.
  run_step 0 ltac:(by eapply force_read).
  run_step 0 ltac:(by eapply force_commit). apply rtc_refl.
Qed.
End Invariant.

(** ** Instances *)

(** A managed list that the sample configuration is checked against. *)
Definition run_constraints : NetworkProxyConstraints := {|
  c_enabled := None; c_mode := Some Full; c_allow_upstream_proxy := None;
  c_dangerously_allow_non_loopback_proxy := None; c_dangerously_allow_all_unix_sockets := None;
  c_allowed_domains := Some [s!"**.example.com"]; c_allowlist_expansion_enabled := None;
  c_denied_domains := Some [s!"BAD.example.com"]; c_denylist_expansion_enabled := None;
  c_allow_unix_sockets := None; c_allow_local_binding := Some false |}.

Definition run_config : NetworkProxyConfig :=
  set_denied_domains (set_allowed_domains default_config [s!"*.Example.com"]) [s!"bad.example.com"].

Definition run_state : @ConfigState plain_http plain_globs unit := state_of run_config run_constraints.

Lemma run_state_ok : policy_ok run_state /\ buffer_ok run_state.
Proof. split; [by vm_compute|]. apply Nat.leb_le. by vm_compute. Qed.

(** Two tasks run one after the other. *)
Definition run_end : @ConfigState plain_http plain_globs unit :=
  with_config run_state (with_mode run_config Limited).

Lemma run_reachable :
  reachable token_mitm no_env no_file false (fun _ => False) run_state [SetNetworkMode Limited; Look]
    run_end [Finished (Ok []); AtReload Look].
Proof.
  unfold reachable. simpl.
  run_step 0 ltac:(by eapply reload_none).
  run_step 0 ltac:(by eapply mode_read_ok; vm_compute).
  run_step 0 ltac:(by eapply mode_write; vm_compute). apply rtc_refl.
Qed.

Lemma constraints_hold_in_every_interleaving_witness :
  validate_policy_against_constraints (config run_end) (constraints run_end) = Ok tt
  /\ length (blocked run_end) <= MAX_BLOCKED_EVENTS.
Proof.
  apply (constraints_hold_in_every_interleaving token_mitm no_env no_file false (fun _ => False)
    ltac:(by intros ? []) run_state [SetNetworkMode Limited; Look] run_end [Finished (Ok []); AtReload Look]).
  - apply run_state_ok.
  - apply run_state_ok.
  - by repeat constructor.
  - apply run_reachable.
Defined.

Lemma allowed_hosts_are_managed_witness :
  @globset_match plain_globs [s!"example.com"; s!"?*.example.com"] (s!"api.example.com") = true /\
  @globset_match plain_globs [s!"bad.example.com"] (s!"api.example.com") = false.
Proof.
  apply (allowed_hosts_are_managed token_mitm no_env no_file false (fun _ => False) ltac:(by intros ? [])
    run_state [SetNetworkMode Limited; Look] run_end [Finished (Ok []); AtReload Look]
    (lookup_at (V4 (mk4 93 184 216 34))) (s!"API.example.com") 443 (s!"api.example.com")
    [s!"**.example.com"] [s!"BAD.example.com"] [s!"example.com"; s!"?*.example.com"] [s!"bad.example.com"]).
  - apply run_state_ok.
  - apply run_state_ok.
  - by repeat constructor.
  - apply run_reachable.
  - by vm_compute.
  - done.
  - by vm_compute.
  - apply dns_entries_checked. by vm_compute.
  - by vm_compute.
  - by vm_compute.
  - by vm_compute.
  - by repeat split; vm_compute.
  - by vm_compute.
  - by vm_compute.
Defined.
