(* ===== verification/NetHandlers.v ===== *)
(** * Requests to the network proxy

    The decisions of [network-proxy/src/http_proxy.rs], [socks5.rs] and [mitm.rs]:
    which requests are let through, and how.  Handlers release the state between
    their questions, so each question has its own view of it: [views i] is the
    answer to the [i]th, or nothing when the reload before it failed.  A handler
    gives a result with the events it caused: blocked requests that it recorded
    and decisions that it audited.  Opening connections is left out. *)

From stdpp Require Import gmap.
From S2P Require Import Prelude RustStr Paths NetAddr NetAddrText NetDomain NetConfig NetHooks NetState NetRuntime.

(** ** Reasons and responses *)

Definition REASON_METHOD_NOT_ALLOWED : str := s!"method_not_allowed".
Definition REASON_MITM_HOOK_DENIED : str := s!"mitm_hook_denied".
Definition REASON_MITM_REQUIRED : str := s!"mitm_required".
Definition REASON_PROXY_DISABLED : str := s!"proxy_disabled".
Definition REASON_UNIX_SOCKET_UNSUPPORTED : str := s!"unix_socket_unsupported".

Definition as_policy_protocol (p : NetworkProtocol) : str :=
  match p with
  | Http => s!"http" | HttpsConnect => s!"https_connect"
  | Socks5Tcp => s!"socks5_tcp" | Socks5Udp => s!"socks5_udp"
  end.

Definition source_as_str (s : NetworkDecisionSource) : str :=
  match s with
  | BaselinePolicy => s!"baseline_policy" | ModeGuard => s!"mode_guard"
  | ProxyState => s!"proxy_state" | Decider => s!"decider"
  end.

Record PolicyDecisionDetails := {
  d_decision : NetworkPolicyDecision; d_reason : str; d_source : NetworkDecisionSource;
  d_protocol : NetworkProtocol; d_host : str; d_port : N }.

Inductive Response : Type :=
| TextResponse (status : N) (body : str)
| BlockedText (reason : str) (header message : str)
| JsonBlocked (host reason header : str) (details : option PolicyDecisionDetails) (message : option str).

(** The first text whose key is the reason. *)
Fixpoint text_for (table : list (str * str)) (other reason : str) : str :=
  match table with
  | [] => other
  | (key, text) :: rest => if str_eqb reason key then text else text_for rest other reason
  end.

Definition blocked_header_value (reason : str) : str :=
  text_for [(reason_as_str NotAllowed, s!"blocked-by-allowlist");
            (reason_as_str NotAllowedLocal, s!"blocked-by-allowlist");
            (reason_as_str Denied, s!"blocked-by-denylist");
            (REASON_METHOD_NOT_ALLOWED, s!"blocked-by-method-policy");
            (REASON_MITM_HOOK_DENIED, s!"blocked-by-mitm-hook");
            (REASON_MITM_REQUIRED, s!"blocked-by-mitm-required")] (s!"blocked-by-policy") reason.

Definition blocked_message (reason : str) : str :=
  text_for [(reason_as_str NotAllowed, s!"Domain not in allowlist.");
            (reason_as_str NotAllowedLocal, s!"Sandbox policy blocks local/private network addresses.");
            (reason_as_str Denied, s!"Domain denied by the sandbox policy.");
            (REASON_METHOD_NOT_ALLOWED, s!"Method not allowed in limited mode.");
            (REASON_MITM_HOOK_DENIED, s!"HTTPS request denied by MITM hook policy.");
            (REASON_MITM_REQUIRED, s!"MITM required for limited HTTPS.");
            (REASON_PROXY_DISABLED, s!"network proxy is disabled")] (s!"Request blocked by network policy.") reason.

Definition blocked_text_response (reason : str) : Response :=
  BlockedText reason (blocked_header_value reason) (blocked_message reason).

Definition json_blocked (host reason : str) (details : option PolicyDecisionDetails) : Response :=
  JsonBlocked host reason (blocked_header_value reason) details
    (match details with Some _ => Some (blocked_message reason) | None => None end).

Definition internal_error : Response := TextResponse 500 (s!"error").

(** ** Events *)

Inductive Event : Type :=
| Recorded (args : BlockedRequestArgs)
| Audited (allowed : bool) (source : NetworkDecisionSource) (reason : str) (protocol : NetworkProtocol)
    (server_address : str) (server_port : N) (method client : option str)
| AuditedDomain (event : AuditEvent).

Definition recorded (host reason : str) (client method : option str) (m : option NetworkMode)
    (protocol : str) (decision source : option str) (port : N) : Event :=
  Recorded {| a_host := host; a_reason := reason; a_client := client; a_method := method; a_mode := m;
              a_protocol := protocol; a_decision := decision; a_source := source; a_port := Some port |}.

(** A blocked request of a listener, with decision and source. *)
Definition recorded_details (d : PolicyDecisionDetails) (client method : option str)
    (m : option NetworkMode) (protocol : str) : Event :=
  recorded (d_host d) (d_reason d) client method m protocol (Some (decision_as_str (d_decision d)))
    (Some (source_as_str (d_source d))) (d_port d).

Definition details_of (reason : str) (source : NetworkDecisionSource) (decision : NetworkPolicyDecision)
    (protocol : NetworkProtocol) (host : str) (port : N) : PolicyDecisionDetails := {|
  d_decision := decision; d_reason := reason; d_source := source; d_protocol := protocol;
  d_host := host; d_port := port |}.

Section Handlers.
Context `{HttpTypes} `{Globs} `{Host} {MitmState : Type}.
Abbreviation ConfigState := (@ConfigState _ _ MitmState).
Context (views : nat -> option ConfigState) (lookup : Lookup).
Context (environment_id execution_id : option str).
Context (policy_decider : option (NetworkPolicyRequest -> NetworkDecision)) (broker_requires : str -> bool).

Definition proxy_disabled_response (host : str) (port : N) (client method : option str)
    (protocol : NetworkProtocol) (audit_endpoint : option (str * N)) : Response * list Event :=
  let '(address, audit_port) := default (host, port) audit_endpoint in
  (TextResponse 503 (blocked_message REASON_PROXY_DISABLED),
   [Audited false ProxyState REASON_PROXY_DISABLED protocol address audit_port method client;
    recorded host REASON_PROXY_DISABLED client method None (as_policy_protocol protocol)
      (Some (s!"deny")) (Some (s!"proxy_state")) port]).

Definition policy_request (protocol : NetworkProtocol) (host : str) (port : N) (client method : option str)
    (request_environment : option str) : NetworkPolicyRequest := {|
  q_protocol := protocol; q_host := host; q_port := port; q_environment_id := request_environment;
  q_client_addr := client; q_method := method; q_command := None; q_exec_policy_hint := None;
  q_execution_id := None |}.

Definition evaluate (st : ConfigState) (r : NetworkPolicyRequest) : NetworkDecision * list Event :=
  let '(decision, event) := evaluate_host_policy st lookup environment_id execution_id policy_decider r in
  (decision, [AuditedDomain event]).

(** ** CONNECT *)

Inductive MitmMode : Type := MitmDisabled | MitmEnabled | MitmDetectTls.
#[export] Instance mitm_mode_eq_dec : EqDecision MitmMode.
Proof. solve_decision. Defined.

Definition mitm_mode_for (m : NetworkMode) (requirement : HostMitmRequirement) : MitmMode :=
  match m with
  | Limited => MitmEnabled
  | Full => match requirement with
            | MitmNone => MitmDisabled | MitmTls => MitmDetectTls | MitmAlways => MitmEnabled end
  end.

Record Accepted := {
  acc_target : TargetHost * N; acc_mitm_mode : MitmMode; acc_mode : NetworkMode; acc_mitm : option MitmState }.

Definition http_connect_accept (request_environment client : option str) (authority : option (TargetHost * N)) :
    result Accepted Response * list Event :=
  let connect := Some (s!"CONNECT") in
  match authority with
  | None => (Err (TextResponse 400 (s!"missing authority")), [])
  | Some (target, port) =>
      let host := normalize_host (target_to_string target) in
      if is_empty host then (Err (TextResponse 400 (s!"invalid host")), [])
      else match views 0 with
      | None => (Err internal_error, [])
      | Some st =>
          if negb (enabled (config st)) then
            let '(resp, events) := proxy_disabled_response host port client connect HttpsConnect None in
            (Err resp, events)
          else match views 1 with
          | None => (Err internal_error, [])
          | Some st =>
              let '(decision, events) :=
                evaluate st (policy_request HttpsConnect host port client connect request_environment) in
              match decision with
              | DecisionDeny reason source d =>
                  let details := details_of reason source d HttpsConnect host port in
                  (Err (blocked_text_response reason),
                   events ++ [recorded_details details client connect None (s!"http-connect")])
              | DecisionAllow =>
                  match views 2, views 3, views 4 with
                  | Some st_mode, Some st_mitm, Some st_req =>
                      let m := mode (config st_mode) in
                      let mitm_mode := mitm_mode_for m (host_mitm_requirement st_req broker_requires host) in
                      match mitm_mode, mitm_state st_mitm with
                      | MitmEnabled, None =>
                          let details := details_of REASON_MITM_REQUIRED ModeGuard PolicyDeny HttpsConnect host port in
                          (Err (blocked_text_response REASON_MITM_REQUIRED),
                           events ++ [Audited false ModeGuard REASON_MITM_REQUIRED HttpsConnect host port connect client;
                                      recorded_details details client connect (Some m) (s!"http-connect")])
                      | _, ms =>
                          (Ok {| acc_target := (target, port); acc_mitm_mode := mitm_mode; acc_mode := m;
                                 acc_mitm := if decide (mitm_mode = MitmDisabled) then None else ms |}, events)
                      end
                  | _, _, _ => (Err internal_error, events)
                  end
              end
          end
      end
  end.

(** What happens to an accepted tunnel: [http_connect_proxy]; the first bytes tell
    whether it carries TLS. *)
Inductive Tunnel : Type := Forwarded | Intercepted | TunnelError.

Definition http_connect_proxy (acc : Accepted) (tls_prefix : option bool) : Tunnel :=
  let intercept := match acc_mitm acc with Some _ => Intercepted | None => TunnelError end in
  match acc_mitm_mode acc with
  | MitmDisabled => Forwarded
  | MitmEnabled => intercept
  | MitmDetectTls =>
      match tls_prefix with
      | Some true => intercept
      | Some false => Forwarded
      | None => TunnelError
      end
  end.

(** ** Plain HTTP *)

(** A request: its Unix socket header, absent or perhaps not text; its target,
    and whether the Host header contradicts it. *)
Record PlainRequest := {
  pr_method : str; pr_unix_socket : option (option str); pr_target : option (TargetHost * N);
  pr_host_header : result unit str; pr_client : option str }.

Inductive PlainOutcome : Type :=
| Respond (resp : Response)
| ViaUnixSocket (path : str)
| Forward (target : TargetHost * N) (env_proxy inject_credentials : bool).

(** [validate_absolute_form_host_header]: of the target in absolute form (host,
    port, whether the port is the default one) and the Host header. *)
Definition validate_absolute_form_host_header (has_scheme : bool)
    (header : result (option (TargetHost * option N)) unit) (target_host : TargetHost)
    (target_port : option N) (default_port : bool) (host_eqb : TargetHost -> TargetHost -> bool) :
    result unit str :=
  let mismatch := s!"Host header does not match request target" in
  if negb has_scheme then Ok tt
  else match header with
       | Err _ => Err (s!"invalid Host header")
       | Ok None => Ok tt
       | Ok (Some (host, port)) =>
           if negb (host_eqb host target_host) then Err mismatch
           else match port with
                | Some p => if bool_decide (Some p = target_port) then Ok tt else Err mismatch
                | None => if default_port then Ok tt else Err mismatch
                end
       end.

Definition plain_unix_socket (supported allowed : bool) (r : PlainRequest) (socket_path : option str) :
    PlainOutcome * list Event :=
  let method := Some (pr_method r) in
  let client := pr_client r in
  let name := s!"unix-socket" in
  match socket_path with
  | None => (Respond (TextResponse 400 (s!"invalid x-unix-socket header")), [])
  | Some path =>
      match views 1 with
      | None => (Respond internal_error, [])
      | Some st =>
          if negb (enabled (config st)) then
            let '(resp, events) := proxy_disabled_response path 0 client method Http (Some (name, 0%N)) in
            (Respond resp, events)
          else if negb allowed then
            (Respond (json_blocked name REASON_METHOD_NOT_ALLOWED None),
             [Audited false ModeGuard REASON_METHOD_NOT_ALLOWED Http name 0 method client])
          else if negb supported then
            (Respond (TextResponse 501 (s!"unix sockets unsupported")),
             [Audited false ProxyState REASON_UNIX_SOCKET_UNSUPPORTED Http name 0 method client])
          else match views 2 with
               | None => (Respond internal_error, [])
               | Some st =>
                   if is_unix_socket_allowed supported st path
                   then (ViaUnixSocket path, [Audited true ProxyState (s!"allow") Http name 0 method client])
                   else (Respond (json_blocked name (reason_as_str NotAllowed) None),
                         [Audited false ProxyState (reason_as_str NotAllowed) Http name 0 method client])
               end
      end
  end.

Definition http_plain_proxy (supported : bool) (request_environment : option str) (r : PlainRequest) :
    PlainOutcome * list Event :=
  let method := Some (pr_method r) in
  let client := pr_client r in
  match views 0 with
  | None => (Respond internal_error, [])
  | Some st0 =>
      let allowed := method_allowed st0 (pr_method r) in
      match pr_unix_socket r with
      | Some socket_path => plain_unix_socket supported allowed r socket_path
      | None =>
          match pr_target r with
          | None => (Respond (TextResponse 400 (s!"missing host")), [])
          | Some (target, port) =>
              let host := normalize_host (target_to_string target) in
              match pr_host_header r with
              | Err reason => (Respond (TextResponse 400 reason), [])
              | Ok _ =>
                  match views 1 with
                  | None => (Respond internal_error, [])
                  | Some st1 =>
                      if negb (enabled (config st1)) then
                        let '(resp, events) := proxy_disabled_response host port client method Http None in
                        (Respond resp, events)
                      else match views 2 with
                      | None => (Respond internal_error, [])
                      | Some st2 =>
                          let '(decision, events) :=
                            evaluate st2 (policy_request Http host port client method request_environment) in
                          match decision with
                          | DecisionDeny reason source d =>
                              let details := details_of reason source d Http host port in
                              (Respond (json_blocked host reason (Some details)),
                               events ++ [recorded_details details client method None (s!"http")])
                          | DecisionAllow =>
                              if negb allowed then
                                let details := details_of REASON_METHOD_NOT_ALLOWED ModeGuard PolicyDeny Http host port in
                                (Respond (json_blocked host REASON_METHOD_NOT_ALLOWED (Some details)),
                                 events ++ [Audited false ModeGuard REASON_METHOD_NOT_ALLOWED Http host port method client;
                                            recorded_details details client method (Some Limited) (s!"http")])
                              else match views 3, views 4 with
                                   | Some st3, Some st4 =>
                                       (Forward (target, port) (allow_upstream_proxy (config st4))
                                          (dangerously_allow_plaintext_credential_injection (config st3)), events)
                                   | _, _ => (Respond internal_error, events)
                                   end
                          end
                      end
                  end
              end
          end
      end
  end.

(** ** SOCKS *)

Inductive SocksError : Type :=
| SocksInvalidHost
| SocksProxyError
| SocksDenied (details : PolicyDecisionDetails).

Inductive SocksConnection : Type :=
| SocksDirect
| SocksMitm (m : NetworkMode) (ms : MitmState)
| SocksDetectTls (m : NetworkMode) (ms : MitmState).

(** A refusal before the host policy is asked. *)
Definition socks_refused (reason : str) (source : NetworkDecisionSource) (protocol : NetworkProtocol)
    (label host : str) (port : N) (client : option str) (m : option NetworkMode) :
    SocksError * list Event :=
  let details := details_of reason source PolicyDeny protocol host port in
  (SocksDenied details,
   [Audited false source reason protocol host port None client; recorded_details details client None m label]).

Definition handle_socks5_tcp (request_environment client : option str) (target : TargetHost) (port : N) :
    result SocksConnection SocksError * list Event :=
  let host := normalize_host (target_to_string target) in
  let refuse reason source m events0 :=
    let '(e, events) := socks_refused reason source Socks5Tcp (s!"socks5") host port client m in
    (Err e, events0 ++ events) in
  if is_empty host then (Err SocksInvalidHost, [])
  else match views 0 with
  | None => (Err SocksProxyError, [])
  | Some st0 =>
      if negb (enabled (config st0)) then refuse REASON_PROXY_DISABLED ProxyState None []
      else match views 1 with
      | None => (Err SocksProxyError, [])
      | Some st1 =>
          let m := mode (config st1) in
          let https := (port =? 443)%N in
          if bool_decide (m = Limited) && negb https
          then refuse REASON_METHOD_NOT_ALLOWED ModeGuard (Some Limited) []
          else match views 2 with
          | None => (Err SocksProxyError, [])
          | Some st2 =>
              let '(decision, events) :=
                evaluate st2 (policy_request Socks5Tcp host port client None request_environment) in
              match decision with
              | DecisionDeny reason source d =>
                  let details := details_of reason source d Socks5Tcp host port in
                  (Err (SocksDenied details), events ++ [recorded_details details client None None (s!"socks5")])
              | DecisionAllow =>
                  match views 3, views 4 with
                  | Some st3, Some st4 =>
                      let requirement := host_mitm_requirement st3 broker_requires host in
                      let socks_mode := mitm_mode_for m requirement in
                      let unsupported := match requirement with MitmAlways => negb https | _ => false end in
                      if unsupported || (negb (bool_decide (socks_mode = MitmDisabled))
                                         && match mitm_state st4 with None => true | Some _ => false end)
                      then refuse REASON_MITM_REQUIRED ModeGuard (Some m) events
                      else match socks_mode, mitm_state st4 with
                           | MitmEnabled, Some ms => (Ok (SocksMitm m ms), events)
                           | MitmDetectTls, Some ms => (Ok (SocksDetectTls m ms), events)
                           | _, _ => (Ok SocksDirect, events)
                           end
                  | _, _ => (Err SocksProxyError, events)
                  end
              end
          end
      end
  end.

(** A datagram, to an address; [Ok] when it is relayed. *)
Definition inspect_socks5_udp (request_environment client : option str) (server : IpAddr) (port : N) :
    result unit SocksError * list Event :=
  let host := normalize_host (display_ip server) in
  let refuse reason source m :=
    let '(e, events) := socks_refused reason source Socks5Udp (s!"socks5-udp") host port client m in
    (Err e, events) in
  if is_empty host then (Err SocksInvalidHost, [])
  else match views 0 with
  | None => (Err SocksProxyError, [])
  | Some st0 =>
      if negb (enabled (config st0)) then refuse REASON_PROXY_DISABLED ProxyState None
      else match views 1 with
      | None => (Err SocksProxyError, [])
      | Some st1 =>
          match mode (config st1) with
          | Limited => refuse REASON_METHOD_NOT_ALLOWED ModeGuard (Some Limited)
          | Full =>
              match views 2 with
              | None => (Err SocksProxyError, [])
              | Some st2 =>
                  let '(decision, events) :=
                    evaluate st2 (policy_request Socks5Udp host port client None request_environment) in
                  match decision with
                  | DecisionDeny reason source d =>
                      let details := details_of reason source d Socks5Udp host port in
                      (Err (SocksDenied details), events ++ [recorded_details details client None None (s!"socks5-udp")])
                  | DecisionAllow => (Ok tt, events)
                  end
              end
          end
      end
  end.

(** ** Intercepted requests *)

Record MitmPolicyContext := { ctx_host : str; ctx_port : N; ctx_mode : NetworkMode }.

(** [mitm_stream]: the context of the requests of an intercepted tunnel; the mode
    is the one that was stored when the tunnel was accepted. *)
Definition mitm_context (target : TargetHost) (port : N) (m : NetworkMode) : MitmPolicyContext :=
  {| ctx_host := normalize_host (target_to_string target); ctx_port := port; ctx_mode := m |}.

Definition tunnel_context (acc : Accepted) : MitmPolicyContext :=
  let '(target, port) := acc_target acc in mitm_context target port (acc_mode acc).

Inductive MitmPolicyDecision : Type :=
| MitmAllow (hook_actions : option MitmHookActions)
| MitmBlock (resp : Response).

(** [evaluate_mitm_policy]; the host is the one of the Host header or else of the
    request line.  [None] is an error from the state. *)
Definition evaluate_mitm_policy (policy : MitmPolicyContext) (request_host client : option str)
    (req : Request) : option MitmPolicyDecision * list Event :=
  let blocked_by reason :=
    recorded (ctx_host policy) reason client (Some (req_method req)) (Some (ctx_mode policy)) (s!"https")
      None None (ctx_port policy) in
  if str_eqb (req_method req) (s!"CONNECT")
  then (Some (MitmBlock (TextResponse 405 (s!"CONNECT not supported inside MITM"))), [])
  else if match request_host with
          | Some h => negb (is_empty (normalize_host h)) && negb (str_eqb (normalize_host h) (ctx_host policy))
          | None => false
          end
  then (Some (MitmBlock (TextResponse 400 (s!"host mismatch"))), [])
  else match views 0 with
  | None => (None, [])
  | Some st0 =>
      match host_blocked st0 lookup (ctx_host policy) (ctx_port policy) with
      | Blocked NotAllowedLocal =>
          (Some (MitmBlock (blocked_text_response (reason_as_str NotAllowedLocal))),
           [blocked_by (reason_as_str NotAllowedLocal)])
      | _ =>
          match views 1 with
          | None => (None, [])
          | Some st1 =>
              let permit actions :=
                if negb (allows_method (ctx_mode policy) (req_method req))
                then (Some (MitmBlock (blocked_text_response REASON_METHOD_NOT_ALLOWED)),
                      [blocked_by REASON_METHOD_NOT_ALLOWED])
                else (Some (MitmAllow actions), []) in
              match evaluate_mitm_hooks (hooks st1) (ctx_host policy) req with
              | Matched actions => permit (Some actions)
              | HookedHostNoMatch =>
                  (Some (MitmBlock (blocked_text_response REASON_MITM_HOOK_DENIED)),
                   [blocked_by REASON_MITM_HOOK_DENIED])
              | NoHooksForHost => permit None
              end
          end
      end
  end.

(** [headers.remove] and [headers.insert], which replaces all values of a name. *)
Definition remove_header (headers : list (HeaderName * HeaderValue)) (name : HeaderName) :=
  filter (fun p => p.1 <> name) headers.
Definition insert_header (headers : list (HeaderName * HeaderValue)) (name : HeaderName) (value : HeaderValue) :=
  remove_header headers name ++ [(name, value)].

Definition apply_mitm_hook_actions (headers : list (HeaderName * HeaderValue))
    (actions : option MitmHookActions) : list (HeaderName * HeaderValue) :=
  match actions with
  | None => headers
  | Some a =>
      let headers := fold_left remove_header (strip_request_headers a) headers in
      fold_left (fun hs h => insert_header hs (rh_name h) (rh_value h)) (inject_request_headers a) headers
  end.

Definition authority_header_value (host : str) (port : N) : str :=
  if contains_char (ch ":") host then
    if (port =? 443)%N then s!"[" ++ host ++ s!"]" else s!"[" ++ host ++ s!"]:" ++ digits_of_N port
  else if (port =? 443)%N then host else host ++ s!":" ++ digits_of_N port.
End Handlers.
