(* ===== verification/NetHandlersFacts.v ===== *)
(** * Theorems on requests to the network proxy

    Limited mode lets only reading requests through, on every listener; hosts
    with hooks are always intercepted; a request that is let through was allowed
    by the host policy; hook actions change exactly the headers they name. *)

From stdpp Require Import gmap.
From S2P Require Import Prelude RustStr Paths NetAddr NetAddrText NetDomain NetDomainFacts NetConfig NetHooks NetState.
From S2P Require Import NetInstances NetRuntime NetHandlers.

Section Requests.
Context {HT : HttpTypes} {GS : Globs} {HO : Paths.Host} {MitmState : Type}.
Abbreviation ConfigState := (@ConfigState _ _ MitmState).
Context (views : nat -> option ConfigState) (lookup : Lookup) (env exec : option str)
  (decider : option (NetworkPolicyRequest -> NetworkDecision)) (broker : str -> bool).

Definition reading_methods : list str := [s!"GET"; s!"HEAD"; s!"OPTIONS"].

Lemma limited_method m : allows_method Limited m = true -> m ∈ reading_methods.
Proof. simpl. rewrite !orb_true_iff, !str_eqb_eq. set_solver. Qed.

(** Every answer of the state is about the same kind of configuration. *)
Definition always (P : ConfigState -> Prop) : Prop := forall i st, views i = Some st -> P st.

(** The steps of a handler, one question of the state after the other, in the
    hypothesis that it succeeded. *)
Ltac handler_cases H :=
  repeat (first [discriminate H | match type of H with
  | (match ?x with _ => _ end) = _ =>
      lazymatch x with
      | views ?i => let E := fresh "V" in destruct x eqn:E
      | evaluate _ _ _ _ _ _ => let E := fresh "E" in destruct x as [[] ?] eqn:E
      | proxy_disabled_response _ _ _ _ _ _ => destruct x
      | negb ?b => let E := fresh "B" in destruct b eqn:E; cbn [negb] in H
      | is_empty _ => destruct x
      | _ && _ => let E := fresh "B" in destruct x eqn:E
      | _ || _ => let E := fresh "B" in destruct x eqn:E
      | is_unix_socket_allowed _ _ _ => let E := fresh "S" in destruct x eqn:E
      | (_, _) => cbv iota beta in H
      end
  end]).

Lemma connect_inv request_env client authority acc events :
  http_connect_accept views lookup env exec decider broker request_env client authority = (Ok acc, events) ->
  exists target port st0 st1 st2 st3 st4 ev,
    authority = Some (target, port) /\ views 0 = Some st0 /\ views 1 = Some st1 /\ views 2 = Some st2 /\
    views 3 = Some st3 /\ views 4 = Some st4 /\ enabled (config st0) = true /\
    evaluate lookup env exec decider st1
      (policy_request HttpsConnect (normalize_host (target_to_string target)) port client (Some (s!"CONNECT")) request_env)
      = (DecisionAllow, ev) /\
    acc_mode acc = mode (config st2) /\
    acc_mitm_mode acc = mitm_mode_for (mode (config st2))
      (host_mitm_requirement st4 broker (normalize_host (target_to_string target))) /\
    acc_mitm acc = (if decide (acc_mitm_mode acc = MitmDisabled) then None else mitm_state st3) /\
    (acc_mitm_mode acc = MitmEnabled -> mitm_state st3 <> None).
Proof.
  unfold http_connect_accept. intros H. destruct authority as [[target port]|]; [|done].
  handler_cases H. destruct (mitm_mode_for _ _) eqn:Em; [| destruct (mitm_state c2) eqn:Es; [|done] |];
    injection H as <- <-; do 8 eexists; repeat (split; [done|]); simpl; rewrite ?Es; done.
Qed.

(** A forwarded request: its method was allowed when it came in, and the host
    policy allowed its target. *)
Lemma plain_forward_inv supported request_env r target proxy inject events :
  http_plain_proxy views lookup env exec decider supported request_env r = (Forward target proxy inject, events) ->
  exists st0 st1 st2 ev,
    views 0 = Some st0 /\ views 1 = Some st1 /\ views 2 = Some st2 /\ pr_target r = Some target /\
    pr_host_header r = Ok tt /\ method_allowed st0 (pr_method r) = true /\ enabled (config st1) = true /\
    evaluate lookup env exec decider st2
      (policy_request Http (normalize_host (target_to_string target.1)) target.2 (pr_client r) (Some (pr_method r)) request_env)
      = (DecisionAllow, ev).
Proof.
  unfold http_plain_proxy. intros H. destruct (views 0) as [st0|] eqn:V0; [|done].
  destruct (pr_unix_socket r) as [s|] eqn:Es.
  { unfold plain_unix_socket in H. destruct s; [|done]. handler_cases H. }
  destruct (pr_target r) as [[t port]|] eqn:Et; [|done]. destruct (pr_host_header r) as [[]|] eqn:Eh; [|done].
  handler_cases H. injection H as <- <- <- <-. do 4 eexists. repeat (split; [done|]). done.
Qed.

Lemma plain_socket_inv supported request_env r path events :
  http_plain_proxy views lookup env exec decider supported request_env r = (ViaUnixSocket path, events) ->
  exists st0 st1 st2,
    views 0 = Some st0 /\ views 1 = Some st1 /\ views 2 = Some st2 /\ pr_unix_socket r = Some (Some path) /\
    supported = true /\ method_allowed st0 (pr_method r) = true /\ enabled (config st1) = true /\
    is_unix_socket_allowed supported st2 path = true.
Proof.
  unfold http_plain_proxy. intros H. destruct (views 0) as [st0|] eqn:V0; [|done].
  destruct (pr_unix_socket r) as [s|] eqn:Es.
  - unfold plain_unix_socket in H. destruct s as [p|]; [|done]. handler_cases H. injection H as <- <-.
    do 3 eexists. repeat (split; [done|]). done.
  - destruct (pr_target r) as [[t port]|]; [|done]. destruct (pr_host_header r) as [[]|]; [|done].
    handler_cases H.
Qed.

Lemma socks_inv request_env client target port c events :
  handle_socks5_tcp views lookup env exec decider broker request_env client target port = (Ok c, events) ->
  exists st0 st1 st2 st3 st4 ev,
    views 0 = Some st0 /\ views 1 = Some st1 /\ views 2 = Some st2 /\ views 3 = Some st3 /\ views 4 = Some st4 /\
    enabled (config st0) = true /\ (mode (config st1) = Limited -> port = 443%N) /\
    evaluate lookup env exec decider st2
      (policy_request Socks5Tcp (normalize_host (target_to_string target)) port client None request_env)
      = (DecisionAllow, ev) /\
    let requirement := host_mitm_requirement st3 broker (normalize_host (target_to_string target)) in
    (requirement = MitmAlways -> port = 443%N) /\
    match mitm_mode_for (mode (config st1)) requirement with
    | MitmDisabled => c = SocksDirect
    | MitmEnabled => exists ms, c = SocksMitm (mode (config st1)) ms
    | MitmDetectTls => exists ms, c = SocksDetectTls (mode (config st1)) ms
    end.
Proof.
  unfold handle_socks5_tcp, socks_refused. intros H. handler_cases H.
  match goal with E : bool_decide _ && negb _ = false |- _ => rename E into El end.
  match goal with E : _ || _ = false |- _ => apply orb_false_iff in E as [Eu1 Eu2] end.
  do 6 eexists. repeat (split; [done|]).
  split. { intros Hm. rewrite bool_decide_eq_true_2 in El by done. by apply negb_false_iff, N.eqb_eq in El. }
  split; [done|]. split.
  { intros Hr. rewrite Hr in Eu1. by apply negb_false_iff, N.eqb_eq in Eu1. }
  destruct (mitm_mode_for _ _); [|destruct (mitm_state _)|destruct (mitm_state _)]; simpl in Eu2; try done;
    injection H as <- <-; eauto.
Qed.

Lemma intercepted_reads (views' : nat -> option ConfigState) (lookup' : Lookup) ctx request_host client req actions events :
  ctx_mode ctx = Limited ->
  evaluate_mitm_policy views' lookup' ctx request_host client req = (Some (MitmAllow actions), events) ->
  req_method req ∈ reading_methods.
Proof.
  intros Hc H. apply limited_method. rewrite <- Hc. unfold evaluate_mitm_policy in H.
  destruct (str_eqb _ (s!"CONNECT")); [done|].
  destruct (match request_host with Some _ => _ | None => _ end); [done|].
  destruct (views' 0); [|done].
  destruct (allows_method (ctx_mode ctx) (req_method req)) eqn:Ea; [done|].
  destruct (host_blocked _ _ _ _) as [|[]]; try done; (destruct (views' 1); [|done]);
    by destruct (evaluate_mitm_hooks _ _ _).
Qed.

(** C33: What arrives while the proxy is in limited mode only reads.  A tunnel that
    is accepted then is intercepted, and every request in it that is let through,
    also later and whatever the mode is by then, has a reading method; plain
    requests have one too, also those to Unix sockets; a SOCKS stream is refused or
    is to port 443 and intercepted in the same way, and datagrams are refused.
    Tunnels that were accepted before, in full mode, keep that mode and are not
    covered (see [tunnel_keeps_its_mode]). *)
Theorem limited_mode_only_reads :
  always (fun st => mode (config st) = Limited) ->
  (forall request_env client authority acc events tls,
     http_connect_accept views lookup env exec decider broker request_env client authority = (Ok acc, events) ->
     http_connect_proxy acc tls = Intercepted /\
     forall (views' : nat -> option ConfigState) (lookup' : Lookup) request_host client' req actions events',
       evaluate_mitm_policy views' lookup' (tunnel_context acc) request_host client' req
         = (Some (MitmAllow actions), events') -> req_method req ∈ reading_methods) /\
  (forall supported request_env r out events,
     http_plain_proxy views lookup env exec decider supported request_env r = (out, events) ->
     (exists resp, out = Respond resp) \/ pr_method r ∈ reading_methods) /\
  (forall request_env client target port c events,
     handle_socks5_tcp views lookup env exec decider broker request_env client target port = (Ok c, events) ->
     port = 443%N /\ exists m ms, c = SocksMitm m ms /\
     forall (views' : nat -> option ConfigState) (lookup' : Lookup) request_host client' req actions events',
       evaluate_mitm_policy views' lookup' (mitm_context target port m) request_host client' req
         = (Some (MitmAllow actions), events') -> req_method req ∈ reading_methods) /\
  (forall request_env client server port events,
     inspect_socks5_udp views lookup env exec decider request_env client server port <> (Ok tt, events)).
Proof.
  intros Hlim. split; [|split; [|split]].
  - intros request_env client authority acc events tls H.
    apply connect_inv in H as (t & p & st0 & st1 & st2 & st3 & st4 & ev & _ & _ & _ & V2 & _ & _ & _ & _ & Hm & Hmm & Hms & Hreq).
    apply Hlim in V2. rewrite V2 in Hm, Hmm. simpl in Hmm. split.
    + unfold http_connect_proxy. rewrite Hms, Hmm. simpl. specialize (Hreq Hmm). by destruct (mitm_state st3).
    + intros views' lookup' request_host client' req actions events'. apply intercepted_reads.
      unfold tunnel_context. by destruct (acc_target acc).
  - intros supported request_env r out events H. destruct out as [resp|path|target proxy inject]; [by left; eauto|right|right].
    + apply plain_socket_inv in H as (st0 & st1 & st2 & V0 & _ & _ & _ & _ & Hm & _).
      unfold method_allowed in Hm. rewrite (Hlim _ _ V0) in Hm. by apply limited_method.
    + apply plain_forward_inv in H as (st0 & st1 & st2 & ev & V0 & _ & _ & _ & _ & Hm & _).
      unfold method_allowed in Hm. rewrite (Hlim _ _ V0) in Hm. by apply limited_method.
  - intros request_env client target port c events H.
    apply socks_inv in H as (st0 & st1 & st2 & st3 & st4 & ev & _ & V1 & _ & _ & _ & _ & Hp & _ & _ & Hc).
    apply Hlim in V1. rewrite V1 in Hp, Hc. simpl in Hc. split; [by apply Hp|]. destruct Hc as [ms ->].
    exists Limited, ms. split; [done|]. intros views' lookup' request_host client' req actions events'.
    by apply intercepted_reads.
  - intros request_env client server port events H. unfold inspect_socks5_udp, socks_refused in H. handler_cases H.
    by rewrite (Hlim _ _ V0) in H.
Qed.

(** A host with hooks is never reached through a tunnel that the proxy cannot
    look into, in any mode. *)
Theorem hooked_hosts_are_intercepted host :
  always (fun st => btree_get host (hooks st) <> None) ->
  (forall request_env client target port acc events tls,
     normalize_host (target_to_string target) = host -> normalize_host host = host ->
     http_connect_accept views lookup env exec decider broker request_env client (Some (target, port)) = (Ok acc, events) ->
     http_connect_proxy acc tls = Intercepted) /\
  (forall request_env client target port c events,
     normalize_host (target_to_string target) = host -> normalize_host host = host ->
     handle_socks5_tcp views lookup env exec decider broker request_env client target port = (Ok c, events) ->
     port = 443%N /\ exists m ms, c = SocksMitm m ms).
Proof.
  intros Hhook.
  assert (forall i st, views i = Some st -> normalize_host host = host -> host_mitm_requirement st broker host = MitmAlways) as Hreq.
  { intros i st Hv Hn. unfold host_mitm_requirement. rewrite Hn. apply Hhook in Hv. by destruct (btree_get host (hooks st)). }
  split.
  - intros request_env client target port acc events tls Ht Hn H.
    apply connect_inv in H as (t & p & st0 & st1 & st2 & st3 & st4 & ev & Ha & _ & _ & _ & _ & V4 & _ & _ & _ & Hmm & Hms & Hen).
    injection Ha as <- <-. rewrite Ht, (Hreq _ _ V4 Hn) in Hmm.
    assert (acc_mitm_mode acc = MitmEnabled) as E by (rewrite Hmm; by destruct (mode (config st2))).
    unfold http_connect_proxy. rewrite Hms, E. simpl. specialize (Hen E). by destruct (mitm_state st3).
  - intros request_env client target port c events Ht Hn H.
    apply socks_inv in H as (st0 & st1 & st2 & st3 & st4 & ev & _ & _ & _ & V3 & _ & _ & _ & _ & Hp & Hc).
    rewrite Ht, (Hreq _ _ V3 Hn) in Hp, Hc. split; [by apply Hp|].
    destruct (mode (config st1)); simpl in Hc; naive_solver.
Qed.

(** The host policy allowed the target, or left the choice to a decider that
    allowed it. *)
Definition policy_allows (host : str) (port : N) : Prop :=
  exists i st, views i = Some st /\
    (host_blocked st lookup host port = Allowed
     \/ (host_blocked st lookup host port = Blocked NotAllowed /\
         exists d r, decider = Some d /\ q_host r = host /\ q_port r = port /\ d r = DecisionAllow)).

Lemma evaluate_allows i st r ev :
  views i = Some st -> evaluate lookup env exec decider st r = (DecisionAllow, ev) ->
  policy_allows (q_host r) (q_port r).
Proof.
  intros Hv H. exists i, st. split; [done|]. unfold evaluate, evaluate_host_policy in H.
  destruct (host_blocked _ _ _ _) as [|[]]; try done; [by left|]. right. split; [done|].
  destruct decider as [d|]; [|done]. destruct (d _) eqn:E; [|done].
  by exists d, (decider_request env exec r).
Qed.

(** Whatever a listener lets through was let through by the host policy, with the
    host that the connection is made to. *)
Theorem admitted_targets_were_allowed :
  (forall request_env client target port acc events,
     http_connect_accept views lookup env exec decider broker request_env client (Some (target, port)) = (Ok acc, events) ->
     acc_target acc = (target, port) /\ policy_allows (normalize_host (target_to_string target)) port) /\
  (forall supported request_env r target proxy inject events,
     http_plain_proxy views lookup env exec decider supported request_env r = (Forward target proxy inject, events) ->
     policy_allows (normalize_host (target_to_string target.1)) target.2) /\
  (forall request_env client target port c events,
     handle_socks5_tcp views lookup env exec decider broker request_env client target port = (Ok c, events) ->
     policy_allows (normalize_host (target_to_string target)) port) /\
  (forall request_env client server port events,
     inspect_socks5_udp views lookup env exec decider request_env client server port = (Ok tt, events) ->
     policy_allows (normalize_host (display_ip server)) port).
Proof.
  split; [|split; [|split]].
  - intros request_env client target port acc events H. split.
    { unfold http_connect_accept in H. handler_cases H.
      destruct (mitm_mode_for _ _); [|destruct (mitm_state _); [|done]|]; by injection H as <- <-. }
    apply connect_inv in H as (t & p & st0 & st1 & st2 & st3 & st4 & ev & Ha & _ & V1 & _ & _ & _ & _ & He & _).
    injection Ha as <- <-. exact (evaluate_allows _ _ _ _ V1 He).
  - intros supported request_env r target proxy inject events H.
    apply plain_forward_inv in H as (st0 & st1 & st2 & ev & _ & _ & V2 & _ & _ & _ & _ & He).
    exact (evaluate_allows _ _ _ _ V2 He).
  - intros request_env client target port c events H.
    apply socks_inv in H as (st0 & st1 & st2 & st3 & st4 & ev & _ & _ & V2 & _ & _ & _ & _ & He & _).
    exact (evaluate_allows _ _ _ _ V2 He).
  - intros request_env client server port events H. unfold inspect_socks5_udp, socks_refused in H. handler_cases H.
    destruct (mode (config c0)); [done|]. handler_cases H. exact (evaluate_allows _ _ _ _ V1 E).
Qed.

(** ** Headers *)

Lemma get_all_remove headers name n :
  get_all (remove_header headers name) n = if decide (n = name) then [] else get_all headers n.
Proof.
  unfold get_all, remove_header. rewrite list_filter_filter. case_decide as E.
  - subst. rewrite (list_filter_iff _ (fun _ => False)) by naive_solver.
    assert (filter (fun _ : HeaderName * HeaderValue => False) headers = []) as ->; [|done].
    by induction headers.
  - f_equal. apply list_filter_iff. intros [a b]. simpl. naive_solver.
Qed.

Lemma get_all_insert headers name value n :
  get_all (insert_header headers name value) n = if decide (n = name) then [value] else get_all headers n.
Proof.
  unfold insert_header. unfold get_all at 1. rewrite filter_app, fmap_app.
  fold (get_all (remove_header headers name) n). rewrite get_all_remove.
  rewrite filter_cons. simpl. case_decide as E; [subst; by rewrite decide_True|].
  rewrite decide_False by congruence. by rewrite app_nil_r.
Qed.

Lemma get_all_strip names headers n :
  get_all (fold_left remove_header names headers) n = if decide (n ∈ names) then [] else get_all headers n.
Proof.
  revert headers. induction names as [|x names IH]; intros headers; simpl; [done|]. rewrite IH, get_all_remove.
  destruct (decide (n = x)) as [->|Hne].
  - rewrite (decide_True (P := x ∈ x :: names)) by (by left). by case_decide.
  - destruct (decide (n ∈ names)); [by rewrite decide_True by (by right)|].
    rewrite decide_False; [done|]. by intros [?|?]%elem_of_cons.
Qed.

Lemma get_all_inject hs headers n :
  get_all (fold_left (fun l h => insert_header l (rh_name h) (rh_value h)) hs headers) n =
  match last (filter (fun h => rh_name h = n) hs) with Some h => [rh_value h] | None => get_all headers n end.
Proof.
  revert headers. induction hs as [|h hs IH] using rev_ind; intros headers; [done|].
  rewrite fold_left_app, filter_app. cbn [fold_left]. rewrite get_all_insert, filter_cons, filter_nil.
  destruct (decide (n = rh_name h)) as [->|Hne].
  - rewrite decide_True by done. by rewrite last_snoc.
  - rewrite (decide_False (P := rh_name h = n)) by congruence. by rewrite app_nil_r, IH.
Qed.

(** Hook actions set each injected header to exactly its last injected value, take
    the stripped ones away and leave all others alone: a value that the client
    sent cannot survive beside an injected one. *)
Theorem hook_actions_headers headers a n :
  get_all (apply_mitm_hook_actions headers (Some a)) n =
  match last (filter (fun h => rh_name h = n) (inject_request_headers a)) with
  | Some h => [rh_value h]
  | None => if decide (n ∈ strip_request_headers a) then [] else get_all headers n
  end.
Proof. unfold apply_mitm_hook_actions. by rewrite get_all_inject, get_all_strip. Qed.
End Requests.

(** ** Instances *)

Definition limited_state : @ConfigState plain_http plain_globs unit :=
  state_of (with_mode (set_allowed_domains
    {| enabled := true; proxy_url := default_proxy_url; enable_socks5 := true; socks_url := default_socks_url;
       enable_socks5_udp := true; allow_upstream_proxy := true; dangerously_allow_non_loopback_proxy := false;
       dangerously_allow_all_unix_sockets := false; mode := Full; domains := None; unix_sockets := None;
       allow_local_binding := false; mitm := true; credential_broker := false;
       dangerously_allow_plaintext_credential_injection := false; mitm_hooks := [] |}
    [s!"**.example.com"]) Limited) default_constraints.

Definition public_lookup : Lookup := lookup_at (V4 (mk4 93 184 216 34)).

Lemma limited_mode_only_reads_witness :
  exists acc events,
    http_connect_accept (fun _ => Some limited_state) public_lookup None None None (fun _ => false) None None
      (Some (HostName (s!"example.com"), 443%N)) = (Ok acc, events) /\
    http_connect_proxy acc (Some false) = Intercepted.
Proof.
  destruct (http_connect_accept (fun _ => Some limited_state) public_lookup None None None (fun _ => false) None None
      (Some (HostName (s!"example.com"), 443%N))) as [[acc|] events] eqn:E; [|by vm_compute in E].
  exists acc, events. split; [done|].
  destruct (limited_mode_only_reads (fun _ => Some limited_state) public_lookup None None None (fun _ => false)
    ltac:(by intros i st [= <-])) as [Ht _]. exact (proj1 (Ht _ _ _ _ _ (Some false) E)).
Defined.

(** A tunnel that was accepted in full mode keeps passing writing requests after
    the proxy has been switched to limited mode: the mode is the one stored when
    the tunnel was accepted, unlike the host policy and the hooks, which are read
    again for every request. *)
Example tunnel_keeps_its_mode req :
  req_method req = s!"POST" ->
  evaluate_mitm_policy (fun _ => Some limited_state) public_lookup
    (mitm_context (HostName (s!"example.com")) 443 Full) None None req = (Some (MitmAllow None), []) /\
  exists resp events,
    evaluate_mitm_policy (fun _ => Some limited_state) public_lookup
      (mitm_context (HostName (s!"example.com")) 443 Limited) None None req = (Some (MitmBlock resp), events).
Proof.
  intros Hm. unfold evaluate_mitm_policy. rewrite Hm. split; [|do 2 eexists]; vm_compute; reflexivity.
Qed.

Lemma admitted_targets_were_allowed_witness :
  policy_allows (fun _ => Some limited_state) public_lookup None (s!"example.com") 443.
Proof.
  destruct (http_connect_accept (fun _ => Some limited_state) public_lookup None None None (fun _ => false) None None
      (Some (HostName (s!"Example.com."), 443%N))) as [[acc|] events] eqn:E; [|by vm_compute in E].
  by apply (admitted_targets_were_allowed (fun _ => Some limited_state) public_lookup None None None (fun _ => false)) in E as [_ E].
Defined.
