(* ===== verification/CredentialBroker.v ===== *)
(** * The credential broker of the network proxy

    [network-proxy/src/credential_broker.rs] and its providers.  A child process
    gets dummy values in place of the credentials of its environment; the proxy
    puts the real ones into requests that carry a dummy to a host that the
    credential is bound to.  The random number generator is an argument: [rng i]
    is the number that draw [i] gives, reduced to the range it is drawn from, and operations thread the number of
    draws made so far.  The search for an unused dummy can run on, so operations
    that register a credential take fuel and give nothing when it is spent. *)

From stdpp Require Import gmap.
From S2P Require Import Prelude RustStr Paths NetAddr NetAddrText NetDomain NetConfig NetHooks NetState NetRuntime NetHandlers.

(** ** Bytes of a string *)

Definition encode_char (c : char) : list N :=
  (if c <? 128 then [c]
   else if c <? 2048 then [192 + c / 64; 128 + c mod 64]
   else if c <? 65536 then [224 + c / 4096; 128 + (c / 64) mod 64; 128 + c mod 64]
   else [240 + c / 262144; 128 + (c / 4096) mod 64; 128 + (c / 64) mod 64; 128 + c mod 64])%N.

(** [str::as_bytes] *)
Definition as_bytes (s : str) : list N := s ≫= encode_char.

Definition is_ascii_alphanumeric (b : N) : bool :=
  is_ascii_digit b || in_range 65 90 b || in_range 97 122 b.

(** ** Host bindings *)

Inductive CredentialHostBinding : Type :=
| ExactHost (host : str)
| HostPattern (exact_hosts suffixes : list str).

#[export] Instance host_binding_eq_dec : EqDecision CredentialHostBinding.
Proof. solve_decision. Defined.

Definition binding_matches_host (b : CredentialHostBinding) (host : str) : bool :=
  match b with
  | ExactHost expected_host => str_eqb host expected_host
  | HostPattern exact_hosts suffixes =>
      bool_decide (host ∈ exact_hosts) || existsb (fun suffix => ends_with suffix host) suffixes
  end.

(** ** Dummy values *)

Definition DUMMY_ALPHANUMERIC : str := s!"ABCDEFGHIJKLMNOPQRSTUVWXYZabcdefghijklmnopqrstuvwxyz0123456789".

(** [DUMMY_ALPHANUMERIC[rng.random_range(0..DUMMY_ALPHANUMERIC.len())]], of any
    number that the generator gives. *)
Definition alphanumeric (draw : nat) : N :=
  nth (draw mod length DUMMY_ALPHANUMERIC) DUMMY_ALPHANUMERIC 0%N.

Abbreviation Env := (gmap str str).

Section Dummies.
Context (rng : nat -> nat).

(** The characters at the positions [index] to [index + n - 1]. *)
Fixpoint dummy_tail (real_bytes : list N) (index n pos : nat) : str * nat :=
  match n with
  | 0 => ([], pos)
  | S n' =>
      let (c, pos1) :=
        match real_bytes !! index with
        | Some template =>
            if negb (is_ascii_alphanumeric template) then (template, pos)
            else (alphanumeric (rng pos), S pos)
        | None => (alphanumeric (rng pos), S pos)
        end in
      let (rest, pos2) := dummy_tail real_bytes (S index) n' pos1 in
      (c :: rest, pos2)
  end.

Definition shaped_dummy_value (real_value prefix : str) (minimum_len pos : nat) : str * nat :=
  let bytes := as_bytes real_value in
  let prefix_len := length (as_bytes prefix) in
  let target_len := (length bytes `max` minimum_len) `max` (prefix_len + 16) in
  let (rest, pos1) := dummy_tail bytes prefix_len (target_len - prefix_len) pos in
  (prefix ++ rest, pos1).

(** *** GitHub *)

Definition GH_HOST_ENV_VAR : str := s!"GH_HOST".
Definition GITHUB_TOKEN_PREFIXES : list str :=
  [s!"github_pat_"; s!"ghp_"; s!"gho_"; s!"ghu_"; s!"ghs_"; s!"ghr_"].
Definition GITHUB_TOKEN_MIN_LEN : nat := 40.
Definition GITHUB_CLOUD_TOKEN_ENV_VARS : list str := [s!"GH_TOKEN"; s!"GITHUB_TOKEN"].
Definition GITHUB_ENTERPRISE_TOKEN_ENV_VARS : list str := [s!"GH_ENTERPRISE_TOKEN"; s!"GITHUB_ENTERPRISE_TOKEN"].
Definition GITHUB_CLOUD_HOSTS : list str := [s!"api.github.com"; s!"github.com"].
Definition GITHUB_CLOUD_HOST_SUFFIXES : list str := [s!".ghe.com"].

Definition github_token_prefix (value : str) : str :=
  default (s!"ghp_") (find (fun prefix => starts_with prefix value) GITHUB_TOKEN_PREFIXES).

Definition github_dummy_value (real_value : str) (pos : nat) : str * nat :=
  shaped_dummy_value real_value (github_token_prefix real_value) GITHUB_TOKEN_MIN_LEN pos.

Definition github_cloud_host (host : str) : bool :=
  bool_decide (host ∈ GITHUB_CLOUD_HOSTS) || existsb (fun suffix => ends_with suffix host) GITHUB_CLOUD_HOST_SUFFIXES.

Definition github_host_hint (env : Env) : option str :=
  match env !! GH_HOST_ENV_VAR with
  | Some value => let host := normalize_host value in if is_empty host then None else Some host
  | None => None
  end.

Definition github_cloud_binding (_ : Env) : option CredentialHostBinding :=
  Some (HostPattern GITHUB_CLOUD_HOSTS GITHUB_CLOUD_HOST_SUFFIXES).

Definition github_enterprise_binding (env : Env) : option CredentialHostBinding :=
  match github_host_hint env with
  | Some host => if github_cloud_host host then None else Some (ExactHost host)
  | None => None
  end.

(** *** OpenAI *)

Definition OPENAI_API_KEY_ENV_VARS : list str := [s!"OPENAI_API_KEY"].
Definition OPENAI_API_KEY_MIN_LEN : nat := 51.
Definition OPENAI_API_HOST : str := s!"api.openai.com".

Definition openai_api_key_prefix (value : str) : str :=
  match strip_prefix (s!"sk-") value with
  | None => s!"sk-"
  | Some suffix =>
      match split_once (ch "-") suffix with
      | Some (before, _) => s!"sk-" ++ before ++ s!"-"
      | None => s!"sk-"
      end
  end.

Definition openai_dummy_value (real_value : str) (pos : nat) : str * nat :=
  shaped_dummy_value real_value (openai_api_key_prefix real_value) OPENAI_API_KEY_MIN_LEN pos.

Definition openai_host_binding (_ : Env) : option CredentialHostBinding := Some (ExactHost OPENAI_API_HOST).

(** *** Providers: static values, told apart by their addresses *)

Inductive CredentialProvider : Type := GithubProvider | OpenaiProvider.

#[export] Instance provider_eq_dec : EqDecision CredentialProvider.
Proof. solve_decision. Defined.

Record CredentialSource := { env_vars : list str; host_binding : Env -> option CredentialHostBinding }.

Definition credential_providers : list CredentialProvider := [GithubProvider; OpenaiProvider].

Definition context_env_vars (p : CredentialProvider) : list str :=
  match p with GithubProvider => [GH_HOST_ENV_VAR] | OpenaiProvider => [] end.

Definition sources (p : CredentialProvider) : list CredentialSource :=
  match p with
  | GithubProvider =>
      [{| env_vars := GITHUB_CLOUD_TOKEN_ENV_VARS; host_binding := github_cloud_binding |};
       {| env_vars := GITHUB_ENTERPRISE_TOKEN_ENV_VARS; host_binding := github_enterprise_binding |}]
  | OpenaiProvider => [{| env_vars := OPENAI_API_KEY_ENV_VARS; host_binding := openai_host_binding |}]
  end.

Definition dummy_value (p : CredentialProvider) (real_value : str) (pos : nat) : str * nat :=
  match p with
  | GithubProvider => github_dummy_value real_value pos
  | OpenaiProvider => openai_dummy_value real_value pos
  end.

Definition credential_broker_env_keys : list str :=
  (credential_providers ≫= context_env_vars) ++ ((credential_providers ≫= sources) ≫= env_vars).

(** ** The broker *)

Definition CREDENTIAL_BROKER_ACTIVE_ENV_KEY : str := s!"CODEX_NETWORK_PROXY_CREDENTIAL_BROKER_ACTIVE".
Definition BROKERED_CREDENTIALS_ENV_KEY : str := s!"CODEX_NETWORK_PROXY_BROKERED_CREDENTIALS".

Record CredentialRecord := {
  cr_env_var : str; cr_provider : CredentialProvider; cr_host_binding : CredentialHostBinding;
  cr_real_value : str; cr_dummy_value : str }.

#[export] Instance credential_record_eq_dec : EqDecision CredentialRecord.
Proof. solve_decision. Defined.

Record CredentialBrokerState := { broker_enabled : bool; credentials : list CredentialRecord }.

Definition broker_new (enabled : bool) : CredentialBrokerState :=
  {| broker_enabled := enabled; credentials := [] |}.

Definition is_dummy_value (st : CredentialBrokerState) (value : str) : bool :=
  existsb (fun c => str_eqb (cr_dummy_value c) value) (credentials st).

Definition same_credential (env_var : str) (p : CredentialProvider) (b : CredentialHostBinding) (real_value : str)
    (c : CredentialRecord) : bool :=
  str_eqb (cr_env_var c) env_var && bool_decide (cr_provider c = p) && bool_decide (cr_host_binding c = b) &&
  str_eqb (cr_real_value c) real_value.

(** The loop of [register]: candidates until one is neither the credential itself nor taken. *)
Fixpoint fresh_dummy (fuel : nat) (st : CredentialBrokerState) (p : CredentialProvider) (real_value : str)
    (pos : nat) : option (str * nat) :=
  match fuel with
  | 0 => None
  | S fuel' =>
      let (candidate, pos1) := dummy_value p real_value pos in
      if negb (str_eqb candidate real_value) && negb (is_dummy_value st candidate) then Some (candidate, pos1)
      else fresh_dummy fuel' st p real_value pos1
  end.

Definition register (fuel : nat) (st : CredentialBrokerState) (env_var : str) (p : CredentialProvider)
    (b : CredentialHostBinding) (real_value : str) (pos : nat) : option (str * CredentialBrokerState * nat) :=
  match find (same_credential env_var p b real_value) (credentials st) with
  | Some existing => Some (cr_dummy_value existing, st, pos)
  | None =>
      match fresh_dummy fuel st p real_value pos with
      | None => None
      | Some (dummy, pos1) =>
          Some (dummy,
                {| broker_enabled := broker_enabled st;
                   credentials := credentials st ++
                     [{| cr_env_var := env_var; cr_provider := p; cr_host_binding := b;
                         cr_real_value := real_value; cr_dummy_value := dummy |}] |}, pos1)
      end
  end.

(** Header values and JSON come from libraries. *)
Context `{HttpTypes} (AUTHORIZATION : HeaderName).
Context (json_to_string : list (str * str) -> option str) (json_from_str : str -> option (list (str * str))).

(** The same text for both providers. *)
Definition request_header_value (_ : CredentialProvider) (value : str) : option HeaderValue :=
  header_value_from_str (s!"Bearer " ++ value).

Definition request_header (_ : CredentialProvider) (headers : list (HeaderName * HeaderValue)) : option HeaderValue :=
  head (get_all headers AUTHORIZATION).

Definition insert_request_header (_ : CredentialProvider) (headers : list (HeaderName * HeaderValue))
    (value : HeaderValue) : list (HeaderName * HeaderValue) := insert_header headers AUTHORIZATION value.

Definition brokerable_credential_value (env : Env) (st : CredentialBrokerState) (env_var : str)
    (p : CredentialProvider) : option str :=
  match env !! env_var with
  | None => None
  | Some value =>
      let real_value := trim value in
      if negb (is_empty real_value) && negb (is_dummy_value st real_value) &&
         bool_decide (is_Some (request_header_value p real_value))
      then Some real_value else None
  end.

(** The child's environment, the broker and the number of draws. *)
Definition World : Type := Env * CredentialBrokerState * nat.

Definition virtualize_env_var (fuel : nat) (p : CredentialProvider) (b : CredentialHostBinding) (env_var : str)
    (w : World) : option World :=
  let '(env, st, pos) := w in
  match brokerable_credential_value env st env_var p with
  | None => Some w
  | Some real_value =>
      match register fuel st env_var p b real_value pos with
      | None => None
      | Some (dummy, st', pos') => Some (<[env_var := dummy]> env, st', pos')
      end
  end.

(** A [for] loop whose body may not finish. *)
Fixpoint for_each {A W} (f : A -> W -> option W) (l : list A) (w : W) : option W :=
  match l with
  | [] => Some w
  | x :: l' => match f x w with Some w' => for_each f l' w' | None => None end
  end.

Definition virtualize_source (fuel : nat) (p : CredentialProvider) (s : CredentialSource) (w : World) : option World :=
  match host_binding s w.1.1 with
  | Some b => for_each (virtualize_env_var fuel p b) (env_vars s) w
  | None => Some w
  end.

Definition brokered_entries (st : CredentialBrokerState) (env : Env) : list (str * str) :=
  omap (fun key =>
    match env !! key with
    | Some value => if is_dummy_value st value then Some (key, value) else None
    | None => None
    end) credential_broker_env_keys.

Definition update_brokered_credentials_marker (st : CredentialBrokerState) (env : Env) : Env :=
  match json_to_string (brokered_entries st env) with
  | Some marker => <[BROKERED_CREDENTIALS_ENV_KEY := marker]> env
  | None => delete BROKERED_CREDENTIALS_ENV_KEY env
  end.

Definition virtualize_child_env (fuel : nat) (w : World) : option World :=
  let '(env, st, pos) := w in
  if negb (broker_enabled st)
  then Some (delete BROKERED_CREDENTIALS_ENV_KEY (delete CREDENTIAL_BROKER_ACTIVE_ENV_KEY env), st, pos)
  else
    match for_each (fun p => for_each (virtualize_source fuel p) (sources p)) credential_providers
            (<[CREDENTIAL_BROKER_ACTIVE_ENV_KEY := s!"1"]> env, st, pos) with
    | None => None
    | Some (env', st', pos') => Some (update_brokered_credentials_marker st' env', st', pos')
    end.

(** ** Requests *)

Definition matches_host (c : CredentialRecord) (host : str) : bool := binding_matches_host (cr_host_binding c) host.

Definition host_requires_mitm (st : CredentialBrokerState) (host : str) : bool :=
  broker_enabled st && existsb (fun c => matches_host c (normalize_host host)) (credentials st).

Definition carries_dummy (headers : list (HeaderName * HeaderValue)) (c : CredentialRecord) : bool :=
  match request_header (cr_provider c) headers with
  | Some value => match header_value_to_str value with
                  | Some text => contains_str (cr_dummy_value c) text
                  | None => false
                  end
  | None => false
  end.

Definition select_credential (headers : list (HeaderName * HeaderValue)) (matching : list CredentialRecord) :
    option CredentialRecord :=
  match filter (fun c => carries_dummy headers c = true) matching with
  | [c] => Some c
  | _ => None
  end.

Definition inject_credential (st : CredentialBrokerState) (host : str) (headers : list (HeaderName * HeaderValue)) :
    list (HeaderName * HeaderValue) :=
  let normalized_host := normalize_host host in
  if negb (broker_enabled st) then headers
  else match select_credential headers (filter (fun c => matches_host c normalized_host = true) (credentials st)) with
  | None => headers
  | Some c =>
      match request_header_value (cr_provider c) (cr_real_value c) with
      | None => headers
      | Some value => insert_request_header (cr_provider c) headers value
      end
  end.

(** ** The view of the child's environment that other code takes *)

Definition brokered_credential_dummy_env_keys (env : Env) : list str :=
  omap (fun '(key, dummy) =>
    if bool_decide (key ∈ credential_broker_env_keys) && bool_decide (env !! key = Some dummy) then Some key else None)
    (default [] (env !! BROKERED_CREDENTIALS_ENV_KEY ≫= json_from_str)).

Definition brokered_credential_env_keys (env : Env) : list str :=
  if bool_decide (env !! CREDENTIAL_BROKER_ACTIVE_ENV_KEY = Some (s!"1")) then credential_broker_env_keys else [].
End Dummies.
