(* ===== verification/ExecApproval.v ===== *)
(** * Approval of commands: [core/src/exec_policy.rs], [execpolicy/src/amend.rs]

    What has to happen before a command may run: the exec policy and, for
    commands that no rule mentions, heuristics on the command, the approval
    policy and the permission profile decide whether it runs, the user is asked
    or it is refused; and which rule a user may add to be asked less often.  The
    definitions are those of a target that is not Windows.  Quoting of arguments
    for display ([shlex]), JSON strings and the Starlark parser are arguments. *)

From stdpp Require Import gmap.
From S2P Require Import Prelude RustStr Paths Permissions SandboxRoots PermissionProfiles ExecRule ShellParse CommandSafety ExecPolicy.

(** ** Data *)

(** [cfg!(windows)] *)
Definition cfg_windows : bool := false.

(** [protocol/src/models.rs] *)
Inductive SandboxPermissions := UseDefault | RequireEscalated | WithAdditionalPermissions.

Definition requires_escalated_permissions (s : SandboxPermissions) : bool :=
  match s with RequireEscalated => true | _ => false end.
Definition requests_sandbox_override (s : SandboxPermissions) : bool :=
  match s with UseDefault => false | _ => true end.
Definition uses_additional_permissions (s : SandboxPermissions) : bool :=
  match s with WithAdditionalPermissions => true | _ => false end.

(** An [ExecPolicyAmendment] is its command prefix. *)
Abbreviation ExecPolicyAmendment := (list str).

(** [tools/sandboxing.rs] *)
Inductive ExecApprovalRequirement :=
| Skip (bypass_sandbox : bool) (proposed : option ExecPolicyAmendment)
| NeedsApproval (reason : option str) (proposed : option ExecPolicyAmendment)
| RequirementForbidden (reason : str).

Definition proposed_execpolicy_amendment (r : ExecApprovalRequirement) : option ExecPolicyAmendment :=
  match r with Skip _ p | NeedsApproval _ p => p | RequirementForbidden _ => None end.

Record UnmatchedCommandContext := {
  ctx_approval_policy : AskForApproval;
  ctx_permission_profile : PermissionProfile;
  ctx_windows_sandbox_level : WindowsSandboxLevel;
  ctx_sandbox_permissions : SandboxPermissions;
  ctx_used_complex_parsing : bool;
}.

Record ExecPolicyCommands := { ec_commands : list (list str); used_complex_parsing : bool }.

Record ExecApprovalRequest := {
  command : list str;
  approval_policy : AskForApproval;
  permission_profile : PermissionProfile;
  windows_sandbox_level : WindowsSandboxLevel;
  sandbox_permissions : SandboxPermissions;
  req_prefix_rule : option (list str);
}.

(** ** Reasons *)

Definition PROMPT_CONFLICT_REASON : str := s!"approval required by policy, but AskForApproval is set to Never".
Definition REJECT_SANDBOX_APPROVAL_REASON : str :=
  s!"approval required by policy, but AskForApproval::Granular.sandbox_approval is false".
Definition REJECT_RULES_APPROVAL_REASON : str :=
  s!"approval required by policy rule, but AskForApproval::Granular.rules is false".

Definition prompt_is_rejected_by_policy (policy : AskForApproval) (prompt_is_rule : bool) : option str :=
  match policy with
  | Never => Some PROMPT_CONFLICT_REASON
  | OnRequest | UnlessTrusted => None
  | Granular config =>
      if prompt_is_rule
      then if negb (PermissionProfiles.rules config) then Some REJECT_RULES_APPROVAL_REASON else None
      else if negb (sandbox_approval config) then Some REJECT_SANDBOX_APPROVAL_REASON else None
  end.

Definition dangerous_command_rejection_reason (m : DangerousCommandMatch) : str :=
  match m with
  | ForcedRm => s!"rm -f style commands are not permitted. Use a safer approach"
  | OtherDanger => s!"blocked by policy"
  end.

Definition derive_rejected_prompt_reason (fallback_reason : str) (m : option DangerousCommandMatch) : str :=
  match m with
  | Some ForcedRm => dangerous_command_rejection_reason ForcedRm
  | Some OtherDanger | None => fallback_reason
  end.

(** [Iterator::max_by_key]: the last of the greatest. *)
Fixpoint max_by_key {A} (key : A -> nat) (l : list A) : option A :=
  match l with
  | [] => None
  | x :: l' =>
      match max_by_key key l' with
      | Some y => if key x <=? key y then Some y else Some x
      | None => Some x
      end
  end.

(** ** Commands that no rule mentions *)

Definition profile_has_managed_filesystem_restrictions (p : PermissionProfile) : bool :=
  let policy := file_system_sandbox_policy p in
  match p with Managed _ _ => true | _ => false end &&
  match kind policy with Restricted => true | _ => false end &&
  negb (has_full_disk_write_access policy).

Section Heuristics.
Context (linux : bool) (try_parse_shell : str -> option Node).

Definition render_decision_for_unmatched_command (cmd : list str) (ctx : UnmatchedCommandContext) : Decision :=
  let dangerous := dangerous_command_match try_parse_shell cmd in
  let policy := file_system_sandbox_policy (ctx_permission_profile ctx) in
  let is_known_safe := is_known_safe_command linux try_parse_shell cmd in
  let windows_restrictions_without_backend :=
    cfg_windows && match ctx_windows_sandbox_level ctx with WinDisabled => true | _ => false end &&
    profile_has_managed_filesystem_restrictions (ctx_permission_profile ctx) in
  if is_known_safe && negb (ctx_used_complex_parsing ctx) &&
     (match ctx_approval_policy ctx with UnlessTrusted => true | _ => false end || windows_restrictions_without_backend)
  then Allow
  else if match dangerous with Some _ => true | None => false end || windows_restrictions_without_backend
  then match ctx_approval_policy ctx with
       | Never => Forbidden
       | OnRequest | UnlessTrusted | Granular _ => Prompt
       end
  else match ctx_approval_policy ctx with
       | Never => Allow
       | UnlessTrusted => Prompt
       | OnRequest | Granular _ =>
           match kind policy with
           | Unrestricted | ExternalSandboxKind => Allow
           | Restricted => if requests_sandbox_override (ctx_sandbox_permissions ctx) then Prompt else Allow
           end
       end.

Definition commands_for_exec_policy (cmd : list str) : ExecPolicyCommands :=
  match parse_shell_lc_plain_commands try_parse_shell cmd with
  | Some (c :: cs) => {| ec_commands := c :: cs; used_complex_parsing := false |}
  | _ =>
      match parse_shell_lc_single_command_prefix try_parse_shell cmd with
      | Some single_command => {| ec_commands := [single_command]; used_complex_parsing := true |}
      | None => {| ec_commands := [cmd]; used_complex_parsing := false |}
      end
  end.
End Heuristics.

(** ** Suggestions that are never made *)

Definition with_args (program : string) (args : list string) : list (list str) :=
  [lit program] :: ((fun a => [lit program; lit a]) <$> args).

Definition BANNED_PREFIX_SUGGESTIONS : list (list str) :=
  with_args "/bin/bash" ["-c"; "-lc"] ++ with_args "/bin/sh" ["-c"; "-lc"] ++ with_args "/bin/zsh" ["-c"; "-lc"] ++
  with_args "Rscript" [] ++ with_args "bash" ["-c"; "-lc"] ++ with_args "bun" ["-e"; "run"] ++
  with_args "cmd" ["/c"; "/k"] ++ with_args "cmd.exe" ["/c"; "/k"] ++ with_args "dash" ["-c"] ++
  with_args "deno" ["eval"] ++ with_args "env" [] ++ with_args "fish" ["-c"] ++ with_args "git" [] ++
  with_args "julia" ["-e"] ++ with_args "ksh" ["-c"] ++ with_args "lua" ["-e"] ++ with_args "node" ["-e"] ++
  with_args "nodejs" ["-e"] ++ [[s!"npm"; s!"run"]] ++ with_args "osascript" [] ++ with_args "perl" ["-e"] ++
  with_args "php" ["-r"] ++ [[s!"pnpm"; s!"run"]] ++
  with_args "powershell" ["-Command"; "-EncodedCommand"; "-File"; "-c"] ++
  with_args "powershell.exe" ["-Command"; "-EncodedCommand"; "-File"; "-c"] ++
  with_args "pwsh" ["-Command"; "-EncodedCommand"; "-File"; "-c"; "-e"; "-ec"; "-f"] ++
  with_args "py" ["-3"] ++ with_args "pypy" [] ++ with_args "pypy3" [] ++ with_args "python" ["-"; "-c"] ++
  with_args "python3" ["-"; "-c"] ++ with_args "pythonw" [] ++ with_args "pyw" [] ++ with_args "rm" [] ++
  with_args "ruby" ["-e"] ++ with_args "sh" ["-c"; "-lc"] ++ with_args "sudo" [] ++ [[s!"yarn"; s!"run"]] ++
  with_args "zsh" ["-c"; "-lc"].

(** ** The requirement for a command *)

Section Manager.
Context {M path : Type} `{!MultiMap M str RuleRef} `{!AbsolutePath path}.
Context (linux : bool) (try_parse_shell : str -> option Node) (shlex_try_join : list str -> option str).

Definition host_options : MatchOptions := {| resolve_host_executables := true |}.

Definition is_policy_match (m : RuleMatch path) : bool :=
  match m with PrefixRuleMatch _ _ _ _ => true | HeuristicsRuleMatch _ _ => false end.

Definition rule_match_with (d : Decision) (m : RuleMatch path) : bool :=
  is_policy_match m && bool_decide (match_decision m = d).

Definition dangerous_command_match_for_heuristics (e : Evaluation path) (d : Decision) :
    option DangerousCommandMatch :=
  find_map (fun m =>
    match m with
    | HeuristicsRuleMatch cmd matched =>
        if bool_decide (matched = d) then dangerous_command_match try_parse_shell cmd else None
    | _ => None
    end) (matched_rules e).

Definition try_derive_execpolicy_amendment_for_prompt_rules (ms : list (RuleMatch path)) :
    option ExecPolicyAmendment :=
  if existsb (rule_match_with Prompt) ms then None
  else find_map (fun m => match m with HeuristicsRuleMatch cmd Prompt => Some cmd | _ => None end) ms.

Definition try_derive_execpolicy_amendment_for_allow_rules (ms : list (RuleMatch path)) :
    option ExecPolicyAmendment :=
  if existsb is_policy_match ms then None
  else find_map (fun m => match m with HeuristicsRuleMatch cmd Allow => Some cmd | _ => None end) ms.

(** A check with a fallback always has a match, so the missing case does not arise. *)
Definition prefix_rule_would_approve_all_commands (p : Policy M path) (prefix : list str)
    (commands : list (list str)) (fallback : list str -> Decision) (options : MatchOptions) : bool :=
  match add_prefix_rule p prefix Allow with
  | Err _ => false
  | Ok policy_with_prefix_rule =>
      forallb (fun cmd =>
        match check_with_options policy_with_prefix_rule cmd fallback options with
        | Some e => bool_decide (eval_decision e = Allow)
        | None => false
        end) commands
  end.

Definition derive_requested_execpolicy_amendment_from_prefix_rule (prefix_rule : option (list str))
    (ms : list (RuleMatch path)) (p : Policy M path) (commands : list (list str))
    (fallback : list str -> Decision) (options : MatchOptions) : option ExecPolicyAmendment :=
  match prefix_rule with
  | None => None
  | Some prefix =>
      if is_empty prefix then None
      else if existsb (fun banned => bool_decide (prefix = banned)) BANNED_PREFIX_SUGGESTIONS then None
      else if existsb is_policy_match ms then None
      else if prefix_rule_would_approve_all_commands p prefix commands fallback options then Some prefix
      else None
  end.

Definition render_shlex_command (args : list str) : str := default (join (s!" ") args) (shlex_try_join args).

(** The prefix and justification of the most specific rule with a decision. *)
Definition most_specific (d : Decision) (e : Evaluation path) : option (list str * option str) :=
  max_by_key (fun m => length m.1)
    (omap (fun m =>
       match m with
       | PrefixRuleMatch matched_prefix decision _ just =>
           if bool_decide (decision = d) then Some (matched_prefix, just) else None
       | _ => None
       end) (matched_rules e)).

Definition derive_prompt_reason (command_args : list str) (e : Evaluation path) : option str :=
  let cmd := render_shlex_command command_args in
  match most_specific Prompt e with
  | Some (_, Some just) => Some (s!"`" ++ cmd ++ s!"` requires approval: " ++ just)
  | Some (_, None) => Some (s!"`" ++ cmd ++ s!"` requires approval by policy")
  | None => None
  end.

Definition derive_forbidden_reason (command_args : list str) (e : Evaluation path)
    (m : option DangerousCommandMatch) : str :=
  let cmd := render_shlex_command command_args in
  match most_specific Forbidden e with
  | Some (_, Some just) => s!"`" ++ cmd ++ s!"` rejected: " ++ just
  | Some (matched_prefix, None) =>
      s!"`" ++ cmd ++ s!"` rejected: policy forbids commands starting with `" ++
      render_shlex_command matched_prefix ++ s!"`"
  | None =>
      match m with
      | Some d => s!"`" ++ cmd ++ s!"` rejected: " ++ dangerous_command_rejection_reason d
      | None => s!"`" ++ cmd ++ s!"` rejected: blocked by policy"
      end
  end.

Definition unmatched_context (req : ExecApprovalRequest) (complex : bool) : UnmatchedCommandContext := {|
  ctx_approval_policy := approval_policy req; ctx_permission_profile := permission_profile req;
  ctx_windows_sandbox_level := windows_sandbox_level req; ctx_sandbox_permissions := sandbox_permissions req;
  ctx_used_complex_parsing := complex |}.

Definition exec_policy_fallback (req : ExecApprovalRequest) (complex : bool) (cmd : list str) : Decision :=
  render_decision_for_unmatched_command linux try_parse_shell cmd (unmatched_context req complex).

(** Whether every command has a rule that allows it. *)
Definition all_allowed_by_rule (p : Policy M path) (commands : list (list str)) : bool :=
  forallb (fun cmd => existsb (rule_match_with Allow) (matches_for_command_with_options p cmd None host_options)) commands.

(** [None] is the panic of an evaluation without matches. *)
Definition create_exec_approval_requirement_for_command (p : Policy M path) (req : ExecApprovalRequest) :
    option ExecApprovalRequirement :=
  let parsed := commands_for_exec_policy try_parse_shell (command req) in
  let commands := ec_commands parsed in
  let auto_amendment_allowed := negb (used_complex_parsing parsed) in
  let fallback := exec_policy_fallback req (used_complex_parsing parsed) in
  match check_multiple_with_options p commands fallback host_options with
  | None => None
  | Some e =>
      let requested_amendment :=
        if auto_amendment_allowed
        then derive_requested_execpolicy_amendment_from_prefix_rule (req_prefix_rule req) (matched_rules e) p commands
               fallback host_options
        else None in
      Some match eval_decision e with
      | Forbidden =>
          RequirementForbidden
            (derive_forbidden_reason (command req) e (dangerous_command_match_for_heuristics e Forbidden))
      | Prompt =>
          let prompt_is_rule := existsb (rule_match_with Prompt) (matched_rules e) in
          match prompt_is_rejected_by_policy (approval_policy req) prompt_is_rule with
          | Some reason =>
              RequirementForbidden
                (if prompt_is_rule then reason
                 else derive_rejected_prompt_reason reason (dangerous_command_match_for_heuristics e Prompt))
          | None =>
              NeedsApproval (derive_prompt_reason (command req) e)
                (match requested_amendment with
                 | Some a => Some a
                 | None => if auto_amendment_allowed
                           then try_derive_execpolicy_amendment_for_prompt_rules (matched_rules e) else None
                 end)
          end
      | Allow =>
          Skip (all_allowed_by_rule p commands)
            (if auto_amendment_allowed
             then try_derive_execpolicy_amendment_for_allow_rules (matched_rules e) else None)
      end
  end.
End Manager.

(** ** Rules that users add *)

Inductive AmendError :=
| EmptyPrefix
| InvalidNetworkRule (message : str)
| SerializeError
| PolicyFileError.

Inductive ExecPolicyUpdateError :=
| AppendRule (e : AmendError)
| AddRule (e : Error).

(** [append_locked_line], on the contents of the file. *)
Definition append_locked_line (contents line : str) : str :=
  if existsb (fun existing => str_eqb existing line) (lines contents) then contents
  else contents ++ (if negb (is_empty contents) && negb (ends_with [nl] contents) then [nl] else []) ++ line ++ [nl].

(** Input and output can fail: then the file holds what is given with the error. *)
Definition append_rule_line (io : option (AmendError * str)) (contents rule : str) : result unit AmendError * str :=
  match io with
  | Some (e, contents') => (Err e, contents')
  | None => (Ok tt, append_locked_line contents rule)
  end.

Section Amendments.
Context (json_string : str -> option str) (error_text : Error -> str).

Definition prefix_rule_line (prefix : list str) : option str :=
  match mapM json_string prefix with
  | Some tokens => Some (s!"prefix_rule(pattern=[" ++ join (s!", ") tokens ++ s!"], decision=" ++ dquote ++ s!"allow" ++ dquote ++ s!")")
  | None => None
  end.

Definition blocking_append_allow_prefix_rule (io : option (AmendError * str)) (contents : str) (prefix : list str) :
    result unit AmendError * str :=
  if is_empty prefix then (Err EmptyPrefix, contents)
  else match prefix_rule_line prefix with
       | None => (Err SerializeError, contents)
       | Some rule => append_rule_line io contents rule
       end.

Definition network_decision_text (d : Decision) : str :=
  match d with Allow => s!"allow" | Prompt => s!"prompt" | Forbidden => s!"deny" end.

Definition network_rule_line (host : str) (proto : NetworkRuleProtocol) (d : Decision) (just : option str) :
    option str :=
  match mapM json_string ([host; as_policy_string proto; network_decision_text d] ++ option_list just) with
  | Some (h :: p :: dec :: rest) =>
      Some (s!"network_rule(" ++
            join (s!", ") ([s!"host=" ++ h; s!"protocol=" ++ p; s!"decision=" ++ dec] ++
                           ((fun j => s!"justification=" ++ j) <$> rest)) ++ s!")")
  | _ => None
  end.

Definition blocking_append_network_rule (io : option (AmendError * str)) (contents host : str)
    (proto : NetworkRuleProtocol) (d : Decision) (just : option str) : result unit AmendError * str :=
  match normalize_network_rule_host host with
  | Err e => (Err (InvalidNetworkRule (error_text e)), contents)
  | Ok host =>
      if match just with Some raw => is_empty (trim raw) | None => false end
      then (Err (InvalidNetworkRule (s!"justification cannot be empty")), contents)
      else match network_rule_line host proto d just with
           | None => (Err SerializeError, contents)
           | Some rule => append_rule_line io contents rule
           end
  end.

(** *** The manager: its policy and the user's rules file, updated under a lock *)

Context {M path : Type} `{!MultiMap M str RuleRef} `{!AbsolutePath path}.

Record ExecPolicyManager := { manager_policy : Policy M path; rules_file : str }.

Definition already_allowed (p : Policy M path) (cmd : list str) : bool :=
  match check_multiple_with_options p [cmd] (fun _ => Forbidden) host_options with
  | Some e => bool_decide (eval_decision e = Allow) && existsb (rule_match_with Allow) (matched_rules e)
  | None => false
  end.

Definition append_amendment_and_update (io : option (AmendError * str)) (m : ExecPolicyManager)
    (amendment : ExecPolicyAmendment) : result unit ExecPolicyUpdateError * ExecPolicyManager :=
  let (appended, file) := blocking_append_allow_prefix_rule io (rules_file m) amendment in
  match appended with
  | Err e => (Err (AppendRule e), {| manager_policy := manager_policy m; rules_file := file |})
  | Ok _ =>
      if already_allowed (manager_policy m) amendment
      then (Ok tt, {| manager_policy := manager_policy m; rules_file := file |})
      else match add_prefix_rule (manager_policy m) amendment Allow with
           | Err e => (Err (AddRule e), {| manager_policy := manager_policy m; rules_file := file |})
           | Ok updated => (Ok tt, {| manager_policy := updated; rules_file := file |})
           end
  end.

Definition append_network_rule_and_update (io : option (AmendError * str)) (m : ExecPolicyManager) (host : str)
    (proto : NetworkRuleProtocol) (d : Decision) (just : option str) :
    result unit ExecPolicyUpdateError * ExecPolicyManager :=
  let (appended, file) := blocking_append_network_rule io (rules_file m) host proto d just in
  match appended with
  | Err e => (Err (AppendRule e), {| manager_policy := manager_policy m; rules_file := file |})
  | Ok _ =>
      match add_network_rule (manager_policy m) host proto d just with
      | Err e => (Err (AddRule e), {| manager_policy := manager_policy m; rules_file := file |})
      | Ok updated => (Ok tt, {| manager_policy := updated; rules_file := file |})
      end
  end.
End Amendments.
Arguments ExecPolicyManager M path : clear implicits.

(** ** Loading the rules of all configuration layers *)

(** [config/src/config_layer_source.rs] *)
Inductive ConfigLayerSource :=
| Mdm (domain key : str)
| System (file : Path)
| EnterpriseManaged (id name : str)
| User (file : Path) (profile : option str)
| Project (dot_codex_folder : Path)
| SessionFlags
| LegacyManagedConfigTomlFromFile (file : Path)
| LegacyManagedConfigTomlFromMdm.

Record ConfigLayerEntry := { layer_name : ConfigLayerSource; layer_is_disabled : bool }.

Record ConfigLayerStack (P : Type) := {
  stack_layers : list ConfigLayerEntry;
  ignore_user_and_project_exec_policy_rules : bool;
  requirements_exec_policy : option P }.
Arguments Build_ConfigLayerStack {P}.
Arguments stack_layers {P}.
Arguments ignore_user_and_project_exec_policy_rules {P}.
Arguments requirements_exec_policy {P}.

Definition config_folder (l : ConfigLayerEntry) : option Path :=
  match layer_name l with
  | Mdm _ _ | EnterpriseManaged _ _ | SessionFlags
  | LegacyManagedConfigTomlFromFile _ | LegacyManagedConfigTomlFromMdm => None
  | System file | User file _ => parent file
  | Project dot_codex_folder => Some dot_codex_folder
  end.

Definition layers_low_to_high {P} (s : ConfigLayerStack P) : list ConfigLayerEntry :=
  filter (fun l => layer_is_disabled l = false) (stack_layers s).

Definition is_user_or_project (l : ConfigLayerEntry) : bool :=
  match layer_name l with User _ _ | Project _ => true | _ => false end.

(** [Path::extension]; a dot at the start of a name does not count. *)
Definition extension (p : Path) : option str :=
  match last p with
  | Some (Normal name) =>
      match rsplit_once (ch ".") name with
      | Some (stem, ext) => if is_empty stem then None else Some ext
      | None => None
      end
  | _ => None
  end.

(** The order of paths: by components, names by their bytes, which for UTF-8 is by
    their characters. *)
Definition component_rank (c : Component) : nat :=
  match c with RootDir => 0 | CurDir => 1 | ParentDir => 2 | Normal _ => 3 end.

Fixpoint lex_leb {A} (lt : A -> A -> bool) (eqb : A -> A -> bool) (a b : list A) : bool :=
  match a, b with
  | [], _ => true
  | _ :: _, [] => false
  | x :: a', y :: b' => lt x y || (eqb x y && lex_leb lt eqb a' b')
  end.

Definition name_leb : str -> str -> bool := lex_leb N.ltb N.eqb.

Definition component_ltb (a b : Component) : bool :=
  match a, b with
  | Normal x, Normal y => name_leb x y && negb (str_eqb x y)
  | _, _ => component_rank a <? component_rank b
  end.

Definition path_leb : Path -> Path -> bool := lex_leb component_ltb (fun a b => bool_decide (a = b)).

Fixpoint insert_path (p : Path) (l : list Path) : list Path :=
  match l with
  | [] => [p]
  | q :: l' => if path_leb p q then p :: l else q :: insert_path p l'
  end.

Definition sort_paths (l : list Path) : list Path := foldr insert_path [] l.

Definition RULES_DIR_NAME : Component := Normal (s!"rules").
Definition RULE_EXTENSION : str := s!"rules".
Definition DEFAULT_POLICY_FILE : Component := Normal (s!"default.rules").

Definition default_policy_path (codex_home : Path) : Path :=
  path_join (path_join codex_home [RULES_DIR_NAME]) [DEFAULT_POLICY_FILE].

Inductive ExecPolicyError (E : Type) :=
| ReadDirError (dir : Path)
| ReadFileError (path : Path)
| ParsePolicy (path : str) (source : E).
Arguments ReadDirError {E} dir.
Arguments ReadFileError {E} path.
Arguments ParsePolicy {E} path source.

(** What reading a directory gives: entries one by one, each with its path and
    whether it is a file; each step may fail. *)
Inductive ReadDir := DirNotFound | DirFailed | DirEntries (entries : list (option (Path * option bool))).

(** The parser of Starlark rules, from its own module. *)
Class PolicyParser (P : Type) := {
  parser : Type;
  parse_error : Type;
  parser_new : parser;
  parser_parse : parser -> str -> str -> result parser parse_error;
  parser_build : parser -> P;
}.

Section Load.
Context {M path : Type} `{!MultiMap M str RuleRef} `{!AbsolutePath path} `{!PolicyParser (Policy M path)}.
Context (read_dir : Path -> ReadDir) (read_file : Path -> option str).

Fixpoint policy_entries (dir : Path) (entries : list (option (Path * option bool))) :
    result (list Path) (ExecPolicyError parse_error) :=
  match entries with
  | [] => Ok []
  | None :: _ | Some (_, None) :: _ => Err (ReadDirError dir)
  | Some (p, Some is_file) :: rest =>
      let? paths := policy_entries dir rest in
      Ok (if bool_decide (extension p = Some RULE_EXTENSION) && is_file then p :: paths else paths)
  end.

Definition collect_policy_files (dir : Path) : result (list Path) (ExecPolicyError parse_error) :=
  match read_dir dir with
  | DirNotFound => Ok []
  | DirFailed => Err (ReadDirError dir)
  | DirEntries entries => let? paths := policy_entries dir entries in Ok (sort_paths paths)
  end.

Fixpoint layer_policy_paths (ignore : bool) (layers : list ConfigLayerEntry) :
    result (list Path) (ExecPolicyError parse_error) :=
  match layers with
  | [] => Ok []
  | layer :: layers' =>
      if ignore && is_user_or_project layer then layer_policy_paths ignore layers'
      else match config_folder layer with
           | None => layer_policy_paths ignore layers'
           | Some folder =>
               let? paths := collect_policy_files (path_join folder [RULES_DIR_NAME]) in
               let? rest := layer_policy_paths ignore layers' in
               Ok (paths ++ rest)
           end
  end.

Fixpoint parse_files (acc : parser) (paths : list Path) : result parser (ExecPolicyError parse_error) :=
  match paths with
  | [] => Ok acc
  | p :: paths' =>
      match read_file p with
      | None => Err (ReadFileError p)
      | Some contents =>
          match parser_parse acc (to_string_lossy p) contents with
          | Err e => Err (ParsePolicy (to_string_lossy p) e)
          | Ok acc' => parse_files acc' paths'
          end
      end
  end.

Definition load_exec_policy (s : ConfigLayerStack (Policy M path)) :
    result (Policy M path) (ExecPolicyError parse_error) :=
  let? paths := layer_policy_paths (ignore_user_and_project_exec_policy_rules s) (layers_low_to_high s) in
  let? parsed := parse_files parser_new paths in
  let policy := parser_build parsed in
  Ok match requirements_exec_policy s with
     | None => policy
     | Some requirements_policy => merge_overlay policy requirements_policy
     end.

Definition load_exec_policy_with_warning (s : ConfigLayerStack (Policy M path)) :
    result (Policy M path * option (ExecPolicyError parse_error)) (ExecPolicyError parse_error) :=
  match load_exec_policy s with
  | Ok policy => Ok (policy, None)
  | Err (ParsePolicy p e) => Ok (default policy_empty (requirements_exec_policy s), Some (ParsePolicy p e))
  | Err e => Err e
  end.

Definition check_execpolicy_for_warnings (s : ConfigLayerStack (Policy M path)) :
    result (option (ExecPolicyError parse_error)) (ExecPolicyError parse_error) :=
  let? loaded := load_exec_policy_with_warning s in Ok loaded.2.

Definition manager_load (s : ConfigLayerStack (Policy M path)) (file : str) :
    result (ExecPolicyManager M path) (ExecPolicyError parse_error) :=
  let? loaded := load_exec_policy_with_warning s in
  Ok {| manager_policy := loaded.1; rules_file := file |}.

Definition exec_policy_config_folders (s : ConfigLayerStack (Policy M path)) : list Path :=
  omap config_folder (layers_low_to_high s).
End Load.
