(* ===== verification/ExecApprovalFacts.v ===== *)
(** * Facts about the approval of commands

    The strictest command of a request decides; what runs without a question is
    allowed by rules or harmless; managed rules bind whatever users add; and a
    suggested rule has the effect it is suggested for. *)

From stdpp Require Import gmap.
From S2P Require Import Prelude RustStr Paths Permissions SandboxRoots PermissionProfiles ExecRule ShellParse ShellParseFacts CommandSafety CommandSafetyFacts ExecPolicy ExecApproval.

Section Policies.
Context {M path : Type} `{!MultiMap M str RuleRef} `{!MultiMapLaws M str RuleRef} `{!AbsolutePath path}.
Implicit Types p : Policy M path.

(** ** The rules that match a command *)

Definition rules_of p (cmd : list str) : list (RuleMatch path) :=
  matches_for_command_with_options p cmd None host_options.

Lemma rules_of_cases p cmd :
  rules_of p cmd = if is_empty (exact_matches p cmd) then match_host_executable_rules p cmd else exact_matches p cmd.
Proof.
  unfold rules_of, matches_for_command_with_options. rewrite non_empty_exact.
  destruct (exact_matches p cmd); simpl; [|done]. by destruct (match_host_executable_rules p cmd).
Qed.

Lemma matches_with_fallback p cmd fb :
  matches_for_command_with_options p cmd (Some fb) host_options =
  if is_empty (rules_of p cmd) then [HeuristicsRuleMatch cmd (fb cmd)] else rules_of p cmd.
Proof.
  unfold rules_of, matches_for_command_with_options. set (rules := match non_empty _ with Some _ => _ | None => _ end).
  by destruct rules.
Qed.

Lemma rule_matches_policy (rule : RuleRef) cmd (m : RuleMatch path) :
  rule_matches rule cmd = Some m -> is_policy_match m = true.
Proof. unfold rule_matches. destruct (matches_prefix _ _); [|done]. by intros [= <-]. Qed.

Lemma rules_of_policy p cmd : Forall (fun m => is_policy_match m = true) (rules_of p cmd).
Proof.
  rewrite rules_of_cases. apply Forall_forall. intros m. destruct (is_empty (exact_matches p cmd)).
  - unfold match_host_executable_rules. destruct cmd as [|f args]; [by intros ?%elem_of_nil|].
    destruct (path_try_from f) as [program|]; [|by intros ?%elem_of_nil].
    destruct (executable_path_lookup_key program) as [name|]; [|by intros ?%elem_of_nil].
    destruct (mm_get_vec _ name) as [rs|]; [|by intros ?%elem_of_nil].
    destruct (match host_executables_by_name p !! name with Some _ => _ | None => _ end); [by intros ?%elem_of_nil|].
    intros (m' & -> & (rule & _ & Hm%rule_matches_policy)%list_elem_of_omap)%list_elem_of_fmap. by destruct m'.
  - intros (rule & _ & Hm)%elem_of_exact. by eapply rule_matches_policy.
Qed.

(** The decision for one command: the strictest rule's, or the fallback's. *)
Definition command_decision p (fb : list str -> Decision) (cmd : list str) : Decision :=
  default (fb cmd) (max_decision (match_decision <$> rules_of p cmd)).

Lemma command_decision_max p fb cmd :
  max_decision (match_decision <$> matches_for_command_with_options p cmd (Some fb) host_options) =
  Some (command_decision p fb cmd).
Proof.
  rewrite matches_with_fallback. unfold command_decision. destruct (rules_of p cmd) as [|m l] eqn:E; [done|].
  cbn [is_empty]. destruct (max_decision (match_decision <$> m :: l)) eqn:Em; [done|]. by apply max_decision_None in Em.
Qed.

Lemma check_host p cmd fb :
  exists e, check_with_options p cmd fb host_options = Some e /\ eval_decision e = command_decision p fb cmd.
Proof.
  unfold check_with_options, from_matches. rewrite command_decision_max. by eexists.
Qed.

Lemma check_multiple_host p commands fb :
  commands <> [] ->
  exists e, check_multiple_with_options p commands fb host_options = Some e /\
    max_decision (command_decision p fb <$> commands) = Some (eval_decision e) /\
    matched_rules e = flat_map (fun cmd => matches_for_command_with_options p cmd (Some fb) host_options) commands.
Proof.
  intros Hne. set (ms := fun cmd => matches_for_command_with_options p cmd (Some fb) host_options).
  assert (max_decision (match_decision <$> flat_map ms commands) = max_decision (command_decision p fb <$> commands)) as E.
  { clear Hne. induction commands as [|cmd commands IH]; [done|]. cbn [flat_map]. rewrite fmap_app, max_decision_app, IH.
    unfold ms at 1. rewrite command_decision_max. rewrite fmap_cons. simpl.
    by destruct (max_decision (command_decision p fb <$> commands)). }
  unfold check_multiple_with_options, from_matches. fold ms. rewrite E.
  destruct (max_decision (command_decision p fb <$> commands)) as [d|] eqn:Ed; [by eexists|].
  apply max_decision_None, fmap_nil_inv in Ed. done.
Qed.

Lemma max_allow (ds : list Decision) : max_decision ds = Some Allow -> Forall (fun d => d = Allow) ds.
Proof.
  intros [_ H]%max_decision_Some. apply Forall_forall. intros d Hd. apply H in Hd. unfold decision_le in Hd. by destruct d; simpl in Hd; try lia.
Qed.

Lemma max_forbidden (ds : list Decision) : Forbidden ∈ ds -> max_decision ds = Some Forbidden.
Proof.
  intros H. apply max_decision_Some. split; [done|]. intros d _. unfold decision_le. destruct d; simpl; lia.
Qed.

(** ** Adding rules *)

Lemma rules_for_add p f tokens d p' k :
  add_prefix_rule p (f :: tokens) d = Ok p' ->
  rules_for p' k = rules_for p k ++ if decide (k = f) then [prefix_rule f tokens d] else [].
Proof.
  intros [= <-]. unfold rules_for. simpl. rewrite mm_get_insert.
  repeat case_decide; subst; simpl; rewrite ?app_nil_r; done.
Qed.

Lemma exact_matches_add p f tokens d p' cmd :
  add_prefix_rule p (f :: tokens) d = Ok p' ->
  exact_matches p' cmd = exact_matches p cmd ++ option_list (rule_matches (prefix_rule f tokens d) cmd).
Proof.
  intros H. unfold exact_matches. destruct cmd as [|c args].
  { done. }
  rewrite (rules_for_add _ _ _ _ _ _ H), omap_app. f_equal. case_decide as E.
  - rewrite omap_cons_eq. by destruct (rule_matches _ _).
  - unfold rule_matches. destruct (matches_prefix _ _) eqn:Em; [|done].
    assert (f :: tokens `prefix_of` c :: args) as [x Hx] by (apply (matches_prefix_singles f tokens); by eexists).
    injection Hx as -> _. done.
Qed.

Lemma exact_decision_add p prefix p' cmd :
  add_prefix_rule p prefix Allow = Ok p' -> exact_matches p cmd <> [] -> exact_decision p' cmd = exact_decision p cmd.
Proof.
  destruct prefix as [|f tokens]; [done|]. intros H Hne. unfold exact_decision.
  rewrite (exact_matches_add _ _ _ _ _ _ H), fmap_app, max_decision_app. unfold rule_matches.
  destruct (matches_prefix _ _); simpl; [|by destruct (max_decision _)].
  destruct (max_decision (match_decision <$> exact_matches p cmd)) as [d|] eqn:E; [by destruct d|].
  by apply max_decision_None, fmap_nil_inv in E.
Qed.

(** ** Rules for the host's executables *)

(** The command with the program's base name in place of its path, when the policy
    takes the path for that program. *)
Definition host_command p (cmd : list str) : option (path * list str) :=
  match cmd with
  | [] => None
  | f :: args =>
      program ← path_try_from f;
      basename ← executable_path_lookup_key program;
      if match host_executables_by_name p !! basename with
         | Some paths => negb (existsb (fun path => bool_decide (path = program)) paths)
         | None => false
         end
      then None else Some (program, basename :: args)
  end.

Lemma host_rules p cmd :
  match_host_executable_rules p cmd =
  match host_command p cmd with
  | Some (program, cmd') => (fun m => with_resolved_program m program) <$> exact_matches p cmd'
  | None => []
  end.
Proof.
  unfold match_host_executable_rules, host_command. destruct cmd as [|f args]; [done|].
  destruct (path_try_from f) as [program|]; [|done]. cbn [mbind option_bind].
  destruct (executable_path_lookup_key program) as [name|]; [|done]. cbn [mbind option_bind].
  unfold exact_matches, rules_for.
  destruct (match host_executables_by_name p !! name with Some _ => _ | None => _ end).
  - by destruct (mm_get_vec _ name).
  - by destruct (mm_get_vec _ name).
Qed.

Lemma rules_of_ne p cmd :
  rules_of p cmd <> [] <->
  exact_matches p cmd <> [] \/ exists program cmd', host_command p cmd = Some (program, cmd') /\ exact_matches p cmd' <> [].
Proof.
  rewrite rules_of_cases, host_rules. destruct (exact_matches p cmd) as [|m l] eqn:E; simpl; [|naive_solver].
  destruct (host_command p cmd) as [[program cmd']|]; [|naive_solver]. split.
  - intros H. right. exists program, cmd'. split; [done|]. by intros E'; rewrite E' in H.
  - intros [?|(q & c & [= <- <-] & H)]; [done|]. by intros ?%fmap_nil_inv.
Qed.

Lemma exact_extend p a x : a <> [] -> exact_matches p a <> [] -> exact_matches p (a ++ x) <> [].
Proof.
  intros Ha H E. destruct (exact_matches p a) as [|m l] eqn:Em; [done|].
  assert (m ∈ exact_matches p a) as (rule & Hin & Hm)%elem_of_exact by (rewrite Em; by left).
  unfold rule_matches in Hm. destruct (matches_prefix (pattern rule) a) as [pre|] eqn:Ep; [|done].
  assert (is_Some (matches_prefix (pattern rule) (a ++ x))) as [pre' Hp'].
  { apply matches_prefix_Some in Ep as (ts & args & -> & -> & Hts). exists (first (pattern rule) :: ts).
    apply matches_prefix_Some. exists ts, (args ++ x). split; [simpl; by rewrite <- app_assoc|done]. }
  assert (PrefixRuleMatch pre' (rule_decision rule) None (justification rule) ∈ exact_matches p (a ++ x)) as Hel.
  { apply elem_of_exact. exists rule. split; [by destruct a|]. unfold rule_matches. by rewrite Hp'. }
  rewrite E in Hel. by apply elem_of_nil in Hel.
Qed.

Lemma host_command_add p prefix d p' cmd : add_prefix_rule p prefix d = Ok p' -> host_command p' cmd = host_command p cmd.
Proof. destruct prefix; [done|]. by intros [= <-]. Qed.

Lemma host_command_extend p a x program a' :
  host_command p a = Some (program, a') -> host_command p (a ++ x) = Some (program, a' ++ x) /\ a' <> [].
Proof.
  unfold host_command. destruct a as [|f args]; [done|]. simpl.
  destruct (path_try_from f) as [q|]; [|done]. cbn [mbind option_bind].
  destruct (executable_path_lookup_key q) as [name|]; [|done]. cbn [mbind option_bind].
  destruct (match host_executables_by_name p !! name with Some _ => _ | None => _ end); [done|]. by intros [= <- <-].
Qed.

Lemma exact_add_new p prefix d p' cmd :
  add_prefix_rule p prefix d = Ok p' -> exact_matches p cmd = [] -> exact_matches p' cmd <> [] ->
  prefix <> [] /\ prefix `prefix_of` cmd.
Proof.
  destruct prefix as [|f tokens]; [done|]. intros H E. rewrite (exact_matches_add _ _ _ _ _ _ H), E. simpl.
  unfold rule_matches. destruct (matches_prefix _ _) eqn:Em; [|done]. intros _. split; [done|].
  apply (matches_prefix_singles f tokens). by eexists.
Qed.

(** A rule that newly reaches a command is for a prefix that no rule reached. *)
Lemma newly_matched_prefix p prefix d p' cmd :
  (forall (q : path) n, path_file_name q = Some n -> path_try_from n = None) ->
  add_prefix_rule p prefix d = Ok p' -> rules_of p cmd = [] -> rules_of p' cmd <> [] -> rules_of p prefix = [].
Proof.
  intros Hrel Hadd Hno Hyes. assert (~ rules_of p cmd <> []) as Hno' by (intros H; by rewrite Hno in H).
  rewrite rules_of_ne in Hno'. apply rules_of_ne in Hyes.
  destruct (rules_of p prefix) as [|m l] eqn:E; [done|]. exfalso.
  assert (rules_of p prefix <> []) as H by (by rewrite E). apply rules_of_ne in H.
  assert (exact_matches p cmd = []) as Ex by (destruct (exact_matches p cmd); naive_solver).
  destruct Hyes as [Hx|(q & cmd' & Hh & Hx)].
  - destruct (exact_add_new _ _ _ _ _ Hadd Ex Hx) as [Hne [x ->]].
    destruct H as [H|(q & a' & Hh & H)].
    + apply Hno'. left. by apply exact_extend.
    + destruct (host_command_extend _ _ x _ _ Hh) as [Hh' Ha']. apply Hno'. right. exists q, (a' ++ x).
      split; [done|]. by apply exact_extend.
  - rewrite (host_command_add _ _ _ _ _ Hadd) in Hh.
    assert (exact_matches p cmd' = []) as Ex' by (destruct (exact_matches p cmd') eqn:?; [done|]; exfalso; apply Hno'; right; exists q, cmd'; split; [done|congruence]).
    destruct (exact_add_new _ _ _ _ _ Hadd Ex' Hx) as [Hne [x Hpre]].
    destruct H as [H|(q' & a' & Hh' & H)].
    + apply Hno'. right. exists q, cmd'. split; [done|]. rewrite Hpre. by apply exact_extend.
    + destruct prefix as [|f tokens]; [done|]. unfold host_command in Hh. destruct cmd as [|c args]; [done|].
      destruct (path_try_from c) as [q0|]; [|done]. cbn [mbind option_bind] in Hh.
      destruct (executable_path_lookup_key q0) as [name|] eqn:En; [|done]. cbn [mbind option_bind] in Hh.
      destruct (match host_executables_by_name p !! name with Some _ => _ | None => _ end); [done|].
      injection Hh as -> <-. injection Hpre as -> _. unfold executable_path_lookup_key, executable_lookup_key in En.
      destruct (path_file_name q) as [n|] eqn:Efn; [|done]. injection En as ->.
      unfold host_command in Hh'. by rewrite (Hrel _ _ Efn) in Hh'.
Qed.

Lemma not_already_allowed p cmd : rules_of p cmd = [] -> already_allowed p cmd = false.
Proof.
  intros E. unfold already_allowed.
  destruct (check_multiple_host p [cmd] (fun _ => Forbidden)) as (e & -> & Hd & _); [done|].
  cbn in Hd. unfold command_decision in Hd. rewrite E in Hd. by injection Hd as <-.
Qed.
End Policies.

(** ** Requirements *)

Section Requirements.
Context {M path : Type} `{!MultiMap M str RuleRef} `{!MultiMapLaws M str RuleRef} `{!AbsolutePath path}.
Context (linux : bool) (try_parse_shell : str -> option Node) (shlex_try_join : list str -> option str).
Implicit Types p : Policy M path.

Abbreviation create := (create_exec_approval_requirement_for_command linux try_parse_shell shlex_try_join).

Definition parsed_commands (req : ExecApprovalRequest) : list (list str) :=
  ec_commands (commands_for_exec_policy try_parse_shell (command req)).
Definition complex (req : ExecApprovalRequest) : bool :=
  used_complex_parsing (commands_for_exec_policy try_parse_shell (command req)).
Definition heuristics (req : ExecApprovalRequest) : list str -> Decision :=
  exec_policy_fallback linux try_parse_shell req (complex req).

Lemma parsed_commands_ne req : parsed_commands req <> [].
Proof.
  unfold parsed_commands, commands_for_exec_policy.
  destruct (parse_shell_lc_plain_commands _ _) as [[|c cs]|]; [|done|];
    by destruct (parse_shell_lc_single_command_prefix _ _).
Qed.

(** The strictest decision of the parsed commands. *)
Definition strictest p req : option Decision := max_decision (command_decision p (heuristics req) <$> parsed_commands req).

(** Some rule asks. *)
Definition asked_by_rule p req : bool :=
  existsb (fun cmd => existsb (rule_match_with Prompt) (rules_of p cmd)) (parsed_commands req).

Lemma existsb_flat_map {A B} (f : B -> bool) (g : A -> list B) l :
  existsb f (flat_map g l) = existsb (fun x => existsb f (g x)) l.
Proof. induction l as [|x l IH]; [done|]. cbn [flat_map existsb]. by rewrite existsb_app, IH. Qed.

Lemma existsb_ext {A} (f g : A -> bool) l : (forall x, f x = g x) -> existsb f l = existsb g l.
Proof. intros H. induction l as [|x l IH]; [done|]. simpl. by rewrite H, IH. Qed.

(** Only rules count among the matches of a check. *)
Lemma policy_matches_only p cmd fb (f : RuleMatch path -> bool) :
  existsb (fun m => is_policy_match m && f m) (matches_for_command_with_options p cmd (Some fb) host_options) =
  existsb (fun m => is_policy_match m && f m) (rules_of p cmd).
Proof. rewrite matches_with_fallback. by destruct (rules_of p cmd). Qed.

Lemma prompt_rule_matches p req :
  existsb (rule_match_with Prompt)
    (flat_map (fun cmd => matches_for_command_with_options p cmd (Some (heuristics req)) host_options) (parsed_commands req)) =
  asked_by_rule p req.
Proof. rewrite existsb_flat_map. apply existsb_ext. intros cmd. apply policy_matches_only. Qed.

Lemma requirement_by_strictest_aux p req :
  exists r d, create p req = Some r /\ strictest p req = Some d /\
  match d with
  | Allow => exists b a, r = Skip b a
  | Forbidden => exists reason, r = RequirementForbidden reason
  | Prompt =>
      match prompt_is_rejected_by_policy (approval_policy req) (asked_by_rule p req) with
      | Some _ => exists reason, r = RequirementForbidden reason
      | None => exists reason a, r = NeedsApproval reason a
      end
  end.
Proof.
  destruct (check_multiple_host p (parsed_commands req) (heuristics req)) as (e & He & Hd & Hm);
    [apply parsed_commands_ne|].
  unfold create_exec_approval_requirement_for_command. fold (parsed_commands req). fold (complex req).
  fold (heuristics req). rewrite He. eexists _, (eval_decision e). split; [done|]. split; [done|].
  rewrite Hm, prompt_rule_matches. destruct (eval_decision e); [by eexists _, _| |by eexists].
  destruct (prompt_is_rejected_by_policy _ _); by repeat eexists.
Qed.

(** What [Skip] comes from. *)
Lemma create_skip p req bypass a :
  create p req = Some (Skip bypass a) ->
  strictest p req = Some Allow /\
  bypass = forallb (fun cmd => existsb (rule_match_with Allow) (rules_of p cmd)) (parsed_commands req).
Proof.
  destruct (check_multiple_host p (parsed_commands req) (heuristics req)) as (e & He & Hd & Hm);
    [apply parsed_commands_ne|].
  unfold create_exec_approval_requirement_for_command. fold (parsed_commands req). fold (complex req).
  fold (heuristics req). rewrite He. unfold strictest. rewrite Hd.
  destruct (eval_decision e).
  - intros H. injection H as <- _. done.
  - destruct (prompt_is_rejected_by_policy _ _); by intros H.
  - by intros H.
Qed.

Lemma allowed_by_rules p fb cmd :
  command_decision p fb cmd = Allow -> rules_of p cmd <> [] ->
  Forall (fun m => match_decision m = Allow) (rules_of p cmd) /\ existsb (rule_match_with Allow) (rules_of p cmd) = true.
Proof.
  unfold command_decision. intros H Hne. pose proof (rules_of_policy p cmd) as Hpol.
  destruct (max_decision _) as [d|] eqn:E; simpl in H.
  - subst d. apply max_allow in E. rewrite Forall_fmap in E. split; [done|].
    destruct (rules_of p cmd) as [|m l]; [done|]. apply Forall_cons in Hpol as [H1 _], E as [H2 _].
    simpl in *. unfold rule_match_with at 1. rewrite H1. unfold compose in H2. by rewrite bool_decide_true.
  - by apply max_decision_None, fmap_nil_inv in E.
Qed.

Lemma heuristics_allow req cmd :
  (forall script root, try_parse_shell script = Some root -> bash_tree root) ->
  parse_shell_script_into_commands try_parse_shell (s! "bash") = Some [[s! "bash"]] ->
  heuristics req cmd = Allow ->
  dangerous_command_match try_parse_shell cmd = None /\
  match approval_policy req with
  | UnlessTrusted => is_known_safe_command linux try_parse_shell cmd = true
  | Never => True
  | OnRequest | Granular _ =>
      kind (file_system_sandbox_policy (permission_profile req)) = Restricted ->
      requests_sandbox_override (sandbox_permissions req) = false
  end.
Proof.
  intros Hp Hb. unfold heuristics, exec_policy_fallback, render_decision_for_unmatched_command. simpl.
  rewrite !orb_false_r. destruct (is_known_safe_command linux try_parse_shell cmd) eqn:Es.
  - pose proof (safe_not_dangerous linux try_parse_shell cmd Hp Hb Es) as ->. simpl.
    destruct (approval_policy req), (negb (complex req)); simpl; try done;
      destruct (kind _); try done; by destruct (requests_sandbox_override _).
  - destruct (dangerous_command_match try_parse_shell cmd); simpl; [by destruct (approval_policy req)|].
    destruct (approval_policy req); simpl; try done; destruct (kind _); try done;
      by destruct (requests_sandbox_override _).
Qed.

(** C7: What runs without a question is harmless or allowed by rule.  Every command
    of the request is matched by rules that all allow it; or no rule mentions it,
    and then it is not dangerous, the sandbox is not skipped for the request, and
    depending on the approval policy: under [UnlessTrusted] it is a known safe
    command, under [OnRequest] and [Granular] the request does not ask for more
    than the sandbox gives when the file system is restricted.  Under [Never],
    where nobody can be asked, no more is claimed: a request for more than the
    sandbox gives is not refused at this place. *)
Theorem skipped_requests_are_harmless p req bypass a :
  (forall script root, try_parse_shell script = Some root -> bash_tree root) ->
  parse_shell_script_into_commands try_parse_shell (s! "bash") = Some [[s! "bash"]] ->
  create p req = Some (Skip bypass a) ->
  Forall (fun cmd =>
    (rules_of p cmd <> [] /\ Forall (fun m => match_decision m = Allow) (rules_of p cmd)) \/
    (rules_of p cmd = [] /\ bypass = false /\ dangerous_command_match try_parse_shell cmd = None /\
     match approval_policy req with
     | UnlessTrusted => is_known_safe_command linux try_parse_shell cmd = true
     | Never => True
     | OnRequest | Granular _ =>
         kind (file_system_sandbox_policy (permission_profile req)) = Restricted ->
         requests_sandbox_override (sandbox_permissions req) = false
     end)) (parsed_commands req).
Proof.
  intros Hp Hb [Hs ->]%create_skip. apply max_allow in Hs. rewrite Forall_fmap in Hs. rewrite Forall_forall in Hs.
  apply Forall_forall. intros cmd Hc. specialize (Hs cmd Hc). unfold compose in Hs.
  destruct (rules_of p cmd) as [|m l] eqn:E.
  - right. split; [done|]. split.
    + apply not_true_iff_false. intros Hall. rewrite forallb_forall in Hall. apply list_elem_of_In, Hall in Hc. by rewrite E in Hc.
    + apply heuristics_allow; [done..|]. unfold command_decision in Hs. by rewrite E in Hs.
  - left. split; [done|]. rewrite <- E. eapply allowed_by_rules; [done|]. by rewrite E.
Qed.

(** ** Proposed rules *)

Lemma find_map_Some {A B} (f : A -> option B) l y : find_map f l = Some y -> exists x, x ∈ l /\ f x = Some y.
Proof.
  induction l as [|x l IH]; [done|]. simpl. destruct (f x) eqn:E; [|naive_solver set_solver].
  intros [= <-]. exists x. split; [by left|done].
Qed.

Lemma heuristic_match p req cmd d :
  HeuristicsRuleMatch cmd d ∈ flat_map (fun cmd => matches_for_command_with_options p cmd (Some (heuristics req)) host_options)
    (parsed_commands req) ->
  cmd ∈ parsed_commands req /\ rules_of p cmd = [] /\ heuristics req cmd = d.
Proof.
  intros (c & Hc & Hin)%list_elem_of_In%in_flat_map. rewrite <- list_elem_of_In in Hc. rewrite <- list_elem_of_In in Hin.
  rewrite matches_with_fallback in Hin. destruct (rules_of p c) as [|m l] eqn:E; simpl in Hin.
  - apply list_elem_of_singleton in Hin as [= -> ->]. done.
  - pose proof (rules_of_policy p c) as Hp. rewrite E, Forall_forall in Hp. by apply Hp in Hin.
Qed.

(** The rule that the model asks for can be proposed: it is not empty and not
    banned, no rule mentions a command of the request, and with it every command
    would be allowed. *)
Definition usable_rule p req (a : list str) : Prop :=
  req_prefix_rule req = Some a /\ a <> [] /\ (a ∉ BANNED_PREFIX_SUGGESTIONS) /\
  (forall cmd, cmd ∈ parsed_commands req -> rules_of p cmd = []) /\
  prefix_rule_would_approve_all_commands p a (parsed_commands req) (heuristics req) host_options = true.

Lemma requested_rule_usable p req a :
  derive_requested_execpolicy_amendment_from_prefix_rule (req_prefix_rule req)
    (flat_map (fun cmd => matches_for_command_with_options p cmd (Some (heuristics req)) host_options)
       (parsed_commands req)) p (parsed_commands req) (heuristics req) host_options = Some a <->
  usable_rule p req a.
Proof.
  assert (existsb is_policy_match
    (flat_map (fun cmd => matches_for_command_with_options p cmd (Some (heuristics req)) host_options)
       (parsed_commands req)) = false <-> forall cmd, cmd ∈ parsed_commands req -> rules_of p cmd = []) as Hms.
  { rewrite existsb_flat_map, existsb_false. split; intros H cmd Hc; specialize (H cmd Hc).
    - rewrite matches_with_fallback in H. destruct (rules_of p cmd) as [|m l] eqn:E; [done|].
      pose proof (rules_of_policy p cmd) as Hp. rewrite E in Hp. apply Forall_cons in Hp as [Hp _].
      simpl in H. by rewrite Hp in H.
    - by rewrite matches_with_fallback, H. }
  assert (forall prefix, existsb (fun banned => bool_decide (prefix = banned)) BANNED_PREFIX_SUGGESTIONS = false <->
    (prefix ∉ BANNED_PREFIX_SUGGESTIONS)) as Hban.
  { intros prefix. rewrite existsb_false. split.
    - intros H Hin. specialize (H prefix Hin). by rewrite bool_decide_true in H.
    - intros H x Hx. apply bool_decide_eq_false. by intros ->. }
  unfold derive_requested_execpolicy_amendment_from_prefix_rule, usable_rule.
  destruct (req_prefix_rule req) as [prefix|]; [|split; [done|by intros [? _]]]. split.
  - destruct (is_empty prefix) eqn:E1; [done|]. apply is_empty_false in E1.
    destruct (existsb _ BANNED_PREFIX_SUGGESTIONS) eqn:E2; [done|]. apply Hban in E2.
    destruct (existsb is_policy_match _); [done|]. pose proof (proj1 Hms eq_refl) as E3.
    destruct (prefix_rule_would_approve_all_commands _ _ _ _ _) eqn:E4; [|done]. by intros [= <-].
  - intros ([= ->] & H1%is_empty_false & H2%Hban & H3%Hms & H4). by rewrite H1, H2, H3, H4.
Qed.

(** Where the rule proposed with a question comes from. *)
Lemma proposal_origin p req reason a :
  create p req = Some (NeedsApproval reason (Some a)) ->
  complex req = false /\ strictest p req = Some Prompt /\
  (usable_rule p req a \/
   (forall a', ~ usable_rule p req a') /\ a ∈ parsed_commands req /\ rules_of p a = [] /\ heuristics req a = Prompt).
Proof.
  destruct (check_multiple_host p (parsed_commands req) (heuristics req)) as (e & He & Hd & Hm);
    [apply parsed_commands_ne|].
  unfold create_exec_approval_requirement_for_command. fold (parsed_commands req). fold (complex req).
  fold (heuristics req). rewrite He. unfold strictest. rewrite Hd. destruct (eval_decision e); [by intros [=]| |by intros [=]].
  rewrite Hm. destruct (prompt_is_rejected_by_policy _ _); [done|].
  destruct (complex req); cbn [negb]; [done|]. intros H. split; [done|]. split; [done|]. injection H as _ H.
  destruct (derive_requested_execpolicy_amendment_from_prefix_rule _ _ _ _ _ _) as [a'|] eqn:Er.
  - injection H as ->. left. by apply requested_rule_usable.
  - right. split. { intros a' Ha'%requested_rule_usable. congruence. }
    unfold try_derive_execpolicy_amendment_for_prompt_rules in H. destruct (existsb _ _); [done|].
    apply find_map_Some in H as (m & Hin & Hf). destruct m as [|cmd [| |]]; try done. injection Hf as ->.
    by apply heuristic_match.
Qed.

Lemma max_decision_elem ds (d : Decision) : max_decision ds = Some d -> d ∈ ds.
Proof. by intros [H _]%max_decision_Some. Qed.

Lemma strictest_allow_skips p req : strictest p req = Some Allow -> exists b a, create p req = Some (Skip b a).
Proof.
  intros H. destruct (requirement_by_strictest_aux p req) as (r & d & Hr & Hd & Hm). rewrite H in Hd. injection Hd as <-.
  destruct Hm as (b & a & ->). by exists b, a.
Qed.
(** C29: Every request gets an answer, and the strictest of its commands decides it: a
    command is decided by the strictest rule for it, or by the heuristics when
    there is none.  All allowed, the request runs; one forbidden, it is refused;
    otherwise the user is asked, if the approval policy lets such a question
    through, and the request is refused if not. *)
Theorem requirement_by_strictest_command p req :
  exists r d, create p req = Some r /\ strictest p req = Some d /\
  match d with
  | Allow => exists b a, r = Skip b a
  | Forbidden => exists reason, r = RequirementForbidden reason
  | Prompt =>
      match prompt_is_rejected_by_policy (approval_policy req) (asked_by_rule p req) with
      | Some _ => exists reason, r = RequirementForbidden reason
      | None => exists reason a, r = NeedsApproval reason a
      end
  end.
Proof. apply requirement_by_strictest_aux. Qed.

(** *** The manager's updates *)

Context (json_string : str -> option str) (error_text : Error -> str).

Lemma append_amendment_spec io (m : ExecPolicyManager M path) a r m' :
  append_amendment_and_update json_string io m a = (r, m') ->
  manager_policy m' = manager_policy m \/
  (r = Ok tt /\ add_prefix_rule (manager_policy m) a Allow = Ok (manager_policy m')).
Proof.
  unfold append_amendment_and_update. destruct (blocking_append_allow_prefix_rule _ _ _ _) as [[[]|e] file];
    [|intros [= <- <-]; by left].
  destruct (already_allowed _ _); [intros [= <- <-]; by left|].
  destruct (add_prefix_rule _ _ _) as [p'|e] eqn:E; intros [= <- <-]; [right|left]; done.
Qed.

Lemma append_amendment_adds (m : ExecPolicyManager M path) a :
  a <> [] -> (forall t, is_Some (json_string t)) -> rules_of (manager_policy m) a = [] ->
  exists m', append_amendment_and_update json_string None m a = (Ok tt, m') /\
    add_prefix_rule (manager_policy m) a Allow = Ok (manager_policy m').
Proof.
  intros Ha Hjson Hno. unfold append_amendment_and_update, blocking_append_allow_prefix_rule.
  assert (is_empty a = false) as -> by by destruct a.
  assert (is_Some (prefix_rule_line json_string a)) as [line ->].
  { unfold prefix_rule_line. assert (is_Some (mapM json_string a)) as [ts ->]; [|by eexists].
    apply mapM_is_Some_2, Forall_forall. auto. }
  simpl. rewrite not_already_allowed by done. destruct a as [|f tokens]; [done|]. by eexists.
Qed.

Lemma added_rule_allows p prefix p' :
  add_prefix_rule p prefix Allow = Ok p' -> existsb (rule_match_with Allow) (rules_of p' prefix) = true.
Proof.
  destruct prefix as [|f tokens]; [done|]. intros H.
  assert (is_Some (matches_prefix {| first := f; rest := Single <$> tokens |} (f :: tokens))) as [pre Hp]
    by by apply matches_prefix_singles.
  assert (exact_matches p' (f :: tokens) <> []) as Hne.
  { rewrite (exact_matches_add _ _ _ _ _ _ H). unfold rule_matches. simpl pattern. rewrite Hp.
    by intros [_ ?]%app_eq_nil. }
  rewrite rules_of_cases. destruct (exact_matches p' (f :: tokens)) eqn:E; [done|]. cbn [is_empty]. rewrite <- E.
  rewrite (exact_matches_add _ _ _ _ _ _ H), existsb_app. apply orb_true_iff. right.
  unfold rule_matches. simpl pattern. by rewrite Hp.
Qed.

(** C28: A rule proposed with a question, if it is not empty, does what it is
    proposed for.  It is never proposed for a script that was only parsed in part,
    and once it is added, its prefix is allowed by rule.  When the model asked for
    a rule that is not banned, no rule mentions a command of the request and the
    rule would allow them all, then that rule is the one proposed, and the same
    request runs without a question after it has been added.  In all other cases
    the rule is the text of a command of the request that no rule mentions and
    that the heuristics asked about; other commands of the request may then still
    be asked about.  The rules file can be written, strings have a JSON form, and
    the base name of a path is not itself an absolute path. *)
Theorem proposed_rule_takes_effect p req reason a contents :
  (forall (q : path) n, path_file_name q = Some n -> path_try_from n = None) ->
  (forall t, is_Some (json_string t)) -> a <> [] ->
  create p req = Some (NeedsApproval reason (Some a)) ->
  complex req = false /\
  exists m', append_amendment_and_update json_string None {| manager_policy := p; rules_file := contents |} a = (Ok tt, m') /\
    existsb (rule_match_with Allow) (rules_of (manager_policy m') a) = true /\
    (forall a', usable_rule p req a' ->
       a = a' /\ exists b more, create (manager_policy m') req = Some (Skip b more)) /\
    ((forall a', ~ usable_rule p req a') ->
       a ∈ parsed_commands req /\ rules_of p a = [] /\ heuristics req a = Prompt).
Proof.
  intros Hrel Hjson Ha (Hc & Hs & Horigin)%proposal_origin. split; [done|].
  assert (rules_of p a = []) as Hno.
  { destruct Horigin as [(_ & _ & _ & Hall & Happ)|(_ & _ & H & _)]; [|done].
    apply max_decision_elem, list_elem_of_fmap in Hs as (cmd & Hcmd & Hin).
    unfold prefix_rule_would_approve_all_commands in Happ. destruct (add_prefix_rule p a Allow) as [p1|] eqn:Eadd; [|done].
    eapply (newly_matched_prefix p a Allow p1 cmd); try done; [by apply Hall|]. intros E1.
    rewrite forallb_forall in Happ. pose proof (Happ cmd ltac:(by apply list_elem_of_In)) as Hk.
    destruct (check_host p1 cmd (heuristics req)) as (e & He & Hd). rewrite He in Hk. apply bool_decide_eq_true in Hk.
    unfold command_decision in Hcmd, Hd. rewrite (Hall cmd Hin) in Hcmd. rewrite E1 in Hd. simpl in *. congruence. }
  destruct (append_amendment_adds {| manager_policy := p; rules_file := contents |} a) as (m' & Hm & Hadd); try done.
  exists m'. split; [done|]. split; [by eapply added_rule_allows|].
  destruct Horigin as [Hu|(Hu & H)]; [|split; [by intros a' ?%Hu|done]]. split; [|by intros ?%(fun H => H a)].
  intros a' (Ha' & _). destruct Hu as (Hpre & _ & _ & _ & Happ). split; [congruence|]. apply strictest_allow_skips.
  unfold prefix_rule_would_approve_all_commands in Happ. simpl in Hadd. rewrite Hadd in Happ.
  rewrite forallb_forall in Happ. unfold strictest. apply max_decision_Some.
  assert (forall cmd, cmd ∈ parsed_commands req -> command_decision (manager_policy m') (heuristics req) cmd = Allow) as Hall.
  { intros cmd Hin%list_elem_of_In%Happ. destruct (check_host (manager_policy m') cmd (heuristics req)) as (e & He & Hd).
    rewrite He in Hin. apply bool_decide_eq_true in Hin. congruence. }
  split; [|intros d (cmd & -> & Hin)%list_elem_of_fmap; rewrite Hall by done; unfold decision_le; lia].
  apply list_elem_of_fmap. destruct (parsed_commands req) as [|c cs] eqn:Ep; [by apply parsed_commands_ne in Ep|].
  exists c. split; [symmetry; apply Hall|]; by left.
Qed.

(** ** Managed rules *)

(** Changes of the manager while it runs, whatever the file system does. *)
Inductive update : ExecPolicyManager M path -> ExecPolicyManager M path -> Prop :=
| update_amendment io m a r m' : append_amendment_and_update json_string io m a = (r, m') -> update m m'
| update_network io m host proto d just r m' :
    append_network_rule_and_update json_string error_text io m host proto d just = (r, m') -> update m m'.

Lemma exact_decision_ne p cmd d : exact_decision p cmd = Some d -> exact_matches p cmd <> [].
Proof. unfold exact_decision. intros H E. by rewrite E in H. Qed.

Lemma update_keeps m m' cmd d :
  update m m' -> exact_decision (manager_policy m) cmd = Some d -> exact_decision (manager_policy m') cmd = Some d.
Proof.
  intros Hu Hd. destruct Hu as [io m a r m' H|io m host proto dec just r m' H].
  - apply append_amendment_spec in H as [->|[_ Hadd]]; [done|]. rewrite <- Hd.
    eapply exact_decision_add; [done|]. by eapply exact_decision_ne.
  - unfold append_network_rule_and_update in H. destruct (blocking_append_network_rule _ _ _ _ _ _ _ _) as [[[]|e] file];
      [|by injection H as <- <-].
    destruct (add_network_rule _ _ _ _ _) as [p'|e] eqn:E; injection H as <- <-; [|done]. simpl.
    unfold add_network_rule in E. destruct (normalize_network_rule_host host) as [h|e]; [|done]. cbn [result_bind] in E.
    destruct (match just with Some raw => _ | None => false end); [done|]. by injection E as <-.
Qed.

Lemma updates_keep m m' cmd d :
  rtc update m m' -> exact_decision (manager_policy m) cmd = Some d -> exact_decision (manager_policy m') cmd = Some d.
Proof. induction 1; eauto using update_keeps. Qed.

Context `{!PolicyParser (Policy M path)} (read_dir : Path -> ReadDir) (read_file : Path -> option str).

Lemma load_keeps_requirements (s : ConfigLayerStack (Policy M path)) file m rp cmd d :
  manager_load read_dir read_file s file = Ok m -> requirements_exec_policy s = Some rp ->
  exact_decision rp cmd = Some d ->
  exists d', exact_decision (manager_policy m) cmd = Some d' /\ decision_le d d'.
Proof.
  unfold manager_load, load_exec_policy_with_warning, load_exec_policy. intros H Hr Hd. rewrite Hr in H.
  destruct (layer_policy_paths _ _ _) as [paths|e]; cbn [result_bind] in H.
  - destruct (parse_files _ _ _) as [parsed|e]; cbn [result_bind] in H.
    + injection H as <-. simpl. rewrite exact_decision_merge, Hd.
      destruct (exact_decision (parser_build parsed) cmd) as [d0|]; simpl; [|exists d; split; [done|unfold decision_le; lia]].
      exists (decision_max d0 d). split; [done|]. apply decision_max_ub.
    + destruct e; cbn [result_bind] in H; try done. injection H as <-. simpl. exists d. split; [done|unfold decision_le; lia].
  - destruct e; cbn [result_bind] in H; try done. injection H as <-. simpl. exists d. split; [done|unfold decision_le; lia].
Qed.

Lemma command_decision_exact p fb cmd d : exact_decision p cmd = Some d -> command_decision p fb cmd = d.
Proof.
  intros H. unfold command_decision. rewrite rules_of_cases. pose proof (exact_decision_ne _ _ _ H) as Hne.
  unfold exact_decision in H. destruct (exact_matches p cmd); [done|]. cbn [is_empty]. by rewrite H.
Qed.

(** C12: The rules of the managed configuration hold for the whole session for the
    commands they match by their first word as it stands: however the other rules
    files read, parse or fail to, and whatever rules users add afterwards, a
    request with a command that a managed rule forbids is refused, and one with a
    command that a managed rule asks about never runs without a question.  A
    command given by the path of a program that only a rule for its base name
    matches is not covered: there a user's rule for the path takes precedence
    (see [path_rule_shadows_forbidden_name]). *)
Theorem managed_rules_always_bind (s : ConfigLayerStack (Policy M path)) file m0 m rp req cmd d :
  manager_load read_dir read_file s file = Ok m0 -> requirements_exec_policy s = Some rp -> rtc update m0 m ->
  cmd ∈ parsed_commands req -> exact_decision rp cmd = Some d ->
  match d with
  | Forbidden => exists reason, create (manager_policy m) req = Some (RequirementForbidden reason)
  | Prompt => forall b a, create (manager_policy m) req <> Some (Skip b a)
  | Allow => True
  end.
Proof.
  intros Hl Hr Hu Hin Hd. destruct (load_keeps_requirements _ _ _ _ _ _ Hl Hr Hd) as (d' & Hd' & Hle).
  pose proof (updates_keep _ _ _ _ Hu Hd') as Hm. apply (command_decision_exact _ (heuristics req)) in Hm.
  assert (d' ∈ command_decision (manager_policy m) (heuristics req) <$> parsed_commands req) as Hel.
  { rewrite <- Hm. by apply list_elem_of_fmap_2. }
  destruct d; [done| |].
  - intros b a [Hs _]%create_skip. apply max_allow in Hs. rewrite Forall_forall in Hs. apply Hs in Hel as ->.
    unfold decision_le in Hle. simpl in Hle. lia.
  - assert (d' = Forbidden) as -> by (unfold decision_le in Hle; destruct d'; simpl in Hle; [lia..|done]).
    apply max_forbidden in Hel. destruct (requirement_by_strictest_aux (manager_policy m) req) as (r & d & Hc & Hs & Hr').
    unfold strictest in Hs. rewrite Hel in Hs. injection Hs as <-. destruct Hr' as (reason & ->). by exists reason.
Qed.
End Requirements.

(** ** Instances *)

Definition no_quoting (_ : list str) : option str := None.
Definition quoted (t : str) : option str := Some (dquote ++ t ++ dquote).
Definition no_shell (_ : str) : option Node := None.

Definition restricted_profile : PermissionProfile := Managed (ManagedRestricted [new_entry (Special Root) Read] None) NetRestricted.

Definition ask (cmd : list str) (prefix : option (list str)) (sp : SandboxPermissions) : ExecApprovalRequest := {|
  command := cmd; approval_policy := OnRequest; permission_profile := restricted_profile;
  windows_sandbox_level := WinDisabled; sandbox_permissions := sp; req_prefix_rule := prefix |}.

Abbreviation sample_create := (create_exec_approval_requirement_for_command (M := Concrete.rules) (path := str) true parse_words no_quoting).

Lemma str_file_names (q : str) n : path_file_name q = Some n -> path_try_from (AbsolutePath := Concrete.str_path) n = None.
Proof.
  intros H. cbn [path_try_from path_file_name Concrete.str_path] in *. change (s! "/") with [ch "/"].
  rewrite starts_with_free; [done|]. pose proof (split_on_pieces (ch "/") q) as Hp. rewrite Forall_forall in Hp.
  apply Hp. rewrite last_lookup in H. by eapply list_elem_of_lookup_2.
Qed.

Lemma skipped_requests_are_harmless_witness :
  exists cmd, cmd ∈ parsed_commands parse_words (ask [s!"bash"; s!"-lc"; s!"ls -l"] None UseDefault) /\
    dangerous_command_match parse_words cmd = None.
Proof.
  pose proof (skipped_requests_are_harmless true parse_words no_quoting (Concrete.git_rule Forbidden)
    (ask [s!"bash"; s!"-lc"; s!"ls -l"] None UseDefault) false (Some [s!"ls"; s!"-l"]) parse_words_bash eq_refl eq_refl) as H.
  exists [s!"ls"; s!"-l"]. split; [by left|]. apply Forall_cons in H as [[[H _]|(_ & _ & H & _)] _]; [|exact H].
  exfalso. apply H. reflexivity.
Defined.

Lemma proposed_rule_takes_effect_witness :
  exists m', append_amendment_and_update quoted None {| manager_policy := Concrete.git_rule Forbidden; rules_file := [] |}
    [s!"make"] = (Ok tt, m') /\
  exists b more, sample_create (manager_policy m') (ask [s!"make"; s!"all"] (Some [s!"make"]) RequireEscalated)
    = Some (Skip b more).
Proof.
  destruct (proposed_rule_takes_effect true parse_words no_quoting quoted (Concrete.git_rule Forbidden)
    (ask [s!"make"; s!"all"] (Some [s!"make"]) RequireEscalated) None [s!"make"] []) as (_ & m' & H & _ & Hu & _).
  - exact str_file_names.
  - intros t. by eexists.
  - done.
  - reflexivity.
  - exists m'. split; [exact H|]. apply (Hu [s!"make"]). apply requested_rule_usable. reflexivity.
Defined.

(** A parser that refuses every file. *)
#[local] Instance broken_parser : PolicyParser (Policy Concrete.rules str) := {|
  parser := unit; parse_error := unit; parser_new := tt;
  parser_parse _ _ _ := Err tt; parser_build _ := policy_empty |}.

Definition managed_stack : ConfigLayerStack (Policy Concrete.rules str) := {|
  stack_layers := [{| layer_name := User (p! "/home/me/.codex/config.toml") None; layer_is_disabled := false |}];
  ignore_user_and_project_exec_policy_rules := false;
  requirements_exec_policy := Some (Concrete.git_rule Forbidden) |}.

Definition one_rules_file (dir : Path) : ReadDir := DirEntries [Some (dir ++ [Normal (s!"my.rules")], Some true)].

Definition managed_start : ExecPolicyManager Concrete.rules str :=
  {| manager_policy := Concrete.git_rule Forbidden; rules_file := [] |}.
Definition managed_later : ExecPolicyManager Concrete.rules str :=
  (append_amendment_and_update quoted None managed_start [s!"git"; s!"push"]).2.

Lemma managed_rules_always_bind_witness :
  exists reason,
    manager_load one_rules_file (fun _ => Some (s!"garbage")) managed_stack [] = Ok managed_start /\
    sample_create (manager_policy managed_later) (ask [s!"git"; s!"push"] None UseDefault) = Some (RequirementForbidden reason).
Proof.
  destruct (managed_rules_always_bind true parse_words no_quoting quoted (fun _ => []) one_rules_file
    (fun _ => Some (s!"garbage")) managed_stack [] managed_start managed_later (Concrete.git_rule Forbidden)
    (ask [s!"git"; s!"push"] None UseDefault) [s!"git"; s!"push"] Forbidden) as [reason H].
  - reflexivity.
  - reflexivity.
  - apply rtc_once. apply (update_amendment quoted (fun _ => []) None managed_start [s!"git"; s!"push"] (Ok tt)). reflexivity.
  - by left.
  - reflexivity.
  - exists reason. split; [reflexivity|exact H].
Defined.

(** ** Rules for executables can be shadowed *)

(** A rule forbids [git push].  Running [/usr/bin/git fetch] with a suggested rule for
    [/usr/bin/git] proposes that rule, which is not among the banned ones; once
    it is added, [/usr/bin/git push] runs outside the sandbox without a
    question, since rules for the name are not looked at when one for the path
    matches. *)
Example path_rule_shadows_forbidden_name :
  let p := Concrete.git_rule Forbidden in
  let git := s!"/usr/bin/git" in
  let push := ask [git; s!"push"] None UseDefault in
  (exists reason, sample_create p push = Some (RequirementForbidden reason)) /\
  sample_create p (ask [git; s!"fetch"] (Some [git]) RequireEscalated) = Some (NeedsApproval None (Some [git])) /\
  exists m, append_amendment_and_update quoted None {| manager_policy := p; rules_file := [] |} [git] = (Ok tt, m) /\
    sample_create (manager_policy m) push = Some (Skip true None).
Proof. split; [eexists; reflexivity|]. split; [reflexivity|]. eexists. split; reflexivity. Qed.

Example rules_file_example :
  append_locked_line (s!"a") (s!"b") = s!"a" ++ [nl] ++ s!"b" ++ [nl] /\
  append_locked_line (s!"a" ++ [nl]) (s!"a") = s!"a" ++ [nl].
Proof. split; reflexivity. Qed.
