(* ===== verification/ToolOrchestrator.v ===== *)
(** * Running tools: [core/src/tools/orchestrator.rs], [sandboxing.rs], [approvals.rs]

    A tool call is approved if it has to be, tried in the sandbox that the
    permissions ask for, and perhaps tried again without one.  What comes from
    outside, the answers of hooks, of the automatic reviewer and of the user and
    the outcome of an attempt, is an [Environment]: functions of everything that
    happened before in the call.  A run gives its result and that history.
    Telemetry is left out. *)

From stdpp Require Import gmap.
From S2P Require Import Prelude.
From S2P Require Import RustStr.
From S2P Require Import Paths.
From S2P Require Import Permissions.
From S2P Require Import SandboxRoots.
From S2P Require Import PermissionProfiles.
From S2P Require Import ExecRule.
From S2P Require Import ExecPolicy.
From S2P Require Import ShellParse.
From S2P Require Import CommandSafety.
From S2P Require Import ExecApproval.

(** ** Data *)

(** [protocol/src/protocol.rs] and [approvals.rs] *)
Inductive NetworkPolicyRuleAction := ActionAllow | ActionDeny.

Inductive ReviewDecision :=
| Approved
| ApprovedExecpolicyAmendment (proposed : ExecPolicyAmendment)
| ApprovedForSession
| NetworkPolicyAmendment (host : str) (action : NetworkPolicyRuleAction)
| Denied (rejection : str)
| TimedOut
| Aborted.

Inductive NetworkApprovalProtocol := NetHttp | NetHttps | NetSocks5Tcp | NetSocks5Udp.
Record NetworkApprovalContext := { nac_host : str; nac_protocol : NetworkApprovalProtocol }.

Record NetworkPolicyDecisionPayload := {
  is_ask_from_decider : bool; payload_protocol : option NetworkApprovalProtocol; payload_host : option str }.

Definition network_approval_context_from_payload (p : NetworkPolicyDecisionPayload) : option NetworkApprovalContext :=
  if negb (is_ask_from_decider p) then None
  else match payload_protocol p, payload_host p with
       | Some protocol, Some host =>
           let host := trim host in
           if is_empty host then None else Some {| nac_host := host; nac_protocol := protocol |}
       | _, _ => None
       end.

Inductive CodexErr :=
| SandboxDenied (network_policy_decision : option NetworkPolicyDecisionPayload)
| SandboxTimeout
| SandboxSignal
| OtherError (message : str).

Inductive ToolError := Rejected (reason : str) | Codex (e : CodexErr).

Inductive SandboxablePreference := Auto | Required | Forbid.

Inductive SandboxOverride := NoOverride | BypassSandboxFirstAttempt.

(** [SandboxType] with its [None] as no sandbox. *)
Record SandboxAttempt := {
  at_sandbox : option SandboxType;
  sandbox_requested : bool;
  at_permissions : PermissionProfile;
  enforce_managed_network : bool;
  at_linux_sandbox_exe : option Path;
}.

Record ApprovalRequestReasons := { approval_reason : option str; retry_reason : option str }.

Definition no_reasons : ApprovalRequestReasons := {| approval_reason := None; retry_reason := None |}.

Record ApprovalCtx := { ctx_reasons : ApprovalRequestReasons; ctx_network : option NetworkApprovalContext }.

Inductive ApprovalReviewer := Guardian | UserReviewer.
Inductive ApprovalResolutionSource := FromHook | FromGuardian | FromUser.

Inductive PermissionRequestDecision := HookAllow | HookDeny (message : str).

Inductive NetworkApprovalMode := Immediate | Deferred.

(** What happens in a call: approvals that were asked for, with the answer, and
    attempts. *)
Inductive Event :=
| Resolved (source : ApprovalResolutionSource) (ctx : ApprovalCtx) (decision : ReviewDecision)
| Attempted (attempt : SandboxAttempt).

Record Environment (Out : Type) := {
  permission_hooks : list Event -> ApprovalCtx -> option PermissionRequestDecision;
  (** the action that the automatic reviewer is shown may fail to build *)
  guardian_review : list Event -> ApprovalCtx -> option ReviewDecision;
  user_review : list Event -> ApprovalCtx -> ReviewDecision;
  begin_network_approval : list Event -> bool -> result (option NetworkApprovalMode) ToolError;
  finish_network_approval : list Event -> result unit ToolError;
  tool_run : list Event -> SandboxAttempt -> result Out ToolError;
}.
Arguments permission_hooks {Out}.
Arguments guardian_review {Out}.
Arguments user_review {Out}.
Arguments begin_network_approval {Out}.
Arguments finish_network_approval {Out}.
Arguments tool_run {Out}.

(** The traits [Approvable], [Sandboxable] and [ToolRuntime], for one request. *)
Record ToolRuntime := {
  exec_approval_requirement : option ExecApprovalRequirement;
  tool_sandbox_permissions : SandboxPermissions;
  sandbox_preference : SandboxablePreference;
  escalate_on_failure : bool;
  wants_no_sandbox_approval : AskForApproval -> bool;
  should_bypass_approval : AskForApproval -> bool -> bool;
  has_permission_request_payload : bool;
  workspace_roots : list Path;
}.

(** The default methods. *)
Definition default_should_bypass_approval (policy : AskForApproval) (already_approved : bool) : bool :=
  already_approved || match policy with Never => true | _ => false end.

Definition default_wants_no_sandbox_approval (policy : AskForApproval) : bool :=
  match policy with
  | UnlessTrusted => true
  | Never | OnRequest => false
  | Granular config => sandbox_approval config
  end.

Record TurnContext := {
  turn_permission_profile : PermissionProfile;
  turn_workspace_roots : list Path;
  turn_network : bool;
  turn_windows_sandbox_level : WindowsSandboxLevel;
  turn_auto_review : bool;
  turn_linux_sandbox_exe : option Path;
  strict_auto_review : bool;
}.

(** ** Sandboxes ([sandboxing.rs], [sandboxing/src/manager.rs]) *)

Definition default_exec_approval_requirement (policy : AskForApproval) (fs : FileSystemSandboxPolicy) :
    ExecApprovalRequirement :=
  let needs_approval :=
    match policy with
    | Never => false
    | OnRequest | Granular _ => match kind fs with Restricted => true | _ => false end
    | UnlessTrusted => true
    end in
  if needs_approval && match policy with Granular config => negb (sandbox_approval config) | _ => false end
  then RequirementForbidden (s!"approval policy disallowed sandbox approval prompt")
  else if needs_approval then NeedsApproval None None
  else Skip false None.

Definition unsandboxed_execution_allowed (fs : FileSystemSandboxPolicy) : bool :=
  negb (has_denied_read_restrictions fs).

Definition sandbox_override_for_first_attempt (sp : SandboxPermissions) (r : ExecApprovalRequirement)
    (fs : FileSystemSandboxPolicy) : SandboxOverride :=
  if negb (unsandboxed_execution_allowed fs) then NoOverride
  else match r with
       | Skip true _ => BypassSandboxFirstAttempt
       | _ => if requires_escalated_permissions sp then BypassSandboxFirstAttempt else NoOverride
       end.

Definition sandbox_permissions_preserving_denied_reads (sp : SandboxPermissions) (fs : FileSystemSandboxPolicy) :
    SandboxPermissions :=
  if requires_escalated_permissions sp && negb (unsandboxed_execution_allowed fs) then UseDefault else sp.

Definition managed_network_for_sandbox_permissions {A} (network : option A) (sp : SandboxPermissions) : option A :=
  if requires_escalated_permissions sp then None else network.

Definition should_sandbox (profile : PermissionProfile) (pref : SandboxablePreference) (managed_network : bool) : bool :=
  match pref with
  | Forbid => false
  | Required => true
  | Auto =>
      let (fs, network) := to_runtime_permissions profile in
      should_require_platform_sandbox fs network managed_network
  end.

Definition select_initial (os : TargetOs) (profile : PermissionProfile) (pref : SandboxablePreference)
    (level : WindowsSandboxLevel) (managed_network : bool) : option SandboxType :=
  if should_sandbox profile pref managed_network
  then get_platform_sandbox os (match level with WinDisabled => false | _ => true end)
  else None.

(** ** Approvals ([approvals.rs]) *)

Definition GUARDIAN_TIMEOUT_INSTRUCTIONS : str :=
  s!"The automatic permission approval review did not finish before its deadline. Do not assume the action is unsafe based on the timeout alone. You may retry once, or ask the user for guidance or explicit approval.".

Definition into_tool_result (source : ApprovalResolutionSource) (d : ReviewDecision) : result ReviewDecision ToolError :=
  match d with
  | NetworkPolicyAmendment _ ActionDeny =>
      Err (Rejected match source with
                    | FromHook => s!"rejected by configuration"
                    | FromGuardian => s!"automatic approval review denied the action"
                    | FromUser => s!"rejected by user"
                    end)
  | Denied rejection => Err (Rejected rejection)
  | TimedOut => Err (Rejected GUARDIAN_TIMEOUT_INSTRUCTIONS)
  | Aborted => Err (Rejected (s!"approval request aborted"))
  | decision => Ok decision
  end.

Definition routes_approval_policy_to_guardian (policy : AskForApproval) (auto_review : bool) : bool :=
  match policy with OnRequest | Granular _ => true | _ => false end && auto_review.

Definition reviewer_for_turn (policy : AskForApproval) (turn : TurnContext) : ApprovalReviewer :=
  if routes_approval_policy_to_guardian policy (turn_auto_review turn) then Guardian else UserReviewer.

Section Orchestrator.
Context `{Host} (os : TargetOs) {Out : Type} (env : Environment Out).

(** The history with the answer at its end. *)
Definition resolve_with (h : list Event) (source : ApprovalResolutionSource) (ctx : ApprovalCtx) (d : ReviewDecision) :
    result ReviewDecision ToolError * list Event :=
  (into_tool_result source d, h ++ [Resolved source ctx d]).

Definition resolve_tool_approval (tool : ToolRuntime) (ctx : ApprovalCtx) (reviewer : ApprovalReviewer)
    (h : list Event) : result ReviewDecision ToolError * list Event :=
  let hook := if has_permission_request_payload tool then permission_hooks env h ctx else None in
  match hook with
  | Some HookAllow => resolve_with h FromHook ctx Approved
  | Some (HookDeny message) => resolve_with h FromHook ctx (Denied message)
  | None =>
      match reviewer with
      | Guardian =>
          match guardian_review env h ctx with
          | None => resolve_with h FromGuardian ctx (Denied (s!"automatic approval review could not prepare the action"))
          | Some d => resolve_with h FromGuardian ctx d
          end
      | UserReviewer => resolve_with h FromUser ctx (user_review env h ctx)
      end
  end.

(** ** The orchestrator ([orchestrator.rs]) *)

Definition run_attempt (attempt : SandboxAttempt) (managed_network_active : bool) (h : list Event) :
    result Out ToolError * list Event :=
  match begin_network_approval env h managed_network_active with
  | Err e => (Err e, h)
  | Ok network_approval =>
      let run_result := tool_run env h attempt in
      let h1 := h ++ [Attempted attempt] in
      let finish := match finish_network_approval env h1 with Err e => Err e | Ok _ => run_result end in
      match network_approval with
      | None => (run_result, h1)
      | Some Immediate => (finish, h1)
      | Some Deferred => (match run_result with Err _ => finish | Ok _ => run_result end, h1)
      end
  end.

Definition build_denial_reason_from_output : str := s!"command failed; retry without sandbox?".

(** The approval stage: whether the call may go on, and whether it was approved. *)
Definition approve_first (tool : ToolRuntime) (turn : TurnContext) (policy : AskForApproval)
    (requirement : ExecApprovalRequirement) (h : list Event) : result bool ToolError * list Event :=
  match requirement with
  | Skip _ _ =>
      if strict_auto_review turn then
        match resolve_tool_approval tool {| ctx_reasons := no_reasons; ctx_network := None |} Guardian h with
        | (Ok _, h1) => (Ok true, h1)
        | (Err e, h1) => (Err e, h1)
        end
      else (Ok false, h)
  | RequirementForbidden reason => (Err (Rejected reason), h)
  | NeedsApproval reason _ =>
      match resolve_tool_approval tool
              {| ctx_reasons := {| approval_reason := reason; retry_reason := None |}; ctx_network := None |}
              (if strict_auto_review turn then Guardian else reviewer_for_turn policy turn) h with
      | (Ok _, h1) => (Ok true, h1)
      | (Err e, h1) => (Err e, h1)
      end
  end.

(** After a denial by the sandbox. *)
Definition retry (tool : ToolRuntime) (turn : TurnContext) (policy : AskForApproval)
    (requirement : ExecApprovalRequirement) (permissions : PermissionProfile) (already_approved : bool)
    (decision : option NetworkPolicyDecisionPayload) (h : list Event) : result Out ToolError * list Event :=
  let fs := file_system_sandbox_policy permissions in
  let denied := Err (Codex (SandboxDenied decision)) in
  let network_approval_context :=
    if turn_network turn then decision ≫= network_approval_context_from_payload else None in
  let has_context := match network_approval_context with Some _ => true | None => false end in
  if match decision with Some _ => true | None => false end && negb has_context then (denied, h)
  else if negb (escalate_on_failure tool) then (denied, h)
  else
    let unsandboxed_allowed := unsandboxed_execution_allowed fs in
    let allow_on_request_network_prompt :=
      match policy with OnRequest => true | _ => false end && has_context &&
      match default_exec_approval_requirement policy fs with NeedsApproval _ _ => true | _ => false end in
    if negb (wants_no_sandbox_approval tool policy) && negb allow_on_request_network_prompt then (denied, h)
    else if negb unsandboxed_allowed && negb has_context then (denied, h)
    else
      let reason := match network_approval_context with
                    | Some c => s!"Network access to " ++ dquote ++ nac_host c ++ dquote ++ s!" is blocked by policy."
                    | None => build_denial_reason_from_output
                    end in
      let bypass_retry_approval :=
        negb (strict_auto_review turn) && should_bypass_approval tool policy already_approved && negb has_context in
      let approval :=
        if bypass_retry_approval then (Ok tt, h)
        else
          let approval_reason := match requirement with NeedsApproval r _ => r | _ => None end in
          match resolve_tool_approval tool
                  {| ctx_reasons := {| approval_reason := approval_reason; retry_reason := Some reason |};
                     ctx_network := network_approval_context |}
                  (if strict_auto_review turn then Guardian else reviewer_for_turn policy turn) h with
          | (Ok _, h1) => (Ok tt, h1)
          | (Err e, h1) => (Err e, h1)
          end in
      match approval with
      | (Err e, h1) => (Err e, h1)
      | (Ok _, h1) =>
          let retry_sandbox_requested :=
            negb unsandboxed_allowed && should_sandbox permissions (sandbox_preference tool) (turn_network turn) in
          run_attempt
            {| at_sandbox := if retry_sandbox_requested
                             then select_initial os permissions (sandbox_preference tool)
                                    (turn_windows_sandbox_level turn) (turn_network turn)
                             else None;
               sandbox_requested := retry_sandbox_requested;
               at_permissions := permissions;
               enforce_managed_network := turn_network turn;
               at_linux_sandbox_exe := if unsandboxed_allowed then None else turn_linux_sandbox_exe turn |}
            (turn_network turn) h1
      end.

Definition first_attempt (tool : ToolRuntime) (turn : TurnContext) (requirement : ExecApprovalRequirement)
    (permissions : PermissionProfile) : SandboxAttempt :=
  let requested :=
    match sandbox_override_for_first_attempt (tool_sandbox_permissions tool) requirement
            (file_system_sandbox_policy permissions) with
    | BypassSandboxFirstAttempt => false
    | NoOverride => should_sandbox permissions (sandbox_preference tool) (turn_network turn)
    end in
  {| at_sandbox := if requested
                   then select_initial os permissions (sandbox_preference tool)
                          (turn_windows_sandbox_level turn) (turn_network turn)
                   else None;
     sandbox_requested := requested;
     at_permissions := permissions;
     enforce_managed_network := turn_network turn;
     at_linux_sandbox_exe := turn_linux_sandbox_exe turn |}.

(** [None] is the panic of materialising a profile that is not managed. *)
Definition orchestrator_run (tool : ToolRuntime) (turn : TurnContext) (policy : AskForApproval) :
    option (result Out ToolError * list Event) :=
  match profile_materialize_project_roots (turn_permission_profile turn) (workspace_roots tool) with
  | None => None
  | Some permissions =>
      let requirement :=
        default (default_exec_approval_requirement policy (file_system_sandbox_policy permissions))
          (exec_approval_requirement tool) in
      Some match approve_first tool turn policy requirement [] with
      | (Err e, h) => (Err e, h)
      | (Ok already_approved, h) =>
          let (first_result, h1) := run_attempt (first_attempt tool turn requirement permissions) (turn_network turn) h in
          match first_result with
          | Err (Codex (SandboxDenied decision)) =>
              retry tool turn policy requirement permissions already_approved decision h1
          | other => (other, h1)
          end
      end
  end.
End Orchestrator.

(** * Facts about running tools

    A refused approval ends a call, and an attempt without the sandbox that the
    permissions ask for has been approved, allowed by rule or needed no
    approval, and never happens while reads are denied. *)

Section Runs.
Context `{Host} (os : TargetOs) {Out : Type} (env : Environment Out).

(** ** Stages *)

Definition granted (s : ApprovalResolutionSource) (d : ReviewDecision) : Prop := is_ok (into_tool_result s d) = true.

Lemma resolve_inv tool ctx reviewer h res h' :
  resolve_tool_approval env tool ctx reviewer h = (res, h') ->
  exists s d, h' = h ++ [Resolved s ctx d] /\ res = into_tool_result s d.
Proof.
  unfold resolve_tool_approval, resolve_with.
  destruct (if has_permission_request_payload tool then _ else _) as [[|message]|]; [by intros [= <- <-]; eauto..|].
  destruct reviewer; [destruct (guardian_review env h ctx)|]; by intros [= <- <-]; eauto.
Qed.

(** An approval that was asked for at the end of a history: it was given, or the
    call ends with its error. *)
Definition asked (h h' : list Event) (e : option ToolError) : Prop :=
  exists s c d, h' = h ++ [Resolved s c d] /\
    match e with None => granted s d | Some e => into_tool_result s d = Err e end.

Lemma approve_first_inv tool turn policy r h res h' :
  approve_first env tool turn policy r h = (res, h') ->
  match res with
  | Ok false => h' = h /\ strict_auto_review turn = false /\ exists b a, r = Skip b a
  | Ok true => asked h h' None
  | Err e => asked h h' (Some e) \/ (h' = h /\ exists reason, r = RequirementForbidden reason /\ e = Rejected reason)
  end.
Proof.
  unfold approve_first. destruct r as [b a|reason a|reason].
  - destruct (strict_auto_review turn); [|by intros [= <- <-]; eauto].
    destruct (resolve_tool_approval _ _ _ _ _) as [[d|e] h1] eqn:E; intros [= <- <-];
      apply resolve_inv in E as (s & d0 & -> & E2); [|left]; exists s; repeat eexists; [|done]. unfold granted. by rewrite <- E2.
  - destruct (resolve_tool_approval _ _ _ _ _) as [[d|e] h1] eqn:E; intros [= <- <-];
      apply resolve_inv in E as (s & d0 & -> & E2); [|left]; exists s; repeat eexists; [|done]. unfold granted. by rewrite <- E2.
  - intros [= <- <-]. right. eauto.
Qed.

Lemma run_attempt_inv attempt net h res h' :
  run_attempt env attempt net h = (res, h') -> (h' = h /\ exists e, res = Err e) \/ h' = h ++ [Attempted attempt].
Proof.
  unfold run_attempt. destruct (begin_network_approval env h net) as [mode|e]; [|intros [= <- <-]; eauto].
  destruct mode as [[|]|]; intros [= _ <-]; by right.
Qed.

(** The attempt of a retry. *)
Definition retry_attempt (tool : ToolRuntime) (turn : TurnContext) (permissions : PermissionProfile) : SandboxAttempt :=
  let allowed := unsandboxed_execution_allowed (file_system_sandbox_policy permissions) in
  let requested := negb allowed && should_sandbox permissions (sandbox_preference tool) (turn_network turn) in
  {| at_sandbox := if requested then select_initial os permissions (sandbox_preference tool)
                                       (turn_windows_sandbox_level turn) (turn_network turn) else None;
     sandbox_requested := requested; at_permissions := permissions; enforce_managed_network := turn_network turn;
     at_linux_sandbox_exe := if allowed then None else turn_linux_sandbox_exe turn |}.

Lemma retry_inv tool turn policy r permissions approved decision h res h' :
  retry os env tool turn policy r permissions approved decision h = (res, h') ->
  (h' = h /\ res = Err (Codex (SandboxDenied decision))) \/
  (exists e, asked h h' (Some e) /\ res = Err e) \/
  exists h1, run_attempt env (retry_attempt tool turn permissions) (turn_network turn) h1 = (res, h') /\
    ((h1 = h /\ strict_auto_review turn = false /\ should_bypass_approval tool policy approved = true /\
      wants_no_sandbox_approval tool policy = true) \/
     asked h h1 None).
Proof.
  unfold retry. set (ctx := if turn_network turn then _ else _).
  set (has := match ctx with Some _ => true | None => false end).
  destruct (match decision with Some _ => true | None => false end && negb has); [by intros [= <- <-]; left|].
  destruct (negb (escalate_on_failure tool)); [by intros [= <- <-]; left|].
  set (prompt := match policy with OnRequest => true | _ => false end && has && _).
  destruct (negb (wants_no_sandbox_approval tool policy) && negb prompt) eqn:Ew; [by intros [= <- <-]; left|].
  destruct (negb (unsandboxed_execution_allowed _) && negb has); [by intros [= <- <-]; left|].
  destruct (negb (strict_auto_review turn) && should_bypass_approval tool policy approved && negb has) eqn:Eb.
  - intros Hr. right. right. exists h. split; [exact Hr|]. left. rewrite !andb_true_iff, !negb_true_iff in Eb.
    destruct Eb as [[Hs Hb] Hh]. repeat (split; [done|]). rewrite andb_false_iff, !negb_false_iff in Ew.
    destruct Ew as [Ew|Ew]; [done|]. unfold prompt in Ew. rewrite Hh in Ew. by rewrite andb_false_r in Ew.
  - destruct (resolve_tool_approval _ _ _ _ _) as [[d|e] h1] eqn:E; apply resolve_inv in E as (s & d0 & -> & E2).
    + intros Hr. right. right. eexists. split; [exact Hr|]. right. exists s. repeat eexists. unfold granted. by rewrite <- E2.
    + intros [= <- <-]. right. left. exists e. split; [|done]. exists s. by repeat eexists.
Qed.

(** ** Whole calls *)

(** The parts of a run that did not panic. *)
Lemma orchestrator_run_inv tool turn policy res h :
  orchestrator_run os env tool turn policy = Some (res, h) ->
  exists permissions r,
    profile_materialize_project_roots (turn_permission_profile turn) (workspace_roots tool) = Some permissions /\
    r = default (default_exec_approval_requirement policy (file_system_sandbox_policy permissions))
          (exec_approval_requirement tool) /\
    ((exists e, approve_first env tool turn policy r [] = (Err e, h) /\ res = Err e) \/
     exists approved h0 first_result h1,
       approve_first env tool turn policy r [] = (Ok approved, h0) /\
       run_attempt env (first_attempt os tool turn r permissions) (turn_network turn) h0 = (first_result, h1) /\
       ((first_result = res /\ h = h1 /\ forall decision, res <> Err (Codex (SandboxDenied decision))) \/
        exists decision, first_result = Err (Codex (SandboxDenied decision)) /\
          retry os env tool turn policy r permissions approved decision h1 = (res, h))).
Proof.
  unfold orchestrator_run. destruct (profile_materialize_project_roots _ _) as [permissions|]; [|done].
  intros Hrun. injection Hrun as Hrun. eexists permissions, _. split; [done|]. split; [done|].
  destruct (approve_first _ _ _ _ _ _) as [[approved|e] h0] eqn:Ea; [right|left; injection Hrun as <- <-; eauto].
  destruct (run_attempt _ _ _ _) as [first_result h1] eqn:Er. exists approved, h0, first_result, h1.
  split; [done|]. split; [done|].
  destruct first_result as [out|[reason|[decision| | |message]]]; try (left; by injection Hrun as <- <-).
  right. eauto.
Qed.

(** At most one event. *)
Definition one_approval (l : list Event) (res : result Out ToolError) (rest : list Event) : Prop :=
  exists s c d, l = [Resolved s c d] /\
    (granted s d \/ exists e, into_tool_result s d = Err e /\ res = Err e /\ rest = []).

(** The history of a call: perhaps an approval, the first attempt, perhaps a second
    approval, perhaps a second attempt; a refusal is the last of it. *)
Lemma run_shape tool turn policy res h :
  orchestrator_run os env tool turn policy = Some (res, h) ->
  exists permissions r A F R S,
    profile_materialize_project_roots (turn_permission_profile turn) (workspace_roots tool) = Some permissions /\
    r = default (default_exec_approval_requirement policy (file_system_sandbox_policy permissions))
          (exec_approval_requirement tool) /\
    h = A ++ F ++ R ++ S /\
    (one_approval A res (F ++ R ++ S) \/
     A = [] /\ ((exists b a, r = Skip b a) \/ (exists reason, r = RequirementForbidden reason /\ F ++ R ++ S = []))) /\
    (F = [] \/ F = [Attempted (first_attempt os tool turn r permissions)]) /\
    (R = [] \/ one_approval R res S) /\
    (S = [] \/ S = [Attempted (retry_attempt tool turn permissions)] /\
       (R <> [] \/ wants_no_sandbox_approval tool policy = true /\
          should_bypass_approval tool policy (negb (is_empty A)) = true)).
Proof.
  intros (permissions & r & Hp & Hr & Hcases)%orchestrator_run_inv. exists permissions, r.
  assert (forall rest h' e, asked [] h' (Some e) -> res = Err e -> rest = [] -> one_approval h' res rest) as Hrefuse.
  { intros rest h' e (s & c & d & -> & He) -> ->. exists s, c, d. split; [done|]. right. eauto. }
  assert (forall h' rest, asked [] h' None -> one_approval h' res rest) as Hgrant.
  { intros h' rest (s & c & d & -> & Hg). exists s, c, d. split; [done|]. by left. }
  destruct Hcases as [(e & Ha & ->)|(approved & h0 & fr & h1 & Ha & Hf & Hrest)]; apply approve_first_inv in Ha.
  { exists h, [], [], []. rewrite !app_nil_r. do 3 (split; [done|]). split; [|by auto].
    destruct Ha as [Ha|(-> & reason & Hrf & ->)]; [left; by eapply Hrefuse|right]. split; [done|]. right. by exists reason. }
  apply run_attempt_inv in Hf.
  assert (exists F, h1 = h0 ++ F /\ (F = [] \/ F = [Attempted (first_attempt os tool turn r permissions)])) as (F & -> & HF).
  { destruct Hf as [(-> & _)| ->]; [exists []; by rewrite app_nil_r; auto|eexists; eauto]. }
  assert (forall rest, (one_approval h0 res rest \/ h0 = [] /\ ((exists b a, r = Skip b a) \/
    (exists reason, r = RequirementForbidden reason /\ rest = []))) /\ approved = negb (is_empty h0)) as HA.
  { intros rest. destruct approved.
    - split; [left; by apply Hgrant|]. destruct Ha as (s & c & d & -> & _). done.
    - destruct Ha as (-> & _ & Hs). split; [right; auto|done]. }
  destruct Hrest as [(_ & -> & _)|(decision & _ & Hretry)].
  { exists h0, F, [], []. rewrite !app_nil_r. do 3 (split; [done|]). split; [apply HA|]. auto. }
  apply retry_inv in Hretry as [(-> & _)|[(e & (s & c & d & -> & He) & ->)|(h2 & Hrun & Happ)]].
  - exists h0, F, [], []. rewrite !app_nil_r. do 3 (split; [done|]). split; [apply HA|]. auto.
  - exists h0, F, [Resolved s c d], []. rewrite app_nil_r, <- app_assoc. do 3 (split; [done|]). split; [apply HA|].
    split; [done|]. split; [|by left]. right. exists s, c, d. split; [done|]. right. eauto.
  - assert (exists S, h = h2 ++ S /\ (S = [] \/ S = [Attempted (retry_attempt tool turn permissions)])) as (S & -> & HS).
    { apply run_attempt_inv in Hrun as [(-> & _)| ->]; [exists []; by rewrite app_nil_r; auto|eexists; eauto]. }
    destruct Happ as [(-> & _ & Hb & Hw)|(s & c & d & -> & Hg)].
    + exists h0, F, [], S. rewrite <- app_assoc. do 3 (split; [done|]). split; [apply HA|]. split; [done|]. split; [by left|].
      destruct HS as [->| ->]; [by left|right]. split; [done|]. right. split; [done|]. by rewrite <- (proj2 (HA [])).
    + exists h0, F, [Resolved s c d], S. rewrite <- !app_assoc. do 3 (split; [done|]). split; [apply HA|]. split; [done|].
      split; [right; exists s, c, d; by auto|]. destruct HS as [->| ->]; [by left|right]. split; [done|]. by left.
Qed.

(** *** Attempts *)

Lemma one_approval_granted l res rest :
  one_approval l res rest -> rest <> [] -> exists s c d, l = [Resolved s c d] /\ granted s d.
Proof. intros (s & c & d & -> & [Hg|(e & _ & _ & ->)]) Hr; [eauto|done]. Qed.

Lemma first_attempt_unsandboxed tool turn r permissions :
  sandbox_requested (first_attempt os tool turn r permissions) = false ->
  should_sandbox permissions (sandbox_preference tool) (turn_network turn) = true ->
  has_denied_read_restrictions (file_system_sandbox_policy permissions) = false /\
  ((exists a, r = Skip true a) \/ requires_escalated_permissions (tool_sandbox_permissions tool) = true).
Proof.
  unfold first_attempt. simpl. intros Hr Hs. rewrite Hs in Hr. unfold sandbox_override_for_first_attempt in Hr.
  unfold unsandboxed_execution_allowed in Hr. rewrite negb_involutive in Hr.
  destruct (has_denied_read_restrictions _); [done|]. split; [done|].
  destruct r as [[|] a|reason a|reason]; eauto; right; by destruct (requires_escalated_permissions _).
Qed.

Lemma retry_attempt_unsandboxed tool turn permissions :
  sandbox_requested (retry_attempt tool turn permissions) = false ->
  should_sandbox permissions (sandbox_preference tool) (turn_network turn) = true ->
  has_denied_read_restrictions (file_system_sandbox_policy permissions) = false.
Proof.
  unfold retry_attempt, unsandboxed_execution_allowed. simpl. intros Hr Hs. rewrite Hs, andb_true_r, negb_involutive in Hr. done.
Qed.

(** An approval was granted earlier in the history. *)
Definition approved_before (h : list Event) (i : nat) : Prop :=
  exists j s c d, j < i /\ h !! j = Some (Resolved s c d) /\ granted s d.

Lemma unsandboxed_attempt tool turn policy res h i attempt :
  should_bypass_approval tool = default_should_bypass_approval -> wants_no_sandbox_approval tool Never = false ->
  orchestrator_run os env tool turn policy = Some (res, h) -> h !! i = Some (Attempted attempt) ->
  sandbox_requested attempt = false ->
  should_sandbox (at_permissions attempt) (sandbox_preference tool) (turn_network turn) = true ->
  has_denied_read_restrictions (file_system_sandbox_policy (at_permissions attempt)) = false /\
  (approved_before h i \/
   exists r, r = default (default_exec_approval_requirement policy (file_system_sandbox_policy (at_permissions attempt)))
                (exec_approval_requirement tool) /\
     ((exists a, r = Skip true a) \/
      ((exists b a, r = Skip b a) /\ requires_escalated_permissions (tool_sandbox_permissions tool) = true))).
Proof.
  intros Hb Hw (permissions & r & A & F & R & S & _ & Hr & -> & HA & HF & HR & HS)%run_shape Hi Hreq Hs.
  assert (forall s c d rest k, A = [Resolved s c d] -> granted s d -> k > 0 -> approved_before (A ++ rest) k) as Hearly.
  { intros s c d rest k -> Hg Hk. exists 0, s, c, d. by split; [lia|]. }
  assert (attempt = first_attempt os tool turn r permissions /\ F = [Attempted attempt] /\ i = length A \/
          attempt = retry_attempt tool turn permissions /\ S = [Attempted attempt] /\ i = length A + length F + length R)
    as [(-> & EF & ->)|(-> & ES & ->)].
  { apply lookup_app_Some in Hi as [Hi|[Hle Hi]].
    { destruct HA as [(s & c & d & -> & _)|(-> & _)]; [by apply list_lookup_singleton_Some in Hi as [_ ?]|done]. }
    apply lookup_app_Some in Hi as [Hi|[Hle2 Hi]].
    { left. destruct HF as [->| ->]; [done|]. apply list_lookup_singleton_Some in Hi as [Hi [= <-]].
      split; [done|]. split; [done|]. lia. }
    apply lookup_app_Some in Hi as [Hi|[Hle3 Hi]].
    { destruct HR as [->|(s & c & d & -> & _)]; [done|by apply list_lookup_singleton_Some in Hi as [_ ?]]. }
    right. destruct HS as [->|(-> & _)]; [done|]. apply list_lookup_singleton_Some in Hi as [Hi [= <-]].
    split; [done|]. split; [done|]. lia. }
  - simpl in Hs. destruct (first_attempt_unsandboxed _ _ _ _ Hreq Hs) as [Hden Hwhy]. simpl. split; [done|].
    destruct HA as [HA|(-> & [(b & a & Hskip)|(reason & _ & E)])].
    + left. destruct (one_approval_granted _ _ _ HA) as (s & c & d & EA & Hg); [by rewrite EF|].
      eapply Hearly; [done..|]. rewrite EA. simpl. lia.
    + right. exists r. split; [done|]. destruct Hwhy as [?|He]; [by left|right]. eauto.
    + by rewrite EF in E.
  - simpl in Hs. pose proof (retry_attempt_unsandboxed _ _ _ Hreq Hs) as Hden. simpl. split; [done|]. left.
    destruct HS as [->|(_ & [HRne|[Hwant Hbyp]])]; [done| |].
    + destruct HR as [->|HR]; [done|]. destruct (one_approval_granted _ _ _ HR) as (s & c & d & -> & Hg); [by rewrite ES|].
      exists (length A + length F), s, c, d. split; [simpl; lia|]. split; [|done].
      rewrite lookup_app_r by lia. rewrite lookup_app_r by lia. by replace (length A + length F - length A - length F) with 0 by lia.
    + rewrite Hb in Hbyp. unfold default_should_bypass_approval in Hbyp.
      assert (is_empty A = false) as HAne.
      { destruct (is_empty A); [|done]. destruct policy; try done. by rewrite Hw in Hwant. }
      destruct HA as [HA|(-> & _)]; [|done]. destruct (one_approval_granted _ _ _ HA) as (s & c & d & EA & Hg).
      { rewrite ES. by destruct F, R. }
      eapply Hearly; [done..|]. rewrite EA. simpl. lia.
Qed.

(** *** Refusals *)

Definition is_attempt (e : Event) : bool := match e with Attempted _ => true | Resolved _ _ _ => false end.

Lemma one_approval_refused l res rest j s c d e :
  one_approval l res rest -> l !! j = Some (Resolved s c d) -> into_tool_result s d = Err e ->
  res = Err e /\ rest = [] /\ length l = S j.
Proof.
  intros (s' & c' & d' & -> & Hcase) [-> [= -> -> ->]]%list_lookup_singleton_Some He.
  destruct Hcase as [Hg|(e' & He' & -> & ->)]; [unfold granted in Hg; by rewrite He in Hg|].
  rewrite He in He'. by injection He' as ->.
Qed.

(** C30: A refusal ends a call: a forbidden call makes no attempt and asks nobody, a
    refused approval is the last thing that happens and its reason is the
    result, and there are never more than two attempts. *)
Theorem refusal_ends_the_call tool turn policy res h :
  orchestrator_run os env tool turn policy = Some (res, h) ->
  (forall reason, exec_approval_requirement tool = Some (RequirementForbidden reason) ->
     res = Err (Rejected reason) /\ h = []) /\
  (forall i s c d e, h !! i = Some (Resolved s c d) -> into_tool_result s d = Err e -> res = Err e /\ length h = S i) /\
  length (filter (fun e => is_attempt e = true) h) <= 2.
Proof.
  intros Hrun. split; [|split].
  - intros reason Hf. apply orchestrator_run_inv in Hrun as (permissions & r & _ & Hr & Hcases). rewrite Hf in Hr. simpl in Hr. subst r.
    simpl in Hcases. destruct Hcases as [(e & [= <- <-] & ->)|(approved & h0 & fr & h1 & [=] & _)]. done.
  - intros i s c d e Hi He. apply run_shape in Hrun as (permissions & r & A & F & R & S & _ & _ & -> & HA & HF & HR & HS).
    apply lookup_app_Some in Hi as [Hi|[Hle Hi]].
    { destruct HA as [HA|(-> & _)]; [|done]. destruct (one_approval_refused _ _ _ _ _ _ _ _ HA Hi He) as (-> & E & Hl).
      split; [done|]. by rewrite E, app_nil_r. }
    apply lookup_app_Some in Hi as [Hi|[Hle2 Hi]].
    { destruct HF as [->| ->]; [done|by apply list_lookup_singleton_Some in Hi as [_ ?]]. }
    apply lookup_app_Some in Hi as [Hi|[Hle3 Hi]].
    { destruct HR as [->|HR]; [done|]. destruct (one_approval_refused _ _ _ _ _ _ _ _ HR Hi He) as (-> & -> & Hl).
      split; [done|]. rewrite !length_app, Hl. simpl. lia. }
    destruct HS as [->|(-> & _)]; [done|by apply list_lookup_singleton_Some in Hi as [_ ?]].
  - apply run_shape in Hrun as (permissions & r & A & F & R & S & _ & _ & -> & HA & HF & HR & HS).
    assert (forall l rest, one_approval l res rest \/ l = [] -> length (filter (fun e => is_attempt e = true) l) = 0) as Hz.
    { intros l rest [(s & c & d & -> & _)| ->]; [|done]. rewrite filter_cons_False; done. }
    rewrite !filter_app, !length_app, (Hz A (F ++ R ++ S)), (Hz R S); [|naive_solver..].
    destruct HF as [->| ->], HS as [->|(-> & _)]; rewrite ?filter_cons_True by done; simpl; lia.
Qed.
End Runs.
