(* ===== verification/ShellTool.v ===== *)
(** * The shell tool: [core/src/tools/handlers/shell.rs], [handlers/mod.rs],
      [runtimes/shell.rs], [command_canonicalization.rs]

    What happens to a command that the model asks for, from the permissions it
    asks for to its run: permissions that were granted before are added, requests
    that the approval policy does not admit are turned away, the exec policy
    gives the requirement, and the orchestrator runs it.  A command that turns
    out to be a patch is taken out on the way; what becomes of it is an argument. *)

From stdpp Require Import gmap.
From S2P Require Import Prelude.
From S2P Require Import RustStr.
From S2P Require Import Paths.
From S2P Require Import Permissions.
From S2P Require Import SandboxRoots.
From S2P Require Import PermissionProfiles.
From S2P Require Import ExecRule.
From S2P Require Import ExecPolicy.
From S2P Require Import ShellParse.
From S2P Require Import ShellParseFacts.
From S2P Require Import CommandSafety.
From S2P Require Import CommandSafetyFacts.
From S2P Require Import ExecApproval.
From S2P Require Import ExecApprovalFacts.
From S2P Require Import ToolOrchestrator.

(** ** Permissions of a call ([handlers/mod.rs]) *)

#[global] Instance NetworkPermissions_eq_dec : EqDecision NetworkPermissions.
Proof. solve_decision. Defined.
#[global] Instance FileSystemPermissions_eq_dec : EqDecision FileSystemPermissions.
Proof. solve_decision. Defined.
#[global] Instance AdditionalPermissionProfile_eq_dec : EqDecision AdditionalPermissionProfile.
Proof. solve_decision. Defined.

(** The texts that the model gets, without their wording. *)
Inductive FunctionCallError :=
| JustificationNeedsPermissions
| AdditionalPermissionsDisabled
| AdditionalPermissionsNeedOnRequest
| MissingAdditionalPermissions
| InvalidAdditionalPermissions (e : NormalizeError)
| EmptyAdditionalPermissions
| AdditionalPermissionsNotRequested
| EscalationNotAllowed (policy : AskForApproval)
| PatchError.

Definition resolve_sandbox_permissions (sp : option SandboxPermissions) (justification : option str) :
    result SandboxPermissions FunctionCallError :=
  match justification, sp with
  | Some _, None => Err JustificationNeedsPermissions
  | _, _ => Ok (default UseDefault sp)
  end.

Record EffectiveAdditionalPermissions := {
  eff_sandbox_permissions : SandboxPermissions;
  eff_additional_permissions : option AdditionalPermissionProfile;
  permissions_preapproved : bool;
}.

Definition implicit_granted_permissions (sp : SandboxPermissions) (additional : option AdditionalPermissionProfile)
    (eff : EffectiveAdditionalPermissions) : option AdditionalPermissionProfile :=
  if negb (uses_additional_permissions sp) && negb (requires_escalated_permissions sp) &&
     match additional with None => true | Some _ => false end
  then eff_additional_permissions eff else None.

Section Permissions.
Context `{Host} (build_glob : str -> result GlobMatcher str).

Definition normalize_and_validate_additional_permissions (allowed : bool) (policy : AskForApproval)
    (sp : SandboxPermissions) (additional : option AdditionalPermissionProfile) (preapproved : bool) :
    result (option AdditionalPermissionProfile) FunctionCallError :=
  let uses := uses_additional_permissions sp in
  let given := match additional with Some _ => true | None => false end in
  if negb preapproved && negb allowed && (uses || given) then Err AdditionalPermissionsDisabled
  else if uses then
    if negb preapproved && match policy with OnRequest => false | _ => true end
    then Err AdditionalPermissionsNeedOnRequest
    else match additional with
         | None => Err MissingAdditionalPermissions
         | Some a =>
             match normalize_additional_permissions a with
             | Err e => Err (InvalidAdditionalPermissions e)
             | Ok normalized =>
                 if additional_is_empty normalized then Err EmptyAdditionalPermissions else Ok (Some normalized)
             end
         end
  else if given then Err AdditionalPermissionsNotRequested else Ok None.

(** [None] is a panic of the glob matcher, here and below. *)
Definition permissions_are_preapproved (effective granted : AdditionalPermissionProfile) (cwd : Path) : option bool :=
  materialized ← intersect_permission_profiles build_glob effective effective cwd;
  within ← intersect_permission_profiles build_glob effective granted cwd;
  Some (bool_decide (within = materialized)).

Definition apply_granted_turn_permissions (granted_session granted_turn : option AdditionalPermissionProfile)
    (cwd : Path) (sp : SandboxPermissions) (additional : option AdditionalPermissionProfile) :
    option EffectiveAdditionalPermissions :=
  if requires_escalated_permissions sp
  then Some {| eff_sandbox_permissions := sp; eff_additional_permissions := additional; permissions_preapproved := false |}
  else
    let granted := merge_permission_profiles granted_session granted_turn in
    let effective := merge_permission_profiles additional granted in
    preapproved ← match effective, granted with
                  | Some effective, Some granted => permissions_are_preapproved effective granted cwd
                  | _, _ => Some false
                  end;
    Some {| eff_sandbox_permissions :=
              if match effective with Some _ => true | None => false end && negb (uses_additional_permissions sp)
              then WithAdditionalPermissions else sp;
            eff_additional_permissions := effective; permissions_preapproved := preapproved |}.
End Permissions.

(** ** Commands as keys of approvals ([command_canonicalization.rs]) *)

Section Approvals.
Context (try_parse_shell : str -> option Node) (extract_powershell_command : list str -> option (str * str)).

Definition CANONICAL_BASH_SCRIPT_PREFIX : str := s!"__codex_shell_script__".
Definition CANONICAL_POWERSHELL_SCRIPT_PREFIX : str := s!"__codex_powershell_script__".

Definition canonicalize_command_for_approval (command : list str) : list str :=
  let script_key :=
    match extract_bash_command command with
    | Some (_, script) => [CANONICAL_BASH_SCRIPT_PREFIX; default [] (command !! 1); script]
    | None =>
        match extract_powershell_command command with
        | Some (_, script) => [CANONICAL_POWERSHELL_SCRIPT_PREFIX; script]
        | None => command
        end
    end in
  match parse_shell_lc_plain_commands try_parse_shell command with
  | Some [single_command] => single_command
  | _ => script_key
  end.

(** [ApprovalKey] of the shell runtime. *)
Record ApprovalKey := {
  key_environment_id : str;
  key_command : list str;
  key_cwd : Path;
  key_sandbox_permissions : SandboxPermissions;
  key_additional_permissions : option AdditionalPermissionProfile;
}.

Definition shell_approval_keys (environment_id : str) (command : list str) (cwd : Path) (sp : SandboxPermissions)
    (additional : option AdditionalPermissionProfile) : list ApprovalKey :=
  [{| key_environment_id := environment_id; key_command := canonicalize_command_for_approval command;
      key_cwd := cwd; key_sandbox_permissions := sp; key_additional_permissions := additional |}].
End Approvals.

(** ** Approvals for the session ([sandboxing.rs]) *)

Section Store.
Context {K : Type} (to_json : K -> option str).

Abbreviation ApprovalStore := (gmap str ReviewDecision).

Definition store_get (store : ApprovalStore) (key : K) : option ReviewDecision :=
  match to_json key with Some s => store !! s | None => None end.

Definition store_put (store : ApprovalStore) (key : K) (value : ReviewDecision) : ApprovalStore :=
  match to_json key with Some s => <[s := value]> store | None => store end.

Definition is_session_approval (d : option ReviewDecision) : bool :=
  match d with Some ApprovedForSession => true | _ => false end.

(** The decision, the store afterwards and whether the question was asked;
    [answer] is what the user says if so. *)
Definition with_cached_approval (store : ApprovalStore) (keys : list K) (answer : ReviewDecision) :
    ReviewDecision * ApprovalStore * bool :=
  if is_empty keys then (answer, store, true)
  else if forallb (fun key => is_session_approval (store_get store key)) keys
  then (ApprovedForSession, store, false)
  else (answer,
        match answer with
        | ApprovedForSession => fold_left (fun st key => store_put st key ApprovedForSession) keys store
        | _ => store
        end, true).
End Store.

(** ** The handler ([handlers/shell.rs]) and the runtime ([runtimes/shell.rs]) *)

Record ShellCall := {
  call_command : list str;
  call_cwd : Path;
  call_sandbox_permissions : SandboxPermissions;
  call_additional_permissions : option AdditionalPermissionProfile;
  call_prefix_rule : option (list str);
  call_workspace_roots : list Path;
}.

(** What the handler asks of the session and the turn. *)
Record SessionState := {
  exec_permission_approvals_enabled : bool;
  request_permissions_tool_enabled : bool;
  granted_session_permissions : option AdditionalPermissionProfile;
  granted_turn_permissions : option AdditionalPermissionProfile;
}.

Definition shell_runtime (requirement : ExecApprovalRequirement) (sp : SandboxPermissions) (roots : list Path) :
    ToolRuntime := {|
  exec_approval_requirement := Some requirement;
  tool_sandbox_permissions := sp;
  sandbox_preference := Auto;
  escalate_on_failure := true;
  wants_no_sandbox_approval := default_wants_no_sandbox_approval;
  should_bypass_approval := default_should_bypass_approval;
  has_permission_request_payload := true;
  workspace_roots := roots |}.

Inductive ShellOutcome (Out : Type) :=
| TurnedAway (e : FunctionCallError)
| PatchApplied
| Ran (result : result Out ToolError) (history : list Event).
Arguments TurnedAway {Out} e.
Arguments PatchApplied {Out}.
Arguments Ran {Out} result history.

Section Shell.
Context `{Host} (build_glob : str -> result GlobMatcher str).
Context {M path : Type} `{!MultiMap M str RuleRef} `{!AbsolutePath path}.
Context (os : TargetOs) (linux : bool) (try_parse_shell : str -> option Node) (shlex_try_join : list str -> option str).
Context {Out : Type} (env : Environment Out).

Definition requests_unapproved_override (eff : EffectiveAdditionalPermissions) (policy : AskForApproval) : bool :=
  requests_sandbox_override (eff_sandbox_permissions eff) && negb (permissions_preapproved eff) &&
  match policy with OnRequest => false | _ => true end.

(** [TurnContext::permission_profile]: the profile with the workspace roots of the
    configuration filled in. *)
Definition effective_profile (turn : TurnContext) : option PermissionProfile :=
  profile_materialize_project_roots (turn_permission_profile turn) (turn_workspace_roots turn).

(** The request that the handler puts to the exec policy. *)
Definition approval_request (call : ShellCall) (turn : TurnContext) (policy : AskForApproval)
    (eff : EffectiveAdditionalPermissions) : option ExecApprovalRequest :=
  profile ← effective_profile turn;
  Some {|
    command := call_command call;
    approval_policy := policy;
    permission_profile := profile;
    windows_sandbox_level := turn_windows_sandbox_level turn;
    sandbox_permissions := if permissions_preapproved eff then UseDefault else eff_sandbox_permissions eff;
    req_prefix_rule := call_prefix_rule call |}.

Definition run_exec_like (p : Policy M path) (session : SessionState) (turn : TurnContext) (policy : AskForApproval)
    (intercepted : option (result unit FunctionCallError)) (call : ShellCall) : option (ShellOutcome Out) :=
  eff ← apply_granted_turn_permissions build_glob (granted_session_permissions session) (granted_turn_permissions session)
          (call_cwd call) (call_sandbox_permissions call) (call_additional_permissions call);
  let allowed := exec_permission_approvals_enabled session ||
                 (request_permissions_tool_enabled session && permissions_preapproved eff) in
  let normalized :=
    match implicit_granted_permissions (call_sandbox_permissions call) (call_additional_permissions call) eff with
    | Some permissions => Ok (Some permissions)
    | None =>
        normalize_and_validate_additional_permissions allowed policy (eff_sandbox_permissions eff)
          (eff_additional_permissions eff) (permissions_preapproved eff)
    end in
  match normalized with
  | Err e => Some (TurnedAway e)
  | Ok _ =>
      if requests_unapproved_override eff policy then Some (TurnedAway (EscalationNotAllowed policy))
      else match intercepted with
           | Some (Ok _) => Some PatchApplied
           | Some (Err e) => Some (TurnedAway e)
           | None =>
               request ← approval_request call turn policy eff;
               requirement ← create_exec_approval_requirement_for_command linux try_parse_shell shlex_try_join p
                               request;
               ran ← orchestrator_run os env
                       (shell_runtime requirement (eff_sandbox_permissions eff) (call_workspace_roots call)) turn policy;
               Some (Ran ran.1 ran.2)
           end
  end.
End Shell.

(** * Facts about the shell tool

    From the model's request to the attempt: a command leaves the sandbox that
    the permissions ask for only when somebody approved it, rules allow all of
    it, or it asked to and nothing of the file system is protected. *)

Section Shell.
Context `{Host} (build_glob : str -> result GlobMatcher str).
Context {M path : Type} `{!MultiMap M str RuleRef} `{!MultiMapLaws M str RuleRef} `{!AbsolutePath path}.
Context (os : TargetOs) (linux : bool) (try_parse_shell : str -> option Node) (shlex_try_join : list str -> option str).
Context {Out : Type} (env : Environment Out).
Implicit Types p : Policy M path.

(** Only a call that asks for escalation gets it, and it is never approved in advance. *)
Lemma escalation_comes_from_the_call gs gt cwd sp additional eff :
  apply_granted_turn_permissions build_glob gs gt cwd sp additional = Some eff ->
  requires_escalated_permissions (eff_sandbox_permissions eff) = true ->
  sp = RequireEscalated /\ permissions_preapproved eff = false.
Proof.
  unfold apply_granted_turn_permissions. destruct (requires_escalated_permissions sp) eqn:E.
  - intros [= <-] _. by destruct sp.
  - destruct (merge_permission_profiles additional _) as [effective|]; cbn [andb].
    + destruct (match merge_permission_profiles gs gt with Some _ => _ | None => _ end); intros Heff; [|done].
      injection Heff as <-. by destruct sp.
    + intros [= <-]. by destruct sp.
Qed.

Lemma run_exec_like_inv p session turn policy intercepted call res h :
  run_exec_like build_glob os linux try_parse_shell shlex_try_join env p session turn policy intercepted call
    = Some (Ran res h) ->
  exists eff request requirement,
    apply_granted_turn_permissions build_glob (granted_session_permissions session) (granted_turn_permissions session)
      (call_cwd call) (call_sandbox_permissions call) (call_additional_permissions call) = Some eff /\
    requests_unapproved_override eff policy = false /\
    approval_request call turn policy eff = Some request /\
    create_exec_approval_requirement_for_command linux try_parse_shell shlex_try_join p request = Some requirement /\
    orchestrator_run os env
      (shell_runtime requirement (eff_sandbox_permissions eff) (call_workspace_roots call)) turn policy = Some (res, h).
Proof.
  unfold run_exec_like. destruct (apply_granted_turn_permissions _ _ _ _ _ _) as [eff|]; [|done]. cbn [mbind option_bind].
  destruct (match implicit_granted_permissions _ _ _ with Some _ => _ | None => _ end) as [n|e]; [|done].
  destruct (requests_unapproved_override eff policy) eqn:Eo; [done|].
  destruct intercepted as [[[]|e]|]; [done..|].
  destruct (approval_request call turn policy eff) as [request|] eqn:Eq; [|done]. cbn [mbind option_bind].
  destruct (create_exec_approval_requirement_for_command _ _ _ _ _) as [r|] eqn:Er; [|done]. cbn [mbind option_bind].
  destruct (orchestrator_run _ _ _ _ _) as [[res' h']|] eqn:Ho; [|done]. cbn [mbind option_bind]. intros [= <- <-].
  by exists eff, request, r.
Qed.

(** What the request says, and that filling in the roots keeps the kind of the policy. *)
Lemma approval_request_inv call turn policy eff request :
  approval_request call turn policy eff = Some request ->
  command request = call_command call /\ approval_policy request = policy /\
  sandbox_permissions request = (if permissions_preapproved eff then UseDefault else eff_sandbox_permissions eff) /\
  kind (file_system_sandbox_policy (permission_profile request)) =
  kind (file_system_sandbox_policy (turn_permission_profile turn)).
Proof.
  unfold approval_request, effective_profile. destruct (profile_materialize_project_roots _ _) as [profile|] eqn:E; [|done].
  intros [= <-]. simpl. split_and!; [done..|]. revert E.
  destruct (turn_permission_profile turn) as [[]| |]; simpl; by intros [= <-].
Qed.

(** Rules allow every command of the call. *)
Definition allowed_by_rule (p : Policy M path) (req : ExecApprovalRequest) : Prop :=
  Forall (fun cmd => rules_of p cmd <> [] /\ Forall (fun m => match_decision m = Allow) (rules_of p cmd))
    (parsed_commands try_parse_shell req).

Lemma heuristics_escalation req cmd :
  approval_policy req = OnRequest -> sandbox_permissions req = RequireEscalated ->
  heuristics linux try_parse_shell req cmd = Allow ->
  kind (file_system_sandbox_policy (permission_profile req)) <> Restricted.
Proof.
  intros Hp Hs. unfold heuristics, exec_policy_fallback, render_decision_for_unmatched_command. simpl.
  rewrite Hp, Hs, !orb_false_r, andb_false_r. destruct (dangerous_command_match _ _); [done|].
  by destruct (kind _).
Qed.

Lemma strictest_allow_cases p req :
  strictest linux try_parse_shell p req = Some Allow ->
  allowed_by_rule p req \/ exists cmd, rules_of p cmd = [] /\ heuristics linux try_parse_shell req cmd = Allow.
Proof.
  intros Hs%max_allow. rewrite Forall_fmap in Hs. unfold allowed_by_rule.
  induction Hs as [|cmd cmds Hc _ IH]; [left; constructor|]. unfold compose in Hc.
  destruct (rules_of p cmd) as [|m l] eqn:E.
  - right. exists cmd. split; [done|]. unfold command_decision in Hc. by rewrite E in Hc.
  - destruct IH as [IH|?]; [left|by right]. constructor; [|done]. rewrite E. split; [done|]. rewrite <- E.
    eapply allowed_by_rules; [done|]. by rewrite E.
Qed.

Lemma bypass_allowed_by_rule p req a :
  create_exec_approval_requirement_for_command linux try_parse_shell shlex_try_join p req = Some (Skip true a) ->
  allowed_by_rule p req.
Proof.
  intros [Hs Hb]%create_skip. destruct (strictest_allow_cases _ _ Hs) as [?|_]; [done|].
  apply max_allow in Hs. rewrite Forall_fmap, Forall_forall in Hs. symmetry in Hb. rewrite forallb_forall in Hb.
  apply Forall_forall. intros cmd Hc. assert (rules_of p cmd <> []) as Hne.
  { intros E. apply list_elem_of_In, Hb in Hc. by rewrite E in Hc. }
  split; [done|]. eapply allowed_by_rules; [by apply Hs|done].
Qed.

(** C1: A shell command is tried outside the sandbox that its permissions call for only
    if no reads are denied and one of three things holds: somebody approved the
    call before that attempt; rules of the exec policy match every command of it
    and all of them allow it; or the model asked to leave the sandbox under
    [OnRequest] while the file system is not restricted. *)
Theorem shell_leaves_the_sandbox_only_when p session turn policy intercepted call res h i attempt :
  run_exec_like build_glob os linux try_parse_shell shlex_try_join env p session turn policy intercepted call
    = Some (Ran res h) ->
  h !! i = Some (Attempted attempt) -> sandbox_requested attempt = false ->
  should_sandbox (at_permissions attempt) Auto (turn_network turn) = true ->
  has_denied_read_restrictions (file_system_sandbox_policy (at_permissions attempt)) = false /\
  (approved_before h i \/
   (exists req, command req = call_command call /\ allowed_by_rule p req) \/
   (policy = OnRequest /\ call_sandbox_permissions call = RequireEscalated /\
    kind (file_system_sandbox_policy (turn_permission_profile turn)) <> Restricted)).
Proof.
  intros (eff & request & r & Heff & Hguard & Hask & Hcreate & Hrun)%run_exec_like_inv Hi Hreq Hs.
  apply approval_request_inv in Hask as (Hcommand & Happroval & Hperms & Hkind).
  destruct (unsandboxed_attempt os env (shell_runtime r (eff_sandbox_permissions eff) (call_workspace_roots call)) turn policy
    res h i attempt eq_refl eq_refl Hrun Hi Hreq Hs) as [Hden Hwhy]. split; [done|].
  destruct Hwhy as [?|(r' & Er & Hwhy)]; [by left|right]. simpl in Er. subst r'.
  destruct Hwhy as [(a & ->)|((b & a & ->) & Hesc)].
  { left. exists request. split; [done|by eapply bypass_allowed_by_rule]. }
  destruct (escalation_comes_from_the_call _ _ _ _ _ _ Heff Hesc) as [Hcall Hpre].
  unfold requests_unapproved_override in Hguard. simpl in Hesc.
  assert (eff_sandbox_permissions eff = RequireEscalated) as Heq by by destruct (eff_sandbox_permissions eff).
  rewrite Heq, Hpre in Hguard. simpl in Hguard. destruct policy; try done.
  apply create_skip in Hcreate as [Hstrict _].
  destruct (strictest_allow_cases _ _ Hstrict) as [Hall|(cmd & _ & Hh)]; [left; by exists request|right].
  split; [done|]. split; [done|]. rewrite <- Hkind. apply (heuristics_escalation request cmd); [done| |done].
  by rewrite Hperms, Hpre.
Qed.
End Shell.

(** ** Approvals for the session *)

Section Store.
Context {K : Type} (to_json : K -> option str).

(** A sequence of calls: the keys of each and what the user would say. *)
Fixpoint cached_run (store : gmap str ReviewDecision) (calls : list (list K * ReviewDecision)) :
    list (ReviewDecision * bool) * gmap str ReviewDecision :=
  match calls with
  | [] => ([], store)
  | (keys, answer) :: calls' =>
      let '(d, store1, was_asked) := with_cached_approval to_json store keys answer in
      let (rest, store') := cached_run store1 calls' in ((d, was_asked) :: rest, store')
  end.

Lemma put_all_lookup keys store s :
  fold_left (fun st key => store_put to_json st key ApprovedForSession) keys store !! s = Some ApprovedForSession ->
  store !! s = Some ApprovedForSession \/ exists k, k ∈ keys /\ to_json k = Some s.
Proof.
  revert store. induction keys as [|k keys IH]; intros store; simpl; [by left|].
  intros [H|(k' & Hk & E)]%IH; [|right; exists k'; split; [by right|done]].
  unfold store_put in H. destruct (to_json k) as [s'|] eqn:E; [|by left].
  destruct (decide (s' = s)) as [->|Hne]; [right; exists k; split; [by left|done]|].
  rewrite lookup_insert_ne in H by done. by left.
Qed.

Lemma is_session_approval_true d : is_session_approval d = true -> d = Some ApprovedForSession.
Proof. destruct d as [[]|]; done. Qed.

(** Some earlier call had a key with this text, and the user approved it for the session. *)
Definition approved_earlier (calls : list (list K * ReviewDecision)) (outs : list (ReviewDecision * bool)) (s : str) : Prop :=
  exists j keys k, calls !! j = Some (keys, ApprovedForSession) /\ outs !! j = Some (ApprovedForSession, true) /\
    k ∈ keys /\ to_json k = Some s.

Lemma cached_run_inv store calls outs store' i keys answer d :
  cached_run store calls = (outs, store') -> calls !! i = Some (keys, answer) -> outs !! i = Some (d, false) ->
  d = ApprovedForSession /\ keys <> [] /\
  forall k, k ∈ keys -> exists s, to_json k = Some s /\
    (store !! s = Some ApprovedForSession \/ approved_earlier (take i calls) (take i outs) s).
Proof.
  revert store outs i. induction calls as [|[ks a] calls IH]; intros store outs i Hrun Hc Ho; [done|].
  cbn [cached_run] in Hrun. destruct (with_cached_approval to_json store ks a) as [[d1 store1] asked1] eqn:Ew.
  destruct (cached_run store1 calls) as [rest st'] eqn:Er. injection Hrun as <- <-.
  destruct i as [|i]; cbn [lookup list_lookup] in Hc, Ho.
  - injection Hc as -> ->. injection Ho as -> ->. unfold with_cached_approval in Ew.
    destruct keys as [|k0 keys]; [done|]. cbn [is_empty] in Ew.
    destruct (forallb _ (k0 :: keys)) eqn:Ef; [|done]. injection Ew as <- _. split; [done|]. split; [done|].
    intros k Hk. rewrite forallb_forall in Ef. apply list_elem_of_In, Ef in Hk. unfold store_get in Hk.
    destruct (to_json k) as [s|]; [|done]. exists s. split; [done|]. left.
    by apply is_session_approval_true in Hk.
  - destruct (IH _ _ _ Er Hc Ho) as (-> & Hne & Hk). split; [done|]. split; [done|]. intros k Hin.
    destruct (Hk k Hin) as (s & Hs & Hor). exists s. split; [done|].
    destruct Hor as [Hst|(j & ks' & k' & H1 & H2 & H3 & H4)]; [|right; by exists (S j), ks', k'].
    unfold with_cached_approval in Ew. destruct (is_empty ks) eqn:Ee; [injection Ew as <- <- <-; by left|].
    destruct (forallb _ ks); [injection Ew as <- <- <-; by left|]. injection Ew as <- <- <-.
    destruct a; try (by left). apply put_all_lookup in Hst as [?|(k' & Hk' & E)]; [by left|right]. exists 0, ks, k'. done.
Qed.

(** C31: An approval is taken from the session's cache only if the user gave it: whenever
    a call is not put to the user, each of its keys was among those of an
    earlier call that was, and that the user approved for the session. *)
Theorem cached_approvals_were_given calls outs store i keys answer d :
  cached_run ∅ calls = (outs, store) -> calls !! i = Some (keys, answer) -> outs !! i = Some (d, false) ->
  d = ApprovedForSession /\
  forall k, k ∈ keys -> exists s, to_json k = Some s /\ approved_earlier (take i calls) (take i outs) s.
Proof.
  intros H1 H2 H3. destruct (cached_run_inv _ _ _ _ _ _ _ _ H1 H2 H3) as (-> & _ & Hk). split; [done|].
  intros k Hin. destruct (Hk k Hin) as (s & Hs & [H|H]); [by rewrite lookup_empty in H|]. eauto.
Qed.
End Store.

(** ** Instances *)

#[local] Instance small_host : Host := {|
  current_dir := Some [RootDir]; home_dir := None; tmpdir_var := None;
  is_dir _ := false; is_file _ := false; exists_path _ := false; read_to_string _ := None;
  symlink_metadata _ := None; fs_canonicalize _ := None |}.

(** Everybody says no; what runs ends well. *)
Definition nobody_approves : Environment unit := {|
  permission_hooks _ _ := None;
  guardian_review _ _ := Some (Denied (s!"no"));
  user_review _ _ := Denied (s!"no");
  begin_network_approval _ _ := Ok None;
  finish_network_approval _ := Ok tt;
  tool_run _ _ := Ok tt |}.

Definition plain_turn (profile : PermissionProfile) : TurnContext := {|
  turn_permission_profile := profile; turn_workspace_roots := []; turn_network := false; turn_windows_sandbox_level := WinDisabled;
  turn_auto_review := false; turn_linux_sandbox_exe := None; strict_auto_review := false |}.

Definition plain_session : SessionState := {|
  exec_permission_approvals_enabled := true; request_permissions_tool_enabled := false;
  granted_session_permissions := None; granted_turn_permissions := None |}.

Definition shell_call (cmd : list str) (sp : SandboxPermissions) : ShellCall := {|
  call_command := cmd; call_cwd := [RootDir]; call_sandbox_permissions := sp; call_additional_permissions := None;
  call_prefix_rule := None; call_workspace_roots := [] |}.

Definition no_glob (g : str) : result GlobMatcher str := Err g.

Abbreviation sample_shell p profile call :=
  (run_exec_like (M := Concrete.rules) (path := str) no_glob Linux true parse_words no_quoting nobody_approves
     p plain_session (plain_turn profile) OnRequest None call).

Definition unsandboxed (profile : PermissionProfile) : SandboxAttempt := {|
  at_sandbox := None; sandbox_requested := false; at_permissions := profile; enforce_managed_network := false;
  at_linux_sandbox_exe := None |}.

Lemma shell_leaves_the_sandbox_only_when_witness :
  sample_shell (Concrete.git_rule Allow) restricted_profile (shell_call [s!"git"; s!"push"] UseDefault)
    = Some (Ran (Ok tt) [Attempted (unsandboxed restricted_profile)]) /\
  has_denied_read_restrictions (file_system_sandbox_policy restricted_profile) = false.
Proof.
  split; [reflexivity|].
  apply (shell_leaves_the_sandbox_only_when no_glob Linux true parse_words no_quoting nobody_approves
    (Concrete.git_rule Allow) plain_session (plain_turn restricted_profile) OnRequest None
    (shell_call [s!"git"; s!"push"] UseDefault) (Ok tt) [Attempted (unsandboxed restricted_profile)] 0
    (unsandboxed restricted_profile)); reflexivity.
Defined.

Lemma refusal_ends_the_call_witness :
  exists h, sample_shell (Concrete.git_rule Prompt) restricted_profile (shell_call [s!"git"; s!"push"] UseDefault)
    = Some (Ran (Err (Rejected (s!"no"))) h) /\ length (filter (fun e => is_attempt e = true) h) <= 2.
Proof.
  eexists. split; [reflexivity|].
  apply (refusal_ends_the_call Linux nobody_approves
    (shell_runtime (NeedsApproval (Some (s!"`git push` requires approval by policy")) None) UseDefault [])
    (plain_turn restricted_profile) OnRequest (Err (Rejected (s!"no")))). reflexivity.
Defined.

Lemma cached_approvals_were_given_witness :
  exists s, (fun k : str => Some k) (s!"a") = Some s /\
    approved_earlier (fun k : str => Some k) [([s!"a"; s!"b"], ApprovedForSession)] [(ApprovedForSession, true)] s.
Proof.
  destruct (cached_approvals_were_given (fun k : str => Some k)
    [([s!"a"; s!"b"], ApprovedForSession); ([s!"a"], Denied [])] [(ApprovedForSession, true); (ApprovedForSession, false)]
    (<[s!"b" := ApprovedForSession]> (<[s!"a" := ApprovedForSession]> ∅)) 1 [s!"a"] (Denied []) ApprovedForSession) as [_ H].
  - reflexivity.
  - reflexivity.
  - reflexivity.
  - apply (H (s!"a")). by left.
Defined.

(** ** Two ways out of the sandbox *)

Definition offline_profile : PermissionProfile := Managed ManagedUnrestricted NetRestricted.

(** The file system is free but the network is not, so commands are sandboxed.  A call
    that asks to leave the sandbox does so without anybody's approval. *)
Example escalation_skips_network_sandbox :
  should_sandbox offline_profile Auto false = true /\
  sample_shell policy_empty offline_profile (shell_call [s!"curl"; s!"example.com"] UseDefault)
    = Some (Ran (Ok tt) [Attempted {| at_sandbox := Some LinuxSeccomp; sandbox_requested := true;
                                      at_permissions := offline_profile; enforce_managed_network := false;
                                      at_linux_sandbox_exe := None |}]) /\
  sample_shell policy_empty offline_profile (shell_call [s!"curl"; s!"example.com"] RequireEscalated)
    = Some (Ran (Ok tt) [Attempted (unsandboxed offline_profile)]).
Proof. split; [reflexivity|]. split; reflexivity. Qed.

(** A rule allows [git push].  A program of the workspace that is called [bash] is taken for
    the shell, so that running it with that script needs no approval and no
    sandbox; and approvals for the session do not tell the two shells apart. *)
Example any_program_called_bash_is_trusted :
  sample_shell (Concrete.git_rule Allow) restricted_profile
      (shell_call [s!"/workspace/evil/bash"; s!"-c"; s!"git push"] UseDefault)
    = Some (Ran (Ok tt) [Attempted (unsandboxed restricted_profile)]) /\
  canonicalize_command_for_approval no_shell (fun _ => None) [s!"/workspace/evil/bash"; s!"-c"; s!"make | tee log"] =
  canonicalize_command_for_approval no_shell (fun _ => None) [s!"/bin/bash"; s!"-c"; s!"make | tee log"].
Proof. split; reflexivity. Qed.
