(* ===== verification/MergePatch.v ===== *)
(** * World-state snapshots and merge patches: [core/src/context/world_state/mod.rs]

    The state shown to the model is compared through snapshots, JSON objects with
    one field per section.  The first snapshot of a window is persisted whole, a
    later one as the RFC 7386 merge patch from the one before; resuming a
    session replays them.  An object is a finite map, as the order of its fields
    is irrelevant to [==]. *)

From stdpp Require Import gmap.
From S2P Require Import Prelude.
From S2P Require Import RustStr.

(** ** [serde_json::Value] *)

(** A float is its value [m * 2 ^ e] in lowest terms ([0.0 == -0.0]). *)
Inductive Number := PosInt (n : N) | NegInt (n : Z) | Float (m e : Z).

#[global] Instance Number_eq_dec : EqDecision Number.
Proof. solve_decision. Defined.

#[warnings="-register-all"]
Inductive Value :=
| VNull
| VBool (b : bool)
| VNumber (n : Number)
| VString (s : str)
| VArray (l : list Value)
| VObject (m : gmap str Value).

Definition is_null (v : Value) : bool := match v with VNull => true | _ => false end.

(** [==] *)
Fixpoint value_eqb (a b : Value) {struct a} : bool :=
  match a, b with
  | VNull, VNull => true
  | VBool x, VBool y => Bool.eqb x y
  | VNumber x, VNumber y => bool_decide (x = y)
  | VString x, VString y => str_eqb x y
  | VArray l, VArray l' =>
      (fix go (l l' : list Value) : bool :=
         match l, l' with
         | [], [] => true
         | x :: l, y :: l' => value_eqb x y && go l l'
         | _, _ => false
         end) l l'
  | VObject m, VObject m' =>
      (size m =? size m')
      && map_fold (fun k x ok => ok && match m' !! k with Some y => value_eqb x y | None => false end)
           true m
  | _, _ => false
  end.

(** ** Patches *)

Fixpoint remove_null_object_fields (value : Value) : Value :=
  match value with
  | VObject values =>
      VObject (omap (fun v => if is_null v then None else Some (remove_null_object_fields v)) values)
  | _ => value
  end.

Definition as_object (v : Value) : option (gmap str Value) :=
  match v with VObject m => Some m | _ => None end.

(** The first loop: the fields that are gone. *)
Definition removed_fields (previous : option (gmap str Value)) (current : gmap str Value)
    : gmap str Value :=
  match previous with
  | Some previous =>
      map_fold (fun key _ patch => match current !! key with
                                   | None => <[key := VNull]> patch
                                   | Some _ => patch
                                   end) ∅ previous
  | None => ∅
  end.

Fixpoint create_merge_patch (previous current : Value) {struct current} : option Value :=
  if value_eqb previous current then None
  else
    match current with
    | VObject current =>
        let previous := as_object previous in
        let patch := removed_fields previous current in
        let patch :=
          map_fold (fun key current_value patch =>
                      match previous ≫= (.!! key) with
                      | None => <[key := current_value]> patch
                      | Some previous_value =>
                          match create_merge_patch previous_value current_value with
                          | Some value_patch => <[key := value_patch]> patch
                          | None => patch
                          end
                      end) patch current in
        Some (VObject patch)
    | _ => Some current
    end.

Fixpoint apply_merge_patch_value (target patch : Value) {struct patch} : Value :=
  match patch with
  | VObject patch =>
      let target := default ∅ (as_object target) in
      VObject (map_fold (fun key value target =>
                           if is_null value then delete key target
                           else <[key := apply_merge_patch_value (default VNull (target !! key)) value]> target)
                 target patch)
  | _ => patch
  end.

(** ** Snapshots *)

Definition WorldStateSnapshot : Type := gmap str Value.

Definition into_value (s : WorldStateSnapshot) : Value := VObject s.

(** [serde_json::from_value::<WorldStateSnapshot>] of a transparent map. *)
Definition snapshot_from_value (v : Value) : option WorldStateSnapshot := as_object v.

Definition merge_patch_from (self previous : WorldStateSnapshot) : option Value :=
  create_merge_patch (VObject previous) (VObject self).

Definition apply_merge_patch (self : WorldStateSnapshot) (patch : Value) : option WorldStateSnapshot :=
  snapshot_from_value (apply_merge_patch_value (into_value self) patch).

(** ** Laws *)

Fixpoint depth (v : Value) : nat :=
  match v with
  | VArray l => S (fold_right (fun x d => Nat.max (depth x) d) 0 l)
  | VObject m => S (map_fold (fun _ x d => Nat.max (depth x) d) 0 m)
  | _ => 0
  end.

Lemma depth_lookup (m : gmap str Value) k v : m !! k = Some v -> depth v < depth (VObject m).
Proof.
  intros Hk. cut (depth v <= map_fold (fun _ x d => Nat.max (depth x) d) 0 m); [simpl; lia|].
  revert Hk. apply (map_fold_weak_ind (fun d m => m !! k = Some v -> depth v <= d)); [done|].
  intros i x m' r Hi IH Hk. destruct (decide (i = k)) as [->|Hne].
  - rewrite lookup_insert_eq in Hk. injection Hk as ->. lia.
  - rewrite lookup_insert_ne in Hk by done. specialize (IH Hk). lia.
Qed.

Lemma depth_elem l v : v ∈ l -> depth v < depth (VArray l).
Proof.
  intros Hv. cut (depth v <= fold_right (fun x d => Nat.max (depth x) d) 0 l); [simpl; lia|].
  induction Hv; simpl; lia.
Qed.

(** Induction on the nesting of a value. *)
Lemma Value_nested_ind (P : Value -> Prop) :
  (forall v, (match v with VArray _ | VObject _ => False | _ => True end) -> P v) ->
  (forall l, (forall v, v ∈ l -> P v) -> P (VArray l)) ->
  (forall m, (forall k v, m !! k = Some v -> P v) -> P (VObject m)) ->
  forall v, P v.
Proof.
  intros Hleaf Harr Hobj v. remember (depth v) as n eqn:En. revert v En.
  induction (lt_wf n) as [n _ IH]. intros v ->. destruct v; try (apply Hleaf; done).
  - apply Harr. intros v Hv. eapply IH; [|done]. by apply depth_elem.
  - apply Hobj. intros k v Hk. eapply IH; [|done]. by eapply depth_lookup.
Qed.

(** A conjunction over the fields. *)
Lemma map_fold_and (f : str -> Value -> bool) (m : gmap str Value) :
  map_fold (fun k x ok => ok && f k x) true m = true <-> (forall k x, m !! k = Some x -> f k x = true).
Proof.
  apply (map_fold_weak_ind (fun b m => b = true <-> forall k x, m !! k = Some x -> f k x = true)).
  { split; [|done]. intros _ k x. by rewrite lookup_empty. }
  intros i x m' r Hi IH. rewrite andb_true_iff, IH. split.
  - intros [H1 H2] k y. rewrite lookup_insert_Some. intros [[<- <-]|[_ Hk]]; auto.
  - intros Hall. split.
    + intros k y Hk. apply Hall. rewrite lookup_insert_ne; [done|]. intros ->. congruence.
    + apply Hall. by rewrite lookup_insert_eq.
Qed.

Lemma value_eqb_spec a b : value_eqb a b = true <-> a = b.
Proof.
  revert b. induction a as [a Ha|l IH|m IH] using Value_nested_ind; intros b.
  - destruct a, b; try done; simpl; try (split; congruence).
    + rewrite Bool.eqb_true_iff. split; congruence.
    + rewrite bool_decide_eq_true. split; congruence.
    + rewrite str_eqb_eq. split; congruence.
  - destruct b as [| | | |l'|]; try done. simpl. transitivity (l = l'); [|split; congruence].
    revert l'. induction l as [|x l IHl]; intros [|y l']; try done.
    rewrite andb_true_iff, IH by set_solver. rewrite IHl by set_solver. split; [intros [-> ->]|]; naive_solver.
  - destruct b as [| | | | |m']; try done. cbn [value_eqb].
    rewrite andb_true_iff, Nat.eqb_eq, map_fold_and. split.
    + intros [Hs Hm]. f_equal. apply map_subseteq_size_eq; [|lia].
      apply map_subseteq_spec. intros i x Hi. specialize (Hm i x Hi).
        destruct (m' !! i) as [y|]; [|done]. apply (IH i x Hi) in Hm. congruence.
    + intros [= <-]. split; [done|]. intros k x Hk. rewrite Hk. by apply (IH k x Hk).
Qed.

Lemma value_eqb_neq a b : value_eqb a b = false <-> a <> b.
Proof. rewrite <- value_eqb_spec. by destruct (value_eqb a b). Qed.

(** No object in the value, outside of arrays, has a field [null]. *)
Fixpoint no_null_fields (v : Value) : bool :=
  match v with
  | VObject m => map_fold (fun _ x ok => ok && (negb (is_null x) && no_null_fields x)) true m
  | _ => true
  end.

Lemma no_null_object m :
  no_null_fields (VObject m) = true <->
  (forall k v, m !! k = Some v -> is_null v = false /\ no_null_fields v = true).
Proof.
  cbn [no_null_fields]. rewrite map_fold_and. split; intros H k v Hk; specialize (H k v Hk).
  - by apply andb_true_iff in H as [->%negb_true_iff H].
  - destruct H as [-> ->]. done.
Qed.

Lemma is_null_cleaned v : is_null (remove_null_object_fields v) = is_null v.
Proof. by destruct v. Qed.

Lemma cleaned v : no_null_fields (remove_null_object_fields v) = true.
Proof.
  induction v as [v Hv|l _|m IH] using Value_nested_ind; [by destruct v|done|].
  cbn [remove_null_object_fields]. apply no_null_object. intros k v. rewrite lookup_omap.
  destruct (m !! k) as [x|] eqn:Hk; [|done]. simpl. destruct (is_null x) eqn:En; [done|].
  intros [= <-]. rewrite is_null_cleaned. eauto.
Qed.

(** *** The fields of a patch and of what it gives *)

Lemma removed_fields_lookup previous current k :
  removed_fields previous current !! k =
  match current !! k with
  | Some _ => None
  | None => (fun _ => VNull) <$> (previous ≫= (.!! k))
  end.
Proof.
  destruct previous as [m|]; simpl; [|by rewrite lookup_empty; destruct (current !! k)].
  apply (map_fold_weak_ind (fun r (m : gmap str Value) => r !! k =
    match current !! k with Some _ => None | None => (fun _ => VNull) <$> m !! k end)).
  { rewrite !lookup_empty. by destruct (current !! k). }
  intros i x m' r Hi IH. destruct (decide (i = k)) as [->|Hne].
  - destruct (current !! k) eqn:Ec; [done|]. by rewrite !lookup_insert_eq.
  - rewrite (lookup_insert_ne m') by done. destruct (current !! i); [done|]. by rewrite lookup_insert_ne.
Qed.

Lemma patch_lookup (previous : Value) (current patch : gmap str Value) (k : str) :
  create_merge_patch previous (VObject current) = Some (VObject patch) ->
  patch !! k =
  match current !! k with
  | Some c => match as_object previous ≫= (.!! k) with
              | None => Some c
              | Some p => create_merge_patch p c
              end
  | None => (fun _ => VNull) <$> (as_object previous ≫= (.!! k))
  end.
Proof.
  cbn [create_merge_patch]. destruct (value_eqb _ _); [done|]. intros [= <-].
  set (P0 := removed_fields (as_object previous) current).
  pose proof (removed_fields_lookup (as_object previous) current k) as H0. fold P0 in H0.
  transitivity (match current !! k with
    | Some c => match as_object previous ≫= (.!! k) with None => Some c | Some p => create_merge_patch p c end
    | None => P0 !! k end); [|destruct (current !! k); [done|by rewrite H0]].
  assert (Hnone : is_Some (current !! k) -> P0 !! k = None).
  { intros [c Hc]. by rewrite H0, Hc. }
  clearbody P0. clear H0. revert Hnone.
  apply (map_fold_weak_ind (fun r (m : gmap str Value) => (is_Some (m !! k) -> P0 !! k = None) -> r !! k =
    match m !! k with
    | Some c => match as_object previous ≫= (.!! k) with None => Some c | Some p => create_merge_patch p c end
    | None => P0 !! k end)).
  { by rewrite lookup_empty. }
  intros i x m r Hi IH Hn. destruct (decide (i = k)) as [->|Hne].
  - rewrite lookup_insert_eq in Hn |- *. rewrite Hi in IH.
    destruct (as_object previous ≫= (.!! k)) as [p|]; [|by rewrite lookup_insert_eq].
    destruct (create_merge_patch p x); [by rewrite lookup_insert_eq|].
    rewrite IH by (intros [? [=]]). apply Hn. eauto.
  - rewrite lookup_insert_ne in Hn |- * by done. rewrite <- IH by done.
    destruct (as_object previous ≫= (.!! i)) as [p|]; [|by rewrite lookup_insert_ne].
    destruct (create_merge_patch p x); [by rewrite lookup_insert_ne|done].
Qed.

Lemma apply_lookup (target : Value) (patch : gmap str Value) (k : str) :
  (as_object (apply_merge_patch_value target (VObject patch)) ≫= (.!! k)) =
  match patch !! k with
  | None => as_object target ≫= (.!! k)
  | Some v => if is_null v then None
              else Some (apply_merge_patch_value (default VNull (as_object target ≫= (.!! k))) v)
  end.
Proof.
  cbn [apply_merge_patch_value as_object mbind option_bind].
  assert (Ht : as_object target ≫= (.!! k) = default ∅ (as_object target) !! k).
  { destruct (as_object target); [done|]. symmetry. apply lookup_empty. }
  rewrite Ht. set (t := default ∅ (as_object target)). clearbody t.
  apply (map_fold_weak_ind (fun r (m : gmap str Value) => r !! k =
    match m !! k with
    | None => t !! k
    | Some v => if is_null v then None
                else Some (apply_merge_patch_value (default VNull (t !! k)) v)
    end)); [by rewrite lookup_empty|].
  intros i x m r Hi IH. destruct (decide (i = k)) as [->|Hne].
  - rewrite lookup_insert_eq, Hi in *. destruct (is_null x); [by rewrite lookup_delete_eq|].
    by rewrite lookup_insert_eq, IH.
  - rewrite (lookup_insert_ne m) by done. rewrite <- IH.
    destruct (is_null x); [by rewrite lookup_delete_ne|by rewrite lookup_insert_ne].
Qed.

(** *** Round trip *)

(** A patch without nulls builds the value it is. *)
Lemma apply_to_null v : no_null_fields v = true -> apply_merge_patch_value VNull v = v.
Proof.
  induction v as [v Hv|l _|m IH] using Value_nested_ind; [by destruct v|done|].
  intros Hm. rewrite no_null_object in Hm.
  pose proof (apply_lookup VNull m) as Hl. cbn [apply_merge_patch_value] in Hl |- *.
  f_equal. apply map_eq. intros k. specialize (Hl k). cbn in Hl. etransitivity; [exact Hl|].
  destruct (m !! k) as [v|] eqn:Hk; [|done]. destruct (Hm k v Hk) as [-> Hv].
  f_equal. by apply (IH k).
Qed.

Lemma create_none previous current : create_merge_patch previous current = None -> previous = current.
Proof.
  destruct current; cbn [create_merge_patch]; destruct (value_eqb _ _) eqn:E; try done;
    intros _; by apply value_eqb_spec.
Qed.

(** The patch to a value that is not null is not null. *)
Lemma patch_not_null previous current patch :
  create_merge_patch previous current = Some patch -> is_null current = false -> is_null patch = false.
Proof.
  destruct current; cbn [create_merge_patch]; destruct (value_eqb _ _); try done; by intros [= <-].
Qed.

Lemma patch_object previous current patch :
  create_merge_patch previous (VObject current) = Some patch -> exists m, patch = VObject m.
Proof. cbn [create_merge_patch]. destruct (value_eqb _ _); [done|]. intros [= <-]. eauto. Qed.

Lemma patch_advances current previous patch :
  no_null_fields current = true -> create_merge_patch previous current = Some patch ->
  apply_merge_patch_value previous patch = current.
Proof.
  revert previous patch. induction current as [v Hv|l _|m IH] using Value_nested_ind; intros previous patch.
  - intros _. destruct v; try done; cbn [create_merge_patch]; destruct (value_eqb _ _); try done;
      by intros [= <-].
  - intros _. cbn [create_merge_patch]. destruct (value_eqb _ _); [done|]. by intros [= <-].
  - intros Hm Hp. rewrite no_null_object in Hm. destruct (patch_object _ _ _ Hp) as [P ->].
    pose proof (fun k => patch_lookup _ _ _ k Hp) as HP. pose proof (apply_lookup previous P) as Hl.
    cbn [apply_merge_patch_value] in Hl |- *. f_equal. apply map_eq. intros k.
    specialize (Hl k). cbn [as_object mbind option_bind] in Hl. etransitivity; [exact Hl|].
    rewrite HP. clear Hl HP. destruct (m !! k) as [c|] eqn:Hk.
    + destruct (Hm k c Hk) as [Hn Hc]. destruct (as_object previous ≫= (.!! k)) as [p|]; cbn [default].
      * destruct (create_merge_patch p c) as [v|] eqn:Ev.
        -- rewrite (patch_not_null _ _ _ Ev Hn). cbn [default from_option id]. f_equal. by apply (IH k c Hk).
        -- by rewrite (create_none _ _ Ev).
      * rewrite Hn. cbn [default from_option]. by rewrite (apply_to_null c Hc).
    + by destruct (as_object previous ≫= (.!! k)).
Qed.

(** A snapshot whose values went through [remove_null_object_fields]. *)
Definition snapshot_wf (s : WorldStateSnapshot) : Prop := no_null_fields (VObject s) = true.

(** A merge patch advances the snapshot it was computed from: applying
    [merge_patch_from previous] to [previous] gives the current snapshot, and
    there is no patch only if nothing changed, for every previous snapshot and
    every current one without null fields, which [remove_null_object_fields]
    ensures. *)
Theorem merge_patch_roundtrip current previous :
  snapshot_wf current ->
  match merge_patch_from current previous with
  | Some patch => apply_merge_patch previous patch = Some current
  | None => previous = current
  end.
Proof.
  intros Hc. unfold merge_patch_from. destruct (create_merge_patch _ _) as [patch|] eqn:E.
  - unfold apply_merge_patch, into_value. by rewrite (patch_advances _ _ _ Hc E).
  - apply create_none in E. congruence.
Qed.
