(* ===== verification/Tables.v ===== *)
(** * Keyed tables

    Rows with a key, in the order in which the keys first appeared: what a
    client keeps of a stream of snapshots, and what an
    [INSERT ... ON CONFLICT DO UPDATE] keeps of a stream of rows.  [tput] writes
    a row, [tmerge] writes several, [tdrop] deletes the rows of some keys. *)

From S2P Require Import Prelude.

(** ** Deleting rows *)

Section rows.
Context {V : Type}.
Implicit Types l m : list V.

Definition tdrop (dead : V -> bool) (l : list V) : list V := List.filter (fun v => negb (dead v)) l.

Lemma tdrop_none dead l : (forall v, v ∈ l -> dead v = false) -> tdrop dead l = l.
Proof.
  induction l as [|x l IH]; intros Hd; [done|]. unfold tdrop. simpl. rewrite (Hd x) by set_solver.
  simpl. f_equal. apply IH. set_solver.
Qed.

Lemma tdrop_ext dead dead' l :
  (forall v, v ∈ l -> dead v = dead' v) -> tdrop dead l = tdrop dead' l.
Proof.
  induction l as [|x l IH]; intros Hd; [done|]. unfold tdrop in *. simpl.
  rewrite (Hd x) by set_solver. rewrite IH by set_solver. done.
Qed.

Lemma tdrop_tdrop dead dead' l :
  tdrop dead (tdrop dead' l) = tdrop (fun v => dead' v || dead v) l.
Proof.
  induction l as [|x l IH]; [done|]. unfold tdrop in *. simpl.
  destruct (dead' x); simpl; [done|]. destruct (dead x); simpl; by rewrite IH.
Qed.

Lemma tdrop_app dead l m : tdrop dead (l ++ m) = tdrop dead l ++ tdrop dead m.
Proof. apply List.filter_app. Qed.

End rows.

Section table.
Context {V K : Type} `{EqDecision K} (key : V -> K).
Implicit Types (v x : V) (l m : list V).

Fixpoint tput (l : list V) (v : V) : list V :=
  match l with
  | [] => [v]
  | x :: l' => if decide (key x = key v) then v :: l' else x :: tput l' v
  end.

Definition tmerge (l m : list V) : list V := fold_left tput m l.

(** ** Writing *)

Lemma tput_fresh l v : key v ∉ key <$> l -> tput l v = l ++ [v].
Proof.
  induction l as [|x l IH]; intros Hv; [done|]. rewrite fmap_cons, not_elem_of_cons in Hv.
  simpl. rewrite decide_False by (destruct Hv; congruence). f_equal. by apply IH, Hv.
Qed.

Lemma tput_middle l v x m :
  key v ∉ key <$> l -> key x = key v -> tput (l ++ x :: m) v = l ++ v :: m.
Proof.
  intros Hv Hx. induction l as [|y l IH]; simpl; [by rewrite decide_True|].
  rewrite fmap_cons, not_elem_of_cons in Hv. rewrite decide_False by (destruct Hv; congruence).
  f_equal. by apply IH, Hv.
Qed.

Lemma tput_split l v :
  key v ∈ key <$> l ->
  exists l1 x l2, l = l1 ++ x :: l2 /\ key x = key v /\ (key v ∉ key <$> l1) /\
    tput l v = l1 ++ v :: l2.
Proof.
  induction l as [|x l IH]; intros Hv; [by apply elem_of_nil in Hv|].
  destruct (decide (key x = key v)) as [E|E].
  { exists [], x, l. split_and!; [done|done|apply not_elem_of_nil|]. simpl. by rewrite decide_True. }
  rewrite fmap_cons, elem_of_cons in Hv. destruct Hv as [Hv|Hv]; [done|].
  destruct (IH Hv) as (l1 & y & l2 & -> & Hy & Hn & Ht).
  exists (x :: l1), y, l2. split_and!; [done|done| |].
  - rewrite fmap_cons, not_elem_of_cons. done.
  - simpl. rewrite decide_False by done. by rewrite Ht.
Qed.

Lemma tput_keys l v :
  key <$> tput l v = if decide (key v ∈ key <$> l) then key <$> l else (key <$> l) ++ [key v].
Proof.
  case_decide as Hv.
  - destruct (tput_split l v Hv) as (l1 & x & l2 & -> & Hx & _ & ->).
    rewrite !fmap_app, !fmap_cons. by rewrite Hx.
  - by rewrite tput_fresh, fmap_app.
Qed.

Lemma tput_keys_incl l v k : k ∈ key <$> tput l v <-> k = key v \/ k ∈ key <$> l.
Proof. rewrite tput_keys. case_decide; set_solver. Qed.

Lemma tput_NoDup l v : NoDup (key <$> l) -> NoDup (key <$> tput l v).
Proof.
  intros Hl. rewrite tput_keys. case_decide; [done|].
  apply NoDup_app. split_and!; [done| |apply NoDup_singleton]. set_solver.
Qed.

Lemma tmerge_NoDup l m : NoDup (key <$> l) -> NoDup (key <$> tmerge l m).
Proof.
  revert l. induction m as [|v m IH]; intros l Hl; [done|]. apply IH. by apply tput_NoDup.
Qed.

Lemma tmerge_app l m1 m2 : tmerge l (m1 ++ m2) = tmerge (tmerge l m1) m2.
Proof. apply fold_left_app. Qed.

(** Writing a row twice keeps the second. *)
Lemma tput_tput l v x : key v = key x -> tput (tput l v) x = tput l x.
Proof.
  intros E. induction l as [|y l IH]; simpl.
  - by rewrite decide_True.
  - destruct (decide (key y = key v)) as [Ey|Ey].
    + simpl. rewrite !decide_True by congruence. done.
    + simpl. rewrite !(decide_False (P := key y = key x)) by congruence. by rewrite IH.
Qed.

(** A row whose key is already there and another one can be written in either
    order. *)
Lemma tput_comm l v x :
  key v <> key x -> key x ∈ key <$> l -> tput (tput l v) x = tput (tput l x) v.
Proof.
  intros Hne. induction l as [|y l IH]; intros Hx; [by apply elem_of_nil in Hx|].
  simpl. destruct (decide (key y = key v)) as [Ev|Ev], (decide (key y = key x)) as [Ex|Ex];
    simpl; repeat (case_decide; try congruence); try done.
  f_equal. apply IH. rewrite fmap_cons, elem_of_cons in Hx. destruct Hx; congruence.
Qed.

Lemma tmerge_tput_comm l v m :
  key v ∈ key <$> l -> key v ∉ key <$> m -> tmerge (tput l v) m = tput (tmerge l m) v.
Proof.
  revert l. induction m as [|x m IH]; intros l Hl Hm; [done|].
  rewrite fmap_cons, not_elem_of_cons in Hm. destruct Hm as [Hx Hm]. simpl.
  rewrite <- IH; [|rewrite tput_keys_incl; by right|done].
  f_equal. symmetry. apply tput_comm; [congruence|done].
Qed.

(** A write into what is about to be merged is a write into the result. *)
Lemma tmerge_tput l m v : NoDup (key <$> m) -> tmerge l (tput m v) = tput (tmerge l m) v.
Proof.
  intros Hm. destruct (decide (key v ∈ key <$> m)) as [Hv|Hv].
  - destruct (tput_split m v Hv) as (m1 & x & m2 & -> & Hx & Hn & ->).
    rewrite !tmerge_app. simpl.
    rewrite fmap_app, fmap_cons in Hm. apply NoDup_app in Hm as (_ & _ & Hm2).
    apply NoDup_cons in Hm2 as [Hxm2 _]. rewrite Hx in Hxm2.
    rewrite <- (tmerge_tput_comm (tput (tmerge l m1) x)); [by rewrite tput_tput| |done].
    rewrite tput_keys_incl. by left.
  - by rewrite tput_fresh, tmerge_app.
Qed.

(** ** Deleting *)

(** [dead] looks at keys only. *)
Definition keyed (dead : V -> bool) : Prop := forall v x, key v = key x -> dead v = dead x.

Lemma tdrop_tput dead l v :
  keyed dead -> tdrop dead (tput l v) = if dead v then tdrop dead l else tput (tdrop dead l) v.
Proof.
  intros Hk. unfold tdrop. induction l as [|x l IH]; simpl.
  - by destruct (dead v).
  - destruct (decide (key x = key v)) as [E|E].
    + simpl. rewrite (Hk x v E). destruct (dead v); simpl; [done|]. by rewrite decide_True.
    + simpl. rewrite IH. destruct (dead x), (dead v); simpl; try done. by rewrite decide_False.
Qed.

Lemma tdrop_tmerge dead l m :
  keyed dead -> tdrop dead (tmerge l m) = tmerge (tdrop dead l) (tdrop dead m).
Proof.
  intros Hk. revert l. induction m as [|v m IH]; intros l; [done|]. simpl.
  rewrite IH, tdrop_tput by done. unfold tdrop at 4. simpl. by destruct (dead v).
Qed.

Lemma tdrop_keys_incl dead l k : k ∈ key <$> tdrop dead l -> k ∈ key <$> l.
Proof.
  unfold tdrop. intros (v & -> & Hv)%list_elem_of_fmap. apply list_elem_of_fmap.
  exists v. split; [done|]. apply list_elem_of_In, filter_In in Hv as [Hv _]. by apply list_elem_of_In.
Qed.

Lemma tdrop_NoDup dead l : NoDup (key <$> l) -> NoDup (key <$> tdrop dead l).
Proof.
  induction l as [|x l IH]; intros Hl; [done|]. rewrite fmap_cons in Hl.
  apply NoDup_cons in Hl as [Hx Hl]. unfold tdrop. simpl. destruct (dead x); simpl; [by apply IH|].
  apply NoDup_cons. split; [|by apply IH]. intros E. by apply Hx, (tdrop_keys_incl dead).
Qed.

End table.
