(* ===== verification/ThreadItems.v ===== *)
(** * Items of a thread: the data of [app-server-protocol/src/protocol/v2]
      that a thread history shows, the core events it is built from
      ([protocol/src/protocol.rs], [items.rs], [approvals.rs]) and the builders
      of [app-server-protocol/src/protocol/item_builders.rs]

    Constructors of [ThreadItem] start with [TI_], those of the core [TurnItem]
    with [Core], those of [EventMsg] with [Ev_] and those of [RolloutItem] with
    [RI_].  Payload fields that no function below reads have the type [Opaque].
    A [HashMap] is the list of its entries in the order its iterator yields
    them; a [ThreadId] is its text; a [Duration] is its number of nanoseconds;
    a [PathBuf] is its text. *)

From S2P Require Import Prelude.
From S2P Require Import RustStr.
From S2P Require Import Paths.
From S2P Require Import SandboxRoots.
From S2P Require Import Truncate.
From S2P Require Import OutputItems.
From S2P Require Import History.
From S2P Require Import HistoryOps.
From S2P Require Import MergePatch.

(** ** Plain data *)

Inductive MessagePhase := Commentary | FinalAnswer.
#[global] Instance MessagePhase_eq_dec : EqDecision MessagePhase.
Proof. solve_decision. Defined.

Inductive TurnStatus := TurnCompleted | TurnInterrupted | TurnFailed | TurnInProgress.
#[global] Instance TurnStatus_eq_dec : EqDecision TurnStatus.
Proof. solve_decision. Defined.

Inductive TurnItemsView := NotLoaded | Summary | Full.

Inductive NonSteerableTurnKind := SteerReview | SteerCompact.

(** The core enum and its v2 mirror have the same variants. *)
Inductive CodexErrorInfo :=
| ContextWindowExceeded | SessionBudgetExceeded | UsageLimitExceeded | ServerOverloaded
| CyberPolicy
| HttpConnectionFailed (http_status_code : option N)
| ResponseStreamConnectionFailed (http_status_code : option N)
| InternalServerError | Unauthorized | BadRequest | SandboxErrorInfo
| ResponseStreamDisconnected (http_status_code : option N)
| ResponseTooManyFailedAttempts (http_status_code : option N)
| ActiveTurnNotSteerable (turn_kind : NonSteerableTurnKind)
| ThreadRollbackFailed
| OtherErrorInfo.

Definition error_info_affects_turn_status (e : CodexErrorInfo) : bool :=
  match e with
  | ThreadRollbackFailed | ActiveTurnNotSteerable _ => false
  | _ => true
  end.

Record TurnError := mkTurnError {
  te_message : str;
  te_codex_error_info : option CodexErrorInfo;
  te_additional_details : option str;
}.

Inductive CommandExecutionStatus := CmdInProgress | CmdCompleted | CmdFailed | CmdDeclined.
Inductive ExecCommandStatus := ExecCompleted | ExecFailed | ExecDeclined.
Inductive ExecCommandSource := Agent | UserShell | UnifiedExecStartup | UnifiedExecInteraction.
Inductive PatchApplyStatus := PatchInProgress | PatchCompleted | PatchFailed | PatchDeclined.
Inductive CorePatchApplyStatus := CorePatchCompleted | CorePatchFailed | CorePatchDeclined.

(** [InProgress], [Completed], [Failed]: the status of MCP, dynamic and collab
    tool calls, in core and in v2. *)
Inductive ToolCallStatus := CallInProgress | CallCompleted | CallFailed.
#[global] Instance ToolCallStatus_eq_dec : EqDecision ToolCallStatus.
Proof. solve_decision. Defined.

Inductive CollabAgentTool := SpawnAgent | SendInput | ResumeAgent | WaitAgents | CloseAgent.
Inductive SubAgentActivityKind := ActivityStarted | ActivityInteracted | ActivityInterrupted.

Inductive AgentStatus :=
| AgentPendingInit | AgentRunning | AgentInterrupted
| AgentCompleted (message : option str)
| AgentErrored (message : str)
| AgentShutdown | AgentNotFound.

Inductive CollabAgentStatus :=
| StPendingInit | StRunning | StInterrupted | StCompleted | StErrored | StShutdown | StNotFound.

Record CollabAgentState := mkCollabState { cas_status : CollabAgentStatus; cas_message : option str }.

Definition collab_state_of (s : AgentStatus) : CollabAgentState :=
  match s with
  | AgentPendingInit => mkCollabState StPendingInit None
  | AgentRunning => mkCollabState StRunning None
  | AgentInterrupted => mkCollabState StInterrupted None
  | AgentCompleted message => mkCollabState StCompleted message
  | AgentErrored message => mkCollabState StErrored (Some message)
  | AgentShutdown => mkCollabState StShutdown None
  | AgentNotFound => mkCollabState StNotFound None
  end.

Definition exec_status (s : ExecCommandStatus) : CommandExecutionStatus :=
  match s with
  | ExecCompleted => CmdCompleted | ExecFailed => CmdFailed | ExecDeclined => CmdDeclined
  end.

Definition patch_status (s : CorePatchApplyStatus) : PatchApplyStatus :=
  match s with
  | CorePatchCompleted => PatchCompleted
  | CorePatchFailed => PatchFailed
  | CorePatchDeclined => PatchDeclined
  end.

Inductive ReasoningEffort :=
| EffortNone | EffortMinimal | EffortLow | EffortMedium | EffortHigh | EffortXHigh | EffortMax
| EffortUltra | EffortCustom (value : str).

Inductive FileChange :=
| FcAdd (content : str)
| FcDelete (content : str)
| FcUpdate (unified_diff : str) (move_path : option str).

Inductive PatchChangeKind := KindAdd | KindDelete | KindUpdate (move_path : option str).

Record FileUpdateChange := mkFileUpdate { fuc_path : str; fuc_kind : PatchChangeKind; fuc_diff : str }.

Inductive ParsedCommand :=
| PcRead (cmd name path : str)
| PcListFiles (cmd : str) (path : option str)
| PcSearch (cmd : str) (query path : option str)
| PcUnknown (cmd : str).

Inductive CommandAction :=
| ActRead (command name path : str)
| ActListFiles (command : str) (path : option str)
| ActSearch (command : str) (query path : option str)
| ActUnknown (command : str).

Inductive WebSearchAction :=
| WsSearch (query : option str) (queries : option (list str))
| WsOpenPage (url : option str)
| WsFindInPage (url pattern : option str)
| WsOther.

Record MemoryCitationEntry := mkCitationEntry {
  mce_path : str; mce_line_start : N; mce_line_end : N; mce_note : str }.
Record CoreMemoryCitation := mkCoreCitation {
  cmc_entries : list MemoryCitationEntry; cmc_rollout_ids : list str }.
Record MemoryCitation := mkCitation {
  mc_entries : list MemoryCitationEntry; mc_thread_ids : list str }.

(** The entries are copied field by field. *)
Definition citation_of_core (c : CoreMemoryCitation) : MemoryCitation :=
  mkCitation (cmc_entries c) (cmc_rollout_ids c).

Record TextElement := mkTextElement {
  tel_start : N; tel_end : N; tel_placeholder : option str }.

(** [UserInput], in core and (with the same fields) in v2. *)
Inductive UserInput :=
| UiText (text : str) (text_elements : list TextElement)
| UiImage (url : str) (detail : option ImageDetail)
| UiLocalImage (path : str) (detail : option ImageDetail)
| UiAudio (url : str)
| UiLocalAudio (path : str)
| UiSkill (name path : str)
| UiMention (name path : str).

Record HookPromptFragment := mkFragment { hf_text : str; hf_hook_run_id : str }.

Inductive DynamicToolCallOutputContentItem :=
| DynInputText (text : str)
| DynInputImage (image_url : str)
| DynInputAudio (audio_url : str).

Record McpToolCallAppContext := mkAppContext {
  ac_connector_id : str;
  ac_link_id : option str;
  ac_resource_uri : option str;
  ac_app_name : option str;
  ac_action_name : option str;
}.

Record SleepItem := mkSleep { sl_id : str; sl_duration_ms : N }.
Record ImageGenerationItem := mkImageGeneration {
  ig_id : str; ig_status : str; ig_revised_prompt : option str; ig_result : str;
  ig_saved_path : option Path }.

(** ** What the builders take from elsewhere

    [Json] is [serde_json::Value]; [redact_secrets] is the regular expressions
    of [codex_secrets]; [shlex_join] and [parse_command] read a command line;
    [uri_join] is [PathUri::join] and [native_path] renders a URI as a native
    path; [from_xml_str] is [quick_xml] on a [HookPromptXml], returning its
    [hook_run_id] and [text]; [now_v7] is the sequence of identifiers
    [Uuid::now_v7] returns. *)
Class Wire := {
  Json : Type;
  Opaque : Type;
  json_null : Json;
  redact_secrets : str -> str;
  shlex_join : list str -> str;
  parse_command : list str -> list ParsedCommand;
  uri_join : str -> str -> option str;
  native_path : str -> str;
  from_xml_str : str -> option (str * str);
  now_v7 : nat -> str;
}.

(** [Duration::as_millis]. *)
Definition as_millis (nanos : N) : N := (nanos / 1000000)%N.

(** [i64::try_from(duration.as_millis()).ok()]. *)
Definition millis_i64 (nanos : N) : option Z :=
  let ms := Z.of_N (as_millis nanos) in if (ms <=? I64_MAX)%Z then Some ms else None.

(** ** Review output ([protocol/src/review_format.rs]) *)

Record ReviewFinding := mkFinding {
  rf_title : str; rf_body : str; rf_priority : Z;
  rf_file_path : str; rf_line_start : N; rf_line_end : N }.

(** The scores are left out: they are floats that no text shows. *)
Record ReviewOutputEvent := mkReviewOutput {
  ro_findings : list ReviewFinding;
  ro_overall_correctness : str;
  ro_overall_explanation : str;
}.

Definition REVIEW_FALLBACK_MESSAGE : str := s!"Reviewer failed to output a response.".

Definition format_location (item : ReviewFinding) : str :=
  rf_file_path item ++ s!":" ++ digits_of_N (rf_line_start item) ++ s!"-" ++
  digits_of_N (rf_line_end item).

Definition em_dash : char := 8212%N.

(** The line of one finding and the lines of its body. *)
Definition finding_lines (selection : option (list bool)) (idx : nat) (item : ReviewFinding)
    : list str :=
  let tail := rf_title item ++ s!" " ++ [em_dash] ++ s!" " ++ format_location item in
  [] :: (match selection with
         | Some flags =>
             let checked := default true (flags !! idx) in
             s!"- " ++ (if checked then s!"[x]" else s!"[ ]") ++ s!" " ++ tail
         | None => s!"- " ++ tail
         end) :: ((fun l => s!"  " ++ l) <$> lines (rf_body item)).

Definition format_review_findings_block (findings : list ReviewFinding)
    (selection : option (list bool)) : str :=
  join [nl]
    ([] :: (if (1 <? length findings)%nat then s!"Full review comments:" else s!"Review comment:")
     :: concat (imap (finding_lines selection) findings)).

Definition render_review_output_text (output : ReviewOutputEvent) : str :=
  let explanation := trim (ro_overall_explanation output) in
  let s1 := if is_empty explanation then [] else [explanation] in
  let s2 :=
    match ro_findings output with
    | [] => []
    | findings =>
        let trimmed := trim (format_review_findings_block findings None) in
        if is_empty trimmed then [] else [trimmed]
    end in
  match s1 ++ s2 with
  | [] => REVIEW_FALLBACK_MESSAGE
  | sections => join [nl; nl] sections
  end.

Definition review_output_text (output : option ReviewOutputEvent) : str :=
  match output with
  | Some o => render_review_output_text o
  | None => REVIEW_FALLBACK_MESSAGE
  end.

Section items.
Context {W : Wire}.

(** ** Thread items *)

Record WebSearchItem := mkWebSearch {
  wsi_id : str; wsi_query : str; wsi_action : option WebSearchAction;
  wsi_results : option (list Json) }.

Record McpToolCallResult := mkMcpResult {
  mr_content : list Json; mr_structured_content : option Json; mr_meta : option Json }.

Inductive ThreadItem :=
| TI_UserMessage (id : str) (client_id : option str) (content : list UserInput)
| TI_HookPrompt (id : str) (fragments : list HookPromptFragment)
| TI_AgentMessage (id text : str) (phase : option MessagePhase)
    (memory_citation : option MemoryCitation)
| TI_Plan (id text : str)
| TI_Reasoning (id : str) (summary content : list str)
| TI_CommandExecution (id : str) (plugin_id script_path : option str) (command cwd : str)
    (process_id : option str) (source : ExecCommandSource) (status : CommandExecutionStatus)
    (command_actions : list CommandAction) (aggregated_output : option str)
    (exit_code duration_ms : option Z)
| TI_FileChange (id : str) (changes : list FileUpdateChange) (status : PatchApplyStatus)
| TI_McpToolCall (id server tool : str) (status : ToolCallStatus) (arguments : Json)
    (app_context : option McpToolCallAppContext) (mcp_app_resource_uri plugin_id : option str)
    (read_only_hint : option bool) (result : option McpToolCallResult) (error : option str)
    (duration_ms : option Z)
| TI_DynamicToolCall (id : str) (namespace : option str) (tool : str) (arguments : Json)
    (status : ToolCallStatus) (content_items : option (list DynamicToolCallOutputContentItem))
    (success : option bool) (duration_ms : option Z)
| TI_CollabAgentToolCall (id : str) (tool : CollabAgentTool) (status : ToolCallStatus)
    (sender_thread_id : str) (receiver_thread_ids : list str) (prompt model : option str)
    (reasoning_effort : option ReasoningEffort)
    (agents_states : list (str * CollabAgentState))
| TI_SubAgentActivity (id : str) (kind : SubAgentActivityKind) (agent_thread_id agent_path : str)
| TI_WebSearch (item : WebSearchItem)
| TI_ImageView (id path : str)
| TI_Sleep (item : SleepItem)
| TI_ImageGeneration (item : ImageGenerationItem)
| TI_EnteredReviewMode (id review : str)
| TI_ExitedReviewMode (id review : str)
| TI_ContextCompaction (id : str).

(** [ThreadItem::id] *)
Definition item_id (i : ThreadItem) : str :=
  match i with
  | TI_UserMessage id _ _ | TI_HookPrompt id _ | TI_AgentMessage id _ _ _ | TI_Plan id _
  | TI_Reasoning id _ _ | TI_CommandExecution id _ _ _ _ _ _ _ _ _ _ _ | TI_FileChange id _ _
  | TI_McpToolCall id _ _ _ _ _ _ _ _ _ _ _ | TI_DynamicToolCall id _ _ _ _ _ _ _
  | TI_CollabAgentToolCall id _ _ _ _ _ _ _ _ | TI_SubAgentActivity id _ _ _
  | TI_ImageView id _ | TI_EnteredReviewMode id _ | TI_ExitedReviewMode id _
  | TI_ContextCompaction id => id
  | TI_WebSearch item => wsi_id item
  | TI_Sleep item => sl_id item
  | TI_ImageGeneration item => ig_id item
  end.

Record Turn := mkTurn {
  t_id : str;
  t_items : list ThreadItem;
  t_items_view : TurnItemsView;
  t_status : TurnStatus;
  t_error : option TurnError;
  t_started_at : option Z;
  t_completed_at : option Z;
  t_duration_ms : option Z;
}.

(** ** Core turn items ([protocol/src/items.rs]) *)

Record CommandExecutionItem := mkCommandItem {
  ci_id : str; ci_plugin_id : option str; ci_script_path : option str; ci_process_id : option str;
  ci_command : list str; ci_cwd : str; ci_parsed_cmd : list ParsedCommand;
  ci_source : ExecCommandSource; ci_interaction_input : option str;
  ci_status : CommandExecutionStatus; ci_stdout : option str; ci_stderr : option str;
  ci_aggregated_output : option str; ci_exit_code : option Z; ci_duration : option N;
  ci_formatted_output : option str }.

Record DynamicToolCallItem := mkDynamicItem {
  di_id : str; di_namespace : option str; di_tool : str; di_arguments : Json;
  di_status : ToolCallStatus; di_content_items : option (list DynamicToolCallOutputContentItem);
  di_success : option bool; di_error : option str; di_duration : option N }.

Record CollabAgentToolCallItem := mkCollabItem {
  cti_id : str; cti_tool : CollabAgentTool; cti_status : ToolCallStatus;
  cti_sender_thread_id : str; cti_receiver_thread_ids : list str;
  cti_receiver_agents : list Opaque; cti_prompt : option str; cti_model : option str;
  cti_reasoning_effort : option ReasoningEffort; cti_agents_states : list (str * AgentStatus) }.

Record CallToolResult := mkCallResult {
  cr_content : list Json; cr_structured_content : option Json; cr_is_error : option bool;
  cr_meta : option Json }.

Record McpToolCallItem := mkMcpItem {
  mi_id : str; mi_server : str; mi_tool : str; mi_arguments : Json;
  mi_connector_id : option str; mi_mcp_app_resource_uri : option str; mi_link_id : option str;
  mi_app_name : option str; mi_action_name : option str; mi_plugin_id : option str;
  mi_read_only_hint : option bool; mi_status : ToolCallStatus; mi_result : option CallToolResult;
  mi_error : option str; mi_duration : option N }.

Inductive ExtensionItem :=
| ExtImageGeneration (item : ImageGenerationItem)
| ExtSleep (item : SleepItem)
| ExtWebSearch (item : WebSearchItem).

(** The content of an agent message is a list of texts. *)
Inductive TurnItem :=
| CoreUserMessage (id : str) (client_id : option str) (content : list UserInput)
| CoreHookPrompt (id : str) (fragments : list HookPromptFragment)
| CoreAgentMessage (id : str) (content : list str) (phase : option MessagePhase)
    (memory_citation : option CoreMemoryCitation)
| CorePlan (id text : str)
| CoreReasoning (id : str) (summary_text raw_content : list str)
| CoreCommandExecution (item : CommandExecutionItem)
| CoreDynamicToolCall (item : DynamicToolCallItem)
| CoreCollabAgentToolCall (item : CollabAgentToolCallItem)
| CoreSubAgentActivity (id : str) (kind : SubAgentActivityKind) (agent_thread_id agent_path : str)
| CoreWebSearch (id query : str) (action : WebSearchAction) (results : option (list Json))
| CoreImageView (id path : str)
| CoreExtension (item : ExtensionItem)
| CoreImageGeneration (item : ImageGenerationItem)
| CoreEnteredReviewMode (id : str) (target : Opaque) (user_facing_hint : str)
| CoreExitedReviewMode (id : str) (review_output : option ReviewOutputEvent)
| CoreFileChange (id : str) (changes : list (str * FileChange)) (status : option CorePatchApplyStatus)
    (auto_approved : option bool) (stdout stderr : option str)
| CoreMcpToolCall (item : McpToolCallItem)
| CoreContextCompaction (id : str).

(** ** Builders *)

Definition map_patch_change_kind (change : FileChange) : PatchChangeKind :=
  match change with
  | FcAdd _ => KindAdd
  | FcDelete _ => KindDelete
  | FcUpdate _ move_path => KindUpdate move_path
  end.

Definition format_file_change_diff (change : FileChange) : str :=
  match change with
  | FcAdd content | FcDelete content => content
  | FcUpdate unified_diff (Some path) => unified_diff ++ [nl; nl] ++ s!"Moved to: " ++ path
  | FcUpdate unified_diff None => unified_diff
  end.

Definition convert_patch_changes (changes : list (str * FileChange)) : list FileUpdateChange :=
  sort_by (fun a b => str_compare (fuc_path a) (fuc_path b))
    ((fun '(path, change) =>
        mkFileUpdate path (map_patch_change_kind change) (format_file_change_diff change))
     <$> changes).

(** The action of one parsed command; a file that cannot be resolved against
    the working directory gives none. *)
Definition command_action_for_path_uri (cwd : str) (parsed : ParsedCommand)
    : option CommandAction :=
  match parsed with
  | PcRead cmd name path =>
      match uri_join cwd path with
      | Some p => Some (ActRead (redact_secrets cmd) name (native_path p))
      | None => None
      end
  | PcListFiles cmd path => Some (ActListFiles (redact_secrets cmd) path)
  | PcSearch cmd query path => Some (ActSearch (redact_secrets cmd) (redact_secrets <$> query) path)
  | PcUnknown cmd => Some (ActUnknown (redact_secrets cmd))
  end.

Definition command_actions_for_path_uri (parsed_cmd : list ParsedCommand) (cwd : str)
    : list CommandAction :=
  omap (command_action_for_path_uri cwd) parsed_cmd.

(** [CommandExecutionPresentation::from_raw] *)
Definition presentation_from_raw (command : list str) (parsed_cmd : list ParsedCommand) (cwd : str)
    : str * list CommandAction :=
  (redact_secrets (shlex_join command), command_actions_for_path_uri parsed_cmd cwd).

Definition app_context_of (connector_id link_id resource_uri app_name action_name : option str)
    : option McpToolCallAppContext :=
  (fun c => mkAppContext c link_id resource_uri app_name action_name) <$> connector_id.

Definition mcp_result_of (r : CallToolResult) : McpToolCallResult :=
  mkMcpResult (cr_content r) (cr_structured_content r) (cr_meta r).

(** [From<CoreTurnItem> for ThreadItem] *)
Definition thread_item_of (value : TurnItem) : ThreadItem :=
  match value with
  | CoreUserMessage id client_id content => TI_UserMessage id client_id content
  | CoreHookPrompt id fragments => TI_HookPrompt id fragments
  | CoreAgentMessage id content phase citation =>
      TI_AgentMessage id (concat content) phase (citation_of_core <$> citation)
  | CorePlan id text => TI_Plan id text
  | CoreReasoning id summary_text raw_content => TI_Reasoning id summary_text raw_content
  | CoreCommandExecution c =>
      let '(command, actions) := presentation_from_raw (ci_command c) (ci_parsed_cmd c) (ci_cwd c) in
      TI_CommandExecution (ci_id c) (ci_plugin_id c) (ci_script_path c) command
        (native_path (ci_cwd c)) (ci_process_id c) (ci_source c) (ci_status c) actions
        (ci_aggregated_output c ≫= fun o => if is_empty o then None else Some o)
        (ci_exit_code c) (ci_duration c ≫= millis_i64)
  | CoreDynamicToolCall d =>
      TI_DynamicToolCall (di_id d) (di_namespace d) (di_tool d) (di_arguments d) (di_status d)
        (di_content_items d) (di_success d) (di_duration d ≫= millis_i64)
  | CoreCollabAgentToolCall c =>
      TI_CollabAgentToolCall (cti_id c) (cti_tool c) (cti_status c) (cti_sender_thread_id c)
        (cti_receiver_thread_ids c) (cti_prompt c) (cti_model c) (cti_reasoning_effort c)
        ((fun '(tid, s) => (tid, collab_state_of s)) <$> cti_agents_states c)
  | CoreSubAgentActivity id kind agent_thread_id agent_path =>
      TI_SubAgentActivity id kind agent_thread_id agent_path
  | CoreWebSearch id query action results =>
      TI_WebSearch (mkWebSearch id query (Some action) results)
  | CoreImageView id path => TI_ImageView id (native_path path)
  | CoreExtension (ExtImageGeneration item) => TI_ImageGeneration item
  | CoreExtension (ExtSleep item) => TI_Sleep item
  | CoreExtension (ExtWebSearch item) => TI_WebSearch item
  | CoreImageGeneration item => TI_ImageGeneration item
  | CoreEnteredReviewMode id _ hint => TI_EnteredReviewMode id hint
  | CoreExitedReviewMode id output => TI_ExitedReviewMode id (review_output_text output)
  | CoreFileChange id changes status _ _ _ =>
      TI_FileChange id (convert_patch_changes changes)
        (default PatchInProgress (patch_status <$> status))
  | CoreMcpToolCall m =>
      TI_McpToolCall (mi_id m) (mi_server m) (mi_tool m) (mi_status m) (mi_arguments m)
        (app_context_of (mi_connector_id m) (mi_link_id m) (mi_mcp_app_resource_uri m)
           (mi_app_name m) (mi_action_name m))
        (mi_mcp_app_resource_uri m) (mi_plugin_id m) (mi_read_only_hint m)
        (mcp_result_of <$> mi_result m) (mi_error m) (mi_duration m ≫= millis_i64)
  | CoreContextCompaction id => TI_ContextCompaction id
  end.

(** ** Events ([protocol/src/protocol.rs], [approvals.rs], [dynamic_tools.rs]) *)

Record ErrorEvent := mkErrorEvent {
  err_message : str; err_codex_error_info : option CodexErrorInfo }.

(** [ErrorEvent::affects_turn_status] *)
Definition affects_turn_status (e : ErrorEvent) : bool :=
  match err_codex_error_info e with
  | None => true
  | Some info => error_info_affects_turn_status info
  end.

Record UserMessageEvent := mkUserMessage {
  um_client_id : option str; um_message : str; um_images : option (list str);
  um_image_details : list (option ImageDetail); um_local_images : list str;
  um_local_image_details : list (option ImageDetail); um_audio : option (list str);
  um_local_audio : list str; um_text_elements : list TextElement }.

Record AgentMessageEvent := mkAgentMessageEvent {
  am_message : str; am_phase : option MessagePhase;
  am_memory_citation : option CoreMemoryCitation }.

Record ExecCommandBeginEvent := mkExecBegin {
  xb_call_id : str; xb_plugin_id : option str; xb_script_path : option str;
  xb_process_id : option str; xb_turn_id : str; xb_started_at_ms : Z; xb_command : list str;
  xb_cwd : str; xb_parsed_cmd : list ParsedCommand; xb_source : ExecCommandSource;
  xb_interaction_input : option str }.

Record ExecCommandEndEvent := mkExecEnd {
  xe_call_id : str; xe_plugin_id : option str; xe_script_path : option str;
  xe_process_id : option str; xe_turn_id : str; xe_completed_at_ms : Z; xe_command : list str;
  xe_cwd : str; xe_parsed_cmd : list ParsedCommand; xe_source : ExecCommandSource;
  xe_interaction_input : option str; xe_stdout : str; xe_stderr : str; xe_aggregated_output : str;
  xe_exit_code : Z; xe_duration : N; xe_formatted_output : str; xe_status : ExecCommandStatus }.

Inductive GuardianAssessmentStatus :=
| GuardianInProgress | GuardianApproved | GuardianDenied | GuardianTimedOut | GuardianAborted.

Inductive GuardianAssessmentAction :=
| GaCommand (source : Opaque) (command : str) (cwd : Path)
| GaExecve (source : Opaque) (program : str) (argv : list str) (cwd : Path)
| GaApplyPatch (cwd : Path) (files : list Path)
| GaNetworkAccess (target host : str) (protocol : Opaque) (port : N)
| GaMcpToolCall (server tool_name : str) (connector_id connector_name tool_title : option str)
| GaRequestPermissions (reason : option str) (permissions : Opaque).

Record GuardianAssessmentEvent := mkAssessment {
  ga_id : str; ga_target_item_id : option str; ga_plugin_id : option str;
  ga_script_path : option str; ga_turn_id : str; ga_started_at_ms : Z;
  ga_completed_at_ms : option Z; ga_status : GuardianAssessmentStatus;
  ga_risk_level : option Opaque; ga_user_authorization : option Opaque; ga_rationale : option str;
  ga_decision_source : option Opaque; ga_action : GuardianAssessmentAction }.

Record ApplyPatchApprovalRequestEvent := mkPatchRequest {
  pr_call_id : str; pr_turn_id : str; pr_started_at_ms : Z; pr_changes : list (str * FileChange);
  pr_reason : option str; pr_grant_root : option str }.

Record PatchApplyBeginEvent := mkPatchBegin {
  pb_call_id : str; pb_turn_id : str; pb_auto_approved : bool;
  pb_changes : list (str * FileChange) }.

Record PatchApplyEndEvent := mkPatchEnd {
  pe_call_id : str; pe_turn_id : str; pe_stdout : str; pe_stderr : str; pe_success : bool;
  pe_changes : list (str * FileChange); pe_status : CorePatchApplyStatus }.

Record DynamicToolCallRequest := mkDynamicRequest {
  dr_call_id : str; dr_turn_id : str; dr_started_at_ms : Z; dr_namespace : option str;
  dr_tool : str; dr_arguments : Json }.

Record DynamicToolCallResponseEvent := mkDynamicResponse {
  ds_call_id : str; ds_turn_id : str; ds_completed_at_ms : Z; ds_namespace : option str;
  ds_tool : str; ds_arguments : Json; ds_content_items : list DynamicToolCallOutputContentItem;
  ds_success : bool; ds_error : option str; ds_duration : N }.

Record McpInvocation := mkInvocation {
  inv_server : str; inv_tool : str; inv_arguments : option Json }.

Record McpToolCallBeginEvent := mkMcpBegin {
  mb_call_id : str; mb_invocation : McpInvocation; mb_connector_id : option str;
  mb_mcp_app_resource_uri : option str; mb_link_id : option str; mb_app_name : option str;
  mb_action_name : option str; mb_plugin_id : option str; mb_read_only_hint : option bool }.

Record McpToolCallEndEvent := mkMcpEnd {
  me_call_id : str; me_invocation : McpInvocation; me_connector_id : option str;
  me_mcp_app_resource_uri : option str; me_link_id : option str; me_app_name : option str;
  me_action_name : option str; me_plugin_id : option str; me_read_only_hint : option bool;
  me_duration : N; me_result : result CallToolResult str }.

(** [McpToolCallEndEvent::is_success] *)
Definition mcp_is_success (e : McpToolCallEndEvent) : bool :=
  match me_result e with
  | Ok r => negb (default false (cr_is_error r))
  | Err _ => false
  end.

Record ImageGenerationEndEvent := mkImageEnd {
  ie_call_id : str; ie_status : str; ie_revised_prompt : option str; ie_result : str;
  ie_saved_path : option Path }.

Record WebSearchEndEvent := mkSearchEnd {
  se_call_id : str; se_query : str; se_action : WebSearchAction; se_results : option (list Json) }.

Record CollabAgentSpawnBeginEvent := mkSpawnBegin {
  sb_call_id : str; sb_started_at_ms : Z; sb_sender_thread_id : str; sb_prompt : str;
  sb_model : str; sb_reasoning_effort : ReasoningEffort }.

Record CollabAgentSpawnEndEvent := mkSpawnEnd {
  sp_call_id : str; sp_completed_at_ms : Z; sp_sender_thread_id : str;
  sp_new_thread_id : option str; sp_new_agent_nickname : option str;
  sp_new_agent_role : option str; sp_prompt : str; sp_model : str;
  sp_reasoning_effort : ReasoningEffort; sp_status : AgentStatus }.

Record CollabAgentInteractionBeginEvent := mkInteractionBegin {
  ib_call_id : str; ib_started_at_ms : Z; ib_sender_thread_id : str; ib_receiver_thread_id : str;
  ib_prompt : str }.

Record CollabAgentInteractionEndEvent := mkInteractionEnd {
  in_call_id : str; in_completed_at_ms : Z; in_sender_thread_id : str; in_receiver_thread_id : str;
  in_receiver_agent_nickname : option str; in_receiver_agent_role : option str; in_prompt : str;
  in_status : AgentStatus }.

Record SubAgentActivityEvent := mkActivity {
  sa_event_id : str; sa_occurred_at_ms : Z; sa_agent_thread_id : str; sa_agent_path : str;
  sa_kind : SubAgentActivityKind }.

Record CollabWaitingBeginEvent := mkWaitingBegin {
  wb_started_at_ms : Z; wb_sender_thread_id : str; wb_receiver_thread_ids : list str;
  wb_receiver_agents : list Opaque; wb_call_id : str }.

Record CollabWaitingEndEvent := mkWaitingEnd {
  we_sender_thread_id : str; we_call_id : str; we_completed_at_ms : Z;
  we_agent_statuses : list Opaque; we_statuses : list (str * AgentStatus) }.

(** [CollabCloseBeginEvent] and, with the nickname and role the history does
    not show, [CollabResumeBeginEvent]. *)
Record CollabCloseBeginEvent := mkCloseBegin {
  cb_call_id : str; cb_started_at_ms : Z; cb_sender_thread_id : str; cb_receiver_thread_id : str }.

Record CollabCloseEndEvent := mkCloseEnd {
  ce_call_id : str; ce_completed_at_ms : Z; ce_sender_thread_id : str; ce_receiver_thread_id : str;
  ce_receiver_agent_nickname : option str; ce_receiver_agent_role : option str;
  ce_status : AgentStatus }.

Record CollabResumeBeginEvent := mkResumeBegin {
  rb_call_id : str; rb_started_at_ms : Z; rb_sender_thread_id : str; rb_receiver_thread_id : str;
  rb_receiver_agent_nickname : option str; rb_receiver_agent_role : option str }.

Record CollabResumeEndEvent := mkResumeEnd {
  re_call_id : str; re_completed_at_ms : Z; re_sender_thread_id : str; re_receiver_thread_id : str;
  re_receiver_agent_nickname : option str; re_receiver_agent_role : option str;
  re_status : AgentStatus }.

Record EnteredReviewModeEvent := mkEntered {
  er_target : Opaque; er_user_facing_hint : option str; er_turn_id : option str;
  er_item_id : option str }.

Record ExitedReviewModeEvent := mkExited {
  ex_turn_id : option str; ex_item_id : option str; ex_review_output : option ReviewOutputEvent }.

Record ItemStartedEvent := mkItemStarted {
  is_thread_id : str; is_turn_id : str; is_item : TurnItem; is_started_at_ms : Z }.

Record ItemCompletedEvent := mkItemCompleted {
  ic_thread_id : str; ic_turn_id : str; ic_item : TurnItem; ic_started_at_ms : option Z;
  ic_completed_at_ms : Z }.

Inductive TurnAbortReason := AbortInterrupted | AbortReplaced | AbortReviewEnded | AbortBudgetLimited.

Record TurnAbortedEvent := mkAborted {
  ta_turn_id : option str; ta_reason : TurnAbortReason; ta_started_at : option Z;
  ta_completed_at : option Z; ta_duration_ms : option Z }.

Record TurnCompleteEvent := mkTurnComplete {
  tc_turn_id : str; tc_last_agent_message : option str; tc_error : option ErrorEvent;
  tc_started_at : option Z; tc_completed_at : option Z; tc_duration_ms : option Z;
  tc_time_to_first_token_ms : option Z }.

Record TurnStartedEvent := mkTurnStarted {
  ts_turn_id : str; ts_trace_id : option str; ts_started_at : option Z;
  ts_model_context_window : option Z; ts_collaboration_mode_kind : Opaque }.

(** [EventMsg].  [Ev_Unreduced] stands for the transient variants that neither
    the reducer of a thread history nor the rollout policy looks into. *)
Inductive EventMsg :=
| Ev_Error (payload : ErrorEvent)
| Ev_ContextCompacted
| Ev_ThreadRolledBack (num_turns : N)
| Ev_TurnStarted (payload : TurnStartedEvent)
| Ev_TurnComplete (payload : TurnCompleteEvent)
| Ev_TokenCount (payload : Opaque)
| Ev_AgentMessage (payload : AgentMessageEvent)
| Ev_UserMessage (payload : UserMessageEvent)
| Ev_AgentReasoning (text : str)
| Ev_AgentReasoningRawContent (text : str)
| Ev_McpToolCallBegin (payload : McpToolCallBeginEvent)
| Ev_McpToolCallEnd (payload : McpToolCallEndEvent)
| Ev_WebSearchBegin (call_id : str)
| Ev_WebSearchEnd (payload : WebSearchEndEvent)
| Ev_ImageGenerationBegin (call_id : str)
| Ev_ImageGenerationEnd (payload : ImageGenerationEndEvent)
| Ev_ExecCommandBegin (payload : ExecCommandBeginEvent)
| Ev_ExecCommandEnd (payload : ExecCommandEndEvent)
| Ev_ViewImageToolCall (call_id path : str)
| Ev_DynamicToolCallRequest (payload : DynamicToolCallRequest)
| Ev_DynamicToolCallResponse (payload : DynamicToolCallResponseEvent)
| Ev_ApplyPatchApprovalRequest (payload : ApplyPatchApprovalRequestEvent)
| Ev_GuardianAssessment (payload : GuardianAssessmentEvent)
| Ev_PatchApplyBegin (payload : PatchApplyBeginEvent)
| Ev_PatchApplyEnd (payload : PatchApplyEndEvent)
| Ev_TurnAborted (payload : TurnAbortedEvent)
| Ev_EnteredReviewMode (payload : EnteredReviewModeEvent)
| Ev_ExitedReviewMode (payload : ExitedReviewModeEvent)
| Ev_ItemStarted (payload : ItemStartedEvent)
| Ev_ItemCompleted (payload : ItemCompletedEvent)
| Ev_HookStarted (payload : Opaque)
| Ev_HookCompleted (payload : Opaque)
| Ev_CollabAgentSpawnBegin (payload : CollabAgentSpawnBeginEvent)
| Ev_CollabAgentSpawnEnd (payload : CollabAgentSpawnEndEvent)
| Ev_CollabAgentInteractionBegin (payload : CollabAgentInteractionBeginEvent)
| Ev_CollabAgentInteractionEnd (payload : CollabAgentInteractionEndEvent)
| Ev_CollabWaitingBegin (payload : CollabWaitingBeginEvent)
| Ev_CollabWaitingEnd (payload : CollabWaitingEndEvent)
| Ev_CollabCloseBegin (payload : CollabCloseBeginEvent)
| Ev_CollabCloseEnd (payload : CollabCloseEndEvent)
| Ev_CollabResumeBegin (payload : CollabResumeBeginEvent)
| Ev_CollabResumeEnd (payload : CollabResumeEndEvent)
| Ev_SubAgentActivity (payload : SubAgentActivityEvent)
| Ev_ThreadGoalUpdated (payload : Opaque)
| Ev_ThreadSettingsApplied (payload : Opaque)
| Ev_Unreduced (payload : Opaque).

Record InterAgentCommunication := mkCommunication {
  iac_id : option str; iac_author : str; iac_recipient : str; iac_other_recipients : list str;
  iac_content : str; iac_encrypted_content : option str; iac_metadata : option Opaque;
  iac_trigger_turn : bool }.

(** [SessionMetaLine]: the identifier of the first context window and what replaying does not read. *)
Record SessionMetaLine := mkSessionMeta { sm_context_window : option str; sm_other : Opaque }.

Record CompactedItem := mkCompacted {
  cpt_message : str; cpt_replacement_history : option (list (ResponseItem Opaque));
  cpt_window_number : option N; cpt_first_window_id : option str;
  cpt_previous_window_id : option str; cpt_window_id : option str }.

(** [TurnContextItem]: what replaying reads, and the rest. *)
Record TurnContextItem := mkTurnContext {
  tcx_turn_id : option str; tcx_model : str; tcx_comp_hash : option str;
  tcx_realtime_active : option bool; tcx_other : Opaque }.

Record WorldStateItem := mkWorldStateItem { wst_full : bool; wst_state : Value }.

Inductive RolloutItem :=
| RI_SessionMeta (line : SessionMetaLine)
| RI_ResponseItem (item : ResponseItem Opaque)
| RI_InterAgentCommunication (communication : InterAgentCommunication)
| RI_InterAgentCommunicationMetadata (trigger_turn : bool)
| RI_Compacted (item : CompactedItem)
| RI_TurnContext (item : TurnContextItem)
| RI_WorldState (item : WorldStateItem)
| RI_EventMsg (event : EventMsg).

(** ** Items built from events *)

Definition build_file_change_approval_request_item (p : ApplyPatchApprovalRequestEvent)
    : ThreadItem :=
  TI_FileChange (pr_call_id p) (convert_patch_changes (pr_changes p)) PatchInProgress.

Definition build_file_change_begin_item (p : PatchApplyBeginEvent) : ThreadItem :=
  TI_FileChange (pb_call_id p) (convert_patch_changes (pb_changes p)) PatchInProgress.

Definition build_file_change_end_item (p : PatchApplyEndEvent) : ThreadItem :=
  TI_FileChange (pe_call_id p) (convert_patch_changes (pe_changes p)) (patch_status (pe_status p)).

Definition build_command_execution_begin_item (p : ExecCommandBeginEvent) : ThreadItem :=
  let '(command, actions) := presentation_from_raw (xb_command p) (xb_parsed_cmd p) (xb_cwd p) in
  TI_CommandExecution (xb_call_id p) (xb_plugin_id p) (xb_script_path p) command
    (native_path (xb_cwd p)) (xb_process_id p) (xb_source p) CmdInProgress actions None None None.

Definition build_command_execution_end_item (p : ExecCommandEndEvent) : ThreadItem :=
  let aggregated_output :=
    if is_empty (xe_aggregated_output p) then None else Some (xe_aggregated_output p) in
  let duration_ms := default I64_MAX (millis_i64 (xe_duration p)) in
  let '(command, actions) := presentation_from_raw (xe_command p) (xe_parsed_cmd p) (xe_cwd p) in
  TI_CommandExecution (xe_call_id p) (xe_plugin_id p) (xe_script_path p) command
    (native_path (xe_cwd p)) (xe_process_id p) (xe_source p) (exec_status (xe_status p)) actions
    aggregated_output (Some (xe_exit_code p)) (Some duration_ms).

(** [CommandAction::from_core_with_cwd] *)
Definition action_from_core_with_cwd `{Host} (cwd : Path) (value : ParsedCommand) : CommandAction :=
  match value with
  | PcRead cmd name path => ActRead cmd name (to_string_lossy (abs_join cwd (components path)))
  | PcListFiles cmd path => ActListFiles cmd path
  | PcSearch cmd query path => ActSearch cmd query path
  | PcUnknown cmd => ActUnknown cmd
  end.

Definition build_item_from_guardian_event `{Host} (a : GuardianAssessmentEvent)
    (status : CommandExecutionStatus) : option ThreadItem :=
  match ga_action a with
  | GaCommand _ command cwd =>
      id ← ga_target_item_id a;
      Some (TI_CommandExecution id (ga_plugin_id a) (ga_script_path a) command
              (to_string_lossy cwd) None Agent status [ActUnknown command] None None None)
  | GaExecve _ program argv cwd =>
      id ← ga_target_item_id a;
      let argv := match argv with [] => [program] | _ :: rest => program :: rest end in
      let command := shlex_join argv in
      let actions :=
        match parse_command argv with
        | [] => [ActUnknown command]
        | parsed_cmd => action_from_core_with_cwd cwd <$> parsed_cmd
        end in
      Some (TI_CommandExecution id (ga_plugin_id a) (ga_script_path a) command
              (to_string_lossy cwd) None Agent status actions None None None)
  | GaApplyPatch _ _ | GaNetworkAccess _ _ _ _ | GaMcpToolCall _ _ _ _ _
  | GaRequestPermissions _ _ => None
  end.

(** ** Hook prompts ([protocol/src/items.rs]) *)

Definition parse_hook_prompt_fragment (text : str) : option HookPromptFragment :=
  '(hook_run_id, text) ← from_xml_str (trim text);
  if is_empty (trim hook_run_id) then None else Some (mkFragment text hook_run_id).

(** [parse_hook_prompt_message] up to the identifier of the item. *)
Definition hook_prompt_fragments (content : list ContentItem) : option (list HookPromptFragment) :=
  fragments ← mapM (fun c => match c with
                             | MsgInputText text => parse_hook_prompt_fragment text
                             | _ => None
                             end) content;
  match fragments with [] => None | _ => Some fragments end.

End items.
