(* ===== verification/WorldState.v ===== *)
(** * The state shown to the model: [core/src/context/world_state/mod.rs],
      [ext/extension-api/src/contributors/world_state.rs],
      [ContextManager::update_world_state] and [context_manager/updates.rs]

    A world state is an ordered map of sections.  A section gives a snapshot
    (the JSON kept for comparison) and renders what the model must be told given
    what it was told before.  The sections themselves are parameters: a built-in
    one is its typed snapshot with [serde]'s conversions and its renderer, an
    extension's is its contribution. *)

From stdpp Require Import gmap.
From S2P Require Import Prelude.
From S2P Require Import RustStr.
From S2P Require Import Truncate.
From S2P Require Import OutputItems.
From S2P Require Import History.
From S2P Require Import HistoryOps.
From S2P Require Import MergePatch.
From S2P Require Import ThreadItems.

(** What is known about a section's previously model-visible state. *)
Inductive PreviousSectionState (T : Type) := Absent | Unknown | Known (previous : T).
Arguments Absent {T}.
Arguments Unknown {T}.
Arguments Known {T} previous.

Section world_state.
Context {W : Wire}.

(** [dyn ContextualUserFragment] *)
Record Fragment := mkContextFragment {
  fr_role : str;
  fr_requires_separate_message : bool;
  fr_text : str;
}.

(** ** Sections *)

(** [WorldStateSection], with [to_value] and [from_value] of its snapshot. *)
Record TypedSection := mkTyped {
  ts_snapshot_type : Type;
  ts_snapshot : ts_snapshot_type;
  ts_to_value : ts_snapshot_type -> option Value;
  ts_from_value : Value -> option ts_snapshot_type;
  ts_should_persist : bool;
  ts_matches_legacy : str -> str -> bool;
  ts_has_retained_matcher : bool;
  ts_matches_retained : str -> str -> bool;
  ts_render_diff : PreviousSectionState ts_snapshot_type -> option Fragment;
}.

Record WorldStateSectionContribution := mkContribution {
  wc_id : str;
  wc_snapshot : Value;
  wc_render_diff : PreviousSectionState Value -> option Fragment;
  wc_matches_legacy_fragment : str -> str -> bool;
  wc_matches_retained_fragment : option (str -> str -> bool);
}.

(** [dyn ErasedWorldStateSection] *)
Inductive ErasedSection :=
| BuiltIn (section : TypedSection)
| ExtensionSection (contribution : WorldStateSectionContribution).

(** [snapshot.is_null()] after [remove_null_object_fields]. *)
Definition persisted_value (v : Value) : option Value :=
  let v := remove_null_object_fields v in
  if is_null v then None else Some v.

Definition section_snapshot (s : ErasedSection) : option Value :=
  match s with
  | BuiltIn s =>
      if negb (ts_should_persist s) then None
      else match ts_to_value s (ts_snapshot s) with
           | None => None
           | Some snapshot => persisted_value snapshot
           end
  | ExtensionSection c => persisted_value (wc_snapshot c)
  end.

Definition matches_legacy_fragment (s : ErasedSection) : str -> str -> bool :=
  match s with
  | BuiltIn s => ts_matches_legacy s
  | ExtensionSection c => wc_matches_legacy_fragment c
  end.

Definition has_retained_fragment_matcher (s : ErasedSection) : bool :=
  match s with
  | BuiltIn s => ts_has_retained_matcher s
  | ExtensionSection c => match wc_matches_retained_fragment c with Some _ => true | None => false end
  end.

Definition matches_retained_fragment (s : ErasedSection) (role text : str) : bool :=
  match s with
  | BuiltIn s => ts_matches_retained s role text
  | ExtensionSection c =>
      match wc_matches_retained_fragment c with Some matcher => matcher role text | None => false end
  end.

Definition section_render_diff (s : ErasedSection) (previous : PreviousSectionState Value)
    : option Fragment :=
  match s with
  | BuiltIn s =>
      ts_render_diff s
        (match previous with
         | Known previous => match ts_from_value s previous with
                             | Some previous => Known previous
                             | None => Unknown
                             end
         | Absent => Absent
         | Unknown => Unknown
         end)
  | ExtensionSection c => wc_render_diff c previous
  end.

(** ** The world state *)

(** An [IndexMap]: the sections in order of insertion. *)
Definition WorldState : Type := list (str * ErasedSection).

Definition contains_section (id : str) (w : WorldState) : bool :=
  existsb (fun s => str_eqb s.1 id) w.

(** The assertion that the identifier is new panics ([None]). *)
Definition add_section (id : str) (section : TypedSection) (w : WorldState) : option WorldState :=
  if contains_section id w then None else Some (w ++ [(id, BuiltIn section)]).

Fixpoint insert_before (id : str) (entry : str * ErasedSection) (w : WorldState) : WorldState :=
  match w with
  | [] => [entry]
  | s :: rest => if str_eqb s.1 id then entry :: s :: rest else s :: insert_before id entry rest
  end.

Definition PERMISSIONS_ID : str := s!"permissions".

(** [host_skills] goes before the permissions, if they are there. *)
Definition add_extension_section (c : WorldStateSectionContribution) (w : WorldState) : option WorldState :=
  if contains_section (wc_id c) w then None
  else if str_eqb (wc_id c) s!"host_skills" && contains_section PERMISSIONS_ID w
  then Some (insert_before PERMISSIONS_ID (wc_id c, ExtensionSection c) w)
  else Some (w ++ [(wc_id c, ExtensionSection c)]).

(** [WorldState::snapshot]: collecting into a [BTreeMap]. *)
Definition snapshot (w : WorldState) : WorldStateSnapshot :=
  fold_left (fun m s => match section_snapshot s.2 with Some v => <[s.1 := v]> m | None => m end) w ∅.

(** ** Rendering *)

Definition render_with (previous : str -> ErasedSection -> PreviousSectionState Value) (w : WorldState)
    : list Fragment :=
  omap (fun s => section_render_diff s.2 (previous s.1 s.2)) w.

Definition render_full (w : WorldState) : list Fragment := render_with (fun _ _ => Absent) w.

Definition render_diff (w : WorldState) (previous : WorldStateSnapshot) : list Fragment :=
  render_with (fun id _ => match previous !! id with Some p => Known p | None => Absent end) w.

(** An [InputText] of a message that [matcher] recognises. *)
Definition has_fragment (matcher : str -> str -> bool) (items : list (ResponseItem Opaque)) : bool :=
  existsb (fun item => match item with
                       | Message _ role content _ _ =>
                           existsb (fun c => match c with MsgInputText text => matcher role text | _ => false end)
                             content
                       | _ => false
                       end) items.

Definition has_retained_fragment (items : list (ResponseItem Opaque)) (s : ErasedSection) : bool :=
  has_fragment (matches_retained_fragment s) items.

Definition has_legacy_fragment (items : list (ResponseItem Opaque)) (s : ErasedSection) : bool :=
  has_fragment (matches_legacy_fragment s) items.

Definition render_history_diff (w : WorldState) (previous : option WorldStateSnapshot)
    (items : list (ResponseItem Opaque)) : list Fragment :=
  render_with (fun id section =>
    match previous ≫= (.!! id) with
    | Some previous =>
        if has_retained_fragment_matcher section && negb (has_retained_fragment items section)
        then Absent else Known previous
    | None => if has_legacy_fragment items section then Unknown else Absent
    end) w.

(** ** [merge_contextual_fragments] *)

Inductive MessageGroup := Standalone | Mergeable.

#[global] Instance MessageGroup_eq_dec : EqDecision MessageGroup.
Proof. solve_decision. Defined.

(** One iteration, on the messages so far, the last one first. *)
Definition merge_fragment (messages : list (str * MessageGroup * list str)) (f : Fragment)
    : list (str * MessageGroup * list str) :=
  let group := if fr_requires_separate_message f then Standalone else Mergeable in
  match messages with
  | (previous_role, previous_group, text_sections) :: rest =>
      if str_eqb previous_role (fr_role f) && bool_decide (previous_group = Mergeable)
         && bool_decide (group = Mergeable)
      then (previous_role, previous_group, text_sections ++ [fr_text f]) :: rest
      else (fr_role f, group, [fr_text f]) :: messages
  | [] => [(fr_role f, group, [fr_text f])]
  end.

Definition build_text_message (role : str) (text_sections : list str) : option (ResponseItem Opaque) :=
  if is_empty text_sections then None
  else Some (Message None role (MsgInputText <$> text_sections) None None).

Definition merge_contextual_fragments (fragments : list Fragment) : list (ResponseItem Opaque) :=
  omap (fun m => build_text_message m.1.1 m.2) (rev (fold_left merge_fragment fragments [])).

(** ** [ContextManager::update_world_state] *)

Abbreviation Manager := (@ContextManager Opaque TurnContextItem WorldStateSnapshot).

Definition full_item (s : WorldStateSnapshot) : WorldStateItem := mkWorldStateItem true (into_value s).
Definition patch_item (patch : Value) : WorldStateItem := mkWorldStateItem false patch.

Definition update_world_state (w : WorldState) (m : Manager)
    : list Fragment * option WorldStateItem * Manager :=
  let s := snapshot w in
  let fragments := render_history_diff w (world_state_baseline m) (items m) in
  let rollout_item :=
    match world_state_baseline m with
    | None => Some (full_item s)
    | Some previous => patch_item <$> merge_patch_from s previous
    end in
  (fragments, rollout_item, set_world_state_baseline s m).

(** ** Laws *)

Lemma persisted_value_clean v x :
  persisted_value v = Some x -> is_null x = false /\ no_null_fields x = true.
Proof.
  unfold persisted_value. destruct (is_null _) eqn:E; [done|]. intros [= <-]. split; [done|]. apply cleaned.
Qed.

Lemma section_snapshot_clean s v :
  section_snapshot s = Some v -> is_null v = false /\ no_null_fields v = true.
Proof.
  destruct s as [s|c]; simpl; [|apply persisted_value_clean].
  destruct (negb _); [done|]. destruct (ts_to_value _ _); [apply persisted_value_clean|done].
Qed.

Definition clean_snapshot (s : WorldStateSnapshot) : Prop :=
  map_Forall (fun _ v => is_null v = false /\ no_null_fields v = true) s.

Lemma clean_snapshot_wf s : clean_snapshot s -> snapshot_wf s.
Proof. intros Hs. apply no_null_object, Hs. Qed.

(** Every snapshot of a world state can be the target of a merge patch. *)
Lemma snapshot_is_wf w : snapshot_wf (snapshot w).
Proof.
  apply clean_snapshot_wf. unfold snapshot.
  cut (forall m, clean_snapshot m -> clean_snapshot
    (fold_left (fun m s => match section_snapshot s.2 with Some v => <[s.1 := v]> m | None => m end) w m)).
  { intros Hw. apply Hw, map_Forall_empty. }
  induction w as [|[id s] w IH]; intros m Hm; [done|]. simpl. apply IH.
  destruct (section_snapshot s) as [v|] eqn:E; [|done].
  apply map_Forall_insert_2; [by eapply section_snapshot_clean|done].
Qed.

End world_state.
