(* ===== verification/ThreadHistory.v ===== *)
(** * Thread history: [app-server-protocol/src/protocol/thread_history.rs]

    [ThreadHistoryBuilder] folds the persisted items of a rollout into turns,
    and on request reports what each item changed.  The methods that take
    [&mut self] return the new builder.  [uuids] is not a field of the struct:
    it counts the identifiers [Uuid::now_v7] has returned, and no operation
    resets it.  Indices of rollout items are [N]; [next_item_index] is an [i64]
    and wraps as in a release build. *)

From stdpp Require Import gmap.
From S2P Require Import Prelude.
From S2P Require Import RustStr.
From S2P Require Import Paths.
From S2P Require Import SandboxRoots.
From S2P Require Import Truncate.
From S2P Require Import OutputItems.
From S2P Require Import History.
From S2P Require Import HistoryOps.
From S2P Require Import ThreadItems.

(** [iter_mut().find(p)] followed by a change [f] of what it found: the changed
    element and the list with it. *)
Fixpoint find_mut {A} (p : A -> bool) (f : A -> A) (l : list A) : option (A * list A) :=
  match l with
  | [] => None
  | x :: l' =>
      if p x then Some (f x, f x :: l')
      else match find_mut p f l' with
           | Some (y, r) => Some (y, x :: r)
           | None => None
           end
  end.

Section history.
Context {W : Wire} `{Host}.

(** ** Change sets *)

Record ThreadHistoryItemChange := mkItemChange {
  hic_turn_id : str;
  hic_item : ThreadItem;
  hic_started_at_ms : option Z;
  hic_completed_at_ms : option Z;
}.

Record ThreadHistoryTurnChange := mkTurnChange {
  htc_turn_id : str;
  htc_status : TurnStatus;
  htc_error : option TurnError;
  htc_started_at : option Z;
  htc_completed_at : option Z;
  htc_duration_ms : option Z;
}.

Record ThreadHistoryChangeSet := mkChangeSet {
  changed_items : list ThreadHistoryItemChange;
  changed_turns : list ThreadHistoryTurnChange;
  removed_turn_ids : list str;
}.

Definition empty_changes : ThreadHistoryChangeSet := mkChangeSet [] [] [].

(** [ThreadHistoryChangeSet::is_empty] *)
Definition changes_is_empty (c : ThreadHistoryChangeSet) : bool :=
  is_empty (changed_items c) && is_empty (changed_turns c) && is_empty (removed_turn_ids c).

(** ** State *)

Record PendingTurn := mkPending {
  p_id : str;
  p_items : list ThreadItem;
  p_error : option TurnError;
  p_status : TurnStatus;
  p_started_at : option Z;
  p_completed_at : option Z;
  p_duration_ms : option Z;
  p_opened_explicitly : bool;
  p_saw_compaction : bool;
  p_rollout_start_index : N;
}.

Record ThreadHistoryBuilder := mkBuilder {
  turns : list Turn;
  current_turn : option PendingTurn;
  next_item_index : Z;
  current_rollout_index : N;
  next_rollout_index : N;
  active_change_set : option ThreadHistoryChangeSet;
  uuids : nat;
}.

Implicit Types (b : ThreadHistoryBuilder) (t : PendingTurn) (item : ThreadItem).

Definition set_turns (l : list Turn) b : ThreadHistoryBuilder :=
  mkBuilder l (current_turn b) (next_item_index b) (current_rollout_index b)
    (next_rollout_index b) (active_change_set b) (uuids b).

Definition set_current (t : option PendingTurn) b : ThreadHistoryBuilder :=
  mkBuilder (turns b) t (next_item_index b) (current_rollout_index b)
    (next_rollout_index b) (active_change_set b) (uuids b).

Definition set_next_item_index (n : Z) b : ThreadHistoryBuilder :=
  mkBuilder (turns b) (current_turn b) n (current_rollout_index b)
    (next_rollout_index b) (active_change_set b) (uuids b).

Definition set_change_set (c : option ThreadHistoryChangeSet) b : ThreadHistoryBuilder :=
  mkBuilder (turns b) (current_turn b) (next_item_index b) (current_rollout_index b)
    (next_rollout_index b) c (uuids b).

(** [Uuid::now_v7().to_string()].  The identifiers are drawn in order from the
    sequence [now_v7]; two runs that are compared draw from the same one, so that
    they can be equal and not only equal up to renaming. *)
Definition draw_uuid b : str * ThreadHistoryBuilder :=
  (now_v7 (uuids b),
   mkBuilder (turns b) (current_turn b) (next_item_index b) (current_rollout_index b)
     (next_rollout_index b) (active_change_set b) (S (uuids b))).

Definition set_items (l : list ThreadItem) t : PendingTurn :=
  mkPending (p_id t) l (p_error t) (p_status t) (p_started_at t) (p_completed_at t)
    (p_duration_ms t) (p_opened_explicitly t) (p_saw_compaction t) (p_rollout_start_index t).

Definition set_saw_compaction t : PendingTurn :=
  mkPending (p_id t) (p_items t) (p_error t) (p_status t) (p_started_at t) (p_completed_at t)
    (p_duration_ms t) (p_opened_explicitly t) true (p_rollout_start_index t).

Definition opened_explicitly t : PendingTurn :=
  mkPending (p_id t) (p_items t) (p_error t) (p_status t) (p_started_at t) (p_completed_at t)
    (p_duration_ms t) true (p_saw_compaction t) (p_rollout_start_index t).

Definition with_status (status : TurnStatus) t : PendingTurn :=
  mkPending (p_id t) (p_items t) (p_error t) status (p_started_at t) (p_completed_at t)
    (p_duration_ms t) (p_opened_explicitly t) (p_saw_compaction t) (p_rollout_start_index t).

Definition with_started_at (started_at : option Z) t : PendingTurn :=
  mkPending (p_id t) (p_items t) (p_error t) (p_status t) started_at (p_completed_at t)
    (p_duration_ms t) (p_opened_explicitly t) (p_saw_compaction t) (p_rollout_start_index t).

(** The assignments to a turn's outcome, in progress and finished. *)
Definition set_outcome (status : TurnStatus) (error : option TurnError)
    (completed_at duration_ms : option Z) t : PendingTurn :=
  mkPending (p_id t) (p_items t) error status (p_started_at t) completed_at
    duration_ms (p_opened_explicitly t) (p_saw_compaction t) (p_rollout_start_index t).

Definition set_turn_outcome (status : TurnStatus) (error : option TurnError)
    (completed_at duration_ms : option Z) (t : Turn) : Turn :=
  mkTurn (t_id t) (t_items t) (t_items_view t) status error (t_started_at t) completed_at
    duration_ms.

Definition set_turn_items (l : list ThreadItem) (t : Turn) : Turn :=
  mkTurn (t_id t) l (t_items_view t) (t_status t) (t_error t) (t_started_at t)
    (t_completed_at t) (t_duration_ms t).

(** [From<PendingTurn> for Turn] *)
Definition turn_of t : Turn :=
  mkTurn (p_id t) (p_items t) Full (p_status t) (p_error t) (p_started_at t) (p_completed_at t)
    (p_duration_ms t).

Definition from_pending_turn t : ThreadHistoryTurnChange :=
  mkTurnChange (p_id t) (p_status t) (p_error t) (p_started_at t) (p_completed_at t)
    (p_duration_ms t).

Definition from_turn (t : Turn) : ThreadHistoryTurnChange :=
  mkTurnChange (t_id t) (t_status t) (t_error t) (t_started_at t) (t_completed_at t)
    (t_duration_ms t).

Definition new_builder (drawn : nat) : ThreadHistoryBuilder := mkBuilder [] None 1 0 0 None drawn.

Definition reset b : ThreadHistoryBuilder := new_builder (uuids b).

(** ** Recording changes *)

Definition is_tracking_changes b : bool :=
  match active_change_set b with Some _ => true | None => false end.

Definition record_changed_item (turn_id : str) item b : ThreadHistoryBuilder :=
  match active_change_set b with
  | Some c =>
      set_change_set
        (Some (mkChangeSet (changed_items c ++ [mkItemChange turn_id item None None])
                 (changed_turns c) (removed_turn_ids c))) b
  | None => b
  end.

Definition record_changed_turn (turn : ThreadHistoryTurnChange) b : ThreadHistoryBuilder :=
  match active_change_set b with
  | Some c =>
      set_change_set
        (Some (mkChangeSet (changed_items c) (changed_turns c ++ [turn]) (removed_turn_ids c))) b
  | None => b
  end.

Definition record_changed_pending_turn t b : ThreadHistoryBuilder :=
  if is_tracking_changes b then record_changed_turn (from_pending_turn t) b else b.

Definition record_removed_turn_ids (ids : list str) b : ThreadHistoryBuilder :=
  match active_change_set b with
  | Some c =>
      set_change_set
        (Some (mkChangeSet (changed_items c) (changed_turns c) (removed_turn_ids c ++ ids))) b
  | None => b
  end.

(** ** Turns and items *)

Definition finish_current_turn b : ThreadHistoryBuilder :=
  match current_turn b with
  | None => b
  | Some t =>
      let b := set_current None b in
      if is_empty (p_items t) && negb (p_opened_explicitly t) && negb (p_saw_compaction t) then b
      else set_turns (turns b ++ [turn_of t]) b
  end.

Definition synthetic_turn_id (n : N) : str := s!"rollout-" ++ digits_of_N n.

Definition new_turn (id : option str) b : PendingTurn * ThreadHistoryBuilder :=
  let '(id, b) :=
    match id with
    | Some id => (id, b)
    | None =>
        if (next_rollout_index b =? 0)%N then draw_uuid b
        else (synthetic_turn_id (current_rollout_index b), b)
    end in
  (mkPending id [] None TurnCompleted None None None false false (current_rollout_index b), b).

(** The turn that [ensure_turn] borrows, with the builder that holds it. *)
Definition ensure_turn b : PendingTurn * ThreadHistoryBuilder :=
  match current_turn b with
  | Some t => (t, b)
  | None =>
      let '(t, b) := new_turn None b in
      (t, set_current (Some t) (record_changed_pending_turn t b))
  end.

Definition push_item_in_current_turn item b : ThreadHistoryBuilder :=
  let tracking_changes := is_tracking_changes b in
  let '(t, b) := ensure_turn b in
  let b := set_current (Some (set_items (p_items t ++ [item]) t)) b in
  if tracking_changes then record_changed_item (p_id t) item b else b.

Definition upsert_turn_item (items : list ThreadItem) item : list ThreadItem :=
  match position (fun existing => str_eqb (item_id existing) (item_id item)) items with
  | Some idx => <[idx := item]> items
  | None => items ++ [item]
  end.

Definition upsert_item_in_turn_id (turn_id : str) item b : ThreadHistoryBuilder :=
  let tracking_changes := is_tracking_changes b in
  let in_finished :=
    match find_mut (fun f : Turn => str_eqb (t_id f) turn_id)
            (fun f : Turn => set_turn_items (upsert_turn_item (t_items f) item) f) (turns b) with
    | Some (f, l) =>
        let b := set_turns l b in
        if tracking_changes then record_changed_item (t_id f) item b else b
    | None => b
    end in
  match current_turn b with
  | Some t =>
      if str_eqb (p_id t) turn_id then
        let b := set_current (Some (set_items (upsert_turn_item (p_items t) item) t)) b in
        if tracking_changes then record_changed_item (p_id t) item b else b
      else in_finished
  | None => in_finished
  end.

Definition upsert_item_in_current_turn item b : ThreadHistoryBuilder :=
  let tracking_changes := is_tracking_changes b in
  let '(t, b) := ensure_turn b in
  let b := set_current (Some (set_items (upsert_turn_item (p_items t) item) t)) b in
  if tracking_changes then record_changed_item (p_id t) item b else b.

(** [if turn_id.is_empty() { upsert_item_in_current_turn } else { upsert_item_in_turn_id }],
    the end of the handlers of items with an optional turn. *)
Definition upsert_item_in_event_turn (turn_id : str) item b : ThreadHistoryBuilder :=
  if is_empty turn_id then upsert_item_in_current_turn item b
  else upsert_item_in_turn_id turn_id item b.

Definition generated_item_id (n : Z) : str :=
  s!"item-" ++ (if (n <? 0)%Z then s!"-" else []) ++ digits_of_N (Z.abs_N n).

Definition next_item_id b : str * ThreadHistoryBuilder :=
  (generated_item_id (next_item_index b),
   set_next_item_index (wrap_i64 (next_item_index b + 1)) b).

Definition upsert_review_mode_item (turn_id : option str) item b : ThreadHistoryBuilder :=
  match turn_id with
  | None => upsert_item_in_current_turn item b
  | Some turn_id =>
      let current_turn_matches :=
        match current_turn b with Some t => str_eqb (p_id t) turn_id | None => false end in
      let b :=
        if negb current_turn_matches
           && negb (existsb (fun f : Turn => str_eqb (t_id f) turn_id) (turns b)) then
          let '(t, b) := new_turn (Some turn_id) (finish_current_turn b) in
          set_current (Some t) (record_changed_pending_turn t b)
        else b in
      upsert_item_in_turn_id turn_id item b
  end.

(** ** Handlers: messages and reasoning *)

Definition enumerate_details {A} (mk : A -> option ImageDetail -> UserInput)
    (details : list (option ImageDetail)) (l : list A) : list UserInput :=
  imap (fun idx x => mk x (mjoin (details !! idx))) l.

Definition build_user_inputs (p : UserMessageEvent) : list UserInput :=
  (if is_empty (trim (um_message p)) then [] else [UiText (um_message p) (um_text_elements p)])
  ++ match um_images p with
     | Some images => enumerate_details UiImage (um_image_details p) images
     | None => []
     end
  ++ enumerate_details UiLocalImage (um_local_image_details p) (um_local_images p)
  ++ match um_audio p with Some audio => UiAudio <$> audio | None => [] end
  ++ (UiLocalAudio <$> um_local_audio p).

Definition handle_user_message (p : UserMessageEvent) b : ThreadHistoryBuilder :=
  let b :=
    match current_turn b with
    | Some t =>
        if negb (p_opened_explicitly t) && negb (p_saw_compaction t && is_empty (p_items t))
        then finish_current_turn b else b
    | None => b
    end in
  let '(id, b) := next_item_id b in
  push_item_in_current_turn (TI_UserMessage id (um_client_id p) (build_user_inputs p)) b.

Definition handle_agent_message (text : str) (phase : option MessagePhase)
    (memory_citation : option MemoryCitation) b : ThreadHistoryBuilder :=
  if is_empty text then b
  else
    let '(id, b) := next_item_id b in
    push_item_in_current_turn (TI_AgentMessage id text phase memory_citation) b.

(** The two kinds of reasoning text share everything but the field they extend:
    [extend] is the change of the last item, [None] when that is no reasoning
    item, and [fresh] the item otherwise created. *)
Definition handle_reasoning_text (text : str) (extend : ThreadItem -> option ThreadItem)
    (fresh : str -> ThreadItem) b : ThreadHistoryBuilder :=
  if is_empty text then b
  else
    let tracking_changes := is_tracking_changes b in
    let '(t, b) := ensure_turn b in
    match last (p_items t) ≫= extend with
    | Some item =>
        let b := set_current (Some (set_items (update_last (fun _ => item) (p_items t)) t)) b in
        if tracking_changes then record_changed_item (p_id t) item b else b
    | None =>
        let '(id, b) := next_item_id b in
        push_item_in_current_turn (fresh id) b
    end.

Definition handle_agent_reasoning (text : str) : ThreadHistoryBuilder -> ThreadHistoryBuilder :=
  handle_reasoning_text text
    (fun i => match i with
              | TI_Reasoning id summary content => Some (TI_Reasoning id (summary ++ [text]) content)
              | _ => None
              end)
    (fun id => TI_Reasoning id [text] []).

Definition handle_agent_reasoning_raw_content (text : str)
    : ThreadHistoryBuilder -> ThreadHistoryBuilder :=
  handle_reasoning_text text
    (fun i => match i with
              | TI_Reasoning id summary content => Some (TI_Reasoning id summary (content ++ [text]))
              | _ => None
              end)
    (fun id => TI_Reasoning id [] [text]).

Definition handle_response_item (item : ResponseItem Opaque) b : ThreadHistoryBuilder :=
  match item with
  | Message id role content _ _ =>
      if str_eqb role s!"user" then
        match hook_prompt_fragments content with
        | Some fragments =>
            let '(id, b) := match id with Some id => (id, b) | None => draw_uuid b end in
            push_item_in_current_turn (TI_HookPrompt id fragments) b
        | None => b
        end
      else b
  | _ => b
  end.

(** ** Handlers: materialised items *)

Definition is_review_mode_item (item : TurnItem) : bool :=
  match item with
  | CoreEnteredReviewMode _ _ _ | CoreExitedReviewMode _ _ => true
  | _ => false
  end.

Definition should_upsert (item : TurnItem) : bool :=
  match item with
  | CorePlan _ text => negb (is_empty text)
  | CoreHookPrompt _ _ | CoreCommandExecution _ | CoreDynamicToolCall _
  | CoreCollabAgentToolCall _ | CoreSubAgentActivity _ _ _ _ | CoreExtension _
  | CoreEnteredReviewMode _ _ _ | CoreExitedReviewMode _ _ => true
  | CoreUserMessage _ _ _ | CoreAgentMessage _ _ _ _ | CoreReasoning _ _ _
  | CoreWebSearch _ _ _ _ | CoreImageView _ _ | CoreImageGeneration _
  | CoreFileChange _ _ _ _ _ _ | CoreMcpToolCall _ | CoreContextCompaction _ => false
  end.

Definition handle_materialized_item_lifecycle (turn_id : str) (item : TurnItem) b
    : ThreadHistoryBuilder :=
  if should_upsert item then
    let thread_item := thread_item_of item in
    if is_review_mode_item item then upsert_review_mode_item (Some turn_id) thread_item b
    else upsert_item_in_turn_id turn_id thread_item b
  else b.

Definition handle_item_started (p : ItemStartedEvent) b : ThreadHistoryBuilder :=
  handle_materialized_item_lifecycle (is_turn_id p) (is_item p) b.

Definition handle_item_completed (p : ItemCompletedEvent) b : ThreadHistoryBuilder :=
  handle_materialized_item_lifecycle (ic_turn_id p) (ic_item p) b.

(** ** Handlers: tools *)

Definition handle_web_search_begin (call_id : str) b : ThreadHistoryBuilder :=
  upsert_item_in_current_turn (TI_WebSearch (mkWebSearch call_id [] None None)) b.

Definition handle_web_search_end (p : WebSearchEndEvent) b : ThreadHistoryBuilder :=
  upsert_item_in_current_turn
    (TI_WebSearch (mkWebSearch (se_call_id p) (se_query p) (Some (se_action p)) (se_results p))) b.

Definition handle_exec_command_begin (p : ExecCommandBeginEvent) b : ThreadHistoryBuilder :=
  upsert_item_in_turn_id (xb_turn_id p) (build_command_execution_begin_item p) b.

Definition handle_exec_command_end (p : ExecCommandEndEvent) b : ThreadHistoryBuilder :=
  upsert_item_in_turn_id (xe_turn_id p) (build_command_execution_end_item p) b.

Definition guardian_command_status (s : GuardianAssessmentStatus) : option CommandExecutionStatus :=
  match s with
  | GuardianInProgress => Some CmdInProgress
  | GuardianDenied | GuardianAborted => Some CmdDeclined
  | GuardianTimedOut => Some CmdFailed
  | GuardianApproved => None
  end.

Definition handle_guardian_assessment (p : GuardianAssessmentEvent) b : ThreadHistoryBuilder :=
  match guardian_command_status (ga_status p) ≫= build_item_from_guardian_event p with
  | Some item => upsert_item_in_event_turn (ga_turn_id p) item b
  | None => b
  end.

Definition handle_apply_patch_approval_request (p : ApplyPatchApprovalRequestEvent) b
    : ThreadHistoryBuilder :=
  upsert_item_in_event_turn (pr_turn_id p) (build_file_change_approval_request_item p) b.

Definition handle_patch_apply_begin (p : PatchApplyBeginEvent) b : ThreadHistoryBuilder :=
  upsert_item_in_event_turn (pb_turn_id p) (build_file_change_begin_item p) b.

Definition handle_patch_apply_end (p : PatchApplyEndEvent) b : ThreadHistoryBuilder :=
  upsert_item_in_event_turn (pe_turn_id p) (build_file_change_end_item p) b.

Definition handle_dynamic_tool_call_request (p : DynamicToolCallRequest) b : ThreadHistoryBuilder :=
  upsert_item_in_event_turn (dr_turn_id p)
    (TI_DynamicToolCall (dr_call_id p) (dr_namespace p) (dr_tool p) (dr_arguments p)
       CallInProgress None None None) b.

Definition convert_dynamic_tool_content_items (items : list DynamicToolCallOutputContentItem)
    : list DynamicToolCallOutputContentItem :=
  (fun i => match i with
            | DynInputText text => DynInputText text
            | DynInputImage image_url => DynInputImage image_url
            | DynInputAudio audio_url => DynInputAudio audio_url
            end) <$> items.

Definition handle_dynamic_tool_call_response (p : DynamicToolCallResponseEvent) b
    : ThreadHistoryBuilder :=
  upsert_item_in_event_turn (ds_turn_id p)
    (TI_DynamicToolCall (ds_call_id p) (ds_namespace p) (ds_tool p) (ds_arguments p)
       (if ds_success p then CallCompleted else CallFailed)
       (Some (convert_dynamic_tool_content_items (ds_content_items p)))
       (Some (ds_success p)) (millis_i64 (ds_duration p))) b.

Definition handle_mcp_tool_call_begin (p : McpToolCallBeginEvent) b : ThreadHistoryBuilder :=
  upsert_item_in_current_turn
    (TI_McpToolCall (mb_call_id p) (inv_server (mb_invocation p)) (inv_tool (mb_invocation p))
       CallInProgress (default json_null (inv_arguments (mb_invocation p)))
       (app_context_of (mb_connector_id p) (mb_link_id p) (mb_mcp_app_resource_uri p)
          (mb_app_name p) (mb_action_name p))
       (mb_mcp_app_resource_uri p) (mb_plugin_id p) (mb_read_only_hint p) None None None) b.

Definition handle_mcp_tool_call_end (p : McpToolCallEndEvent) b : ThreadHistoryBuilder :=
  let status := if mcp_is_success p then CallCompleted else CallFailed in
  let '(res, error) :=
    match me_result p with
    | Ok value => (Some (mcp_result_of value), None)
    | Err message => (None, Some message)
    end in
  upsert_item_in_current_turn
    (TI_McpToolCall (me_call_id p) (inv_server (me_invocation p)) (inv_tool (me_invocation p))
       status (default json_null (inv_arguments (me_invocation p)))
       (app_context_of (me_connector_id p) (me_link_id p) (me_mcp_app_resource_uri p)
          (me_app_name p) (me_action_name p))
       (me_mcp_app_resource_uri p) (me_plugin_id p) (me_read_only_hint p) res error
       (millis_i64 (me_duration p))) b.

Definition handle_view_image_tool_call (call_id path : str) b : ThreadHistoryBuilder :=
  upsert_item_in_current_turn (TI_ImageView call_id (native_path path)) b.

Definition handle_image_generation_begin (call_id : str) b : ThreadHistoryBuilder :=
  upsert_item_in_current_turn (TI_ImageGeneration (mkImageGeneration call_id [] None [] None)) b.

Definition handle_image_generation_end (p : ImageGenerationEndEvent) b : ThreadHistoryBuilder :=
  upsert_item_in_current_turn
    (TI_ImageGeneration (mkImageGeneration (ie_call_id p) (ie_status p) (ie_revised_prompt p)
       (ie_result p) (ie_saved_path p))) b.

(** ** Handlers: agents *)

Definition is_agent_failure (s : AgentStatus) : bool :=
  match s with AgentErrored _ | AgentNotFound => true | _ => false end.

Definition collab_call_status (s : AgentStatus) : ToolCallStatus :=
  if is_agent_failure s then CallFailed else CallCompleted.

Definition handle_collab_agent_spawn_begin (p : CollabAgentSpawnBeginEvent) b : ThreadHistoryBuilder :=
  upsert_item_in_current_turn
    (TI_CollabAgentToolCall (sb_call_id p) SpawnAgent CallInProgress (sb_sender_thread_id p) []
       (Some (sb_prompt p)) (Some (sb_model p)) (Some (sb_reasoning_effort p)) []) b.

Definition handle_collab_agent_spawn_end (p : CollabAgentSpawnEndEvent) b : ThreadHistoryBuilder :=
  let has_receiver := match sp_new_thread_id p with Some _ => true | None => false end in
  let status :=
    if is_agent_failure (sp_status p) then CallFailed
    else if has_receiver then CallCompleted else CallFailed in
  let '(receiver_thread_ids, agents_states) :=
    match sp_new_thread_id p with
    | Some id => ([id], [(id, collab_state_of (sp_status p))])
    | None => ([], [])
    end in
  upsert_item_in_current_turn
    (TI_CollabAgentToolCall (sp_call_id p) SpawnAgent status (sp_sender_thread_id p)
       receiver_thread_ids (Some (sp_prompt p)) (Some (sp_model p))
       (Some (sp_reasoning_effort p)) agents_states) b.

Definition handle_collab_agent_interaction_begin (p : CollabAgentInteractionBeginEvent) b
    : ThreadHistoryBuilder :=
  upsert_item_in_current_turn
    (TI_CollabAgentToolCall (ib_call_id p) SendInput CallInProgress (ib_sender_thread_id p)
       [ib_receiver_thread_id p] (Some (ib_prompt p)) None None []) b.

Definition handle_collab_agent_interaction_end (p : CollabAgentInteractionEndEvent) b
    : ThreadHistoryBuilder :=
  let receiver_id := in_receiver_thread_id p in
  upsert_item_in_current_turn
    (TI_CollabAgentToolCall (in_call_id p) SendInput (collab_call_status (in_status p))
       (in_sender_thread_id p) [receiver_id] (Some (in_prompt p)) None None
       [(receiver_id, collab_state_of (in_status p))]) b.

Definition handle_sub_agent_activity (p : SubAgentActivityEvent) b : ThreadHistoryBuilder :=
  upsert_item_in_current_turn
    (TI_SubAgentActivity (sa_event_id p) (sa_kind p) (sa_agent_thread_id p) (sa_agent_path p)) b.

Definition handle_collab_waiting_begin (p : CollabWaitingBeginEvent) b : ThreadHistoryBuilder :=
  upsert_item_in_current_turn
    (TI_CollabAgentToolCall (wb_call_id p) WaitAgents CallInProgress (wb_sender_thread_id p)
       (wb_receiver_thread_ids p) None None None []) b.

Definition handle_collab_waiting_end (p : CollabWaitingEndEvent) b : ThreadHistoryBuilder :=
  let status :=
    if existsb (fun e => is_agent_failure e.2) (we_statuses p) then CallFailed
    else CallCompleted in
  upsert_item_in_current_turn
    (TI_CollabAgentToolCall (we_call_id p) WaitAgents status (we_sender_thread_id p)
       (sort_by str_compare (we_statuses p).*1) None None None
       ((fun e => (e.1, collab_state_of e.2)) <$> we_statuses p)) b.

Definition handle_collab_close_begin (p : CollabCloseBeginEvent) b : ThreadHistoryBuilder :=
  upsert_item_in_current_turn
    (TI_CollabAgentToolCall (cb_call_id p) CloseAgent CallInProgress (cb_sender_thread_id p)
       [cb_receiver_thread_id p] None None None []) b.

Definition handle_collab_close_end (p : CollabCloseEndEvent) b : ThreadHistoryBuilder :=
  let receiver_id := ce_receiver_thread_id p in
  upsert_item_in_current_turn
    (TI_CollabAgentToolCall (ce_call_id p) CloseAgent (collab_call_status (ce_status p))
       (ce_sender_thread_id p) [receiver_id] None None None
       [(receiver_id, collab_state_of (ce_status p))]) b.

Definition handle_collab_resume_begin (p : CollabResumeBeginEvent) b : ThreadHistoryBuilder :=
  upsert_item_in_current_turn
    (TI_CollabAgentToolCall (rb_call_id p) ResumeAgent CallInProgress (rb_sender_thread_id p)
       [rb_receiver_thread_id p] None None None []) b.

Definition handle_collab_resume_end (p : CollabResumeEndEvent) b : ThreadHistoryBuilder :=
  let receiver_id := re_receiver_thread_id p in
  upsert_item_in_current_turn
    (TI_CollabAgentToolCall (re_call_id p) ResumeAgent (collab_call_status (re_status p))
       (re_sender_thread_id p) [receiver_id] None None None
       [(receiver_id, collab_state_of (re_status p))]) b.

(** ** Handlers: compaction and review mode *)

Definition handle_context_compacted b : ThreadHistoryBuilder :=
  let '(id, b) := next_item_id b in
  push_item_in_current_turn (TI_ContextCompaction id) b.

Definition handle_compacted b : ThreadHistoryBuilder :=
  let '(t, b) := ensure_turn b in set_current (Some (set_saw_compaction t)) b.

(** [item_id.clone().unwrap_or_else(|| self.next_item_id())] *)
Definition item_id_or_next (item_id : option str) b : str * ThreadHistoryBuilder :=
  match item_id with Some id => (id, b) | None => next_item_id b end.

Definition handle_entered_review_mode (p : EnteredReviewModeEvent) b : ThreadHistoryBuilder :=
  let review := default s!"Review requested." (er_user_facing_hint p) in
  let '(id, b) := item_id_or_next (er_item_id p) b in
  upsert_review_mode_item (er_turn_id p) (TI_EnteredReviewMode id review) b.

Definition handle_exited_review_mode (p : ExitedReviewModeEvent) b : ThreadHistoryBuilder :=
  let review := review_output_text (ex_review_output p) in
  let '(id, b) := item_id_or_next (ex_item_id p) b in
  upsert_review_mode_item (ex_turn_id p) (TI_ExitedReviewMode id review) b.

(** ** Handlers: turns *)

Definition turn_error_of (e : ErrorEvent) : TurnError :=
  mkTurnError (err_message e) (err_codex_error_info e) None.

Definition handle_error (p : ErrorEvent) b : ThreadHistoryBuilder :=
  if affects_turn_status p then
    let tracking_changes := is_tracking_changes b in
    match current_turn b with
    | Some t =>
        let t := set_outcome TurnFailed (Some (turn_error_of p)) (p_completed_at t)
                   (p_duration_ms t) t in
        let b := set_current (Some t) b in
        if tracking_changes then record_changed_turn (from_pending_turn t) b else b
    | None => b
    end
  else b.

(** The closure [apply_abort] and its inlined twin on a finished turn. *)
Definition apply_abort (p : TurnAbortedEvent) t : PendingTurn :=
  set_outcome TurnInterrupted (p_error t) (ta_completed_at p) (ta_duration_ms p) t.
Definition apply_abort_turn (p : TurnAbortedEvent) (t : Turn) : Turn :=
  set_turn_outcome TurnInterrupted (t_error t) (ta_completed_at p) (ta_duration_ms p) t.

Definition abort_current (p : TurnAbortedEvent) b : ThreadHistoryBuilder :=
  match current_turn b with
  | Some t =>
      let t := apply_abort p t in
      record_changed_turn (from_pending_turn t) (set_current (Some t) b)
  | None => b
  end.

Definition handle_turn_aborted (p : TurnAbortedEvent) b : ThreadHistoryBuilder :=
  match ta_turn_id p with
  | Some turn_id =>
      let current_matches :=
        match current_turn b with Some t => str_eqb (p_id t) turn_id | None => false end in
      if current_matches then abort_current p b
      else
        match find_mut (fun f : Turn => str_eqb (t_id f) turn_id) (apply_abort_turn p) (turns b) with
        | Some (f, l) => record_changed_turn (from_turn f) (set_turns l b)
        | None => abort_current p b
        end
  | None => abort_current p b
  end.

Definition handle_turn_started (p : TurnStartedEvent) b : ThreadHistoryBuilder :=
  let '(t, b) := new_turn (Some (ts_turn_id p)) (finish_current_turn b) in
  let t := opened_explicitly (with_started_at (ts_started_at p) (with_status TurnInProgress t)) in
  set_current (Some t) (record_changed_pending_turn t b).

(** The status and error of a turn that completes, and the closure
    [apply_completion] with its inlined twin. *)
Definition completion (terminal_error : option TurnError) (status : TurnStatus)
    (error : option TurnError) : TurnStatus * option TurnError :=
  match terminal_error with
  | Some e => (TurnFailed, Some e)
  | None =>
      match status with
      | TurnCompleted | TurnInProgress => (TurnCompleted, error)
      | _ => (status, error)
      end
  end.

Definition apply_completion (p : TurnCompleteEvent) t : PendingTurn :=
  let '(status, error) := completion (turn_error_of <$> tc_error p) (p_status t) (p_error t) in
  set_outcome status error (tc_completed_at p) (tc_duration_ms p) t.
Definition apply_completion_turn (p : TurnCompleteEvent) (t : Turn) : Turn :=
  let '(status, error) := completion (turn_error_of <$> tc_error p) (t_status t) (t_error t) in
  set_turn_outcome status error (tc_completed_at p) (tc_duration_ms p) t.

Definition complete_current (p : TurnCompleteEvent) b : ThreadHistoryBuilder :=
  match current_turn b with
  | Some t =>
      let t := apply_completion p t in
      finish_current_turn (record_changed_turn (from_pending_turn t) (set_current (Some t) b))
  | None => b
  end.

Definition handle_turn_complete (p : TurnCompleteEvent) b : ThreadHistoryBuilder :=
  let current_matches :=
    match current_turn b with Some t => str_eqb (p_id t) (tc_turn_id p) | None => false end in
  if current_matches then complete_current p b
  else
    match find_mut (fun f : Turn => str_eqb (t_id f) (tc_turn_id p)) (apply_completion_turn p)
            (turns b) with
    | Some (f, l) => record_changed_turn (from_turn f) (set_turns l b)
    | None => complete_current p b
    end.

(** [n] is a [u32], so its conversion to [usize] succeeds. *)
Definition handle_thread_rollback (n : N) b : ThreadHistoryBuilder :=
  let b := finish_current_turn b in
  let len := lenN (turns b) in
  let removed_turn_ids :=
    if (len <=? n)%N then t_id <$> turns b
    else if (n =? 0)%N then []
    else t_id <$> drop (N.to_nat (len - n)) (turns b) in
  let b := record_removed_turn_ids removed_turn_ids b in
  let b :=
    if (len <=? n)%N then set_turns [] b
    else set_turns (take (N.to_nat (len - n)) (turns b)) b in
  let item_count := fold_left N.add ((fun f : Turn => lenN (t_items f)) <$> turns b) 0%N in
  set_next_item_index (i64_of_usize (sat_add item_count 1)) b.

(** ** The reducer *)

Definition handle_event (event : EventMsg) b : ThreadHistoryBuilder :=
  match event with
  | Ev_UserMessage p => handle_user_message p b
  | Ev_AgentMessage p =>
      handle_agent_message (am_message p) (am_phase p) (citation_of_core <$> am_memory_citation p) b
  | Ev_AgentReasoning text => handle_agent_reasoning text b
  | Ev_AgentReasoningRawContent text => handle_agent_reasoning_raw_content text b
  | Ev_WebSearchBegin call_id => handle_web_search_begin call_id b
  | Ev_WebSearchEnd p => handle_web_search_end p b
  | Ev_ExecCommandBegin p => handle_exec_command_begin p b
  | Ev_ExecCommandEnd p => handle_exec_command_end p b
  | Ev_GuardianAssessment p => handle_guardian_assessment p b
  | Ev_ApplyPatchApprovalRequest p => handle_apply_patch_approval_request p b
  | Ev_PatchApplyBegin p => handle_patch_apply_begin p b
  | Ev_PatchApplyEnd p => handle_patch_apply_end p b
  | Ev_DynamicToolCallRequest p => handle_dynamic_tool_call_request p b
  | Ev_DynamicToolCallResponse p => handle_dynamic_tool_call_response p b
  | Ev_McpToolCallBegin p => handle_mcp_tool_call_begin p b
  | Ev_McpToolCallEnd p => handle_mcp_tool_call_end p b
  | Ev_ViewImageToolCall call_id path => handle_view_image_tool_call call_id path b
  | Ev_ImageGenerationBegin call_id => handle_image_generation_begin call_id b
  | Ev_ImageGenerationEnd p => handle_image_generation_end p b
  | Ev_CollabAgentSpawnBegin p => handle_collab_agent_spawn_begin p b
  | Ev_CollabAgentSpawnEnd p => handle_collab_agent_spawn_end p b
  | Ev_CollabAgentInteractionBegin p => handle_collab_agent_interaction_begin p b
  | Ev_CollabAgentInteractionEnd p => handle_collab_agent_interaction_end p b
  | Ev_SubAgentActivity p => handle_sub_agent_activity p b
  | Ev_CollabWaitingBegin p => handle_collab_waiting_begin p b
  | Ev_CollabWaitingEnd p => handle_collab_waiting_end p b
  | Ev_CollabCloseBegin p => handle_collab_close_begin p b
  | Ev_CollabCloseEnd p => handle_collab_close_end p b
  | Ev_CollabResumeBegin p => handle_collab_resume_begin p b
  | Ev_CollabResumeEnd p => handle_collab_resume_end p b
  | Ev_ContextCompacted => handle_context_compacted b
  | Ev_EnteredReviewMode p => handle_entered_review_mode p b
  | Ev_ExitedReviewMode p => handle_exited_review_mode p b
  | Ev_ItemStarted p => handle_item_started p b
  | Ev_ItemCompleted p => handle_item_completed p b
  | Ev_HookStarted _ | Ev_HookCompleted _ => b
  | Ev_Error p => handle_error p b
  | Ev_TokenCount _ => b
  | Ev_ThreadRolledBack num_turns => handle_thread_rollback num_turns b
  | Ev_TurnAborted p => handle_turn_aborted p b
  | Ev_TurnStarted p => handle_turn_started p b
  | Ev_TurnComplete p => handle_turn_complete p b
  | Ev_ThreadGoalUpdated _ | Ev_ThreadSettingsApplied _ | Ev_Unreduced _ => b
  end.

(** The two assignments at the head of [handle_rollout_item]. *)
Definition advance_rollout_index b : ThreadHistoryBuilder :=
  mkBuilder (turns b) (current_turn b) (next_item_index b) (next_rollout_index b)
    (next_rollout_index b + 1) (active_change_set b) (uuids b).

Definition handle_rollout_item (item : RolloutItem) b : ThreadHistoryBuilder :=
  let b := advance_rollout_index b in
  match item with
  | RI_EventMsg event => handle_event event b
  | RI_Compacted _ => handle_compacted b
  | RI_ResponseItem item => handle_response_item item b
  | RI_InterAgentCommunication _ | RI_InterAgentCommunicationMetadata _ | RI_TurnContext _
  | RI_WorldState _ | RI_SessionMeta _ => b
  end.

Definition finish b : list Turn := turns (finish_current_turn b).

Definition build_turns_from_rollout_items (items : list RolloutItem) : list Turn :=
  finish (fold_left (fun b i => handle_rollout_item i b) items (new_builder 0)).

(** ** Incremental changes *)

(** The debug assertion that no change set is active is left out: no handler
    leaves one behind. *)
Definition collect_changes (handle : ThreadHistoryBuilder -> ThreadHistoryBuilder) b
    : ThreadHistoryChangeSet * ThreadHistoryBuilder :=
  let b := handle (set_change_set (Some empty_changes) b) in
  (default empty_changes (active_change_set b), set_change_set None b).

Definition handle_event_with_changes (event : EventMsg) b :=
  collect_changes (handle_event event) b.

Definition handle_rollout_item_with_changes (item : RolloutItem) b :=
  collect_changes (handle_rollout_item item) b.

(** ** Coalescing the changes of a batch *)

Record ThreadHistoryChangeAccumulator := mkAcc {
  acc_items : list (option ThreadHistoryItemChange);
  acc_item_indexes : gmap (str * str) nat;
  acc_turns : list (option ThreadHistoryTurnChange);
  acc_turn_indexes : gmap str nat;
  acc_removed : list str;
  acc_removed_indexes : gmap str nat;
}.

Definition empty_acc : ThreadHistoryChangeAccumulator := mkAcc [] ∅ [] ∅ [] ∅.

Implicit Types a : ThreadHistoryChangeAccumulator.

Definition change_key (change : ThreadHistoryItemChange) : str * str :=
  (hic_turn_id change, item_id (hic_item change)).

Definition push_item_change a (change : ThreadHistoryItemChange) : ThreadHistoryChangeAccumulator :=
  let key := change_key change in
  match acc_item_indexes a !! key with
  | Some index =>
      mkAcc (<[index := Some change]> (acc_items a)) (acc_item_indexes a) (acc_turns a)
        (acc_turn_indexes a) (acc_removed a) (acc_removed_indexes a)
  | None =>
      mkAcc (acc_items a ++ [Some change]) (<[key := length (acc_items a)]> (acc_item_indexes a))
        (acc_turns a) (acc_turn_indexes a) (acc_removed a) (acc_removed_indexes a)
  end.

Definition push_turn_change a (change : ThreadHistoryTurnChange) : ThreadHistoryChangeAccumulator :=
  let key := htc_turn_id change in
  match acc_turn_indexes a !! key with
  | Some index =>
      mkAcc (acc_items a) (acc_item_indexes a) (<[index := Some change]> (acc_turns a))
        (acc_turn_indexes a) (acc_removed a) (acc_removed_indexes a)
  | None =>
      mkAcc (acc_items a) (acc_item_indexes a) (acc_turns a ++ [Some change])
        (<[key := length (acc_turns a)]> (acc_turn_indexes a)) (acc_removed a)
        (acc_removed_indexes a)
  end.

(** The loop over the keys to remove: take an entry out of the index map and
    clear the slot it points to. *)
Definition remove_keys {K A} `{Countable K} (keys : list K) (idx : gmap K nat) (slots : list (option A))
    : gmap K nat * list (option A) :=
  fold_left (fun '(idx, slots) key =>
    match idx !! key with
    | Some index => (delete key idx, <[index := None]> slots)
    | None => (idx, slots)
    end) keys (idx, slots).

Definition push_removed_turn_id a (turn_id : str) : ThreadHistoryChangeAccumulator :=
  let '(removed, removed_indexes) :=
    match acc_removed_indexes a !! turn_id with
    | Some _ => (acc_removed a, acc_removed_indexes a)
    | None => (acc_removed a ++ [turn_id],
               <[turn_id := length (acc_removed a)]> (acc_removed_indexes a))
    end in
  let '(turn_indexes, turn_slots) := remove_keys [turn_id] (acc_turn_indexes a) (acc_turns a) in
  let removed_item_keys :=
    filter (fun key => key.1 = turn_id) (map_to_list (acc_item_indexes a)).*1 in
  let '(item_indexes, item_slots) :=
    remove_keys removed_item_keys (acc_item_indexes a) (acc_items a) in
  mkAcc item_slots item_indexes turn_slots turn_indexes removed removed_indexes.

(** [ThreadHistoryChangeAccumulator::push] *)
Definition acc_push a (changes : ThreadHistoryChangeSet) : ThreadHistoryChangeAccumulator :=
  let a := fold_left push_removed_turn_id (removed_turn_ids changes) a in
  let a := fold_left push_item_change (changed_items changes) a in
  fold_left push_turn_change (changed_turns changes) a.

(** [ThreadHistoryChangeAccumulator::finish]; [into_iter().flatten()] drops the
    cleared slots. *)
Definition acc_finish a : ThreadHistoryChangeSet :=
  mkChangeSet (omap id (acc_items a)) (omap id (acc_turns a)) (acc_removed a).

Fixpoint push_all (items : list RolloutItem) a b
    : ThreadHistoryChangeAccumulator * ThreadHistoryBuilder :=
  match items with
  | [] => (a, b)
  | i :: rest =>
      let '(changes, b) := handle_rollout_item_with_changes i b in
      push_all rest (acc_push a changes) b
  end.

Definition handle_rollout_items_with_changes (items : list RolloutItem) b
    : ThreadHistoryChangeSet * ThreadHistoryBuilder :=
  let '(a, b) := push_all items empty_acc b in (acc_finish a, b).

(** ** Snapshots *)

Definition active_turn_snapshot b : option Turn :=
  match current_turn b with Some t => Some (turn_of t) | None => last (turns b) end.

Definition active_turn_id b : option str :=
  match current_turn b with Some t => Some (p_id t) | None => t_id <$> last (turns b) end.

Definition turn_snapshot (turn_id : str) b : option Turn :=
  let finished := List.find (fun f : Turn => str_eqb (t_id f) turn_id) (turns b) in
  match current_turn b with
  | Some t => if str_eqb (p_id t) turn_id then Some (turn_of t) else finished
  | None => finished
  end.

Definition active_turn_position b : option nat :=
  match current_turn b with
  | Some _ => Some (length (turns b))
  | None => match turns b with [] => None | _ => Some (length (turns b) - 1) end
  end.

Definition has_active_turn b : bool :=
  match current_turn b with Some _ => true | None => false end.

Definition active_turn_id_if_explicit b : option str :=
  t ← current_turn b; if p_opened_explicitly t then Some (p_id t) else None.

Definition active_turn_start_index b : option N := p_rollout_start_index <$> current_turn b.

End history.
