(* ===== verification/ThreadHistoryFacts.v ===== *)
(** * Laws of the thread history

    A client of [ThreadHistoryBuilder] keeps two tables, one of turns and one of
    items, and applies to them the change sets it receives.  The first part
    shows that the change set of a batch, coalesced by the accumulator, has the
    effect of the change sets of its items one after the other; the second that
    the tables always show exactly the turns of the builder; the third what the
    identifiers of turns and items guarantee. *)

From stdpp Require Import gmap.
From S2P Require Import Prelude.
From S2P Require Import RustStr.
From S2P Require Import Paths.
From S2P Require Import Truncate.
From S2P Require Import History.
From S2P Require Import HistoryOps.
From S2P Require Import Tables.
From S2P Require Import ThreadItems.
From S2P Require Import ThreadHistory.

(** ** Slots with an index *)

Section slots.
Context {A K : Type} `{Countable K} (key : A -> K).
Implicit Types (slots : list (option A)) (idx : gmap K nat).

(** The index holds exactly the positions of the occupied slots. *)
Definition slots_ok (idx : gmap K nat) (slots : list (option A)) : Prop :=
  forall k i, idx !! k = Some i <-> exists v, slots !! i = Some (Some v) /\ key v = k.

Definition occupied (slots : list (option A)) : list A := omap id slots.

Lemma occupied_app s1 s2 : occupied (s1 ++ s2) = occupied s1 ++ occupied s2.
Proof. apply omap_app. Qed.

Lemma elem_of_occupied slots v : v ∈ occupied slots <-> exists i, slots !! i = Some (Some v).
Proof.
  unfold occupied. rewrite list_elem_of_omap. split.
  - intros (o & Ho & E). apply list_elem_of_lookup in Ho as [i Hi]. exists i.
    unfold id in *. congruence.
  - intros [i Hi]. exists (Some v). split; [|done]. by eapply list_elem_of_lookup_2.
Qed.

Lemma slots_ok_split idx slots k i :
  slots_ok idx slots -> idx !! k = Some i ->
  exists x, slots = take i slots ++ Some x :: drop (S i) slots /\ key x = k /\ i < length slots /\
    (k ∉ key <$> occupied (take i slots)) /\ (k ∉ key <$> occupied (drop (S i) slots)).
Proof.
  intros Hok Hi. pose proof (proj1 (Hok k i) Hi) as (x & Hx & Hk). exists x.
  assert (Hlen : i < length slots) by (by eapply lookup_lt_Some).
  split_and!; [by symmetry; apply take_drop_middle|done|done| |].
  - intros (y & Hy & [j Hj]%elem_of_occupied)%list_elem_of_fmap.
    apply lookup_take_Some in Hj as [Hj Hlt].
    assert (idx !! k = Some j) by (apply Hok; eauto). simplify_eq. lia.
  - intros (y & Hy & [j Hj]%elem_of_occupied)%list_elem_of_fmap.
    rewrite lookup_drop in Hj.
    assert (idx !! k = Some (S i + j)) by (apply Hok; eauto). simplify_eq. lia.
Qed.

Lemma slots_ok_NoDup idx slots : slots_ok idx slots -> NoDup (key <$> occupied slots).
Proof.
  intros Hok. assert (Hinj : forall i j v x,
    slots !! i = Some (Some v) -> slots !! j = Some (Some x) -> key v = key x -> i = j).
  { intros i j v x Hi Hj E. assert (idx !! key v = Some i) by (apply Hok; eauto).
    assert (idx !! key v = Some j) by (apply Hok; eauto). congruence. }
  clear Hok. induction slots as [|o slots IH]; [apply NoDup_nil_2|].
  assert (IH' : NoDup (key <$> occupied slots)).
  { apply IH. intros i j v x Hi Hj E. by injection (Hinj (S i) (S j) v x Hi Hj E). }
  destruct o as [v|]; [|done]. change (NoDup (key v :: (key <$> occupied slots))).
  apply NoDup_cons. split; [|done]. intros (x & Hx & [j Hj]%elem_of_occupied)%list_elem_of_fmap.
  by specialize (Hinj 0 (S j) v x eq_refl Hj Hx).
Qed.

Lemma slots_replace idx slots v i :
  slots_ok idx slots -> idx !! key v = Some i ->
  slots_ok idx (<[i := Some v]> slots) /\
  occupied (<[i := Some v]> slots) = tput key (occupied slots) v.
Proof.
  intros Hok Hi. destruct (slots_ok_split _ _ _ _ Hok Hi) as (x & Hs & Hx & Hlen & Hn & _). split.
  - intros k j. destruct (decide (i = j)) as [<-|Hij].
    + rewrite list_lookup_insert_eq by done. rewrite (Hok k i). split.
      * intros (y & Hy & <-). exists v. split; [done|]. rewrite Hs in Hy.
        rewrite list_lookup_middle in Hy by (rewrite length_take; lia). congruence.
      * intros (y & [= <-] & <-). by apply Hok.
    + by rewrite list_lookup_insert_ne.
  - rewrite Hs at 1 2. rewrite insert_app_r_alt by (rewrite length_take; lia).
    rewrite length_take, Nat.min_l, Nat.sub_diag by lia. simpl.
    rewrite !occupied_app. simpl. symmetry. by apply tput_middle.
Qed.

Lemma slots_push idx slots v :
  slots_ok idx slots -> idx !! key v = None ->
  slots_ok (<[key v := length slots]> idx) (slots ++ [Some v]) /\
  occupied (slots ++ [Some v]) = tput key (occupied slots) v.
Proof.
  intros Hok Hi. split.
  - intros k j. destruct (decide (j = length slots)) as [->|Hj].
    + rewrite list_lookup_middle by done. destruct (decide (key v = k)) as [<-|Hk].
      * rewrite lookup_insert_eq. split; [eauto|done].
      * rewrite lookup_insert_ne by done. split; [|intros (y & [= <-] & ?); done].
        intros (y & Hy%lookup_lt_Some & _)%Hok. lia.
    + destruct (decide (key v = k)) as [<-|Hk].
      * rewrite lookup_insert_eq. split; [congruence|]. intros (y & Hy & E).
        assert (idx !! key v = Some j); [|congruence]. apply Hok. exists y. split; [|done].
        apply lookup_app_Some in Hy as [Hy|[Hle Hy]]; [done|].
        apply lookup_lt_Some in Hy. simpl in Hy. lia.
      * rewrite lookup_insert_ne by done. rewrite (Hok k j). split; intros (y & Hy & E).
        -- exists y. split; [by apply lookup_app_l_Some|done].
        -- exists y. split; [|done]. apply lookup_app_Some in Hy as [Hy|[Hle Hy]]; [done|].
           apply lookup_lt_Some in Hy. simpl in Hy. lia.
  - rewrite occupied_app, tput_fresh; [done|].
    intros (y & Hy & [j Hj]%elem_of_occupied)%list_elem_of_fmap.
    assert (idx !! key v = Some j) by (apply Hok; eauto). congruence.
Qed.

Lemma slots_clear idx slots k i :
  slots_ok idx slots -> idx !! k = Some i ->
  slots_ok (delete k idx) (<[i := None]> slots) /\
  occupied (<[i := None]> slots) = tdrop (fun v => bool_decide (key v = k)) (occupied slots).
Proof.
  intros Hok Hi. destruct (slots_ok_split _ _ _ _ Hok Hi) as (x & Hs & Hx & Hlen & Hn1 & Hn2). split.
  - intros k' j. destruct (decide (k = k')) as [<-|Hk].
    + rewrite lookup_delete_eq. split; [done|]. intros (y & Hy & E). destruct (decide (i = j)) as [<-|Hij].
      * by rewrite list_lookup_insert_eq in Hy.
      * rewrite list_lookup_insert_ne in Hy by done.
        assert (idx !! k = Some j) by (apply Hok; eauto). congruence.
    + rewrite lookup_delete_ne by done. destruct (decide (i = j)) as [<-|Hij].
      * rewrite list_lookup_insert_eq by done. split; [|intros (? & ? & _); done].
        intros (y & Hy & E)%Hok. rewrite Hs in Hy.
        rewrite list_lookup_middle in Hy by (rewrite length_take; lia). congruence.
      * by rewrite list_lookup_insert_ne.
  - rewrite Hs at 1 2. rewrite insert_app_r_alt by (rewrite length_take; lia).
    rewrite length_take, Nat.min_l, Nat.sub_diag by lia. simpl. rewrite !occupied_app.
    change (occupied (Some x :: ?l)) with (x :: occupied l).
    rewrite tdrop_app, tdrop_none.
    2: { intros v Hv. apply bool_decide_eq_false. intros E. apply Hn1. rewrite <- E.
         by apply list_elem_of_fmap_2. }
    unfold tdrop at 1. simpl. rewrite bool_decide_eq_true_2 by done. simpl. f_equal. symmetry.
    apply tdrop_none. intros v Hv. apply bool_decide_eq_false. intros E. apply Hn2. rewrite <- E.
    by apply list_elem_of_fmap_2.
Qed.

Lemma slots_remove_keys ks idx slots idx' slots' :
  slots_ok idx slots -> remove_keys ks idx slots = (idx', slots') ->
  slots_ok idx' slots' /\
  occupied slots' = tdrop (fun v => bool_decide (key v ∈ ks)) (occupied slots).
Proof.
  unfold remove_keys. revert idx slots. induction ks as [|k ks IH]; simpl; intros idx slots Hok Hf.
  { simplify_eq. split; [done|]. symmetry. apply tdrop_none. by intros v _. }
  destruct (idx !! k) as [i|] eqn:Hi.
  - destruct (slots_clear _ _ _ _ Hok Hi) as [Hok' Hocc].
    destruct (IH _ _ Hok' Hf) as [Hok'' ->]. split; [done|]. rewrite Hocc, tdrop_tdrop.
    apply tdrop_ext. intros v _.
    repeat case_bool_decide; set_solver.
  - destruct (IH _ _ Hok Hf) as [Hok'' ->]. split; [done|]. apply tdrop_ext. intros v Hv.
    apply elem_of_occupied in Hv as [j Hj].
    assert (key v <> k). { intros <-. assert (idx !! key v = Some j) by (apply Hok; eauto). congruence. }
    repeat case_bool_decide; set_solver.
Qed.

End slots.

Section views.
Context {W : Wire} `{Host}.
Implicit Types (b : ThreadHistoryBuilder) (c : ThreadHistoryChangeSet)
  (a : ThreadHistoryChangeAccumulator) (id : str).

(** ** What a client keeps *)

(** A table of item snapshots and a table of turn snapshots, each in the order
    in which its keys first appeared. *)
Record View := mkView {
  v_items : list ThreadHistoryItemChange;
  v_turns : list ThreadHistoryTurnChange;
}.
Implicit Types v : View.

Definition empty_view : View := mkView [] [].

Definition put_item v (change : ThreadHistoryItemChange) : View :=
  mkView (tput change_key (v_items v) change) (v_turns v).

Definition put_turn v (change : ThreadHistoryTurnChange) : View :=
  mkView (v_items v) (tput htc_turn_id (v_turns v) change).

Definition remove_turn v id : View :=
  mkView (tdrop (fun ch => str_eqb (hic_turn_id ch) id) (v_items v))
    (tdrop (fun ch => str_eqb (htc_turn_id ch) id) (v_turns v)).

(** A change set removes turns first. *)
Definition apply_changes c v : View :=
  fold_left put_turn (changed_turns c)
    (fold_left put_item (changed_items c) (fold_left remove_turn (removed_turn_ids c) v)).

(** The turns a client shows: a turn for each turn snapshot, with the items
    filed under it. *)
Definition view_items v id : list ThreadItem :=
  hic_item <$> List.filter (fun ch => str_eqb (hic_turn_id ch) id) (v_items v).

Definition view_turn v (t : ThreadHistoryTurnChange) : Turn :=
  mkTurn (htc_turn_id t) (view_items v (htc_turn_id t)) Full (htc_status t) (htc_error t)
    (htc_started_at t) (htc_completed_at t) (htc_duration_ms t).

Definition view_history v : list Turn := view_turn v <$> v_turns v.

Lemma put_items_spec l v :
  fold_left put_item l v = mkView (tmerge change_key (v_items v) l) (v_turns v).
Proof. revert v. induction l as [|x l IH]; intros [vi vt]; [done|]. simpl. by rewrite IH. Qed.

Lemma put_turns_spec l v :
  fold_left put_turn l v = mkView (v_items v) (tmerge htc_turn_id (v_turns v) l).
Proof. revert v. induction l as [|x l IH]; intros [vi vt]; [done|]. simpl. by rewrite IH. Qed.

Definition dead_item (ids : list str) (ch : ThreadHistoryItemChange) : bool :=
  bool_decide (hic_turn_id ch ∈ ids).
Definition dead_turn (ids : list str) (ch : ThreadHistoryTurnChange) : bool :=
  bool_decide (htc_turn_id ch ∈ ids).

Lemma keyed_dead_item ids : keyed change_key (dead_item ids).
Proof. intros x y [= E _]. unfold dead_item. by rewrite E. Qed.

Lemma keyed_dead_turn ids : keyed htc_turn_id (dead_turn ids).
Proof. intros x y E. unfold dead_turn. by rewrite E. Qed.

Lemma remove_turn_spec v id :
  remove_turn v id = mkView (tdrop (dead_item [id]) (v_items v)) (tdrop (dead_turn [id]) (v_turns v)).
Proof.
  unfold remove_turn, dead_item, dead_turn, str_eqb.
  f_equal; apply tdrop_ext; intros x _; repeat case_bool_decide; set_solver.
Qed.

Lemma remove_turns_spec ids v :
  fold_left remove_turn ids v =
  mkView (tdrop (dead_item ids) (v_items v)) (tdrop (dead_turn ids) (v_turns v)).
Proof.
  revert v. induction ids as [|id ids IH]; intros v; simpl.
  - destruct v as [vi vt]. f_equal; simpl; symmetry; apply tdrop_none; by intros.
  - rewrite IH, remove_turn_spec. simpl. unfold dead_item, dead_turn.
    f_equal; rewrite tdrop_tdrop; apply tdrop_ext; intros x _; repeat case_bool_decide; set_solver.
Qed.

Lemma apply_changes_spec c v :
  apply_changes c v =
  mkView (tmerge change_key (tdrop (dead_item (removed_turn_ids c)) (v_items v)) (changed_items c))
    (tmerge htc_turn_id (tdrop (dead_turn (removed_turn_ids c)) (v_turns v)) (changed_turns c)).
Proof. unfold apply_changes. by rewrite put_turns_spec, put_items_spec, remove_turns_spec. Qed.

(** ** The accumulator *)

Definition acc_ok a : Prop :=
  slots_ok change_key (acc_item_indexes a) (acc_items a) /\
  slots_ok htc_turn_id (acc_turn_indexes a) (acc_turns a) /\
  forall id, acc_removed_indexes a !! id = None <-> id ∉ acc_removed a.

Lemma empty_acc_ok : acc_ok empty_acc.
Proof.
  split_and!; simpl.
  - intros k i. rewrite lookup_empty. split; [done|]. intros (? & ? & _). by rewrite lookup_nil in *.
  - intros k i. rewrite lookup_empty. split; [done|]. intros (? & ? & _). by rewrite lookup_nil in *.
  - intros id. rewrite lookup_empty. split; [|done]. intros _. apply not_elem_of_nil.
Qed.

(** Each push has the effect of the change on the view of the accumulator. *)
Lemma push_item_change_ok a ch v :
  acc_ok a ->
  acc_ok (push_item_change a ch) /\
  apply_changes (acc_finish (push_item_change a ch)) v = put_item (apply_changes (acc_finish a) v) ch.
Proof.
  intros (Hi & Ht & Hr). rewrite !apply_changes_spec. unfold push_item_change, put_item.
  pose proof (slots_ok_NoDup _ _ _ Hi) as Hnd.
  destruct (acc_item_indexes a !! change_key ch) as [i|] eqn:E.
  - destruct (slots_replace _ _ _ _ _ Hi E) as [Hi' Ho]. split; [done|]. simpl.
    f_equal. change (omap Datatypes.id) with (@occupied ThreadHistoryItemChange).
    rewrite Ho. by apply tmerge_tput.
  - destruct (slots_push _ _ _ _ Hi E) as [Hi' Ho]. split; [done|]. simpl.
    f_equal. change (omap Datatypes.id) with (@occupied ThreadHistoryItemChange).
    rewrite Ho. by apply tmerge_tput.
Qed.

Lemma push_turn_change_ok a ch v :
  acc_ok a ->
  acc_ok (push_turn_change a ch) /\
  apply_changes (acc_finish (push_turn_change a ch)) v = put_turn (apply_changes (acc_finish a) v) ch.
Proof.
  intros (Hi & Ht & Hr). rewrite !apply_changes_spec. unfold push_turn_change, put_turn.
  pose proof (slots_ok_NoDup _ _ _ Ht) as Hnd.
  destruct (acc_turn_indexes a !! htc_turn_id ch) as [i|] eqn:E.
  - destruct (slots_replace _ _ _ _ _ Ht E) as [Ht' Ho]. split; [done|]. simpl.
    f_equal. change (omap Datatypes.id) with (@occupied ThreadHistoryTurnChange).
    rewrite Ho. by apply tmerge_tput.
  - destruct (slots_push _ _ _ _ Ht E) as [Ht' Ho]. split; [done|]. simpl.
    f_equal. change (omap Datatypes.id) with (@occupied ThreadHistoryTurnChange).
    rewrite Ho. by apply tmerge_tput.
Qed.

Lemma push_removed_turn_id_ok a id v :
  acc_ok a ->
  acc_ok (push_removed_turn_id a id) /\
  apply_changes (acc_finish (push_removed_turn_id a id)) v =
  remove_turn (apply_changes (acc_finish a) v) id.
Proof.
  intros (Hi & Ht & Hr). rewrite remove_turn_spec, !apply_changes_spec. unfold push_removed_turn_id.
  set (ks := filter _ _).
  destruct (remove_keys [id] (acc_turn_indexes a) (acc_turns a)) as [tx ts] eqn:Et.
  destruct (remove_keys ks (acc_item_indexes a) (acc_items a)) as [ix si] eqn:Ei.
  destruct (slots_remove_keys _ _ _ _ _ _ Ht Et) as [Ht' Hto].
  destruct (slots_remove_keys _ _ _ _ _ _ Hi Ei) as [Hi' Hio].
  assert (Hio' : occupied si = tdrop (dead_item [id]) (occupied (acc_items a))).
  { rewrite Hio. apply tdrop_ext. intros ch (j & Hj)%elem_of_occupied. unfold dead_item.
    apply bool_decide_ext. unfold ks. rewrite list_elem_of_filter, list_elem_of_singleton.
    split; [by intros [? _]|]. intros E. split; [done|]. apply list_elem_of_fmap.
    exists (change_key ch, j). split; [done|]. apply elem_of_map_to_list. apply Hi. eauto. }
  assert (Hrem : forall l (r : gmap str nat),
    match acc_removed_indexes a !! id with
    | Some _ => (acc_removed a, acc_removed_indexes a)
    | None => (acc_removed a ++ [id], <[id := length (acc_removed a)]> (acc_removed_indexes a))
    end = (l, r) ->
    (forall x, r !! x = None <-> x ∉ l) /\ (forall x, x ∈ l <-> x ∈ acc_removed a \/ x ∈ [id])).
  { intros l r Hlr. destruct (acc_removed_indexes a !! id) as [n|] eqn:E; injection Hlr as <- <-.
    - split; [done|]. assert (id ∈ acc_removed a).
      { destruct (decide (id ∈ acc_removed a)) as [|Hn]; [done|]. apply Hr in Hn. congruence. }
      set_solver.
    - split; [|set_solver]. intros x. destruct (decide (id = x)) as [<-|Hx].
      + rewrite lookup_insert_eq. set_solver.
      + rewrite lookup_insert_ne, Hr by done. set_solver. }
  destruct (match acc_removed_indexes a !! id with Some _ => _ | None => _ end) as [l r] eqn:Er.
  destruct (Hrem l r eq_refl) as [Hr' Hl]. split; [done|]. simpl.
  change (omap Datatypes.id ts) with (occupied ts). change (omap Datatypes.id si) with (occupied si).
  rewrite !tdrop_tmerge by (apply keyed_dead_item || apply keyed_dead_turn).
  rewrite Hto, Hio', !tdrop_tdrop.
  change (omap Datatypes.id (acc_items a)) with (occupied (acc_items a)).
  change (omap Datatypes.id (acc_turns a)) with (occupied (acc_turns a)).
  f_equal; f_equal; apply tdrop_ext; intros x _; unfold dead_item, dead_turn;
    repeat case_bool_decide; set_solver.
Qed.

Lemma fold_push_ok {C} (push : ThreadHistoryChangeAccumulator -> C -> ThreadHistoryChangeAccumulator)
    (put : View -> C -> View) l :
  (forall a ch v, acc_ok a -> acc_ok (push a ch) /\
    apply_changes (acc_finish (push a ch)) v = put (apply_changes (acc_finish a) v) ch) ->
  forall a v, acc_ok a -> acc_ok (fold_left push l a) /\
    apply_changes (acc_finish (fold_left push l a)) v =
    fold_left put l (apply_changes (acc_finish a) v).
Proof.
  intros Hstep. induction l as [|ch l IH]; intros a v Ha; [done|]. simpl.
  destruct (Hstep a ch v Ha) as [Ha' E]. destruct (IH (push a ch) v Ha') as [Ha'' ->].
  split; [done|]. by rewrite E.
Qed.

Lemma acc_push_ok a c v :
  acc_ok a ->
  acc_ok (acc_push a c) /\
  apply_changes (acc_finish (acc_push a c)) v = apply_changes c (apply_changes (acc_finish a) v).
Proof.
  intros Ha. unfold acc_push.
  destruct (fold_push_ok push_removed_turn_id remove_turn (removed_turn_ids c)
    push_removed_turn_id_ok a v Ha) as [H1 E1].
  destruct (fold_push_ok push_item_change put_item (changed_items c)
    push_item_change_ok _ v H1) as [H2 E2].
  destruct (fold_push_ok push_turn_change put_turn (changed_turns c)
    push_turn_change_ok _ v H2) as [H3 E3].
  split; [done|]. by rewrite E3, E2, E1.
Qed.

(** Coalescing change sets has the effect of applying them in order. *)
Theorem coalescing_preserves_changes l v :
  apply_changes (acc_finish (fold_left acc_push l empty_acc)) v = fold_left (fun v c => apply_changes c v) l v.
Proof.
  assert (H1 : forall a, acc_ok a ->
    apply_changes (acc_finish (fold_left acc_push l a)) v =
    fold_left (fun v c => apply_changes c v) l (apply_changes (acc_finish a) v)).
  { induction l as [|c l IH]; intros a Ha; [done|]. simpl.
    destruct (acc_push_ok a c v Ha) as [Ha' E]. by rewrite IH, E. }
  by rewrite H1 by apply empty_acc_ok.
Qed.

End views.
