(* ===== verification/ThreadHistoryLaws.v ===== *)
(** * Laws of the thread history, continued: the change sets follow the history

    [shows v ts] relates the tables a client keeps to a list of turns.  Every
    handler of the reducer preserves it between the client that applies what
    the handler records and the turns of the builder, as long as the
    identifiers of turns, and of the items of a turn, stay distinct. *)

From stdpp Require Import gmap.
From S2P Require Import Prelude.
From S2P Require Import RustStr.
From S2P Require Import Paths.
From S2P Require Import Truncate.
From S2P Require Import History.
From S2P Require Import HistoryOps.
From S2P Require Import Tables.
From S2P Require Import ThreadItems.
From S2P Require Import ThreadHistory.
From S2P Require Import ThreadHistoryFacts.

Lemma find_mut_Some {A} (p : A -> bool) f l y r :
  find_mut p f l = Some (y, r) ->
  exists l1 x l2, l = l1 ++ x :: l2 /\ p x = true /\ y = f x /\ r = l1 ++ f x :: l2.
Proof.
  revert y r. induction l as [|x l IH]; intros y r Hf; [done|]. simpl in Hf.
  destruct (p x) eqn:E; [simplify_eq; by exists [], x, l|].
  destruct (find_mut p f l) as [[z s]|]; [|done]. simplify_eq.
  destruct (IH _ _ eq_refl) as (l1 & w & l2 & -> & Hw & -> & ->). by exists (x :: l1), w, l2.
Qed.

Section laws.
Context {W : Wire} `{Host}.
Implicit Types (b : ThreadHistoryBuilder) (c : ThreadHistoryChangeSet) (v : View)
  (t f : Turn) (ts : list Turn) (item : ThreadItem).

(** ** Tables that show a list of turns *)

Record shows v ts : Prop := {
  sh_turns : v_turns v = from_turn <$> ts;
  sh_ids : NoDup (t_id <$> ts);
  sh_items : forall t, t ∈ ts -> view_items v (t_id t) = t_items t;
  sh_known : forall ch, ch ∈ v_items v -> hic_turn_id ch ∈ t_id <$> ts;
  sh_full : forall t, t ∈ ts -> t_items_view t = Full;
}.

Lemma empty_shows : shows empty_view [].
Proof. split; try done; [apply NoDup_nil_2|..]; intros ? Hin; by apply elem_of_nil in Hin. Qed.

Lemma shows_history v ts : shows v ts -> view_history v = ts.
Proof.
  intros [Ht _ Hi _ Hf]. unfold view_history. rewrite Ht. clear Ht.
  induction ts as [|t ts IH]; [done|]. rewrite !fmap_cons. f_equal.
  - unfold view_turn. simpl. rewrite (Hi t), <- (Hf t) by set_solver. by destruct t.
  - apply IH; intros; [apply Hi|apply Hf]; set_solver.
Qed.

Lemma view_items_put_other v ch id :
  hic_turn_id ch <> id -> view_items (put_item v ch) id = view_items v id.
Proof.
  intros Hne. unfold view_items, put_item. simpl. f_equal.
  induction (v_items v) as [|x l IH]; simpl; unfold str_eqb in *; [by rewrite bool_decide_eq_false_2|].
  case_decide as E; [|by simpl; rewrite IH].
  injection E as E _. simpl. by rewrite !bool_decide_eq_false_2 by congruence.
Qed.

Lemma view_items_put_same v ch :
  view_items (put_item v ch) (hic_turn_id ch) =
  tput item_id (view_items v (hic_turn_id ch)) (hic_item ch).
Proof.
  unfold view_items, put_item. simpl.
  induction (v_items v) as [|x l IH]; simpl; [by unfold str_eqb; rewrite bool_decide_eq_true_2|].
  unfold str_eqb in *. case_decide as E.
  - injection E as E1 E2. simpl. rewrite !bool_decide_eq_true_2 by done. simpl. by rewrite decide_True.
  - cbn [List.filter]. case_bool_decide as E1; [|exact IH]. rewrite !fmap_cons, IH. cbn [tput].
    rewrite decide_False; [done|]. intros E2. apply E. unfold change_key. congruence.
Qed.

Lemma view_items_unknown v ts id : shows v ts -> id ∉ t_id <$> ts -> view_items v id = [].
Proof.
  intros Hs Hid. unfold view_items. assert (Hk := sh_known _ _ Hs).
  induction (v_items v) as [|x l IH]; [done|]. simpl. unfold str_eqb.
  rewrite bool_decide_eq_false_2; [apply IH; intros; apply Hk; set_solver|].
  intros <-. apply Hid, Hk. set_solver.
Qed.

Lemma shows_new v ts t :
  shows v ts -> t_id t ∉ t_id <$> ts -> t_items t = [] -> t_items_view t = Full ->
  shows (put_turn v (from_turn t)) (ts ++ [t]).
Proof.
  intros Hs Hid Hi Hf. pose proof (view_items_unknown _ _ _ Hs Hid) as Hv.
  destruct Hs as [H1 H2 H3 H4 H5]. split; simpl.
  - rewrite H1, tput_fresh, fmap_app; [done|]. rewrite <- list_fmap_compose. done.
  - rewrite fmap_app. apply NoDup_app. split_and!; [done| |apply NoDup_singleton]. set_solver.
  - intros t' [Ht'| ->%list_elem_of_singleton]%elem_of_app; [by apply H3|]. rewrite Hi. exact Hv.
  - intros ch Hch. rewrite fmap_app. apply elem_of_app. left. by apply H4.
  - intros t' [Ht'| ->%list_elem_of_singleton]%elem_of_app; [by apply H5|done].
Qed.

Lemma ids_middle l1 t l2 :
  NoDup (t_id <$> l1 ++ t :: l2) ->
  (t_id t ∉ t_id <$> l1) /\ forall t', t' ∈ l1 ++ l2 -> t_id t' <> t_id t.
Proof.
  rewrite fmap_app, fmap_cons. intros (H1 & H2 & [H3 H4]%NoDup_cons)%NoDup_app.
  assert (Hn : t_id t ∉ t_id <$> l1) by (intros E; apply (H2 _ E); set_solver).
  split; [done|]. intros t' [Ht|Ht]%elem_of_app E.
  - apply Hn. rewrite <- E. by apply list_elem_of_fmap_2.
  - apply H3. rewrite <- E. by apply list_elem_of_fmap_2.
Qed.

(** A changed turn in place of another with the same identifier. *)
Lemma shows_replace v v' l1 t t' l2 :
  shows v (l1 ++ t :: l2) -> t_id t' = t_id t -> t_items_view t' = t_items_view t ->
  v_turns v' = from_turn <$> l1 ++ t' :: l2 ->
  view_items v' (t_id t) = t_items t' ->
  (forall id, id <> t_id t -> view_items v' id = view_items v id) ->
  (forall ch, ch ∈ v_items v' -> hic_turn_id ch = t_id t \/ ch ∈ v_items v) ->
  shows v' (l1 ++ t' :: l2).
Proof.
  intros [H1 H2 H3 H4 H5] Hid Hview Ht Hi Ho Hk.
  assert (Hids : t_id <$> l1 ++ t' :: l2 = t_id <$> l1 ++ t :: l2).
  { rewrite !fmap_app, !fmap_cons. by rewrite Hid. }
  destruct (ids_middle _ _ _ H2) as [Hn Hd]. split; [done|by rewrite Hids| | |].
  - intros s Hs. assert (Hs' : s = t' \/ s ∈ l1 ++ l2) by set_solver.
    destruct Hs' as [->|Hs']; [by rewrite Hid|]. rewrite Ho by (by apply Hd). apply H3. set_solver.
  - intros ch Hch. rewrite Hids. destruct (Hk ch Hch) as [->|Hch']; [|by apply H4].
    apply list_elem_of_fmap_2. set_solver.
  - intros s Hs. assert (Hs' : s = t' \/ s ∈ l1 ++ l2) by set_solver.
    destruct Hs' as [->|Hs']; [rewrite Hview|]; apply H5; set_solver.
Qed.

Lemma elem_of_tput {A K} `{EqDecision K} (key : A -> K) l x y : y ∈ tput key l x -> y = x \/ y ∈ l.
Proof.
  induction l as [|z l IH]; simpl; [set_solver|]. case_decide; [set_solver|].
  intros [->|Hy]%elem_of_cons; [set_solver|]. destruct (IH Hy); set_solver.
Qed.

Lemma shows_item v l1 t l2 item :
  shows v (l1 ++ t :: l2) ->
  shows (put_item v (mkItemChange (t_id t) item None None))
    (l1 ++ set_turn_items (tput item_id (t_items t) item) t :: l2).
Proof.
  intros Hs. eapply shows_replace; [done|done|done|..]; simpl.
  - rewrite (sh_turns _ _ Hs). by rewrite !fmap_app, !fmap_cons.
  - etransitivity; [apply (view_items_put_same v (mkItemChange (t_id t) item None None))|]. simpl.
    rewrite (sh_items _ _ Hs t) by set_solver. done.
  - intros id Hid. by apply view_items_put_other.
  - intros ch [->|Hch]%elem_of_tput; [by left|by right].
Qed.

Lemma shows_meta v l1 t t' l2 :
  shows v (l1 ++ t :: l2) ->
  t_id t' = t_id t -> t_items t' = t_items t -> t_items_view t' = t_items_view t ->
  shows (put_turn v (from_turn t')) (l1 ++ t' :: l2).
Proof.
  intros Hs Hid Hi Hview. eapply shows_replace; [done|done|done|..]; simpl.
  - rewrite (sh_turns _ _ Hs). rewrite !fmap_app, !fmap_cons. apply tput_middle; [|by simpl].
    rewrite <- list_fmap_compose. simpl. rewrite Hid. apply (ids_middle _ _ l2), (sh_ids _ _ Hs).
  - rewrite Hi. apply (sh_items _ _ Hs). set_solver.
  - done.
  - by right.
Qed.

Lemma shows_remove v l1 l2 :
  shows v (l1 ++ l2) -> shows (fold_left remove_turn (t_id <$> l2) v) l1.
Proof.
  intros [H1 H2 H3 H4 H5]. rewrite remove_turns_spec.
  rewrite fmap_app in H2. apply NoDup_app in H2 as (H2 & H6 & _).
  assert (Hdis : forall t, t ∈ l1 -> t_id t ∉ t_id <$> l2).
  { intros t Ht. apply H6. by apply list_elem_of_fmap_2. }
  split; simpl; [| done | | |].
  - rewrite H1, fmap_app, tdrop_app. rewrite (tdrop_none _ (from_turn <$> l1)).
    2: { intros ch (t & -> & Ht)%list_elem_of_fmap. apply bool_decide_eq_false. by apply Hdis. }
    assert (E : tdrop (dead_turn (t_id <$> l2)) (from_turn <$> l2) = []); [|by rewrite E, app_nil_r].
    assert (Hall : forall t, t ∈ l2 -> t_id t ∈ t_id <$> l2) by (intros; by apply list_elem_of_fmap_2).
    revert Hall. generalize (t_id <$> l2) as ids. clear. intros ids.
    induction l2 as [|t l2 IH]; intros Hall; [done|]. unfold tdrop in *. simpl. unfold dead_turn at 1.
    simpl. rewrite bool_decide_eq_true_2 by (apply Hall; set_solver). simpl. apply IH. set_solver.
  - intros t Ht. rewrite <- (H3 t) by set_solver. unfold view_items. simpl. f_equal.
    pose proof (Hdis t Ht) as Hn. revert Hn. generalize (t_id <$> l2) as ids. clear. intros ids Hn.
    unfold tdrop. induction (v_items v) as [|ch l IH]; [done|]. simpl. unfold str_eqb in *. unfold dead_item at 1.
    case_bool_decide as E; simpl.
    + rewrite IH. rewrite bool_decide_eq_false_2 by congruence. done.
    + by rewrite IH.
  - intros ch Hch. unfold tdrop in Hch. apply list_elem_of_In, filter_In in Hch as [Hch Hd].
    apply list_elem_of_In, H4 in Hch. unfold dead_item in Hd.
    rewrite fmap_app in Hch. apply elem_of_app in Hch as [Hch|Hch]; [done|].
    by rewrite bool_decide_eq_true_2 in Hd.
  - intros t Ht. apply H5. set_solver.
Qed.

(** ** The builder while it records changes *)

(** The turns of the builder, the open one last. *)
Definition all_turns b : list Turn :=
  turns b ++ match current_turn b with Some p => [turn_of p] | None => [] end.

(** A turn that [finish_current_turn] would drop. *)
Definition droppable (p : PendingTurn) : bool :=
  is_empty (p_items p) && negb (p_opened_explicitly p) && negb (p_saw_compaction p).

Definition live b : Prop :=
  match current_turn b with Some p => droppable p = false | None => True end.

Definition distinct_ids b : bool :=
  bool_decide (NoDup (t_id <$> all_turns b)) &&
  forallb (fun t => bool_decide (NoDup (item_id <$> t_items t))) (all_turns b).

Lemma distinct_ids_turns b : distinct_ids b = true -> NoDup (t_id <$> all_turns b).
Proof. unfold distinct_ids. rewrite andb_true_iff, bool_decide_eq_true. by intros [? _]. Qed.

Lemma distinct_ids_items b t :
  distinct_ids b = true -> t ∈ all_turns b -> NoDup (item_id <$> t_items t).
Proof.
  unfold distinct_ids. rewrite andb_true_iff, forallb_forall. intros [_ Hf] Ht.
  apply list_elem_of_In in Ht. specialize (Hf t Ht). by apply bool_decide_eq_true in Hf.
Qed.

(** What the client shows once it has applied what is recorded so far. *)
Definition shown v b : Prop :=
  exists c, active_change_set b = Some c /\ shows (apply_changes c v) (all_turns b).

Definition good v b : Prop := shown v b /\ live b.

(** Two builders that differ in indices only. *)
Definition same_history b b' : Prop :=
  turns b = turns b' /\ current_turn b = current_turn b' /\ active_change_set b = active_change_set b'.

Lemma good_same v b b' : same_history b b' -> good v b -> good v b'.
Proof.
  intros (H1 & H2 & H3) [(c & Hc & Hs) Hl]. split.
  - exists c. unfold all_turns in *. by rewrite <- H1, <- H2, <- H3.
  - unfold live in *. by rewrite <- H2.
Qed.

Lemma good_next_index v b n : good v b -> good v (set_next_item_index n b).
Proof. by apply good_same. Qed.

Lemma apply_add_item c v ch :
  apply_changes (mkChangeSet (changed_items c ++ [ch]) (changed_turns c) (removed_turn_ids c)) v =
  put_item (apply_changes c v) ch.
Proof. rewrite !apply_changes_spec. unfold put_item. simpl. by rewrite tmerge_app. Qed.

Lemma apply_add_turn c v ch :
  apply_changes (mkChangeSet (changed_items c) (changed_turns c ++ [ch]) (removed_turn_ids c)) v =
  put_turn (apply_changes c v) ch.
Proof. rewrite !apply_changes_spec. unfold put_turn. simpl. by rewrite tmerge_app. Qed.

Lemma shown_record_item v b c id item :
  active_change_set b = Some c ->
  shows (put_item (apply_changes c v) (mkItemChange id item None None)) (all_turns b) ->
  shown v (record_changed_item id item b).
Proof.
  intros Hc Hs. unfold record_changed_item. rewrite Hc. eexists. split; [done|].
  rewrite apply_add_item. exact Hs.
Qed.

Lemma shown_record_turn v b c ch :
  active_change_set b = Some c ->
  shows (put_turn (apply_changes c v) ch) (all_turns b) ->
  shown v (record_changed_turn ch b).
Proof.
  intros Hc Hs. unfold record_changed_turn. rewrite Hc. eexists. split; [done|].
  rewrite apply_add_turn. exact Hs.
Qed.

Lemma record_item_turns id item b : all_turns (record_changed_item id item b) = all_turns b.
Proof. unfold record_changed_item. by destruct (active_change_set b). Qed.

Lemma record_turn_turns ch b : all_turns (record_changed_turn ch b) = all_turns b.
Proof. unfold record_changed_turn. by destruct (active_change_set b). Qed.

Lemma record_item_current id item b :
  current_turn (record_changed_item id item b) = current_turn b.
Proof. unfold record_changed_item. by destruct (active_change_set b). Qed.

Lemma record_turn_current ch b : current_turn (record_changed_turn ch b) = current_turn b.
Proof. unfold record_changed_turn. by destruct (active_change_set b). Qed.

(** *** Turns *)

Lemma finish_all_turns b : live b -> turns (finish_current_turn b) = all_turns b.
Proof.
  unfold live, finish_current_turn, all_turns, droppable. destruct (current_turn b) as [p|] eqn:E.
  - intros ->. done.
  - intros _. by rewrite app_nil_r.
Qed.

Lemma finish_current_none b : current_turn (finish_current_turn b) = None.
Proof.
  unfold finish_current_turn. destruct (current_turn b) eqn:E; [|done].
  by destruct (is_empty _ && _ && _).
Qed.

Lemma finish_active b : active_change_set (finish_current_turn b) = active_change_set b.
Proof.
  unfold finish_current_turn. destruct (current_turn b); [|done].
  by destruct (is_empty _ && _ && _).
Qed.

Lemma good_finish v b : good v b -> good v (finish_current_turn b).
Proof.
  intros [(c & Hc & Hs) Hl]. split.
  - exists c. rewrite finish_active. split; [done|]. unfold all_turns.
    rewrite finish_current_none, app_nil_r. by rewrite finish_all_turns.
  - unfold live. by rewrite finish_current_none.
Qed.

Lemma open_all_turns b p :
  current_turn b = None ->
  all_turns (set_current (Some p) (record_changed_pending_turn p b)) = all_turns b ++ [turn_of p].
Proof.
  intros Hc. unfold all_turns at 2. rewrite Hc, app_nil_r. unfold all_turns,
    record_changed_pending_turn, is_tracking_changes, record_changed_turn.
  by destruct (active_change_set b).
Qed.

(** Opening a turn with no items, with its record. *)
Lemma shown_open v b p :
  shown v b -> current_turn b = None -> p_items p = [] -> p_id p ∉ t_id <$> all_turns b ->
  shown v (set_current (Some p) (record_changed_pending_turn p b)).
Proof.
  intros (c & Hc & Hs) Hcur Hp Hid.
  assert (Ht : turns b = all_turns b) by (unfold all_turns; by rewrite Hcur, app_nil_r).
  unfold record_changed_pending_turn, is_tracking_changes, record_changed_turn. rewrite Hc.
  eexists. split; [done|]. rewrite apply_add_turn.
  change (from_pending_turn p) with (from_turn (turn_of p)).
  unfold all_turns at 1. simpl. rewrite Ht. by apply shows_new.
Qed.

Lemma new_turn_spec id b p b' :
  new_turn id b = (p, b') ->
  p_items p = [] /\ same_history b b' /\ droppable p = true /\ (forall i, id = Some i -> p_id p = i).
Proof.
  unfold new_turn, draw_uuid. destruct id as [i|]; [intros [= <- <-]; split_and!; try done; by intros ? [= ->]|].
  destruct (next_rollout_index b =? 0)%N; intros [= <- <-]; done.
Qed.

Lemma ensure_turn_current b p b' : ensure_turn b = (p, b') -> current_turn b' = Some p.
Proof.
  unfold ensure_turn. destruct (current_turn b) eqn:Ec; [by intros [= <- <-]|].
  destruct (new_turn None b). by intros [= <- <-].
Qed.

Lemma ensure_turn_spec v b p b' :
  ensure_turn b = (p, b') -> shown v b -> NoDup (t_id <$> all_turns b') ->
  shown v b' /\ current_turn b' = Some p.
Proof.
  unfold ensure_turn. destruct (current_turn b) as [q|] eqn:E; [by intros [= -> <-]|].
  destruct (new_turn None b) as [q b1] eqn:En. intros [= -> <-] Hs Hnd.
  destruct (new_turn_spec _ _ _ _ En) as (Hi & Hsame & _ & _).
  assert (Hs1 : shown v b1).
  { destruct Hs as (c & Hc & Hs). destruct Hsame as (H1 & H2 & H3). exists c.
    unfold all_turns in *. by rewrite <- H1, <- H2, <- H3. }
  assert (Hc1 : current_turn b1 = None) by (destruct Hsame as (_ & <- & _); done).
  split; [|done]. apply shown_open; [done|done|done|].
  rewrite open_all_turns, fmap_app in Hnd by done. apply NoDup_app in Hnd as (_ & Hd & _). intros E'.
  apply (Hd _ E'). set_solver.
Qed.

(** *** Items *)

Lemma upsert_is_tput items item : upsert_turn_item items item = tput item_id items item.
Proof.
  unfold upsert_turn_item. induction items as [|x l IH]; [done|]. cbn [position tput].
  unfold str_eqb in *. case_bool_decide as E; [by rewrite decide_True|].
  rewrite decide_False by done. rewrite <- IH.
  by destruct (position _ l).
Qed.

Lemma tput_not_empty {A K} `{EqDecision K} (key : A -> K) l x : is_empty (tput key l x) = false.
Proof. destruct l; [done|]. simpl. by case_decide. Qed.

Lemma shown_tracking v b : shown v b -> is_tracking_changes b = true.
Proof. intros (c & Hc & _). unfold is_tracking_changes. by rewrite Hc. Qed.

(** The end of every handler that writes an item of the open turn. *)
Lemma good_current_item v b p item :
  shown v b -> current_turn b = Some p ->
  good v (record_changed_item (p_id p) item
            (set_current (Some (set_items (tput item_id (p_items p) item) p)) b)).
Proof.
  intros (c & Hc & Hs) Hp. split.
  - eapply shown_record_item; [done|]. unfold all_turns in *. rewrite Hp in Hs. simpl.
    apply (shows_item _ _ (turn_of p) [] item Hs).
  - unfold live. rewrite record_item_current. simpl. unfold droppable. simpl.
    by rewrite tput_not_empty.
Qed.

Lemma all_turns_current b p items :
  current_turn b = Some p ->
  t_id <$> all_turns (set_current (Some (set_items items p)) b) = t_id <$> all_turns b.
Proof. intros Hp. unfold all_turns. simpl. by rewrite Hp, !fmap_app. Qed.

Lemma good_upsert_current v b item :
  shown v b -> distinct_ids (upsert_item_in_current_turn item b) = true ->
  good v (upsert_item_in_current_turn item b).
Proof.
  intros Hs Hd. pose proof (distinct_ids_turns _ Hd) as Hnd. clear Hd. revert Hnd.
  unfold upsert_item_in_current_turn. rewrite (shown_tracking _ _ Hs).
  destruct (ensure_turn b) as [p b1] eqn:E. rewrite upsert_is_tput, record_item_turns. intros Hnd.
  pose proof (ensure_turn_current _ _ _ E) as Hp.
  rewrite all_turns_current in Hnd by done.
  destruct (ensure_turn_spec v _ _ _ E Hs Hnd) as [Hs1 _]. by apply good_current_item.
Qed.

Lemma good_push v b item :
  shown v b -> distinct_ids (push_item_in_current_turn item b) = true ->
  good v (push_item_in_current_turn item b).
Proof.
  intros Hs Hd. pose proof (distinct_ids_turns _ Hd) as Hnd.
  pose proof (fun t => distinct_ids_items _ t Hd) as Hni. clear Hd. revert Hnd Hni.
  unfold push_item_in_current_turn. rewrite (shown_tracking _ _ Hs).
  destruct (ensure_turn b) as [p b1] eqn:E. rewrite record_item_turns. intros Hnd Hni.
  pose proof (ensure_turn_current _ _ _ E) as Hp.
  assert (Hfresh : p_items p ++ [item] = tput item_id (p_items p) item).
  { symmetry. apply tput_fresh. specialize (Hni (turn_of (set_items (p_items p ++ [item]) p))).
    assert (Hin : turn_of (set_items (p_items p ++ [item]) p) ∈
      all_turns (set_current (Some (set_items (p_items p ++ [item]) p)) b1)).
    { unfold all_turns. simpl. set_solver. }
    specialize (Hni Hin). simpl in Hni. rewrite fmap_app in Hni.
    apply NoDup_app in Hni as (_ & Hn & _). intros Hx. apply (Hn _ Hx). set_solver. }
  rewrite Hfresh in *. rewrite all_turns_current in Hnd by done.
  destruct (ensure_turn_spec v _ _ _ E Hs Hnd) as [Hs1 _]. by apply good_current_item.
Qed.

Lemma good_upsert_turn_id v b id item :
  shown v b -> live b \/ (exists p, current_turn b = Some p /\ p_id p = id) ->
  good v (upsert_item_in_turn_id id item b).
Proof.
  intros Hs Hl. unfold upsert_item_in_turn_id. rewrite (shown_tracking _ _ Hs).
  assert (Hfin : live b -> good v
    match find_mut (fun f : Turn => str_eqb (t_id f) id)
            (fun f : Turn => set_turn_items (upsert_turn_item (t_items f) item) f) (turns b) with
    | Some (f, l) => record_changed_item (t_id f) item (set_turns l b)
    | None => b
    end).
  { intros Hlive. destruct (find_mut _ _ _) as [[f l]|] eqn:E; [|done].
    apply find_mut_Some in E as (l1 & x & l2 & Hb & _ & -> & ->). rewrite upsert_is_tput.
    destruct Hs as (c & Hc & Hs). split.
    - eapply shown_record_item; [done|]. unfold all_turns in *. simpl. rewrite Hb in Hs.
      rewrite <- app_assoc in *. simpl in *. by apply shows_item.
    - unfold live in *. by rewrite record_item_current. }
  destruct (current_turn b) as [p|] eqn:Ep.
  - unfold str_eqb. case_bool_decide as E.
    + rewrite upsert_is_tput. by apply good_current_item.
    + apply Hfin. destruct Hl as [Hl|(q & [= <-] & ?)]; [done|congruence].
  - apply Hfin. unfold live. by rewrite Ep.
Qed.

Lemma good_upsert_event_turn v b id item :
  good v b -> distinct_ids (upsert_item_in_event_turn id item b) = true ->
  good v (upsert_item_in_event_turn id item b).
Proof.
  intros [Hs Hl]. unfold upsert_item_in_event_turn. destruct (is_empty id).
  - by apply good_upsert_current.
  - intros _. apply good_upsert_turn_id; [done|by left].
Qed.

Lemma good_upsert_review v b id item :
  good v b -> distinct_ids (upsert_review_mode_item id item b) = true ->
  good v (upsert_review_mode_item id item b).
Proof.
  intros Hg. unfold upsert_review_mode_item. destruct id as [id|]; [|apply good_upsert_current, Hg].
  intros _. set (matches := match current_turn b with Some _ => _ | None => _ end).
  destruct (negb matches && negb (existsb _ (turns b))) eqn:E.
  - apply andb_true_iff in E as [E1%negb_true_iff E2%negb_true_iff].
    destruct (good_finish _ _ Hg) as [Hs1 Hl1].
    destruct (new_turn (Some id) (finish_current_turn b)) as [p b1] eqn:En.
    destruct (new_turn_spec _ _ _ _ En) as (Hi & Hsame & _ & Hid). specialize (Hid id eq_refl).
    assert (Hg1 : good v b1) by (by eapply good_same).
    assert (Hc1 : current_turn b1 = None)
      by (destruct Hsame as (_ & <- & _); apply finish_current_none).
    apply good_upsert_turn_id; [|right; by exists p].
    apply shown_open; [apply Hg1|done|done|]. unfold all_turns. rewrite Hc1, app_nil_r.
    destruct Hsame as (<- & _ & _). rewrite finish_all_turns by apply Hg. rewrite Hid.
    intros (t & -> & Ht)%list_elem_of_fmap. unfold all_turns in Ht.
    apply elem_of_app in Ht as [Ht|Ht].
    + assert (Hx : existsb (fun f : Turn => str_eqb (t_id f) (t_id t)) (turns b) = true); [|congruence].
      apply existsb_exists. exists t. split; [by apply list_elem_of_In|].
      unfold str_eqb. by apply bool_decide_eq_true.
    + unfold matches in E1. destruct (current_turn b) as [q|]; [|by apply elem_of_nil in Ht].
      apply list_elem_of_singleton in Ht as ->. simpl in E1. unfold str_eqb in E1.
      by apply bool_decide_eq_false in E1.
  - apply good_upsert_turn_id; [apply Hg|left; apply Hg].
Qed.

(** *** Handlers *)

Lemma good_current_meta v b p q :
  good v b -> current_turn b = Some p -> p_id q = p_id p -> p_items q = p_items p ->
  droppable q = droppable p ->
  good v (record_changed_turn (from_pending_turn q) (set_current (Some q) b)).
Proof.
  intros [(c & Hc & Hs) Hl] Hp Hid Hi Hd. split.
  - eapply shown_record_turn; [done|]. unfold all_turns in *. rewrite Hp in Hs. simpl.
    change (from_pending_turn q) with (from_turn (turn_of q)).
    by apply (shows_meta _ _ (turn_of p) (turn_of q) [] Hs).
  - unfold live in *. rewrite record_turn_current. simpl. rewrite Hp in Hl. by rewrite Hd.
Qed.

Lemma good_finished_meta v b l1 x f l2 :
  good v b -> turns b = l1 ++ x :: l2 ->
  t_id f = t_id x -> t_items f = t_items x -> t_items_view f = t_items_view x ->
  good v (record_changed_turn (from_turn f) (set_turns (l1 ++ f :: l2) b)).
Proof.
  intros [(c & Hc & Hs) Hl] Hb Hid Hi Hw. split.
  - eapply shown_record_turn; [done|]. unfold all_turns in *. simpl. rewrite Hb in Hs.
    rewrite <- app_assoc in *. simpl in *. by apply (shows_meta _ _ x).
  - unfold live in *. by rewrite record_turn_current.
Qed.

Lemma good_error v b e : good v b -> good v (handle_error e b).
Proof.
  intros Hg. unfold handle_error. destruct (affects_turn_status e); [|done].
  rewrite (shown_tracking v) by apply Hg. destruct (current_turn b) as [p|] eqn:Ep; [|done].
  by eapply good_current_meta.
Qed.

Lemma good_abort_current v b e : good v b -> good v (abort_current e b).
Proof.
  intros Hg. unfold abort_current. destruct (current_turn b) as [p|] eqn:Ep; [|done].
  by eapply good_current_meta.
Qed.

Lemma good_aborted v b e : good v b -> good v (handle_turn_aborted e b).
Proof.
  intros Hg. unfold handle_turn_aborted. destruct (ta_turn_id e) as [id|]; [|by apply good_abort_current].
  destruct (match current_turn b with Some _ => _ | None => _ end); [by apply good_abort_current|].
  destruct (find_mut _ _ _) as [[f l]|] eqn:E; [|by apply good_abort_current].
  apply find_mut_Some in E as (l1 & x & l2 & Hb & _ & -> & ->). by eapply good_finished_meta.
Qed.

Lemma good_complete_current v b e : good v b -> good v (complete_current e b).
Proof.
  intros Hg. unfold complete_current. destruct (current_turn b) as [p|] eqn:Ep; [|done].
  apply good_finish. eapply good_current_meta; [done|done|..]; unfold apply_completion;
    by destruct (completion _ _ _).
Qed.

Lemma good_complete v b e : good v b -> good v (handle_turn_complete e b).
Proof.
  intros Hg. unfold handle_turn_complete.
  destruct (match current_turn b with Some _ => _ | None => _ end); [by apply good_complete_current|].
  destruct (find_mut _ _ _) as [[f l]|] eqn:E; [|by apply good_complete_current].
  apply find_mut_Some in E as (l1 & x & l2 & Hb & _ & -> & ->).
  eapply good_finished_meta; [done|done|..]; unfold apply_completion_turn; by destruct (completion _ _ _).
Qed.

Lemma good_started v b e :
  good v b -> distinct_ids (handle_turn_started e b) = true -> good v (handle_turn_started e b).
Proof.
  intros Hg Hd. apply distinct_ids_turns in Hd. revert Hd. unfold handle_turn_started.
  destruct (new_turn _ _) as [p b1] eqn:En.
  destruct (new_turn_spec _ _ _ _ En) as (Hi & Hsame & _ & _).
  assert (Hg1 : good v b1) by (eapply good_same; [done|by apply good_finish]).
  assert (Hc1 : current_turn b1 = None)
    by (destruct Hsame as (_ & <- & _); apply finish_current_none).
  set (q := opened_explicitly _). intros Hd.
  split; [|unfold live; simpl; unfold droppable; simpl; by rewrite andb_false_r].
  apply shown_open; [apply Hg1|done|done|].
  rewrite open_all_turns, fmap_app in Hd by done. apply NoDup_app in Hd as (_ & Hd & _). intros E.
  apply (Hd _ E). set_solver.
Qed.

Lemma good_reasoning v b text extend fresh :
  (forall i j, extend i = Some j -> item_id j = item_id i) ->
  good v b -> distinct_ids (handle_reasoning_text text extend fresh b) = true ->
  good v (handle_reasoning_text text extend fresh b).
Proof.
  intros Hext Hg. unfold handle_reasoning_text. destruct (is_empty text); [done|].
  rewrite (shown_tracking v) by apply Hg. destruct (ensure_turn b) as [p b1] eqn:E.
  pose proof (ensure_turn_current _ _ _ E) as Hp.
  destruct (last (p_items p) ≫= extend) as [j|] eqn:El.
  - apply bind_Some in El as (i & (l & Hl)%last_Some_snoc & Hj). apply Hext in Hj.
    rewrite Hl, update_last_snoc. intros Hd.
    pose proof (distinct_ids_turns _ Hd) as Hnd. rewrite record_item_turns in Hnd.
    rewrite all_turns_current in Hnd by done.
    assert (Hput : l ++ [j] = tput item_id (p_items p) j).
    { rewrite Hl. symmetry. apply tput_middle; [|done].
      assert (Hni : NoDup (item_id <$> l ++ [j])).
      { apply (distinct_ids_items _ (turn_of (set_items (l ++ [j]) p)) Hd).
        rewrite record_item_turns. unfold all_turns. simpl. set_solver. }
      rewrite fmap_app in Hni. apply NoDup_app in Hni as (_ & Hn & _). intros Hx.
      apply (Hn _ Hx). set_solver. }
    rewrite Hput. destruct (ensure_turn_spec v _ _ _ E (proj1 Hg) Hnd) as [Hs1 _].
    by apply good_current_item.
  - intros Hd. apply good_push; [|done]. pose proof (distinct_ids_turns _ Hd) as Hnd.
    assert (Hids : t_id <$> all_turns (push_item_in_current_turn
      (fresh (generated_item_id (next_item_index b1)))
      (set_next_item_index (wrap_i64 (next_item_index b1 + 1)) b1)) = t_id <$> all_turns b1).
    { unfold push_item_in_current_turn, ensure_turn. simpl. rewrite Hp.
      set (b2 := set_next_item_index _ b1).
      assert (E2 : t_id <$> all_turns (set_current (Some (set_items (p_items p ++
        [fresh (generated_item_id (next_item_index b1))]) p)) b2) = t_id <$> all_turns b2)
        by (by apply all_turns_current).
      destruct (is_tracking_changes b2); [rewrite record_item_turns|]; by rewrite E2. }
    simpl in Hnd. rewrite Hids in Hnd.
    destruct (ensure_turn_spec v _ _ _ E (proj1 Hg) Hnd) as [Hs1 _].
    destruct Hs1 as (c & Hc & Hs1). by exists c.
Qed.

Lemma good_compacted v b :
  good v b -> distinct_ids (handle_compacted b) = true -> good v (handle_compacted b).
Proof.
  intros Hg Hd. apply distinct_ids_turns in Hd. revert Hd. unfold handle_compacted.
  destruct (ensure_turn b) as [p b1] eqn:E. pose proof (ensure_turn_current _ _ _ E) as Hp.
  assert (Hat : all_turns (set_current (Some (set_saw_compaction p)) b1) = all_turns b1).
  { unfold all_turns. simpl. by rewrite Hp. }
  rewrite Hat. intros Hnd. destruct (ensure_turn_spec v _ _ _ E (proj1 Hg) Hnd) as [(c & Hc & Hs1) _].
  split; [exists c; by rewrite Hat|]. unfold live. simpl. unfold droppable. simpl.
  by rewrite andb_false_r.
Qed.

Lemma good_user_message v b p :
  good v b -> distinct_ids (handle_user_message p b) = true -> good v (handle_user_message p b).
Proof.
  intros Hg. unfold handle_user_message.
  set (b1 := match current_turn b with Some _ => _ | None => _ end).
  assert (Hg1 : good v b1).
  { unfold b1. destruct (current_turn b) as [q|]; [|done].
    destruct (_ && _); [by apply good_finish|done]. }
  simpl. apply good_push. apply (good_next_index v b1 _ Hg1).
Qed.

Definition item_count (ts : list Turn) : N :=
  fold_left N.add ((fun f : Turn => lenN (t_items f)) <$> ts) 0%N.

(** Rolling back keeps a prefix of the turns and records the rest as removed. *)
Lemma rollback_eq n b :
  let ts := turns (finish_current_turn b) in
  let k := N.to_nat (lenN ts - n) in
  handle_thread_rollback n b =
  set_next_item_index (i64_of_usize (sat_add (item_count (take k ts)) 1))
    (set_turns (take k ts) (record_removed_turn_ids (t_id <$> drop k ts) (finish_current_turn b))).
Proof.
  intros ts k. unfold handle_thread_rollback. fold ts.
  assert (Hrem : (if (lenN ts <=? n)%N then t_id <$> ts
                  else if (n =? 0)%N then [] else t_id <$> drop (N.to_nat (lenN ts - n)) ts) =
                 t_id <$> drop k ts).
  { destruct (N.leb_spec (lenN ts) n) as [Hle|Hlt].
    - unfold k. replace (lenN ts - n)%N with 0%N by lia. done.
    - destruct (N.eqb_spec n 0) as [->|Hn]; [|done]. unfold k, lenN.
      rewrite N.sub_0_r, Nat2N.id, drop_all. done. }
  rewrite Hrem. set (b1 := record_removed_turn_ids _ _).
  assert (Ht1 : turns b1 = ts).
  { unfold b1, record_removed_turn_ids. by destruct (active_change_set _). }
  rewrite Ht1.
  assert (E : (if (lenN ts <=? n)%N then set_turns [] b1
               else set_turns (take (N.to_nat (lenN ts - n)) ts) b1) = set_turns (take k ts) b1).
  { destruct (N.leb_spec (lenN ts) n) as [Hle|Hlt]; [|done].
    unfold k. replace (lenN ts - n)%N with 0%N by lia. done. }
  rewrite E. done.
Qed.

Lemma good_rollback v b n c :
  good v b -> active_change_set b = Some c -> changed_items c = [] -> changed_turns c = [] ->
  good v (handle_thread_rollback n b).
Proof.
  intros Hg Hc Hi Ht. pose proof (good_finish _ _ Hg) as [(c' & Hc' & Hs) _].
  rewrite finish_active, Hc in Hc'. injection Hc' as <-.
  rewrite rollback_eq. set (ts := turns (finish_current_turn b)). set (k := N.to_nat _).
  assert (Hts : all_turns (finish_current_turn b) = take k ts ++ drop k ts).
  { unfold all_turns. by rewrite finish_current_none, app_nil_r, take_drop. }
  apply good_next_index. unfold record_removed_turn_ids. rewrite finish_active, Hc. split.
  - eexists. split; [done|]. unfold all_turns. simpl. rewrite finish_current_none, app_nil_r.
    rewrite Hi, Ht. unfold apply_changes in *. simpl. rewrite fold_left_app.
    rewrite Hi, Ht in Hs. simpl in Hs. rewrite Hts in Hs. by apply shows_remove.
  - unfold live. simpl. by rewrite finish_current_none.
Qed.

Lemma good_item_id_or_next v b id i b' : item_id_or_next id b = (i, b') -> good v b -> good v b'.
Proof. destruct id; intros [= <- <-] Hg; [done|]. by apply good_next_index. Qed.

Lemma good_event v b e :
  good v b -> active_change_set b = Some empty_changes -> distinct_ids (handle_event e b) = true ->
  good v (handle_event e b).
Proof.
  intros Hg Hc Hd.
  destruct e; cbn [handle_event] in *; try done;
    try (apply good_upsert_current; [apply Hg|done]);
    try (apply good_upsert_event_turn; done);
    try (apply good_upsert_turn_id; [apply Hg|left; apply Hg]);
    try (apply good_reasoning; [by intros [] ? E; simplify_eq|done|done]).
  - by apply good_error.
  - apply good_push; [|done]. apply (good_next_index v b _ Hg).
  - by eapply good_rollback.
  - by apply good_started.
  - by apply good_complete.
  - revert Hd. unfold handle_agent_message. destruct (is_empty _); [done|]. simpl.
    apply good_push. apply (good_next_index v b _ Hg).
  - by apply good_user_message.
  - revert Hd. unfold handle_mcp_tool_call_end. destruct (me_result payload);
      apply good_upsert_current, Hg.
  - revert Hd. unfold handle_guardian_assessment.
    destruct (_ ≫= _); [|done]. by apply good_upsert_event_turn.
  - by apply good_aborted.
  - revert Hd. unfold handle_entered_review_mode. destruct (item_id_or_next _ b) as [i b'] eqn:E.
    apply good_upsert_review. by eapply good_item_id_or_next.
  - revert Hd. unfold handle_exited_review_mode. destruct (item_id_or_next _ b) as [i b'] eqn:E.
    apply good_upsert_review. by eapply good_item_id_or_next.
  - revert Hd. unfold handle_item_started, handle_materialized_item_lifecycle.
    destruct (should_upsert _); [|done]. destruct (is_review_mode_item _).
    + by apply good_upsert_review.
    + intros _. apply good_upsert_turn_id; [apply Hg|left; apply Hg].
  - revert Hd. unfold handle_item_completed, handle_materialized_item_lifecycle.
    destruct (should_upsert _); [|done]. destruct (is_review_mode_item _).
    + by apply good_upsert_review.
    + intros _. apply good_upsert_turn_id; [apply Hg|left; apply Hg].
  - revert Hd. unfold handle_collab_agent_spawn_end. destruct (sp_new_thread_id payload);
      apply good_upsert_current, Hg.
Qed.

Lemma good_response_item v b i :
  good v b -> distinct_ids (handle_response_item i b) = true -> good v (handle_response_item i b).
Proof.
  intros Hg. destruct i; simpl; try done. destruct (str_eqb _ _); [|done].
  destruct (hook_prompt_fragments _); [|done]. destruct id as [id|]; simpl.
  - by apply good_push, Hg.
  - apply good_push. assert (Hg' : good v (draw_uuid b).2) by (by apply (good_same v b)).
    apply Hg'.
Qed.

Lemma good_rollout_item v b i :
  good v b -> active_change_set b = Some empty_changes -> distinct_ids (handle_rollout_item i b) = true ->
  good v (handle_rollout_item i b).
Proof.
  intros Hg Hc. assert (Hg' : good v (advance_rollout_index b)) by (by apply (good_same v b)).
  unfold handle_rollout_item. destruct i; try done.
  - by apply good_response_item.
  - by apply good_compacted.
  - by apply good_event.
Qed.

End laws.
