(* ===== verification/ThreadHistoryRuns.v ===== *)
(** * Laws of the thread history, continued: whole rollouts

    Recording changes does not influence the history; a client that follows the
    coalesced changes of any sequence of batches shows the turns that a rebuild
    from the rollout gives; no turn is ever dropped; and what decides whether
    identifiers stay distinct. *)

From stdpp Require Import gmap.
From S2P Require Import Prelude.
From S2P Require Import RustStr.
From S2P Require Import Paths.
From S2P Require Import Truncate.
From S2P Require Import History.
From S2P Require Import HistoryOps.
From S2P Require Import Tables.
From S2P Require Import ThreadItems.
From S2P Require Import ThreadHistory.
From S2P Require Import ThreadHistoryFacts.
From S2P Require Import ThreadHistoryLaws.

Section runs.
Context {W : Wire} `{Host}.
Implicit Types (b : ThreadHistoryBuilder) (c : option ThreadHistoryChangeSet) (v : View)
  (item : ThreadItem).

(** ** Recording changes does not influence the history *)

(** Builders that differ in their change set only. *)
Definition beq b b' : Prop := set_change_set None b = set_change_set None b'.
Infix "≈" := beq (at level 70).

#[global] Instance beq_equivalence : Equivalence beq.
Proof. split; unfold beq; repeat intros ?; congruence. Qed.

Lemma beq_set c b : set_change_set c b ≈ b.
Proof. done. Qed.

Lemma beq_inv b b' : b ≈ b' -> exists c, b' = set_change_set c b.
Proof.
  intros E. exists (active_change_set b'). destruct b, b'. unfold beq, set_change_set in E.
  simpl in *. injection E as -> -> -> -> -> ->. done.
Qed.

(** A handler respects [≈] when a change set makes no difference to it. *)
Lemma beq_proper (h : ThreadHistoryBuilder -> ThreadHistoryBuilder) :
  (forall c b, h (set_change_set c b) ≈ h b) -> Proper (beq ==> beq) h.
Proof. intros Hh b b' (c & ->)%beq_inv. symmetry. apply Hh. Qed.

Ltac by_cases :=
  repeat match goal with
  | |- context [match ?x with _ => _ end] => destruct x eqn:?; simpl; simplify_eq; try done
  end.

#[global] Instance record_item_beq id item : Proper (beq ==> beq) (record_changed_item id item).
Proof. apply beq_proper. intros c b. unfold record_changed_item. simpl. by_cases. Qed.

#[global] Instance record_turn_beq ch : Proper (beq ==> beq) (record_changed_turn ch).
Proof. apply beq_proper. intros c b. unfold record_changed_turn. simpl. by_cases. Qed.

Lemma record_item_id id item b : record_changed_item id item b ≈ b.
Proof. unfold record_changed_item. by_cases. Qed.

Lemma record_turn_id ch b : record_changed_turn ch b ≈ b.
Proof. unfold record_changed_turn. by_cases. Qed.

Lemma record_pending_id p b : record_changed_pending_turn p b ≈ b.
Proof. unfold record_changed_pending_turn. destruct (is_tracking_changes b); [apply record_turn_id|done]. Qed.

Lemma record_removed_id ids b : record_removed_turn_ids ids b ≈ b.
Proof. unfold record_removed_turn_ids. by_cases. Qed.

#[global] Instance set_current_beq p : Proper (beq ==> beq) (set_current p).
Proof. by apply beq_proper. Qed.

#[global] Instance set_turns_beq l : Proper (beq ==> beq) (set_turns l).
Proof. by apply beq_proper. Qed.

#[global] Instance set_next_item_index_beq n : Proper (beq ==> beq) (set_next_item_index n).
Proof. by apply beq_proper. Qed.

#[global] Instance turns_beq : Proper (beq ==> eq) turns.
Proof. by intros b b' (c & ->)%beq_inv. Qed.

#[global] Instance current_turn_beq : Proper (beq ==> eq) current_turn.
Proof. by intros b b' (c & ->)%beq_inv. Qed.

#[global] Instance next_item_index_beq : Proper (beq ==> eq) next_item_index.
Proof. by intros b b' (c & ->)%beq_inv. Qed.

#[global] Instance finish_current_turn_beq : Proper (beq ==> beq) finish_current_turn.
Proof. apply beq_proper. intros c b. unfold finish_current_turn. simpl. by_cases. Qed.

Lemma new_turn_beq id b b' :
  b ≈ b' -> (new_turn id b).1 = (new_turn id b').1 /\ (new_turn id b).2 ≈ (new_turn id b').2.
Proof.
  intros (c & ->)%beq_inv. unfold new_turn, draw_uuid. destruct id; [done|]. simpl.
  by destruct (next_rollout_index b =? 0)%N.
Qed.

Lemma ensure_turn_beq b b' :
  b ≈ b' -> (ensure_turn b).1 = (ensure_turn b').1 /\ (ensure_turn b).2 ≈ (ensure_turn b').2.
Proof.
  intros E. unfold ensure_turn. rewrite <- E.
  destruct (current_turn b); [done|]. destruct (new_turn_beq None b b' E) as [E1 E2].
  destruct (new_turn None b), (new_turn None b'). simpl in *. subst. split; [done|].
  by rewrite !record_pending_id, E2.
Qed.

(** Writing an item, with or without its record. *)
Lemma written_beq (tracking tracking' : bool) id item b b' :
  b ≈ b' ->
  (if tracking then record_changed_item id item b else b) ≈
  (if tracking' then record_changed_item id item b' else b').
Proof. intros E. destruct tracking, tracking'; by rewrite ?record_item_id. Qed.

#[global] Instance push_item_beq item : Proper (beq ==> beq) (push_item_in_current_turn item).
Proof.
  intros b b' E. unfold push_item_in_current_turn. destruct (ensure_turn_beq b b' E) as [E1 E2].
  destruct (ensure_turn b), (ensure_turn b'). simpl in *. subst. apply written_beq. by rewrite E2.
Qed.

#[global] Instance upsert_current_beq item : Proper (beq ==> beq) (upsert_item_in_current_turn item).
Proof.
  intros b b' E. unfold upsert_item_in_current_turn. destruct (ensure_turn_beq b b' E) as [E1 E2].
  destruct (ensure_turn b), (ensure_turn b'). simpl in *. subst. apply written_beq. by rewrite E2.
Qed.

#[global] Instance upsert_turn_id_beq id item : Proper (beq ==> beq) (upsert_item_in_turn_id id item).
Proof.
  intros b b' E. unfold upsert_item_in_turn_id.
  rewrite <- (current_turn_beq _ _ E), <- (turns_beq _ _ E).
  destruct (current_turn b) as [p|]; [destruct (str_eqb _ _)|].
  1: apply written_beq; by rewrite E.
  all: destruct (find_mut _ _ _) as [[f l]|]; [apply written_beq; by rewrite E|done].
Qed.

#[global] Instance upsert_event_turn_beq id item :
  Proper (beq ==> beq) (upsert_item_in_event_turn id item).
Proof. intros b b' E. unfold upsert_item_in_event_turn. destruct (is_empty id); by rewrite E. Qed.

#[global] Instance upsert_review_beq id item : Proper (beq ==> beq) (upsert_review_mode_item id item).
Proof.
  intros b b' E. unfold upsert_review_mode_item. destruct id as [id|]; [|by rewrite E].
  rewrite <- (current_turn_beq _ _ E), <- (turns_beq _ _ E). apply upsert_turn_id_beq.
  destruct (_ && _); [|done].
  destruct (new_turn_beq (Some id) (finish_current_turn b) (finish_current_turn b')) as [E1 E2];
    [by rewrite E|].
  destruct (new_turn _ _), (new_turn _ _). simpl in *. subst. by rewrite !record_pending_id, E2.
Qed.

Lemma item_id_or_next_beq id b b' :
  b ≈ b' -> (item_id_or_next id b).1 = (item_id_or_next id b').1 /\
            (item_id_or_next id b).2 ≈ (item_id_or_next id b').2.
Proof. intros (c & ->)%beq_inv. by destruct id. Qed.

Lemma rollback_beq n : Proper (beq ==> beq) (handle_thread_rollback n).
Proof. intros b b' E. rewrite !rollback_eq. cbv zeta. rewrite !record_removed_id.
  by rewrite (turns_beq _ _ (finish_current_turn_beq _ _ E)), E.
Qed.

Lemma turn_meta_beq e : Proper (beq ==> beq) (abort_current e).
Proof.
  intros b b' E. unfold abort_current. rewrite <- E. destruct (current_turn b); [|done].
  by rewrite !record_turn_id, E.
Qed.

Lemma complete_current_beq e : Proper (beq ==> beq) (complete_current e).
Proof.
  intros b b' E. unfold complete_current. rewrite <- E. destruct (current_turn b); [|done].
  by rewrite !record_turn_id, E.
Qed.

Lemma reasoning_beq text extend fresh : Proper (beq ==> beq) (handle_reasoning_text text extend fresh).
Proof.
  intros b b' E. unfold handle_reasoning_text. destruct (is_empty text); [done|].
  destruct (ensure_turn_beq b b' E) as [E1 E2]. destruct (ensure_turn b), (ensure_turn b').
  simpl in *. subst. destruct (last _ ≫= extend); [apply written_beq; by rewrite E2|].
  rewrite (next_item_index_beq _ _ E2). by rewrite E2.
Qed.

Lemma next_push_beq (mk : str -> ThreadItem) :
  Proper (beq ==> beq) (fun b => let '(id, b) := next_item_id b in push_item_in_current_turn (mk id) b).
Proof. intros b b' E. simpl. rewrite (next_item_index_beq _ _ E). by rewrite E. Qed.

Lemma handle_turn_started_beq e : Proper (beq ==> beq) (handle_turn_started e).
Proof.
  intros b b' E. unfold handle_turn_started.
  destruct (new_turn_beq (Some (ts_turn_id e)) (finish_current_turn b) (finish_current_turn b'))
    as [E1 E2]; [by rewrite E|].
  destruct (new_turn _ _), (new_turn _ _). simpl in *. subst. by rewrite !record_pending_id, E2.
Qed.

Lemma handle_turn_aborted_beq e : Proper (beq ==> beq) (handle_turn_aborted e).
Proof.
  intros b b' E. unfold handle_turn_aborted.
  rewrite <- (current_turn_beq _ _ E), <- (turns_beq _ _ E).
  destruct (ta_turn_id e) as [tid|]; [|by apply turn_meta_beq].
  destruct (match current_turn b with Some _ => _ | None => _ end); [by apply turn_meta_beq|].
  destruct (find_mut _ _ _) as [[f l]|]; [by rewrite !record_turn_id, E|by apply turn_meta_beq].
Qed.

Lemma handle_turn_complete_beq e : Proper (beq ==> beq) (handle_turn_complete e).
Proof.
  intros b b' E. unfold handle_turn_complete.
  rewrite <- (current_turn_beq _ _ E), <- (turns_beq _ _ E).
  destruct (match current_turn b with Some _ => _ | None => _ end); [by apply complete_current_beq|].
  destruct (find_mut _ _ _) as [[f l]|]; [by rewrite !record_turn_id, E|by apply complete_current_beq].
Qed.

Lemma handle_user_message_beq p : Proper (beq ==> beq) (handle_user_message p).
Proof.
  intros b b' E. unfold handle_user_message.
  apply (next_push_beq (fun id => TI_UserMessage id (um_client_id p) (build_user_inputs p))).
  rewrite <- (current_turn_beq _ _ E). destruct (current_turn b); [|done].
  destruct (_ && _); by rewrite ?E.
Qed.

Lemma handle_error_beq p : Proper (beq ==> beq) (handle_error p).
Proof.
  intros b b' E. unfold handle_error. destruct (affects_turn_status p); [|done].
  rewrite <- (current_turn_beq _ _ E). destruct (current_turn b); [|done].
  destruct (is_tracking_changes b), (is_tracking_changes b'); rewrite ?record_turn_id; by rewrite E.
Qed.

Lemma handle_event_beq e : Proper (beq ==> beq) (handle_event e).
Proof.
  intros b b' E. destruct e; cbn [handle_event]; try done;
    try (by apply upsert_current_beq); try (by apply upsert_event_turn_beq);
    try (by apply upsert_turn_id_beq); try (by apply reasoning_beq).
  - by apply handle_error_beq.
  - by apply (next_push_beq TI_ContextCompaction).
  - by apply rollback_beq.
  - by apply handle_turn_started_beq.
  - by apply handle_turn_complete_beq.
  - unfold handle_agent_message. destruct (is_empty _); [done|].
    by apply (next_push_beq (fun id => TI_AgentMessage id _ _ _)).
  - by apply handle_user_message_beq.
  - unfold handle_mcp_tool_call_end. destruct (me_result payload); by apply upsert_current_beq.
  - unfold handle_guardian_assessment. destruct (_ ≫= _); [|done]. by apply upsert_event_turn_beq.
  - by apply handle_turn_aborted_beq.
  - unfold handle_entered_review_mode.
    destruct (item_id_or_next_beq (er_item_id payload) b b' E) as [E1 E2].
    destruct (item_id_or_next _ b), (item_id_or_next _ b'). simpl in *. subst.
    by apply upsert_review_beq.
  - unfold handle_exited_review_mode.
    destruct (item_id_or_next_beq (ex_item_id payload) b b' E) as [E1 E2].
    destruct (item_id_or_next _ b), (item_id_or_next _ b'). simpl in *. subst.
    by apply upsert_review_beq.
  - unfold handle_item_started, handle_materialized_item_lifecycle.
    destruct (should_upsert _); [|done].
    destruct (is_review_mode_item _); [by apply upsert_review_beq|by apply upsert_turn_id_beq].
  - unfold handle_item_completed, handle_materialized_item_lifecycle.
    destruct (should_upsert _); [|done].
    destruct (is_review_mode_item _); [by apply upsert_review_beq|by apply upsert_turn_id_beq].
  - unfold handle_collab_agent_spawn_end. destruct (sp_new_thread_id payload);
      by apply upsert_current_beq.
Qed.

#[global] Instance handle_rollout_item_beq i : Proper (beq ==> beq) (handle_rollout_item i).
Proof.
  intros b b' (c & ->)%beq_inv. symmetry. unfold handle_rollout_item.
  assert (E : advance_rollout_index (set_change_set c b) ≈ advance_rollout_index b) by done.
  destruct i; try done.
  - revert E. generalize (advance_rollout_index (set_change_set c b)), (advance_rollout_index b).
    intros b1 b2 E. destruct item; simpl; try done. destruct (str_eqb _ _); [|done].
    destruct (hook_prompt_fragments _); [|done]. destruct id; [by apply push_item_beq|].
    apply beq_inv in E as (c' & ->). simpl. by apply push_item_beq.
  - unfold handle_compacted. destruct (ensure_turn_beq _ _ E) as [E1 E2].
    destruct (ensure_turn _), (ensure_turn _). simpl in *. subst. by rewrite E2.
  - by apply handle_event_beq.
Qed.

(** ** Following a rollout *)

#[global] Instance all_turns_beq : Proper (beq ==> eq) all_turns.
Proof. by intros b b' (c & ->)%beq_inv. Qed.

#[global] Instance distinct_ids_beq : Proper (beq ==> eq) distinct_ids.
Proof. by intros b b' (c & ->)%beq_inv. Qed.

(** Every state of a run keeps the identifiers of its turns, and of the items
    of each turn, distinct. *)
Fixpoint run_distinct (items : list RolloutItem) b : bool :=
  match items with
  | [] => true
  | i :: rest =>
      let b := handle_rollout_item i b in distinct_ids b && run_distinct rest b
  end.

Definition replay (items : list RolloutItem) b : ThreadHistoryBuilder :=
  fold_left (fun b i => handle_rollout_item i b) items b.

(** A client that follows a builder from batch to batch. *)
Fixpoint follow (batches : list (list RolloutItem)) v b : View * ThreadHistoryBuilder :=
  match batches with
  | [] => (v, b)
  | batch :: rest =>
      let '(changes, b) := handle_rollout_items_with_changes batch b in
      follow rest (apply_changes changes v) b
  end.

(** The client, the builder it follows, and a builder that records nothing. *)
Definition in_step v b b0 : Prop := shows v (all_turns b) /\ live b /\ b ≈ b0.

Lemma step_with_changes v b b0 i changes b' :
  in_step v b b0 -> distinct_ids (handle_rollout_item i b0) = true ->
  handle_rollout_item_with_changes i b = (changes, b') ->
  in_step (apply_changes changes v) b' (handle_rollout_item i b0).
Proof.
  intros (Hs & Hl & E) Hd [= <- <-].
  set (b1 := set_change_set (Some empty_changes) b).
  assert (E1 : handle_rollout_item i b1 ≈ handle_rollout_item i b0) by (by apply handle_rollout_item_beq).
  assert (Hg : good v b1) by (by split; [exists empty_changes|]).
  rewrite <- (distinct_ids_beq _ _ E1) in Hd.
  destruct (good_rollout_item v b1 i Hg eq_refl Hd) as [(c & Hc & Hs1) Hl1].
  rewrite Hc. split_and!; [done|done|done].
Qed.

Lemma step_batch items v b b0 a changes b' :
  acc_ok a -> in_step (apply_changes (acc_finish a) v) b b0 -> run_distinct items b0 = true ->
  push_all items a b = (changes, b') ->
  in_step (apply_changes (acc_finish changes) v) b' (replay items b0).
Proof.
  revert b b0 a. induction items as [|i items IH]; intros b b0 a Ha Hin Hd Hp;
    [injection Hp as <- <-; exact Hin|].
  cbn [push_all run_distinct] in Hd, Hp. apply andb_true_iff in Hd as [Hd1 Hd2].
  destruct (handle_rollout_item_with_changes i b) as [c b1] eqn:Ec.
  destruct (acc_push_ok a c v Ha) as [Ha' E'].
  apply (IH b1 (handle_rollout_item i b0) (acc_push a c)); [done| |done|done].
  rewrite E'. by eapply step_with_changes.
Qed.

Lemma run_distinct_app l1 l2 b :
  run_distinct (l1 ++ l2) b = run_distinct l1 b && run_distinct l2 (replay l1 b).
Proof.
  revert b. induction l1 as [|i l1 IH]; intros b; [done|]. simpl. by rewrite IH, andb_assoc.
Qed.

Lemma follow_in_step batches v b b0 v' b' :
  in_step v b b0 -> run_distinct (concat batches) b0 = true -> follow batches v b = (v', b') ->
  in_step v' b' (replay (concat batches) b0).
Proof.
  revert v b b0. induction batches as [|l batches IH]; intros v b b0 Hin Hd Hf;
    [injection Hf as <- <-; exact Hin|].
  simpl in *. rewrite run_distinct_app in Hd. apply andb_true_iff in Hd as [Hd1 Hd2].
  unfold handle_rollout_items_with_changes in Hf. destruct (push_all l empty_acc b) as [a b1] eqn:Ep.
  unfold replay. rewrite fold_left_app. eapply IH; [|done|done].
  eapply step_batch; [apply empty_acc_ok|exact Hin|done|done].
Qed.

(** C6: Following a thread through the change sets of its batches shows the
    thread: a client that starts with empty tables and applies, batch after
    batch, the coalesced change set that [handle_rollout_items_with_changes]
    returns, shows exactly the turns, in order and with their items, that
    [build_turns_from_rollout_items] rebuilds from the whole rollout, as long
    as the identifiers of the turns, and of the items of a turn, stay
    distinct.  In particular the changes of turns removed by a rollback are
    gone, and late completions appear in their own turn. *)
Theorem changes_replay_history batches :
  run_distinct (concat batches) (new_builder 0) = true ->
  view_history (follow batches empty_view (new_builder 0)).1 =
  build_turns_from_rollout_items (concat batches).
Proof.
  intros Hd. destruct (follow batches empty_view (new_builder 0)) as [v b] eqn:Ef.
  destruct (follow_in_step batches empty_view (new_builder 0) (new_builder 0) v b) as (Hs & Hl & E);
    [|done|done|].
  - split_and!; [apply empty_shows|done|done].
  - simpl. rewrite (shows_history _ _ Hs). rewrite <- (finish_all_turns b Hl).
    apply turns_beq, finish_current_turn_beq, E.
Qed.

(** ** No turn is dropped *)

(** [finish_current_turn] drops a turn that is empty, was not opened explicitly
    and saw no compaction.  No handler leaves such a turn open. *)

Lemma live_record_item id item b : live b -> live (record_changed_item id item b).
Proof. unfold live. by rewrite record_item_current. Qed.

Lemma live_record_turn ch b : live b -> live (record_changed_turn ch b).
Proof. unfold live. by rewrite record_turn_current. Qed.

Lemma live_written (tracking : bool) id item b :
  live b -> live (if tracking then record_changed_item id item b else b).
Proof. destruct tracking; [apply live_record_item|done]. Qed.

Lemma live_items b p items : is_empty items = false -> live (set_current (Some (set_items items p)) b).
Proof. intros E. unfold live, droppable. simpl. by rewrite E. Qed.

Lemma live_push item b : live (push_item_in_current_turn item b).
Proof.
  unfold push_item_in_current_turn. destruct (ensure_turn b). apply live_written, live_items.
  by destruct (p_items p).
Qed.

Lemma live_upsert_current item b : live (upsert_item_in_current_turn item b).
Proof.
  unfold upsert_item_in_current_turn. destruct (ensure_turn b). rewrite upsert_is_tput.
  apply live_written, live_items, tput_not_empty.
Qed.

Lemma live_upsert_turn_id id item b :
  (match current_turn b with Some p => p_id p = id \/ droppable p = false | None => True end) ->
  live (upsert_item_in_turn_id id item b).
Proof.
  intros Hl. unfold upsert_item_in_turn_id.
  assert (Hfin : live b -> live
    match find_mut (fun f : Turn => str_eqb (t_id f) id)
            (fun f : Turn => set_turn_items (upsert_turn_item (t_items f) item) f) (turns b) with
    | Some (f, l) =>
        if is_tracking_changes b then record_changed_item (t_id f) item (set_turns l b)
        else set_turns l b
    | None => b
    end).
  { intros Hb. destruct (find_mut _ _ _) as [[f l]|]; [by apply live_written|done]. }
  destruct (current_turn b) as [p|] eqn:Ep.
  - unfold str_eqb in *. case_bool_decide as E.
    + apply live_written, live_items. rewrite upsert_is_tput. apply tput_not_empty.
    + apply Hfin. unfold live. rewrite Ep. by destruct Hl.
  - apply Hfin. unfold live. by rewrite Ep.
Qed.

Lemma live_upsert_live id item b : live b -> live (upsert_item_in_turn_id id item b).
Proof.
  intros Hl. apply live_upsert_turn_id. unfold live in Hl. destruct (current_turn b); [by right|done].
Qed.

Lemma live_upsert_event id item b : live b -> live (upsert_item_in_event_turn id item b).
Proof.
  intros Hl. unfold upsert_item_in_event_turn. destruct (is_empty id);
    [apply live_upsert_current|by apply live_upsert_live].
Qed.

Lemma live_upsert_review id item b : live b -> live (upsert_review_mode_item id item b).
Proof.
  intros Hl. unfold upsert_review_mode_item. destruct id as [id|]; [|apply live_upsert_current].
  destruct (_ && _); [|by apply live_upsert_live].
  destruct (new_turn (Some id) _) as [p b1] eqn:En. apply live_upsert_turn_id. simpl. left.
  destruct (new_turn_spec _ _ _ _ En) as (_ & _ & _ & Hid). by apply Hid.
Qed.

Lemma live_finish b : live (finish_current_turn b).
Proof. unfold live. by rewrite finish_current_none. Qed.

Lemma live_current_meta b p q :
  live b -> current_turn b = Some p -> droppable q = droppable p -> live (set_current (Some q) b).
Proof. intros Hl Hp Hq. unfold live in *. simpl. rewrite Hp in Hl. by rewrite Hq. Qed.

Lemma live_abort_current e b : live b -> live (abort_current e b).
Proof.
  intros Hl. unfold abort_current. destruct (current_turn b) as [p|] eqn:Ep; [|done].
  apply live_record_turn. by eapply live_current_meta.
Qed.

Lemma live_complete_current e b : live b -> live (complete_current e b).
Proof. intros Hl. unfold complete_current. destruct (current_turn b); [apply live_finish|done]. Qed.

Lemma live_reasoning text extend fresh b : live b -> live (handle_reasoning_text text extend fresh b).
Proof.
  intros Hl. unfold handle_reasoning_text. destruct (is_empty text); [done|].
  destruct (ensure_turn b) as [p b1]. destruct (last (p_items p) ≫= extend) eqn:E; [|apply live_push].
  apply live_written, live_items. apply bind_Some in E as (i & (l & ->)%last_Some_snoc & _).
  rewrite update_last_snoc. by destruct l.
Qed.

Lemma live_event e b : live b -> live (handle_event e b).
Proof.
  intros Hl. destruct e; cbn [handle_event]; try done; try apply live_upsert_current;
    try (by apply live_upsert_event); try (by apply live_upsert_live); try (by apply live_reasoning);
    try apply live_push.
  - unfold handle_error. destruct (affects_turn_status _); [|done].
    destruct (current_turn b) as [p|] eqn:Ep; [|done].
    destruct (is_tracking_changes b); [apply live_record_turn|]; by eapply live_current_meta.
  - rewrite rollback_eq. unfold live. simpl. unfold record_removed_turn_ids.
    destruct (active_change_set _); simpl; by rewrite finish_current_none.
  - unfold handle_turn_complete.
    destruct (match current_turn b with Some _ => _ | None => _ end); [by apply live_complete_current|].
    destruct (find_mut _ _ _) as [[f l]|]; [by apply live_record_turn|by apply live_complete_current].
  - unfold handle_agent_message. destruct (is_empty _); [done|]. apply live_push.
  - unfold handle_mcp_tool_call_end. destruct (me_result _); apply live_upsert_current.
  - unfold handle_guardian_assessment. destruct (_ ≫= _); [|done]. by apply live_upsert_event.
  - unfold handle_turn_aborted. destruct (ta_turn_id _) as [id|]; [|by apply live_abort_current].
    destruct (match current_turn b with Some _ => _ | None => _ end); [by apply live_abort_current|].
    destruct (find_mut _ _ _) as [[f l]|]; [by apply live_record_turn|by apply live_abort_current].
  - unfold handle_entered_review_mode. destruct (er_item_id _); by apply live_upsert_review.
  - unfold handle_exited_review_mode. destruct (ex_item_id _); by apply live_upsert_review.
  - unfold handle_item_started, handle_materialized_item_lifecycle. destruct (should_upsert _); [|done].
    destruct (is_review_mode_item _); [by apply live_upsert_review|by apply live_upsert_live].
  - unfold handle_item_completed, handle_materialized_item_lifecycle. destruct (should_upsert _); [|done].
    destruct (is_review_mode_item _); [by apply live_upsert_review|by apply live_upsert_live].
  - unfold handle_collab_agent_spawn_end. destruct (sp_new_thread_id _); apply live_upsert_current.
Qed.

Lemma live_rollout_item i b : live b -> live (handle_rollout_item i b).
Proof.
  intros Hl. unfold handle_rollout_item. destruct i; try done.
  - destruct item; simpl; try done. destruct (str_eqb _ _); [|done].
    destruct (hook_prompt_fragments _); [|done]. destruct id; apply live_push.
  - unfold handle_compacted. destruct (ensure_turn _). unfold live, droppable. simpl.
    by rewrite andb_false_r.
  - by apply live_event.
Qed.

Lemma live_replay items b : live b -> live (replay items b).
Proof.
  revert b. induction items as [|i items IH]; intros b Hl; [done|]. by apply IH, live_rollout_item.
Qed.

(** The active turn, at any point of any rollout, is where it is said to be:
    the turn of [active_turn_snapshot] is the one at [active_turn_position]
    among the turns that finishing would give, and finishing never drops it. *)
Theorem active_turn_is_at_its_position items n :
  let b := replay items (new_builder n) in
  active_turn_snapshot b = (active_turn_position b ≫= fun pos => finish b !! pos).
Proof.
  intros b. assert (Hl : live b) by (by apply live_replay). unfold finish.
  rewrite (finish_all_turns b Hl). unfold active_turn_snapshot, active_turn_position, all_turns.
  destruct (current_turn b) as [p|]; simpl.
  - by rewrite list_lookup_middle.
  - rewrite app_nil_r. destruct (turns b) as [|t l] eqn:E; [done|]. cbn [mbind option_bind].
    rewrite last_lookup. f_equal. simpl. lia.
Qed.

(** A rollback marker at the end of a rollout removes the last turns of the
    history and nothing else. *)
Theorem rollback_keeps_a_prefix items n :
  let ts := build_turns_from_rollout_items items in
  build_turns_from_rollout_items (items ++ [RI_EventMsg (Ev_ThreadRolledBack n)]) =
  take (N.to_nat (lenN ts - n)) ts.
Proof.
  intros ts. unfold build_turns_from_rollout_items. rewrite fold_left_app. cbn [fold_left].
  fold (replay items (new_builder 0)). unfold handle_rollout_item. cbn [handle_event].
  rewrite rollback_eq.
  set (b := advance_rollout_index (replay items (new_builder 0))).
  assert (Hts : turns (finish_current_turn b) = ts).
  { unfold ts, build_turns_from_rollout_items, finish. fold (replay items (new_builder 0)).
    unfold b, finish_current_turn. simpl. destruct (current_turn _); [|done]. by destruct (_ && _ && _). }
  rewrite Hts. unfold finish, finish_current_turn at 1. simpl.
  assert (Hc : current_turn (record_removed_turn_ids (t_id <$> drop (N.to_nat (lenN ts - n)) ts)
    (finish_current_turn b)) = None).
  { unfold record_removed_turn_ids. destruct (active_change_set _); simpl; apply finish_current_none. }
  by rewrite Hc.
Qed.

End runs.

(** ** Examples *)

Section examples.

#[local] Instance small_wire : Wire := {|
  Json := unit; Opaque := unit; json_null := tt;
  redact_secrets s := s; shlex_join := join [32%N];
  parse_command _ := []; uri_join base p := Some (base ++ s!"/" ++ p); native_path s := s;
  from_xml_str _ := None; now_v7 n := s!"uuid-" ++ digits_of_N (N.of_nat n) |}.

#[local] Instance history_host : Host := {|
  home_dir := None; current_dir := Some [RootDir]; tmpdir_var := None;
  is_dir _ := true; is_file _ := false; exists_path _ := true; read_to_string _ := None;
  symlink_metadata _ := Some false; fs_canonicalize := Some |}.

Definition ev_started (id : str) : RolloutItem :=
  RI_EventMsg (Ev_TurnStarted (mkTurnStarted id None None None tt)).

Definition ev_completed (id : str) : RolloutItem :=
  RI_EventMsg (Ev_TurnComplete (mkTurnComplete id None None None (Some 7%Z) None None)).

Definition ev_user (text : str) : RolloutItem :=
  RI_EventMsg (Ev_UserMessage (mkUserMessage None text None [] [] [] None [] [])).

Definition ev_exec_begin (turn call : str) : RolloutItem :=
  RI_EventMsg (Ev_ExecCommandBegin
    (mkExecBegin call None None None turn 0 [s!"make"] s!"/w" [] Agent None)).

Definition ev_exec_end (turn call : str) : RolloutItem :=
  RI_EventMsg (Ev_ExecCommandEnd
    (mkExecEnd call None None None turn 0 [s!"make"] s!"/w" [] Agent None [] [] s!"ok" 0 5000000 []
       ExecCompleted)).

(** Two turns; a command of the first ends while the second runs; the second is
    rolled back; a message opens a turn of its own. *)
Definition demo_batches : list (list RolloutItem) :=
  [[ev_started s!"t1"; ev_user s!"build"; ev_exec_begin s!"t1" s!"call"; ev_completed s!"t1";
    ev_started s!"t2"];
   [ev_user s!"again"; ev_exec_end s!"t1" s!"call"; RI_EventMsg (Ev_ThreadRolledBack 1);
    ev_user s!"hello"]].

Example demo_history :
  (fun t => (t_id t, item_id <$> t_items t, t_status t)) <$> build_turns_from_rollout_items (concat demo_batches) =
  [(s!"t1", [s!"item-1"; s!"call"], TurnCompleted); (s!"rollout-8", [s!"item-3"], TurnCompleted)].
Proof. vm_compute. reflexivity. Qed.

Lemma changes_replay_history_witness :
  view_history (follow demo_batches empty_view (new_builder 0)).1 =
  build_turns_from_rollout_items (concat demo_batches).
Proof. apply changes_replay_history. vm_compute. reflexivity. Defined.

(** A review item that arrives before its turn's [TurnStarted] opens the turn;
    [TurnStarted] then opens a second turn with the same identifier. *)
Example review_item_before_turn_started :
  (fun t => (t_id t, length (t_items t))) <$>
  build_turns_from_rollout_items
    [RI_EventMsg (Ev_ItemCompleted
       (mkItemCompleted s!"thread" s!"r" (CoreEnteredReviewMode s!"entered" tt s!"Review") None 0));
     ev_started s!"r"; ev_completed s!"r"] =
  [(s!"r", 1); (s!"r", 0)].
Proof. vm_compute. reflexivity. Qed.

End examples.
