(* ===== verification/SessionLog.v ===== *)
(** * What a session records: [rollout/src/policy.rs] and the operations of
      [core/src/session/mod.rs] that change the model's history

    A session keeps the model's history in a [ContextManager] and appends to the
    rollout file what it needs to rebuild it.  The state is the manager and the
    items written so far; every operation below updates both in the order the
    code does.  Images, metadata and generated identifiers are the arguments
    [turn_prepare] ([prepare_conversation_items_for_history]) and [assign_ids]
    ([assign_missing_response_item_ids]) of the operations; a failure to write is
    only logged by the code and is not modelled.  Operations that may panic return
    [None] then. *)

From stdpp Require Import gmap.
From S2P Require Import Prelude.
From S2P Require Import RustStr.
From S2P Require Import Truncate.
From S2P Require Import OutputItems.
From S2P Require Import History.
From S2P Require Import HistoryOps.
From S2P Require Import MergePatch.
From S2P Require Import ThreadItems.
From S2P Require Import WorldState.

Section session_log.
Context {W : Wire}.

(** ** [rollout/src/policy.rs] *)

Inductive ThreadHistoryMode := Legacy | Paginated.

Definition should_persist_response_item (item : ResponseItem Opaque) : bool :=
  match item with
  | Message _ _ _ _ _ | AgentMessage _ _ _ _ _ | Reasoning _ _ _ _ _ | LocalShellCall _ _ _ _ _
  | FunctionCall _ _ _ _ _ _ _ | ToolSearchCall _ _ _ _ _ _ | FunctionCallOutput _ _ _ _
  | ToolSearchOutput _ _ _ _ _ _ | CustomToolCall _ _ _ _ _ _ _ | CustomToolCallOutput _ _ _ _ _
  | WebSearchCall _ _ _ _ | ImageGenerationCall _ _ _ _ _ | Compaction _ _ _
  | ContextCompaction _ _ _ => true
  | AdditionalTools _ _ _ | CompactionTrigger | Other => false
  end.

Definition should_persist_response_item_for_memories (item : ResponseItem Opaque) : bool :=
  match item with
  | Message _ role _ _ _ => negb (str_eqb role s!"developer")
  | AgentMessage _ _ _ _ _ | LocalShellCall _ _ _ _ _ | FunctionCall _ _ _ _ _ _ _
  | ToolSearchCall _ _ _ _ _ _ | FunctionCallOutput _ _ _ _ | ToolSearchOutput _ _ _ _ _ _
  | CustomToolCall _ _ _ _ _ _ _ | CustomToolCallOutput _ _ _ _ _ | WebSearchCall _ _ _ _ => true
  | AdditionalTools _ _ _ | Reasoning _ _ _ _ _ | ImageGenerationCall _ _ _ _ _ | Compaction _ _ _
  | CompactionTrigger | ContextCompaction _ _ _ | Other => false
  end.

Definition is_legacy (mode : ThreadHistoryMode) : bool :=
  match mode with Legacy => true | Paginated => false end.

Definition should_persist_event_msg (ev : EventMsg) (mode : ThreadHistoryMode) : bool :=
  match ev with
  | Ev_ItemCompleted e =>
      negb (is_legacy mode)
      || match ic_item e with CorePlan _ _ | CoreExtension (ExtSleep _) => true | _ => false end
  | Ev_TokenCount _ | Ev_ThreadGoalUpdated _ | Ev_ThreadRolledBack _ | Ev_TurnAborted _
  | Ev_TurnStarted _ | Ev_TurnComplete _ | Ev_ThreadSettingsApplied _ => true
  | Ev_UserMessage _ | Ev_AgentMessage _ | Ev_AgentReasoning _ | Ev_AgentReasoningRawContent _
  | Ev_EnteredReviewMode _ | Ev_ExitedReviewMode _ | Ev_PatchApplyEnd _ | Ev_ContextCompacted
  | Ev_McpToolCallEnd _ | Ev_WebSearchEnd _ | Ev_ImageGenerationEnd _ | Ev_SubAgentActivity _ =>
      is_legacy mode
  | _ => false
  end.

Definition is_persisted_rollout_item (item : RolloutItem) (mode : ThreadHistoryMode) : bool :=
  match item with
  | RI_ResponseItem item => should_persist_response_item item
  | RI_InterAgentCommunication _ | RI_InterAgentCommunicationMetadata _ => true
  | RI_EventMsg ev => should_persist_event_msg ev mode
  | RI_Compacted _ | RI_TurnContext _ | RI_WorldState _ | RI_SessionMeta _ => true
  end.

Definition persisted_rollout_items (items : list RolloutItem) (mode : ThreadHistoryMode)
    : list RolloutItem :=
  List.filter (fun item => is_persisted_rollout_item item mode) items.

(** ** Messages between agents *)

(** [InterAgentCommunication::to_model_input_item] *)
Definition to_model_input_item (c : InterAgentCommunication) : ResponseItem Opaque :=
  let content :=
    match iac_encrypted_content c with
    | Some encrypted_content =>
        let message_type := if iac_trigger_turn c then s!"NEW_TASK" else s!"MESSAGE" in
        [AgentInputText (s!"Message Type: " ++ message_type ++ [10%N] ++ s!"Task name: "
                         ++ iac_recipient c ++ [10%N] ++ s!"Sender: " ++ iac_author c
                         ++ [10%N] ++ s!"Payload:" ++ [10%N]);
         AgentEncryptedContent encrypted_content]
    | None => [AgentInputText (iac_content c)]
    end in
  AgentMessage (iac_id c) (iac_author c) (iac_recipient c) content (iac_metadata c).

(** ** The session *)

Abbreviation Manager := (@ContextManager Opaque TurnContextItem WorldStateSnapshot).

Context (mode : ThreadHistoryMode).
Context (estimate_audio_token_count : str -> N).

Record SessionState := mkSession {
  history : Manager;
  rollout : list RolloutItem;
}.

Definition new_session : SessionState := mkSession new_manager [].

Definition persist_rollout_items (items : list RolloutItem) (s : SessionState) : SessionState :=
  mkSession (history s) (rollout s ++ persisted_rollout_items items mode).

Definition with_history (m : Manager) (s : SessionState) : SessionState := mkSession m (rollout s).

(** [send_event]: the part that reaches the rollout. *)
Definition send_event (ev : EventMsg) (s : SessionState) : SessionState :=
  persist_rollout_items [RI_EventMsg ev] s.

Definition record (policy : TruncationPolicy) (l : list (ResponseItem Opaque)) (m : Manager) : option Manager :=
  record_items estimate_audio_token_count l policy m.

(** What the operations that record use of the context of their turn: the
    truncation policy of its model, and how items are prepared
    ([prepare_conversation_items_for_history], with the identifiers it makes up).
    Both may differ from call to call. *)
Record RecordingTurn := mkRecordingTurn {
  turn_policy : TruncationPolicy;
  turn_prepare : list (ResponseItem Opaque) -> list (ResponseItem Opaque);
}.

Definition record_conversation_items (turn : RecordingTurn) (l : list (ResponseItem Opaque)) (s : SessionState)
    : option SessionState :=
  let l := turn_prepare turn l in
  m ← record (turn_policy turn) l (history s);
  Some (persist_rollout_items (RI_ResponseItem <$> l) (with_history m s)).

(** [items[0]] panics when the preparation gives nothing. *)
Definition record_inter_agent_communication (turn : RecordingTurn) (c : InterAgentCommunication)
    (s : SessionState) : option SessionState :=
  let l := turn_prepare turn [to_model_input_item c] in
  response_item ← head l;
  m ← record (turn_policy turn) l (history s);
  Some (persist_rollout_items
          [RI_InterAgentCommunicationMetadata (iac_trigger_turn c); RI_ResponseItem response_item]
          (with_history m s)).

Definition persist_world_state (item : option WorldStateItem) (s : SessionState) : SessionState :=
  match item with
  | Some item => persist_rollout_items [RI_WorldState item] s
  | None => s
  end.

Definition record_nonempty (turn : RecordingTurn) (l : list (ResponseItem Opaque)) (s : SessionState)
    : option SessionState :=
  if is_empty l then Some s else record_conversation_items turn l s.

(** [world_state] is what [build_world_state_for_step] gives. *)
Definition record_step_world_state_if_changed (turn : RecordingTurn) (previous world_state : WorldState)
    (s : SessionState) : option SessionState :=
  let previous_snapshot := snapshot previous in
  let world_state_snapshot := snapshot world_state in
  let world_state_item := patch_item <$> merge_patch_from world_state_snapshot previous_snapshot in
  let l := merge_contextual_fragments (render_diff world_state previous_snapshot) in
  s ← record_nonempty turn l s;
  let s := with_history (set_world_state_baseline world_state_snapshot (history s)) s in
  Some (persist_world_state world_state_item s).

(** [initial_context] is [build_initial_context_with_world_state], [contributions]
    [build_turn_context_contribution_items]; [same_context] is [==] on
    [TurnContextItem]. *)
Definition record_context_updates_and_set_reference_context_item (turn : RecordingTurn)
    (same_context : TurnContextItem -> TurnContextItem -> bool)
    (turn_context_item : TurnContextItem) (world_state : WorldState)
    (initial_context contributions : list (ResponseItem Opaque)) (s : SessionState)
    : option SessionState :=
  let reference := reference_context_item (history s) in
  let turn_context_changed :=
    match reference with Some r => negb (same_context r turn_context_item) | None => true end in
  let should_inject_full_context := match reference with None => true | Some _ => false end in
  let '(context_items, world_state_item, m) :=
    if should_inject_full_context then
      let snapshot := snapshot world_state in
      (initial_context, Some (full_item snapshot), set_world_state_baseline snapshot (history s))
    else
      let '(fragments, rollout_item, m) := update_world_state world_state (history s) in
      (merge_contextual_fragments fragments, rollout_item, m) in
  let s := with_history m s in
  let context_items :=
    if negb should_inject_full_context && turn_context_changed
    then context_items ++ contributions else context_items in
  let only_world_state_changed := negb turn_context_changed && is_empty context_items in
  if only_world_state_changed && match world_state_item with None => true | Some _ => false end
  then Some s
  else
    s ← record_nonempty turn context_items s;
    let s := persist_world_state world_state_item s in
    if only_world_state_changed then Some s
    else
      let s := persist_rollout_items [RI_TurnContext turn_context_item] s in
      Some (with_history (set_reference_context_item (Some turn_context_item) (history s)) s).

(** [SessionState::replace_history]; the prefill of the compaction window, which
    it also clears, is not part of the history. *)
Definition replace_history (l : list (ResponseItem Opaque)) (reference : option TurnContextItem) (m : Manager)
    : Manager :=
  set_reference_context_item reference (replace l m).

Record CompactedHistoryMetadata := mkCompactedMetadata {
  cm_message : str;
  cm_window_number : N;
  cm_first_window_id : str;
  cm_previous_window_id : option str;
  cm_window_id : str;
}.

Definition replace_compacted_history (assign_ids : list (ResponseItem Opaque) -> list (ResponseItem Opaque))
    (l : list (ResponseItem Opaque)) (reference : option TurnContextItem)
    (world_state : option WorldState) (metadata : CompactedHistoryMetadata) (s : SessionState)
    : SessionState :=
  let l := assign_ids l in
  let compacted_item :=
    mkCompacted (cm_message metadata) (Some l) (Some (cm_window_number metadata))
      (Some (cm_first_window_id metadata)) (cm_previous_window_id metadata)
      (Some (cm_window_id metadata)) in
  let m := replace_history l reference (history s) in
  let '(m, world_state_item) :=
    match world_state with
    | Some world_state =>
        let snapshot := snapshot world_state in
        (set_world_state_baseline snapshot m, Some (full_item snapshot))
    | None => (m, None)
    end in
  let s := persist_rollout_items [RI_Compacted compacted_item] (with_history m s) in
  let s := persist_world_state world_state_item s in
  match reference with
  | Some turn_context_item => persist_rollout_items [RI_TurnContext turn_context_item] s
  | None => s
  end.

End session_log.
