(* ===== verification/RolloutReplay.v ===== *)
(** * Rebuilding a session: [core/src/session/rollout_reconstruction.rs] with the
      parts of [core/src/event_mapping.rs], [core/src/compact.rs],
      [core/src/context/contextual_user_message.rs] and [protocol/src/models.rs]
      that it calls

    Resuming, forking and rolling back rebuild the session from its rollout.  A
    scan from the newest item to the oldest groups items into turns, drops the
    turns that were rolled back, finds the newest checkpoint that survives and
    stops when nothing older matters; the items after the checkpoint are then
    replayed forward.  Which user texts are contextual
    ([is_standard_contextual_user_text]), which texts parse as a message between
    agents ([inter_agent_from_str]) and UUIDs are parameters.  A panic is [None]. *)

From stdpp Require Import gmap.
From S2P Require Import Prelude.
From S2P Require Import RustStr.
From S2P Require Import Truncate.
From S2P Require Import OutputItems.
From S2P Require Import History.
From S2P Require Import HistoryOps.
From S2P Require Import MergePatch.
From S2P Require Import ThreadItems.
From S2P Require Import WorldState.
From S2P Require Import SessionLog.

Section replay.
Context {W : Wire}.
Context (is_standard_contextual_user_text : str -> bool).
Context (inter_agent_from_str : str -> option InterAgentCommunication).
Context {Uuid : Type} (uuid_parse_str : str -> option Uuid) (get_version_num : Uuid -> N).
Context (estimate_audio_token_count : str -> N) (policy : TruncationPolicy).

Abbreviation Manager := (@ContextManager Opaque TurnContextItem WorldStateSnapshot).

(** ** User messages ([event_mapping.rs]) *)

Definition is_contextual_user_fragment (c : ContentItem) : bool :=
  match c with
  | MsgInputText text =>
      match parse_hook_prompt_fragment text with Some _ => true | None => false end
      || is_standard_contextual_user_text text
  | _ => false
  end.

(** The loop of [parse_visible_hook_prompt_message]. *)
Fixpoint visible_hook_fragments (content : list ContentItem) : option (list HookPromptFragment) :=
  match content with
  | [] => Some []
  | MsgInputText text :: rest =>
      match parse_hook_prompt_fragment text with
      | Some fragment => fragments ← visible_hook_fragments rest; Some (fragment :: fragments)
      | None =>
          if is_standard_contextual_user_text text then visible_hook_fragments rest else None
      end
  | _ :: _ => None
  end.

(** [parse_visible_hook_prompt_message(..).is_some()] *)
Definition is_visible_hook_prompt_message (content : list ContentItem) : bool :=
  match visible_hook_fragments content with
  | Some fragments => negb (is_empty fragments)
  | None => false
  end.

Definition is_local_open_tag_text (prefix text : str) : bool :=
  match strip_prefix prefix text with Some rest => ends_with s!">" rest | None => false end.

Definition is_image_open_text (text : str) : bool :=
  is_local_open_tag_text s!"<image name=" text || str_eqb text s!"<image>".
Definition is_image_close_text (text : str) : bool := str_eqb text s!"</image>".
Definition is_audio_open_text (text : str) : bool :=
  is_local_open_tag_text s!"<audio name=" text || str_eqb text s!"<audio>".
Definition is_audio_close_text (text : str) : bool := str_eqb text s!"</audio>".

Definition is_input_image (c : option ContentItem) : bool :=
  match c with Some (MsgInputImage _ _) => true | _ => false end.
Definition is_input_audio (c : option ContentItem) : bool :=
  match c with Some (MsgInputAudio _) => true | _ => false end.

(** The loop; [previous] is the item before. *)
Fixpoint user_inputs (previous : option ContentItem) (message : list ContentItem) : list UserInput :=
  match message with
  | [] => []
  | c :: rest =>
      let inputs := user_inputs (Some c) rest in
      match c with
      | MsgInputText text =>
          let is_image_label :=
            (is_image_open_text text && is_input_image (head rest))
            || (is_image_close_text text && is_input_image previous) in
          let is_audio_label :=
            (is_audio_open_text text && is_input_audio (head rest))
            || (is_audio_close_text text && is_input_audio previous) in
          if is_image_label || is_audio_label then inputs else UiText text [] :: inputs
      | MsgInputImage image_url detail => UiImage image_url detail :: inputs
      | MsgInputAudio audio_url => UiAudio audio_url :: inputs
      | MsgOutputText _ => inputs
      end
  end.

Definition parse_user_message (message : list ContentItem) : option (list UserInput) :=
  if is_contextual_user_message_content is_contextual_user_fragment message then None
  else Some (user_inputs None message).

(** [parse_turn_item(item)] when it is a [TurnItem::UserMessage]. *)
Definition parse_turn_user_message (item : ResponseItem Opaque) : option (list UserInput) :=
  match item with
  | Message _ role content _ _ =>
      if str_eqb role s!"user" then
        if is_visible_hook_prompt_message content then None else parse_user_message content
      else None
  | _ => None
  end.

(** [UserMessageItem::message] *)
Definition user_message_text (content : list UserInput) : str :=
  concat ((fun c => match c with UiText text _ => text | _ => [] end) <$> content).

(** [is_user_turn_boundary] with its parameters. *)
Definition turn_boundary (item : ResponseItem Opaque) : bool :=
  is_user_turn_boundary is_contextual_user_fragment
    (fun text => match inter_agent_from_str text with Some _ => true | None => false end) item.

(** ** Compaction ([compact.rs]) *)

Definition SUMMARY_PREFIX : str :=
  s!"Another language model started to solve this problem and produced a summary of its thinking process. You also have access to the state of the tools that were used by that language model. Use this to build on the work that has already been done and avoid duplicating work. Here is the summary produced by the other language model, use the information in this summary to assist with your own analysis:".

Definition COMPACT_USER_MESSAGE_MAX_TOKENS : N := 20000.

Record CompactedUserMessage := mkCompactedMessage {
  cum_message : str;
  cum_metadata : option Opaque;
}.

Definition is_summary_message (message : str) : bool := starts_with (SUMMARY_PREFIX ++ [10%N]) message.

Definition collect_user_messages (l : list (ResponseItem Opaque)) : list CompactedUserMessage :=
  omap (fun item =>
          user ← parse_turn_user_message item;
          if is_summary_message (user_message_text user) then None
          else Some (mkCompactedMessage (user_message_text user)
                       (match item with Message _ _ _ _ metadata => metadata | _ => None end))) l.

(** The loop over the messages, the newest first; [remaining] tokens are left. *)
Fixpoint select_messages (remaining : N) (messages : list CompactedUserMessage)
    : option (list CompactedUserMessage) :=
  match messages with
  | [] => Some []
  | message :: older =>
      if (remaining =? 0)%N then Some []
      else
        let tokens := approx_token_count (cum_message message) in
        if (tokens <=? remaining)%N then
          selected ← select_messages (remaining - tokens)%N older;
          Some (message :: selected)
        else
          truncated ← truncate_text (cum_message message) (Tokens remaining);
          Some [mkCompactedMessage truncated (cum_metadata message)]
  end.

Definition user_message_item (message : CompactedUserMessage) : ResponseItem Opaque :=
  Message None s!"user" [MsgInputText (cum_message message)] None (cum_metadata message).

Definition build_compacted_history_with_limit (initial : list (ResponseItem Opaque))
    (user_messages : list CompactedUserMessage) (summary_text : str) (max_tokens : N)
    : option (list (ResponseItem Opaque)) :=
  selected ← (if (0 <? max_tokens)%N then select_messages max_tokens (rev user_messages) else Some []);
  let summary_text := if is_empty summary_text then s!"(no summary available)" else summary_text in
  Some (initial ++ (user_message_item <$> rev selected)
        ++ [Message None s!"user" [MsgInputText summary_text] None None]).

Definition build_compacted_history (initial : list (ResponseItem Opaque))
    (user_messages : list CompactedUserMessage) (summary_text : str) : option (list (ResponseItem Opaque)) :=
  build_compacted_history_with_limit initial user_messages summary_text COMPACT_USER_MESSAGE_MAX_TOKENS.

(** ** The scan *)

Record PreviousTurnSettings := mkSettings {
  ps_model : str;
  ps_comp_hash : option str;
  ps_realtime_active : option bool;
}.

Record ReconstructedWindow := mkWindow {
  w_number : N;
  w_first_id : option Uuid;
  w_previous_id : option Uuid;
  w_id : option Uuid;
}.

Inductive TurnReferenceContextItem := NeverSet | Cleared | Latest (item : TurnContextItem).

Definition is_never_set (r : TurnReferenceContextItem) : bool :=
  match r with NeverSet => true | _ => false end.

Record ActiveReplaySegment := mkSegment {
  seg_turn_id : option str;
  seg_counts_as_user_turn : bool;
  seg_previous_turn_settings : option PreviousTurnSettings;
  seg_reference_context_item : TurnReferenceContextItem;
  seg_world_state_replay : list RolloutItem;
  seg_base_replacement_history : option (list (ResponseItem Opaque));
  seg_window : option ReconstructedWindow;
}.

Definition default_segment : ActiveReplaySegment := mkSegment None false None NeverSet [] None None.

Definition parse_uuid_v7 (value : str) : option Uuid :=
  uuid ← uuid_parse_str value;
  if (get_version_num uuid =? 7)%N then Some uuid else None.

Definition reconstructed_window_from_session_context_window (window_id : str)
    : option ReconstructedWindow :=
  id ← parse_uuid_v7 window_id;
  Some (mkWindow 0 (Some id) None (Some id)).

Definition turn_ids_are_compatible (active_turn_id item_turn_id : option str) : bool :=
  match active_turn_id, item_turn_id with
  | Some turn_id, Some item_turn_id => str_eqb item_turn_id turn_id
  | _, _ => true
  end.

(** The variables of the scan. *)
Record ReplayState := mkReplay {
  base_replacement_history : option (list (ResponseItem Opaque));
  rs_previous_turn_settings : option PreviousTurnSettings;
  rs_reference_context_item : TurnReferenceContextItem;
  world_state_replay : list RolloutItem;
  rs_window : option ReconstructedWindow;
  pending_rollback_turns : N;
  rollout_suffix : list RolloutItem;
  active_segment : option ActiveReplaySegment;
}.

Definition set_active (seg : option ActiveReplaySegment) (st : ReplayState) : ReplayState :=
  mkReplay (base_replacement_history st) (rs_previous_turn_settings st) (rs_reference_context_item st)
    (world_state_replay st) (rs_window st) (pending_rollback_turns st) (rollout_suffix st) seg.

Definition set_suffix (suffix : list RolloutItem) (st : ReplayState) : ReplayState :=
  mkReplay (base_replacement_history st) (rs_previous_turn_settings st) (rs_reference_context_item st)
    (world_state_replay st) (rs_window st) (pending_rollback_turns st) suffix (active_segment st).

Definition set_pending (n : N) (st : ReplayState) : ReplayState :=
  mkReplay (base_replacement_history st) (rs_previous_turn_settings st) (rs_reference_context_item st)
    (world_state_replay st) (rs_window st) n (rollout_suffix st) (active_segment st).

Definition finalize_active_segment (seg : ActiveReplaySegment) (st : ReplayState) : ReplayState :=
  if (0 <? pending_rollback_turns st)%N then
    if seg_counts_as_user_turn seg then set_pending (pending_rollback_turns st - 1) st else st
  else
    mkReplay
      (match base_replacement_history st with
       | Some base => Some base
       | None => seg_base_replacement_history seg
       end)
      (match rs_previous_turn_settings st with
       | Some settings => Some settings
       | None => if seg_counts_as_user_turn seg then seg_previous_turn_settings seg else None
       end)
      (if is_never_set (rs_reference_context_item st)
          && (seg_counts_as_user_turn seg
              || match seg_reference_context_item seg with Cleared => true | _ => false end)
       then seg_reference_context_item seg else rs_reference_context_item st)
      (world_state_replay st ++ seg_world_state_replay seg)
      (match rs_window st with Some w => Some w | None => seg_window seg end)
      (pending_rollback_turns st) (rollout_suffix st) (active_segment st).

(** [active_segment.get_or_insert_with(ActiveReplaySegment::default)] *)
Definition current_segment (st : ReplayState) : ActiveReplaySegment :=
  default default_segment (active_segment st).

Definition on_segment (f : ActiveReplaySegment -> ActiveReplaySegment) (st : ReplayState) : ReplayState :=
  set_active (Some (f (current_segment st))) st.

Definition seg_set_turn_id (turn_id : option str) (seg : ActiveReplaySegment) : ActiveReplaySegment :=
  match seg_turn_id seg with
  | Some _ => seg
  | None =>
      mkSegment turn_id (seg_counts_as_user_turn seg) (seg_previous_turn_settings seg)
        (seg_reference_context_item seg) (seg_world_state_replay seg)
        (seg_base_replacement_history seg) (seg_window seg)
  end.

Definition seg_count_user_turn (counts : bool) (seg : ActiveReplaySegment) : ActiveReplaySegment :=
  mkSegment (seg_turn_id seg) (seg_counts_as_user_turn seg || counts) (seg_previous_turn_settings seg)
    (seg_reference_context_item seg) (seg_world_state_replay seg)
    (seg_base_replacement_history seg) (seg_window seg).

Definition seg_push_world_state (item : RolloutItem) (seg : ActiveReplaySegment) : ActiveReplaySegment :=
  mkSegment (seg_turn_id seg) (seg_counts_as_user_turn seg) (seg_previous_turn_settings seg)
    (seg_reference_context_item seg) (seg_world_state_replay seg ++ [item])
    (seg_base_replacement_history seg) (seg_window seg).

(** The arm of [RolloutItem::Compacted], without the suffix. *)
Definition seg_compacted (c : CompactedItem) (seg : ActiveReplaySegment) : ActiveReplaySegment :=
  mkSegment (seg_turn_id seg) (seg_counts_as_user_turn seg) (seg_previous_turn_settings seg)
    (if is_never_set (seg_reference_context_item seg) then Cleared else seg_reference_context_item seg)
    (seg_world_state_replay seg ++ [RI_Compacted c])
    (match seg_base_replacement_history seg with
     | Some base => Some base
     | None => cpt_replacement_history c
     end)
    (match seg_window seg with
     | Some w => Some w
     | None =>
         window_number ← cpt_window_number c;
         Some (mkWindow window_number (cpt_first_window_id c ≫= parse_uuid_v7)
                 (cpt_previous_window_id c ≫= parse_uuid_v7) (cpt_window_id c ≫= parse_uuid_v7))
     end).

(** The arm of [RolloutItem::TurnContext]. *)
Definition seg_turn_context (ctx : TurnContextItem) (seg : ActiveReplaySegment) : ActiveReplaySegment :=
  let seg := seg_set_turn_id (tcx_turn_id ctx) seg in
  if turn_ids_are_compatible (seg_turn_id seg) (tcx_turn_id ctx) then
    mkSegment (seg_turn_id seg) (seg_counts_as_user_turn seg)
      (Some (mkSettings (tcx_model ctx) (tcx_comp_hash ctx) (tcx_realtime_active ctx)))
      (if is_never_set (seg_reference_context_item seg) then Latest ctx
       else seg_reference_context_item seg)
      (seg_world_state_replay seg) (seg_base_replacement_history seg) (seg_window seg)
  else seg.

(** [active_segment.take()], finalised. *)
Definition finish_segment (st : ReplayState) : ReplayState :=
  match active_segment st with
  | Some seg => finalize_active_segment seg (set_active None st)
  | None => st
  end.

(** One iteration; [newer] is [&rollout_items[index + 1..]]. *)
Definition scan_item (newer : list RolloutItem) (item : RolloutItem) (st : ReplayState) : ReplayState :=
  match item with
  | RI_Compacted c =>
      let replaces :=
        match seg_base_replacement_history (current_segment st), cpt_replacement_history c with
        | None, Some _ => true
        | _, _ => false
        end in
      let st := on_segment (seg_compacted c) st in
      if replaces then set_suffix newer st else st
  | RI_EventMsg (Ev_ThreadRolledBack num_turns) =>
      set_pending (sat_add (pending_rollback_turns st) num_turns) st
  | RI_EventMsg (Ev_TurnComplete e) => on_segment (seg_set_turn_id (Some (tc_turn_id e))) st
  | RI_EventMsg (Ev_TurnAborted e) =>
      match ta_turn_id e with
      | Some turn_id => on_segment (seg_set_turn_id (Some turn_id)) st
      | None => st
      end
  | RI_EventMsg (Ev_UserMessage _) => on_segment (seg_count_user_turn true) st
  | RI_TurnContext ctx => on_segment (seg_turn_context ctx) st
  | RI_WorldState _ => on_segment (seg_push_world_state item) st
  | RI_EventMsg (Ev_TurnStarted e) =>
      match active_segment st with
      | Some seg =>
          if turn_ids_are_compatible (seg_turn_id seg) (Some (ts_turn_id e)) then finish_segment st else st
      | None => st
      end
  | RI_ResponseItem item => on_segment (seg_count_user_turn (turn_boundary item)) st
  | RI_InterAgentCommunication _ => on_segment (seg_count_user_turn true) st
  | RI_EventMsg _ | RI_SessionMeta _ | RI_InterAgentCommunicationMetadata _ => st
  end.

Definition scan_is_done (st : ReplayState) : bool :=
  match base_replacement_history st, rs_previous_turn_settings st with
  | Some _, Some _ => negb (is_never_set (rs_reference_context_item st))
  | _, _ => false
  end.

(** The loop over the items, the newest first. *)
Fixpoint scan (newer older : list RolloutItem) (st : ReplayState) : ReplayState :=
  match older with
  | [] => st
  | item :: older =>
      let st := scan_item newer item st in
      if scan_is_done st then st else scan (item :: newer) older st
  end.

Definition start_scan (rollout_items : list RolloutItem) : ReplayState :=
  mkReplay None None NeverSet [] None 0 rollout_items None.

Definition scan_rollout (rollout_items : list RolloutItem) : ReplayState :=
  finish_segment (scan [] (rev rollout_items) (start_scan rollout_items)).

(** ** Replaying forward *)

Definition record_one (item : ResponseItem Opaque) (m : Manager) : option Manager :=
  record_items estimate_audio_token_count [item] policy m.

(** One iteration: the manager and [saw_legacy_compaction_without_replacement_history]. *)
Definition replay_item (s : Manager * bool) (item : RolloutItem) : option (Manager * bool) :=
  let '(m, saw_legacy) := s in
  match item with
  | RI_ResponseItem item => m ← record_one item m; Some (m, saw_legacy)
  | RI_InterAgentCommunication c => m ← record_one (to_model_input_item c) m; Some (m, saw_legacy)
  | RI_Compacted c =>
      match cpt_replacement_history c with
      | Some replacement_history => Some (replace replacement_history m, saw_legacy)
      | None =>
          rebuilt ← build_compacted_history [] (collect_user_messages (items m)) (cpt_message c);
          Some (replace rebuilt m, true)
      end
  | RI_EventMsg (Ev_ThreadRolledBack num_turns) =>
      Some (drop_last_n_user_turns is_contextual_user_fragment
              (fun text => match inter_agent_from_str text with Some _ => true | None => false end)
              num_turns m, saw_legacy)
  | _ => Some (m, saw_legacy)
  end.

Fixpoint replay_items (l : list RolloutItem) (s : Manager * bool) : option (Manager * bool) :=
  match l with
  | [] => Some s
  | item :: rest => s ← replay_item s item; replay_items rest s
  end.

(** ** The world state *)

Definition replay_world_state_item (baseline : option WorldStateSnapshot) (item : RolloutItem)
    : option WorldStateSnapshot :=
  match item with
  | RI_Compacted _ => None
  | RI_WorldState w =>
      if wst_full w then snapshot_from_value (wst_state w)
      else baseline ← baseline; apply_merge_patch baseline (wst_state w)
  | _ => baseline
  end.

(** ** The result *)

Record RolloutReconstruction := mkReconstruction {
  rr_history : list (ResponseItem Opaque);
  rr_previous_turn_settings : option PreviousTurnSettings;
  rr_reference_context_item : option TurnContextItem;
  rr_world_state_baseline : option WorldStateSnapshot;
  rr_window : ReconstructedWindow;
}.

Definition is_compacted (item : RolloutItem) : bool :=
  match item with RI_Compacted _ => true | _ => false end.

Definition has_legacy_compaction_without_window_number (l : list RolloutItem) : bool :=
  existsb (fun item => match item with
                       | RI_Compacted c => match cpt_window_number c with None => true | Some _ => false end
                       | _ => false
                       end) l.

Definition initial_window (l : list RolloutItem) : option ReconstructedWindow :=
  if has_legacy_compaction_without_window_number l then None
  else head (omap (fun item => match item with
                               | RI_SessionMeta m =>
                                   sm_context_window m ≫= reconstructed_window_from_session_context_window
                               | _ => None
                               end) l).

Definition reconstruct_history_from_rollout (rollout_items : list RolloutItem)
    : option RolloutReconstruction :=
  let st := scan_rollout rollout_items in
  let fallback_window_number := lenN (List.filter is_compacted rollout_items) in
  let start : Manager :=
    match base_replacement_history st with
    | Some base => replace base new_manager
    | None => new_manager
    end in
  match replay_items (rollout_suffix st) (start, false) with
  | None => None
  | Some (m, saw_legacy) =>
      let reference :=
        match rs_reference_context_item st with Latest item => Some item | _ => None end in
      Some (mkReconstruction (items m) (rs_previous_turn_settings st)
              (if saw_legacy then None else reference)
              (fold_left replay_world_state_item (rev (world_state_replay st)) None)
              (match rs_window st with
               | Some w => w
               | None => default (mkWindow fallback_window_number None None None)
                           (initial_window rollout_items)
               end))
  end.

End replay.
