(* ===== verification/RolloutReplayFacts.v ===== *)
(** * Laws of rebuilding a session

    The scan from the newest item, which stops early and keeps only a suffix,
    gives the history of a plain replay of the whole rollout, and without
    rollbacks its world state too. *)

From stdpp Require Import gmap.
From S2P Require Import Prelude.
From S2P Require Import RustStr.
From S2P Require Import Truncate.
From S2P Require Import OutputItems.
From S2P Require Import History.
From S2P Require Import HistoryOps.
From S2P Require Import MergePatch.
From S2P Require Import ThreadItems.
From S2P Require Import WorldState.
From S2P Require Import SessionLog.
From S2P Require Import RolloutReplay.

Section facts.
Context {W : Wire}.
Context (is_standard : str -> bool) (inter_agent : str -> option InterAgentCommunication).
Context {Uuid : Type} (parse : str -> option Uuid) (version : Uuid -> N).
Context (audio : str -> N) (policy : TruncationPolicy).

Abbreviation Manager := (@ContextManager Opaque TurnContextItem WorldStateSnapshot).
Abbreviation replay := (replay_items is_standard inter_agent audio policy).
Abbreviation replay1 := (replay_item is_standard inter_agent audio policy).
Abbreviation scan_l := (scan is_standard inter_agent parse version).
Abbreviation scan_i := (scan_item is_standard inter_agent parse version).
Abbreviation scan_all := (scan_rollout is_standard inter_agent parse version).
Abbreviation reconstruct := (reconstruct_history_from_rollout is_standard inter_agent parse version audio policy).
Abbreviation State := (@ReplayState W Uuid).
Implicit Types m : Manager.
Implicit Types st : State.

(** ** Replaying depends on the items only *)

Lemma replay_app l1 l2 s : replay (l1 ++ l2) s = replay l1 s ≫= replay l2.
Proof.
  revert s. induction l1 as [|x l1 IH]; intros s; [done|]. cbn [app replay_items].
  destruct (replay1 s x); [apply IH|done].
Qed.

Lemma record_one_items m m' item :
  items m = items m' -> items <$> record_one audio policy item m = items <$> record_one audio policy item m'.
Proof.
  intros E. unfold record_one. simpl. destruct (is_api_message item); [|by simpl; rewrite E].
  destruct (process_item _ _ _); [|done]. simpl. by rewrite E.
Qed.

Lemma drop_items c p n m m' :
  items m = items m' -> items (drop_last_n_user_turns c p n m) = items (drop_last_n_user_turns c p n m').
Proof.
  intros E. unfold drop_last_n_user_turns. rewrite E. destruct (n =? 0)%N; [done|].
  destruct (user_message_positions c p (items m')); [done|].
  by destruct (trim_pre_turn_context_updates _ _ _ _).
Qed.

(** The items after a step, if it does not panic. *)
Definition items_of (s : option (Manager * bool)) : option (list (ResponseItem Opaque)) :=
  (fun s => items s.1) <$> s.

Lemma items_of_record m m' b b' item :
  items m = items m' ->
  items_of (m ← record_one audio policy item m; Some (m, b)) =
  items_of (m ← record_one audio policy item m'; Some (m, b')).
Proof.
  intros E. pose proof (record_one_items m m' item E) as Hr.
  destruct (record_one audio policy item m), (record_one audio policy item m'); simpl in *; congruence.
Qed.

Lemma replay1_items m m' b b' x :
  items m = items m' -> items_of (replay1 (m, b) x) = items_of (replay1 (m', b') x).
Proof.
  intros E. destruct x as [|item|c| |c| | |e]; cbn [replay_item];
    try (by apply items_of_record); try (by simpl; rewrite E).
  - destruct (cpt_replacement_history c); [done|]. rewrite E.
    by destruct (build_compacted_history _ _ _).
  - destruct e; try (by simpl; rewrite E). unfold items_of. simpl. f_equal. by apply drop_items.
Qed.

Lemma replay_items_only l m m' b b' :
  items m = items m' -> items_of (replay l (m, b)) = items_of (replay l (m', b')).
Proof.
  revert m m' b b'. induction l as [|x l IH]; intros m m' b b' E; [by simpl; rewrite <- E|].
  cbn [replay_items]. pose proof (replay1_items m m' b b' x E) as Hx.
  destruct (replay1 (m, b) x) as [[m1 b1]|], (replay1 (m', b') x) as [[m2 b2]|]; simpl in Hx; try done.
  simpl. apply IH. congruence.
Qed.

(** ** Checkpoints *)

Definition checkpoint (item : RolloutItem) : option (list (ResponseItem Opaque)) :=
  match item with RI_Compacted c => cpt_replacement_history c | _ => None end.

Definition no_checkpoint (l : list RolloutItem) : Prop := Forall (fun x => checkpoint x = None) l.

(** A checkpoint makes what came before it irrelevant. *)
Lemma replay_from_checkpoint pre x h post s m b :
  checkpoint x = Some h -> replay pre s = Some (m, b) -> forall m' b',
  items m' = h ->
  items_of (replay (pre ++ x :: post) s) = items_of (replay post (m', b')).
Proof.
  intros Hx Hpre m' b' Em. rewrite replay_app, Hpre. cbn [mbind option_bind replay_items].
  destruct x as [| | | |c| | |]; try done. simpl in Hx. cbn [replay_item]. rewrite Hx. simpl.
  by apply replay_items_only.
Qed.

(** ** The scan *)

(** The base the scan has, or the one of the segment it is in. *)
Definition segment_base (st : State) : option (list (ResponseItem Opaque)) :=
  active_segment st ≫= seg_base_replacement_history.

(** After the items [newer], of a rollout [full]: the suffix is the whole rollout
    when no checkpoint was seen; else the newest checkpoint [x] is within the
    suffix, or it is right before it and every base known is that of [x]. *)
Inductive suffix_ok (full newer : list RolloutItem) (st : State) : Prop :=
| no_checkpoint_seen :
    no_checkpoint newer -> rollout_suffix st = full -> base_replacement_history st = None ->
    segment_base st = None -> suffix_ok full newer st
| checkpoint_in_suffix pre mid x h post :
    newer = pre ++ mid ++ x :: post -> checkpoint x = Some h -> no_checkpoint post ->
    rollout_suffix st = mid ++ x :: post -> suffix_ok full newer st
| checkpoint_before_suffix pre x h post :
    newer = pre ++ x :: post -> checkpoint x = Some h -> no_checkpoint post ->
    rollout_suffix st = post ->
    base_replacement_history st = None \/ base_replacement_history st = Some h ->
    segment_base st = None \/ segment_base st = Some h ->
    suffix_ok full newer st.

(** An item that gives no new base. *)
Lemma suffix_ok_step full newer x st st' :
  checkpoint x = None \/ segment_base st <> None -> rollout_suffix st' = rollout_suffix st ->
  (base_replacement_history st' = base_replacement_history st \/
   base_replacement_history st = None /\ base_replacement_history st' = segment_base st) ->
  (segment_base st' = segment_base st \/ segment_base st' = None) ->
  suffix_ok full newer st -> suffix_ok full (x :: newer) st'.
Proof.
  intros Hx Hs Hb Hseg [Hn Hf H1 H2|pre mid y h post -> H1 H2 H3|pre y h post -> H1 H2 H3 H4 H5].
  - apply no_checkpoint_seen; [constructor; [intuition congruence|done]|congruence| |]; intuition congruence.
  - apply (checkpoint_in_suffix _ _ _ (x :: pre) mid y h post); [done|done|done|congruence].
  - apply (checkpoint_before_suffix _ _ _ (x :: pre) y h post); [done|done|done|congruence|..];
      intuition congruence.
Qed.

Lemma finalize_base seg st :
  rollout_suffix (finalize_active_segment seg st) = rollout_suffix st /\
  active_segment (finalize_active_segment seg st) = active_segment st /\
  (base_replacement_history (finalize_active_segment seg st) = base_replacement_history st \/
   base_replacement_history st = None /\
   base_replacement_history (finalize_active_segment seg st) = seg_base_replacement_history seg).
Proof.
  unfold finalize_active_segment. destruct (_ <? _)%N; [by destruct (seg_counts_as_user_turn seg); auto|].
  simpl. split_and!; [done|done|]. destruct (base_replacement_history st); auto.
Qed.

(** The effect of closing a segment, and of working on it. *)
Lemma finish_segment_base st :
  rollout_suffix (finish_segment st) = rollout_suffix st /\ segment_base (finish_segment st) = None /\
  (base_replacement_history (finish_segment st) = base_replacement_history st \/
   base_replacement_history st = None /\ base_replacement_history (finish_segment st) = segment_base st).
Proof.
  unfold finish_segment, segment_base. destruct (active_segment st) as [seg|] eqn:Ea; [|by rewrite Ea; auto].
  destruct (finalize_base seg (set_active None st)) as (H1 & H2 & H3). rewrite H2. simpl. auto.
Qed.

Lemma on_segment_base f st :
  (forall seg, seg_base_replacement_history (f seg) = seg_base_replacement_history seg) ->
  rollout_suffix (on_segment f st) = rollout_suffix st /\
  base_replacement_history (on_segment f st) = base_replacement_history st /\
  segment_base (on_segment f st) = segment_base st.
Proof.
  intros Hf. split_and!; [done|done|]. unfold segment_base, on_segment, current_segment. simpl. rewrite Hf.
  by destruct (active_segment st).
Qed.

Lemma seg_set_turn_id_base id (seg : @ActiveReplaySegment W Uuid) :
  seg_base_replacement_history (seg_set_turn_id id seg) = seg_base_replacement_history seg.
Proof. unfold seg_set_turn_id. by destruct (seg_turn_id seg). Qed.

Lemma seg_turn_context_base ctx (seg : @ActiveReplaySegment W Uuid) :
  seg_base_replacement_history (seg_turn_context ctx seg) = seg_base_replacement_history seg.
Proof.
  unfold seg_turn_context. destruct (turn_ids_are_compatible _ _); simpl; apply seg_set_turn_id_base.
Qed.

Lemma scan_checkpoint_ok full newer c h st :
  cpt_replacement_history c = Some h -> suffix_ok full newer st ->
  suffix_ok full (RI_Compacted c :: newer) (scan_i newer (RI_Compacted c) st).
Proof.
  intros Hc Hok. cbn [scan_item]. rewrite Hc.
  assert (Hcur : seg_base_replacement_history (current_segment st) = segment_base st).
  { unfold current_segment, segment_base. by destruct (active_segment st). }
  rewrite Hcur. destruct (segment_base st) as [h0|] eqn:Eseg.
  - apply (suffix_ok_step full newer _ st); [rewrite Eseg; auto|done|auto| |done].
    left. rewrite Eseg. unfold segment_base at 1, on_segment. simpl. by rewrite Hcur.
  - set (st' := on_segment (seg_compacted parse version c) st).
    assert (Hseg' : segment_base (set_suffix newer st') = Some h).
    { unfold st', segment_base, on_segment. simpl. by rewrite Hcur. }
    destruct Hok as [Hn Hf H1 H2|pre mid y h1 post -> H1 H2 H3|pre y h1 post -> H1 H2 H3 H4 H5].
    + apply (checkpoint_before_suffix _ _ _ [] (RI_Compacted c) h newer); auto.
    + apply (checkpoint_in_suffix _ _ _ [RI_Compacted c] (pre ++ mid) y h1 post); try done;
        simpl; by rewrite <- app_assoc.
    + by apply (checkpoint_in_suffix _ _ _ [RI_Compacted c] pre y h1 post).
Qed.

Lemma scan_item_ok full newer x st :
  suffix_ok full newer st -> suffix_ok full (x :: newer) (scan_i newer x st).
Proof.
  intros Hok.
  assert (Hsame : checkpoint x = None -> scan_i newer x st = st -> suffix_ok full (x :: newer) (scan_i newer x st)).
  { intros Hx ->. by apply (suffix_ok_step full newer x st); auto. }
  assert (Hon : forall f, checkpoint x = None -> scan_i newer x st = on_segment f st ->
    (forall seg, seg_base_replacement_history (f seg) = seg_base_replacement_history seg) ->
    suffix_ok full (x :: newer) (scan_i newer x st)).
  { intros f Hx -> Hf. destruct (on_segment_base f st Hf) as (H1 & H2 & H3).
    apply (suffix_ok_step full newer x st); auto. }
  destruct x as [l|item|c|t|c|ctx|w|e]; try (by apply Hsame).
  - by eapply Hon.
  - by eapply Hon.
  - destruct (cpt_replacement_history c) as [h|] eqn:Ec; [by apply (scan_checkpoint_ok _ _ _ h)|].
    assert (E : scan_i newer (RI_Compacted c) st = on_segment (seg_compacted parse version c) st).
    { cbn [scan_item]. rewrite Ec. by destruct (seg_base_replacement_history (current_segment st)). }
    eapply Hon; [by simpl|exact E|]. intros seg. simpl. rewrite Ec.
    by destruct (seg_base_replacement_history seg).
  - eapply Hon; [done|done|]. intros seg. apply seg_turn_context_base.
  - by eapply Hon.
  - destruct e as [| |n|p|p| | |p| | | | | | | | | | | | | | | | | |p| | | | | | | | | | | | | | | | | | | |];
      try (by apply Hsame).
    + by apply (suffix_ok_step full newer _ st); auto.
    + cbn [scan_item]. destruct (active_segment st) as [seg|] eqn:Ea.
      2: { by apply (suffix_ok_step full newer _ st); auto. }
      destruct (turn_ids_are_compatible _ _).
      2: { by apply (suffix_ok_step full newer _ st); auto. }
      destruct (finish_segment_base st) as (H1 & H2 & H3).
      apply (suffix_ok_step full newer _ st); auto.
    + eapply Hon; [done|done|]. intros seg. apply seg_set_turn_id_base.
    + by eapply Hon.
    + destruct (ta_turn_id p) as [id|] eqn:Et.
      * eapply Hon; [done|cbn [scan_item]; by rewrite Et|]. intros seg. apply seg_set_turn_id_base.
      * apply Hsame; [done|]. cbn [scan_item]. by rewrite Et.
Qed.

Lemma scan_ok full older newer st :
  full = rev older ++ newer -> suffix_ok full newer st ->
  exists older' newer', full = older' ++ newer' /\ suffix_ok full newer' (scan_l newer older st) /\
    (older' = [] \/ scan_is_done (scan_l newer older st) = true).
Proof.
  revert newer st. induction older as [|x older IH]; intros newer st Hf Hok.
  - exists [], newer. simpl in *. auto.
  - simpl in Hf. rewrite <- app_assoc in Hf. cbn [scan].
    pose proof (scan_item_ok full newer x st Hok) as Hok'.
    destruct (scan_is_done (scan_i newer x st)) eqn:Ed.
    + exists (rev older), (x :: newer). auto.
    + by apply IH.
Qed.

Lemma start_scan_ok full : suffix_ok full [] (start_scan full).
Proof. apply no_checkpoint_seen; [constructor|done..]. Qed.

Lemma finish_ok full newer st : suffix_ok full newer st -> suffix_ok full newer (finish_segment st).
Proof.
  destruct (finish_segment_base st) as (Hs & Hseg & Hb).
  intros [Hn Hf H1 H2|pre mid y h post -> H1 H2 H3|pre y h post -> H1 H2 H3 H4 H5].
  - apply no_checkpoint_seen; [done|congruence|intuition congruence|done].
  - by apply (checkpoint_in_suffix _ _ _ pre mid y h post); [done|done|done|congruence].
  - apply (checkpoint_before_suffix _ _ _ pre y h post); [done|done|done|congruence| |by left].
    intuition congruence.
Qed.

(** What the scan of a whole rollout knows. *)
Lemma scan_rollout_ok l :
  exists older newer, l = older ++ newer /\ suffix_ok l newer (scan_all l).
Proof.
  destruct (scan_ok l (rev l) [] (start_scan l)) as (older & newer & Hf & Hok & _).
  { by rewrite rev_involutive, app_nil_r. }
  { apply start_scan_ok. }
  exists older, newer. split; [done|]. by apply finish_ok.
Qed.

(** ** The history *)

(** The manager the replay of the suffix starts with. *)
Definition replay_start (st : State) : Manager :=
  match base_replacement_history st with Some base => replace base new_manager | None => new_manager end.

Lemma replay_prefix l1 l2 s r : replay (l1 ++ l2) s = Some r -> exists m b, replay l1 s = Some (m, b).
Proof. rewrite replay_app. destruct (replay l1 s) as [[m b]|]; [eauto|done]. Qed.

Lemma suffix_replay l st older newer m b r :
  l = older ++ newer -> suffix_ok l newer st ->
  base_replacement_history st <> None \/ no_checkpoint l ->
  replay l (new_manager, false) = Some (m, b) ->
  replay (rollout_suffix st) (replay_start st, false) = Some r ->
  items r.1 = items m.
Proof.
  intros Hl Hok Hbase Hfull Hr.
  assert (Hi : items_of (replay l (new_manager, false)) = Some (items m)) by by rewrite Hfull.
  assert (Hi' : items_of (replay (rollout_suffix st) (replay_start st, false)) = Some (items r.1))
    by by rewrite Hr.
  cut (items_of (replay (rollout_suffix st) (replay_start st, false)) = items_of (replay l (new_manager, false)));
    [congruence|]. clear Hi Hi'.
  destruct Hok as [Hn Hf H1 H2|pre mid y h post -> H1 H2 H3|pre y h post -> H1 H2 H3 H4 H5].
  - unfold replay_start. by rewrite Hf, H1.
  - rewrite H3 in Hr |- *. destruct (replay_prefix _ _ _ _ Hr) as (m1 & b1 & Hmid).
    rewrite Hl, !app_assoc in Hfull |- *. destruct (replay_prefix _ _ _ _ Hfull) as (m2 & b2 & Hpre).
    set (mh := replace h new_manager : Manager).
    rewrite (replay_from_checkpoint _ _ _ post _ _ _ H1 Hmid mh false eq_refl).
    by rewrite (replay_from_checkpoint _ _ _ post _ _ _ H1 Hpre mh false eq_refl).
  - rewrite H3. rewrite Hl, !app_assoc in Hfull |- *.
    destruct (replay_prefix _ _ _ _ Hfull) as (m2 & b2 & Hpre). symmetry.
    apply (replay_from_checkpoint _ _ _ post _ _ _ H1 Hpre). unfold replay_start.
    destruct H4 as [H4| ->]; [|done]. destruct Hbase as [Hbase|Hbase]; [done|].
    exfalso. unfold no_checkpoint in Hbase. rewrite Hl, Forall_app, Forall_app, Forall_cons in Hbase.
    destruct Hbase as (_ & _ & Hb & _). congruence.
Qed.

(** The result of the scan and of the replay of its suffix. *)
Lemma reconstruct_inv l r :
  reconstruct l = Some r ->
  exists m b, replay (rollout_suffix (scan_all l)) (replay_start (scan_all l), false) = Some (m, b) /\
    rr_history r = items m /\
    rr_world_state_baseline r =
      fold_left replay_world_state_item (rev (world_state_replay (scan_all l))) None.
Proof.
  unfold reconstruct_history_from_rollout.
  change (match base_replacement_history (scan_all l) with Some base => replace base new_manager | None => new_manager end)
    with (replay_start (scan_all l)).
  destruct (replay (rollout_suffix (scan_all l)) (replay_start (scan_all l), false)) as [[m b]|]; [|done].
  intros [= <-]. exists m, b. done.
Qed.

Lemma full_replay_history l m b r :
  base_replacement_history (scan_all l) <> None \/ no_checkpoint l ->
  replay l (new_manager, false) = Some (m, b) -> reconstruct l = Some r ->
  rr_history r = items m.
Proof.
  intros Hb Hm Hr. destruct (reconstruct_inv _ _ Hr) as (m' & b' & Es & -> & _).
  destruct (scan_rollout_ok l) as (older & newer & Hl & Hok).
  by apply (suffix_replay l (scan_all l) older newer m b (m', b')).
Qed.

(** Nothing panics when no replay of a suffix does. *)
Lemma reconstruct_total l :
  (forall pre post p, l = pre ++ post -> is_Some (replay post p)) -> is_Some (reconstruct l).
Proof.
  intros Ht. unfold reconstruct_history_from_rollout.
  assert (Hs : exists pre, l = pre ++ rollout_suffix (scan_all l)).
  { destruct (scan_rollout_ok l) as (older & newer & Hl & Hok).
    destruct Hok as [_ -> _ _|pre mid y h post Hn _ _ ->|pre y h post Hn _ _ -> _ _].
    - by exists [].
    - exists (older ++ pre). by rewrite Hl, Hn, app_assoc.
    - exists (older ++ pre ++ [y]). by rewrite Hl, Hn, <- !app_assoc. }
  destruct Hs as [pre Hs].
  match goal with |- is_Some (match replay ?post ?p with _ => _ end) => destruct (Ht pre post p Hs) as [[m b] ->] end.
  by eexists.
Qed.

(** ** Without rollbacks *)

Definition rolls_back (x : RolloutItem) : bool :=
  match x with RI_EventMsg (Ev_ThreadRolledBack n) => negb (n =? 0)%N | _ => false end.

Definition no_rollback (l : list RolloutItem) : Prop := Forall (fun x => rolls_back x = false) l.

Definition is_world_state_item (x : RolloutItem) : bool :=
  match x with RI_Compacted _ | RI_WorldState _ => true | _ => false end.

Definition segment_world_state (st : State) : list RolloutItem :=
  from_option seg_world_state_replay [] (active_segment st).

(** After [newer], none of which rolls back: all world-state items are collected,
    and a checkpoint that was seen is a base. *)
Record nothing_lost (newer : list RolloutItem) (st : State) : Prop := {
  nl_pending : pending_rollback_turns st = 0%N;
  nl_base : no_checkpoint newer \/ base_replacement_history st <> None \/ segment_base st <> None;
  nl_compacted : base_replacement_history st <> None \/ segment_base st <> None ->
    existsb is_compacted newer = true;
  nl_world_state : world_state_replay st ++ segment_world_state st = rev (List.filter is_world_state_item newer);
}.

Lemma nothing_lost_other x newer st st' :
  checkpoint x = None -> is_world_state_item x = false -> nothing_lost newer st ->
  pending_rollback_turns st' = 0%N -> base_replacement_history st' = base_replacement_history st ->
  segment_base st' = segment_base st ->
  world_state_replay st' = world_state_replay st -> segment_world_state st' = segment_world_state st ->
  nothing_lost (x :: newer) st'.
Proof.
  intros Hx Hw [H1 H2 H3 H4] Hp Hb Hs Hws Hsw. split; [done|..].
  - rewrite Hb, Hs. destruct H2 as [H2|H2]; [left; by constructor|by right].
  - rewrite Hb, Hs. intros H. simpl. rewrite (H3 H). apply orb_true_r.
  - simpl. by rewrite Hw, Hws, Hsw.
Qed.

Lemma nothing_lost_segment x newer st f :
  checkpoint x = None -> is_world_state_item x = false -> nothing_lost newer st ->
  (forall seg, seg_base_replacement_history (f seg) = seg_base_replacement_history seg /\
               seg_world_state_replay (f seg) = seg_world_state_replay seg) ->
  nothing_lost (x :: newer) (on_segment f st).
Proof.
  intros Hx Hw Hnl Hf. apply (nothing_lost_other x newer st); try done.
  - by destruct Hnl.
  - apply on_segment_base. intros seg. apply Hf.
  - unfold segment_world_state, on_segment, current_segment. simpl. rewrite (proj2 (Hf _)).
    by destruct (active_segment st).
Qed.

Lemma nothing_lost_finish newer st :
  nothing_lost newer st -> nothing_lost newer (finish_segment st).
Proof.
  intros [H1 H2 H3 H4]. unfold finish_segment. destruct (active_segment st) as [seg|] eqn:Ea; [|done].
  unfold finalize_active_segment. cbn [set_active pending_rollback_turns]. rewrite H1. simpl.
  unfold segment_base, segment_world_state in *. rewrite Ea in H2, H3, H4. simpl in H2, H3, H4. split; simpl.
  - done.
  - destruct H2 as [H2|[H2|H2]]; [by left|right; left..]; by destruct (base_replacement_history st).
  - intros Hb. apply H3. destruct (base_replacement_history st); [by left|]. right. by destruct Hb.
  - by rewrite app_nil_r.
Qed.

Lemma nothing_lost_finish_other x newer st :
  checkpoint x = None -> is_world_state_item x = false -> nothing_lost newer st ->
  nothing_lost (x :: newer) (finish_segment st).
Proof.
  intros Hx Hw Hnl. apply nothing_lost_finish, (nothing_lost_other x newer st); try done. by destruct Hnl.
Qed.

Lemma nothing_lost_compacted newer c st :
  nothing_lost newer st -> nothing_lost (RI_Compacted c :: newer) (scan_i newer (RI_Compacted c) st).
Proof.
  intros [H1 H2 H3 H4]. cbn [scan_item].
  assert (Hcur : seg_base_replacement_history (current_segment st) = segment_base st).
  { unfold current_segment, segment_base. by destruct (active_segment st). }
  assert (Hws : seg_world_state_replay (current_segment st) = segment_world_state st).
  { unfold current_segment, segment_world_state. by destruct (active_segment st). }
  assert (Hgoal : nothing_lost (RI_Compacted c :: newer) (on_segment (seg_compacted parse version c) st)).
  { split; [done| |done|].
    - unfold segment_base at 1, on_segment. simpl. rewrite Hcur.
      destruct (segment_base st); [by right; right|]. destruct (cpt_replacement_history c) eqn:Ec; [by right; right|].
      destruct H2 as [H2|[H2|H2]]; [left; by constructor|by right; left|done].
    - unfold segment_world_state at 1, on_segment. simpl. by rewrite Hws, app_assoc, H4. }
  destruct Hgoal as [G1 G2 G3 G4].
  by destruct (seg_base_replacement_history _), (cpt_replacement_history c); split.
Qed.

Lemma nothing_lost_step newer x st :
  rolls_back x = false -> nothing_lost newer st -> nothing_lost (x :: newer) (scan_i newer x st).
Proof.
  intros Hrb Hnl.
  assert (Hsame : checkpoint x = None -> is_world_state_item x = false -> nothing_lost (x :: newer) st).
  { intros Hx Hw. apply (nothing_lost_other x newer st); try done. by destruct Hnl. }
  destruct x as [l|item|c|t|c|ctx|w|e]; try (by apply Hsame).
  - by apply nothing_lost_segment.
  - by apply nothing_lost_segment.
  - by apply nothing_lost_compacted.
  - apply nothing_lost_segment; [done..|]. intros seg. split; [apply seg_turn_context_base|].
    unfold seg_turn_context, seg_set_turn_id. destruct (seg_turn_id seg); by destruct (turn_ids_are_compatible _ _).
  - destruct Hnl as [H1 H2 H3 H4]. destruct (on_segment_base (seg_push_world_state (RI_WorldState w)) st) as (_ & Hb & Hs); [done|].
    change (scan_i newer (RI_WorldState w) st) with (on_segment (seg_push_world_state (RI_WorldState w)) st).
    split; [done|rewrite Hb, Hs|rewrite Hb, Hs; exact H3|].
    + destruct H2 as [H2|H2]; [left; by constructor|by right].
    + simpl. rewrite <- H4, <- app_assoc. unfold segment_world_state, on_segment, current_segment.
      by destruct (active_segment st).
  - destruct e as [| |n|p|p| | |p| | | | | | | | | | | | | | | | | |p| | | | | | | | | | | | | | | | | | | |];
      try (by apply Hsame).
    + simpl in Hrb. apply negb_false_iff, N.eqb_eq in Hrb as ->.
      apply (nothing_lost_other _ newer st); try done. simpl. destruct Hnl as [H1 _ _ _]. by rewrite H1.
    + cbn [scan_item]. destruct (active_segment st); [|by apply Hsame].
      destruct (turn_ids_are_compatible _ _); [by apply nothing_lost_finish_other|by apply Hsame].
    + apply nothing_lost_segment; [done..|]. intros seg. unfold seg_set_turn_id. by destruct (seg_turn_id seg).
    + by apply nothing_lost_segment.
    + cbn [scan_item]. destruct (ta_turn_id p); [|by apply Hsame].
      apply nothing_lost_segment; [done..|]. intros seg. unfold seg_set_turn_id. by destruct (seg_turn_id seg).
Qed.

Lemma nothing_lost_scan older newer st :
  no_rollback older -> nothing_lost newer st ->
  exists older' newer', rev older ++ newer = older' ++ newer' /\
    nothing_lost newer' (scan_l newer older st) /\
    (older' = [] \/ base_replacement_history (scan_l newer older st) <> None).
Proof.
  revert newer st. induction older as [|x older IH]; intros newer st Hrb Hnl.
  - exists [], newer. auto.
  - inversion_clear Hrb. cbn [scan rev]. rewrite <- app_assoc.
    pose proof (nothing_lost_step newer x st ltac:(done) Hnl) as Hnl'.
    destruct (scan_is_done (scan_i newer x st)) eqn:Ed.
    + exists (rev older), (x :: newer). split_and!; [done|done|]. right. unfold scan_is_done in Ed.
      by destruct (base_replacement_history _).
    + by apply IH.
Qed.

Lemma no_rollback_scan l :
  no_rollback l ->
  exists older newer, l = older ++ newer /\ nothing_lost newer (scan_all l) /\
    segment_world_state (scan_all l) = [] /\ segment_base (scan_all l) = None /\
    (older = [] \/ base_replacement_history (scan_all l) <> None).
Proof.
  intros Hrb. destruct (nothing_lost_scan (rev l) [] (start_scan l)) as (older & newer & Hl & Hnl & Hd).
  { by apply Forall_rev. }
  { split; [done|left; constructor| |done]. by intros [[]|[]]. }
  rewrite rev_involutive, app_nil_r in Hl. exists older, newer. split_and!; [done| | | |].
  - by apply nothing_lost_finish.
  - unfold scan_rollout, finish_segment, segment_world_state.
    destruct (active_segment (scan_l [] (rev l) (start_scan l))) as [seg|] eqn:Ea; [|by rewrite Ea].
    destruct (finalize_base seg (set_active None (scan_l [] (rev l) (start_scan l)))) as (_ & -> & _). done.
  - apply finish_segment_base.
  - destruct Hd as [Hd|Hd]; [by left|right]. unfold scan_rollout.
    destruct (finish_segment_base (scan_l [] (rev l) (start_scan l))) as (_ & _ & [->|[? _]]); congruence.
Qed.

(** A checkpoint survives when nothing is rolled back. *)
Lemma no_rollback_base l :
  no_rollback l -> base_replacement_history (scan_all l) <> None \/ no_checkpoint l.
Proof.
  intros Hrb. destruct (no_rollback_scan l Hrb) as (older & newer & Hl & [_ H2 _ _] & _ & Hs & [->|Hd]); [|by left].
  destruct H2 as [H2|[H2|H2]]; [right; by rewrite Hl|by left|congruence].
Qed.

(** ** The world state *)

Definition forward_world_state (l : list RolloutItem) : option WorldStateSnapshot :=
  fold_left replay_world_state_item l None.

Lemma replay_world_state_filter l base :
  fold_left replay_world_state_item (List.filter is_world_state_item l) base =
  fold_left replay_world_state_item l base.
Proof. revert base. induction l as [|x l IH]; intros base; [done|]. by destruct x; simpl; rewrite IH. Qed.

(** A compaction resets the world state. *)
Lemma replay_world_state_reset l base base' :
  existsb is_compacted l = true ->
  fold_left replay_world_state_item l base = fold_left replay_world_state_item l base'.
Proof.
  revert base base'. induction l as [|x l IH]; intros base base'; [done|]. simpl.
  destruct (is_compacted x) eqn:Ex; [|intros H; by apply IH]. by destruct x.
Qed.

Lemma no_rollback_world_state l :
  no_rollback l ->
  fold_left replay_world_state_item (rev (world_state_replay (scan_all l))) None = forward_world_state l.
Proof.
  intros Hrb. destruct (no_rollback_scan l Hrb) as (older & newer & Hl & [_ _ H3 H4] & Hw & Hs & Hd).
  rewrite Hw, app_nil_r in H4. rewrite H4, rev_involutive, replay_world_state_filter.
  unfold forward_world_state. rewrite Hl, fold_left_app. destruct Hd as [->|Hd]; [done|].
  apply replay_world_state_reset, H3. by left.
Qed.

Lemma reconstructed_world_state l r :
  no_rollback l -> reconstruct l = Some r -> rr_world_state_baseline r = forward_world_state l.
Proof.
  intros Hrb Hr. destruct (reconstruct_inv _ _ Hr) as (m & b & _ & _ & ->). by apply no_rollback_world_state.
Qed.

(** ** Totality *)

(** A compaction of the old format, which has the summary only. *)
Definition legacy_compaction (x : RolloutItem) : bool :=
  match x with
  | RI_Compacted c => match cpt_replacement_history c with None => true | Some _ => false end
  | _ => false
  end.

(** Any other item panics from every state or from none. *)
Lemma replay1_any x p q : legacy_compaction x = false -> is_Some (replay1 p x) -> is_Some (replay1 q x).
Proof.
  intros Hx. destruct x as [|item|c| |c| | |e]; try (by destruct q; eexists).
  - destruct p, q. cbn [replay_item]. unfold record_one. simpl.
    destruct (is_api_message item); [|by eexists]. destruct (process_item _ _ _); [by eexists|by intros []].
  - destruct p, q. simpl in Hx |- *. destruct (cpt_replacement_history c); [by eexists|done].
  - destruct q, e; by eexists.
Qed.

Lemma replay_each l s r : replay l s = Some r -> Forall (fun x => exists p, is_Some (replay1 p x)) l.
Proof.
  revert s. induction l as [|x l IH]; intros s; [constructor|]. cbn [replay_items].
  destruct (replay1 s x) as [s'|] eqn:E; [|done]. intros Hl. constructor; [by exists s; rewrite E|by eapply IH].
Qed.

Lemma replay_from_any l r s :
  Forall (fun x => legacy_compaction x = false) l -> replay l s = Some r ->
  forall pre post p, l = pre ++ post -> is_Some (replay post p).
Proof.
  intros Hl Hr pre post p ->. apply replay_each in Hr. apply Forall_app in Hr as [_ Hr], Hl as [_ Hl].
  revert p. induction Hr as [|x post [p0 Hx] _ IH]; intros p; [by eexists|].
  inversion_clear Hl. cbn [replay_items]. destruct (replay1_any x p0 p) as [p1 ->]; [done..|]. by apply IH.
Qed.

Lemma no_checkpoint_reconstruct l r :
  no_checkpoint l -> replay l (new_manager, false) = Some r -> is_Some (reconstruct l).
Proof.
  intros Hn Hr. unfold reconstruct_history_from_rollout.
  destruct (scan_rollout_ok l) as (older & newer & Hl & Hok). unfold no_checkpoint in Hn.
  destruct Hok as [_ -> -> _|pre mid y h post Hy Hc _ _|pre y h post Hy Hc _ _ _ _].
  - rewrite Hr. destruct r. by eexists.
  - rewrite Hl, Hy, !Forall_app, Forall_cons in Hn. destruct Hn as (_ & _ & _ & Hn & _). congruence.
  - rewrite Hl, Hy, !Forall_app, Forall_cons in Hn. destruct Hn as (_ & _ & Hn & _). congruence.
Qed.

(** C14: The history rebuilt from a rollout, which is computed from a suffix found
    by a scan that starts at the newest item and stops early, is the history of a
    plain replay of every item from the first to the last, whenever a checkpoint
    survives the rollbacks or the rollout has none; and it is rebuilt without a
    panic if the plain replay has none, unless the rollout mixes checkpoints with
    compactions of the old format. *)
Theorem reconstruction_is_full_replay l m b :
  base_replacement_history (scan_all l) <> None \/ no_checkpoint l ->
  replay l (new_manager, false) = Some (m, b) ->
  (forall r, reconstruct l = Some r -> rr_history r = items m) /\
  (Forall (fun x => legacy_compaction x = false) l \/ no_checkpoint l -> is_Some (reconstruct l)).
Proof.
  intros Hb Hm. split; [intros r; by eapply full_replay_history|]. intros [Hl|Hn].
  - apply reconstruct_total. by eapply replay_from_any.
  - by eapply no_checkpoint_reconstruct.
Qed.

End facts.
