(* ===== verification/SessionResume.v ===== *)
(** * A session survives being resumed

    Whatever a session does, short of a rollback, the rollout it has written is
    enough to rebuild the model's history and the world-state baseline: the live
    session ([SessionLog]) and the reconstruction ([RolloutReplay]) agree.  Each
    turn truncates the tool outputs it records by the policy of its own model,
    and the resume by the policy of the model it resumes with: the rollout holds
    the outputs before truncation. *)

From stdpp Require Import gmap.
From S2P Require Import Prelude.
From S2P Require Import RustStr.
From S2P Require Import Truncate.
From S2P Require Import OutputItems.
From S2P Require Import History.
From S2P Require Import HistoryOps.
From S2P Require Import MergePatch.
From S2P Require Import ThreadItems.
From S2P Require Import WorldState.
From S2P Require Import SessionLog.
From S2P Require Import RolloutReplay.
From S2P Require Import RolloutReplayFacts.

Section resume.
Context {W : Wire}.
Context (is_standard : str -> bool) (inter_agent : str -> option InterAgentCommunication).
Context {Uuid : Type} (parse : str -> option Uuid) (version : Uuid -> N).
(** [policies] are those of the models of the turns, [policy] the one of the resume. *)
Context (audio : str -> N) (policies : list TruncationPolicy) (policy : TruncationPolicy).
Context (mode : ThreadHistoryMode).
Context (same_context : TurnContextItem -> TurnContextItem -> bool).

Abbreviation Manager := (@ContextManager Opaque TurnContextItem WorldStateSnapshot).
Abbreviation replay := (replay_items is_standard inter_agent audio policy).
Abbreviation replay1 := (replay_item is_standard inter_agent audio policy).
Abbreviation reconstruct := (reconstruct_history_from_rollout is_standard inter_agent parse version audio policy).
Abbreviation rec := (record audio).
Implicit Types m : Manager.
Implicit Types s : SessionState.

(** ** What a session does *)

(** The operations of a session; those that record items belong to a turn. *)
Inductive SessionOp :=
| OpEvent (ev : EventMsg)
| OpRecord (turn : RecordingTurn) (l : list (ResponseItem Opaque))
| OpInterAgent (turn : RecordingTurn) (c : InterAgentCommunication)
| OpStep (turn : RecordingTurn) (previous world_state : WorldState)
| OpContext (turn : RecordingTurn) (item : TurnContextItem) (world_state : WorldState)
    (initial_context contributions : list (ResponseItem Opaque))
| OpCompact (assign_ids : list (ResponseItem Opaque) -> list (ResponseItem Opaque)) (l : list (ResponseItem Opaque)) (reference : option TurnContextItem)
    (world_state : option WorldState) (metadata : CompactedHistoryMetadata).

Definition run_op (op : SessionOp) (s : SessionState) : option SessionState :=
  match op with
  | OpEvent ev => Some (send_event mode ev s)
  | OpRecord turn l => record_conversation_items mode audio turn l s
  | OpInterAgent turn c => record_inter_agent_communication mode audio turn c s
  | OpStep turn previous w => record_step_world_state_if_changed mode audio turn previous w s
  | OpContext turn item w initial contributions =>
      record_context_updates_and_set_reference_context_item mode audio turn same_context
        item w initial contributions s
  | OpCompact assign_ids l reference w metadata => Some (replace_compacted_history mode assign_ids l reference w metadata s)
  end.

Definition op_turn (op : SessionOp) : option RecordingTurn :=
  match op with
  | OpRecord turn _ | OpInterAgent turn _ | OpStep turn _ _ | OpContext turn _ _ _ _ => Some turn
  | OpEvent _ | OpCompact _ _ _ _ _ => None
  end.

(** The policy of the turn is among [policies], and items are prepared in place:
    none is added or taken away. *)
Definition turn_ok (turn : RecordingTurn) : Prop :=
  turn_policy turn ∈ policies /\ forall l, length (turn_prepare turn l) = length l.

Definition op_ok (op : SessionOp) : Prop := forall turn, op_turn op = Some turn -> turn_ok turn.

(** A step compares with the world state of the step before, which is the one the
    session has recorded last; rollbacks are not events of a turn. *)
Definition op_allowed (op : SessionOp) (s : SessionState) : Prop :=
  match op with
  | OpEvent ev => rolls_back (RI_EventMsg ev) = false
  | OpStep _ previous _ => world_state_baseline (history s) = Some (snapshot previous)
  | _ => True
  end.

Inductive reachable : SessionState -> Prop :=
| reach_new : reachable new_session
| reach_step s op s' :
    reachable s -> op_ok op -> op_allowed op s -> run_op op s = Some s' -> reachable s'.

(** ** The invariant *)

(** [AdditionalTools] items are part of the history but never persisted. *)
Definition is_persistent (item : ResponseItem Opaque) : bool :=
  match item with AdditionalTools _ _ _ => false | _ => true end.

Definition persistent_items (l : list (ResponseItem Opaque)) : list (ResponseItem Opaque) :=
  List.filter is_persistent l.

(** What the resumed history has in the place of an item of the live one: the same
    item, or a tool output that both have truncated, each by its own policy, from
    the same recorded output. *)
Definition retruncated (resumed live : ResponseItem Opaque) : Prop :=
  resumed = live \/
  exists item p, p ∈ policies /\ process_item audio item p = Some live /\
    process_item audio item policy = Some resumed.

Definition same_items (resumed live : list (ResponseItem Opaque)) : Prop :=
  Forall2 retruncated (persistent_items resumed) (persistent_items live).

Lemma same_items_refl l : same_items l l.
Proof. apply Forall_Forall2_diag, Forall_true. by left. Qed.

Lemma same_items_app l1 l2 l1' l2' : same_items l1 l1' -> same_items l2 l2' -> same_items (l1 ++ l2) (l1' ++ l2').
Proof. unfold same_items, persistent_items. rewrite !List.filter_app. apply Forall2_app. Qed.

Lemma same_items_single x : policies = [policy] -> forall l, same_items x l -> persistent_items x = persistent_items l.
Proof.
  intros Hp l Hs. eapply list_eq_Forall2, Forall2_impl; [exact Hs|].
  intros a b [->|(item & p & Hin & Hb & Ha)]; [done|]. rewrite Hp in Hin.
  apply list_elem_of_singleton in Hin as ->. congruence.
Qed.

Definition replayable (x : RolloutItem) : Prop := forall p, is_Some (replay1 p x).

(** The items [l], replayed, do to the history what leads from [m] to [m']. *)
Definition replays (l : list RolloutItem) (m m' : Manager) : Prop :=
  Forall replayable l /\ no_rollback l /\
  forall n b, same_items (items n) (items m) ->
    exists n' b', replay l (n, b) = Some (n', b') /\ same_items (items n') (items m').

Lemma replays_nil m m' : items m' = items m -> replays [] m m'.
Proof.
  intros E. split_and!; [constructor|constructor|]. intros n b Hn. exists n, b. by rewrite E.
Qed.

Lemma replays_app l1 l2 m1 m2 m3 : replays l1 m1 m2 -> replays l2 m2 m3 -> replays (l1 ++ l2) m1 m3.
Proof.
  intros (H1 & H2 & H3) (H4 & H5 & H6). split_and!; [by apply Forall_app|by apply Forall_app|].
  intros n b Hn. destruct (H3 n b Hn) as (n1 & b1 & E1 & Hn1). destruct (H6 n1 b1 Hn1) as (n2 & b2 & E2 & Hn2).
  exists n2, b2. split; [|done]. by rewrite replay_app, E1.
Qed.

(** An item that replaying ignores. *)
Lemma replays_ignored x m m' :
  (forall p, replay1 p x = Some p) -> rolls_back x = false -> items m' = items m -> replays [x] m m'.
Proof.
  intros Hx Hr E. split_and!; [constructor; [|done]; intros p; rewrite Hx; eauto|by constructor|].
  intros n b Hn. exists n, b. cbn [replay_items]. rewrite Hx, E. by simpl.
Qed.

Lemma process_item_persistent item x p :
  process_item audio item p = Some x -> is_persistent x = is_persistent item.
Proof.
  destruct item; simpl; try (by intros [= <-]).
  all: destruct (truncate_function_output_payload _ _ _); simpl; [by intros [= <-]|done].
Qed.

(** Truncation never panics, whatever the policy. *)
Lemma process_item_total (item : ResponseItem Opaque) p : is_Some (process_item audio item p).
Proof.
  assert (H : forall output q, is_Some (truncate_function_output_payload audio output q)).
  { intros [[content|l] success] q; unfold truncate_function_output_payload; cbn [body].
    - by destruct (truncate_text_total content q) as [t ->].
    - by destruct (truncate_items_total l q audio) as [t ->]. }
  destruct item; try done; unfold process_item; by edestruct H as [t ->].
Qed.

Lemma replay1_response item n b x :
  is_api_message item = true -> process_item audio item policy = Some x ->
  replay1 (n, b) (RI_ResponseItem item) = Some (set_items (items n ++ [x]) n, b).
Proof. intros Ha Hp. cbn [replay_item]. unfold record_one. simpl. by rewrite Ha, Hp. Qed.

(** The first of the recorded items, and what the rollout has for it. *)
Lemma replays_recorded item p m x :
  p ∈ policies -> is_api_message item = true -> process_item audio item p = Some x ->
  replays (persisted_rollout_items [RI_ResponseItem item] mode) m (set_items (items m ++ [x]) m).
Proof.
  intros Hp Ha Hx. unfold persisted_rollout_items. cbn [List.filter is_persisted_rollout_item].
  destruct (process_item_total item policy) as [y Hy].
  pose proof (process_item_persistent _ _ _ Hx) as Px. pose proof (process_item_persistent _ _ _ Hy) as Py.
  destruct (should_persist_response_item item) eqn:Es.
  - split_and!; [constructor; [|done]; intros [n b]; rewrite (replay1_response _ _ _ _ Ha Hy); eauto|by constructor|].
    intros n b Hn. exists (set_items (items n ++ [y]) n), b. cbn [replay_items].
    rewrite (replay1_response _ _ _ _ Ha Hy). split; [done|]. simpl. apply same_items_app; [done|].
    unfold same_items, persistent_items. simpl. rewrite Px, Py. destruct (is_persistent item); [|constructor].
    constructor; [right; eauto|constructor].
  - split_and!; [constructor|constructor|]. intros n b Hn. exists n, b. split; [done|].
    rewrite <- (app_nil_r (items n)). apply same_items_app; [done|]. unfold same_items, persistent_items. simpl.
    rewrite Px. by destruct item.
Qed.

(** What recording adds to the history, the persisted items replay. *)
Lemma replays_record p l m m' :
  p ∈ policies -> rec p l m = Some m' ->
  replays (persisted_rollout_items (RI_ResponseItem <$> l) mode) m m' /\
  world_state_baseline m' = world_state_baseline m /\ reference_context_item m' = reference_context_item m.
Proof.
  intros Hp. unfold record. revert m. induction l as [|item l IH]; intros m; cbn [record_items fmap list_fmap].
  { intros [= <-]. split; [by apply replays_nil|done]. }
  assert (Hcons : persisted_rollout_items (RI_ResponseItem item :: (RI_ResponseItem <$> l)) mode =
    persisted_rollout_items [RI_ResponseItem item] mode ++ persisted_rollout_items (RI_ResponseItem <$> l) mode).
  { unfold persisted_rollout_items. by rewrite <- List.filter_app. }
  fold (list_fmap _ _ RI_ResponseItem l). change (list_fmap _ _ RI_ResponseItem l) with (RI_ResponseItem <$> l).
  rewrite Hcons. destruct (is_api_message item) eqn:Ea.
  - destruct (process_item audio item p) as [x|] eqn:Ep; [|done]. cbn [mbind option_bind]. intros Hr.
    destruct (IH _ Hr) as (H1 & H2 & H3). split; [|done].
    eapply replays_app; [by eapply replays_recorded|done].
  - intros Hr. destruct (IH _ Hr) as (H1 & H2 & H3). split; [|done]. eapply replays_app; [|exact H1].
    unfold persisted_rollout_items. cbn [List.filter is_persisted_rollout_item].
    destruct (should_persist_response_item item); [|by apply replays_nil]. apply replays_ignored; [|done|done].
    intros [n b]. cbn [replay_item]. unfold record_one. simpl. by rewrite Ea.
Qed.

Lemma replays_from l m0 m m' : items m0 = items m -> replays l m m' -> replays l m0 m'.
Proof. intros E (H1 & H2 & H3). split_and!; [done|done|]. intros n b Hn. apply H3. by rewrite <- E. Qed.

Lemma replays_to l m m' m1 : items m1 = items m' -> replays l m m' -> replays l m m1.
Proof. intros E (H1 & H2 & H3). split_and!; [done|done|]. intros n b Hn. rewrite E. by apply H3. Qed.

(** *** World-state items *)

Abbreviation ws := (fold_left replay_world_state_item).

Lemma ws_response l base : ws (persisted_rollout_items (RI_ResponseItem <$> l) mode) base = base.
Proof.
  unfold persisted_rollout_items. revert base. induction l as [|x l IH]; intros base; [done|].
  cbn [fmap list_fmap List.filter is_persisted_rollout_item].
  destruct (should_persist_response_item x); [|apply IH]. simpl. apply IH.
Qed.

Definition world_state_items (item : option WorldStateItem) : list RolloutItem :=
  match item with Some item => [RI_WorldState item] | None => [] end.

Lemma ws_full snap base : ws (world_state_items (Some (full_item snap))) base = Some snap.
Proof. done. Qed.

Lemma ws_patch w prev :
  ws (world_state_items (patch_item <$> merge_patch_from (snapshot w) prev)) (Some prev) = Some (snapshot w).
Proof.
  pose proof (merge_patch_roundtrip (snapshot w) prev (snapshot_is_wf w)) as Hp.
  destruct (merge_patch_from _ _) as [patch|]; simpl; [done|congruence].
Qed.

Lemma replays_world_state item m m' : items m' = items m -> replays (world_state_items item) m m'.
Proof. intros E. destruct item; [by apply replays_ignored; [intros []|..]|by apply replays_nil]. Qed.

Lemma persist_world_state_eq item s :
  persist_world_state mode item s = mkSession (history s) (rollout s ++ world_state_items item).
Proof. destruct item, s; simpl; [done|]. by rewrite app_nil_r. Qed.

(** ** Every operation writes what it did *)

Definition writes (s s' : SessionState) : Prop :=
  exists l, rollout s' = rollout s ++ l /\ replays l (history s) (history s') /\
    ws l (world_state_baseline (history s)) = world_state_baseline (history s').

Lemma writes_trans s1 s2 s3 : writes s1 s2 -> writes s2 s3 -> writes s1 s3.
Proof.
  intros (l1 & E1 & H1 & W1) (l2 & E2 & H2 & W2). exists (l1 ++ l2). split_and!.
  - by rewrite E2, E1, app_assoc.
  - by eapply replays_app.
  - by rewrite fold_left_app, W1.
Qed.

Lemma writes_refl s : writes s s.
Proof. exists []. rewrite app_nil_r. split_and!; [done|by apply replays_nil|done]. Qed.

Lemma replay1_event ev p : rolls_back (RI_EventMsg ev) = false -> replay1 p (RI_EventMsg ev) = Some p.
Proof.
  destruct p as [n b], ev; try done. simpl. intros Hn%negb_false_iff%N.eqb_eq. by rewrite Hn.
Qed.

Lemma writes_event ev s : rolls_back (RI_EventMsg ev) = false -> writes s (send_event mode ev s).
Proof.
  intros Hev. unfold send_event, persist_rollout_items. eexists. split; [done|]. simpl.
  destruct (should_persist_event_msg ev mode); split; try done; [|by apply replays_nil].
  apply replays_ignored; [|done|done]. intros p. by apply replay1_event.
Qed.

(** Recording, from a manager with the items of the session. *)
Lemma recorded turn l s m s' :
  turn_ok turn -> items m = items (history s) ->
  record_conversation_items mode audio turn l (with_history m s) = Some s' ->
  exists l', rollout s' = rollout s ++ l' /\ replays l' (history s) (history s') /\
    (forall base, ws l' base = base) /\ world_state_baseline (history s') = world_state_baseline m /\
    reference_context_item (history s') = reference_context_item m.
Proof.
  intros Hp E. unfold record_conversation_items. simpl.
  destruct (rec (turn_policy turn) (turn_prepare turn l) m) as [m'|] eqn:Er; [|done]. simpl. intros [= <-]. simpl.
  destruct (replays_record _ _ _ _ (proj1 Hp) Er) as (H1 & H2 & H3). eexists. split_and!; [done| |intros base; apply ws_response|done|done].
  by eapply replays_from.
Qed.

Lemma recorded_nonempty turn l s m s' :
  turn_ok turn -> items m = items (history s) ->
  record_nonempty mode audio turn l (with_history m s) = Some s' ->
  exists l', rollout s' = rollout s ++ l' /\ replays l' (history s) (history s') /\
    (forall base, ws l' base = base) /\ world_state_baseline (history s') = world_state_baseline m /\
    reference_context_item (history s') = reference_context_item m.
Proof.
  intros Hp E. unfold record_nonempty. destruct (is_empty l); [|by apply recorded]. intros [= <-].
  exists []. simpl. rewrite app_nil_r. split_and!; try done. by apply replays_nil.
Qed.

Lemma with_own_history s : with_history (history s) s = s.
Proof. by destruct s. Qed.

Lemma writes_record turn l s s' :
  turn_ok turn -> record_conversation_items mode audio turn l s = Some s' -> writes s s'.
Proof.
  intros Hp Hr. destruct (recorded turn l s (history s) s') as (l' & H1 & H2 & H3 & H4 & _);
    [done|done|by rewrite with_own_history|].
  exists l'. split_and!; [done|done|]. by rewrite H3, H4.
Qed.

Lemma writes_inter_agent turn c s s' :
  turn_ok turn -> record_inter_agent_communication mode audio turn c s = Some s' -> writes s s'.
Proof.
  intros Hp. unfold record_inter_agent_communication. pose proof (proj2 Hp [to_model_input_item c]) as Hlen.
  destruct (turn_prepare turn [to_model_input_item c]) as [|x [|]]; try done. cbn [head mbind option_bind].
  destruct (rec (turn_policy turn) [x] (history s)) as [m'|] eqn:Er; [|done]. intros [= <-].
  destruct (replays_record _ _ _ _ (proj1 Hp) Er) as (H1 & H2 & _). simpl in H1.
  pose proof (ws_response [x]) as Hws. simpl in Hws.
  unfold writes, persist_rollout_items. simpl. eexists. split; [done|]. split.
  - apply (replays_app [_] _ (history s) (history s)); [|done]. by apply replays_ignored; [intros []|..].
  - simpl. by rewrite Hws.
Qed.

Lemma writes_step turn previous w s s' :
  turn_ok turn -> world_state_baseline (history s) = Some (snapshot previous) ->
  record_step_world_state_if_changed mode audio turn previous w s = Some s' -> writes s s'.
Proof.
  intros Hp Hb. unfold record_step_world_state_if_changed.
  destruct (record_nonempty _ _ _ _ s) as [s1|] eqn:Er; [|done]. cbn [mbind option_bind].
  intros [= <-]. rewrite <- (with_own_history s) in Er.
  destruct (recorded_nonempty _ _ _ _ _ Hp eq_refl Er) as (l & H1 & H2 & H3 & H4 & _).
  rewrite persist_world_state_eq. eexists. simpl. split; [by rewrite H1, <- app_assoc|]. split.
  - eapply replays_app; [done|]. by apply replays_world_state.
  - by rewrite fold_left_app, H3, Hb, ws_patch.
Qed.

(** The part of [record_context_updates_and_set_reference_context_item] after the
    world state is known. *)
Lemma writes_context turn s m l item s1 :
  turn_ok turn -> items m = items (history s) ->
  ws (world_state_items item) (world_state_baseline (history s)) = world_state_baseline m ->
  record_nonempty mode audio turn l (with_history m s) = Some s1 ->
  writes s (persist_world_state mode item s1).
Proof.
  intros Hp E Hw Hr. destruct (recorded_nonempty _ _ _ _ _ Hp E Hr) as (l' & H1 & H2 & H3 & H4 & _).
  rewrite persist_world_state_eq. eexists. simpl. split; [by rewrite H1, <- app_assoc|]. split.
  - eapply replays_app; [done|]. by apply replays_world_state.
  - by rewrite fold_left_app, H3, Hw.
Qed.

Lemma writes_turn_context ctx s (reference : option TurnContextItem) :
  writes s (with_history (set_reference_context_item reference (history s))
              (persist_rollout_items mode [RI_TurnContext ctx] s)).
Proof. exists [RI_TurnContext ctx]. split_and!; [done| |done]. by apply replays_ignored; [intros []|..]. Qed.

Lemma writes_context_updates turn ctx w initial contributions s s' :
  turn_ok turn ->
  record_context_updates_and_set_reference_context_item mode audio turn same_context ctx w
    initial contributions s = Some s' -> writes s s'.
Proof.
  intros Hp.
  unfold record_context_updates_and_set_reference_context_item. cbv zeta.
  set (changed := match reference_context_item (history s) with
    Some r => negb (same_context r ctx) | None => true end).
  set (full := match reference_context_item (history s) with None => true | Some _ => false end).
  assert (Hcase : exists l item m,
    (if full then (initial, Some (full_item (snapshot w)), set_world_state_baseline (snapshot w) (history s))
     else let '(fragments, rollout_item, m) := update_world_state w (history s) in
          (merge_contextual_fragments fragments, rollout_item, m)) = (l, item, m) /\
    items m = items (history s) /\
    ws (world_state_items item) (world_state_baseline (history s)) = world_state_baseline m).
  { destruct full; [do 3 eexists; split; [done|]; done|]. unfold update_world_state.
    do 3 eexists. split; [done|]. split; [done|]. cbn [world_state_baseline set_world_state_baseline].
    destruct (world_state_baseline (history s)); [apply ws_patch|apply ws_full]. }
  destruct Hcase as (l & item & m & -> & E & Hw). cbv beta zeta iota.
  set (context := if negb full && changed then l ++ contributions else l).
  destruct (negb changed && is_empty context && match item with None => true | Some _ => false end) eqn:Ee.
  { intros [= <-]. apply andb_true_iff in Ee as [_ Ei]. destruct item; [done|].
    exists []. simpl in *. rewrite app_nil_r. split_and!; [done|by apply replays_nil|done]. }
  destruct (record_nonempty _ _ _ context (with_history m s)) as [s1|] eqn:Er; [|done].
  cbn [mbind option_bind]. pose proof (writes_context turn s m context item s1 Hp E Hw Er) as Hs1.
  destruct (negb changed && is_empty context); intros [= <-]; [done|].
  eapply writes_trans; [exact Hs1|]. apply writes_turn_context.
Qed.

Lemma writes_compact assign_ids l reference w metadata s :
  writes s (replace_compacted_history mode assign_ids l reference w metadata s).
Proof.
  unfold replace_compacted_history. set (c := mkCompacted _ _ _ _ _ _).
  set (m := replace_history (assign_ids l) reference (history s)).
  assert (Hw : exists m' item, (match w with
      | Some w => (set_world_state_baseline (snapshot w) m, Some (full_item (snapshot w)))
      | None => (m, None) end) = (m', item) /\ items m' = assign_ids l /\
    ws (world_state_items item) None = world_state_baseline m').
  { destruct w; do 2 eexists; (split; [done|]); done. }
  destruct Hw as (m' & item & -> & Em & Hw).
  assert (Hs : writes s (persist_world_state mode item (persist_rollout_items mode [RI_Compacted c] (with_history m' s)))).
  { rewrite persist_world_state_eq. exists (RI_Compacted c :: world_state_items item). simpl.
    split_and!; [by rewrite <- app_assoc| |done]. apply (replays_app [_] _ _ m'); [|by apply replays_world_state].
    split_and!; [constructor; [intros []; by eexists|done]|by constructor|].
    intros n b _. do 2 eexists. split; [done|]. simpl. rewrite Em. apply same_items_refl. }
  destruct reference as [ctx|]; [|done]. eapply writes_trans; [exact Hs|].
  exists [RI_TurnContext ctx]. split_and!; [done| |done]. by apply replays_ignored; [intros []|..].
Qed.

Lemma run_op_writes op s s' : op_ok op -> op_allowed op s -> run_op op s = Some s' -> writes s s'.
Proof.
  intros Hk. destruct op as [ev|turn l|turn c|turn previous w|turn ctx w initial contributions|assign_ids l reference w metadata];
    simpl; intros Ha Hr; try specialize (Hk turn eq_refl).
  - injection Hr as <-. by apply writes_event.
  - by eapply writes_record.
  - by eapply writes_inter_agent.
  - by eapply writes_step.
  - by eapply writes_context_updates.
  - injection Hr as <-. apply writes_compact.
Qed.

Lemma reachable_writes s : reachable s -> writes new_session s.
Proof.
  induction 1 as [|s op s' _ IH Hk Ha Hr]; [apply writes_refl|].
  eapply writes_trans; [exact IH|]. by eapply run_op_writes.
Qed.

Lemma replayable_total l p : Forall replayable l -> is_Some (replay l p).
Proof.
  intros Hl. revert p. induction Hl as [|x l Hx _ IH]; intros p; [by eexists|]. cbn [replay_items].
  destruct (Hx p) as [q ->]. apply IH.
Qed.

(** C3: A session survives being resumed, also with another model: whatever
    sequence of operations it runs (events, recorded items, messages between
    agents, world-state changes, context updates, compactions; no rollback, and
    each step starts from the world state that was recorded last), with turns of
    whatever truncation policies that prepare items in place, reconstructing it from the rollout it has
    written succeeds.  Item by item, the history is that of the live session,
    without the tool declarations, which are never persisted, and with each tool
    output cut by the policy of the resume where the live session cut the same
    recorded output by the policy of its turn; when all turns had the policy of
    the resume, the items are equal.  The world-state baseline is exactly the
    live one, although it is stored as merge patches. *)
Theorem session_survives_resume s :
  reachable s ->
  exists r, reconstruct (rollout s) = Some r /\
    same_items (rr_history r) (items (history s)) /\
    (policies = [policy] -> persistent_items (rr_history r) = persistent_items (items (history s))) /\
    rr_world_state_baseline r = world_state_baseline (history s).
Proof.
  intros Hs. destruct (reachable_writes s Hs) as (l & Hl & (Htotal & Hrb & Hrep) & Hw). simpl in Hl. subst l.
  destruct (Hrep new_manager false (same_items_refl [])) as (m & b & Hm & Em). simpl in Hw.
  destruct (reconstruct_total is_standard inter_agent parse version audio policy (rollout s)) as [r Hr].
  { intros pre post p Hp. apply replayable_total. rewrite Hp, Forall_app in Htotal. apply Htotal. }
  assert (Hh : rr_history r = items m).
  { eapply (full_replay_history is_standard inter_agent parse version audio policy); [|exact Hm|exact Hr].
    by apply no_rollback_base. }
  rewrite <- Hh in Em. exists r. split_and!; [done|done|intros Hp; by apply same_items_single|].
  rewrite <- Hw. by apply (reconstructed_world_state is_standard inter_agent parse version audio policy).
Qed.

(** ** Runs *)

Definition allowed (op : SessionOp) (s : SessionState) : bool :=
  match op with
  | OpEvent ev => negb (rolls_back (RI_EventMsg ev))
  | OpStep _ previous _ =>
      match world_state_baseline (history s) with
      | Some baseline => value_eqb (VObject baseline) (VObject (snapshot previous))
      | None => false
      end
  | _ => true
  end.

Fixpoint run_ops (ops : list SessionOp) (s : SessionState) : option SessionState :=
  match ops with
  | [] => Some s
  | op :: ops => if allowed op s then s ← run_op op s; run_ops ops s else None
  end.

Lemma allowed_spec op s : allowed op s = true -> op_allowed op s.
Proof.
  destruct op; cbn [allowed op_allowed]; try done; [by intros ->%negb_true_iff|].
  destruct (world_state_baseline (history s)); [|done]. intros [= ->]%value_eqb_spec. done.
Qed.

Lemma run_ops_reachable ops s s' :
  Forall op_ok ops -> reachable s -> run_ops ops s = Some s' -> reachable s'.
Proof.
  intros Hk. revert s. induction Hk as [|op ops Hop _ IH]; intros s Hs; cbn [run_ops]; [by intros [= <-]|].
  destruct (allowed op s) eqn:Ea; [|done]. destruct (run_op op s) as [s1|] eqn:Er; [|done]. simpl.
  apply IH. eapply reach_step; [exact Hs|exact Hop|by apply allowed_spec|exact Er].
Qed.

End resume.

(** ** Examples *)

Section examples.

#[local] Instance resume_wire : Wire := {|
  Json := unit; Opaque := unit; json_null := tt;
  redact_secrets s := s; shlex_join := join [32%N];
  parse_command _ := []; uri_join base p := Some (base ++ s!"/" ++ p); native_path s := s;
  from_xml_str _ := None; now_v7 n := s!"uuid-" ++ digits_of_N (N.of_nat n) |}.

Definition demo_standard (text : str) : bool := starts_with s!"<environment_context>" text.
Definition demo_inter_agent (text : str) : option InterAgentCommunication := None.
Definition demo_uuid (value : str) : option N := Some 7%N.

(** A section whose snapshot is [v], rendered as a developer message when it is
    not known. *)
Definition demo_section (v : Value) : TypedSection :=
  mkTyped Value v Some Some true (fun _ _ => false) false (fun _ _ => false)
    (fun previous => match previous with
                     | Known p => if value_eqb p v then None else Some (mkContextFragment s!"developer" false s!"changed")
                     | _ => Some (mkContextFragment s!"developer" false s!"new")
                     end).

Definition demo_world (fields : list (str * Value)) : WorldState :=
  [(s!"environment", BuiltIn (demo_section (VObject (list_to_map fields))))].

Definition world1 : WorldState :=
  demo_world [(s!"cwd", VString s!"/a"); (s!"shell", VString s!"sh"); (s!"user", VNull)].
Definition world2 : WorldState := demo_world [(s!"cwd", VString s!"/b")].

Definition msg (role text : str) : ResponseItem unit :=
  Message None role [MsgInputText text] None None.

Definition started (id : str) : EventMsg := Ev_TurnStarted (mkTurnStarted id None None None tt).
Definition completed (id : str) : EventMsg :=
  Ev_TurnComplete (mkTurnComplete id None None None None None None).
Definition context (id : str) : TurnContextItem := mkTurnContext (Some id) s!"model" None None tt.

Definition tool_output (text : str) : ResponseItem unit :=
  FunctionCallOutput None s!"call" {| body := BodyText text; success := None |} None.

(** The models of the turns below and of the resume. *)
Definition large_policy : TruncationPolicy := Tokens 1000.
Definition small_policy : TruncationPolicy := Bytes 10.
Definition large_turn : RecordingTurn := mkRecordingTurn large_policy (fun l => l).
Definition small_turn : RecordingTurn := mkRecordingTurn small_policy (fun l => l).

(** A turn with a change of the world, a compaction in the middle and a second
    turn, with another model. *)
Definition demo_ops : list SessionOp :=
  [OpEvent (started s!"t1");
   OpContext large_turn (context s!"t1") world1 [msg s!"developer" s!"instructions"] [];
   OpRecord large_turn [msg s!"user" s!"hello"; AdditionalTools None s!"developer" []; msg s!"assistant" s!"hi"];
   OpStep large_turn world1 world2; OpRecord large_turn [msg s!"assistant" s!"done"];
   OpEvent (completed s!"t1"); OpEvent (started s!"t2");
   OpCompact (fun l => l) [msg s!"user" s!"summary"] (Some (context s!"t2")) (Some world2)
     (mkCompactedMetadata s!"summary" 1 s!"w1" None s!"w2");
   OpRecord small_turn [msg s!"user" s!"go on"; tool_output s!"a line that is longer"];
   OpStep small_turn world2 world1; OpEvent (completed s!"t2")].

Definition demo_state : SessionState :=
  default new_session
    (run_ops (fun _ => 0%N) Legacy (fun _ _ => true) demo_ops new_session).

Definition demo_reconstruct : TruncationPolicy -> list RolloutItem -> option RolloutReconstruction :=
  reconstruct_history_from_rollout demo_standard demo_inter_agent demo_uuid id (fun _ => 0%N).

(** The live session cut the output of the second turn for the small model; a
    resume with the large model gives it the whole output again. *)
Example demo_resumes :
  items (history demo_state) =
    [msg s!"user" s!"summary"; msg s!"user" s!"go on";
     tool_output (s!"a line" ++ [8230%N] ++ s!"9 chars truncated" ++ [8230%N] ++ s!"longer");
     msg s!"developer" s!"changed"] /\
  (fun r => (rr_history r, (fun b => length (map_to_list b)) <$> rr_world_state_baseline r)) <$>
  demo_reconstruct large_policy (rollout demo_state) =
  Some ([msg s!"user" s!"summary"; msg s!"user" s!"go on"; tool_output s!"a line that is longer";
         msg s!"developer" s!"changed"], Some 1).
Proof. split; vm_compute; reflexivity. Qed.

Lemma session_survives_resume_witness :
  exists r,
    demo_reconstruct large_policy (rollout demo_state) = Some r /\
    same_items (fun _ => 0%N) [large_policy; small_policy] large_policy (rr_history r) (items (history demo_state)) /\
    rr_world_state_baseline r = world_state_baseline (history demo_state).
Proof.
  destruct (session_survives_resume demo_standard demo_inter_agent demo_uuid id (fun _ => 0%N)
    [large_policy; small_policy] large_policy Legacy
    (fun _ _ => true) demo_state) as (r & H1 & H2 & _ & H4).
  - apply (run_ops_reachable (fun _ => 0%N) [large_policy; small_policy] Legacy (fun _ _ => true)
      demo_ops new_session); [|constructor|vm_compute; reflexivity].
    unfold demo_ops. repeat (apply Forall_cons_2; [intros turn Ht; simpl in Ht; simplify_eq; by split; simpl; [set_solver|]|]). by apply Forall_nil_2.
  - exists r. split; [exact H1|]. split; [exact H2|exact H4].
Defined.

(** Rolling back the turn whose compaction wrote the only checkpoint: the scan
    drops the checkpoint with the turn but keeps the suffix that starts after it,
    and the turn before is gone from the history. *)
Definition rolled_back_checkpoint : list RolloutItem :=
  [RI_EventMsg (started s!"t1"); RI_ResponseItem (msg s!"user" s!"hello");
   RI_ResponseItem (msg s!"assistant" s!"hi"); RI_EventMsg (completed s!"t1");
   RI_EventMsg (started s!"t2"); RI_ResponseItem (msg s!"user" s!"again");
   RI_Compacted (mkCompacted s!"summary" (Some [msg s!"user" s!"hello"; msg s!"user" s!"again"; msg s!"user" s!"summary"])
                   (Some 1%N) None None None);
   RI_EventMsg (completed s!"t2"); RI_EventMsg (Ev_ThreadRolledBack 1)].

Example rolled_back_checkpoint_loses_history :
  rr_history <$>
  reconstruct_history_from_rollout demo_standard demo_inter_agent demo_uuid id (fun _ => 0%N) (Tokens 1000)
    rolled_back_checkpoint = Some [] /\
  (fun s => items s.1) <$> replay_items demo_standard demo_inter_agent (fun _ => 0%N) (Tokens 1000)
    rolled_back_checkpoint (new_manager, false) =
  Some [msg s!"user" s!"hello"; msg s!"user" s!"again"].
Proof. split; vm_compute; reflexivity. Qed.

(** A rollback after a checkpoint that survives. *)
Definition surviving_checkpoint : list RolloutItem :=
  [RI_ResponseItem (msg s!"user" s!"old"); RI_EventMsg (started s!"t1");
   RI_ResponseItem (msg s!"user" s!"hello");
   RI_Compacted (mkCompacted s!"summary" (Some [msg s!"user" s!"summary"]) (Some 1%N) None None None);
   RI_EventMsg (completed s!"t1"); RI_EventMsg (started s!"t2");
   RI_ResponseItem (msg s!"user" s!"again"); RI_EventMsg (completed s!"t2");
   RI_EventMsg (Ev_ThreadRolledBack 1)].

Lemma reconstruction_is_full_replay_witness :
  exists r, reconstruct_history_from_rollout demo_standard demo_inter_agent demo_uuid id (fun _ => 0%N)
    (Tokens 1000) surviving_checkpoint = Some r /\ rr_history r = [msg s!"user" s!"summary"].
Proof.
  destruct (reconstruction_is_full_replay demo_standard demo_inter_agent demo_uuid id (fun _ => 0%N) (Tokens 1000)
    surviving_checkpoint (mkManager [msg s!"user" s!"summary"] 2 None None None) false) as [Hr [r Hs]];
    [left; vm_compute; discriminate|vm_compute; reflexivity|left; repeat constructor|].
  exists r. split; [exact Hs|exact (Hr r Hs)].
Defined.

End examples.
