(* ===== verification/RolloutFork.v ===== *)
(** * Forking a thread: [core/src/thread_rollout_truncation.rs] and the fork
      snapshots of [core/src/thread_manager.rs]

    A fork starts from a prefix (or, for a sub-agent, a suffix) of the rollout of
    its source.  Cuts are made at the user messages that the rollbacks in the
    rollout have left, or at the [TurnStarted] of a turn of the projected
    history.  The marker of an interrupted turn
    ([interrupted_turn_history_marker]) is a parameter. *)

From stdpp Require Import gmap.
From S2P Require Import Prelude.
From S2P Require Import RustStr.
From S2P Require Import Paths.
From S2P Require Import SandboxRoots.
From S2P Require Import Truncate.
From S2P Require Import OutputItems.
From S2P Require Import History.
From S2P Require Import HistoryOps.
From S2P Require Import MergePatch.
From S2P Require Import ThreadItems.
From S2P Require Import WorldState.
From S2P Require Import ThreadHistory.
From S2P Require Import ThreadHistoryFacts.
From S2P Require Import ThreadHistoryLaws.
From S2P Require Import SessionLog.
From S2P Require Import RolloutReplay.

Section fork.
Context {W : Wire} `{Host}.
Context (is_standard_contextual_user_text : str -> bool).
Context (inter_agent_from_str : str -> option InterAgentCommunication).

(** ** Positions *)

Definition is_real_user_message_boundary (item : ResponseItem Opaque) : bool :=
  match parse_turn_user_message is_standard_contextual_user_text item with Some _ => true | None => false end.

(** [InterAgentCommunication::from_message_content] *)
Definition from_message_content (content : list ContentItem) : option InterAgentCommunication :=
  match content with
  | [MsgInputText text] | [MsgOutputText text] => inter_agent_from_str text
  | _ => None
  end.

Definition is_trigger_turn_boundary (item : ResponseItem Opaque) : bool :=
  match item with
  | Message _ role content _ _ =>
      str_eqb role s!"assistant"
      && match from_message_content content with Some c => iac_trigger_turn c | None => false end
  | _ => false
  end.

Definition is_boundary (item : ResponseItem Opaque) : bool :=
  turn_boundary is_standard_contextual_user_text inter_agent_from_str item.

Definition rollout_item_is_user_turn_boundary (item : RolloutItem) : bool :=
  match item with
  | RI_ResponseItem item => is_boundary item
  | RI_InterAgentCommunication _ => true
  | _ => false
  end.

(** One iteration of [user_message_positions_in_rollout]. *)
Definition user_position_step (idx : nat) (user_positions : list nat) (item : RolloutItem) : list nat :=
  match item with
  | RI_ResponseItem (Message _ _ _ _ _ as item) =>
      if is_real_user_message_boundary item then user_positions ++ [idx] else user_positions
  | RI_EventMsg (Ev_ThreadRolledBack num_turns) =>
      take (length user_positions - N.to_nat num_turns) user_positions
  | _ => user_positions
  end.

Fixpoint user_positions_from (idx : nat) (user_positions : list nat) (l : list RolloutItem) : list nat :=
  match l with
  | [] => user_positions
  | item :: rest => user_positions_from (S idx) (user_position_step idx user_positions item) rest
  end.

Definition user_message_positions_in_rollout (l : list RolloutItem) : list nat :=
  user_positions_from 0 [] l.

(** One iteration of [fork_turn_positions_in_rollout]; [previous] is the item
    before. *)
Definition fork_position_step (previous : option RolloutItem) (idx : nat) (s : list nat * list nat)
    (item : RolloutItem) : list nat * list nat :=
  let '(rollback_turn_positions, fork_turn_positions) := s in
  match item with
  | RI_ResponseItem item =>
      let has_delivery_metadata :=
        match item, previous with
        | AgentMessage _ _ _ _ _, Some (RI_InterAgentCommunicationMetadata _) => true
        | _, _ => false
        end in
      (if is_boundary item && negb has_delivery_metadata then rollback_turn_positions ++ [idx]
       else rollback_turn_positions,
       if is_real_user_message_boundary item || is_trigger_turn_boundary item
       then fork_turn_positions ++ [idx] else fork_turn_positions)
  | RI_InterAgentCommunication c =>
      (rollback_turn_positions ++ [idx],
       if iac_trigger_turn c then fork_turn_positions ++ [idx] else fork_turn_positions)
  | RI_InterAgentCommunicationMetadata trigger_turn =>
      (rollback_turn_positions ++ [idx],
       if trigger_turn then fork_turn_positions ++ [idx] else fork_turn_positions)
  | RI_EventMsg (Ev_ThreadRolledBack num_turns) =>
      let n := N.to_nat num_turns in
      if (n =? 0)%nat then s
      else
        match (if (n <=? length rollback_turn_positions)%nat
               then rollback_turn_positions !! (length rollback_turn_positions - n)
               else head rollback_turn_positions) with
        | None => s
        | Some rollback_start_idx =>
            (take (length rollback_turn_positions - n) rollback_turn_positions,
             List.filter (fun p => (p <? rollback_start_idx)%nat) fork_turn_positions)
        end
  | _ => s
  end.

Fixpoint fork_positions_from (previous : option RolloutItem) (idx : nat) (s : list nat * list nat)
    (l : list RolloutItem) : list nat * list nat :=
  match l with
  | [] => s
  | item :: rest => fork_positions_from (Some item) (S idx) (fork_position_step previous idx s item) rest
  end.

Definition fork_turn_positions_in_rollout (l : list RolloutItem) : list nat :=
  (fork_positions_from None 0 ([], []) l).2.

(** ** Cuts *)

Definition truncate_rollout_before_nth_user_message_from_start (l : list RolloutItem) (n_from_start : N)
    : list RolloutItem :=
  if (n_from_start =? USIZE_MAX)%N then l
  else match user_message_positions_in_rollout l !! N.to_nat n_from_start with
       | None => l
       | Some cut_idx => take cut_idx l
       end.

Inductive ForkError :=
| TurnNotFound (turn_id : str)
| TurnNotPersisted (turn_id : str)
| TurnIsInProgress (turn_id : str).

Definition is_turn_started (turn_id : str) (item : RolloutItem) : bool :=
  match item with RI_EventMsg (Ev_TurnStarted e) => str_eqb (ts_turn_id e) turn_id | _ => false end.

Definition starts_any_turn (item : RolloutItem) : bool :=
  match item with RI_EventMsg (Ev_TurnStarted _) => true | _ => false end.

Definition has_turn (turn_id : str) (turns : list Turn) : bool :=
  existsb (fun t => str_eqb (t_id t) turn_id) turns.

Definition truncate_rollout_after_turn_id (l : list RolloutItem) (last_turn_id : str)
    : result (list RolloutItem) ForkError :=
  match List.find (fun t => str_eqb (t_id t) last_turn_id) (build_turns_from_rollout_items l) with
  | None => Err (TurnNotFound last_turn_id)
  | Some turn =>
      match position (is_turn_started last_turn_id) l with
      | None => Err (TurnNotPersisted last_turn_id)
      | Some target_start_index =>
          if bool_decide (t_status turn = TurnInProgress) then Err (TurnIsInProgress last_turn_id)
          else
            let cut_index :=
              match position starts_any_turn (drop (S target_start_index) l) with
              | Some i => (S target_start_index + i)%nat
              | None => length l
              end in
            Ok (take cut_index l)
      end
  end.

Definition rolls_any_back (item : RolloutItem) : bool :=
  match item with RI_EventMsg (Ev_ThreadRolledBack _) => true | _ => false end.

Definition truncate_rollout_before_turn_id (l : list RolloutItem) (before_turn_id : str)
    : result (list RolloutItem) ForkError :=
  match position (is_turn_started before_turn_id) l with
  | None =>
      if has_turn before_turn_id (build_turns_from_rollout_items l)
      then Err (TurnNotPersisted before_turn_id) else Err (TurnNotFound before_turn_id)
  | Some cut_index =>
      if existsb rolls_any_back (drop (S cut_index) l)
         && negb (has_turn before_turn_id (build_turns_from_rollout_items l))
      then Err (TurnNotFound before_turn_id)
      else Ok (take cut_index l)
  end.

Definition truncate_rollout_to_last_n_fork_turns (l : list RolloutItem) (n_from_end : N) : list RolloutItem :=
  if (n_from_end =? 0)%N then []
  else
    let positions := fork_turn_positions_in_rollout l in
    let n := N.to_nat n_from_end in
    match (if (n <=? length positions)%nat then positions !! (length positions - n) else head positions) with
    | None => []
    | Some keep_idx => drop keep_idx l
    end.

(** ** Snapshots for a fork ([thread_manager.rs]) *)

Inductive InitialHistory :=
| HNew
| HCleared
| HResumed (conversation_id : str) (history : list RolloutItem) (rollout_path : option str)
| HForked (items : list RolloutItem).

Definition get_rollout_items (h : InitialHistory) : list RolloutItem :=
  match h with HNew | HCleared => [] | HResumed _ l _ | HForked l => l end.

Definition initial_history_has_prior_user_turns (h : InitialHistory) : bool :=
  existsb rollout_item_is_user_turn_boundary (get_rollout_items h).

Record SnapshotTurnState := mkSnapshotState {
  ends_mid_turn : bool;
  ss_active_turn_id : option str;
  active_turn_started_at : option Z;
  ss_active_turn_start_index : option N;
}.

Definition at_boundary : SnapshotTurnState := mkSnapshotState false None None None.

Definition ends_turn (item : RolloutItem) : bool :=
  match item with RI_EventMsg (Ev_TurnComplete _ | Ev_TurnAborted _) => true | _ => false end.

Definition snapshot_turn_state (h : InitialHistory) : SnapshotTurnState :=
  let l := get_rollout_items h in
  let b := fold_left (fun b i => handle_rollout_item i b) l (new_builder 0) in
  match active_turn_id_if_explicit b with
  | Some turn_id =>
      let snapshot := active_turn_snapshot b in
      if match snapshot with
         | Some turn => negb (bool_decide (t_status turn = TurnInProgress))
         | None => false
         end
      then at_boundary
      else mkSnapshotState true (Some turn_id) (snapshot ≫= t_started_at) (active_turn_start_index b)
  | None =>
      match last (user_message_positions_in_rollout l) with
      | None => at_boundary
      | Some last_user_position =>
          mkSnapshotState (negb (existsb ends_turn (drop (S last_user_position) l))) None None None
      end
  end.

Definition truncate_before_nth_user_message (h : InitialHistory) (n : N) (state : SnapshotTurnState)
    : InitialHistory :=
  let l := get_rollout_items h in
  let user_positions := user_message_positions_in_rollout l in
  let rolled :=
    if ends_mid_turn state && (lenN user_positions <=? n)%N then
      match (match ss_active_turn_start_index state with
             | Some i => Some (N.to_nat i)
             | None => last user_positions
             end) with
      | Some cut_idx => take cut_idx l
      | None => l
      end
    else truncate_rollout_before_nth_user_message_from_start l n in
  if is_empty rolled then HNew else HForked rolled.

Definition append_interrupted_boundary (h : InitialHistory) (turn_id : option str) (started_at : option Z)
    (marker : option (ResponseItem Opaque)) : InitialHistory :=
  let aborted_event := RI_EventMsg (Ev_TurnAborted (mkAborted turn_id AbortInterrupted started_at None None)) in
  let marker := match marker with Some m => [RI_ResponseItem m] | None => [] end in
  HForked (get_rollout_items h ++ marker ++ [aborted_event]).

Inductive ForkSnapshot := TruncateBeforeNthUserMessage (nth_user_message : N) | Interrupted.

Definition fork_history_from_snapshot (snapshot : ForkSnapshot) (h : InitialHistory)
    (marker : option (ResponseItem Opaque)) : InitialHistory :=
  let state := snapshot_turn_state h in
  match snapshot with
  | TruncateBeforeNthUserMessage n => truncate_before_nth_user_message h n state
  | Interrupted =>
      let h := match h with HResumed _ l _ => HForked l | _ => h end in
      if ends_mid_turn state
      then append_interrupted_boundary h (ss_active_turn_id state) (active_turn_started_at state) marker
      else h
  end.

End fork.

(** * Laws of forking

    A cut before the n-th user message keeps exactly the user messages before
    it, whatever was rolled back; a fork of an interrupted turn is at a turn
    boundary. *)

Section facts.
Context {W : Wire} `{Host}.
Context (is_standard : str -> bool) (inter_agent : str -> option InterAgentCommunication).

Abbreviation step := (user_position_step is_standard).
Abbreviation from := (user_positions_from is_standard).
Abbreviation positions := (user_message_positions_in_rollout is_standard).
Abbreviation cut_before := (truncate_rollout_before_nth_user_message_from_start is_standard).
Abbreviation turn_state := (snapshot_turn_state is_standard).

(** ** User messages *)

Lemma from_app idx acc l1 l2 : from idx acc (l1 ++ l2) = from (idx + length l1) (from idx acc l1) l2.
Proof.
  revert idx acc. induction l1 as [|x l1 IH]; intros idx acc; [by rewrite Nat.add_0_r|].
  cbn [app user_positions_from length]. rewrite IH. f_equal. lia.
Qed.

(** The positions are a stack: a step keeps the bottom and may push its index. *)
Lemma step_stack idx acc x :
  exists k, step idx acc x = take k acc \/ step idx acc x = acc ++ [idx].
Proof.
  assert (Hsame : exists k, acc = take k acc \/ acc = acc ++ [idx]).
  { exists (length acc). left. by rewrite firstn_all. }
  unfold user_position_step. destruct x as [|item|c|t|c|c|c|e]; try done.
  - destruct item; try done. destruct (is_real_user_message_boundary _ _); [exists 0; by right|done].
  - destruct e; try done. eauto.
Qed.

Lemma from_stack l idx acc :
  exists k new, from idx acc l = take k acc ++ new /\ Forall (fun p => idx <= p) new.
Proof.
  revert idx acc. induction l as [|x l IH]; intros idx acc.
  - exists (length acc), []. simpl. by rewrite firstn_all, app_nil_r.
  - cbn [user_positions_from]. destruct (IH (S idx) (step idx acc x)) as (k & new & -> & Hn).
    assert (Hn' : Forall (fun p => idx <= p) new) by (eapply Forall_impl; [exact Hn|simpl; lia]).
    destruct (step_stack idx acc x) as [j [->| ->]].
    + exists (Nat.min k j), new. by rewrite take_take.
    + destruct (Nat.le_gt_cases k (length acc)) as [Hk|Hk].
      * exists k, new. by rewrite take_app_le.
      * exists (length acc), (idx :: new). rewrite take_ge by (rewrite length_app; simpl; lia).
        rewrite firstn_all, <- app_assoc. by split; [|constructor].
Qed.

Lemma positions_below l : Forall (fun p => p < length l) (positions l).
Proof.
  unfold user_message_positions_in_rollout. induction l as [|x l IH] using rev_ind; [constructor|].
  rewrite from_app, length_app. simpl.
  assert (IH' : Forall (fun p => p < length l + 1) (from 0 [] l)) by (eapply Forall_impl; [exact IH|simpl; lia]).
  destruct (step_stack (length l) (from 0 [] l) x) as [k [->| ->]].
  - by apply Forall_take.
  - apply Forall_app. split; [done|]. constructor; [lia|done].
Qed.

(** A position that survives keeps those below it. *)
Lemma positions_before l n p :
  positions l !! n = Some p -> positions (take p l) = take n (positions l).
Proof.
  intros Hp. assert (Hlt : p < length l).
  { pose proof (positions_below l) as Hb. rewrite Forall_forall in Hb. apply Hb. by eapply list_elem_of_lookup_2. }
  pose proof (positions_below (take p l)) as Hacc. rewrite length_take, Nat.min_l in Hacc by lia.
  set (acc := positions (take p l)) in *.
  destruct (drop p l) as [|x rest] eqn:Ed; [apply (f_equal length) in Ed; rewrite length_drop in Ed; simpl in Ed; lia|].
  assert (Hl : positions l = from (S p) (step p acc x) rest).
  { unfold user_message_positions_in_rollout. rewrite <- (take_drop p l) at 1. rewrite from_app, Ed.
    rewrite length_take, Nat.min_l by lia. done. }
  destruct (from_stack rest (S p) (step p acc x)) as (k & new & Hr & Hnew). rewrite <- Hl in Hr.
  rewrite Forall_forall in Hacc, Hnew.
  assert (Hin : p ∈ take k (step p acc x)).
  { pose proof (list_elem_of_lookup_2 _ _ _ Hp) as Hin. rewrite Hr, elem_of_app in Hin.
    destruct Hin as [Hin|Hin]; [done|]. apply Hnew in Hin. lia. }
  destruct (step_stack p acc x) as [j [Es|Es]]; rewrite Es in Hin, Hr.
  { exfalso. assert (Hina : p ∈ acc) by (eapply elem_of_take in Hin as (i & Hi & _); apply list_elem_of_lookup_2 in Hi;
      eapply elem_of_take in Hi as (i' & Hi' & _); by eapply list_elem_of_lookup_2). apply Hacc in Hina. lia. }
  assert (Hk : length acc < k).
  { apply elem_of_take in Hin as (i & Hi & Hik). destruct (Nat.lt_ge_cases i (length acc)) as [Hia|Hia]; [|lia].
    rewrite lookup_app_l in Hi by done. apply list_elem_of_lookup_2, Hacc in Hi. lia. }
  rewrite take_ge in Hr by (rewrite length_app; simpl; lia). rewrite <- app_assoc in Hr. simpl in Hr.
  assert (Hn : n = length acc).
  { destruct (Nat.lt_trichotomy n (length acc)) as [Hl'|[Hl'|Hl']]; [exfalso|done|exfalso]; rewrite Hr in Hp.
    - rewrite lookup_app_l in Hp by done. apply list_elem_of_lookup_2, Hacc in Hp. lia.
    - rewrite lookup_app_r in Hp by lia. rewrite lookup_cons_ne_0 in Hp by lia.
      apply list_elem_of_lookup_2, Hnew in Hp. lia. }
  subst n. rewrite Hr. symmetry. apply take_app_length.
Qed.

Lemma cut_positions_length l : length (positions l) <= length l.
Proof.
  cut (forall idx acc, length (from idx acc l) <= length acc + length l); [intros Hc; apply (Hc 0 [])|].
  induction l as [|x l IH]; intros idx acc; simpl; [lia|]. specialize (IH (S idx) (step idx acc x)).
  destruct (step_stack idx acc x) as [k [E|E]]; rewrite E in IH;
    [rewrite length_take in IH|rewrite length_app in IH; simpl in IH]; rewrite E; lia.
Qed.

(** An item that starts the turn of a user. *)
Definition is_user_message (x : RolloutItem) : Prop :=
  exists item, x = RI_ResponseItem item /\ is_real_user_message_boundary is_standard item = true.

Lemma step_pushes idx acc x : step idx acc x = acc ++ [idx] -> is_user_message x.
Proof.
  assert (Hno : forall k, take k acc <> acc ++ [idx]).
  { intros k E%(f_equal length). rewrite length_take, length_app in E. simpl in E. lia. }
  pose proof (Hno (length acc)) as Hsame. rewrite firstn_all in Hsame.
  unfold user_position_step. destruct x as [|item|c|t|c|c|c|e]; try done.
  - destruct item; try done. destruct (is_real_user_message_boundary _ _) eqn:E; [|done]. intros _. by eexists.
  - destruct e; try done. intros E. by apply Hno in E.
Qed.

(** The positions are those of user messages. *)
Lemma positions_are_messages l p : p ∈ positions l -> exists x, l !! p = Some x /\ is_user_message x.
Proof.
  unfold user_message_positions_in_rollout. induction l as [|x l IH] using rev_ind; [by intros ?%not_elem_of_nil|].
  rewrite from_app. simpl. intros Hp.
  assert (Hold : p ∈ from 0 [] l -> exists y, (l ++ [x]) !! p = Some y /\ is_user_message y).
  { intros (y & Hy & Hu)%IH. exists y. split; [by apply lookup_app_l_Some|done]. }
  destruct (step_stack (length l) (from 0 [] l) x) as [k [E|E]]; rewrite E in Hp.
  - apply elem_of_take in Hp as (i & Hi & _). apply Hold. by eapply list_elem_of_lookup_2.
  - apply elem_of_app in Hp as [Hp| ->%list_elem_of_singleton]; [auto|]. exists x.
    split; [by apply list_lookup_middle|]. by eapply step_pushes.
Qed.

(** C26: Cutting a rollout before its n-th user message (counted from 0) keeps
    exactly the first n user messages that its rollbacks have left, and all that
    follows the last of them: what is cut off starts with the n-th message, and
    the positions of the user messages of the prefix are the first n of the
    rollout, even when the prefix ends between a turn and the marker that rolls
    it back.  With n messages or fewer nothing is cut. *)
Theorem cut_keeps_the_first_messages l n :
  (lenN l <= USIZE_MAX)%N ->
  exists rest, l = cut_before l n ++ rest /\
    positions (cut_before l n) = take (N.to_nat n) (positions l) /\
    (length (positions l) <= N.to_nat n -> rest = []) /\
    (N.to_nat n < length (positions l) ->
       positions l !! N.to_nat n = Some (length (cut_before l n)) /\
       exists message rest', rest = message :: rest' /\ is_user_message message).
Proof.
  intros Hl. unfold truncate_rollout_before_nth_user_message_from_start.
  pose proof (cut_positions_length l) as Hlen. unfold lenN in Hl.
  destruct (N.eqb_spec n USIZE_MAX) as [->|Hn].
  { exists []. rewrite app_nil_r, take_ge by lia. split_and!; [done..|lia]. }
  destruct (positions l !! N.to_nat n) as [p|] eqn:Ep.
  - pose proof (lookup_lt_Some _ _ _ Ep) as Hlt. exists (drop p l). rewrite take_drop.
    destruct (positions_are_messages l p) as (x & Hx & Hu); [by eapply list_elem_of_lookup_2|].
    pose proof (lookup_lt_Some _ _ _ Hx). rewrite length_take, Nat.min_l by lia.
    split_and!; [done|by apply positions_before|lia|]. intros _. split; [done|].
    exists x, (drop (S p) l). split; [by apply drop_S|done].
  - apply lookup_ge_None in Ep. exists []. rewrite app_nil_r, take_ge by lia. split_and!; [done..|lia].
Qed.

(** ** Interrupted turns *)

Abbreviation explicit := active_turn_id_if_explicit.

Lemma explicit_of b b' : current_turn b' = current_turn b -> explicit b' = explicit b.
Proof. unfold active_turn_id_if_explicit. by intros ->. Qed.

Lemma new_turn_not_explicit id b p b' : new_turn id b = (p, b') -> p_opened_explicitly p = false.
Proof.
  unfold new_turn. destruct (match id with Some id => _ | None => _ end) as [i b1]. by intros [= <- _].
Qed.

Lemma explicit_push item b : explicit (push_item_in_current_turn item b) = explicit b.
Proof.
  unfold push_item_in_current_turn. destruct (ensure_turn b) as [t b1] eqn:Ee.
  assert (Ht : (if p_opened_explicitly t then Some (p_id t) else None) = explicit b).
  { unfold ensure_turn in Ee. unfold active_turn_id_if_explicit. destruct (current_turn b); [by injection Ee as <- <-|].
    destruct (new_turn None b) as [t' b'] eqn:En. injection Ee as <- <-. simpl.
    by rewrite (new_turn_not_explicit _ _ _ _ En). }
  rewrite <- Ht. destruct (is_tracking_changes b); [|done].
  unfold active_turn_id_if_explicit. by rewrite record_item_current.
Qed.

Lemma explicit_response_item item b : explicit (handle_response_item item b) = explicit b.
Proof.
  unfold handle_response_item. destruct item as [|id role content| | | | | | | | | | | | | | |]; try done.
  destruct (str_eqb role _); [|done]. destruct (hook_prompt_fragments content); [|done].
  destruct id; [apply explicit_push|]. simpl. by rewrite explicit_push.
Qed.

Lemma explicit_rollout_response item b : explicit (handle_rollout_item (RI_ResponseItem item) b) = explicit b.
Proof. cbn [handle_rollout_item]. rewrite explicit_response_item. done. Qed.

(** The abort of the explicit turn that is active leaves it, finished. *)
Lemma abort_explicit b id started :
  explicit b = Some id ->
  let b' := handle_rollout_item (RI_EventMsg (Ev_TurnAborted (mkAborted (Some id) AbortInterrupted started None None))) b in
  explicit b' = Some id /\ t_status <$> active_turn_snapshot b' = Some TurnInterrupted.
Proof.
  unfold active_turn_id_if_explicit, active_turn_snapshot. simpl.
  destruct (current_turn b) as [t|] eqn:Ec; [|done]. simpl. destruct (p_opened_explicitly t) eqn:Eo; [|done].
  intros [= <-]. unfold handle_turn_aborted. simpl. rewrite Ec, (proj2 (str_eqb_eq _ _) eq_refl). unfold abort_current. simpl.
  rewrite Ec, record_turn_current. simpl. by rewrite Eo.
Qed.

Lemma abort_implicit b started :
  explicit b = None ->
  explicit (handle_rollout_item (RI_EventMsg (Ev_TurnAborted (mkAborted None AbortInterrupted started None None))) b) = None.
Proof.
  unfold active_turn_id_if_explicit. simpl. unfold handle_turn_aborted, abort_current. simpl.
  destruct (current_turn b) as [t|] eqn:Ec; [|simpl; intros _; by rewrite ?Ec]. simpl. rewrite record_turn_current. simpl.
  by destruct (p_opened_explicitly t).
Qed.

(** A terminating event at the end is after the last user message. *)
Lemma ends_after_last l e p :
  ends_turn e = true -> (forall idx acc, step idx acc e = acc) ->
  last (positions (l ++ [e])) = Some p -> existsb ends_turn (drop (S p) (l ++ [e])) = true.
Proof.
  intros He Hs Hp. assert (E : positions (l ++ [e]) = positions l).
  { unfold user_message_positions_in_rollout. rewrite from_app. apply Hs. }
  rewrite E in Hp. pose proof (positions_below l) as Hb. rewrite Forall_forall in Hb.
  rewrite last_lookup in Hp. specialize (Hb p (list_elem_of_lookup_2 _ _ _ Hp)).
  rewrite drop_app_le by lia. rewrite existsb_app. simpl. rewrite He. by rewrite orb_true_r.
Qed.

Lemma turn_state_items h h' : get_rollout_items h = get_rollout_items h' -> turn_state h = turn_state h'.
Proof. unfold snapshot_turn_state. by intros ->. Qed.

(** C27: A fork of a thread that is interrupted in the middle of a turn is at a
    turn boundary: whatever the source (with or without lifecycle events, with or
    without a marker message), the history that [fork_history_from_snapshot]
    gives for an interrupted snapshot is not in the middle of a turn. *)
Theorem interrupted_fork_is_at_a_boundary h marker :
  ends_mid_turn (turn_state (fork_history_from_snapshot is_standard Interrupted h marker)) = false.
Proof.
  unfold fork_history_from_snapshot. destruct (ends_mid_turn (turn_state h)) eqn:Em.
  2: { rewrite <- Em. f_equal. apply turn_state_items. by destruct h. }
  set (b0 := fold_left (fun b i => handle_rollout_item i b) (get_rollout_items h) (new_builder 0)).
  set (state := turn_state h) in *.
  unfold append_interrupted_boundary. set (m := match marker with Some m => [RI_ResponseItem m] | None => [] end).
  replace (get_rollout_items (match h with HResumed _ l _ => HForked l | _ => h end)) with (get_rollout_items h)
    by (by destruct h).
  set (b1 := fold_left (fun b i => handle_rollout_item i b) m b0).
  assert (E1 : explicit b1 = explicit b0).
  { unfold b1, m. destruct marker; [simpl; apply explicit_rollout_response|done]. }
  unfold snapshot_turn_state. cbn [get_rollout_items]. rewrite !fold_left_app. fold b0 b1. cbn [fold_left].
  unfold state, snapshot_turn_state in Em |- *. fold b0 in Em |- *. destruct (explicit b0) as [id|] eqn:E0.
  - destruct (match active_turn_snapshot b0 with Some _ => _ | None => _ end); [done|].
    cbn [ss_active_turn_id active_turn_started_at].
    destruct (abort_explicit b1 id (active_turn_snapshot b0 ≫= t_started_at)) as [H1 H2]; [done|].
    rewrite H1. destruct (active_turn_snapshot (handle_rollout_item _ b1)) as [t|]; [|done].
    injection H2 as H2. by rewrite bool_decide_false by congruence.
  - destruct (last (positions (get_rollout_items h))) as [p0|]; [|done]. cbn [ss_active_turn_id active_turn_started_at].
    rewrite abort_implicit by congruence. rewrite app_assoc.
    match goal with |- context [last (positions ?l)] => destruct (last (positions l)) as [p|] eqn:Ep; [|done] end.
    apply ends_after_last in Ep; [|done|done]. cbn [ends_mid_turn]. by rewrite Ep.
Qed.

End facts.

(** ** Examples *)

Section examples.

#[local] Instance fork_wire : Wire := {|
  Json := unit; Opaque := unit; json_null := tt;
  redact_secrets s := s; shlex_join := join [32%N];
  parse_command _ := []; uri_join base p := Some (base ++ s!"/" ++ p); native_path s := s;
  from_xml_str _ := None; now_v7 n := s!"uuid-" ++ digits_of_N (N.of_nat n) |}.

#[local] Instance fork_host : Host := {|
  home_dir := None; current_dir := Some [RootDir]; tmpdir_var := None;
  is_dir _ := true; is_file _ := false; exists_path _ := true; read_to_string _ := None;
  symlink_metadata _ := Some false; fs_canonicalize := Some |}.

Definition user (text : str) : RolloutItem :=
  RI_ResponseItem (Message None s!"user" [MsgInputText text] None None).
Definition turn_started (id : str) : RolloutItem :=
  RI_EventMsg (Ev_TurnStarted (mkTurnStarted id None None None tt)).
Definition turn_complete (id : str) : RolloutItem :=
  RI_EventMsg (Ev_TurnComplete (mkTurnComplete id None None None None None None)).

(** Three messages, the second rolled back. *)
Definition fork_source : list RolloutItem :=
  [user s!"one"; user s!"two"; RI_EventMsg (Ev_ThreadRolledBack 1); user s!"three"; user s!"four"].

Lemma cut_keeps_the_first_messages_witness :
  user_message_positions_in_rollout (fun _ => false) fork_source = [0; 3; 4] /\
  user_message_positions_in_rollout (fun _ => false)
    (truncate_rollout_before_nth_user_message_from_start (fun _ => false) fork_source 2) = [0; 3] /\
  exists message rest,
    fork_source = truncate_rollout_before_nth_user_message_from_start (fun _ => false) fork_source 2
      ++ message :: rest /\ is_user_message (fun _ => false) message.
Proof.
  split; [vm_compute; reflexivity|].
  destruct (cut_keeps_the_first_messages (fun _ => false) fork_source 2) as (rest & Hl & Hp & _ & Hm);
    [vm_compute; discriminate|].
  split; [rewrite Hp; vm_compute; reflexivity|].
  destruct Hm as (_ & message & rest' & -> & Hu); [vm_compute; lia|]. exists message, rest'. exact (conj Hl Hu).
Defined.

(** The completion of turn [a] arrives after turn [b] has started: the prefix that
    ends after [a] is cut at the start of [b] and has no end of [a], which is then
    in progress. *)
Example fork_after_late_completion :
  let l := [turn_started s!"a"; turn_started s!"b"; turn_complete s!"a"; turn_complete s!"b"] in
  truncate_rollout_after_turn_id l s!"a" = Ok [turn_started s!"a"] /\
  (fun t => (t_id t, t_status t)) <$> build_turns_from_rollout_items [turn_started s!"a"] =
  [(s!"a", TurnInProgress)].
Proof. split; vm_compute; reflexivity. Qed.

End examples.
