(* ===== verification/RolloutProjection.v ===== *)
(** * Materialising a rollout: [thread-store/src/local/thread_history.rs],
      [thread_history_materialization.rs] and
      [app-server-protocol/src/protocol/thread_history_projection.rs]

    A paginated rollout is a JSONL file that only grows.  A pass reads what was
    appended since its last checkpoint, projects every complete line to changes
    of the thread, and writes them with the new checkpoint to SQLite in one
    transaction.  The tables are those of one thread (every statement selects
    by [thread_id]); an error leaves them as they were.  JSON, timestamps and
    the file are parameters: [from_slice] is [serde_json::from_slice],
    [get_ordinal] reads the field ["ordinal"] of a value as a [u64],
    [from_value] is [serde_json::from_value::<RolloutLine>], [parse_rfc3339] is
    [DateTime::parse_from_rfc3339] in milliseconds. *)

From S2P Require Import Prelude.
From S2P Require Import RustStr.
From S2P Require Import Paths.
From S2P Require Import Truncate.
From S2P Require Import History.
From S2P Require Import HistoryOps.
From S2P Require Import Tables.
From S2P Require Import ThreadItems.
From S2P Require Import ThreadHistory.

Abbreviation byte := N (only parsing).

Definition U64_MAX : N := 18446744073709551615.

(** The messages of [ThreadStoreError::Internal]. *)
Inductive StoreError :=
| Io (message : str)
| RolloutShrank
| ByteOffsetOverflow
| MissingOrdinal
| UnexpectedOrdinal (expected got : N)
| GapNotCovered (expected got rejected_line_count : N)
| OrdinalOverflow
| IntegerRange (field : str)
| BehindDurableRollout
| EmptySkippedRange
| MissingCreationTimestamp
| NegativeCheckpoint.

Section projection.
Context {W : Wire}.

Record RolloutLine := mkLine {
  rl_timestamp : str;
  rl_ordinal : option N;
  rl_item : RolloutItem;
}.

Context (from_slice : list byte -> option Json) (get_ordinal : Json -> option N).
Context (from_value : Json -> option RolloutLine) (parse_rfc3339 : str -> option Z).

(** ** One line *)

Definition turn_changes (t : ThreadHistoryTurnChange) : ThreadHistoryChangeSet :=
  mkChangeSet [] [t] [].

Definition project_rollout_line (line : RolloutLine) : ThreadHistoryChangeSet :=
  match rl_item line with
  | RI_EventMsg (Ev_TurnStarted e) =>
      turn_changes (mkTurnChange (ts_turn_id e) TurnInProgress None (ts_started_at e) None None)
  | RI_EventMsg (Ev_TurnComplete e) =>
      turn_changes
        (mkTurnChange (tc_turn_id e)
           (match tc_error e with Some _ => TurnFailed | None => TurnCompleted end)
           (turn_error_of <$> tc_error e) (tc_started_at e) (tc_completed_at e) (tc_duration_ms e))
  | RI_EventMsg (Ev_TurnAborted e) =>
      match ta_turn_id e with
      | None => empty_changes
      | Some turn_id =>
          turn_changes
            (mkTurnChange turn_id TurnInterrupted None (ta_started_at e) (ta_completed_at e)
               (ta_duration_ms e))
      end
  | RI_EventMsg (Ev_ItemCompleted e) =>
      mkChangeSet
        [mkItemChange (ic_turn_id e) (thread_item_of (ic_item e)) (ic_started_at_ms e)
           (if (ic_completed_at_ms e =? 0)%Z then None else Some (ic_completed_at_ms e))] [] []
  | _ => empty_changes
  end.

(** ** Reading the lines after a checkpoint *)

Record ProjectedRolloutLine := mkProjected {
  pl_ordinal : N;
  pl_start_byte_offset : N;
  pl_end_byte_offset : N;
  pl_fallback_created_at_ms : option Z;
  pl_changes : ThreadHistoryChangeSet;
}.

Inductive RolloutProjectionStep :=
| Line (line : ProjectedRolloutLine)
| SkippedOrdinalRange (start_ordinal end_ordinal_exclusive : N).

(** The local variables of the loop. *)
Record ReadState := mkRead {
  projections : list RolloutProjectionStep;
  next_ordinal : N;
  next_offset : N;
  pending_rejected_line_count : N;
  line_start_offset : N;
}.

Definition is_ascii_whitespace (c : byte) : bool :=
  (c =? 32)%N || (c =? 9)%N || (c =? 10)%N || (c =? 12)%N || (c =? 13)%N.

(** [checked_add] on [u64]. *)
Definition checked_add_u64 (a b : N) : option N :=
  if (a + b <=? U64_MAX)%N then Some (a + b)%N else None.

(** [pending_rejected_line_count += 1; line_start_offset = line_end_offset; continue] *)
Definition reject_line (line_end_offset : N) (st : ReadState) : ReadState :=
  mkRead (projections st) (next_ordinal st) (next_offset st)
    (pending_rejected_line_count st + 1) line_end_offset.

(** One iteration: [subagent_start] is [subagent_history_start_ordinal]. *)
Definition read_line (subagent_start : option N) (st : ReadState) (line_bytes : list byte)
    : result ReadState StoreError :=
  match checked_add_u64 (line_start_offset st) (lenN line_bytes) with
  | None => Err ByteOffsetOverflow
  | Some line_end_offset =>
      if forallb is_ascii_whitespace line_bytes then
        Ok (mkRead (projections st) (next_ordinal st)
              (if (pending_rejected_line_count st =? 0)%N then line_end_offset else next_offset st)
              (pending_rejected_line_count st) line_end_offset)
      else
        match from_slice line_bytes with
        | None => Ok (reject_line line_end_offset st)
        | Some value =>
            let value_ordinal := get_ordinal value in
            let line := from_value value in
            let ordinal := match line ≫= rl_ordinal with Some o => Some o | None => value_ordinal end in
            match ordinal, line with
            | None, None => Ok (reject_line line_end_offset st)
            | None, Some _ => Err MissingOrdinal
            | Some ordinal, line =>
                if (ordinal <? next_ordinal st)%N
                then Err (UnexpectedOrdinal (next_ordinal st) ordinal)
                else
                  match line with
                  | None => Ok (reject_line line_end_offset st)
                  | Some line =>
                      let skipped_ordinal_count := (ordinal - next_ordinal st)%N in
                      if (pending_rejected_line_count st <? skipped_ordinal_count)%N
                      then Err (GapNotCovered (next_ordinal st) ordinal (pending_rejected_line_count st))
                      else
                        let changes :=
                          if match subagent_start with Some start => (ordinal <? start)%N | None => false end
                          then empty_changes else project_rollout_line line in
                        let needs_fallback :=
                          existsb (fun ch => match hic_started_at_ms ch with None => true | Some _ => false end)
                            (changed_items changes) in
                        let fallback :=
                          if needs_fallback then Some <$> parse_rfc3339 (rl_timestamp line)
                          else Some None in
                        match fallback with
                        | None => Ok (reject_line line_end_offset st)
                        | Some fallback_created_at_ms =>
                            match checked_add_u64 ordinal 1 with
                            | None => Err OrdinalOverflow
                            | Some next_line_ordinal =>
                                Ok (mkRead
                                      (projections st
                                       ++ (if (0 <? skipped_ordinal_count)%N
                                           then [SkippedOrdinalRange (next_ordinal st) ordinal] else [])
                                       ++ [Line (mkProjected ordinal (line_start_offset st)
                                                   line_end_offset fallback_created_at_ms changes)])
                                      next_line_ordinal line_end_offset 0 line_end_offset)
                            end
                        end
                  end
            end
        end
  end.

Fixpoint read_lines (subagent_start : option N) (st : ReadState) (ls : list (list byte))
    : result ReadState StoreError :=
  match ls with
  | [] => Ok st
  | l :: rest => let? st := read_line subagent_start st l in read_lines subagent_start st rest
  end.

(** [bytes[..complete_byte_count].split_inclusive(|byte| *byte == b'\n')]: the
    newline-terminated lines, without a partial one at the end. *)
Fixpoint complete_lines (current : list byte) (bytes : list byte) : list (list byte) :=
  match bytes with
  | [] => []
  | c :: rest =>
      if (c =? 10)%N then (current ++ [c]) :: complete_lines [] rest
      else complete_lines (current ++ [c]) rest
  end.

(** What [metadata] and reading the file give. *)
Inductive RolloutFile := FileNotFound | FileError (message : str) | FileContents (bytes : list byte).

Definition read_projection_steps (file : RolloutFile) (start_offset expected_ordinal : N)
    (subagent_start : option N) : result (list RolloutProjectionStep * N) StoreError :=
  match file with
  | FileNotFound => if (start_offset =? 0)%N then Ok ([], 0%N) else Err (Io s!"not found")
  | FileError message => Err (Io message)
  | FileContents contents =>
      if (lenN contents <? start_offset)%N then Err RolloutShrank
      else
        let bytes := drop (N.to_nat start_offset) contents in
        let? st := read_lines subagent_start (mkRead [] expected_ordinal start_offset 0 start_offset)
                     (complete_lines [] bytes) in
        Ok (projections st, next_offset st)
  end.

(** ** The tables *)

Record TurnRow := mkTurnRow {
  tr_turn_id : str;
  tr_rollout_ordinal : Z;
  tr_rollout_byte_offset : Z;
  tr_rollout_end_ordinal : option Z;
  tr_rollout_end_byte_offset : option Z;
  tr_status : TurnStatus;
  tr_error : option TurnError;
  tr_started_at : option Z;
  tr_completed_at : option Z;
  tr_duration_ms : option Z;
  tr_first_user_item_id : option str;
  tr_final_agent_item_id : option str;
}.

Record ItemRow := mkItemRow {
  ir_turn_id : str;
  ir_item_id : str;
  ir_rollout_ordinal : Z;
  ir_updated_at_ordinal : Z;
  ir_created_at_ms : Z;
  ir_item : ThreadItem;
}.

Record Db := mkDb {
  thread_turns : list TurnRow;
  thread_items : list ItemRow;
  projection_checkpoint : option (Z * Z);   (* next_rollout_byte_offset, next_rollout_ordinal *)
}.

Definition empty_db : Db := mkDb [] [] None.

(** [i64::try_from(value)] of a [u64]. *)
Definition sqlite_integer (value : N) (field : str) : result Z StoreError :=
  if (Z.of_N value <=? I64_MAX)%Z then Ok (Z.of_N value) else Err (IntegerRange field).

(** *** Turn rows *)

(** [rollout_end_ordinal IS NULL AND status = 'inProgress'] *)
Definition row_is_open (r : TurnRow) : bool :=
  match tr_rollout_end_ordinal r with None => bool_decide (tr_status r = TurnInProgress) | Some _ => false end.

(** The row as inserted, and the row that keeps its creation and summary columns. *)
Definition inserted_turn_row (ordinal offset end_offset : Z) (t : ThreadHistoryTurnChange) : TurnRow :=
  let '(terminal_ordinal, terminal_byte_offset) :=
    match htc_status t with
    | TurnCompleted | TurnInterrupted | TurnFailed => (Some ordinal, Some end_offset)
    | TurnInProgress => (None, None)
    end in
  mkTurnRow (htc_turn_id t) ordinal offset terminal_ordinal terminal_byte_offset (htc_status t)
    (htc_error t) (htc_started_at t) (htc_completed_at t) (htc_duration_ms t) None None.

Definition updated_turn_row (excluded r : TurnRow) : TurnRow :=
  mkTurnRow (tr_turn_id r) (tr_rollout_ordinal r) (tr_rollout_byte_offset r)
    (tr_rollout_end_ordinal excluded) (tr_rollout_end_byte_offset excluded) (tr_status excluded)
    (tr_error excluded) (tr_started_at excluded) (tr_completed_at excluded)
    (tr_duration_ms excluded) (tr_first_user_item_id r) (tr_final_agent_item_id r).

(** [INSERT ... ON CONFLICT(thread_id, turn_id) DO UPDATE SET ... WHERE ...] *)
Fixpoint upsert_turn_row (excluded : TurnRow) (rows : list TurnRow) : list TurnRow :=
  match rows with
  | [] => [excluded]
  | r :: rest =>
      if decide (tr_turn_id r = tr_turn_id excluded) then
        (if row_is_open r then updated_turn_row excluded r else r) :: rest
      else r :: upsert_turn_row excluded rest
  end.

(** The row with the least, or greatest, creation ordinal. *)
Definition first_by_ordinal (rows : list ItemRow) : option ItemRow :=
  fold_left (fun best r => match best with
                           | Some x => if (ir_rollout_ordinal r <? ir_rollout_ordinal x)%Z then Some r else best
                           | None => Some r
                           end) rows None.

Definition last_by_ordinal (rows : list ItemRow) : option ItemRow :=
  fold_left (fun best r => match best with
                           | Some x => if (ir_rollout_ordinal x <? ir_rollout_ordinal r)%Z then Some r else best
                           | None => Some r
                           end) rows None.

Definition is_user_message_item (i : ThreadItem) : bool :=
  match i with TI_UserMessage _ _ _ => true | _ => false end.
Definition is_final_answer_item (i : ThreadItem) : bool :=
  match i with TI_AgentMessage _ _ (Some FinalAnswer) _ => true | _ => false end.
Definition is_unphased_agent_item (i : ThreadItem) : bool :=
  match i with TI_AgentMessage _ _ None _ => true | _ => false end.

(** [SELECT item_id FROM thread_items WHERE turn_id = ? AND <kind>] *)
Definition select_items (rows : list ItemRow) (turn_id : str) (kind : ThreadItem -> bool) : list ItemRow :=
  List.filter (fun r => str_eqb (ir_turn_id r) turn_id && kind (ir_item r)) rows.

Definition is_terminal (s : TurnStatus) : bool :=
  match s with TurnInProgress => false | _ => true end.

Definition coalesce {A} (a b : option A) : option A := match a with Some x => Some x | None => b end.

(** The [UPDATE] that fills the summary columns once a turn row arrives. *)
Definition fill_summary (rows : list ItemRow) (turn_id : str) (ordinal : Z) (r : TurnRow) : TurnRow :=
  if str_eqb (tr_turn_id r) turn_id
     && (bool_decide (tr_rollout_end_ordinal r = Some ordinal)
         || bool_decide (tr_status r = TurnInProgress))
  then
    mkTurnRow (tr_turn_id r) (tr_rollout_ordinal r) (tr_rollout_byte_offset r)
      (tr_rollout_end_ordinal r) (tr_rollout_end_byte_offset r) (tr_status r) (tr_error r)
      (tr_started_at r) (tr_completed_at r) (tr_duration_ms r)
      (coalesce (tr_first_user_item_id r)
         (ir_item_id <$> first_by_ordinal (select_items rows turn_id is_user_message_item)))
      (coalesce (ir_item_id <$> last_by_ordinal (select_items rows turn_id is_final_answer_item))
         (coalesce
            (if is_terminal (tr_status r)
             then ir_item_id <$> last_by_ordinal (select_items rows turn_id is_unphased_agent_item)
             else None)
            (tr_final_agent_item_id r)))
  else r.

Definition apply_turn_change (ordinal offset end_offset : Z) (db : Db) (t : ThreadHistoryTurnChange) : Db :=
  mkDb
    (fill_summary (thread_items db) (htc_turn_id t) ordinal
     <$> upsert_turn_row (inserted_turn_row ordinal offset end_offset t) (thread_turns db))
    (thread_items db) (projection_checkpoint db).

(** *** Item rows *)

Definition item_row_key (r : ItemRow) : str * str := (ir_turn_id r, ir_item_id r).

Fixpoint upsert_item_row (excluded : ItemRow) (rows : list ItemRow) : list ItemRow :=
  match rows with
  | [] => [excluded]
  | r :: rest =>
      if decide (item_row_key r = item_row_key excluded) then
        mkItemRow (ir_turn_id r) (ir_item_id r) (ir_rollout_ordinal r) (ir_updated_at_ordinal excluded)
          (ir_created_at_ms r) (ir_item excluded) :: rest
      else r :: upsert_item_row excluded rest
  end.

Definition set_first_user (item_id : str) (r : TurnRow) : TurnRow :=
  mkTurnRow (tr_turn_id r) (tr_rollout_ordinal r) (tr_rollout_byte_offset r)
    (tr_rollout_end_ordinal r) (tr_rollout_end_byte_offset r) (tr_status r) (tr_error r)
    (tr_started_at r) (tr_completed_at r) (tr_duration_ms r)
    (coalesce (tr_first_user_item_id r) (Some item_id)) (tr_final_agent_item_id r).

Definition set_final_agent (item_id : str) (r : TurnRow) : TurnRow :=
  mkTurnRow (tr_turn_id r) (tr_rollout_ordinal r) (tr_rollout_byte_offset r)
    (tr_rollout_end_ordinal r) (tr_rollout_end_byte_offset r) (tr_status r) (tr_error r)
    (tr_started_at r) (tr_completed_at r) (tr_duration_ms r) (tr_first_user_item_id r) (Some item_id).

(** The [UPDATE] after an item, of the open row of its turn. *)
Definition summarise_item (item : ThreadItem) (turn_id : str) (r : TurnRow) : TurnRow :=
  if str_eqb (tr_turn_id r) turn_id && row_is_open r then
    match item with
    | TI_UserMessage id _ _ => set_first_user id r
    | TI_AgentMessage id _ (Some FinalAnswer) _ => set_final_agent id r
    | _ => r
    end
  else r.

Definition apply_item_change (ordinal : Z) (fallback_created_at_ms : option Z) (db : Db)
    (ch : ThreadHistoryItemChange) : result Db StoreError :=
  match coalesce (hic_started_at_ms ch) fallback_created_at_ms with
  | None => Err MissingCreationTimestamp
  | Some created_at_ms =>
      Ok (mkDb (summarise_item (hic_item ch) (hic_turn_id ch) <$> thread_turns db)
            (upsert_item_row
               (mkItemRow (hic_turn_id ch) (item_id (hic_item ch)) ordinal ordinal created_at_ms
                  (hic_item ch)) (thread_items db))
            (projection_checkpoint db))
  end.

Fixpoint fold_result {A S} (f : S -> A -> result S StoreError) (l : list A) (s : S) : result S StoreError :=
  match l with
  | [] => Ok s
  | x :: l' => let? s := f s x in fold_result f l' s
  end.

Definition apply_change_set (ordinal offset end_offset : Z) (fallback_created_at_ms : option Z)
    (changes : ThreadHistoryChangeSet) (db : Db) : result Db StoreError :=
  fold_result (apply_item_change ordinal fallback_created_at_ms) (changed_items changes)
    (fold_left (apply_turn_change ordinal offset end_offset) (changed_turns changes) db).

(** ** The transaction *)

Definition apply_step (s : Db * Z) (step : RolloutProjectionStep) : result (Db * Z) StoreError :=
  let '(db, next) := s in
  match step with
  | Line p =>
      let? ordinal := sqlite_integer (pl_ordinal p) s!"rollout ordinal" in
      if negb (ordinal =? next)%Z then Err (UnexpectedOrdinal (Z.to_N next) (pl_ordinal p))
      else
        let? offset := sqlite_integer (pl_start_byte_offset p) s!"rollout byte offset" in
        let? end_offset := sqlite_integer (pl_end_byte_offset p) s!"rollout byte offset" in
        let? db := apply_change_set ordinal offset end_offset (pl_fallback_created_at_ms p)
                     (pl_changes p) db in
        if (next =? I64_MAX)%Z then Err OrdinalOverflow else Ok (db, (next + 1)%Z)
  | SkippedOrdinalRange start stop =>
      let? start' := sqlite_integer start s!"rollout ordinal" in
      if negb (start' =? next)%Z then Err (UnexpectedOrdinal (Z.to_N next) start)
      else
        let? stop' := sqlite_integer stop s!"rollout ordinal" in
        if (stop' <=? start')%Z then Err EmptySkippedRange else Ok (db, stop')
  end.

Definition apply_projection (start_offset next_offset initial_ordinal : N)
    (steps : list RolloutProjectionStep) (db : Db) : result Db StoreError :=
  let? initial := sqlite_integer initial_ordinal s!"rollout ordinal" in
  let '(expected_offset, next) := default (0%Z, initial) (projection_checkpoint db) in
  let? start := sqlite_integer start_offset s!"rollout byte offset" in
  if negb (expected_offset =? start)%Z then Err BehindDurableRollout
  else
    let? s := fold_result apply_step steps (db, next) in
    let '(db, next) := s in
    let? offset := sqlite_integer next_offset s!"rollout byte offset" in
    Ok (mkDb (thread_turns db) (thread_items db) (Some (offset, next))).

(** ** A pass *)

(** [projection_state]: the checkpoint as unsigned integers. *)
Definition projection_state (db : Db) : result (option (N * N)) StoreError :=
  match projection_checkpoint db with
  | None => Ok None
  | Some (o, n) =>
      if (o <? 0)%Z then Err NegativeCheckpoint
      else if (n <? 0)%Z then Err NegativeCheckpoint
      else Ok (Some (Z.to_N o, Z.to_N n))
  end.

(** [session_meta] is what [read_session_meta_line] gives of a file that is there:
    the initial ordinal, from the history base, and the start of a subagent's own
    history, or the error that ends the pass.  It cannot be read from a file that
    is not there.  A checkpoint that is not there starts at the beginning of the
    file. *)
Definition materialize_to_sqlite (session_meta : result (N * option N) StoreError) (file : RolloutFile)
    (db : Db) : result Db StoreError :=
  let? state := projection_state db in
  match state, file with
  | None, FileNotFound => Ok db
  | _, FileNotFound => Err (Io s!"not found")
  | _, _ =>
      let? meta := session_meta in
      let '(initial_ordinal, subagent_start) := meta in
      let '(start_offset, expected_ordinal) := default (0%N, initial_ordinal) state in
      let? r := read_projection_steps file start_offset expected_ordinal subagent_start in
      let '(steps, next) := r in
      if is_empty steps && (start_offset =? next)%N then Ok db
      else apply_projection start_offset next initial_ordinal steps db
  end.

(** [delete_thread] *)
Definition delete_thread (db : Db) : Db := empty_db.

End projection.
