(* ===== verification/RolloutProjectionFacts.v ===== *)
(** * Laws of materialisation

    A pass that stops anywhere can be resumed: reading a file in two passes
    gives the steps, the checkpoint and the tables of a single pass.  What a
    pass reads, the transaction accepts.  The row of a finished turn is final. *)

From S2P Require Import Prelude.
From S2P Require Import RustStr.
From S2P Require Import Paths.
From S2P Require Import Truncate.
From S2P Require Import History.
From S2P Require Import HistoryOps.
From S2P Require Import Tables.
From S2P Require Import ThreadItems.
From S2P Require Import ThreadHistory.
From S2P Require Import RolloutProjection.

(** ** Lines *)

Definition lines_len (ls : list (list N)) : N := lenN (concat ls).

Lemma lines_len_app l1 l2 : lines_len (l1 ++ l2) = (lines_len l1 + lines_len l2)%N.
Proof. unfold lines_len. rewrite concat_app. apply lenN_app. Qed.

(** What [complete_lines] has read of a line that is not complete. *)
Fixpoint partial_line (current bytes : list N) : list N :=
  match bytes with
  | [] => current
  | c :: rest => if (c =? 10)%N then partial_line [] rest else partial_line (current ++ [c]) rest
  end.

Lemma complete_lines_app current l1 l2 :
  complete_lines current (l1 ++ l2) =
  complete_lines current l1 ++ complete_lines (partial_line current l1) l2.
Proof.
  revert current. induction l1 as [|c l1 IH]; intros current; [done|]. simpl.
  destruct (c =? 10)%N; simpl; by rewrite IH.
Qed.

Lemma complete_lines_split current bytes l ls :
  complete_lines current bytes = l :: ls ->
  exists n, l = current ++ take n bytes /\ ls = complete_lines [] (drop n bytes) /\ n <= length bytes.
Proof.
  revert current. induction bytes as [|c bytes IH]; intros current Hc; [done|]. simpl in Hc.
  destruct (c =? 10)%N.
  - injection Hc as <- <-. exists 1. simpl. rewrite take_0, drop_0. split_and!; [done|done|lia].
  - apply IH in Hc as (n & -> & -> & Hn). exists (S n). simpl. rewrite <- app_assoc.
    split_and!; [done|done|lia].
Qed.

(** Leaving out the bytes of the first lines leaves the other lines. *)
Lemma complete_lines_drop l1 l2 bytes :
  complete_lines [] bytes = l1 ++ l2 ->
  complete_lines [] (drop (N.to_nat (lines_len l1)) bytes) = l2 /\
  (lines_len l1 <= lenN bytes)%N.
Proof.
  revert bytes. induction l1 as [|l l1 IH]; intros bytes Hc.
  { split; [|unfold lines_len, lenN; simpl; lia]. done. }
  apply complete_lines_split in Hc as (n & Hl & Hls & Hn). simpl in Hl.
  destruct (IH _ (eq_sym Hls)) as [H1 H2].
  assert (Hlen : lines_len (l :: l1) = (N.of_nat n + lines_len l1)%N).
  { unfold lines_len. simpl. rewrite lenN_app, Hl. unfold lenN at 1. rewrite length_take. f_equal. lia. }
  rewrite Hlen. split.
  - rewrite <- H1, drop_drop. f_equal. f_equal. lia.
  - unfold lenN in *. rewrite length_drop in H2. lia.
Qed.

Section facts.
Context {W : Wire}.
Context (from_slice : list N -> option Json) (get_ordinal : Json -> option N).
Context (from_value : Json -> option RolloutLine) (parse_rfc3339 : str -> option Z).
Context (sub : option N).

Abbreviation rline := (read_line from_slice get_ordinal from_value parse_rfc3339 sub).
Abbreviation rlines := (read_lines from_slice get_ordinal from_value parse_rfc3339 sub).
Abbreviation rsteps := (read_projection_steps from_slice get_ordinal from_value parse_rfc3339).

Implicit Types (st : ReadState) (l : list N) (ls : list (list N)).

(** ** One line *)

(** The state from which the next pass would start, and the state with more
    steps in front. *)
Definition resumed (ord off : N) : ReadState := mkRead [] ord off 0 off.

Definition after (p : list RolloutProjectionStep) st : ReadState :=
  mkRead (p ++ projections st) (next_ordinal st) (next_offset st) (pending_rejected_line_count st)
    (line_start_offset st).

Definition without_steps st : ReadState :=
  mkRead [] (next_ordinal st) (next_offset st) (pending_rejected_line_count st) (line_start_offset st).

Lemma after_without st : after (projections st) (without_steps st) = st.
Proof. destruct st. unfold after. simpl. by rewrite app_nil_r. Qed.

Ltac line_cases :=
  repeat match goal with
  | |- context [match ?x with _ => _ end] => destruct x eqn:?; simpl; try done
  end.

Lemma read_line_after p st l :
  rline (after p st) l =
  match rline st l with Ok st' => Ok (after p st') | Err e => Err e end.
Proof.
  unfold read_line, reject_line, after. simpl.
  line_cases; by rewrite ?app_assoc.
Qed.

Lemma read_lines_after p st ls :
  rlines (after p st) ls = match rlines st ls with Ok st' => Ok (after p st') | Err e => Err e end.
Proof.
  revert st. induction ls as [|l ls IH]; intros st; [done|]. simpl. rewrite read_line_after.
  destruct (rline st l); simpl; [apply IH|done].
Qed.

Lemma read_lines_app st ls1 ls2 :
  rlines st (ls1 ++ ls2) = (let? st' := rlines st ls1 in rlines st' ls2).
Proof.
  revert st. induction ls1 as [|l ls1 IH]; intros st; [done|]. simpl.
  destruct (rline st l); simpl; [apply IH|done].
Qed.

(** The ordinal after some steps, and steps that follow each other. *)
Definition step_end (ord : N) (step : RolloutProjectionStep) : N :=
  match step with Line p => (pl_ordinal p + 1)%N | SkippedOrdinalRange _ stop => stop end.

Definition next_after (ord : N) (steps : list RolloutProjectionStep) : N := fold_left step_end steps ord.

(** A line can be written when its items have a creation time. *)
Definition timestamped (p : ProjectedRolloutLine) : Prop :=
  forall ch, ch ∈ changed_items (pl_changes p) ->
    is_Some (coalesce (hic_started_at_ms ch) (pl_fallback_created_at_ms p)).

Fixpoint contiguous (ord : N) (steps : list RolloutProjectionStep) : Prop :=
  match steps with
  | [] => True
  | Line p :: rest => pl_ordinal p = ord /\ timestamped p /\ contiguous (ord + 1) rest
  | SkippedOrdinalRange start stop :: rest => start = ord /\ (ord < stop)%N /\ contiguous stop rest
  end.

Lemma contiguous_app ord s1 s2 :
  contiguous ord (s1 ++ s2) <-> contiguous ord s1 /\ contiguous (next_after ord s1) s2.
Proof.
  revert ord. induction s1 as [|[p|a b] s1 IH]; intros ord; simpl; [tauto| |].
  - rewrite IH. unfold next_after. simpl. split; [|].
    + intros (-> & Ht & H1 & H2). done.
    + intros ((-> & Ht & H1) & H2). done.
  - rewrite IH. unfold next_after. simpl. tauto.
Qed.

(** A line either moves the checkpoint behind it, with the steps it gives, or
    leaves the checkpoint where it is. *)
Definition commits st st' : Prop :=
  exists new, projections st' = projections st ++ new /\ contiguous (next_ordinal st) new /\
    next_ordinal st' = next_after (next_ordinal st) new /\ pending_rejected_line_count st' = 0%N /\
    next_offset st' = line_start_offset st' /\
    forall p, Line p ∈ new -> (pl_start_byte_offset p <= pl_end_byte_offset p <= next_offset st')%N.

Definition defers st st' : Prop :=
  projections st' = projections st /\ next_ordinal st' = next_ordinal st /\
  next_offset st' = next_offset st.

Lemma read_line_outcome st l st' :
  rline st l = Ok st' ->
  line_start_offset st' = (line_start_offset st + lenN l)%N /\ (commits st st' \/ defers st st').
Proof.
  unfold read_line, checked_add_u64. destruct (_ <=? U64_MAX)%N eqn:Eend; [|done].
  destruct (forallb is_ascii_whitespace l).
  { intros [= <-]. split; [done|]. destruct (N.eqb_spec (pending_rejected_line_count st) 0) as [E|E].
    - left. exists []. simpl. rewrite app_nil_r. split_and!; try done. intros p Hp. by apply elem_of_nil in Hp.
    - by right. }
  assert (Hrej : forall st', Ok (reject_line (line_start_offset st + lenN l) st) = Ok (E := StoreError) st' ->
    line_start_offset st' = (line_start_offset st + lenN l)%N /\ (commits st st' \/ defers st st')).
  { intros ? [= <-]. split; [done|]. by right. }
  destruct (from_slice l) as [value|]; [|by apply Hrej].
  destruct (match from_value value ≫= rl_ordinal with Some _ => _ | None => _ end) as [ord|];
    [|destruct (from_value value); [done|by apply Hrej]].
  destruct (N.ltb_spec ord (next_ordinal st)) as [|Hord]; [done|].
  destruct (from_value value) as [line|]; [|by apply Hrej].
  destruct (_ <? _)%N eqn:Egap; [done|]. 
  set (changes := if match sub with Some start => (ord <? start)%N | None => false end
                  then empty_changes else project_rollout_line line).
  set (needs := existsb _ (changed_items changes)).
  destruct (if needs then Some <$> parse_rfc3339 (rl_timestamp line) else Some None)
    as [fb|] eqn:Efb; [|by apply Hrej].
  destruct (ord + 1 <=? U64_MAX)%N eqn:Eord; [|done]. intros Hst. injection Hst as <-. split; [done|]. left.
  set (p := mkProjected _ _ _ _ _).
  assert (Ht : timestamped p).
  { intros ch Hch. simpl in Hch |- *. destruct (hic_started_at_ms ch) as [z|] eqn:Ez; [by eexists|].
    simpl. destruct needs eqn:En.
    - destruct (parse_rfc3339 (rl_timestamp line)); simplify_eq/=. by eexists.
    - exfalso. apply not_true_iff_false in En. apply En. apply existsb_exists. exists ch.
      rewrite Ez. split; [by apply list_elem_of_In|done]. }
  assert (Hb : (pl_start_byte_offset p <= pl_end_byte_offset p <= line_start_offset st + lenN l)%N)
    by (simpl; lia).
  eexists. split; [done|]. simpl. destruct (N.ltb_spec 0 (ord - next_ordinal st)) as [Hs|Hs]; simpl.
  - split_and!; try done; [lia|]. intros q Hq. by assert (q = p) as -> by set_solver.
  - assert (ord = next_ordinal st) as Eo by lia.
    split_and!; try done. intros q Hq. by assert (q = p) as -> by set_solver.
Qed.

(** ** Many lines *)

(** What is known of a pass over [ls] that started at [off] with [ord]. *)
Record reading (ord off : N) ls st : Prop := {
  rd_start : line_start_offset st = (off + lines_len ls)%N;
  rd_contiguous : contiguous ord (projections st);
  rd_ordinal : next_ordinal st = next_after ord (projections st);
  rd_resume : exists done rest, ls = done ++ rest /\ next_offset st = (off + lines_len done)%N /\
    rlines (resumed (next_ordinal st) (next_offset st)) rest = Ok (without_steps st);
  rd_bounds : forall p, Line p ∈ projections st ->
    (pl_start_byte_offset p <= pl_end_byte_offset p <= next_offset st)%N;
}.

Lemma reading_snoc ord off ls st l st' :
  reading ord off ls st -> rline st l = Ok st' -> reading ord off (ls ++ [l]) st'.
Proof.
  intros [H1 H2 H3 (d & r & Hd & Ho & Hr) H5] Hl.
  destruct (read_line_outcome _ _ _ Hl) as [Hs Hc].
  assert (Hs' : line_start_offset st' = (off + lines_len (ls ++ [l]))%N).
  { rewrite Hs, H1, lines_len_app. unfold lines_len. simpl. rewrite app_nil_r. lia. }
  destruct Hc as [(new & Hp & Hcont & Hord & Hpend & Hoff & Hnew)|(Hp & Hord & Hoff)].
  - split; [done| | | |].
    + rewrite Hp. apply contiguous_app. by rewrite <- H3.
    + rewrite Hp, Hord. unfold next_after in *. rewrite fold_left_app. by rewrite <- H3.
    + exists (ls ++ [l]), []. rewrite app_nil_r. split_and!; [done|by rewrite Hoff|].
      simpl. unfold resumed, without_steps. by rewrite Hpend, Hoff.
    + intros p. rewrite Hp, elem_of_app. intros [Hin|Hin]; [|by apply Hnew].
      specialize (H5 p Hin). rewrite Hoff, Hs, H1, Hd, lines_len_app. lia.
  - split; [done|by rewrite Hp|by rewrite Hp, Hord| |rewrite Hp, Hoff; exact H5].
    exists d, (r ++ [l]). rewrite Hord, Hoff, Hd, app_assoc. split_and!; [done|done|].
    rewrite read_lines_app, Hr. simpl.
    rewrite <- (after_without st) in Hl. rewrite read_line_after in Hl.
    destruct (rline (without_steps st) l) as [st1|]; [|done]. injection Hl as <-. simpl.
    f_equal. unfold without_steps, after in *. simpl in *.
    assert (Hn : projections st1 = []).
    { apply (app_inv_head (projections st)). by rewrite Hp, app_nil_r. }
    destruct st1. simpl in *. by subst.
Qed.

Lemma reading_lines ord off ls0 st0 ls st :
  reading ord off ls0 st0 -> rlines st0 ls = Ok st -> reading ord off (ls0 ++ ls) st.
Proof.
  revert ls0 st0. induction ls as [|l ls IH]; intros ls0 st0 Hr Hl; simpl in Hl.
  { injection Hl as <-. by rewrite app_nil_r. }
  destruct (rline st0 l) as [st1|] eqn:E; [|done]. simpl in Hl.
  replace (ls0 ++ l :: ls) with ((ls0 ++ [l]) ++ ls) by (by rewrite <- app_assoc).
  eapply IH; [|done]. by eapply reading_snoc.
Qed.

Lemma reading_from_start ord off ls st :
  rlines (resumed ord off) ls = Ok st -> reading ord off ls st.
Proof.
  intros Hl. apply (reading_lines ord off [] (resumed ord off)); [|done]. split; try done.
  - unfold lines_len, lenN. simpl. lia.
  - exists [], []. split_and!; [done| |done]. unfold lines_len, lenN. simpl. lia.
  - intros p Hp. by apply elem_of_nil in Hp.
Qed.

(** ** Passes *)

(** A pass can be resumed: when reading a file from a checkpoint gives some
    steps and a new checkpoint, reading the file after more bytes were appended
    gives those steps followed by what a pass from the new checkpoint gives,
    with the same end and the same error if there is one.  Lines that are
    deferred, because they cannot be parsed yet or are cut off at the end of the
    file, are read again. *)
Lemma two_passes c1 c2 off ord steps off1 :
  rsteps (FileContents c1) off ord sub = Ok (steps, off1) ->
  rsteps (FileContents (c1 ++ c2)) off ord sub =
  (let? r := rsteps (FileContents (c1 ++ c2)) off1 (next_after ord steps) sub in
   Ok (steps ++ r.1, r.2)).
Proof.
  unfold read_projection_steps. destruct (N.ltb_spec (lenN c1) off) as [|Hlen]; [done|].
  set (b1 := drop (N.to_nat off) c1).
  destruct (rlines (mkRead [] ord off 0 off) (complete_lines [] b1)) as [st|] eqn:Est; [|done].
  simpl. intros [= <- <-].
  destruct (reading_from_start _ _ _ _ Est) as [H1 H2 H3 (d & r & Hd & Ho & Hr) _].
  assert (Hlen2 : (lenN (c1 ++ c2) <? off)%N = false) by (apply N.ltb_ge; rewrite lenN_app; lia).
  rewrite Hlen2.
  assert (Hb : drop (N.to_nat off) (c1 ++ c2) = b1 ++ c2).
  { unfold b1. rewrite drop_app_le; [done|]. unfold lenN in Hlen. lia. }
  rewrite Hb, complete_lines_app. set (ls2 := complete_lines (partial_line [] b1) c2).
  destruct (complete_lines_drop d (r ++ ls2) (b1 ++ c2)) as [Hrest _].
  { rewrite complete_lines_app, Hd, <- app_assoc. done. }
  assert (Hd2 : (lines_len d <= lenN b1)%N).
  { apply (complete_lines_drop d r b1 Hd). }
  assert (Hoff1 : (lenN (c1 ++ c2) <? next_offset st)%N = false).
  { apply N.ltb_ge. rewrite Ho, lenN_app. unfold b1, lenN in *. rewrite length_drop in Hd2. lia. }
  rewrite Hoff1, <- H3.
  assert (Hdrop : drop (N.to_nat (next_offset st)) (c1 ++ c2) =
    drop (N.to_nat (lines_len d)) (b1 ++ c2)).
  { rewrite <- Hb, drop_drop, Ho. f_equal. lia. }
  rewrite Hdrop, Hrest, !read_lines_app, Est. simpl.
  change (mkRead [] (next_ordinal st) (next_offset st) 0 (next_offset st))
    with (resumed (next_ordinal st) (next_offset st)). rewrite Hr. simpl.
  rewrite <- (after_without st) at 1. rewrite read_lines_after.
  destruct (rlines (without_steps st) ls2) as [st2|]; done.
Qed.

(** ** Writing what was read *)

Lemma fold_result_app {A S} (f : S -> A -> result S StoreError) (l1 l2 : list A) s :
  fold_result f (l1 ++ l2) s = (let? s' := fold_result f l1 s in fold_result f l2 s').
Proof.
  revert s. induction l1 as [|x l1 IH]; intros s; [done|]. simpl.
  destruct (f s x); simpl; [apply IH|done].
Qed.

(** The tables do not depend on the checkpoint until it is written. *)
Definition at_checkpoint (c : option (Z * Z)) (db : Db) : Db :=
  mkDb (thread_turns db) (thread_items db) c.

Definition ok_at {A} (g : A -> A) (r : result A StoreError) : result A StoreError :=
  match r with Ok x => Ok (g x) | Err e => Err e end.

Lemma fold_result_map {A S} (f : S -> A -> result S StoreError) (g : S -> S) (l : list A) s :
  (forall s x, f (g s) x = ok_at g (f s x)) -> fold_result f l (g s) = ok_at g (fold_result f l s).
Proof.
  intros Hf. revert s. induction l as [|x l IH]; intros s; [done|]. simpl. rewrite Hf.
  destruct (f s x); simpl; [apply IH|done].
Qed.

Lemma apply_change_set_at c o a b fb ch db :
  apply_change_set o a b fb ch (at_checkpoint c db) = ok_at (at_checkpoint c) (apply_change_set o a b fb ch db).
Proof.
  unfold apply_change_set. rewrite <- (fold_result_map _ (at_checkpoint c)).
  - f_equal. generalize (changed_turns ch). intros ts. revert db.
    induction ts as [|t ts IH]; intros db; [done|]. simpl. by rewrite <- IH.
  - intros s x. unfold apply_item_change. by destruct (coalesce _ _).
Qed.

Lemma apply_step_at c s step :
  apply_step (at_checkpoint c s.1, s.2) step =
  ok_at (fun s => (at_checkpoint c s.1, s.2)) (apply_step s step).
Proof.
  destruct s as [db n], step as [p|x y]; simpl.
  - destruct (sqlite_integer _ _); simpl; [|done]. destruct (negb _); [done|].
    destruct (sqlite_integer _ _); simpl; [|done]. destruct (sqlite_integer _ _); simpl; [|done].
    rewrite apply_change_set_at. destruct (apply_change_set _ _ _ _ _ _); simpl; [|done].
    by destruct (n =? I64_MAX)%Z.
  - destruct (sqlite_integer _ _); simpl; [|done]. destruct (negb _); [done|].
    destruct (sqlite_integer _ _); simpl; [|done]. by destruct (_ <=? _)%Z.
Qed.

Lemma sqlite_integer_ok n field : (Z.of_N n <= I64_MAX)%Z -> sqlite_integer n field = Ok (Z.of_N n).
Proof. intros Hn. unfold sqlite_integer. destruct (Z.leb_spec (Z.of_N n) I64_MAX); [done|lia]. Qed.

Lemma apply_change_set_ok o a b fb ch db :
  (forall i, i ∈ changed_items ch -> is_Some (coalesce (hic_started_at_ms i) fb)) ->
  exists db', apply_change_set o a b fb ch db = Ok db'.
Proof.
  unfold apply_change_set. generalize (fold_left (apply_turn_change o a b) (changed_turns ch) db).
  induction (changed_items ch) as [|i l IH]; intros d Hi; [by eexists|]. simpl.
  unfold apply_item_change at 1. destruct (Hi i) as [z ->]; [set_solver|]. simpl. apply IH. set_solver.
Qed.

Lemma next_after_ge ord steps : contiguous ord steps -> (ord <= next_after ord steps)%N.
Proof.
  revert ord. induction steps as [|[p|x y] steps IH]; intros ord; [unfold next_after; simpl; lia|..].
  - intros (<- & _ & H2). apply IH in H2. unfold next_after in *. simpl in *. lia.
  - intros (-> & Hlt & H2). apply IH in H2. unfold next_after in *. simpl in *. lia.
Qed.

Lemma apply_steps_ok steps ord db :
  contiguous ord steps -> (Z.of_N (next_after ord steps) <= I64_MAX)%Z ->
  (forall p, Line p ∈ steps -> (Z.of_N (pl_start_byte_offset p) <= I64_MAX)%Z /\
                               (Z.of_N (pl_end_byte_offset p) <= I64_MAX)%Z) ->
  exists db', fold_result apply_step steps (db, Z.of_N ord) = Ok (db', Z.of_N (next_after ord steps)).
Proof.
  revert ord db. induction steps as [|[p|x y] steps IH]; intros ord db Hc Hn Hb; [by eexists|..].
  - destruct Hc as (Ho & Ht & Hc). pose proof (next_after_ge _ _ Hc) as Hge.
    assert (Ena : next_after ord (Line p :: steps) = next_after (ord + 1) steps)
      by (unfold next_after; simpl; by rewrite Ho).
    rewrite Ena in *. cbn [fold_result]. unfold apply_step at 1. rewrite Ho.
    rewrite sqlite_integer_ok by lia. simpl. rewrite Z.eqb_refl. simpl.
    destruct (Hb p) as [Hb1 Hb2]; [set_solver|]. rewrite !sqlite_integer_ok by done. simpl.
    destruct (apply_change_set_ok (Z.of_N ord) (Z.of_N (pl_start_byte_offset p))
      (Z.of_N (pl_end_byte_offset p)) (pl_fallback_created_at_ms p) (pl_changes p) db Ht) as [db1 ->].
    simpl. destruct (Z.eqb_spec (Z.of_N ord) I64_MAX); [lia|]. simpl.
    replace (Z.of_N ord + 1)%Z with (Z.of_N (ord + 1)) by lia. apply IH; [done|done|]. set_solver.
  - destruct Hc as (-> & Hlt & Hc). pose proof (next_after_ge _ _ Hc) as Hge.
    assert (Ena : next_after ord (SkippedOrdinalRange ord y :: steps) = next_after y steps) by done.
    rewrite Ena in *. cbn [fold_result]. unfold apply_step at 1.
    rewrite !sqlite_integer_ok by lia. simpl. rewrite Z.eqb_refl. simpl.
    destruct (Z.leb_spec (Z.of_N y) (Z.of_N ord)); [lia|]. simpl. apply IH; [done|done|]. set_solver.
Qed.

Lemma read_steps_reading c off ord steps next :
  rsteps (FileContents c) off ord sub = Ok (steps, next) ->
  contiguous ord steps /\ (off <= next)%N /\
  (forall p, Line p ∈ steps -> (pl_start_byte_offset p <= pl_end_byte_offset p <= next)%N).
Proof.
  unfold read_projection_steps. destruct (_ <? _)%N; [done|].
  destruct (rlines _ _) as [st|] eqn:E; [|done]. simpl. intros [= <- <-].
  destruct (reading_from_start _ _ _ _ E) as [_ H2 _ (d & r & _ & Ho & _) H5].
  split_and!; [done|lia|done].
Qed.

(** Whatever a pass reads, the transaction accepts: the ordinals of the
    steps follow the checkpoint without a gap, every item has a creation time
    and the offsets are within the file, so that writing them succeeds and
    leaves the checkpoint at the end of what was read, as long as the numbers
    fit a 64-bit integer of SQLite. *)
Theorem what_is_read_is_written c off ord initial steps next db :
  default (0%Z, Z.of_N initial) (projection_checkpoint db) = (Z.of_N off, Z.of_N ord) ->
  rsteps (FileContents c) off ord sub = Ok (steps, next) ->
  (Z.of_N initial <= I64_MAX)%Z -> (Z.of_N next <= I64_MAX)%Z ->
  (Z.of_N (next_after ord steps) <= I64_MAX)%Z ->
  exists db', apply_projection off next initial steps db = Ok db' /\
    projection_checkpoint db' = Some (Z.of_N next, Z.of_N (next_after ord steps)).
Proof.
  intros Hck Hr Hi Hn Ho. destruct (read_steps_reading _ _ _ _ _ Hr) as (Hc & Hle & Hb).
  unfold apply_projection. rewrite sqlite_integer_ok by done. simpl. rewrite Hck.
  rewrite sqlite_integer_ok by lia. simpl. rewrite Z.eqb_refl. simpl.
  destruct (apply_steps_ok steps ord db Hc Ho) as [db' ->].
  { intros p Hp. specialize (Hb p Hp). lia. }
  simpl. rewrite sqlite_integer_ok by done. simpl. eexists. done.
Qed.

(** ** Materialising in passes *)

Abbreviation materialize := (materialize_to_sqlite from_slice get_ordinal from_value parse_rfc3339).

Lemma sqlite_integer_inv n field z : sqlite_integer n field = Ok z -> z = Z.of_N n.
Proof. unfold sqlite_integer. destruct (_ <=? _)%Z; [|done]. by intros [= <-]. Qed.

Lemma apply_step_next db n step db' n' :
  apply_step (db, n) step = Ok (db', n') -> n' = Z.of_N (step_end 0 step).
Proof.
  unfold apply_step. destruct step as [p|x y].
  - destruct (sqlite_integer (pl_ordinal p) _) as [o|] eqn:Eo; simpl; [|done].
    destruct (Z.eqb_spec o n) as [->|]; simpl; [|done].
    destruct (sqlite_integer (pl_start_byte_offset p) _) as [x|]; simpl; [|done].
    destruct (sqlite_integer (pl_end_byte_offset p) _) as [y|]; simpl; [|done].
    destruct (apply_change_set n x y _ _ _); simpl; [|done]. destruct (n =? I64_MAX)%Z; [done|].
    intros [= _ <-]. apply sqlite_integer_inv in Eo. lia.
  - destruct (sqlite_integer x _) as [x'|]; simpl; [|done]. destruct (negb (x' =? n)%Z); simpl; [done|].
    destruct (sqlite_integer y _) as [z|] eqn:Ey; simpl; [|done]. destruct (_ <=? _)%Z; [done|].
    intros [= _ <-]. by apply sqlite_integer_inv in Ey.
Qed.

Lemma apply_steps_next steps db ord db' n' :
  fold_result apply_step steps (db, Z.of_N ord) = Ok (db', n') -> n' = Z.of_N (next_after ord steps).
Proof.
  revert db ord. induction steps as [|step steps IH]; intros db ord Hf; cbn [fold_result] in Hf.
  { by simplify_eq. }
  destruct (apply_step (db, Z.of_N ord) step) as [[db1 n1]|] eqn:E; [|done]. cbn [result_bind] in Hf.
  apply apply_step_next in E as ->. apply IH in Hf as ->. by destruct step.
Qed.

(** What a committed transaction did. *)
Lemma apply_projection_inv off next initial steps db db' ord :
  default (0%Z, Z.of_N initial) (projection_checkpoint db) = (Z.of_N off, Z.of_N ord) ->
  apply_projection off next initial steps db = Ok db' ->
  exists d, fold_result apply_step steps (db, Z.of_N ord) = Ok (d, Z.of_N (next_after ord steps)) /\
    db' = at_checkpoint (Some (Z.of_N next, Z.of_N (next_after ord steps))) d /\
    (Z.of_N next <= I64_MAX)%Z /\ (Z.of_N initial <= I64_MAX)%Z /\ (Z.of_N off <= I64_MAX)%Z.
Proof.
  intros Hck. unfold apply_projection.
  destruct (sqlite_integer initial _) as [i|] eqn:Ei; simpl; [|done].
  pose proof (sqlite_integer_inv _ _ _ Ei) as ->. rewrite Hck.
  destruct (sqlite_integer off _) as [o|] eqn:Eo; simpl; [|done].
  pose proof (sqlite_integer_inv _ _ _ Eo) as ->. rewrite Z.eqb_refl. simpl.
  destruct (fold_result _ _ _) as [[d n']|] eqn:Ef; simpl; [|done].
  pose proof (apply_steps_next _ _ _ _ _ Ef) as ->.
  destruct (sqlite_integer next _) as [z|] eqn:Ez; simpl; [|done]. intros [= <-].
  pose proof (sqlite_integer_inv _ _ _ Ez) as ->. exists d.
  unfold sqlite_integer in Ei, Eo, Ez.
  destruct (Z.leb_spec (Z.of_N initial) I64_MAX); [|done].
  destruct (Z.leb_spec (Z.of_N off) I64_MAX); [|done].
  destruct (Z.leb_spec (Z.of_N next) I64_MAX); [|done]. done.
Qed.

(** A transaction of two runs of steps is a transaction of the first followed by
    one of the second. *)
Lemma apply_projection_compose off off1 off2 initial s1 s2 db db1 ord :
  default (0%Z, Z.of_N initial) (projection_checkpoint db) = (Z.of_N off, Z.of_N ord) ->
  apply_projection off off1 initial s1 db = Ok db1 ->
  apply_projection off off2 initial (s1 ++ s2) db = apply_projection off1 off2 initial s2 db1.
Proof.
  intros Hck Ha. destruct (apply_projection_inv _ _ _ _ _ _ _ Hck Ha) as (d & Hf & -> & H1 & H2 & H3).
  unfold apply_projection.
  rewrite (sqlite_integer_ok initial), (sqlite_integer_ok off), (sqlite_integer_ok off1) by done.
  cbn [result_bind]. rewrite Hck. simpl. rewrite !Z.eqb_refl. simpl. rewrite fold_result_app, Hf. cbn [result_bind].
  pose proof (fold_result_map apply_step
    (fun s => (at_checkpoint (Some (Z.of_N off1, Z.of_N (next_after ord s1))) s.1, s.2)) s2
    (d, Z.of_N (next_after ord s1)) (apply_step_at _)) as Hm. cbn [fst snd] in Hm. rewrite Hm.
  by destruct (fold_result apply_step s2 (d, Z.of_N (next_after ord s1))) as [[d1 n1]|].
Qed.

(** A pass from the checkpoint of the tables. *)
Lemma materialize_eq initial c db state off ord :
  projection_state db = Ok state -> default (0%N, initial) state = (off, ord) ->
  materialize (Ok (initial, sub)) (FileContents c) db =
  let? r := rsteps (FileContents c) off ord sub in
  if is_empty r.1 && (off =? r.2)%N then Ok db else apply_projection off r.2 initial r.1 db.
Proof.
  intros Es Ed. unfold materialize_to_sqlite. rewrite Es. cbn [result_bind].
  destruct state as [[o n]|]; cbn [default from_option id] in Ed |- *; injection Ed as -> ->;
    by destruct (rsteps (FileContents c) off ord sub) as [[? ?]|].
Qed.

(** The two ways to read the checkpoint agree. *)
Lemma projection_state_checkpoint initial db state off ord :
  projection_state db = Ok state -> default (0%N, initial) state = (off, ord) ->
  default (0%Z, Z.of_N initial) (projection_checkpoint db) = (Z.of_N off, Z.of_N ord).
Proof.
  unfold projection_state. destruct (projection_checkpoint db) as [[o n]|].
  - destruct (Z.ltb_spec o 0); [done|]. destruct (Z.ltb_spec n 0); [done|].
    intros [= <-] [= <- <-]. simpl. f_equal; lia.
  - by intros [= <-] [= <- <-].
Qed.

Lemma projection_state_at off ord db :
  projection_state (at_checkpoint (Some (Z.of_N off, Z.of_N ord)) db) = Ok (Some (off, ord)).
Proof.
  unfold projection_state. simpl. destruct (Z.ltb_spec (Z.of_N off) 0); [lia|].
  destruct (Z.ltb_spec (Z.of_N ord) 0); [lia|]. by rewrite !N2Z.id.
Qed.

(** A transaction with nothing to write changes nothing. *)
Lemma apply_nothing off initial ord d :
  (Z.of_N off <= I64_MAX)%Z -> (Z.of_N initial <= I64_MAX)%Z ->
  apply_projection off off initial [] (at_checkpoint (Some (Z.of_N off, Z.of_N ord)) d) =
  Ok (at_checkpoint (Some (Z.of_N off, Z.of_N ord)) d).
Proof.
  intros H1 H2. unfold apply_projection.
  rewrite (sqlite_integer_ok initial), !(sqlite_integer_ok off) by done.
  cbn [result_bind]. simpl. by rewrite Z.eqb_refl.
Qed.

(** C9: How often the rollout is materialised makes no difference: a pass over
    the file as it is now, followed by a pass over the file after it has grown,
    leaves the tables and the checkpoint that a single pass over the grown file
    would have left, or fails with the error with which that pass would have
    failed. *)
Theorem materialisation_is_incremental initial c1 c2 db db1 :
  materialize_to_sqlite from_slice get_ordinal from_value parse_rfc3339
    (Ok (initial, sub)) (FileContents c1) db = Ok db1 ->
  materialize_to_sqlite from_slice get_ordinal from_value parse_rfc3339
    (Ok (initial, sub)) (FileContents (c1 ++ c2)) db1 =
  materialize_to_sqlite from_slice get_ordinal from_value parse_rfc3339
    (Ok (initial, sub)) (FileContents (c1 ++ c2)) db.
Proof.
  destruct (projection_state db) as [state|] eqn:Es; cycle 1.
  { unfold materialize_to_sqlite. by rewrite Es. }
  destruct (default (0%N, initial) state) as [off ord] eqn:Ed.
  pose proof (projection_state_checkpoint _ _ _ _ _ Es Ed) as Hck.
  rewrite !(materialize_eq _ _ _ _ _ _ Es Ed).
  destruct (rsteps (FileContents c1) off ord sub) as [[s1 off1]|] eqn:E1; [|done].
  cbn [result_bind fst snd]. destruct (is_empty s1 && (off =? off1)%N) eqn:Ee.
  { intros [= <-]. by rewrite (materialize_eq _ _ _ _ _ _ Es Ed). }
  intros Ha. destruct (apply_projection_inv _ _ _ _ _ _ _ Hck Ha) as (d & Hf & Hdb1 & H1 & H2 & H3).
  destruct (read_steps_reading _ _ _ _ _ E1) as (_ & Hle1 & _).
  rewrite (two_passes _ c2 _ _ _ _ E1).
  rewrite (materialize_eq initial _ db1 (Some (off1, next_after ord s1)) off1 (next_after ord s1))
    by (rewrite ?Hdb1; try apply projection_state_at; done).
  destruct (rsteps (FileContents (c1 ++ c2)) off1 (next_after ord s1) sub) as [[s2 off2]|] eqn:E2; [|done].
  cbn [result_bind fst snd]. destruct (read_steps_reading _ _ _ _ _ E2) as (_ & Hle2 & _).
  assert (Hne : is_empty (s1 ++ s2) && (off =? off2)%N = false).
  { destruct s1; [|done]. simpl in Ee |- *. apply N.eqb_neq in Ee.
    assert ((off =? off2)%N = false) as -> by (apply N.eqb_neq; lia). apply andb_false_r. }
  rewrite Hne, (apply_projection_compose _ _ _ _ _ s2 _ _ _ Hck Ha).
  destruct (is_empty s2 && (off1 =? off2)%N) eqn:Ee2; [|done].
  apply andb_true_iff in Ee2 as [Hs2 ->%N.eqb_eq]. destruct s2; [|done].
  rewrite Hdb1. symmetry. by apply apply_nothing.
Qed.

(** ** The tables of a thread *)

(** A turn row and an item row written by lines below the ordinal [next]. *)
Definition turn_row_wf (next : Z) (r : TurnRow) : Prop :=
  (0 <= tr_rollout_ordinal r < next)%Z /\
  match tr_rollout_end_ordinal r with
  | Some o => is_terminal (tr_status r) = true /\ (tr_rollout_ordinal r <= o < next)%Z
  | None => tr_status r = TurnInProgress
  end.

Definition item_row_wf (next : Z) (r : ItemRow) : Prop :=
  (0 <= ir_rollout_ordinal r <= ir_updated_at_ordinal r)%Z /\ (ir_updated_at_ordinal r < next)%Z.

(** One row per turn and per item, all of them from lines that were read. *)
Record tables_wf (next : Z) (db : Db) : Prop := {
  wf_turn_ids : NoDup (tr_turn_id <$> thread_turns db);
  wf_item_keys : NoDup (item_row_key <$> thread_items db);
  wf_turn_rows : Forall (turn_row_wf next) (thread_turns db);
  wf_item_rows : Forall (item_row_wf next) (thread_items db);
}.

Definition db_wf (initial : N) (db : Db) : Prop :=
  let '(offset, next) := default (0%Z, Z.of_N initial) (projection_checkpoint db) in
  (0 <= offset)%Z /\ (0 <= next)%Z /\ tables_wf next db.

(** The rows of finished turns of [db] are those of [db']. *)
Definition keeps_finished (db db' : Db) : Prop :=
  forall r, r ∈ thread_turns db -> is_terminal (tr_status r) = true -> r ∈ thread_turns db'.

Lemma upsert_turn_row_keys x rows :
  tr_turn_id <$> upsert_turn_row x rows =
  (tr_turn_id <$> rows) ++ (if decide (tr_turn_id x ∈ tr_turn_id <$> rows) then [] else [tr_turn_id x]).
Proof.
  induction rows as [|r rows IH]; [done|]. cbn [upsert_turn_row fmap list_fmap].
  destruct (decide (tr_turn_id r = tr_turn_id x)) as [E|E].
  - rewrite decide_True by (rewrite E; set_solver). rewrite app_nil_r. cbn. f_equal. by destruct (row_is_open r).
  - cbn [fmap list_fmap app]. f_equal. etransitivity; [apply IH|]. f_equal. apply decide_ext.
    cbn [fmap list_fmap]. rewrite elem_of_cons. intuition congruence.
Qed.

Lemma upsert_item_row_keys x rows :
  item_row_key <$> upsert_item_row x rows =
  (item_row_key <$> rows) ++
  (if decide (item_row_key x ∈ item_row_key <$> rows) then [] else [item_row_key x]).
Proof.
  induction rows as [|r rows IH]; [done|]. cbn [upsert_item_row fmap list_fmap].
  destruct (decide (item_row_key r = item_row_key x)) as [E|E].
  - rewrite decide_True by (rewrite E; set_solver). rewrite app_nil_r. done.
  - cbn [fmap list_fmap app]. f_equal. etransitivity; [apply IH|]. f_equal. apply decide_ext.
    cbn [fmap list_fmap]. rewrite elem_of_cons. intuition congruence.
Qed.

Lemma NoDup_snoc_fresh {A} `{EqDecision A} (l : list A) x :
  NoDup l -> NoDup (l ++ (if decide (x ∈ l) then [] else [x])).
Proof.
  intros Hl. case_decide; [by rewrite app_nil_r|]. apply NoDup_app. split_and!; [done| |apply NoDup_singleton].
  set_solver.
Qed.

Lemma turn_row_wf_mono n m r : (n <= m)%Z -> turn_row_wf n r -> turn_row_wf m r.
Proof.
  intros Hnm [H1 H2]. split; [lia|]. destruct (tr_rollout_end_ordinal r); [|done]. split; [apply H2|lia].
Qed.

Lemma item_row_wf_mono n m r : (n <= m)%Z -> item_row_wf n r -> item_row_wf m r.
Proof. unfold item_row_wf. lia. Qed.

Lemma tables_wf_mono n m db : (n <= m)%Z -> tables_wf n db -> tables_wf m db.
Proof.
  intros Hnm [H1 H2 H3 H4]. split; [done|done|..].
  - eapply Forall_impl; [exact H3|]. intros r. by apply turn_row_wf_mono.
  - eapply Forall_impl; [exact H4|]. intros r. by apply item_row_wf_mono.
Qed.

(** The row a turn change inserts, and the open row it updates. *)
Lemma inserted_turn_row_wf o a b t : (0 <= o)%Z -> turn_row_wf (o + 1) (inserted_turn_row o a b t).
Proof. intros Ho. unfold turn_row_wf, inserted_turn_row. destruct (htc_status t); simpl; repeat split; lia || done. Qed.

Lemma updated_turn_row_wf o a b t r :
  (0 <= o)%Z -> turn_row_wf (o + 1) r -> turn_row_wf (o + 1) (updated_turn_row (inserted_turn_row o a b t) r).
Proof.
  intros Ho [H1 _]. unfold turn_row_wf, inserted_turn_row, updated_turn_row.
  destruct (htc_status t); simpl; repeat split; lia || done.
Qed.

Lemma upsert_turn_row_elem x rows r :
  r ∈ upsert_turn_row x rows ->
  r = x \/ r ∈ rows \/ exists r0, r0 ∈ rows /\ r = updated_turn_row x r0.
Proof.
  induction rows as [|r0 rows IH]; [set_solver|]. cbn [upsert_turn_row]. destruct (decide _); [|set_solver].
  rewrite elem_of_cons. destruct (row_is_open r0); set_solver.
Qed.

Lemma upsert_turn_row_keeps x rows r :
  r ∈ rows -> row_is_open r = false -> r ∈ upsert_turn_row x rows.
Proof.
  intros Hr Ho. induction rows as [|r0 rows IH]; [set_solver|]. cbn [upsert_turn_row].
  apply elem_of_cons in Hr as [<-|Hr]; destruct (decide _); [rewrite Ho| |..]; set_solver.
Qed.

Lemma fill_summary_wf n rows id o r : turn_row_wf n r -> turn_row_wf n (fill_summary rows id o r).
Proof. unfold fill_summary. by destruct (_ && _). Qed.

Lemma fill_summary_id rows id o r : tr_turn_id (fill_summary rows id o r) = tr_turn_id r.
Proof. unfold fill_summary. by destruct (_ && _). Qed.

Lemma summarise_item_wf n i id r : turn_row_wf n r -> turn_row_wf n (summarise_item i id r).
Proof.
  unfold summarise_item. by repeat case_match.
Qed.

Lemma summarise_item_id i id r : tr_turn_id (summarise_item i id r) = tr_turn_id r.
Proof.
  unfold summarise_item. by repeat case_match.
Qed.

(** A finished row of an earlier line is left alone. *)
Lemma finished_row_closed n r : turn_row_wf n r -> is_terminal (tr_status r) = true -> row_is_open r = false.
Proof. intros [_ H] Ht. unfold row_is_open. destruct (tr_rollout_end_ordinal r); [done|]. by rewrite H in Ht. Qed.

Lemma fill_summary_finished o rows id r :
  turn_row_wf o r -> is_terminal (tr_status r) = true -> fill_summary rows id o r = r.
Proof.
  intros [_ H] Ht. unfold fill_summary. destruct (tr_rollout_end_ordinal r) as [e|]; [|by rewrite H in Ht].
  rewrite bool_decide_false by (intros [=]; lia). rewrite bool_decide_false by (intros E; by rewrite E in Ht).
  by rewrite andb_false_r.
Qed.

Lemma summarise_item_finished o i id r :
  turn_row_wf o r -> is_terminal (tr_status r) = true -> summarise_item i id r = r.
Proof. intros Hr Ht. unfold summarise_item. by rewrite (finished_row_closed _ _ Hr Ht), andb_false_r. Qed.

(** The row [r], of a turn that a line before the ordinal [o] finished, is in [db]. *)
Definition finished_before (o : Z) (r : TurnRow) (db : Db) : Prop :=
  turn_row_wf o r /\ is_terminal (tr_status r) = true /\ r ∈ thread_turns db.

Lemma apply_turn_change_wf o a b db t :
  (0 <= o)%Z -> tables_wf (o + 1) db ->
  tables_wf (o + 1) (apply_turn_change o a b db t) /\
  (forall r, finished_before o r db -> finished_before o r (apply_turn_change o a b db t)).
Proof.
  intros Ho [H1 H2 H3 H4]. split; [split|]; [|done| |done|]; simpl.
  - rewrite <- list_fmap_compose, (list_fmap_ext _ tr_turn_id) by (intros; apply fill_summary_id).
    rewrite upsert_turn_row_keys. by apply NoDup_snoc_fresh.
  - apply Forall_fmap, Forall_forall. intros r Hr. apply fill_summary_wf.
    rewrite Forall_forall in H3.
    apply upsert_turn_row_elem in Hr as [->|[Hr|(r0 & Hr0 & ->)]];
      auto using inserted_turn_row_wf, updated_turn_row_wf.
  - intros r (Hr & Ht & Hin). split_and!; [done|done|]. simpl. apply list_elem_of_fmap. exists r. split.
    + symmetry. by apply fill_summary_finished.
    + apply upsert_turn_row_keeps; [done|]. by eapply finished_row_closed.
Qed.

Lemma upsert_item_row_wf o x rows :
  (0 <= o)%Z -> ir_rollout_ordinal x = o -> ir_updated_at_ordinal x = o ->
  Forall (item_row_wf (o + 1)) rows -> Forall (item_row_wf (o + 1)) (upsert_item_row x rows).
Proof.
  intros Ho H1 H2 Hr. induction Hr as [|r rows Hr Hrs IH]; cbn [upsert_item_row].
  - constructor; [|done]. unfold item_row_wf. lia.
  - destruct (decide _); constructor; [|done..]. unfold item_row_wf in *. simpl. lia.
Qed.

Lemma apply_item_change_wf o fb db i db' :
  (0 <= o)%Z -> tables_wf (o + 1) db -> apply_item_change o fb db i = Ok db' ->
  tables_wf (o + 1) db' /\ (forall r, finished_before o r db -> finished_before o r db').
Proof.
  intros Ho [H1 H2 H3 H4]. unfold apply_item_change. destruct (coalesce _ _); [|done]. intros [= <-].
  split; [split|]; simpl.
  - rewrite <- list_fmap_compose, (list_fmap_ext _ tr_turn_id) by (intros; apply summarise_item_id). done.
  - rewrite upsert_item_row_keys. by apply NoDup_snoc_fresh.
  - apply Forall_fmap, (Forall_impl _ _ _ H3). intros r. apply summarise_item_wf.
  - by apply upsert_item_row_wf.
  - intros r (Hr & Ht & Hin). split_and!; [done|done|]. apply list_elem_of_fmap. exists r.
    split; [|done]. symmetry. by eapply summarise_item_finished.
Qed.

Lemma apply_change_set_wf o a b fb ch db db' :
  (0 <= o)%Z -> tables_wf (o + 1) db -> apply_change_set o a b fb ch db = Ok db' ->
  tables_wf (o + 1) db' /\ (forall r, finished_before o r db -> finished_before o r db').
Proof.
  intros Ho. unfold apply_change_set. revert db. induction (changed_turns ch) as [|t ts IH]; intros db Hwf Hi.
  - simpl in Hi. revert db Hwf Hi. induction (changed_items ch) as [|i items IHi]; intros db Hwf Hi.
    { by injection Hi as <-. }
    cbn [fold_result] in Hi. destruct (apply_item_change o fb db i) as [d|] eqn:E; [|done].
    destruct (apply_item_change_wf _ _ _ _ _ Ho Hwf E) as [H1 H2].
    destruct (IHi d H1 Hi) as [H3 H4]. auto.
  - simpl in Hi. destruct (apply_turn_change_wf o a b db t Ho Hwf) as [H1 H2].
    destruct (IH _ H1 Hi) as [H3 H4]. auto.
Qed.

Lemma apply_step_wf db n step db' n' :
  (0 <= n)%Z -> tables_wf n db -> apply_step (db, n) step = Ok (db', n') ->
  (n <= n')%Z /\ tables_wf n' db' /\ (forall r, finished_before n r db -> finished_before n' r db').
Proof.
  intros Hn Hwf.
  assert (Hmono : forall m r d, (n <= m)%Z -> finished_before n r d -> finished_before m r d).
  { intros m r d Hm (H1 & H2). split; [|done]. by eapply turn_row_wf_mono. }
  destruct step as [p|x y]; cbn [apply_step].
  - destruct (sqlite_integer (pl_ordinal p) _) as [o|]; cbn [result_bind]; [|done].
    destruct (Z.eqb_spec o n) as [->|]; cbn [negb]; [|done].
    destruct (sqlite_integer (pl_start_byte_offset p) _) as [a|]; cbn [result_bind]; [|done].
    destruct (sqlite_integer (pl_end_byte_offset p) _) as [b|]; cbn [result_bind]; [|done].
    destruct (apply_change_set _ _ _ _ _ _) as [d|] eqn:E; cbn [result_bind]; [|done].
    destruct (n =? I64_MAX)%Z; [done|]. intros [= <- <-].
    destruct (apply_change_set_wf n a b _ _ db d Hn (tables_wf_mono n (n + 1) db ltac:(lia) Hwf) E)
      as [H1 H2].
    split_and!; [lia|done|]. intros r Hr. apply Hmono; [lia|auto].
  - destruct (sqlite_integer x _) as [o|]; cbn [result_bind]; [|done].
    destruct (Z.eqb_spec o n) as [->|]; cbn [negb]; [|done].
    destruct (sqlite_integer y _) as [z|]; cbn [result_bind]; [|done].
    destruct (Z.leb_spec z n); [done|]. intros [= <- <-].
    split_and!; [lia|eapply tables_wf_mono; [|done]; lia|]. intros r. apply Hmono. lia.
Qed.

Lemma apply_steps_wf steps db n db' n' :
  (0 <= n)%Z -> tables_wf n db -> fold_result apply_step steps (db, n) = Ok (db', n') ->
  (n <= n')%Z /\ tables_wf n' db' /\ (forall r, finished_before n r db -> finished_before n' r db').
Proof.
  revert db n. induction steps as [|step steps IH]; intros db n Hn Hwf Hs; cbn [fold_result] in Hs.
  { injection Hs as <- <-. split_and!; [lia|done|done]. }
  destruct (apply_step (db, n) step) as [[d m]|] eqn:E; [|done]. cbn [result_bind] in Hs.
  destruct (apply_step_wf _ _ _ _ _ Hn Hwf E) as (H1 & H2 & H3).
  destruct (IH d m ltac:(lia) H2 Hs) as (H4 & H5 & H6). split_and!; [lia|done|auto].
Qed.

(** C15: The tables of a thread stay consistent: a pass keeps one row per turn and
    one per item of a turn, a row is finished exactly when its turn is, no row
    is from a line after the checkpoint, and the row of a finished turn is final:
    no later line, duplicate or stale, changes its status, its times, its error
    or the summary it shows. *)
Theorem finished_turns_are_final initial file db db' :
  db_wf initial db -> materialize (Ok (initial, sub)) file db = Ok db' ->
  db_wf initial db' /\ keeps_finished db db'.
Proof.
  intros Hwf. unfold materialize_to_sqlite.
  destruct (projection_state db) as [state|] eqn:Es; cbn [result_bind]; [|done].
  intros Hm. assert (Hp : db' = db \/ exists off next steps, apply_projection off next initial steps db = Ok db').
  { revert Hm. destruct state as [[o n]|], file as [| |c]; cbn [default from_option id]; try done;
      try (intros [= <-]; by left).
    all: destruct (rsteps _ _ _ _) as [[steps next]|]; cbn [result_bind]; [|done].
    all: destruct (_ && _); [intros [= <-]; by left|right; eauto]. }
  destruct Hp as [->|(off & next & steps & Ha)]; [split; [done|by intros r]|].
  revert Ha. unfold apply_projection. destruct (sqlite_integer initial _) as [i|] eqn:Ei; [|done].
  apply sqlite_integer_inv in Ei as ->. cbn [result_bind]. unfold db_wf in Hwf.
  destruct (default _ _) as [eo n]. destruct Hwf as (H1 & H2 & H3).
  destruct (sqlite_integer off _) as [o|]; cbn [result_bind]; [|done].
  destruct (negb _); [done|]. destruct (fold_result _ _ _) as [[d n']|] eqn:Ef; [|done].
  cbn [result_bind]. destruct (sqlite_integer next _) as [z|] eqn:Ez; [|done].
  apply sqlite_integer_inv in Ez as ->. cbn [result_bind]. intros [= <-].
  destruct (apply_steps_wf _ _ _ _ _ H2 H3 Ef) as (H4 & H5 & H6). split.
  - unfold db_wf. simpl. split_and!; [lia|lia|]. by destruct H5.
  - intros r Hr Ht. apply (H6 r). split_and!; [|done|done].
    destruct H3 as [_ _ H7 _]. rewrite Forall_forall in H7. auto.
Qed.

End facts.

(** ** Examples *)

Section examples.

(** A JSON value is its line: a letter and a digit, the ordinal. *)
#[local] Instance line_wire : Wire := {|
  Json := list N; Opaque := unit; json_null := [];
  redact_secrets s := s; shlex_join := join [32%N];
  parse_command _ := []; uri_join base p := Some (base ++ s!"/" ++ p); native_path s := s;
  from_xml_str _ := None; now_v7 n := s!"uuid-" ++ digits_of_N (N.of_nat n) |}.

Definition line_from_slice (bytes : list N) : option (list N) :=
  match bytes with c :: _ => if (c =? ch "?")%N then None else Some bytes | [] => None end.

Definition line_ordinal (v : list N) : option N :=
  match v with _ :: d :: _ => Some (d - 48)%N | _ => None end.

Definition line_item (c : N) : option RolloutItem :=
  if (c =? ch "s")%N then Some (RI_EventMsg (Ev_TurnStarted (mkTurnStarted s!"t" None (Some 5%Z) None tt)))
  else if (c =? ch "e")%N then
    Some (RI_EventMsg (Ev_TurnComplete (mkTurnComplete s!"t" None None None (Some 9%Z) None None)))
  else if (c =? ch "m")%N then
    Some (RI_EventMsg (Ev_ItemCompleted (mkItemCompleted s!"thread" s!"t"
      (CoreAgentMessage s!"a" [s!"hi"] None None) None 8)))
  else None.

Definition line_from_value (v : list N) : option RolloutLine :=
  match v with
  | c :: _ => item ← line_item c; Some (mkLine s!"now" (line_ordinal v) item)
  | [] => None
  end.

Definition line_time (s : str) : option Z := Some 1000%Z.

Definition nl : str := [10%N].

(** A turn that starts, a line that is not JSON, a blank line, an item and half a
    line; then the rest of it. *)
Definition first_bytes : list N :=
  s!"s0" ++ nl ++ s!"?1" ++ nl ++ nl ++ s!"m2" ++ nl ++ s!"e".
Definition more_bytes : list N := s!"3" ++ nl ++ s!"s4" ++ nl.

Abbreviation line_materialize :=
  (@materialize_to_sqlite line_wire line_from_slice line_ordinal line_from_value line_time).

Definition first_db : Db :=
  match line_materialize (Ok (0%N, None)) (FileContents first_bytes) empty_db with Ok db => db | Err _ => empty_db end.

Definition second_db : Db :=
  match line_materialize (Ok (0%N, None)) (FileContents (first_bytes ++ more_bytes)) first_db with
  | Ok db => db | Err _ => empty_db end.

(** Later a stale start, an item and an end of the finished turn. *)
Definition last_bytes : list N := s!"s5" ++ nl ++ s!"m6" ++ nl ++ s!"e7" ++ nl.

Definition third_db : Db :=
  match line_materialize (Ok (0%N, None)) (FileContents (first_bytes ++ more_bytes ++ last_bytes)) second_db with
  | Ok db => db | Err _ => empty_db end.

(** The rejected line is skipped once the next ordinal shows that it had one; the
    half line waits; the finished turn shows its last message and ignores the
    second [TurnStarted]. *)
Example demo_tables :
  projection_checkpoint first_db = Some (10, 3)%Z /\
  projection_checkpoint second_db = Some (16, 5)%Z /\
  (fun r => (tr_status r, tr_started_at r, tr_completed_at r, tr_final_agent_item_id r)) <$> thread_turns second_db =
  [(TurnCompleted, None, Some 9%Z, Some s!"a")] /\
  projection_checkpoint third_db = Some (25, 8)%Z /\ thread_turns third_db = thread_turns second_db.
Proof. vm_compute. repeat split. Qed.

Lemma materialisation_is_incremental_witness :
  line_materialize (Ok (0%N, None)) (FileContents (first_bytes ++ more_bytes)) first_db =
  line_materialize (Ok (0%N, None)) (FileContents (first_bytes ++ more_bytes)) empty_db.
Proof. apply (@materialisation_is_incremental line_wire). vm_compute. reflexivity. Defined.

Definition first_steps : list RolloutProjectionStep :=
  match @read_projection_steps line_wire line_from_slice line_ordinal line_from_value line_time (FileContents first_bytes) 0 0 None with
  | Ok (steps, _) => steps | Err _ => [] end.

Lemma what_is_read_is_written_witness :
  exists db', apply_projection 0 10 0 first_steps empty_db = Ok db' /\
    projection_checkpoint db' = Some (Z.of_N 10, Z.of_N (next_after 0 first_steps)).
Proof.
  apply (@what_is_read_is_written line_wire line_from_slice line_ordinal line_from_value line_time None first_bytes 0 0 0
    first_steps 10 empty_db); vm_compute; (reflexivity || discriminate).
Defined.

Lemma empty_db_wf : db_wf 0 empty_db.
Proof. unfold db_wf. simpl. split_and!; [lia|lia|]. split; simpl; constructor. Qed.

Lemma finished_turns_are_final_witness :
  db_wf 0 third_db /\ keeps_finished second_db third_db /\
  tr_status <$> thread_turns second_db = [TurnCompleted].
Proof.
  pose proof (@finished_turns_are_final line_wire line_from_slice line_ordinal line_from_value line_time None 0) as Hpass.
  destruct (Hpass (FileContents first_bytes) empty_db first_db empty_db_wf) as [H1 _];
    [vm_compute; reflexivity|].
  destruct (Hpass (FileContents (first_bytes ++ more_bytes)) first_db second_db H1) as [H2 _];
    [vm_compute; reflexivity|].
  destruct (Hpass (FileContents (first_bytes ++ more_bytes ++ last_bytes)) second_db third_db H2) as [H3 H4];
    [vm_compute; reflexivity|].
  split; [exact H3|]. split; [exact H4|]. vm_compute. reflexivity.
Defined.

End examples.
